(* ===== verification/_CoqProject ===== *)
-Q . S2P
Prelude.v
IntrusiveList.v
WakeState.v
Waiters.v
Semaphore.v
Mutex.v
Event.v
CondVar.v
SharedMutex.v
Ring.v
Endian.v
Crc32.v
Sha.v
ShaVec.v
Sha256.v
Sha1.v
RpcBuffer.v
RpcTypes.v
RpcProtocol.v
Utf8.v
WebSocket.v
WsParser.v
Str.v
HttpCommon.v
HttpHeaders.v
HttpUrl.v
HttpChunk.v
HttpRequest.v
HttpMessage.v
HttpDecoder.v
HttpPlan.v
Base64.v
WsHandshake.v
HttpWriter.v
HttpReader.v
HttpRoute.v
HttpClient.v
