(* ===== verification/Prelude.v ===== *)
(** * A verification library for the Elio coroutine runtime

    Elio ([src/include/elio/]) is a header-only C++ library: coroutine tasks on a work-stealing
    scheduler, synchronization primitives that suspend coroutines instead of threads, network
    streams, and protocols on top of them (HTTP, WebSocket, an RPC system), with the hash functions
    these need.  This library models the parts of it that are algorithms over memory and proves
    that they do what they are for.  File names below are relative to [src/include/elio/].

    ** Conventions

    Definitions are executable and keep the names of the code.  Machine integers are [Z] with the
    wrap-around written out ([u32], [u64], [s64], [uwrap], [swrap]); bytes are [Byte.byte].  An exception
    is a value of [result]; an operation that throws after changing its object returns both the
    outcome and the new state.  Concurrent code is a step relation with one critical section or
    one atomic access per step, so that every interleaving is a run; the interleavings are the
    sequentially consistent ones.  Code outside the sources (processor instructions, system calls,
    the bytes a peer sends) is an argument of the definitions, with what its documentation says of it
    as a named hypothesis, and each property that has such a hypothesis is applied at concrete
    functions that satisfy it.

    ** Files

    - [Prelude] (this file): the notations, integer, byte and list lemmas, and tactics that the other
      files share.
    - [IntrusiveList]: [detail/intrusive_list.hpp], the doubly linked list of waiters, as a heap of nodes.
      Every operation refines the operation on sequences ([ilist_refines_sequence]).
    - [WakeState]: [sync/detail/wake_state.hpp], the atomic word on which notification, cancellation and
      destruction of an awaiter are arbitrated.  For every interleaving, one outcome is selected and
      the coroutine is scheduled at most once; the compare-exchange loops are linearizable and terminate.
    - [Semaphore]: [sync/semaphore.hpp], built on the two components above.  Permits are conserved, an
      awaiter reports an acquisition exactly when it was given a permit, nobody waits while a permit
      is free, and claims are first come first served.
    - [Waiters], [Mutex], [Event], [CondVar]: [sync/mutex.hpp], [sync/event.hpp], [sync/condition_variable.hpp], with the lemmas and
      tactics on queues of awaiters that they share with [Semaphore].  The mutex excludes, waits complete only when
      they were notified, a condition wait returns with its lock, and no suspended coroutine is lost.
    - [SharedMutex]: [sync/shared_mutex.hpp], the read-write lock on a packed atomic word.  Readers and writers exclude each other and
      no waiter is lost as long as the assertions of the code hold; a run in which one fails, and a reader then holds the lock
      together with a writer, is exhibited ([reader_and_writer_together]).
    - [Ring]: [sync/lockfree_ring.hpp], the multi-producer multi-consumer ring.  Every element pushed is
      popped exactly once and in ticket order, failures are justified by the contents, and no slot is
      accessed by two threads.
    - [Endian], [RpcBuffer], [RpcTypes], [RpcProtocol]: [rpc/rpc_endian.hpp], [rpc/rpc_buffer.hpp],
      [rpc/rpc_types.hpp] and [rpc/rpc_protocol.hpp].  Serialization round trips for the types built from
      the overloads, except containers of elements with an empty wire form, which the count guard refuses ([vector_of_empty_structs_rejected]), between hosts of either byte order; reads of every type stay in bounds on arbitrary input,
      and what [skip] and [read_bytes] do with a count that wraps around is stated exactly ([read_bytes_wraps]);
      requests and replies survive the trip through a stream with short reads and writes; a frame
      whose payload was damaged is rejected.
    - [Crc32], [Sha], [ShaVec], [Sha256], [Sha1]: [hash/crc32.hpp], [hash/sha256.hpp], [hash/sha1.hpp].  Every path
      (slicing tables, software rounds, Armv8 and x86 instruction sequences) computes the textbook
      definition, however the message is cut into pieces.
    - [Utf8], [WebSocket], [WsParser]: [http/websocket_frame.hpp].  UTF-8 validation is exact; the incremental
      frame parser is independent of how the bytes arrive, bounds what it buffers, and delivers
      what a conforming peer sends.
    - [Str], [HttpCommon], [HttpHeaders], [HttpUrl]: strings, and [http/http_common.hpp].  The header collection
      refines a table of field lines; URLs are printed and read back, with the exception stated in [url_reparse_host], query strings too, and a resolved
      path has no dot segments.
    - [HttpChunk], [HttpRequest], [HttpMessage]: [http/http_parser.hpp] and [http/http_message.hpp].  Chunk-size
      lines are accepted exactly as the grammar has them; the request parser never throws, gives the same message
      however the input is cut, and completes no message with ambiguous framing; a request that is
      serialized and parsed arrives as it was sent.
    - [HttpDecoder], [HttpPlan]: the response side of [http/http_parser.hpp], [http/http_response_head.hpp],
      [http/http_response_plan.hpp] and [http/http_message.hpp].  The response decoder is independent of how the
      bytes arrive, its members keep their types, and it accepts exactly the status lines of [status_line_exact]; what a server plans, in each of the four
      framings, is what a client decodes.
    - [Base64], [WsHandshake]: [http/websocket_handshake.hpp], the upgrade in [http/websocket_server.hpp] and the handshake of
      [http/websocket_client.hpp].  Base64 decoding is exact; what a client asks, a server accepts, and what the server
      answers the client reads from any pieces, ending with the same subprotocol; the bytes that follow go to the frame parser of [WebSocket], which loses no message and
      whose errors end the handshake.
    - [HttpWriter]: [http/http_body_writer.hpp], [http/http_streaming_response.hpp] and [http/http_response_sender.hpp].  A response reported as
      sent is read by the client with the body that its producer wrote; after a failure the client has the bytes
      that were confirmed and no more ([response_delivered]); a transport that makes progress sees the response to its end ([response_sent]).
    - [HttpReader]: [http/http_response_reader.hpp], [http/http_response_body_reader.hpp] and the class [exchange_state] of [http/http_client.hpp].
      What a handler reads, into buffers of any sizes and whatever fails, is the beginning of what the producer of the server wrote, all of it
      when the end is reported, and a connection is reused only when nothing else arrived on it ([body_received]); when nothing
      fails the end is reached ([body_completed]).
    - [HttpRoute]: [http/detail/route_plan.hpp], [http/detail/proxy_profile.hpp] and [http/detail/request_wire.hpp].  The credentials of a proxy are sent to that proxy only
      ([credentials_confined]); the host names that it resolves or verifies are plain ([decoded_host_plain]).
    - [HttpClient]: [http/http_client.hpp], requests and redirections.  A redirection carries nothing of the caller to another target, does not leave HTTPS, and their number is bounded
      ([redirects_confined]); the response that is returned is the one the server sent ([response_returned], [response_obtained]); no loop of a
      request runs on without its environment ([requests_terminate]).

    How they interact: [Semaphore], [Mutex], [Event], [CondVar] and [SharedMutex] keep their waiters in the list of [IntrusiveList] and wake
    them through [WakeState]; [RpcProtocol] frames what [RpcTypes] serializes with [RpcBuffer] and [Endian], and protects it
    with [Crc32]; [RpcTypes] states what a serializer promises to the containers and to the message
    builders as the class [CodecOk] and discharges it for every instance; [Sha1] and [Sha256] instantiate the
    context of [Sha], and their hardware paths are written with the vectors of [ShaVec]; [WsParser] proves
    the properties of the parser that [WebSocket] defines, which calls [Utf8]; [HttpRequest] fills the collection of
    [HttpHeaders] with the lines it reads, using [HttpChunk] for chunked bodies, and [HttpMessage] composes
    its serialization with that parser; [HttpPlan] composes the plan of a response with the decoder of
    [HttpDecoder]; [WsHandshake] composes the writer of a client with the request parser of a server, and its response with the decoder of the
    client; [HttpWriter] sends the plan of [HttpPlan] over a transport and composes it with the decoder of a client, and [HttpReader] composes it with the
    reader of the client, from the producer of the body to its consumer; [HttpClient] writes its requests with [HttpRoute], reads the answers with the exchanges of [HttpReader], and composes the two with
    the sender of [HttpWriter].

    ** Bounds and fuel

    Loops that are not structural take fuel.  [process_loop] of the WebSocket parser is given one more
    than the bytes buffered and every round consumes two ([process_loop_total]); [full_blocks] of the
    hash contexts is given the length of its input; [writev_loop] of the RPC writer is given the
    answers of the system, and [write_frame_completes] shows that it ends when they make progress.  The
    loops of the request parser are given two more than the bytes buffered ([request_parse_runs]), that of the response parser too
    ([drain_run]), and the loop over
    chunk extensions one more than the bytes of the line ([chunk_ext_loop_complete]); the read loop of the WebSocket client takes one round for every read and every response
    ([loop_reads]); the batches of the response writer are given one round more than the bytes to send, and each takes a byte; the rounds of [next] are bounded by
    the bytes in the window and to come ([credit_budget], [next_opening_ends], [next_body_ends]), and so are the loops of a request ([requests_terminate]).  The properties of [Ring] are about runs with fewer than [2^63 - capacity] pushes, where the signed
    differences of the code do not overflow; those of the hashes about messages of fewer than [2^61]
    bytes, whose length in bits fits the 64-bit field.

    ** Not modelled

    The scheduler with its queues and timers, the I/O backends, sockets, TLS, HTTP/2 and RDMA are system calls and calls of other
    libraries; tasks and promises are frames that the compiler generates.  Channels, the RPC client and server, the accept loops of the HTTP, WebSocket and server-sent-event endpoints,
    tunnels and connection pools are coroutines over these: what they call of the parsers, writers and locks is modelled, their scheduling is not; the text format of server-sent events is not covered.  In [RpcTypes] an unordered map is modelled with the placement of its
    entries as a parameter ([unordered_round_trip]) and apart from the universe [rty].  Weak memory orders are not
    modelled: the atomic accesses of the code use acquire and release orders, and the models
    interleave them sequentially consistently. *)

From Stdlib Require Export ZArith Lia.
From Stdlib Require Import Strings.Byte.
From stdpp Require Export base decidable list gmap numbers relations tactics.
Export stdpp.list_basics.list stdpp.list_relations.list stdpp.list_monad.list stdpp.list_misc.list.

Set Default Goal Selector "!".

Declare Scope elio_scope.
Delimit Scope elio_scope with elio.
#[global] Open Scope Z_scope.

(** ** Fallible code: exceptions as values *)

Inductive result (E A : Type) : Type :=
| Ok (a : A)
| Throw (e : E).
Arguments Ok {E A} a.
Arguments Throw {E A} e.

Definition rbind {E A B : Type} (r : result E A) (f : A -> result E B) : result E B :=
  match r with
  | Ok a => f a
  | Throw e => Throw e
  end.

Notation "'let?' p ':=' c 'in' k" := (rbind c (fun p => k))
  (at level 10, p pattern, c at level 100, k at level 200, only parsing) : elio_scope.
#[global] Open Scope elio_scope.

(** ** Machine integers: a [w]-bit unsigned integer is a [Z] reduced modulo [2^w] *)

Definition uwrap (w z : Z) : Z := z mod 2 ^ w.
Definition u8 (z : Z) : Z := uwrap 8 z.
Definition u16 (z : Z) : Z := uwrap 16 z.
Definition u32 (z : Z) : Z := uwrap 32 z.
Definition u64 (z : Z) : Z := uwrap 64 z.

(** The value of a [w]-bit pattern read as a two's complement integer. *)
Definition swrap (w z : Z) : Z := (z + 2 ^ (w - 1)) mod 2 ^ w - 2 ^ (w - 1).
Definition s64 (z : Z) : Z := swrap 64 z.

Definition UINT32_MAX : Z := 2 ^ 32 - 1.
Definition SIZE_MAX : Z := 2 ^ 64 - 1.
Definition INT32_MAX : Z := 2 ^ 31 - 1.

Lemma uwrap_range w z : 0 <= w -> 0 <= uwrap w z < 2 ^ w.
Proof. intros. apply Z.mod_pos_bound, Z.pow_pos_nonneg; lia. Qed.

Lemma uwrap_small w z : 0 <= z < 2 ^ w -> uwrap w z = z.
Proof. apply Z.mod_small. Qed.

Lemma u64_small z : 0 <= z < 2 ^ 64 -> u64 z = z.
Proof. apply uwrap_small. Qed.

Lemma u32_small z : 0 <= z < 2 ^ 32 -> u32 z = z.
Proof. apply uwrap_small. Qed.

Lemma uwrap_swrap w z : uwrap w (swrap w z) = uwrap w z.
Proof. unfold uwrap, swrap. rewrite Zminus_mod_idemp_l. by replace (z + 2 ^ (w - 1) - 2 ^ (w - 1)) with z by lia. Qed.

Lemma swrap_small w z : 0 < w -> - 2 ^ (w - 1) <= z < 2 ^ (w - 1) -> swrap w z = z.
Proof.
  intros Hw Hz. unfold swrap.
  assert (2 ^ w = 2 * 2 ^ (w - 1)) as E
    by (rewrite <-Z.pow_succ_r by lia; f_equal; lia).
  rewrite Z.mod_small; lia.
Qed.

Lemma s64_small z : - 2 ^ 63 <= z < 2 ^ 63 -> s64 z = z.
Proof. apply (swrap_small 64); lia. Qed.

(** ** Bytes *)

Abbreviation byte := Corelib.Init.Byte.byte.

Definition b2z (b : byte) : Z := Z.of_N (Byte.to_N b).

Definition z2b (z : Z) : byte :=
  match Byte.of_N (Z.to_N (z mod 256)) with
  | Some b => b
  | None => Byte.x00
  end.

Lemma b2z_range b : 0 <= b2z b < 256.
Proof. unfold b2z. pose proof (Byte.to_N_bounded b). lia. Qed.

Lemma z2b_b2z b : z2b (b2z b) = b.
Proof. destruct b; reflexivity. Qed.

Lemma b2z_z2b z : b2z (z2b z) = z mod 256.
Proof.
  unfold z2b, b2z. pose proof (Z.mod_pos_bound z 256 ltac:(lia)) as Hz.
  destruct (Byte.of_N (Z.to_N (z mod 256))) as [b|] eqn:E.
  - apply Byte.to_of_N in E. rewrite E. lia.
  - apply Byte.of_N_None_iff in E. lia.
Qed.

Lemma b2z_z2b_small z : 0 <= z < 256 -> b2z (z2b z) = z.
Proof. intros. rewrite b2z_z2b. apply Z.mod_small; lia. Qed.

Lemma b2z_inj b1 b2 : b2z b1 = b2z b2 -> b1 = b2.
Proof. intros H. rewrite <-(z2b_b2z b1), <-(z2b_b2z b2). by f_equal. Qed.

#[global] Instance b2z_Inj : Inj (=) (=) b2z.
Proof. intros ??. apply b2z_inj. Qed.

#[global] Instance byte_EqDecision : EqDecision byte.
Proof. intros x y. destruct (Byte.byte_eq_dec x y); [left | right]; done. Defined.

(** Lengths of C++ containers, as the [size_t] the code sees. *)
Definition zlen {A} (l : list A) : Z := Z.of_nat (length l).

Lemma zlen_nonneg {A} (l : list A) : 0 <= zlen l.
Proof. unfold zlen. lia. Qed.

Lemma zlen_app {A} (l k : list A) : zlen (l ++ k) = zlen l + zlen k.
Proof. unfold zlen. rewrite length_app. lia. Qed.

Lemma zlen_cons {A} (x : A) (l : list A) : zlen (x :: l) = 1 + zlen l.
Proof. unfold zlen. simpl. lia. Qed.

Lemma nth_map_seq {A} (f : nat -> A) n i d : (i < n)%nat -> nth i (map f (seq 0 n)) d = f i.
Proof.
  intros Hi. rewrite (nth_indep _ d (f O)) by (by rewrite length_map, length_seq). by rewrite map_nth, seq_nth.
Qed.

(** ** Proof automation *)

Create HintDb elio.
#[export] Hint Resolve zlen_nonneg b2z_range : elio.

(** Split every conjunction of the context. *)
Ltac split_ands :=
  repeat match goal with H : _ /\ _ |- _ => destruct H end.

(** Turn boolean comparisons of the context and of the goal into propositions. *)
Ltac zbool :=
  repeat match goal with
  | H : (_ && _)%bool = true |- _ => apply andb_true_iff in H; destruct H
  | H : (_ || _)%bool = false |- _ => apply orb_false_iff in H; destruct H
  | H : negb _ = true |- _ => apply negb_true_iff in H
  | H : negb _ = false |- _ => apply negb_false_iff in H
  | H : (_ >? _) = _ |- _ => rewrite Z.gtb_ltb in H
  | H : (_ >=? _) = _ |- _ => rewrite Z.geb_leb in H
  | H : (_ <? _) = true |- _ => apply Z.ltb_lt in H
  | H : (_ <? _) = false |- _ => apply Z.ltb_ge in H
  | H : (_ <=? _) = true |- _ => apply Z.leb_le in H
  | H : (_ <=? _) = false |- _ => apply Z.leb_gt in H
  | H : (_ =? _) = true |- _ => apply Z.eqb_eq in H
  | H : (_ =? _) = false |- _ => apply Z.eqb_neq in H
  end.

(** Case analysis on the innermost test of the goal, keeping its equation. *)
Ltac case_if :=
  match goal with
  | |- context [if ?b then _ else _] => destruct b eqn:?
  | H : context [if ?b then _ else _] |- _ => destruct b eqn:?
  end.

(** ** Bitwise reasoning *)

Lemma testbit_high w z i : 0 <= z < 2 ^ w -> 0 <= w <= i -> Z.testbit z i = false.
Proof.
  intros Hz Hi. rewrite <-(Z.mod_small z (2 ^ w)) by done.
  apply Z.mod_pow2_bits_high. lia.
Qed.

Lemma lxor_range w a b : 0 <= w -> 0 <= a < 2 ^ w -> 0 <= b < 2 ^ w -> 0 <= Z.lxor a b < 2 ^ w.
Proof.
  intros Hw Ha Hb.
  assert (Z.lxor a b = Z.lxor a b mod 2 ^ w) as ->; [|apply Z.mod_pos_bound; lia].
  apply Z.bits_inj'. intros i Hi. destruct (Z.lt_ge_cases i w).
  - by rewrite Z.mod_pow2_bits_low.
  - rewrite Z.mod_pow2_bits_high, Z.lxor_spec by lia.
    by rewrite !(testbit_high w) by lia.
Qed.

Lemma shiftr_range w k a : 0 <= k <= w -> 0 <= a < 2 ^ w -> 0 <= Z.shiftr a k < 2 ^ (w - k).
Proof.
  intros Hk Ha. rewrite Z.shiftr_div_pow2 by lia. split.
  - apply Z.div_pos; [lia|]. apply Z.pow_pos_nonneg; lia.
  - apply Z.div_lt_upper_bound; [apply Z.pow_pos_nonneg; lia|].
    rewrite <-Z.pow_add_r by lia. replace (k + (w - k)) with w by lia. lia.
Qed.

(** Disjoint bits add up. *)
Lemma lor_add n a b : 0 <= n -> 0 <= b < 2 ^ n -> Z.lor (2 ^ n * a) b = 2 ^ n * a + b.
Proof.
  intros Hn Hb. symmetry. rewrite Z.mul_comm, <-Z.shiftl_mul_pow2 by done. rewrite <-Z.lxor_lor.
  - apply Z.add_nocarry_lxor. apply Z.bits_inj'. intros i Hi. rewrite Z.land_spec, Z.bits_0.
    destruct (Z.lt_ge_cases i n); [by rewrite Z.shiftl_spec_low|].
    rewrite (testbit_high n b) by lia. apply andb_false_r.
  - apply Z.bits_inj'. intros i Hi. rewrite Z.land_spec, Z.bits_0.
    destruct (Z.lt_ge_cases i n); [by rewrite Z.shiftl_spec_low|].
    rewrite (testbit_high n b) by lia. apply andb_false_r.
Qed.

Lemma lor_shiftl_add n a b : 0 <= n -> 0 <= b < 2 ^ n -> Z.lor (Z.shiftl a n) b = 2 ^ n * a + b.
Proof. intros. rewrite Z.shiftl_mul_pow2, Z.mul_comm by done. by apply lor_add. Qed.

(** ** Invariants of step relations *)

Section Invariants.
Context {S : Type} (step : S -> S -> Prop) (I : S -> Prop).

(** Rule induction on reachability: a predicate every step preserves holds of every state
    reachable from one in which it holds. *)
Lemma rtc_invariant (Hstep : forall s s', I s -> step s s' -> I s') s s' :
  I s -> rtc step s s' -> I s'.
Proof. intros Hs Hr. induction Hr; eauto. Qed.

End Invariants.
