(* ===== verification/IntrusiveList.v ===== *)
(** * The intrusive doubly-linked list of [include/elio/detail/intrusive_list.hpp]

    Nodes live in a heap ([gmap] from addresses to nodes); the list object holds the head and
    tail pointers and a [size_t] length.  Operations are state-passing functions that return
    [None] when the code would dereference a dangling pointer or fail an [assert].

    [is_list] relates a heap and a list object to the sequence of node addresses it stands for;
    the theorems show that every operation computes the corresponding operation on sequences,
    relinks only the neighbours of the node it touches, and leaves unlinked nodes unlinked. *)

From S2P Require Import Prelude.

Module IL.

(** ** Data *)

Abbreviation addr := nat.

Record node := Node { prev_ : option addr; next_ : option addr; in_list_ : bool }.

Record ilist := IList { head_ : option addr; tail_ : option addr; size_ : Z }.

Definition heap := gmap addr node.

(** A node that has been constructed, or that has been removed from its list. *)
Definition unlinked : node := Node None None false.

Definition empty_list : ilist := IList None None 0.

(** ** Heap accesses *)

Definition set_prev (p : option addr) (n : node) : node := Node p (next_ n) (in_list_ n).
Definition set_next (p : option addr) (n : node) : node := Node (prev_ n) p (in_list_ n).
Definition set_in_list (b : bool) (n : node) : node := Node (prev_ n) (next_ n) b.

(** [a->f = ...]: undefined when [a] does not point to a node. *)
Definition store (a : addr) (f : node -> node) (h : gmap addr node) : option (gmap addr node) :=
  match h !! a with
  | Some n => Some (<[a := f n]> h)
  | None => None
  end.

(** ** Operations *)

Definition empty (l : ilist) : bool :=
  match head_ l with Some _ => false | None => true end.

Definition size (l : ilist) : Z := size_ l.

Definition front (l : ilist) : option addr := head_ l.
Definition back (l : ilist) : option addr := tail_ l.

Definition is_linked (h : gmap addr node) (a : addr) : bool :=
  match h !! a with Some n => in_list_ n | None => false end.

Definition push_back (a : addr) (st : gmap addr node * ilist) : option (gmap addr node * ilist) :=
  let (h, l) := st in
  match h !! a with
  | Some n =>
      if in_list_ n then None (* assert(!node->in_list_) *)
      else
        h ← store a (fun n => set_next None (set_prev (tail_ l) n)) h;
        '(h, hd) ← match tail_ l with
                   | Some t => h ← store t (set_next (Some a)) h; Some (h, head_ l)
                   | None => Some (h, Some a)
                   end;
        h ← store a (set_in_list true) h;
        Some (h, IList hd (Some a) (u64 (size_ l + 1)))
  | None => None
  end.

Definition push_front (a : addr) (st : gmap addr node * ilist) : option (gmap addr node * ilist) :=
  let (h, l) := st in
  match h !! a with
  | Some n =>
      if in_list_ n then None
      else
        h ← store a (fun n => set_next (head_ l) (set_prev None n)) h;
        '(h, tl) ← match head_ l with
                   | Some t => h ← store t (set_prev (Some a)) h; Some (h, tail_ l)
                   | None => Some (h, Some a)
                   end;
        h ← store a (set_in_list true) h;
        Some (h, IList (Some a) tl (u64 (size_ l + 1)))
  | None => None
  end.

Definition remove (a : addr) (st : gmap addr node * ilist) : option (gmap addr node * ilist) :=
  let (h, l) := st in
  match h !! a with
  | Some n =>
      if negb (in_list_ n) then Some (h, l)
      else
        '(h, hd) ← match prev_ n with
                   | Some p => h ← store p (set_next (next_ n)) h; Some (h, head_ l)
                   | None => Some (h, next_ n)
                   end;
        '(h, tl) ← match next_ n with
                   | Some q => h ← store q (set_prev (prev_ n)) h; Some (h, tail_ l)
                   | None => Some (h, prev_ n)
                   end;
        h ← store a (fun n => set_in_list false (set_next None (set_prev None n))) h;
        Some (h, IList hd tl (u64 (size_ l - 1)))
  | None => None
  end.

(** The result is the removed node, or the null pointer when the list is empty. *)
Definition pop_front (st : gmap addr node * ilist) : option (option addr * (gmap addr node * ilist)) :=
  match head_ st.2 with
  | None => Some (None, st)
  | Some a => st ← remove a st; Some (Some a, st)
  end.

Definition pop_back (st : gmap addr node * ilist) : option (option addr * (gmap addr node * ilist)) :=
  match tail_ st.2 with
  | None => Some (None, st)
  | Some a => st ← remove a st; Some (Some a, st)
  end.

(** The traversal of [contains]: [fuel] bounds the number of nodes visited. *)
Fixpoint contains_from (fuel : nat) (h : gmap addr node) (cur : option addr) (a : addr) : option bool :=
  match cur with
  | None => Some false
  | Some c =>
      if decide (c = a) then Some true
      else match fuel with
           | O => None
           | S fuel => n ← h !! c; contains_from fuel h (next_ n) a
           end
  end.

Definition contains (fuel : nat) (a : addr) (st : gmap addr node * ilist) : option bool :=
  n ← st.1 !! a;
  if negb (in_list_ n) then Some false else contains_from fuel st.1 (head_ st.2) a.

(** [while (head_) pop_front();] *)
Fixpoint clear (fuel : nat) (st : gmap addr node * ilist) : option (gmap addr node * ilist) :=
  match head_ st.2 with
  | None => Some st
  | Some _ =>
      match fuel with
      | O => None
      | S fuel => '(_, st) ← pop_front st; clear fuel st
      end
  end.

(** The move constructor: the new list takes the links, the source is left empty. *)
Definition move_from (l : ilist) : ilist * ilist := (IList (head_ l) (tail_ l) (size_ l), empty_list).

(** ** The sequence a list stands for *)

(** [seg h p xs q]: the nodes [xs] are linked in order, the first one back to [p] and the last
    one forward to [q]. *)
Fixpoint seg (h : gmap addr node) (p : option addr) (xs : list addr) (q : option addr) : Prop :=
  match xs with
  | [] => True
  | x :: xs' =>
      h !! x = Some (Node p (match xs' with [] => q | y :: _ => Some y end) true)
      /\ seg h (Some x) xs' q
  end.

(** The pointer before, respectively after, a segment. *)
Definition last_or (p : option addr) (xs : list addr) : option addr :=
  match last xs with Some x => Some x | None => p end.
Definition first_or (xs : list addr) (q : option addr) : option addr :=
  match xs with [] => q | x :: _ => Some x end.

(** The heap and the list object hold exactly the nodes [xs], in this order; every other node
    of the heap is unlinked.  [size_] is exact because a [size_t] cannot count more nodes than
    the address space holds. *)
Record is_list (h : gmap addr node) (l : ilist) (xs : list addr) : Prop := {
  il_seg : seg h None xs None;
  il_head : head_ l = first_or xs None;
  il_tail : tail_ l = last_or None xs;
  il_size : size_ l = zlen xs;
  il_nodup : NoDup xs;
  il_out : forall a n, h !! a = Some n -> a ∉ xs -> in_list_ n = false;
  il_bound : Z.of_nat (base.size h) < 2 ^ 64;
}.

(** ** The interface as one abstract data type *)

Inductive op := PushBack (a : addr) | PushFront (a : addr) | Remove (a : addr)
  | PopFront | PopBack | Contains (a : addr) | Clear.

Inductive ret := RVoid | RPtr (p : option addr) | RBool (b : bool).

(** One call on the concrete list.  A traversal of a [size_t]-counted list takes at most
    [size_] steps, which is the fuel given to the two loops. *)
Definition exec (o : op) (st : gmap addr node * ilist) : option (ret * (gmap addr node * ilist)) :=
  match o with
  | PushBack a => st ← push_back a st; Some (RVoid, st)
  | PushFront a => st ← push_front a st; Some (RVoid, st)
  | Remove a => st ← remove a st; Some (RVoid, st)
  | PopFront => '(p, st) ← pop_front st; Some (RPtr p, st)
  | PopBack => '(p, st) ← pop_back st; Some (RPtr p, st)
  | Contains a => b ← contains (Z.to_nat (size st.2)) a st; Some (RBool b, st)
  | Clear => st ← clear (Z.to_nat (size st.2)) st; Some (RVoid, st)
  end.

(** The same call on sequences of addresses. *)
Definition exec_seq (o : op) (xs : list addr) : ret * list addr :=
  match o with
  | PushBack a => (RVoid, xs ++ [a])
  | PushFront a => (RVoid, a :: xs)
  | Remove a => (RVoid, filter (.≠ a) xs)
  | PopFront => (RPtr (head xs), tail xs)
  | PopBack => (RPtr (last xs), take (length xs - 1) xs)
  | Contains a => (RBool (bool_decide (a ∈ xs)), xs)
  | Clear => (RVoid, [])
  end.

(** The documented preconditions: arguments point to live nodes, and only unlinked nodes are pushed. *)
Definition op_pre (o : op) (h : gmap addr node) (xs : list addr) : Prop :=
  match o with
  | PushBack a | PushFront a => a ∈ dom h /\ a ∉ xs
  | Remove a | Contains a => a ∈ dom h
  | _ => True
  end.

(** A client's sequence of calls, with the results it observes. *)
Fixpoint exec_all (os : list op) (st : gmap addr node * ilist) : option (list ret * (gmap addr node * ilist)) :=
  match os with
  | [] => Some ([], st)
  | o :: os => '(r, st) ← exec o st; '(rs, st) ← exec_all os st; Some (r :: rs, st)
  end.

Fixpoint exec_seq_all (os : list op) (xs : list addr) : list ret * list addr :=
  match os with
  | [] => ([], xs)
  | o :: os => let (r, xs) := exec_seq o xs in let (rs, xs) := exec_seq_all os xs in (r :: rs, xs)
  end.

Fixpoint ops_pre (os : list op) (h : gmap addr node) (xs : list addr) : Prop :=
  match os with
  | [] => True
  | o :: os => op_pre o h xs /\ ops_pre os h (exec_seq o xs).2
  end.

#[global] Arguments push_back : simpl never.
#[global] Arguments push_front : simpl never.
#[global] Arguments remove : simpl never.
#[global] Arguments pop_front : simpl never.
#[global] Arguments pop_back : simpl never.
#[global] Arguments contains : simpl never.

(** ** Segments *)

Lemma store_eq a f (h : gmap addr node) n : h !! a = Some n -> store a f h = Some (<[a := f n]> h).
Proof. intros H. unfold store. by rewrite H. Qed.

Lemma last_or_snoc p xs y : last_or p (xs ++ [y]) = Some y.
Proof. unfold last_or. by rewrite last_snoc. Qed.

Lemma last_or_cons p x xs : last_or p (x :: xs) = last_or (Some x) xs.
Proof. unfold last_or. rewrite last_cons. by destruct (last xs). Qed.

Lemma seg_app h p xs ys q :
  seg h p (xs ++ ys) q <-> seg h p xs (first_or ys q) /\ seg h (last_or p xs) ys q.
Proof.
  revert p. induction xs as [|x xs IH]; intros p; simpl; [tauto|].
  rewrite IH, last_or_cons. unfold first_or. by destruct xs, ys; simpl; tauto.
Qed.

Lemma seg_insert_ne h p xs q a n : a ∉ xs -> seg (<[a := n]> h) p xs q <-> seg h p xs q.
Proof.
  revert p. induction xs as [|x xs IH]; intros p Ha; simpl; [done|].
  apply not_elem_of_cons in Ha as [? ?]. rewrite IH by done. by rewrite lookup_insert_ne.
Qed.

Lemma seg_lookup h p xs q a : seg h p xs q -> a ∈ xs -> exists n, h !! a = Some n /\ in_list_ n = true.
Proof.
  revert p. induction xs as [|x xs IH]; intros p Hs Ha; [by apply elem_of_nil in Ha|].
  destruct Hs as [Hx Hs]. apply elem_of_cons in Ha as [->|Ha]; eauto.
Qed.

(** A segment only depends on its own nodes. *)
Lemma seg_frame h h' p xs q :
  (forall z, z ∈ xs -> h' !! z = h !! z) -> seg h p xs q -> seg h' p xs q.
Proof.
  revert p. induction xs as [|x xs IH]; intros p Hf; simpl; [done|].
  intros [Hx Hs]. split; [rewrite Hf; [done|set_solver]|]. apply IH; [set_solver|done].
Qed.

(** Redirect the forward pointer of the last node of a segment, if it has one. *)
Lemma relink_next h p xs q q' :
  seg h p xs q -> NoDup xs ->
  exists h', (match last xs with Some y => store y (set_next q') h | None => Some h end) = Some h'
    /\ seg h' p xs q' /\ (forall z, z ∉ xs -> h' !! z = h !! z) /\ dom h' = dom h.
Proof.
  intros Hs Hnd. destruct (last xs) as [y|] eqn:Hl; last first.
  { apply last_None in Hl as ->. by exists h. }
  apply last_Some in Hl as [xs' ->]. apply seg_app in Hs as [Hs [Hy _]].
  apply NoDup_app in Hnd as (_ & Hy' & _).
  assert (y ∉ xs') by set_solver. rewrite (store_eq _ _ _ _ Hy).
  eexists. split; [done|]. split_and!.
  - apply seg_app; simpl. split; [by apply seg_insert_ne|]. by rewrite lookup_insert_eq.
  - intros z Hz. rewrite lookup_insert_ne; [done|]. set_solver.
  - by eapply dom_insert_lookup_L.
Qed.

(** Redirect the backward pointer of the first node of a segment, if it has one. *)
Lemma relink_prev h p xs q p' :
  seg h p xs q -> NoDup xs ->
  exists h', (match xs with y :: _ => store y (set_prev p') h | [] => Some h end) = Some h'
    /\ seg h' p' xs q /\ (forall z, z ∉ xs -> h' !! z = h !! z) /\ dom h' = dom h.
Proof.
  intros Hs Hnd. destruct xs as [|y ys]; [by exists h|]. destruct Hs as [Hy Hs].
  apply NoDup_cons in Hnd as [Hy' _]. rewrite (store_eq _ _ _ _ Hy).
  eexists. split; [done|]. split_and!.
  - simpl. rewrite lookup_insert_eq. split; [done|]. by apply seg_insert_ne.
  - intros z Hz. rewrite lookup_insert_ne; [done|]. set_solver.
  - by eapply dom_insert_lookup_L.
Qed.

(** ** Each operation computes the operation on sequences *)

Lemma nodup_dom_length (h : gmap addr node) (ks : list addr) :
  NoDup ks -> (forall a, a ∈ ks -> is_Some (h !! a)) -> zlen ks <= Z.of_nat (base.size h).
Proof.
  intros Hnd Hin. unfold zlen.
  assert ((base.size (list_to_set ks : gset addr) <= base.size (dom h))%nat) as Hle.
  { apply subseteq_size. intros a Ha%elem_of_list_to_set. apply elem_of_dom. auto. }
  rewrite size_list_to_set, size_dom in Hle by done. lia.
Qed.

Lemma is_list_length h l xs : is_list h l xs -> zlen xs <= Z.of_nat (base.size h).
Proof.
  intros [Hs _ _ _ Hnd _ _]. apply nodup_dom_length; [done|]. intros a Ha.
  destruct (seg_lookup _ _ _ _ _ Hs Ha) as (n & ? & _). by eexists.
Qed.

(** An unlinked node of the heap leaves room for one more in the [size_t] counter. *)
Lemma fresh_node h l xs a n :
  is_list h l xs -> h !! a = Some n -> in_list_ n = false ->
  a ∉ xs /\ u64 (size_ l + 1) = zlen xs + 1.
Proof.
  intros [Hs _ _ Hz Hnd _ Hb] Ha Hn.
  assert (a ∉ xs) as Hax.
  { intros Hin. destruct (seg_lookup _ _ _ _ _ Hs Hin) as (n' & ? & ?). congruence. }
  split; [done|]. rewrite Hz. apply u64_small. pose proof (zlen_nonneg xs).
  assert (zlen (a :: xs) <= Z.of_nat (base.size h)); [|rewrite zlen_cons in *; lia].
  apply nodup_dom_length; [by constructor|].
  intros b [->|Hb']%elem_of_cons; [by eexists|].
  destruct (seg_lookup _ _ _ _ _ Hs Hb') as (n' & ? & _). by eexists.
Qed.

Lemma is_list_push_back h l xs a n :
  is_list h l xs -> h !! a = Some n -> in_list_ n = false ->
  exists h' l', push_back a (h, l) = Some (h', l') /\ is_list h' l' (xs ++ [a]) /\ dom h' = dom h.
Proof.
  intros Hl Ha Hn. destruct (fresh_node _ _ _ _ _ Hl Ha Hn) as [Hax Hsz].
  destruct Hl as [Hs Hhd Htl Hz Hnd Hout Hb].
  unfold push_back. rewrite Ha, Hn, (store_eq _ _ _ _ Ha). simpl. rewrite Htl.
  set (na := set_next None (set_prev (last_or None xs) n)).
  destruct (relink_next (<[a:=na]> h) None xs None (Some a)) as (h2 & E2 & Hs2 & Hf2 & Hz2);
    [by apply seg_insert_ne | done |].
  assert (h2 !! a = Some na) as Ha2 by (rewrite Hf2 by done; apply lookup_insert_eq).
  assert (exists hd, match last_or None xs with
    | Some t => h ← store t (set_next (Some a)) (<[a:=na]> h); Some (h, head_ l)
    | None => Some (<[a:=na]> h, Some a) end = Some (h2, hd) /\ hd = first_or (xs ++ [a]) None)
    as (hd & -> & ->).
  { unfold last_or. rewrite Hhd. destruct (last xs) as [t|] eqn:Hlast; simpl.
    - rewrite E2. eexists. split; [done|]. by destruct xs.
    - apply last_None in Hlast as ->. simplify_eq. by eexists. }
  simpl. rewrite (store_eq _ _ _ _ Ha2). eexists _, _. split; [done|].
  assert (dom (<[a:=set_in_list true na]> h2) = dom h) as Hdom.
  { rewrite dom_insert_lookup_L, Hz2 by eauto. by eapply dom_insert_lookup_L. }
  split; [|done]. split; simpl.
  - apply seg_app; simpl. split; [by apply seg_insert_ne|]. by rewrite lookup_insert_eq.
  - done.
  - by rewrite last_or_snoc.
  - by rewrite Hsz, zlen_app.
  - apply NoDup_app. split; [done|]. split; [set_solver|]. apply NoDup_singleton.
  - intros b m Hb' Hnb. assert (a <> b /\ b ∉ xs) as [? ?] by set_solver.
    rewrite lookup_insert_ne, Hf2, lookup_insert_ne in Hb' by done. eauto.
  - by rewrite <-size_dom, Hdom, size_dom.
Qed.

Lemma is_list_push_front h l xs a n :
  is_list h l xs -> h !! a = Some n -> in_list_ n = false ->
  exists h' l', push_front a (h, l) = Some (h', l') /\ is_list h' l' (a :: xs) /\ dom h' = dom h.
Proof.
  intros Hl Ha Hn. destruct (fresh_node _ _ _ _ _ Hl Ha Hn) as [Hax Hsz].
  destruct Hl as [Hs Hhd Htl Hz Hnd Hout Hb].
  unfold push_front. rewrite Ha, Hn, (store_eq _ _ _ _ Ha). simpl. rewrite Hhd.
  set (na := set_next (first_or xs None) (set_prev None n)).
  destruct (relink_prev (<[a:=na]> h) None xs None (Some a)) as (h2 & E2 & Hs2 & Hf2 & Hz2);
    [by apply seg_insert_ne | done |].
  assert (h2 !! a = Some na) as Ha2 by (rewrite Hf2 by done; apply lookup_insert_eq).
  assert (exists tl, match first_or xs None with
    | Some t => h ← store t (set_prev (Some a)) (<[a:=na]> h); Some (h, tail_ l)
    | None => Some (<[a:=na]> h, Some a) end = Some (h2, tl) /\ tl = last_or None (a :: xs))
    as (tl & -> & ->).
  { rewrite Htl, last_or_cons. destruct xs as [|t xs']; simpl in *.
    - simplify_eq. by eexists.
    - rewrite E2. eexists. split; [done|]. by rewrite !last_or_cons. }
  simpl. rewrite (store_eq _ _ _ _ Ha2). eexists _, _. split; [done|].
  assert (dom (<[a:=set_in_list true na]> h2) = dom h) as Hdom.
  { rewrite dom_insert_lookup_L, Hz2 by eauto. by eapply dom_insert_lookup_L. }
  split; [|done]. split; simpl.
  - rewrite lookup_insert_eq. split; [by destruct xs|]. by apply seg_insert_ne.
  - done.
  - done.
  - rewrite Hsz, zlen_cons. lia.
  - by constructor.
  - intros b m Hb' Hnb. assert (a <> b /\ b ∉ xs) as [? ?] by set_solver.
    rewrite lookup_insert_ne, Hf2, lookup_insert_ne in Hb' by done. eauto.
  - by rewrite <-size_dom, Hdom, size_dom.
Qed.

(** [remove] of a linked node, whatever its position: both neighbours are relinked around it. *)
Lemma is_list_remove h l xs ys a :
  is_list h l (xs ++ a :: ys) ->
  exists h' l', remove a (h, l) = Some (h', l') /\ is_list h' l' (xs ++ ys)
    /\ h' !! a = Some unlinked /\ dom h' = dom h.
Proof.
  intros Hl. pose proof (is_list_length _ _ _ Hl) as Hle. destruct Hl as [Hs Hhd Htl Hz Hnd Hout Hb].
  apply seg_app in Hs as [Hx [Ha Hy]].
  apply NoDup_app in Hnd as (Hnx & Hxy & [Hay Hny]%NoDup_cons).
  assert (a ∉ xs) as Hax by set_solver.
  unfold remove. rewrite Ha. simpl.
  destruct (relink_next h None xs (Some a) (first_or ys None)) as (h1 & E1 & Hx1 & Hf1 & Hz1);
    [done..|].
  destruct (relink_prev h1 (Some a) ys None (last_or None xs)) as (h2 & E2 & Hy2 & Hf2 & Hz2); [|done|].
  { eapply seg_frame; [|done]. intros z Hz'. apply Hf1. set_solver. }
  assert (match last_or None xs with
    | Some p => h ← store p (set_next (first_or ys None)) h; Some (h, head_ l)
    | None => Some (h, first_or ys None) end = Some (h1, first_or (xs ++ ys) None)) as E1'.
  { unfold last_or. rewrite Hhd. destruct (last xs) as [t|] eqn:Hl; simpl.
    - rewrite E1. by destruct xs.
    - apply last_None in Hl as ->. by simplify_eq/=. }
  assert (match first_or ys None with
    | Some q => h ← store q (set_prev (last_or None xs)) h1; Some (h, tail_ l)
    | None => Some (h1, last_or None xs) end = Some (h2, last_or None (xs ++ ys))) as E2'.
  { rewrite Htl. destruct ys as [|y ys]; simpl in *.
    - simplify_eq. by rewrite app_nil_r.
    - rewrite E2. simpl. unfold last_or. by rewrite !last_app, !last_cons; destruct (last ys). }
  unfold first_or in E1', E2' |- *. rewrite E1'. simpl. rewrite E2'. simpl.
  assert (h2 !! a = Some (Node (last_or None xs) (first_or ys None) true)) as Ha2.
  { by rewrite Hf2, Hf1 by done. }
  rewrite (store_eq _ _ _ _ Ha2). eexists _, _. split; [done|].
  assert (dom (<[a:=unlinked]> h2) = dom h) as Hdom.
  { rewrite dom_insert_lookup_L, Hz2 by eauto. done. }
  split; [|split; [by rewrite lookup_insert_eq|done]]. split; simpl.
  - apply seg_app. split; apply seg_insert_ne; try done.
    eapply seg_frame; [|done]. intros z Hz'. apply Hf2. set_solver.
  - done.
  - done.
  - rewrite Hz, zlen_app. rewrite zlen_app, zlen_cons in *. pose proof (zlen_nonneg xs). pose proof (zlen_nonneg ys).
    rewrite u64_small; lia.
  - apply NoDup_app. split_and!; set_solver.
  - intros b m. destruct (decide (a = b)) as [<-|Hab].
    + rewrite lookup_insert_eq. by intros [= <-].
    + rewrite lookup_insert_ne by done. intros Hb' Hnb.
      rewrite Hf2, Hf1 in Hb' by set_solver. eapply Hout; [done|]. set_solver.
  - change (Z.of_nat (base.size (<[a:=unlinked]> h2)) < 2 ^ 64). by rewrite <-size_dom, Hdom, size_dom.
Qed.

Lemma remove_unlinked h l a n : h !! a = Some n -> in_list_ n = false -> remove a (h, l) = Some (h, l).
Proof. intros Ha Hn. unfold remove. by rewrite Ha, Hn. Qed.

Lemma contains_from_spec fuel h p xs a :
  seg h p xs None -> (length xs <= fuel)%nat ->
  contains_from fuel h (first_or xs None) a = Some (bool_decide (a ∈ xs)).
Proof.
  revert p xs. induction fuel as [|fuel IH]; intros p xs Hs Hf.
  - destruct xs; simpl in *; [done|lia].
  - destruct xs as [|x xs]; [done|]. destruct Hs as [Hx Hs]. simpl in *. case_decide as Hxa.
    + subst. by rewrite bool_decide_eq_true_2 by set_solver.
    + rewrite Hx. simpl. change (match xs with [] => None | y :: _ => Some y end) with (first_or xs None).
      rewrite (IH (Some x)) by (done || lia). f_equal. apply bool_decide_ext. set_solver.
Qed.

Lemma filter_ne_id (a : addr) (xs : list addr) : a ∉ xs -> filter (.≠ a) xs = xs.
Proof.
  induction xs as [|x xs IH]; [done|]. intros [? ?]%not_elem_of_cons.
  rewrite filter_cons, decide_True by congruence. by rewrite IH.
Qed.

Lemma filter_ne_app (a : addr) (xs ys : list addr) : NoDup (xs ++ a :: ys) -> filter (.≠ a) (xs ++ a :: ys) = xs ++ ys.
Proof.
  intros (_ & H & [? _]%NoDup_cons)%NoDup_app. rewrite filter_app, filter_cons, decide_False by tauto.
  rewrite !filter_ne_id; [done| |]; set_solver.
Qed.

(** [remove] with any live node as its argument. *)
Lemma remove_refines h l xs a :
  is_list h l xs -> a ∈ dom h ->
  exists h' l', remove a (h, l) = Some (h', l') /\ is_list h' l' (filter (.≠ a) xs) /\ dom h' = dom h.
Proof.
  intros Hl [n Ha]%elem_of_dom. destruct (decide (a ∈ xs)) as [Hin|Hin].
  - apply list_elem_of_split in Hin as (ys & zs & ->).
    destruct (is_list_remove _ _ _ _ _ Hl) as (h' & l' & E & Hl' & _ & Hd).
    exists h', l'. rewrite filter_ne_app by apply Hl. done.
  - exists h, l. rewrite filter_ne_id by done. split; [|done].
    eapply remove_unlinked; [done|]. by eapply il_out.
Qed.

Lemma pop_front_refines h l xs :
  is_list h l xs ->
  exists h' l', pop_front (h, l) = Some (head xs, (h', l')) /\ is_list h' l' (tail xs) /\ dom h' = dom h.
Proof.
  intros Hl. unfold pop_front. simpl. rewrite (il_head _ _ _ Hl). destruct xs as [|x xs]; [by eauto|].
  destruct (is_list_remove _ _ [] _ _ Hl) as (h' & l' & E & Hl' & _ & Hd).
  exists h', l'. cbn [first_or]. rewrite E. done.
Qed.

Lemma pop_back_refines h l xs :
  is_list h l xs ->
  exists h' l', pop_back (h, l) = Some (last xs, (h', l')) /\ is_list h' l' (take (length xs - 1) xs)
    /\ dom h' = dom h.
Proof.
  intros Hl. unfold pop_back. simpl. rewrite (il_tail _ _ _ Hl). unfold last_or.
  destruct (last xs) as [x|] eqn:Hx.
  - apply last_Some in Hx as [ys ->].
    destruct (is_list_remove _ _ ys [] _ Hl) as (h' & l' & E & Hl' & _ & Hd).
    exists h', l'. rewrite E. split; [done|]. split; [|done]. rewrite app_nil_r in Hl'.
    rewrite length_app. replace (_ - 1)%nat with (length ys) by (simpl; lia). by rewrite take_app_length.
  - apply last_None in Hx as ->. by eauto.
Qed.

Lemma clear_refines fuel h l xs :
  is_list h l xs -> (length xs <= fuel)%nat ->
  exists h' l', clear fuel (h, l) = Some (h', l') /\ is_list h' l' [] /\ dom h' = dom h.
Proof.
  revert h l xs. induction fuel as [|fuel IH]; intros h l xs Hl Hf;
    (destruct xs as [|x xs]; [exists h, l; simpl; by rewrite (il_head _ _ _ Hl)|]); [simpl in *; lia|].
  destruct (pop_front_refines _ _ _ Hl) as (h1 & l1 & E & Hl1 & Hd1).
  destruct (IH h1 l1 xs Hl1) as (h2 & l2 & E2 & Hl2 & Hd2); [simpl in *; lia|].
  exists h2, l2. simpl. rewrite (il_head _ _ _ Hl). cbn [first_or]. rewrite E. simpl.
  split; [done|]. split; [done|congruence].
Qed.

Lemma size_fuel h l xs : is_list h l xs -> (length xs <= Z.to_nat (size l))%nat.
Proof. intros Hl. unfold size. rewrite (il_size _ _ _ Hl). unfold zlen. lia. Qed.

Lemma exec_refines o h l xs :
  is_list h l xs -> op_pre o h xs ->
  exists h' l', exec o (h, l) = Some ((exec_seq o xs).1, (h', l'))
    /\ is_list h' l' (exec_seq o xs).2 /\ dom h' = dom h.
Proof.
  intros Hl Hpre. pose proof (size_fuel _ _ _ Hl). destruct o as [a|a|a| | |a|]; simpl in *.
  - destruct Hpre as [[n Ha]%elem_of_dom Hx].
    destruct (is_list_push_back h l xs a n) as (h' & l' & E & ?); eauto using il_out.
    exists h', l'. by rewrite E.
  - destruct Hpre as [[n Ha]%elem_of_dom Hx].
    destruct (is_list_push_front h l xs a n) as (h' & l' & E & ?); eauto using il_out.
    exists h', l'. by rewrite E.
  - destruct (remove_refines h l xs a) as (h' & l' & E & ?); [done..|].
    exists h', l'. by rewrite E.
  - destruct (pop_front_refines h l xs) as (h' & l' & -> & ?); [done|]. by eauto.
  - destruct (pop_back_refines h l xs) as (h' & l' & -> & ?); [done|]. by eauto.
  - exists h, l. split; [|done]. apply elem_of_dom in Hpre as [n Ha]. unfold contains. simpl. rewrite Ha. simpl.
    destruct (in_list_ n) eqn:Hn; simpl.
    + rewrite (il_head _ _ _ Hl), (contains_from_spec _ _ None xs); [done|apply Hl|done].
    + rewrite bool_decide_eq_false_2; [done|]. intros Hin.
      destruct (seg_lookup _ _ _ _ _ (il_seg _ _ _ Hl) Hin) as (n' & ? & ?). congruence.
  - destruct (clear_refines (Z.to_nat (size l)) h l xs) as (h' & l' & -> & ?); [done..|]. by eauto.
Qed.

(** [C16] Refinement: on any sequence of calls that respects the documented preconditions, the
    linked list never dereferences a dangling pointer, never trips an assertion and never loops;
    every call returns what the same call on the abstract sequence returns, and the final links
    represent the final sequence. *)
Theorem ilist_refines_sequence os h l xs :
  is_list h l xs -> ops_pre os h xs ->
  exists h' l', exec_all os (h, l) = Some ((exec_seq_all os xs).1, (h', l'))
    /\ is_list h' l' (exec_seq_all os xs).2.
Proof.
  revert h l xs. induction os as [|o os IH]; intros h l xs Hl Hpre; [by exists h, l|].
  destruct Hpre as [Ho Hos]. destruct (exec_refines o h l xs Hl Ho) as (h1 & l1 & E1 & Hl1 & Hd).
  destruct (IH h1 l1 _ Hl1) as (h2 & l2 & E2 & Hl2).
  { clear -Hos Hd. revert Hos. generalize (exec_seq o xs).2.
    induction os as [|o' os IH']; simpl; [done|]. intros ys [Hp Hr]. split; [|by apply IH'].
    destruct o'; simpl in *; by rewrite ?Hd. }
  exists h2, l2. simpl. rewrite E1. simpl. rewrite E2. simpl.
  destruct (exec_seq o xs) as [r ys]. simpl in *. by destruct (exec_seq_all os ys).
Qed.

(** Two nodes and a list object as they are constructed. *)
Definition two_nodes : gmap addr node := {[ 1%nat := unlinked; 2%nat := unlinked ]}.

Lemma two_nodes_empty : is_list two_nodes empty_list [].
Proof.
  split; try done; [by constructor|]. intros a n Ha _. unfold two_nodes in Ha.
  apply lookup_insert_Some in Ha as [[_ <-]|[_ Ha]]; [done|].
  by apply lookup_singleton_Some in Ha as [_ <-].
Qed.

Lemma ilist_refines_sequence_witness :
  exists h' l', exec_all [PushBack 1%nat; PushFront 2%nat; Contains 1%nat; Remove 2%nat; PopFront; PopFront]
      (two_nodes, empty_list)
    = Some ([RVoid; RVoid; RBool true; RVoid; RPtr (Some 1%nat); RPtr None], (h', l'))
    /\ is_list h' l' [].
Proof.
  apply (ilist_refines_sequence [PushBack 1%nat; PushFront 2%nat; Contains 1%nat; Remove 2%nat; PopFront; PopFront]
    two_nodes empty_list []); [exact two_nodes_empty|].
  simpl. unfold two_nodes. rewrite !dom_insert_L. split_and!; try done; set_solver.
Defined.

End IL.
