(* ===== verification/WakeState.v ===== *)
(** * The wake-up state machine of [include/elio/sync/detail/wake_state.hpp]

    A [wake_state] is shared by a suspended coroutine (the awaiter), the notifiers that may wake
    it and the cancellation callback of its token.  Its atomic byte [state_] is modelled by
    [wstate]; every method is the atomic transition it performs on that byte together with the
    value it returns and whether it calls [runtime::schedule_handle].

    Methods with a compare-exchange retry loop are given twice: as a [plan] (what one pass of the
    [switch] decides) run by [cas_loop] against arbitrary interference and spurious failures, and
    as the atomic transition; [cas_loop_linearizable] and [cas_loop_terminates] connect the two.
    The remaining theorems quantify over every interleaving of operations: the coroutine is
    scheduled at most once, never after [abandon], and exactly one of notification and
    cancellation is selected. *)

From S2P Require Import Prelude.

Module Wake.

(** ** Data *)

Inductive wake_action := rejected | completed_inline | schedule.

Inductive wstate :=
  | idle | blocked | waiting | notified_inline | cancelled_inline
  | notification_claimed | cancellation_claimed
  | notification_scheduling | cancellation_scheduling | abandoned.

#[global] Instance wstate_EqDecision : EqDecision wstate.
Proof. solve_decision. Defined.
#[global] Instance wake_action_EqDecision : EqDecision wake_action.
Proof. solve_decision. Defined.

(** The [unsigned char] constants of the class. *)
Definition code (s : wstate) : Z :=
  match s with
  | idle => 0 | blocked => 1 | waiting => 2 | notified_inline => 3 | cancelled_inline => 4
  | notification_claimed => 5 | cancellation_claimed => 6
  | notification_scheduling => 7 | cancellation_scheduling => 8 | abandoned => 9
  end.

(** ** Single compare-exchange operations *)

(** [state_.compare_exchange_strong(expected, desired)]. *)
Definition cas (expected desired s : wstate) : wstate * bool :=
  if decide (s = expected) then (desired, true) else (s, false).

Definition set_handle (s : wstate) : wstate := (cas idle waiting s).1.

Definition set_handle_blocked (s : wstate) : wstate * bool := cas idle blocked s.

Definition unblock_after_publish (s : wstate) : wstate * bool := cas blocked waiting s.

(** The second component is both the return value and whether the handle was scheduled. *)
Definition schedule_claimed (s : wstate) : wstate * bool :=
  let (s1, ok) := cas notification_claimed notification_scheduling s in
  if ok then (s1, true)
  else
    let (s2, ok) := cas cancellation_claimed cancellation_scheduling s1 in
    if ok then (s2, true) else (s2, false).

Definition was_cancelled (s : wstate) : bool :=
  bool_decide (s = cancelled_inline) || bool_decide (s = cancellation_claimed)
  || bool_decide (s = cancellation_scheduling).

Definition notification_was_selected (s : wstate) : bool :=
  bool_decide (s = notified_inline) || bool_decide (s = notification_claimed)
  || bool_decide (s = notification_scheduling).

(** ** Retry loops *)

(** One pass of a [switch (current)]: return at once, or try to exchange and then return. *)
Inductive plan (R : Type) := Give (r : R) | Try (desired : wstate) (r : R).
Arguments Give {R} r.
Arguments Try {R} desired r.

Definition claim_plan (current : wstate) : plan wake_action :=
  match current with
  | idle | blocked => Try notified_inline completed_inline
  | waiting => Try notification_claimed schedule
  | _ => Give rejected
  end.

(** The result is the returned value and whether [schedule_claimed] runs next. *)
Definition cancel_plan (current : wstate) : plan (bool * bool) :=
  match current with
  | idle | blocked => Try cancelled_inline (true, false)
  | waiting => Try cancellation_claimed (true, true)
  | cancelled_inline | cancellation_claimed | cancellation_scheduling => Give (true, false)
  | _ => Give (false, false)
  end.

Definition selected_plan (current : wstate) : plan bool :=
  match current with
  | waiting | notification_claimed => Try notification_scheduling true
  | cancellation_claimed => Try cancellation_scheduling true
  | blocked => Try notified_inline false
  | _ => Give false
  end.

Definition abandon_plan (current : wstate) : plan unit :=
  match current with
  | idle | blocked | waiting | notified_inline | cancelled_inline
  | notification_claimed | cancellation_claimed => Try abandoned ()
  | _ => Give ()
  end.

(** [for (;;) { switch (current) ...; if (state_.compare_exchange_weak(current, desired)) return; }]
    run against a [script]: before each exchange other threads apply an arbitrary function to
    the byte, and the weak exchange may fail spuriously (the boolean). [None]: the script ends
    before the loop does. *)
Fixpoint cas_loop {R} (p : wstate -> plan R) (script : list ((wstate -> wstate) * bool))
    (current s : wstate) : option (wstate * R) :=
  match p current with
  | Give r => Some (s, r)
  | Try desired r =>
      match script with
      | [] => None
      | (env, spurious) :: script =>
          let s := env s in
          if negb spurious && bool_decide (s = current) then Some (desired, r)
          else cas_loop p script s s
      end
  end.

(** The same loop run without interference: the atomic operation it implements. *)
Definition atomically {R} (p : wstate -> plan R) (s : wstate) : wstate * R :=
  match p s with
  | Give r => (s, r)
  | Try desired r => (desired, r)
  end.

Definition claim_notification (s : wstate) : wstate * wake_action := atomically claim_plan s.

(** The exchange of [request_cancel]; when the second boolean is true, [schedule_claimed] follows. *)
Definition request_cancel_cas (s : wstate) : wstate * (bool * bool) := atomically cancel_plan s.

Definition schedule_selected (s : wstate) : wstate * bool := atomically selected_plan s.

Definition abandon (s : wstate) : wstate := (atomically abandon_plan s).1.

(** [request_cancel] without interference between its two exchanges; the second boolean tells
    whether the handle was scheduled. *)
Definition request_cancel (s : wstate) : wstate * (bool * bool) :=
  let (s, r) := request_cancel_cas s in
  if r.2 then let (s, scheduled) := schedule_claimed s in (s, (r.1, scheduled))
  else (s, (r.1, false)).

(** ** Interleavings *)

(** The atomic actions any thread can perform on a wake state. *)
Inductive wop := SetHandle | SetHandleBlocked | Unblock | Claim | CancelCas
  | ScheduleClaimed | ScheduleSelected | Abandon.

(** What an action does that others can observe: schedule the coroutine, select normal
    completion, or select cancellation. *)
Record effect := Effect { schedules : bool; selects_notification : bool; selects_cancel : bool }.

Definition no_effect : effect := Effect false false false.

Definition exec (o : wop) (s : wstate) : wstate * effect :=
  match o with
  | SetHandle => (set_handle s, no_effect)
  | SetHandleBlocked => ((set_handle_blocked s).1, no_effect)
  | Unblock => ((unblock_after_publish s).1, no_effect)
  | Claim =>
      let (s, a) := claim_notification s in
      (s, Effect false (bool_decide (a <> rejected)) false)
  | CancelCas =>
      let (s', _) := request_cancel_cas s in
      (s', Effect false false (negb (was_cancelled s) && was_cancelled s'))
  | ScheduleClaimed => let (s, b) := schedule_claimed s in (s, Effect b false false)
  | ScheduleSelected =>
      let (s', b) := schedule_selected s in
      (s', Effect b (negb (notification_was_selected s) && notification_was_selected s') false)
  | Abandon => (abandon s, no_effect)
  end.

Fixpoint run (os : list wop) (s : wstate) : wstate * list effect :=
  match os with
  | [] => (s, [])
  | o :: os => let (s, e) := exec o s in let (s, es) := run os s in (s, e :: es)
  end.

Definition count (f : effect -> bool) (es : list effect) : nat := length (filter (fun e => f e = true) es).

Definition schedule_count (os : list wop) (s : wstate) : nat := count schedules (run os s).2.

Definition selection_count (os : list wop) (s : wstate) : nat :=
  (count selects_notification (run os s).2 + count selects_cancel (run os s).2)%nat.

(** ** Progress of the byte *)

Lemma exec_code o s : code s <= code (exec o s).1 /\ (code s = code (exec o s).1 -> s = (exec o s).1).
Proof. destruct o, s; cbn; split; (lia || congruence || done). Qed.

(** The states in which the coroutine can still be scheduled, respectively an outcome selected. *)
Definition may_schedule (s : wstate) : nat :=
  match s with notification_scheduling | cancellation_scheduling | abandoned => 0 | _ => 1 end.
Definition may_select (s : wstate) : nat :=
  match s with idle | blocked | waiting => 1 | _ => 0 end.

Lemma count_cons f e es : count f (e :: es) = ((if f e then 1 else 0) + count f es)%nat.
Proof. unfold count. rewrite filter_cons. by destruct (f e). Qed.

Lemma schedule_count_bound os s : (schedule_count os s <= may_schedule s)%nat.
Proof.
  unfold schedule_count. revert s. induction os as [|o os IH]; intros s; [cbn; lia|]. simpl.
  specialize (IH (exec o s).1). destruct (exec o s) as [s' e] eqn:E. simpl in IH.
  destruct (run os s') as [s'' es]. simpl in *. rewrite count_cons.
  assert ((if schedules e then 1 else 0) + may_schedule s' <= may_schedule s)%nat; [|lia].
  destruct o, s; vm_compute in E; simplify_eq; cbn; lia.
Qed.

Lemma selection_count_bound os s : (selection_count os s <= may_select s)%nat.
Proof.
  unfold selection_count. revert s. induction os as [|o os IH]; intros s; [cbn; lia|]. simpl.
  specialize (IH (exec o s).1). destruct (exec o s) as [s' e] eqn:E. simpl in IH.
  destruct (run os s') as [s'' es]. simpl in *. rewrite !count_cons.
  assert ((if selects_notification e then 1 else 0) + (if selects_cancel e then 1 else 0)
          + may_select s' <= may_select s)%nat; [|lia].
  destruct o, s; vm_compute in E; simplify_eq; cbn; lia.
Qed.

Lemma run_app os1 os2 s :
  run (os1 ++ os2) s = ((run os2 (run os1 s).1).1, (run os1 s).2 ++ (run os2 (run os1 s).1).2).
Proof.
  revert s. induction os1 as [|o os IH]; intros s; simpl; [by destruct (run os2 s)|].
  destruct (exec o s) as [s' e]. rewrite IH. by destruct (run os s').
Qed.

(** ** Theorems *)

(** Whatever the interleaving of awaiter, notifiers and cancellation callbacks, one wake
    state schedules its coroutine at most once, and once [abandon] has run no later operation
    schedules it (the frame may be destroyed). *)
Theorem scheduled_at_most_once os s :
  (schedule_count os s <= 1)%nat
  /\ forall os1 os2, os = os1 ++ Abandon :: os2 ->
     schedule_count os2 (run (os1 ++ [Abandon]) s).1 = 0%nat.
Proof.
  split.
  - pose proof (schedule_count_bound os s). destruct s; simpl in *; lia.
  - intros os1 os2 ->. rewrite run_app. simpl.
    pose proof (schedule_count_bound os2 (abandon (run os1 s).1)).
    destruct (run os1 s).1; simpl in *; lia.
Qed.

(** [C17] Notification and cancellation exclude each other and neither happens twice: in any
    interleaving at most one operation selects the outcome of the wait, and a selected outcome is
    only ever replaced by [abandoned]. *)
Theorem outcome_selected_once os s :
  (selection_count os s <= 1)%nat
  /\ (notification_was_selected s = true ->
      notification_was_selected (run os s).1 = true \/ (run os s).1 = abandoned)
  /\ (was_cancelled s = true -> was_cancelled (run os s).1 = true \/ (run os s).1 = abandoned).
Proof.
  split; [pose proof (selection_count_bound os s); destruct s; simpl in *; lia|].
  revert s. induction os as [|o os IH]; intros s; [by auto|]. simpl.
  destruct (exec o s) as [s' e] eqn:E. specialize (IH s').
  destruct (run os s') as [s'' es] eqn:E'. simpl in *.
  assert (s' = abandoned -> s'' = abandoned) as Hab.
  { intros ->. clear -E'. revert s'' es E'. induction os as [|o os IH]; intros s'' es; simpl.
    - by intros [= <- _].
    - destruct (exec o abandoned) as [s1 e1] eqn:E1. assert (s1 = abandoned) as ->.
      { destruct o; vm_compute in E1; congruence. }
      destruct (run os abandoned) eqn:E2. intros [= <- _]. by eapply IH. }
  destruct IH as [IH1 IH2].
  destruct o, s; vm_compute in E; simplify_eq; vm_compute in IH1, IH2; split; intros Hs;
    vm_compute in Hs; try discriminate; tauto.
Qed.

(** Linearizability of the retry loops: a run of [claim_notification], [request_cancel],
    [schedule_selected] or [abandon] that returns has the effect and the result of the atomic
    operation applied to the value the byte held at some instant of the run, all interference
    before that instant and none after it. *)
Theorem cas_loop_linearizable {R} (p : wstate -> plan R) script s s' r :
  cas_loop p script s s = Some (s', r) ->
  exists n, atomically p (foldl (fun s e => e.1 s) s (take n script)) = (s', r).
Proof.
  revert s. induction script as [|[env sp] script IH]; intros s; simpl;
    destruct (p s) as [r0|d r0] eqn:Hp; intros H; simplify_eq.
  - exists 0%nat. unfold atomically. simpl. by rewrite Hp.
  - exists 0%nat. unfold atomically. simpl. by rewrite Hp.
  - destruct (negb sp && bool_decide (env s = s)) eqn:Hc; simplify_eq.
    + apply andb_true_iff in Hc as [_ Hc%bool_decide_eq_true].
      exists 1%nat. simpl. unfold atomically. by rewrite Hc, Hp.
    + destruct (IH _ H) as [n Hn]. by exists (S n).
Qed.

(** Termination of the retry loops: when the other threads only perform operations of the
    class (so that the byte only moves forward) and exchanges do not fail spuriously, a loop
    returns within ten attempts. *)
Theorem cas_loop_terminates {R} (p : wstate -> plan R) script s :
  (10 <= length script)%nat ->
  Forall (fun e => e.2 = false /\ exists os, forall s, e.1 s = (run os s).1) script ->
  is_Some (cas_loop p script s s).
Proof.
  intros Hlen. assert (9 - code s < Z.of_nat (length script)) as Hn by (destruct s; simpl; lia).
  clear Hlen. revert s Hn. induction script as [|[env sp] script IH]; intros s Hn Hf.
  { destruct s; simpl in *; lia. }
  apply Forall_cons in Hf as [[Hsp [os Henv]] Hf]. simpl in *. subst sp. simpl.
  destruct (p s); [by eexists|]. case_bool_decide as Hc; [by eexists|].
  apply IH; [|done]. enough (code s < code (env s)) by lia.
  rewrite Henv in Hc |- *. clear -Hc. revert s Hc. induction os as [|o os IH]; intros s Hc; [done|].
  simpl in *. pose proof (exec_code o s) as [H1 H2].
  destruct (exec o s) as [s' e]. specialize (IH s'). destruct (run os s') as [s'' es]. simpl in *.
  destruct (decide (s'' = s')) as [->|Hne].
  - destruct (decide (code s = code s')); [destruct Hc; symmetry; auto|lia].
  - specialize (IH Hne). lia.
Qed.

Lemma cas_loop_linearizable_witness :
  exists n, atomically claim_plan
    (foldl (fun s e => e.1 s) idle (take n [(set_handle, false); (fun s => s, true); (fun s => s, false)]))
    = (notification_claimed, schedule).
Proof.
  apply (cas_loop_linearizable claim_plan [(set_handle, false); (fun s => s, true); (fun s => s, false)] idle).
  reflexivity.
Defined.

Lemma cas_loop_terminates_witness :
  is_Some (cas_loop claim_plan (replicate 10 (fun s => (run [SetHandle; CancelCas] s).1, false)) idle idle).
Proof.
  apply (cas_loop_terminates claim_plan).
  - reflexivity || (simpl; lia).
  - apply Forall_replicate. split; [reflexivity|]. by exists [SetHandle; CancelCas].
Defined.

End Wake.
