(* ===== verification/Waiters.v ===== *)
(** * Waiters of the synchronization primitives

    What the models of [src/include/elio/sync/] share: awaiters are numbered, and a primitive keeps them in queues
    (those that wait, those that a thread is about to schedule, those whose cancellation callback is
    running).  [linked_ok] ties the fields of each awaiter to its membership in the queues, through the
    shapes the primitive allows; the tactics discharge the side conditions of its preservation. *)

From S2P Require Import Prelude.

Module Waiters.

(** [coro::cancel_result]. *)
Inductive cancel_result := completed | cancelled.

#[global] Instance cancel_result_EqDecision : EqDecision cancel_result.
Proof. solve_decision. Defined.

Abbreviation id := nat.

Fixpoint remove_one (w : id) (l : list id) : list id :=
  match l with
  | [] => []
  | x :: l => if decide (x = w) then l else x :: remove_one w l
  end.

(** ** Counting awaiters *)

Section Count.
Context {W : Type}.
Implicit Types (f : W -> bool) (m : gmap id W).

Definition count_if f m : Z := Z.of_nat (size (filter (fun p => f p.2 = true) m)).

Lemma count_if_insert_fresh f m w x :
  m !! w = None -> count_if f (<[w := x]> m) = count_if f m + (if f x then 1 else 0).
Proof.
  intros Hw. unfold count_if.
  assert (filter (fun p : id * W => f p.2 = true) m !! w = None) as Hn.
  { apply map_lookup_filter_None. by left. }
  destruct (f x) eqn:Hx.
  - rewrite map_filter_insert_True, map_size_insert_None by done. lia.
  - rewrite map_filter_insert_not' by (simpl; congruence). lia.
Qed.

Lemma count_if_insert f m w x :
  count_if f (<[w := x]> m)
  = count_if f m + (if f x then 1 else 0) - (match m !! w with Some y => if f y then 1 else 0 | None => 0 end).
Proof.
  destruct (m !! w) as [y|] eqn:Hw; [|rewrite count_if_insert_fresh by done; lia].
  rewrite <-(insert_delete_id m w y Hw) at 2. rewrite <-(insert_delete_eq m w x).
  rewrite !count_if_insert_fresh by apply lookup_delete_eq. lia.
Qed.

Lemma count_if_nonneg f m : 0 <= count_if f m.
Proof. unfold count_if. lia. Qed.

Lemma count_if_delete f m w x : m !! w = Some x -> count_if f m = count_if f (delete w m) + (if f x then 1 else 0).
Proof. intros Hx. rewrite <-(insert_delete_id m w x Hx) at 1. apply count_if_insert_fresh, lookup_delete_eq. Qed.

Lemma count_if_mono f g m : (forall w x, m !! w = Some x -> f x = true -> g x = true) -> count_if f m <= count_if g m.
Proof.
  induction m as [|w x m Hw IH] using map_ind; intros Hfg; [by unfold count_if; rewrite !map_filter_empty|]. rewrite !count_if_insert_fresh by done.
  assert (count_if f m <= count_if g m) by (apply IH; intros v y Hy; apply (Hfg v); rewrite lookup_insert_ne; [done|congruence]).
  pose proof (Hfg w x (lookup_insert_eq _ _ _)) as Hx. destruct (f x), (g x); lia.
Qed.

(** Two awaiters that count are two. *)
Lemma count_if_two f m v w x y : m !! v = Some x -> m !! w = Some y -> f x = true -> f y = true -> v <> w -> 2 <= count_if f m.
Proof.
  intros Hx Hy Hfx Hfy Hne. rewrite (count_if_delete f m v x Hx), (count_if_delete f (delete v m) w y), Hfx, Hfy by (by rewrite lookup_delete_ne).
  pose proof (count_if_nonneg f (delete w (delete v m))). lia.
Qed.

End Count.

(** ** Shapes *)

(** [shape x q s c h]: the fields an awaiter [x] can have, given whether it waits in the queue ([q]), is about
    to be scheduled ([s]), is being cancelled ([c]) and whether it holds the internal mutex ([h]). *)
Section Linked.
Context {W : Type} (shape : W -> bool -> bool -> bool -> bool -> Prop).

(** The invariant on the queues and the awaiters. *)
Record linked_ok (q sc cn : list id) (h : option id) (m : gmap id W) : Prop := {
  lo_q : NoDup q;
  lo_sc : NoDup sc;
  lo_cn : NoDup cn;
  lo_dom : forall w, w ∈ q \/ w ∈ sc \/ w ∈ cn \/ h = Some w -> is_Some (m !! w);
  lo_shape : forall w x, m !! w = Some x ->
    shape x (bool_decide (w ∈ q)) (bool_decide (w ∈ sc)) (bool_decide (w ∈ cn)) (bool_decide (h = Some w));
}.

(** Changing one awaiter, and its own membership in the queues, keeps everybody else's shape. *)
Lemma linked_ok_update q sc cn h m q' sc' cn' h' w x' :
  linked_ok q sc cn h m ->
  NoDup q' -> NoDup sc' -> NoDup cn' ->
  (forall v, v <> w -> (v ∈ q' <-> v ∈ q) /\ (v ∈ sc' <-> v ∈ sc) /\ (v ∈ cn' <-> v ∈ cn)
                     /\ (h' = Some v <-> h = Some v)) ->
  shape x' (bool_decide (w ∈ q')) (bool_decide (w ∈ sc')) (bool_decide (w ∈ cn')) (bool_decide (h' = Some w)) ->
  linked_ok q' sc' cn' h' (<[w := x']> m).
Proof.
  intros [_ _ _ Hdom Hsh] Hq Hsc Hcn Hrest Hx. split; try done.
  - intros v Hv. destruct (decide (v = w)) as [->|Hne]; [rewrite lookup_insert_eq; by eexists|].
    rewrite lookup_insert_ne by done. apply Hdom. destruct (Hrest v Hne) as (? & ? & ? & ?). tauto.
  - intros v y. destruct (decide (v = w)) as [->|Hne].
    + rewrite lookup_insert_eq. by intros [= <-].
    + rewrite lookup_insert_ne by done. intros Hv%Hsh. destruct (Hrest v Hne) as (E1 & E2 & E3 & E4).
      by rewrite (bool_decide_ext _ _ E1), (bool_decide_ext _ _ E2), (bool_decide_ext _ _ E3),
        (bool_decide_ext _ _ E4).
Qed.

End Linked.

Arguments lo_q {W shape} _ _ _ _ _ _.
Arguments lo_sc {W shape} _ _ _ _ _ _.
Arguments lo_cn {W shape} _ _ _ _ _ _.
Arguments lo_dom {W shape} _ _ _ _ _ _.
Arguments lo_shape {W shape} _ _ _ _ _ _.
Arguments linked_ok_update {W shape} _ _ _ _ _ _ _ _ _ _ _.

(** The shape of an awaiter, with its membership bits resolved by what is known of the queues. *)
Ltac bits :=
  repeat match goal with
  | H : true = bool_decide _ |- _ => symmetry in H; apply bool_decide_eq_true in H
  | H : false = bool_decide _ |- _ => symmetry in H; apply bool_decide_eq_false in H
  | H : bool_decide _ = true |- _ => apply bool_decide_eq_true in H
  | H : bool_decide _ = false |- _ => apply bool_decide_eq_false in H
  end.

Ltac shape_of Hl Hx :=
  let Hs := fresh "Hs" in
  pose proof (lo_shape _ _ _ _ _ Hl _ _ Hx) as Hs; inversion Hs; clear Hs; subst; bits.

(** Compute the awaiters of the new state, given what [w] was in the old one. *)
Ltac norm_objs Hx :=
  simpl; rewrite ?insert_insert_eq, ?lookup_total_insert_eq, ?(lookup_total_correct _ _ _ Hx); simpl.

(** Membership after one awaiter is added to or removed from a queue. *)
Lemma elem_snoc (v w : id) q : v <> w -> v ∈ q ++ [w] <-> v ∈ q.
Proof. set_solver. Qed.
Lemma elem_snoc_self (w : id) q : w ∈ q ++ [w].
Proof. set_solver. Qed.
Lemma elem_cons_ne (v w : id) q : v <> w -> v ∈ w :: q <-> v ∈ q.
Proof. set_solver. Qed.
Lemma elem_cons_ne' (v w : id) q : v <> w -> v ∈ q <-> v ∈ w :: q.
Proof. set_solver. Qed.
Lemma elem_cons_self (w : id) q : w ∈ w :: q.
Proof. set_solver. Qed.
Lemma elem_filter (v w : id) (q : list id) : v <> w -> v ∈ filter (.≠ w) q <-> v ∈ q.
Proof. rewrite list_elem_of_filter. tauto. Qed.
Lemma elem_filter_self (w : id) (q : list id) : w ∉ filter (.≠ w) q.
Proof. rewrite list_elem_of_filter. tauto. Qed.
Lemma elem_remove_one (v w : id) q : v <> w -> v ∈ remove_one w q <-> v ∈ q.
Proof. induction q as [|x q IH]; simpl; [done|]. case_decide; set_solver. Qed.
Lemma elem_remove_one_self (w : id) q : NoDup q -> w ∉ remove_one w q.
Proof.
  induction 1 as [|x q Hx Hq IH]; simpl; [set_solver|]. case_decide; [by subst|]. set_solver.
Qed.
Lemma NoDup_remove_one (w : id) q : NoDup q -> NoDup (remove_one w q).
Proof.
  induction 1 as [|x q Hx Hq IH]; simpl; [constructor|]. case_decide; [done|].
  constructor; [|done]. by rewrite elem_remove_one.
Qed.
Lemma NoDup_snoc (w : id) q : NoDup q -> w ∉ q -> NoDup (q ++ [w]).
Proof. intros. apply NoDup_app. split; [done|]. split; [set_solver|]. apply NoDup_singleton. Qed.
Lemma NoDup_filter' (w : id) (q : list id) : NoDup q -> NoDup (filter (.≠ w) q).
Proof. apply NoDup_filter. Qed.
Lemma holder_other (v w : id) : v <> w -> Some w = Some v <-> (None : option id) = Some v.
Proof. split; congruence. Qed.
Lemma holder_other' (v w : id) : v <> w -> (None : option id) = Some v <-> Some w = Some v.
Proof. split; congruence. Qed.

Create HintDb waiters.
#[export] Hint Resolve elem_snoc elem_snoc_self elem_cons_ne elem_cons_ne' elem_cons_self elem_filter
  elem_filter_self elem_remove_one elem_remove_one_self NoDup_remove_one NoDup_snoc NoDup_filter'
  holder_other holder_other' iff_refl NoDup_cons_2 not_elem_of_nil   : waiters.
#[export] Hint Extern 1 (None <> Some _) => discriminate   : waiters.
#[export] Hint Extern 1 (Some _ <> None) => discriminate   : waiters.

(** Normalise the membership bits of the goal. *)
Ltac set_bits :=
  repeat match goal with
  | |- context [bool_decide ?P] =>
      first [ rewrite (bool_decide_eq_true_2 P) by eauto 2 with waiters
            | rewrite (bool_decide_eq_false_2 P) by eauto 2 with waiters ]
  end.

Ltac others := intros ? ?; split_and!; eauto 2 with waiters; try (split; congruence).

(** Discharge a shape that contradicts what is known of the queues. *)
Ltac absurd_shape :=
  solve [ match goal with
  | H : ~ ?P |- _ => exfalso; apply H; by eauto 2 with waiters
  | H : None = Some _ |- _ => discriminate H
  | H : ?w ∈ [] |- _ => by apply not_elem_of_nil in H
  end ].

(** Split the alternatives a shape leaves open. *)
Ltac cases :=
  repeat match goal with
  | H : _ \/ _ |- _ => destruct H
  | H : _ /\ _ |- _ => destruct H
  end; subst; try discriminate; simpl.

End Waiters.
