(* ===== verification/Semaphore.v ===== *)
(** * The coroutine semaphore of [include/elio/sync/semaphore.hpp]

    A small-step model: [sem] holds the fields of the semaphore, of every awaiter object and of
    the threads that interact with it; each [Definition] below is one atomic section of the code
    (a critical section under [mutex_], or one access to a wake state, whose operations come from
    [WakeState]).  The suspension of a cancellable acquire keeps [mutex_] locked over three wake
    state accesses, so cancellation can interleave between them; everything else that touches
    [count_] or [waiters_] needs the lock free.  [waiters_] is the sequence the intrusive list
    stands for (see [IntrusiveList]).

    Invariants are proved for every interleaving: permits are conserved, a coroutine is resumed
    with [completed] exactly when a permit was debited for it, assertions never fail, no suspended
    awaiter is lost, and permits are never available while someone queues for them. *)

From S2P Require Import Prelude WakeState Waiters.

Module Sem.
Export Waiters.
Import Wake.

(** ** Data *)

(** Where the coroutine is in [co_await sem.acquire(...)]. *)
Inductive pc :=
  | Ready          (* about to call await_ready *)
  | ReadyChecked   (* await_ready, cancellable: was_cancelled() was false, mutex_ not yet taken *)
  | Suspend        (* await_ready returned false; about to call await_suspend *)
  | SuspendLocked  (* await_suspend, cancellable: holds mutex_, was_cancelled() was false *)
  | Published      (* await_suspend, cancellable: holds mutex_, queued, still blocked *)
  | Suspended      (* await_suspend returned true *)
  | Resumable      (* continues without suspending; about to call await_resume *)
  | Done (r : cancel_result)
  | Destroyed.

#[global] Instance pc_EqDecision : EqDecision pc.
Proof. solve_decision. Defined.

(** An [acquire_waiter] with its [waiter_state]: [wake] is [None] while [engaged] is false.
    [scheduled] records that the coroutine was handed to the scheduler; [got] is a ghost flag,
    true while a permit is reserved for or owned by this acquire. *)
Record waiter := Waiter {
  cancellable : bool;
  at_pc : pc;
  wake : option wstate;
  suspended : bool;
  resumed : bool;
  grant_pending : bool;
  scheduled : bool;
  got : bool;
}.

(** [to_schedule]: wake states collected under the lock that some thread still has to pass to
    [schedule_wake_state]; [to_cancel]: cancellation callbacks between their two exchanges;
    [holder]: the awaiter that holds [mutex_] between steps; [asserts_ok]: no assertion failed.
    [taken] and [released] are ghost totals of [try_acquire] and [release]. *)
Record sem := SemState {
  count_ : Z;
  waiters_ : list id;
  holder : option id;
  objs : gmap id waiter;
  to_schedule : list id;
  to_cancel : list id;
  asserts_ok : bool;
  taken : Z;
  released : Z;
}.

Definition INT_MAX : Z := INT32_MAX.

Definition no_waiter : waiter := Waiter false Destroyed None false false false false false.
#[global] Instance waiter_inhabited : Inhabited waiter := populate no_waiter.

(** ** Field updates *)

Definition with_pc (p : pc) (x : waiter) : waiter :=
  Waiter (cancellable x) p (wake x) (suspended x) (resumed x) (grant_pending x) (scheduled x) (got x).
Definition with_wake (s : wstate) (x : waiter) : waiter :=
  Waiter (cancellable x) (at_pc x) (Some s) (suspended x) (resumed x) (grant_pending x) (scheduled x) (got x).
Definition with_suspended (b : bool) (x : waiter) : waiter :=
  Waiter (cancellable x) (at_pc x) (wake x) b (resumed x) (grant_pending x) (scheduled x) (got x).
Definition with_grant (b : bool) (x : waiter) : waiter :=
  Waiter (cancellable x) (at_pc x) (wake x) (suspended x) (resumed x) b (scheduled x) (got x).
Definition with_scheduled (x : waiter) : waiter :=
  Waiter (cancellable x) (at_pc x) (wake x) (suspended x) (resumed x) (grant_pending x) true (got x).
Definition with_got (b : bool) (x : waiter) : waiter :=
  Waiter (cancellable x) (at_pc x) (wake x) (suspended x) (resumed x) (grant_pending x) (scheduled x) b.

Definition upd (w : id) (f : waiter -> waiter) (s : sem) : sem :=
  SemState (count_ s) (waiters_ s) (holder s) (<[w := f (objs s !!! w)]> (objs s)) (to_schedule s)
    (to_cancel s) (asserts_ok s) (taken s) (released s).
Definition add_count (n : Z) (s : sem) : sem :=
  SemState (count_ s + n) (waiters_ s) (holder s) (objs s) (to_schedule s) (to_cancel s) (asserts_ok s)
    (taken s) (released s).
Definition with_queue (q : list id) (s : sem) : sem :=
  SemState (count_ s) q (holder s) (objs s) (to_schedule s) (to_cancel s) (asserts_ok s) (taken s) (released s).
Definition with_holder (h : option id) (s : sem) : sem :=
  SemState (count_ s) (waiters_ s) h (objs s) (to_schedule s) (to_cancel s) (asserts_ok s) (taken s) (released s).
Definition with_to_schedule (l : list id) (s : sem) : sem :=
  SemState (count_ s) (waiters_ s) (holder s) (objs s) l (to_cancel s) (asserts_ok s) (taken s) (released s).
Definition with_to_cancel (l : list id) (s : sem) : sem :=
  SemState (count_ s) (waiters_ s) (holder s) (objs s) (to_schedule s) l (asserts_ok s) (taken s) (released s).
Definition check (b : bool) (s : sem) : sem :=
  SemState (count_ s) (waiters_ s) (holder s) (objs s) (to_schedule s) (to_cancel s) (asserts_ok s && b)
    (taken s) (released s).
Definition add_ghost (t r : Z) (s : sem) : sem :=
  SemState (count_ s) (waiters_ s) (holder s) (objs s) (to_schedule s) (to_cancel s) (asserts_ok s)
    (taken s + t) (released s + r).

(** [this->is_linked()]. *)
Definition linked (w : id) (s : sem) : bool := bool_decide (w ∈ waiters_ s).

(** [waiters_.remove(this)]. *)
Definition unlink (w : id) (s : sem) : sem := with_queue (filter (.≠ w) (waiters_ s)) s.

Definition wake_of (x : waiter) : wstate := default idle (wake x).

(** ** The semaphore *)

Definition init (initial_count : Z) : sem := SemState initial_count [] None ∅ [] [] (0 <=? initial_count) 0 0.

(** [claim_waiter_locked]: pop waiters until one accepts the permit; the popped prefix of [q]. *)
Fixpoint claim_waiter_locked (q : list id) (s : sem) : option id * sem :=
  match q with
  | [] => (None, with_queue [] s)
  | w :: q =>
      let x := objs s !!! w in
      if cancellable x then
        let (st, action) := claim_notification (wake_of x) in
        let s := upd w (with_wake st) s in
        if decide (action = rejected) then claim_waiter_locked q s
        else (Some w, upd w (fun x => with_got true (with_grant true x)) (with_queue q s))
      else (Some w, upd w (fun x => with_got true (with_grant true x)) (with_queue q s))
  end.

Definition claim_waiter (s : sem) : option id * sem := claim_waiter_locked (waiters_ s) s.

(** A claimed wake state is handed to [schedule_wake_state] after the lock is released. *)
Definition recover_cancelled_handoff_locked (s : sem) : sem :=
  let (r, s) := claim_waiter s in
  match r with
  | Some w => with_to_schedule (w :: to_schedule s) s
  | None => add_count 1 (check (count_ s <? INT_MAX) s)
  end.

(** The loop of [release]: [remaining] permits left to hand out. *)
Fixpoint release_loop (remaining : nat) (s : sem) : nat * sem :=
  match remaining with
  | O => (O, s)
  | S n =>
      let (r, s) := claim_waiter s in
      match r with
      | Some w => release_loop n (with_to_schedule (w :: to_schedule s) s)
      | None => (remaining, s)
      end
  end.

Definition release (count : positive) (s : sem) : sem :=
  let (remaining, s) := release_loop (Pos.to_nat count) s in
  let s := check (count_ s <=? INT_MAX - Z.of_nat remaining) s in
  add_ghost 0 (Zpos count) (add_count (Z.of_nat remaining) s).

Definition try_acquire (s : sem) : sem * bool :=
  if 0 <? count_ s then (add_count (-1) s, true) else (s, false).

(** ** The awaiter *)

Definition construct (w : id) (is_cancellable : bool) (s : sem) : sem :=
  upd w (fun _ => Waiter is_cancellable Ready (if is_cancellable then Some idle else None)
                    false false false false false) s.

Definition await_ready_plain (w : id) (s : sem) : sem :=
  let (s, ok) := try_acquire s in
  if ok then upd w (fun x => with_got true (with_pc Resumable x)) s
  else upd w (with_pc Suspend) s.

Definition await_ready_check (w : id) (s : sem) : sem :=
  if was_cancelled (wake_of (objs s !!! w)) then upd w (with_pc Resumable) s
  else upd w (with_pc ReadyChecked) s.

Definition await_ready_claim (w : id) (s : sem) : sem :=
  if count_ s =? 0 then upd w (with_pc Suspend) s
  else
    let (st, action) := claim_notification (wake_of (objs s !!! w)) in
    let s := upd w (with_wake st) s in
    if decide (action = rejected) then upd w (with_pc Resumable) s
    else
      let s := check (bool_decide (action = completed_inline)) s in
      upd w (fun x => with_got true (with_pc Resumable x)) (add_count (-1) s).

Definition await_suspend_plain (w : id) (s : sem) : sem :=
  let s := upd w (with_wake idle) s in
  if 0 <? count_ s then upd w (fun x => with_got true (with_pc Resumable x)) (add_count (-1) s)
  else
    let s := upd w (fun x => with_wake (set_handle (wake_of x)) x) s in
    let s := with_queue (waiters_ s ++ [w]) s in
    upd w (fun x => with_pc Suspended (with_suspended true x)) s.

(** [emplace] throws [std::bad_alloc]: the await expression is left with nothing changed. *)
Definition await_suspend_throws (w : id) (s : sem) : sem := upd w (with_pc Destroyed) s.

Definition await_suspend_lock (w : id) (s : sem) : sem :=
  if was_cancelled (wake_of (objs s !!! w)) then upd w (with_pc Resumable) s
  else upd w (with_pc SuspendLocked) (with_holder (Some w) s).

Definition await_suspend_publish (w : id) (s : sem) : sem :=
  if 0 <? count_ s then
    let s := add_count (-1) s in
    let (st, action) := claim_notification (wake_of (objs s !!! w)) in
    let s := upd w (with_wake st) s in
    if decide (action = rejected) then
      with_holder None (upd w (with_pc Resumable) (recover_cancelled_handoff_locked s))
    else with_holder None (upd w (fun x => with_got true (with_pc Resumable x)) s)
  else
    let (st, ok) := set_handle_blocked (wake_of (objs s !!! w)) in
    let s := upd w (with_wake st) s in
    if ok then
      let s := with_queue (waiters_ s ++ [w]) s in
      upd w (fun x => with_pc Published (with_suspended true x)) s
    else with_holder None (upd w (with_pc Resumable) s).

Definition await_suspend_unblock (w : id) (s : sem) : sem :=
  let (st, ok) := unblock_after_publish (wake_of (objs s !!! w)) in
  let s := upd w (with_wake st) s in
  if ok then with_holder None (upd w (with_pc Suspended) s)
  else
    let s := unlink w s in
    with_holder None (upd w (fun x => with_pc Resumable (with_suspended false x)) s).

Definition await_resume (w : id) (s : sem) : sem :=
  let x := objs s !!! w in
  if cancellable x && was_cancelled (wake_of x) then
    let s := if suspended x && linked w s then unlink w s else s in
    upd w (fun x => with_pc (Done cancelled) (with_suspended false x)) s
  else
    upd w (fun x => Waiter (cancellable x) (Done completed) (wake x) false true false (scheduled x) (got x)) s.

(** [~acquire_waiter] of a coroutine frame destroyed while it is suspended. *)
Definition destroy (w : id) (s : sem) : sem :=
  let x := objs s !!! w in
  let abandon_wake := fun s => upd w (fun x => with_wake (abandon (wake_of x)) x) s in
  let s := upd w (with_pc Destroyed) s in
  if linked w s then abandon_wake (unlink w s)
  else if grant_pending x && negb (resumed x) then
    recover_cancelled_handoff_locked (upd w (fun x => with_got false (with_grant false x)) (abandon_wake s))
  else abandon_wake s.

(** ** Notifiers and cancellation callbacks *)

Definition schedule_one (w : id) (s : sem) : sem :=
  let (st, ok) := schedule_selected (wake_of (objs s !!! w)) in
  let s := with_to_schedule (remove_one w (to_schedule s)) s in
  upd w (fun x => let x := with_wake st x in if ok then with_scheduled x else x) s.

Definition cancel_first (w : id) (s : sem) : sem :=
  let (st, r) := request_cancel_cas (wake_of (objs s !!! w)) in
  let s := upd w (with_wake st) s in
  if r.2 then with_to_cancel (w :: to_cancel s) s else s.

Definition cancel_second (w : id) (s : sem) : sem :=
  let (st, ok) := schedule_claimed (wake_of (objs s !!! w)) in
  let s := with_to_cancel (remove_one w (to_cancel s)) s in
  upd w (fun x => let x := with_wake st x in if ok then with_scheduled x else x) s.

(** Permits available or reserved for waiters that have not resumed: what the documentation
    requires to stay within [INT_MAX]. *)
Definition reserved (s : sem) : Z := count_if grant_pending (objs s).

(** ** Interleavings *)

Definition is_at (w : id) (p : pc) (c : bool) (s : sem) : Prop :=
  exists x, objs s !! w = Some x /\ at_pc x = p /\ cancellable x = c.

Inductive step : sem -> sem -> Prop :=
| step_construct w c s : objs s !! w = None -> step s (construct w c s)
| step_ready_plain w s : is_at w Ready false s -> holder s = None -> step s (await_ready_plain w s)
| step_ready_check w s : is_at w Ready true s -> step s (await_ready_check w s)
| step_ready_claim w s : is_at w ReadyChecked true s -> holder s = None -> step s (await_ready_claim w s)
| step_suspend_plain w s : is_at w Suspend false s -> holder s = None -> step s (await_suspend_plain w s)
| step_suspend_throws w s : is_at w Suspend false s -> step s (await_suspend_throws w s)
| step_suspend_lock w s : is_at w Suspend true s -> holder s = None -> step s (await_suspend_lock w s)
| step_suspend_publish w s : is_at w SuspendLocked true s -> holder s = Some w -> step s (await_suspend_publish w s)
| step_suspend_unblock w s : is_at w Published true s -> holder s = Some w -> step s (await_suspend_unblock w s)
| step_resume_inline w c s : is_at w Resumable c s -> step s (await_resume w s)
| step_resume w c s :
    is_at w Suspended c s -> scheduled (objs s !!! w) = true ->
    (c = true -> was_cancelled (wake_of (objs s !!! w)) = true -> holder s = None) ->
    step s (await_resume w s)
| step_destroy w c s : is_at w Suspended c s -> holder s = None -> step s (destroy w s)
| step_schedule w s : w ∈ to_schedule s -> step s (schedule_one w s)
| step_cancel_first w s : (exists p, is_at w p true s) -> step s (cancel_first w s)
| step_cancel_second w s : w ∈ to_cancel s -> step s (cancel_second w s)
| step_release n s :
    holder s = None -> count_ s + reserved s + Zpos n <= INT_MAX -> step s (release n s)
| step_try_acquire s :
    holder s = None -> step s (let (s', ok) := try_acquire s in if ok then add_ghost 1 0 s' else s').

(** ** The configurations an awaiter can be in *)

(** [wshape x q s c h]: the fields of awaiter [x], given whether it is in [waiters_] ([q]), in
    [to_schedule] ([s]), in [to_cancel] ([c]) and whether it holds [mutex_] ([h]). *)
Inductive wshape : waiter -> bool -> bool -> bool -> bool -> Prop :=
| sh_fresh_plain p : p = Ready \/ p = Suspend ->
    wshape (Waiter false p None false false false false false) false false false false
| sh_fresh_cancellable p st :
    p = Ready \/ p = ReadyChecked \/ p = Suspend -> st = idle \/ st = cancelled_inline ->
    wshape (Waiter true p (Some st) false false false false false) false false false false
| sh_locked st : st = idle \/ st = cancelled_inline ->
    wshape (Waiter true SuspendLocked (Some st) false false false false false) false false false true
| sh_published st : st = blocked \/ st = cancelled_inline ->
    wshape (Waiter true Published (Some st) true false false false false) true false false true
| sh_queued c :
    wshape (Waiter c Suspended (Some waiting) true false false false false) true false false false
| sh_granted c st : (c = false /\ st = waiting) \/ (c = true /\ st = notification_claimed) ->
    wshape (Waiter c Suspended (Some st) true false true false true) false true false false
| sh_notified c :
    wshape (Waiter c Suspended (Some notification_scheduling) true false true true true) false false false false
| sh_cancelling q :
    wshape (Waiter true Suspended (Some cancellation_claimed) true false false false false) q false true false
| sh_cancelled q :
    wshape (Waiter true Suspended (Some cancellation_scheduling) true false false true false) q false false false
| sh_inline_plain wk : wk = None \/ wk = Some idle ->
    wshape (Waiter false Resumable wk false false false false true) false false false false
| sh_inline_notified :
    wshape (Waiter true Resumable (Some notified_inline) false false false false true) false false false false
| sh_inline_cancelled :
    wshape (Waiter true Resumable (Some cancelled_inline) false false false false false) false false false false
| sh_completed c wk sc :
    (c = false /\ (wk = None \/ wk = Some idle)) \/ (c = true /\ wk = Some notified_inline)
      \/ wk = Some notification_scheduling ->
    wshape (Waiter c (Done completed) wk false true false sc true) false false false false
| sh_done_cancelled st sc : st = cancelled_inline \/ st = cancellation_scheduling ->
    wshape (Waiter true (Done cancelled) (Some st) false false false sc false) false false false false
| sh_thrown :
    wshape (Waiter false Destroyed None false false false false false) false false false false
| sh_abandoned c sc s cn :
    wshape (Waiter c Destroyed (Some abandoned) true false false sc false) false s cn false
| sh_destroyed c st sc : st = notification_scheduling \/ st = cancellation_scheduling ->
    wshape (Waiter c Destroyed (Some st) true false false sc false) false false false false.

Abbreviation linked_ok := (Waiters.linked_ok wshape).

(** The invariant on permits, while the running operation has [k] more of them in hand. *)
Record permits_ok (init_count k : Z) (s : sem) : Prop := {
  po_count : 0 <= count_ s;
  po_queue : 0 < count_ s -> waiters_ s = [];
  po_conserved : count_ s + count_if got (objs s) + taken s + k = init_count + released s;
  po_bound : count_ s + reserved s + k <= INT_MAX;
  po_asserts : asserts_ok s = true;
}.

Record inv (init_count k : Z) (s : sem) : Prop := {
  inv_linked : linked_ok (waiters_ s) (to_schedule s) (to_cancel s) (holder s) (objs s);
  inv_permits : permits_ok init_count k s;
}.

(** ** Claiming a waiter *)

(** Everything but the queue and the awaiters is unchanged. *)
Definition same_rest (s s' : sem) : Prop :=
  count_ s' = count_ s /\ holder s' = holder s /\ to_schedule s' = to_schedule s /\ to_cancel s' = to_cancel s
  /\ asserts_ok s' = asserts_ok s /\ taken s' = taken s /\ released s' = released s.

Lemma upd_upd w f g s : upd w f (upd w g s) = upd w (fun x => f (g x)) s.
Proof. unfold upd. simpl. by rewrite insert_insert_eq, lookup_total_insert_eq. Qed.

Lemma upd_id w f s x : objs s !! w = Some x -> f x = x -> upd w f s = s.
Proof.
  intros Hx Hf. unfold upd. rewrite (lookup_total_correct _ _ _ Hx), Hf, insert_id by done.
  by destruct s.
Qed.

Lemma upd_objs w f s x : objs s !! w = Some x -> objs (upd w f s) = <[w := f x]> (objs s).
Proof. intros Hx. simpl. by rewrite (lookup_total_correct _ _ _ Hx). Qed.

Lemma claim_waiter_locked_ok q s r s' :
  linked_ok q (to_schedule s) (to_cancel s) None (objs s) -> holder s = None ->
  claim_waiter_locked q s = (r, s') ->
  same_rest s s' /\
  match r with
  | None => waiters_ s' = [] /\ linked_ok [] (to_schedule s) (to_cancel s) None (objs s')
      /\ count_if got (objs s') = count_if got (objs s) /\ reserved s' = reserved s
  | Some w => linked_ok (waiters_ s') (w :: to_schedule s) (to_cancel s) None (objs s')
      /\ count_if got (objs s') = count_if got (objs s) + 1 /\ reserved s' = reserved s + 1
      /\ w ∈ q
  end.
Proof.
  unfold reserved. revert s. induction q as [|w q IH]; intros s Hl Hh E.
  { simpl in E. simplify_eq. simpl. by repeat split; try apply Hl. }
  destruct (lo_dom _ _ _ _ _ Hl w) as [x Hx]; [left; apply elem_cons_self|].
  pose proof (lo_q _ _ _ _ _ Hl) as [Hwq Hq]%NoDup_cons.
  pose proof (lo_sc _ _ _ _ _ Hl) as Hsc. pose proof (lo_cn _ _ _ _ _ Hl) as Hcn.
  simpl in E. rewrite (lookup_total_correct _ _ _ Hx) in E.
  shape_of Hl Hx; try absurd_shape; simpl in E.
  - assert (r = Some w /\ same_rest s s' /\ waiters_ s' = q /\
      objs s' = <[w := Waiter c Suspended (Some (if c then notification_claimed else waiting))
                         true false true false true]> (objs s)) as (-> & Hr & Hq' & Ho).
    { destruct c; simpl in E; simplify_eq; norm_objs Hx; by repeat split. }
    split; [done|]. unfold reserved. rewrite Ho, Hq', !count_if_insert, Hx. simpl.
    split_and!; [|lia|lia|apply elem_cons_self].
    eapply linked_ok_update; [exact Hl|done|constructor; done|done|others|].
    set_bits. constructor. destruct c; tauto.
  - rewrite (upd_id _ _ _ _ Hx) in E by done. destruct (IH s) as [Hr Hm]; [|done|done|].
    { rewrite <-(insert_id _ _ _ Hx). eapply linked_ok_update; [exact Hl|done..|others|].
      set_bits. constructor. }
    split; [done|]. destruct r; split_ands; split_and!; try done. by right.
  - rewrite (upd_id _ _ _ _ Hx) in E by done. destruct (IH s) as [Hr Hm]; [|done|done|].
    { rewrite <-(insert_id _ _ _ Hx). eapply linked_ok_update; [exact Hl|done..|others|].
      set_bits. constructor. }
    split; [done|]. destruct r; split_ands; split_and!; try done. by right.
Qed.

(** One permit in hand goes to a waiter, or nobody is left in the queue. *)
Lemma claim_waiter_ok i k s r s' :
  inv i k s -> holder s = None -> claim_waiter s = (r, s') ->
  holder s' = None /\
  match r with
  | Some w => inv i (k - 1) (with_to_schedule (w :: to_schedule s') s')
  | None => inv i k s' /\ waiters_ s' = []
  end.
Proof.
  intros [Hl [Hc Hq Hcons Hb Ha]] Hh E. rewrite Hh in Hl.
  destruct (claim_waiter_locked_ok _ _ _ _ Hl Hh E) as [(E1 & E2 & E3 & E4 & E5 & E6 & E7) Hm].
  split; [congruence|]. destruct r as [w|].
  - destruct Hm as (Hl' & Hg & Hr & Hw). split; simpl.
    + by rewrite E2, E3, E4, Hh.
    + assert (count_ s <= 0) by (destruct (Z.le_gt_cases (count_ s) 0) as [|Hgt]; [done|];
        rewrite (Hq ltac:(lia)) in Hw; by apply not_elem_of_nil in Hw).
      unfold reserved in *. split; simpl; rewrite ?E1, ?E5, ?E6, ?E7; unfold reserved; simpl; try lia. done.
  - destruct Hm as (Hw & Hl' & Hg & Hr). split; [|done]. split.
    + by rewrite Hw, E2, E3, E4, Hh.
    + split; rewrite ?E1, ?E5, ?E6, ?E7, ?Hg, ?Hr; done.
Qed.

Lemma inv_add_count i k n s :
  inv i k s -> 0 <= n -> waiters_ s = [] ->
  inv i (k - n) (add_count n s).
Proof.
  intros [Hl [Hc Hq Hcons Hb Ha]] Hn Hw. split; [done|].
  unfold reserved in *. split; simpl; unfold reserved; simpl; try done; lia.
Qed.

Lemma inv_check i k b s : inv i k s -> b = true -> inv i k (check b s).
Proof.
  intros [Hl [Hc Hq Hcons Hb Ha]] ->. split; [done|]. unfold reserved in *.
  split; simpl; unfold reserved; simpl; try done. by rewrite Ha.
Qed.

Lemma recover_ok i k s :
  inv i k s -> 1 <= k -> holder s = None ->
  inv i (k - 1) (recover_cancelled_handoff_locked s) /\ holder (recover_cancelled_handoff_locked s) = None.
Proof.
  intros Hi Hk Hh. unfold recover_cancelled_handoff_locked. destruct (claim_waiter s) as [r s'] eqn:E.
  destruct (claim_waiter_ok _ _ _ _ _ Hi Hh E) as [Hh' Hm]. destruct r as [w|]; [done|].
  destruct Hm as [Hi' Hw]. split; [|done]. apply (inv_add_count i k 1 (check _ s')); [|lia|done].
  apply inv_check; [done|]. apply Z.ltb_lt. destruct Hi' as [_ [? _ _ ? _]].
  pose proof (count_if_nonneg grant_pending (objs s')). unfold reserved in *. lia.
Qed.

Lemma release_loop_ok i n k s m s' :
  inv i k s -> holder s = None -> release_loop n s = (m, s') ->
  inv i (k - (Z.of_nat n - Z.of_nat m)) s' /\ holder s' = None /\ (m <> O -> waiters_ s' = []).
Proof.
  revert k s. induction n as [|n IH]; intros k s Hi Hh E; simpl in E.
  { simplify_eq. split_and!; [|done|done]. by replace (k - _) with k by lia. }
  destruct (claim_waiter s) as [r s1] eqn:E1.
  destruct (claim_waiter_ok _ _ _ _ _ Hi Hh E1) as [Hh1 Hm]. destruct r as [w|].
  - destruct (IH _ _ Hm Hh1 E) as (Hi' & Hh' & Hw'). split_and!; [|done..].
    by replace (k - _) with (k - 1 - (Z.of_nat n - Z.of_nat m)) by lia.
  - destruct Hm as [Hi1 Hw1]. simplify_eq. split_and!; [|done|done]. by replace (k - _) with k by lia.
Qed.

Lemma release_ok i n s :
  inv i 0 s -> holder s = None -> count_ s + reserved s + Zpos n <= INT_MAX -> inv i 0 (release n s).
Proof.
  intros Hi Hh Hpre. unfold release.
  assert (inv (i + Zpos n) (Zpos n) s) as Hi1.
  { destruct Hi as [Hl [? ? ? ? ?]]. split; [done|]. split; try done; lia. }
  destruct (release_loop (Pos.to_nat n) s) as [m s'] eqn:E.
  destruct (release_loop_ok _ _ _ _ _ _ Hi1 Hh E) as (Hi' & Hh' & Hw'). clear E.
  replace (Zpos n - (Z.of_nat (Pos.to_nat n) - Z.of_nat m)) with (Z.of_nat m) in Hi' by lia.
  assert (inv (i + Zpos n) 0 (add_count (Z.of_nat m) (check (count_ s' <=? INT_MAX - Z.of_nat m) s'))) as Hi2.
  { replace 0 with (Z.of_nat m - Z.of_nat m) by lia. destruct m as [|m].
    - destruct Hi' as [Hl [? ? ? ? ?]]. split; [done|]. unfold reserved in *. simpl.
      pose proof (count_if_nonneg grant_pending (objs s')).
      split; simpl; unfold reserved; simpl; rewrite ?Z.add_0_r in *; try done; [lia..|].
      apply andb_true_iff. split; [done|]. apply Z.leb_le. lia.
    - apply inv_add_count; [|lia|by apply Hw']. apply inv_check; [done|]. apply Z.leb_le.
      destruct Hi' as [_ [? _ _ ? _]]. pose proof (count_if_nonneg grant_pending (objs s')).
      unfold reserved in *. lia. }
  destruct Hi2 as [Hl [? ? ? ? ?]]. split; [done|]. unfold reserved in *. simpl in *.
  split; simpl; unfold reserved; simpl; try done; lia.
Qed.

(** ** Steps that change one awaiter *)

Lemma inv_upd i k k' s s' w x x' :
  inv i k s -> objs s !! w = Some x -> objs s' = <[w := x']> (objs s) ->
  NoDup (waiters_ s') -> NoDup (to_schedule s') -> NoDup (to_cancel s') ->
  (forall v, v <> w -> (v ∈ waiters_ s' <-> v ∈ waiters_ s) /\ (v ∈ to_schedule s' <-> v ∈ to_schedule s)
     /\ (v ∈ to_cancel s' <-> v ∈ to_cancel s) /\ (holder s' = Some v <-> holder s = Some v)) ->
  wshape x' (bool_decide (w ∈ waiters_ s')) (bool_decide (w ∈ to_schedule s')) (bool_decide (w ∈ to_cancel s'))
    (bool_decide (holder s' = Some w)) ->
  0 <= count_ s' -> (0 < count_ s' -> waiters_ s' = []) ->
  count_ s' + (if got x' then 1 else 0) + taken s' + k' - released s'
    = count_ s + (if got x then 1 else 0) + taken s + k - released s ->
  count_ s' + (if grant_pending x' then 1 else 0) + k' <= count_ s + (if grant_pending x then 1 else 0) + k ->
  asserts_ok s' = true ->
  inv i k' s'.
Proof.
  intros [Hl [Hc Hq Hcons Hb Ha]] Hx Ho ? ? ? Hoth Hsh ? ? Hg Hgr ?. split.
  - rewrite Ho. by eapply linked_ok_update.
  - unfold reserved in *. split; unfold reserved; rewrite ?Ho, ?count_if_insert, ?Hx; try done; lia.
Qed.

(** The side conditions of [inv_upd] on the permit count. *)
Ltac permits :=
  simpl; solve [ done | lia | congruence
               | match goal with H : 0 < _ -> ?P |- _ -> ?P => intros; apply H; lia end
               | match goal with H : 0 < _ -> waiters_ _ = [] |- 0 < _ -> _ =>
                   let Hc := fresh in intros Hc; first [lia | by rewrite (H Hc)] end
               | rewrite ?andb_true_r; done ].

(** Apply [inv_upd] and discharge the routine side conditions. *)
Ltac upd_one Hi Hx :=
  eapply (inv_upd _ _ _ _ _ _ _ _ Hi Hx);
  [ norm_objs Hx; reflexivity | simpl; eauto 2 with waiters | simpl; eauto 2 with waiters | simpl; eauto 2 with waiters
  | simpl; others | simpl; set_bits; try (constructor; tauto) | try permits .. ].

(** Everything known about awaiter [w] in a state satisfying the invariant. *)
Tactic Notation "facts" hyp(Hi) "as" ident(Hl) :=
  pose proof (inv_linked _ _ _ Hi) as Hl;
  pose proof (lo_q _ _ _ _ _ Hl); pose proof (lo_sc _ _ _ _ _ Hl); pose proof (lo_cn _ _ _ _ _ Hl);
  pose proof (po_count _ _ _ (inv_permits _ _ _ Hi)); pose proof (po_queue _ _ _ (inv_permits _ _ _ Hi));
  pose proof (po_asserts _ _ _ (inv_permits _ _ _ Hi)).

(** Introduce an awaiter at a known program point, with its possible shapes. *)
Tactic Notation "start" "as" ident(Hi) ident(Hl) ident(Hx) :=
  let x := fresh "x" in
  intros Hi (x & Hx & ? & ?); facts Hi as Hl; shape_of Hl Hx; simpl in *; simplify_eq;
  cases; rewrite ?(lookup_total_correct _ _ _ Hx); simpl.

Lemma await_ready_plain_ok i w s :
  inv i 0 s -> is_at w Ready false s -> inv i 0 (await_ready_plain w s).
Proof.
  unfold await_ready_plain, try_acquire. start as Hi Hl Hx.
  destruct (0 <? count_ s) eqn:E; zbool; upd_one Hi Hx.
Qed.

Lemma await_ready_check_ok i w s :
  inv i 0 s -> is_at w Ready true s -> inv i 0 (await_ready_check w s).
Proof. unfold await_ready_check. start as Hi Hl Hx; upd_one Hi Hx. Qed.

Lemma await_ready_claim_ok i w s :
  inv i 0 s -> is_at w ReadyChecked true s -> inv i 0 (await_ready_claim w s).
Proof.
  unfold await_ready_claim. start as Hi Hl Hx; (destruct (count_ s =? 0) eqn:E; zbool; upd_one Hi Hx).
Qed.

Lemma await_suspend_plain_ok i w s :
  inv i 0 s -> is_at w Suspend false s -> inv i 0 (await_suspend_plain w s).
Proof.
  unfold await_suspend_plain. start as Hi Hl Hx.
  simpl. destruct (0 <? count_ s) eqn:E; zbool; upd_one Hi Hx.
Qed.

Lemma await_suspend_throws_ok i w s :
  inv i 0 s -> is_at w Suspend false s -> inv i 0 (await_suspend_throws w s).
Proof. unfold await_suspend_throws. start as Hi Hl Hx; upd_one Hi Hx. Qed.

Lemma await_suspend_lock_ok i w s :
  inv i 0 s -> is_at w Suspend true s -> holder s = None -> inv i 0 (await_suspend_lock w s).
Proof. unfold await_suspend_lock. start as Hi Hl Hx; intros Hh; upd_one Hi Hx. Qed.

Lemma await_suspend_unblock_ok i w s :
  inv i 0 s -> is_at w Published true s -> inv i 0 (await_suspend_unblock w s).
Proof. unfold await_suspend_unblock. start as Hi Hl Hx; upd_one Hi Hx. Qed.

(** With [count_] permits available the queue is empty, so a permit recovered from a cancelled
    acquire goes back to [count_]. *)
Lemma recover_empty s :
  waiters_ s = [] -> count_ s < INT_MAX -> asserts_ok s = true ->
  recover_cancelled_handoff_locked s = add_count 1 s.
Proof.
  intros Hw Hc Ha. unfold recover_cancelled_handoff_locked, claim_waiter. rewrite Hw. simpl.
  destruct s; simpl in *; subst. unfold check, with_queue, add_count. simpl.
  by rewrite (proj2 (Z.ltb_lt _ _) Hc).
Qed.

Lemma await_suspend_publish_ok i w s :
  inv i 0 s -> is_at w SuspendLocked true s -> inv i 0 (await_suspend_publish w s).
Proof.
  unfold await_suspend_publish. start as Hi Hl Hx; (destruct (0 <? count_ s) eqn:E; zbool).
  - upd_one Hi Hx.
  - upd_one Hi Hx.
  - pose proof (po_bound _ _ _ (inv_permits _ _ _ Hi)). pose proof (count_if_nonneg grant_pending (objs s)).
    unfold reserved in *. norm_objs Hx. rewrite recover_empty; simpl; try done; [|auto|lia]. upd_one Hi Hx.
  - upd_one Hi Hx.
Qed.

Lemma await_resume_ok i w c p s :
  inv i 0 s -> is_at w p c s -> p = Resumable \/ (p = Suspended /\ scheduled (objs s !!! w) = true) ->
  inv i 0 (await_resume w s).
Proof.
  unfold await_resume, linked. start as Hi Hl Hx; intros Hp; rewrite ?(lookup_total_correct _ _ _ Hx) in Hp;
    cases; simplify_eq/=;
    repeat match goal with |- context [?b && _] => is_var b; destruct b end; simpl;
    try case_bool_decide; upd_one Hi Hx.
Qed.

Lemma destroy_ok i w c s :
  inv i 0 s -> is_at w Suspended c s -> holder s = None -> inv i 0 (destroy w s).
Proof.
  unfold destroy, linked. start as Hi Hl Hx; intros Hh; simpl;
    first [rewrite bool_decide_eq_true_2 by done | rewrite bool_decide_eq_false_2 by done | case_bool_decide];
    simpl; try (upd_one Hi Hx; fail).
  all: change 0 with (1 - 1); apply recover_ok; [upd_one Hi Hx|lia|done].
Qed.

Lemma schedule_one_ok i w s : inv i 0 s -> w ∈ to_schedule s -> inv i 0 (schedule_one w s).
Proof.
  intros Hi Hw. facts Hi as Hl. destruct (lo_dom _ _ _ _ _ Hl w) as [x Hx]; [tauto|].
  unfold schedule_one. shape_of Hl Hx; cases; try contradiction;
    rewrite ?(lookup_total_correct _ _ _ Hx); simpl; upd_one Hi Hx.
Qed.

Lemma cancel_second_ok i w s : inv i 0 s -> w ∈ to_cancel s -> inv i 0 (cancel_second w s).
Proof.
  intros Hi Hw. facts Hi as Hl. destruct (lo_dom _ _ _ _ _ Hl w) as [x Hx]; [tauto|].
  unfold cancel_second. shape_of Hl Hx; cases; try contradiction;
    rewrite ?(lookup_total_correct _ _ _ Hx); simpl; upd_one Hi Hx.
Qed.

Lemma cancel_first_ok i w p s : inv i 0 s -> is_at w p true s -> inv i 0 (cancel_first w s).
Proof.
  unfold cancel_first. start as Hi Hl Hx; upd_one Hi Hx.
Qed.

Lemma construct_ok i w c s : inv i 0 s -> objs s !! w = None -> inv i 0 (construct w c s).
Proof.
  intros Hi Hw. facts Hi as Hl. destruct Hi as [_ [Hc Hq Hcons Hb Ha]]. unfold construct.
  assert (w ∉ waiters_ s /\ w ∉ to_schedule s /\ w ∉ to_cancel s /\ holder s <> Some w) as (? & ? & ? & ?).
  { split_and!; intros Hin; destruct (lo_dom _ _ _ _ _ Hl w) as [x Hx]; first [tauto | congruence]. }
  split; simpl.
  - eapply linked_ok_update; [exact Hl|done..|others|]. set_bits. destruct c; constructor; tauto.
  - unfold reserved in *. split; unfold reserved; simpl; try done; rewrite count_if_insert, Hw; simpl; lia.
Qed.

Lemma try_acquire_ok i s :
  inv i 0 s -> inv i 0 (let (s', ok) := try_acquire s in if ok then add_ghost 1 0 s' else s').
Proof.
  intros [Hl [Hc Hq Hcons Hb Ha]]. unfold try_acquire. destruct (0 <? count_ s) eqn:E; zbool; [|by split].
  split; [done|]. unfold reserved in *. split; simpl; unfold reserved; simpl; try done; try lia.
  intros. apply Hq. lia.
Qed.

Lemma step_ok i s s' : inv i 0 s -> step s s' -> inv i 0 s'.
Proof.
  intros Hi Hst. destruct Hst as [| | | | | | | | | | | | |w s [p Hp]| | |];
    eauto using construct_ok, await_ready_plain_ok, await_ready_check_ok, await_ready_claim_ok,
      await_suspend_plain_ok, await_suspend_throws_ok, await_suspend_lock_ok, await_suspend_publish_ok,
      await_suspend_unblock_ok, await_resume_ok, destroy_ok, schedule_one_ok, cancel_first_ok,
      cancel_second_ok, release_ok, try_acquire_ok.
Qed.

Lemma init_ok n : 0 <= n <= INT_MAX -> inv n 0 (init n).
Proof.
  intros Hn. split.
  - split; simpl; try constructor; [|done]. intros w [H|[H|[H|H]]]; [by apply not_elem_of_nil in H..|done].
  - split; simpl; unfold reserved, count_if; simpl; rewrite ?map_filter_empty, ?map_size_empty; try done; try lia.
Qed.

Lemma reachable_ok n s : 0 <= n <= INT_MAX -> rtc step (init n) s -> inv n 0 s.
Proof. intros Hn. apply (rtc_invariant step (inv n 0) (step_ok n)). by apply init_ok. Qed.

(** ** Theorems *)

(** [C4] Permits are conserved over every interleaving of acquires, cancellations, destructions,
    releases and [try_acquire]: permits in [count_], reserved or owned by acquires, and taken by
    [try_acquire] always add up to the initial count plus everything released; [count_] never goes
    negative, no assertion of the class fails, and a permit is never left in [count_] while
    anybody is queued for one. *)
Theorem permits_conserved n s :
  0 <= n <= INT_MAX -> rtc step (init n) s ->
  count_ s + count_if got (objs s) + taken s = n + released s
  /\ 0 <= count_ s <= INT_MAX /\ asserts_ok s = true /\ (0 < count_ s -> waiters_ s = []).
Proof.
  intros Hn Hr. destruct (reachable_ok _ _ Hn Hr) as [_ [Hc Hq Hcons Hb Ha]].
  pose proof (count_if_nonneg grant_pending (objs s)). unfold reserved in *. split_and!; try done; lia.
Qed.

(** An acquire reports [completed] exactly when a permit was debited for it: a completed
    acquire owns one, a cancelled one does not, and neither does a destroyed one. *)
Theorem result_matches_permit n s w x :
  0 <= n <= INT_MAX -> rtc step (init n) s -> objs s !! w = Some x ->
  (at_pc x = Done completed -> got x = true)
  /\ (at_pc x = Done cancelled -> got x = false /\ cancellable x = true)
  /\ (at_pc x = Destroyed -> got x = false).
Proof.
  intros Hn Hr Hx. pose proof (inv_linked _ _ _ (reachable_ok _ _ Hn Hr)) as Hl.
  shape_of Hl Hx; simpl; split_and!; intros; cases; done.
Qed.

(** No awaiter is lost: a suspended coroutine is in the queue waiting for a permit that is
    not available, or it owns a grant or a cancellation that a running thread is about to deliver,
    or it has already been handed to the scheduler. *)
Theorem suspended_not_lost n s w x :
  0 <= n <= INT_MAX -> rtc step (init n) s -> objs s !! w = Some x -> at_pc x = Suspended ->
  scheduled x = true
  \/ (w ∈ to_schedule s /\ got x = true)
  \/ (w ∈ to_cancel s /\ was_cancelled (wake_of x) = true)
  \/ (w ∈ waiters_ s /\ count_ s = 0 /\ wake x = Some waiting).
Proof.
  intros Hn Hr Hx Hp. pose proof (reachable_ok _ _ Hn Hr) as Hi. facts Hi as Hl.
  assert (w ∈ waiters_ s -> count_ s = 0) as Hz.
  { intros Hw. destruct (decide (0 < count_ s)) as [Hc|]; [|lia].
    rewrite H3 in Hw by done. by apply not_elem_of_nil in Hw. }
  shape_of Hl Hx; simpl in *; simplify_eq; cases; first [by auto 6 | right; right; right; by auto].
Qed.

(** Waiters are served first come, first served: the waiter that receives a permit is the
    oldest one in the queue that has not been cancelled, and if there is none everybody in the
    queue was cancelled. *)
Theorem claim_fifo n s r s' :
  0 <= n <= INT_MAX -> rtc step (init n) s -> holder s = None -> claim_waiter s = (r, s') ->
  let dead w := was_cancelled (wake_of (objs s !!! w)) = true in
  match r with
  | Some w => exists older, waiters_ s = older ++ w :: waiters_ s' /\ Forall dead older /\ ~ dead w
  | None => Forall dead (waiters_ s)
  end.
Proof.
  intros Hn Hr Hh. pose proof (inv_linked _ _ _ (reachable_ok _ _ Hn Hr)) as Hl.
  unfold claim_waiter. rewrite Hh in Hl. revert Hl. generalize (waiters_ s) as q. clear Hn Hr Hh.
  induction q as [|w q IH]; intros Hl E; simpl in E; [by simplify_eq|].
  destruct (lo_dom _ _ _ _ _ Hl w) as [x Hx]; [left; apply elem_cons_self|].
  pose proof (lo_q _ _ _ _ _ Hl) as [Hwq Hq]%NoDup_cons.
  pose proof (lo_sc _ _ _ _ _ Hl) as Hsc. pose proof (lo_cn _ _ _ _ _ Hl) as Hcn.
  assert (was_cancelled (wake_of x) = true -> linked_ok q (to_schedule s) (to_cancel s) None (objs s)) as Hrest.
  { intros Hwc. rewrite <-(insert_id _ _ _ Hx). eapply linked_ok_update; [exact Hl|done..|others|].
    shape_of Hl Hx; try absurd_shape; try discriminate; set_bits; constructor. }
  rewrite (lookup_total_correct _ _ _ Hx) in E.
  shape_of Hl Hx; try absurd_shape; simpl in E.
  - destruct c; simpl in E; simplify_eq; exists []; simpl; by rewrite (lookup_total_correct _ _ _ Hx).
  - rewrite (upd_id _ _ _ _ Hx) in E by done. specialize (IH (Hrest eq_refl) E).
    destruct r as [v|]; [destruct IH as (o & -> & ? & ?); exists (w :: o); split_and!; try done|];
      constructor; try done; by rewrite (lookup_total_correct _ _ _ Hx).
  - rewrite (upd_id _ _ _ _ Hx) in E by done. specialize (IH (Hrest eq_refl) E).
    destruct r as [v|]; [destruct IH as (o & -> & ? & ?); exists (w :: o); split_and!; try done|];
      constructor; try done; by rewrite (lookup_total_correct _ _ _ Hx).
Qed.

(** ** Witnesses: one waiter suspends, is granted a permit and resumes *)

Definition demo_suspended : sem := Eval vm_compute in
  await_suspend_plain 0 (await_ready_plain 0 (construct 0 false (init 0))).
Definition demo_done : sem := Eval vm_compute in
  await_resume 0 (schedule_one 0 (release 1 demo_suspended)).

Lemma rtc_to s s' s'' t : step s s' -> s' = s'' -> rtc step s'' t -> rtc step s t.
Proof. intros Hs <-. by apply rtc_l. Defined.

Ltac now_at := eexists; split; [vm_compute; reflexivity|done].

Lemma demo_suspended_reachable : rtc step (init 0) demo_suspended.
Proof.
  eapply rtc_to; [apply (step_construct 0%nat false); reflexivity|vm_compute; reflexivity|].
  eapply rtc_to; [apply (step_ready_plain 0%nat); [now_at|reflexivity]|vm_compute; reflexivity|].
  eapply rtc_to; [apply (step_suspend_plain 0%nat); [now_at|reflexivity]|vm_compute; reflexivity|].
  apply rtc_refl.
Qed.

Lemma demo_done_reachable : rtc step (init 0) demo_done.
Proof.
  etrans; [apply demo_suspended_reachable|].
  eapply rtc_to; [apply (step_release 1); [reflexivity|vm_compute; discriminate]|vm_compute; reflexivity|].
  eapply rtc_to; [apply (step_schedule 0%nat); by left|vm_compute; reflexivity|].
  eapply rtc_to; [apply (step_resume 0%nat false); [now_at|reflexivity|discriminate]|vm_compute; reflexivity|].
  apply rtc_refl.
Qed.

Lemma permits_conserved_witness :
  count_ demo_done + count_if got (objs demo_done) + taken demo_done = 0 + released demo_done
  /\ 0 <= count_ demo_done <= INT_MAX /\ asserts_ok demo_done = true
  /\ (0 < count_ demo_done -> waiters_ demo_done = []).
Proof. apply (permits_conserved 0); [by vm_compute|apply demo_done_reachable]. Defined.

Lemma result_matches_permit_witness : got (objs demo_done !!! 0%nat) = true.
Proof.
  apply (result_matches_permit 0 demo_done 0%nat (objs demo_done !!! 0%nat)); [by vm_compute|apply demo_done_reachable|reflexivity|reflexivity].
Defined.

Lemma suspended_not_lost_witness :
  let x := objs demo_suspended !!! 0%nat in
  scheduled x = true \/ (0%nat ∈ to_schedule demo_suspended /\ got x = true)
  \/ (0%nat ∈ to_cancel demo_suspended /\ was_cancelled (wake_of x) = true)
  \/ (0%nat ∈ waiters_ demo_suspended /\ count_ demo_suspended = 0 /\ wake x = Some waiting).
Proof.
  apply (suspended_not_lost 0 demo_suspended 0%nat (objs demo_suspended !!! 0%nat)); [by vm_compute|apply demo_suspended_reachable|reflexivity|reflexivity].
Defined.

Lemma claim_fifo_witness :
  exists older, waiters_ demo_suspended = older ++ 0%nat :: waiters_ (claim_waiter demo_suspended).2
    /\ Forall (fun w => was_cancelled (wake_of (objs demo_suspended !!! w)) = true) older
    /\ ~ was_cancelled (wake_of (objs demo_suspended !!! 0%nat)) = true.
Proof.
  apply (claim_fifo 0 demo_suspended (Some 0%nat) (claim_waiter demo_suspended).2);
    [by vm_compute|apply demo_suspended_reachable|reflexivity|reflexivity].
Defined.

End Sem.
