(* ===== verification/Mutex.v ===== *)
(** * The coroutine mutex of [src/include/elio/sync/mutex.hpp]

    A small-step model in the style of [Semaphore]: each [Definition] is one atomic section of the code.  The
    word [state_] is exchanged without the internal mutex (by [try_lock], by [await_ready] and at the start of
    [await_suspend]), so those exchanges are steps of their own; it is only ever cleared under the
    internal mutex.  Proved for every interleaving: at most one party owns the lock, an await reports
    [completed] exactly when it owns it, and no suspended coroutine is lost. *)

From S2P Require Import Prelude WakeState Waiters.

Module Mutex.
Export Waiters.
Import Wake.

(** ** Data *)

(** The [void*] of [state_]: null, the constant 1, or the address of a coroutine frame. *)
Inductive lock_word := Free | One | Frame (w : id).

#[global] Instance lock_word_EqDecision : EqDecision lock_word.
Proof. solve_decision. Defined.

(** Where the coroutine is in [co_await m.lock(...)]. *)
Inductive pc :=
  | Ready             (* about to call await_ready *)
  | ReadyChecked      (* await_ready, cancellable: was_cancelled() was false *)
  | ReadyOwner        (* await_ready, cancellable: try_lock() succeeded, the wake state is not claimed yet *)
  | ReadyUnlock       (* await_ready, cancellable: the claim was rejected, about to unlock() *)
  | Suspend           (* await_ready returned false; about to call await_suspend *)
  | SuspendAlloc      (* await_suspend, plain: the first exchange failed *)
  | SuspendLocked     (* await_suspend, cancellable: holds the internal mutex, was_cancelled() was false *)
  | SuspendOwner      (* await_suspend, cancellable: the exchange succeeded, the wake state is not claimed yet *)
  | SuspendContended  (* await_suspend, cancellable: the exchange failed *)
  | Published         (* await_suspend, cancellable: queued, still blocked *)
  | Suspended         (* await_suspend returned true *)
  | Resumable         (* continues without suspending; about to call await_resume *)
  | Done (r : cancel_result)
  | Released          (* unlock() was called for this acquisition *)
  | Destroyed.

#[global] Instance pc_EqDecision : EqDecision pc.
Proof. solve_decision. Defined.

(** A [lock_waiter] with its [waiter_state]: [wake] is [None] while [engaged] is false.  [scheduled] records
    that the coroutine was handed to the scheduler; [got] is a ghost flag, true while this await owns the lock. *)
Record waiter := Waiter {
  cancellable : bool;
  at_pc : pc;
  wake : option wstate;
  suspended : bool;
  resumed : bool;
  grant_pending : bool;
  scheduled : bool;
  got : bool;
}.

(** [to_schedule], [to_cancel] and [holder] are as in [Semaphore]; [tries] is the ghost number of callers that own
    the lock through [try_lock]. *)
Record mutex := MutexState {
  state_ : lock_word;
  waiters_ : list id;
  holder : option id;
  objs : gmap id waiter;
  to_schedule : list id;
  to_cancel : list id;
  tries : Z;
}.

Definition no_waiter : waiter := Waiter false Destroyed None false false false false false.
#[global] Instance waiter_inhabited : Inhabited waiter := populate no_waiter.

(** ** Field updates *)

Definition with_pc (p : pc) (x : waiter) : waiter :=
  Waiter (cancellable x) p (wake x) (suspended x) (resumed x) (grant_pending x) (scheduled x) (got x).
Definition with_wake (s : wstate) (x : waiter) : waiter :=
  Waiter (cancellable x) (at_pc x) (Some s) (suspended x) (resumed x) (grant_pending x) (scheduled x) (got x).
Definition with_suspended (b : bool) (x : waiter) : waiter :=
  Waiter (cancellable x) (at_pc x) (wake x) b (resumed x) (grant_pending x) (scheduled x) (got x).
Definition with_grant (b : bool) (x : waiter) : waiter :=
  Waiter (cancellable x) (at_pc x) (wake x) (suspended x) (resumed x) b (scheduled x) (got x).
Definition with_scheduled (x : waiter) : waiter :=
  Waiter (cancellable x) (at_pc x) (wake x) (suspended x) (resumed x) (grant_pending x) true (got x).
Definition with_got (b : bool) (x : waiter) : waiter :=
  Waiter (cancellable x) (at_pc x) (wake x) (suspended x) (resumed x) (grant_pending x) (scheduled x) b.

Definition upd (w : id) (f : waiter -> waiter) (s : mutex) : mutex :=
  MutexState (state_ s) (waiters_ s) (holder s) (<[w := f (objs s !!! w)]> (objs s)) (to_schedule s) (to_cancel s) (tries s).
Definition with_state (v : lock_word) (s : mutex) : mutex :=
  MutexState v (waiters_ s) (holder s) (objs s) (to_schedule s) (to_cancel s) (tries s).
Definition with_queue (q : list id) (s : mutex) : mutex :=
  MutexState (state_ s) q (holder s) (objs s) (to_schedule s) (to_cancel s) (tries s).
Definition with_holder (h : option id) (s : mutex) : mutex :=
  MutexState (state_ s) (waiters_ s) h (objs s) (to_schedule s) (to_cancel s) (tries s).
Definition with_to_schedule (l : list id) (s : mutex) : mutex :=
  MutexState (state_ s) (waiters_ s) (holder s) (objs s) l (to_cancel s) (tries s).
Definition with_to_cancel (l : list id) (s : mutex) : mutex :=
  MutexState (state_ s) (waiters_ s) (holder s) (objs s) (to_schedule s) l (tries s).
Definition add_tries (n : Z) (s : mutex) : mutex :=
  MutexState (state_ s) (waiters_ s) (holder s) (objs s) (to_schedule s) (to_cancel s) (tries s + n).

(** [this->is_linked()] and [waiters_.remove(this)]. *)
Definition linked (w : id) (s : mutex) : bool := bool_decide (w ∈ waiters_ s).
Definition unlink (w : id) (s : mutex) : mutex := with_queue (filter (.≠ w) (waiters_ s)) s.

Definition wake_of (x : waiter) : wstate := default idle (wake x).

(** ** The mutex *)

Definition init : mutex := MutexState Free [] None ∅ [] [] 0.

(** [state_.compare_exchange_strong(nullptr, desired)]. *)
Definition exchange (desired : lock_word) (s : mutex) : mutex * bool :=
  if decide (state_ s = Free) then (with_state desired s, true) else (s, false).

Definition try_lock (s : mutex) : mutex * bool := exchange One s.

Definition is_locked (s : mutex) : bool := negb (bool_decide (state_ s = Free)).

(** The loop of [recover_cancelled_handoff_locked] over the queue [q]: the waiter that is given the lock. *)
Fixpoint recover_loop (q : list id) (s : mutex) : option id * mutex :=
  match q with
  | [] => (None, with_state Free (with_queue [] s))
  | w :: q =>
      let x := objs s !!! w in
      let grant := fun s => (Some w, upd w (fun x => with_got true (with_grant true x)) (with_state One (with_queue q s))) in
      if cancellable x then
        let (st, action) := claim_notification (wake_of x) in
        let s := upd w (with_wake st) s in
        if decide (action = rejected) then recover_loop q s else grant s
      else grant s
  end.

(** What it returns is passed to [schedule_wake_state] after the internal mutex is released. *)
Definition recover_cancelled_handoff_locked (s : mutex) : mutex :=
  let (r, s) := recover_loop (waiters_ s) s in
  match r with Some w => with_to_schedule (w :: to_schedule s) s | None => s end.

Definition unlock (s : mutex) : mutex := recover_cancelled_handoff_locked s.

(** ** The awaiter *)

Definition construct (w : id) (is_cancellable : bool) (s : mutex) : mutex :=
  upd w (fun _ => Waiter is_cancellable Ready (if is_cancellable then Some idle else None) false false false false false) s.

Definition await_ready_plain (w : id) (s : mutex) : mutex :=
  let (s, ok) := try_lock s in
  if ok then upd w (fun x => with_got true (with_pc Resumable x)) s else upd w (with_pc Suspend) s.

Definition await_ready_check (w : id) (s : mutex) : mutex :=
  if was_cancelled (wake_of (objs s !!! w)) then upd w (with_pc Resumable) s else upd w (with_pc ReadyChecked) s.

Definition await_ready_try (w : id) (s : mutex) : mutex :=
  let (s, ok) := try_lock s in
  if ok then upd w (fun x => with_got true (with_pc ReadyOwner x)) s else upd w (with_pc Suspend) s.

Definition await_ready_claim (w : id) (s : mutex) : mutex :=
  let (st, action) := claim_notification (wake_of (objs s !!! w)) in
  let s := upd w (with_wake st) s in
  if decide (action = rejected) then upd w (with_pc ReadyUnlock) s else upd w (with_pc Resumable) s.

Definition await_ready_unlock (w : id) (s : mutex) : mutex :=
  unlock (upd w (fun x => with_got false (with_pc Resumable x)) s).

(** The exchange before the allocation. *)
Definition await_suspend_recheck (w : id) (s : mutex) : mutex :=
  let (s, ok) := exchange (Frame w) s in
  if ok then upd w (fun x => with_got true (with_pc Resumable x)) s else upd w (with_pc SuspendAlloc) s.

(** [emplace] throws [std::bad_alloc]: the await expression is left with nothing changed. *)
Definition await_suspend_throws (w : id) (s : mutex) : mutex := upd w (with_pc Destroyed) s.

Definition await_suspend_plain (w : id) (s : mutex) : mutex :=
  let s := upd w (with_wake idle) s in
  let (s, ok) := exchange (Frame w) s in
  if ok then upd w (fun x => with_got true (with_pc Resumable x)) s
  else
    let s := upd w (fun x => with_wake (set_handle (wake_of x)) x) s in
    let s := with_queue (waiters_ s ++ [w]) s in
    upd w (fun x => with_pc Suspended (with_suspended true x)) s.

Definition await_suspend_lock (w : id) (s : mutex) : mutex :=
  if was_cancelled (wake_of (objs s !!! w)) then upd w (with_pc Resumable) s
  else upd w (with_pc SuspendLocked) (with_holder (Some w) s).

Definition await_suspend_try (w : id) (s : mutex) : mutex :=
  let (s, ok) := exchange (Frame w) s in
  if ok then upd w (fun x => with_got true (with_pc SuspendOwner x)) s else upd w (with_pc SuspendContended) s.

Definition await_suspend_claim (w : id) (s : mutex) : mutex :=
  let (st, action) := claim_notification (wake_of (objs s !!! w)) in
  let s := upd w (with_wake st) s in
  if decide (action = rejected) then
    with_holder None (recover_cancelled_handoff_locked (upd w (fun x => with_got false (with_pc Resumable x)) s))
  else with_holder None (upd w (with_pc Resumable) s).

Definition await_suspend_publish (w : id) (s : mutex) : mutex :=
  let (st, ok) := set_handle_blocked (wake_of (objs s !!! w)) in
  let s := upd w (with_wake st) s in
  if ok then
    let s := with_queue (waiters_ s ++ [w]) s in
    upd w (fun x => with_pc Published (with_suspended true x)) s
  else with_holder None (upd w (with_pc Resumable) s).

Definition await_suspend_unblock (w : id) (s : mutex) : mutex :=
  let (st, ok) := unblock_after_publish (wake_of (objs s !!! w)) in
  let s := upd w (with_wake st) s in
  if ok then with_holder None (upd w (with_pc Suspended) s)
  else with_holder None (upd w (fun x => with_pc Resumable (with_suspended false x)) (unlink w s)).

Definition await_resume (w : id) (s : mutex) : mutex :=
  let x := objs s !!! w in
  if cancellable x && was_cancelled (wake_of x) then
    let s := if suspended x && linked w s then unlink w s else s in
    upd w (fun x => with_pc (Done cancelled) (with_suspended false x)) s
  else
    upd w (fun x => Waiter (cancellable x) (Done completed) (wake x) false true false (scheduled x) (got x)) s.

(** [~lock_waiter] of a coroutine frame destroyed while it is suspended. *)
Definition destroy (w : id) (s : mutex) : mutex :=
  let x := objs s !!! w in
  let abandon_wake := fun s => upd w (fun x => with_wake (abandon (wake_of x)) x) s in
  let s := upd w (with_pc Destroyed) s in
  if linked w s then abandon_wake (unlink w s)
  else if grant_pending x && negb (resumed x) then
    recover_cancelled_handoff_locked (upd w (fun x => with_got false (with_grant false x)) (abandon_wake s))
  else abandon_wake s.

(** The owner's [unlock()], and that of a caller that owns the lock through [try_lock]. *)
Definition unlock_owner (w : id) (s : mutex) : mutex := unlock (upd w (fun x => with_got false (with_pc Released x)) s).
Definition unlock_tried (s : mutex) : mutex := unlock (add_tries (-1) s).

(** ** Notifiers and cancellation callbacks *)

Definition schedule_one (w : id) (s : mutex) : mutex :=
  let (st, ok) := schedule_selected (wake_of (objs s !!! w)) in
  let s := with_to_schedule (remove_one w (to_schedule s)) s in
  upd w (fun x => let x := with_wake st x in if ok then with_scheduled x else x) s.

Definition cancel_first (w : id) (s : mutex) : mutex :=
  let (st, r) := request_cancel_cas (wake_of (objs s !!! w)) in
  let s := upd w (with_wake st) s in
  if r.2 then with_to_cancel (w :: to_cancel s) s else s.

Definition cancel_second (w : id) (s : mutex) : mutex :=
  let (st, ok) := schedule_claimed (wake_of (objs s !!! w)) in
  let s := with_to_cancel (remove_one w (to_cancel s)) s in
  upd w (fun x => let x := with_wake st x in if ok then with_scheduled x else x) s.

(** ** Interleavings *)

Definition is_at (w : id) (p : pc) (c : bool) (s : mutex) : Prop :=
  exists x, objs s !! w = Some x /\ at_pc x = p /\ cancellable x = c.

Inductive step : mutex -> mutex -> Prop :=
| step_construct w c s : objs s !! w = None -> step s (construct w c s)
| step_ready_plain w s : is_at w Ready false s -> step s (await_ready_plain w s)
| step_ready_check w s : is_at w Ready true s -> step s (await_ready_check w s)
| step_ready_try w s : is_at w ReadyChecked true s -> step s (await_ready_try w s)
| step_ready_claim w s : is_at w ReadyOwner true s -> step s (await_ready_claim w s)
| step_ready_unlock w s : is_at w ReadyUnlock true s -> holder s = None -> step s (await_ready_unlock w s)
| step_suspend_recheck w s : is_at w Suspend false s -> step s (await_suspend_recheck w s)
| step_suspend_throws w s : is_at w SuspendAlloc false s -> step s (await_suspend_throws w s)
| step_suspend_plain w s : is_at w SuspendAlloc false s -> holder s = None -> step s (await_suspend_plain w s)
| step_suspend_lock w s : is_at w Suspend true s -> holder s = None -> step s (await_suspend_lock w s)
| step_suspend_try w s : is_at w SuspendLocked true s -> step s (await_suspend_try w s)
| step_suspend_claim w s : is_at w SuspendOwner true s -> step s (await_suspend_claim w s)
| step_suspend_publish w s : is_at w SuspendContended true s -> step s (await_suspend_publish w s)
| step_suspend_unblock w s : is_at w Published true s -> step s (await_suspend_unblock w s)
| step_resume_inline w c s : is_at w Resumable c s -> step s (await_resume w s)
| step_resume w c s :
    is_at w Suspended c s -> scheduled (objs s !!! w) = true ->
    (c = true -> was_cancelled (wake_of (objs s !!! w)) = true -> holder s = None) ->
    step s (await_resume w s)
| step_destroy w c s : is_at w Suspended c s -> holder s = None -> step s (destroy w s)
| step_schedule w s : w ∈ to_schedule s -> step s (schedule_one w s)
| step_cancel_first w s : (exists p, is_at w p true s) -> step s (cancel_first w s)
| step_cancel_second w s : w ∈ to_cancel s -> step s (cancel_second w s)
| step_unlock w c s : is_at w (Done completed) c s -> holder s = None -> step s (unlock_owner w s)
| step_try_lock s : step s (let (s', ok) := try_lock s in if ok then add_tries 1 s' else s')
| step_unlock_tried s : 0 < tries s -> holder s = None -> step s (unlock_tried s).

(** ** The configurations an awaiter can be in *)

Inductive wshape : waiter -> bool -> bool -> bool -> bool -> Prop :=
| sh_fresh_plain p : p = Ready \/ p = Suspend \/ p = SuspendAlloc ->
    wshape (Waiter false p None false false false false false) false false false false
| sh_fresh_cancellable p st :
    p = Ready \/ p = ReadyChecked \/ p = Suspend -> st = idle \/ st = cancelled_inline ->
    wshape (Waiter true p (Some st) false false false false false) false false false false
| sh_ready_owner st : st = idle \/ st = cancelled_inline ->
    wshape (Waiter true ReadyOwner (Some st) false false false false true) false false false false
| sh_ready_unlock :
    wshape (Waiter true ReadyUnlock (Some cancelled_inline) false false false false true) false false false false
| sh_locked p st : p = SuspendLocked \/ p = SuspendContended -> st = idle \/ st = cancelled_inline ->
    wshape (Waiter true p (Some st) false false false false false) false false false true
| sh_suspend_owner st : st = idle \/ st = cancelled_inline ->
    wshape (Waiter true SuspendOwner (Some st) false false false false true) false false false true
| sh_published st : st = blocked \/ st = cancelled_inline ->
    wshape (Waiter true Published (Some st) true false false false false) true false false true
| sh_queued c :
    wshape (Waiter c Suspended (Some waiting) true false false false false) true false false false
| sh_granted c st : (c = false /\ st = waiting) \/ (c = true /\ st = notification_claimed) ->
    wshape (Waiter c Suspended (Some st) true false true false true) false true false false
| sh_notified c :
    wshape (Waiter c Suspended (Some notification_scheduling) true false true true true) false false false false
| sh_cancelling q :
    wshape (Waiter true Suspended (Some cancellation_claimed) true false false false false) q false true false
| sh_cancelled q :
    wshape (Waiter true Suspended (Some cancellation_scheduling) true false false true false) q false false false
| sh_inline_plain wk : wk = None \/ wk = Some idle ->
    wshape (Waiter false Resumable wk false false false false true) false false false false
| sh_inline_notified :
    wshape (Waiter true Resumable (Some notified_inline) false false false false true) false false false false
| sh_inline_cancelled :
    wshape (Waiter true Resumable (Some cancelled_inline) false false false false false) false false false false
| sh_completed c p wk sc g :
    (p = Done completed /\ g = true) \/ (p = Released /\ g = false) ->
    (c = false /\ (wk = None \/ wk = Some idle)) \/ (c = true /\ wk = Some notified_inline)
      \/ wk = Some notification_scheduling ->
    wshape (Waiter c p wk false true false sc g) false false false false
| sh_done_cancelled st sc : st = cancelled_inline \/ st = cancellation_scheduling ->
    wshape (Waiter true (Done cancelled) (Some st) false false false sc false) false false false false
| sh_thrown :
    wshape (Waiter false Destroyed None false false false false false) false false false false
| sh_abandoned c sc s cn :
    wshape (Waiter c Destroyed (Some abandoned) true false false sc false) false s cn false
| sh_destroyed c st sc : st = notification_scheduling \/ st = cancellation_scheduling ->
    wshape (Waiter c Destroyed (Some st) true false false sc false) false false false false.

Abbreviation linked_ok := (Waiters.linked_ok wshape).

(** Who owns the lock. *)
Definition owners (s : mutex) : Z := count_if got (objs s) + tries s.

(** The invariant on the lock, while the running operation has it in hand [k] times. *)
Record lock_ok (k : Z) (s : mutex) : Prop := {
  lk_owner : owners s + k = if decide (state_ s = Free) then 0 else 1;
  lk_queue : state_ s = Free -> waiters_ s = [];
  lk_tries : 0 <= tries s;
  lk_contended : forall w x, objs s !! w = Some x -> at_pc x = SuspendContended -> state_ s <> Free;
}.

Record inv (k : Z) (s : mutex) : Prop := {
  inv_linked : linked_ok (waiters_ s) (to_schedule s) (to_cancel s) (holder s) (objs s);
  inv_lock : lock_ok k s;
}.

(** ** Handing the lock over *)

Lemma mutex_upd_id w f s x : objs s !! w = Some x -> f x = x -> upd w f s = s.
Proof.
  intros Hx Hf. unfold upd. rewrite (lookup_total_correct _ _ _ Hx), Hf, insert_id by done. by destruct s.
Qed.

Definition same_rest (s s' : mutex) : Prop :=
  holder s' = holder s /\ to_schedule s' = to_schedule s /\ to_cancel s' = to_cancel s /\ tries s' = tries s.

Lemma recover_loop_ok q s r s' :
  linked_ok q (to_schedule s) (to_cancel s) None (objs s) -> recover_loop q s = (r, s') ->
  same_rest s s' /\
  match r with
  | None => state_ s' = Free /\ waiters_ s' = [] /\ linked_ok [] (to_schedule s) (to_cancel s) None (objs s')
      /\ count_if got (objs s') = count_if got (objs s)
  | Some w => state_ s' = One /\ linked_ok (waiters_ s') (w :: to_schedule s) (to_cancel s) None (objs s')
      /\ count_if got (objs s') = count_if got (objs s) + 1
  end.
Proof.
  revert s. induction q as [|w q IH]; intros s Hl E.
  { simpl in E. simplify_eq. simpl. by repeat split; try apply Hl. }
  destruct (lo_dom _ _ _ _ _ Hl w) as [x Hx]; [left; apply elem_cons_self|].
  pose proof (lo_q _ _ _ _ _ Hl) as [Hwq Hq]%NoDup_cons.
  pose proof (lo_sc _ _ _ _ _ Hl) as Hsc. pose proof (lo_cn _ _ _ _ _ Hl) as Hcn.
  assert (was_cancelled (wake_of x) = true -> linked_ok q (to_schedule s) (to_cancel s) None (objs s)) as Hrest.
  { intros Hwc. rewrite <-(insert_id _ _ _ Hx). eapply linked_ok_update; [exact Hl|done..|others|].
    shape_of Hl Hx; try absurd_shape; try discriminate; set_bits; constructor. }
  simpl in E. rewrite (lookup_total_correct _ _ _ Hx) in E.
  shape_of Hl Hx; try absurd_shape; simpl in E;
    try (rewrite (mutex_upd_id _ _ _ _ Hx) in E by done; by apply (IH s (Hrest eq_refl))).
  assert (r = Some w /\ same_rest s s' /\ waiters_ s' = q /\ state_ s' = One /\
    objs s' = <[w := Waiter c Suspended (Some (if c then notification_claimed else waiting)) true false true false true]> (objs s))
    as (-> & Hr & Hq' & Hst & Ho).
  { destruct c; simpl in E; simplify_eq; norm_objs Hx; by repeat split. }
  split; [done|]. rewrite Ho, Hq', !count_if_insert, Hx. simpl. split_and!; [done| |lia].
  eapply linked_ok_update; [exact Hl|done|constructor; done|done|others|].
  set_bits. constructor. destruct c; tauto.
Qed.

(** Nobody is between the exchange and the publication when the internal mutex is free. *)
Lemma contended_holds q sc cn h m w x : linked_ok q sc cn h m -> m !! w = Some x -> at_pc x = SuspendContended -> h = Some w.
Proof. intros Hl Hx Hp. shape_of Hl Hx; simpl in *; cases; done. Qed.

(** The lock in hand goes to a waiter, or is free. *)
Lemma mutex_recover_ok s : inv 1 s -> holder s = None -> inv 0 (recover_cancelled_handoff_locked s).
Proof.
  intros [Hl [Ho Hq Ht Hc]] Hh. unfold recover_cancelled_handoff_locked. rewrite Hh in Hl. destruct (recover_loop (waiters_ s) s) as [r s'] eqn:E.
  destruct (recover_loop_ok _ _ _ _ Hl E) as [(E1 & E2 & E3 & E4) Hm].
  assert (owners s = 0) as Hz by (unfold owners in *; pose proof (count_if_nonneg got (objs s)); case_decide; lia). unfold owners in *.
  destruct r as [w|].
  - destruct Hm as (Hst & Hl' & Hg). split; simpl; [by rewrite E1, E2, E3, Hh|]. split; unfold owners; simpl; rewrite ?Hst, ?E4; try done.
    rewrite decide_False by done. lia.
  - destruct Hm as (Hst & Hw & Hl' & Hg). split; [by rewrite Hw, E1, E2, E3, Hh|]. split; unfold owners; rewrite ?Hst, ?E4; try done.
    + rewrite decide_True by done. lia.
    + intros w x Hx Hp. by pose proof (contended_holds _ _ _ _ _ _ _ Hl' Hx Hp).
Qed.

(** ** Steps that change one awaiter *)

Lemma mutex_inv_upd k k' s s' w x x' :
  inv k s -> objs s !! w = Some x -> objs s' = <[w := x']> (objs s) ->
  NoDup (waiters_ s') -> NoDup (to_schedule s') -> NoDup (to_cancel s') ->
  (forall v, v <> w -> (v ∈ waiters_ s' <-> v ∈ waiters_ s) /\ (v ∈ to_schedule s' <-> v ∈ to_schedule s)
     /\ (v ∈ to_cancel s' <-> v ∈ to_cancel s) /\ (holder s' = Some v <-> holder s = Some v)) ->
  wshape x' (bool_decide (w ∈ waiters_ s')) (bool_decide (w ∈ to_schedule s')) (bool_decide (w ∈ to_cancel s'))
    (bool_decide (holder s' = Some w)) ->
  (if got x' then 1 else 0) + k' - (if decide (state_ s' = Free) then 0 else 1)
    = (if got x then 1 else 0) + k - (if decide (state_ s = Free) then 0 else 1) ->
  tries s' = tries s -> (state_ s' = Free -> state_ s = Free) -> (state_ s' = Free -> waiters_ s' = []) ->
  (at_pc x' = SuspendContended -> state_ s' <> Free) ->
  inv k' s'.
Proof.
  intros [Hl [Ho Hq Ht Hc]] Hx Hob ? ? ? Hoth Hsh Hg Htr Hfree Hq' Hc'. split.
  - rewrite Hob. by eapply linked_ok_update.
  - unfold owners in *. split; unfold owners; rewrite ?Hob, ?count_if_insert, ?Hx, ?Htr; try done; [lia|].
    intros v y. destruct (decide (v = w)) as [->|Hne].
    + rewrite lookup_insert_eq. intros [= <-]. done.
    + rewrite lookup_insert_ne by done. intros Hy Hp Hf. by apply (Hc v y Hy Hp), Hfree.
Qed.

(** The side conditions of [mutex_inv_upd] on the lock. *)
Ltac lock_side :=
  simpl; repeat case_decide; simpl in *;
  solve [ done | lia | congruence | auto
        | match goal with H : state_ _ = Free -> waiters_ _ = [] |- _ => let Hf := fresh in intros Hf; by rewrite (H Hf) end ].

Ltac upd_one Hi Hx :=
  eapply (mutex_inv_upd _ _ _ _ _ _ _ Hi Hx);
  [ norm_objs Hx; reflexivity | simpl; eauto 2 with waiters | simpl; eauto 2 with waiters | simpl; eauto 2 with waiters
  | simpl; others | simpl; set_bits; try (constructor; tauto) | try lock_side .. ].

Tactic Notation "facts" hyp(Hi) "as" ident(Hl) :=
  pose proof (inv_linked _ _ Hi) as Hl;
  pose proof (lo_q _ _ _ _ _ Hl); pose proof (lo_sc _ _ _ _ _ Hl); pose proof (lo_cn _ _ _ _ _ Hl);
  pose proof (lk_queue _ _ (inv_lock _ _ Hi)); pose proof (lk_tries _ _ (inv_lock _ _ Hi)).

Tactic Notation "start" "as" ident(Hi) ident(Hl) ident(Hx) :=
  let x := fresh "x" in
  intros Hi (x & Hx & ? & ?); facts Hi as Hl; shape_of Hl Hx; simpl in *; simplify_eq;
  cases; rewrite ?(lookup_total_correct _ _ _ Hx); simpl.

Lemma mutex_await_ready_plain_ok w s : inv 0 s -> is_at w Ready false s -> inv 0 (await_ready_plain w s).
Proof. unfold await_ready_plain, try_lock, exchange. start as Hi Hl Hx. case_decide; upd_one Hi Hx. Qed.

Lemma mutex_await_ready_check_ok w s : inv 0 s -> is_at w Ready true s -> inv 0 (await_ready_check w s).
Proof. unfold await_ready_check. start as Hi Hl Hx; upd_one Hi Hx. Qed.

Lemma await_ready_try_ok w s : inv 0 s -> is_at w ReadyChecked true s -> inv 0 (await_ready_try w s).
Proof. unfold await_ready_try, try_lock, exchange. start as Hi Hl Hx; case_decide; upd_one Hi Hx. Qed.

Lemma mutex_await_ready_claim_ok w s : inv 0 s -> is_at w ReadyOwner true s -> inv 0 (await_ready_claim w s).
Proof. unfold await_ready_claim. start as Hi Hl Hx; upd_one Hi Hx. Qed.

Lemma mutex_await_suspend_recheck_ok w s : inv 0 s -> is_at w Suspend false s -> inv 0 (await_suspend_recheck w s).
Proof. unfold await_suspend_recheck, exchange. start as Hi Hl Hx; case_decide; upd_one Hi Hx. Qed.

Lemma mutex_await_suspend_throws_ok w s : inv 0 s -> is_at w SuspendAlloc false s -> inv 0 (await_suspend_throws w s).
Proof. unfold await_suspend_throws. start as Hi Hl Hx; upd_one Hi Hx. Qed.

Lemma mutex_await_suspend_plain_ok w s : inv 0 s -> is_at w SuspendAlloc false s -> inv 0 (await_suspend_plain w s).
Proof. unfold await_suspend_plain, exchange. start as Hi Hl Hx; simpl; case_decide; upd_one Hi Hx. Qed.

Lemma mutex_await_suspend_lock_ok w s : inv 0 s -> is_at w Suspend true s -> holder s = None -> inv 0 (await_suspend_lock w s).
Proof. unfold await_suspend_lock. start as Hi Hl Hx; intros Hh; upd_one Hi Hx. Qed.

Lemma await_suspend_try_ok w s : inv 0 s -> is_at w SuspendLocked true s -> inv 0 (await_suspend_try w s).
Proof. unfold await_suspend_try, exchange. start as Hi Hl Hx; case_decide; upd_one Hi Hx. Qed.

Lemma mutex_await_suspend_publish_ok w s : inv 0 s -> is_at w SuspendContended true s -> inv 0 (await_suspend_publish w s).
Proof.
  unfold await_suspend_publish. start as Hi Hl Hx; pose proof (lk_contended _ _ (inv_lock _ _ Hi) _ _ Hx eq_refl); upd_one Hi Hx.
Qed.

Lemma mutex_await_suspend_unblock_ok w s : inv 0 s -> is_at w Published true s -> inv 0 (await_suspend_unblock w s).
Proof. unfold await_suspend_unblock. start as Hi Hl Hx; upd_one Hi Hx. Qed.

Lemma await_ready_unlock_ok w s : inv 0 s -> is_at w ReadyUnlock true s -> holder s = None -> inv 0 (await_ready_unlock w s).
Proof. unfold await_ready_unlock, unlock. start as Hi Hl Hx; intros Hh. apply mutex_recover_ok; [upd_one Hi Hx|done]. Qed.

Lemma unlock_owner_ok w c s : inv 0 s -> is_at w (Done completed) c s -> holder s = None -> inv 0 (unlock_owner w s).
Proof. unfold unlock_owner, unlock. start as Hi Hl Hx; intros Hh; (apply mutex_recover_ok; [upd_one Hi Hx|done]). Qed.

(** The internal mutex can be released before or after the hand-over. *)
Lemma recover_holder h s : with_holder h (recover_cancelled_handoff_locked s) = recover_cancelled_handoff_locked (with_holder h s).
Proof.
  unfold recover_cancelled_handoff_locked. simpl. generalize (waiters_ s) as q. intros q. revert s. induction q as [|w q IH]; intros s; simpl; [done|].
  destruct (cancellable (objs s !!! w)); [|done]. destruct (claim_notification _) as [st action]. case_decide; [|done]. apply (IH (upd w (with_wake st) s)).
Qed.

Lemma await_suspend_claim_ok w s : inv 0 s -> is_at w SuspendOwner true s -> inv 0 (await_suspend_claim w s).
Proof.
  unfold await_suspend_claim. start as Hi Hl Hx; [upd_one Hi Hx|]. rewrite recover_holder. apply mutex_recover_ok; [upd_one Hi Hx|done].
Qed.

Lemma mutex_await_resume_ok w c p s :
  inv 0 s -> is_at w p c s -> p = Resumable \/ (p = Suspended /\ scheduled (objs s !!! w) = true) -> inv 0 (await_resume w s).
Proof.
  unfold await_resume, linked. start as Hi Hl Hx; intros Hp; rewrite ?(lookup_total_correct _ _ _ Hx) in Hp;
    cases; simplify_eq/=;
    repeat match goal with |- context [?b && _] => is_var b; destruct b end; simpl;
    try case_bool_decide; upd_one Hi Hx.
Qed.

Lemma mutex_destroy_ok w c s : inv 0 s -> is_at w Suspended c s -> holder s = None -> inv 0 (destroy w s).
Proof.
  unfold destroy, linked. start as Hi Hl Hx; intros Hh; simpl;
    first [rewrite bool_decide_eq_true_2 by done | rewrite bool_decide_eq_false_2 by done | case_bool_decide];
    simpl; try (upd_one Hi Hx; fail).
  all: apply mutex_recover_ok; [upd_one Hi Hx|done].
Qed.

Lemma mutex_schedule_one_ok w s : inv 0 s -> w ∈ to_schedule s -> inv 0 (schedule_one w s).
Proof.
  intros Hi Hw. facts Hi as Hl. destruct (lo_dom _ _ _ _ _ Hl w) as [x Hx]; [tauto|].
  unfold schedule_one. shape_of Hl Hx; cases; try contradiction; rewrite ?(lookup_total_correct _ _ _ Hx); simpl; upd_one Hi Hx.
Qed.

Lemma mutex_cancel_second_ok w s : inv 0 s -> w ∈ to_cancel s -> inv 0 (cancel_second w s).
Proof.
  intros Hi Hw. facts Hi as Hl. destruct (lo_dom _ _ _ _ _ Hl w) as [x Hx]; [tauto|].
  unfold cancel_second. shape_of Hl Hx; cases; try contradiction; rewrite ?(lookup_total_correct _ _ _ Hx); simpl; upd_one Hi Hx.
Qed.

Lemma mutex_cancel_first_ok w p s : inv 0 s -> is_at w p true s -> inv 0 (cancel_first w s).
Proof.
  unfold cancel_first. start as Hi Hl Hx; try (pose proof (lk_contended _ _ (inv_lock _ _ Hi) _ _ Hx)); upd_one Hi Hx.
Qed.

Lemma mutex_construct_ok w c s : inv 0 s -> objs s !! w = None -> inv 0 (construct w c s).
Proof.
  intros Hi Hw. facts Hi as Hl. destruct Hi as [_ [Ho Hq Ht Hc]]. unfold construct.
  assert (w ∉ waiters_ s /\ w ∉ to_schedule s /\ w ∉ to_cancel s /\ holder s <> Some w) as (? & ? & ? & ?).
  { split_and!; intros Hin; destruct (lo_dom _ _ _ _ _ Hl w) as [x Hx]; first [tauto | congruence]. }
  split; simpl.
  - eapply linked_ok_update; [exact Hl|done..|others|]. set_bits. destruct c; constructor; tauto.
  - unfold owners in *. split; unfold owners; simpl; try done; [rewrite count_if_insert, Hw; simpl; lia|].
    intros v x. destruct (decide (v = w)) as [->|Hne]; [rewrite lookup_insert_eq; by intros [= <-]|]. rewrite lookup_insert_ne by done. apply Hc.
Qed.

Lemma try_lock_ok s : inv 0 s -> inv 0 (let (s', ok) := try_lock s in if ok then add_tries 1 s' else s').
Proof.
  intros Hi. unfold try_lock, exchange. destruct (decide (state_ s = Free)) as [E|E]; [|exact Hi]. destruct Hi as [Hl [Ho Hq Ht Hc]].
  split; [done|]. rewrite E in Ho. unfold owners in *. split; unfold owners; simpl; try done; [|lia]. rewrite decide_True in Ho by done. lia.
Qed.

Lemma unlock_tried_ok s : inv 0 s -> 0 < tries s -> holder s = None -> inv 0 (unlock_tried s).
Proof.
  intros [Hl [Ho Hq Ht Hc]] Hp Hh. apply mutex_recover_ok; [|done]. split; [done|]. unfold owners in *. split; unfold owners; simpl; try done; lia.
Qed.

Lemma mutex_step_ok s s' : inv 0 s -> step s s' -> inv 0 s'.
Proof.
  intros Hi Hst. destruct Hst as [| | | | | | | | | | | | | | | | | |w s [p Hp]| | | |];
    eauto using mutex_construct_ok, mutex_await_ready_plain_ok, mutex_await_ready_check_ok, await_ready_try_ok, mutex_await_ready_claim_ok, await_ready_unlock_ok,
      mutex_await_suspend_recheck_ok, mutex_await_suspend_throws_ok, mutex_await_suspend_plain_ok, mutex_await_suspend_lock_ok, await_suspend_try_ok,
      await_suspend_claim_ok, mutex_await_suspend_publish_ok, mutex_await_suspend_unblock_ok, mutex_await_resume_ok, mutex_destroy_ok, mutex_schedule_one_ok,
      mutex_cancel_first_ok, mutex_cancel_second_ok, unlock_owner_ok, try_lock_ok, unlock_tried_ok.
Qed.

Lemma mutex_init_ok : inv 0 init.
Proof.
  split.
  - split; simpl; try constructor; [|done]. intros w [H|[H|[H|H]]]; [by apply not_elem_of_nil in H..|done].
  - split; unfold owners, count_if; simpl; rewrite ?map_filter_empty, ?map_size_empty; try done.
Qed.

Lemma mutex_reachable_ok s : rtc step init s -> inv 0 s.
Proof. apply (rtc_invariant step (inv 0) mutex_step_ok). apply mutex_init_ok. Qed.

(** ** Theorems *)

(** [C9] Mutual exclusion, over every interleaving of awaits, cancellations, destructions of frames, [try_lock]
    and [unlock]: the word is set exactly when one party owns the lock (nobody can leave it set behind), and once
    an await has reported [completed], no other await has, and no [try_lock] has succeeded, until it unlocks. *)
Theorem mutual_exclusion s : rtc step init s ->
  owners s = (if is_locked s then 1 else 0) /\
  forall w x, objs s !! w = Some x -> at_pc x = Done completed ->
    is_locked s = true /\ tries s = 0 /\ forall v y, objs s !! v = Some y -> at_pc y = Done completed -> v = w.
Proof.
  intros Hr. pose proof (mutex_reachable_ok s Hr) as [Hl [Ho Hq Ht Hc]].
  assert (owners s = if is_locked s then 1 else 0) as How by (unfold is_locked; case_bool_decide; case_decide; simpl; try done; lia).
  split; [done|]. intros w x Hx Hp.
  assert (forall v y, objs s !! v = Some y -> at_pc y = Done completed -> got y = true) as Hg.
  { intros v y Hy Hpy. shape_of Hl Hy; simpl in *; cases; simplify_eq; done. }
  pose proof (count_if_delete got _ _ _ Hx) as Hcount. rewrite (Hg w x Hx Hp) in Hcount. pose proof (count_if_nonneg got (delete w (objs s))).
  unfold owners in *. destruct (is_locked s); [|lia]. split_and!; [done|lia|]. intros v y Hy Hpy. destruct (decide (v = w)) as [|Hne]; [done|].
  pose proof (count_if_two got _ _ _ _ _ Hy Hx (Hg v y Hy Hpy) (Hg w x Hx Hp) Hne). lia.
Qed.

(** [C10] No coroutine that waits for the mutex is lost: a suspended one is in the queue of a mutex that somebody
    else owns, or it was given the lock or a cancellation that a running thread is about to deliver, or it has
    been handed to the scheduler; and it reports [completed] only with the lock, [cancelled] only without it. *)
Theorem lock_waiter_not_lost s w x : rtc step init s -> objs s !! w = Some x ->
  (at_pc x = Suspended ->
     scheduled x = true
     \/ (w ∈ to_schedule s /\ got x = true)
     \/ (w ∈ to_cancel s /\ was_cancelled (wake_of x) = true)
     \/ (w ∈ waiters_ s /\ is_locked s = true /\ got x = false /\ wake x = Some waiting))
  /\ (at_pc x = Done completed -> got x = true) /\ (at_pc x = Done cancelled -> got x = false) /\ (at_pc x = Destroyed -> got x = false).
Proof.
  intros Hr Hx. pose proof (mutex_reachable_ok s Hr) as [Hl [Ho Hq Ht Hc]].
  assert (w ∈ waiters_ s -> is_locked s = true) as Hz.
  { intros Hw. unfold is_locked. case_bool_decide as E; [|done]. rewrite Hq in Hw by done. by apply not_elem_of_nil in Hw. }
  shape_of Hl Hx; simpl in *; split_and!; intros; simplify_eq; cases; simplify_eq; first [done | by auto 6 | right; right; right; by auto].
Qed.

(** The lock is handed to the oldest waiter that was not cancelled; if there is none, the mutex is free. *)
Lemma handoff_fifo s r s' :
  rtc step init s -> holder s = None -> recover_loop (waiters_ s) s = (r, s') ->
  let dead w := was_cancelled (wake_of (objs s !!! w)) = true in
  match r with
  | Some w => exists older, waiters_ s = older ++ w :: waiters_ s' /\ Forall dead older /\ ~ dead w
  | None => Forall dead (waiters_ s) /\ state_ s' = Free
  end.
Proof.
  intros Hr Hh. pose proof (inv_linked _ _ (mutex_reachable_ok _ Hr)) as Hl.
  rewrite Hh in Hl. revert Hl. generalize (waiters_ s) as q. clear Hr Hh.
  induction q as [|w q IH]; intros Hl E; simpl in E; [by simplify_eq|].
  destruct (lo_dom _ _ _ _ _ Hl w) as [x Hx]; [left; apply elem_cons_self|].
  pose proof (lo_q _ _ _ _ _ Hl) as [Hwq Hq]%NoDup_cons.
  pose proof (lo_sc _ _ _ _ _ Hl) as Hsc. pose proof (lo_cn _ _ _ _ _ Hl) as Hcn.
  assert (was_cancelled (wake_of x) = true -> linked_ok q (to_schedule s) (to_cancel s) None (objs s)) as Hrest.
  { intros Hwc. rewrite <-(insert_id _ _ _ Hx). eapply linked_ok_update; [exact Hl|done..|others|].
    shape_of Hl Hx; try absurd_shape; try discriminate; set_bits; constructor. }
  rewrite (lookup_total_correct _ _ _ Hx) in E.
  shape_of Hl Hx; try absurd_shape; simpl in E.
  { destruct c; simpl in E; simplify_eq; exists []; simpl; by rewrite (lookup_total_correct _ _ _ Hx). }
  all: rewrite (mutex_upd_id _ _ _ _ Hx) in E by done; specialize (IH (Hrest eq_refl) E);
    destruct r as [v|]; [destruct IH as (o & -> & ? & ?); exists (w :: o); split_and!; try done|destruct IH; split; [|done]];
    constructor; try done; by rewrite (lookup_total_correct _ _ _ Hx).
Qed.

(** ** [lock_guard] *)

Record lock_guard := Guard { mutex_ : id; owns_lock_ : bool }.

Definition guard_owner (m : id) : lock_guard := Guard m true.

(** The mutexes an operation unlocks, with the guards it leaves. *)
Definition guard_unlock (g : lock_guard) : lock_guard * list id :=
  if owns_lock_ g then (Guard (mutex_ g) false, [mutex_ g]) else (g, []).
Definition guard_destroy (g : lock_guard) : list id := if owns_lock_ g then [mutex_ g] else [].

(** The new guard and what is left of the other. *)
Definition guard_move (other : lock_guard) : lock_guard * lock_guard := (other, Guard (mutex_ other) false).
Definition guard_assign (g other : lock_guard) : lock_guard * lock_guard * list id :=
  let '(g', other') := guard_move other in (g', other', guard_destroy g).

(** Guards by name; the mutexes unlocked so far, and those adopted by a guard. *)
Record guards := Guards { live : gmap id lock_guard; unlocked : list id; adopted : list id }.

Inductive guard_step : guards -> guards -> Prop :=
| guard_constructs g m s : live s !! g = None -> guard_step s (Guards (<[g := guard_owner m]> (live s)) (unlocked s) (m :: adopted s))
| guard_destroys g x s : live s !! g = Some x -> guard_step s (Guards (delete g (live s)) (guard_destroy x ++ unlocked s) (adopted s))
| guard_unlocks g x s : live s !! g = Some x ->
    guard_step s (Guards (<[g := (guard_unlock x).1]> (live s)) ((guard_unlock x).2 ++ unlocked s) (adopted s))
| guard_moves g o x s : live s !! g = None -> live s !! o = Some x ->
    guard_step s (Guards (<[g := (guard_move x).1]> (<[o := (guard_move x).2]> (live s))) (unlocked s) (adopted s))
| guard_self_assigns g x s : live s !! g = Some x -> guard_step s s
| guard_assigns g o x y s : live s !! g = Some x -> live s !! o = Some y -> g <> o ->
    guard_step s (Guards (<[g := (guard_assign x y).1.1]> (<[o := (guard_assign x y).1.2]> (live s))) ((guard_assign x y).2 ++ unlocked s) (adopted s)).

Definition owns (m : id) (g : lock_guard) : bool := owns_lock_ g && bool_decide (mutex_ g = m).
Definition occurrences (m : id) (l : list id) : Z := Z.of_nat (length (filter (fun v => v = m) l)).

Lemma occurrences_app m l l' : occurrences m (l ++ l') = occurrences m l + occurrences m l'.
Proof. unfold occurrences. rewrite filter_app, length_app. lia. Qed.

Lemma occurrences_one m v : occurrences m [v] = if bool_decide (v = m) then 1 else 0.
Proof. unfold occurrences. rewrite filter_cons, filter_nil. case_bool_decide; case_decide; done. Qed.

Lemma destroy_unlocks m g : occurrences m (guard_destroy g) = if owns m g then 1 else 0.
Proof. unfold guard_destroy, owns. destruct (owns_lock_ g); [|done]. apply occurrences_one. Qed.

(** Every lock adopted by a guard is unlocked exactly once: it is either unlocked already, or one guard still
    owns it and will unlock it when it is destroyed. *)
Theorem guards_unlock_once s m : rtc guard_step (Guards ∅ [] []) s ->
  occurrences m (adopted s) = occurrences m (unlocked s) + count_if (owns m) (live s).
Proof.
  intros Hr. eapply (rtc_invariant guard_step (fun s => occurrences m (adopted s) = occurrences m (unlocked s) + count_if (owns m) (live s))); [| |exact Hr].
  2: { unfold count_if. simpl. by rewrite map_filter_empty, map_size_empty. }
  clear s Hr. intros s s' H Hst. destruct Hst as [g n s Hg|g x s Hg|g x s Hg|g o x s Hg Ho|g x s Hg|g o x y s Hg Ho Hne]; simpl.
  - change (n :: adopted s) with ([n] ++ adopted s). rewrite occurrences_app, occurrences_one, count_if_insert, Hg, H. unfold owns. simpl. case_bool_decide; lia.
  - rewrite occurrences_app, destroy_unlocks, H, (count_if_delete _ _ _ _ Hg). lia.
  - assert ((guard_unlock x).2 = guard_destroy x) as -> by (unfold guard_unlock, guard_destroy; by destruct (owns_lock_ x)).
    rewrite occurrences_app, destroy_unlocks, count_if_insert, Hg, H. replace (owns m (guard_unlock x).1) with false; [lia|].
    unfold guard_unlock, owns. by destruct (owns_lock_ x) eqn:E; simpl; rewrite ?E.
  - rewrite !count_if_insert, lookup_insert_ne, Hg, Ho, H by congruence. change (owns m (Guard (mutex_ x) false)) with false. destruct (owns m x); lia.
  - done.
  - rewrite occurrences_app, destroy_unlocks, !count_if_insert, lookup_insert_ne, Hg, Ho, H by congruence. change (owns m (Guard (mutex_ y) false)) with false. destruct (owns m x), (owns m y); lia.
Qed.

(** ** A run: one await owns the lock, a second one waits for it *)

Definition demo_owner : mutex := Eval vm_compute in await_resume 0 (await_ready_plain 0 (construct 0 false init)).
Definition demo_waiting : mutex := Eval vm_compute in
  await_suspend_plain 1 (await_suspend_recheck 1 (await_ready_plain 1 (construct 1 false demo_owner))).

Lemma mutex_rtc_to s s' s'' t : step s s' -> s' = s'' -> rtc step s'' t -> rtc step s t.
Proof. intros Hs <-. by apply rtc_l. Defined.

Ltac now_at := eexists; split; [vm_compute; reflexivity|done].

Lemma mutex_demo_waiting_reachable : rtc step init demo_waiting.
Proof.
  eapply mutex_rtc_to; [apply (step_construct 0%nat false); reflexivity|vm_compute; reflexivity|].
  eapply mutex_rtc_to; [apply (step_ready_plain 0%nat); now_at|vm_compute; reflexivity|].
  eapply mutex_rtc_to; [apply (step_resume_inline 0%nat false); now_at|vm_compute; reflexivity|].
  eapply mutex_rtc_to; [apply (step_construct 1%nat false); reflexivity|vm_compute; reflexivity|].
  eapply mutex_rtc_to; [apply (step_ready_plain 1%nat); now_at|vm_compute; reflexivity|].
  eapply mutex_rtc_to; [apply (step_suspend_recheck 1%nat); now_at|vm_compute; reflexivity|].
  eapply mutex_rtc_to; [apply (step_suspend_plain 1%nat); [now_at|reflexivity]|vm_compute; reflexivity|].
  apply rtc_refl.
Qed.

Lemma mutual_exclusion_witness : owners demo_waiting = 1 /\
  forall w x, objs demo_waiting !! w = Some x -> at_pc x = Done completed ->
    is_locked demo_waiting = true /\ tries demo_waiting = 0 /\ forall v y, objs demo_waiting !! v = Some y -> at_pc y = Done completed -> v = w.
Proof. apply (mutual_exclusion demo_waiting). apply mutex_demo_waiting_reachable. Defined.

Lemma lock_waiter_not_lost_witness : let x := objs demo_waiting !!! 1%nat in
  scheduled x = true
  \/ (1%nat ∈ to_schedule demo_waiting /\ got x = true)
  \/ (1%nat ∈ to_cancel demo_waiting /\ was_cancelled (wake_of x) = true)
  \/ (1%nat ∈ waiters_ demo_waiting /\ is_locked demo_waiting = true /\ got x = false /\ wake x = Some waiting).
Proof.
  apply (lock_waiter_not_lost demo_waiting 1%nat (objs demo_waiting !!! 1%nat)); [apply mutex_demo_waiting_reachable|reflexivity|reflexivity].
Defined.

End Mutex.
