(* ===== verification/Event.v ===== *)
(** * The coroutine event of [src/include/elio/sync/event.hpp]

    A manual-reset event, modelled like [Mutex]: [signaled_] is loaded without the mutex by [await_ready] and at the
    start of [await_suspend], and stored under it.  Proved for every interleaving: a wait completes only if
    the event was set while it was waiting, [set] leaves nobody in the queue, and no suspended
    coroutine is lost. *)

From S2P Require Import Prelude WakeState Waiters.

Module Event.
Export Waiters.
Import Wake.

(** ** Data *)

(** Where the coroutine is in [co_await e.wait(...)]. *)
Inductive pc :=
  | Ready          (* about to call await_ready *)
  | ReadyChecked   (* await_ready, cancellable: was_cancelled() was false *)
  | ReadySignaled  (* await_ready, cancellable: signaled_ was true, about to claim the wake state *)
  | Suspend        (* await_ready returned false; about to call await_suspend *)
  | SuspendAlloc   (* await_suspend, plain: signaled_ was false *)
  | SuspendLocked  (* await_suspend, cancellable: holds mutex_, was_cancelled() was false *)
  | Published      (* await_suspend, cancellable: holds mutex_, queued, still blocked *)
  | Suspended      (* await_suspend returned true *)
  | Resumable      (* continues without suspending; about to call await_resume *)
  | Done (r : cancel_result)
  | Destroyed.

#[global] Instance pc_EqDecision : EqDecision pc.
Proof. solve_decision. Defined.

(** An [event_waiter]; [wake] is [None] while [wake_state_] is null.  [scheduled] records that the coroutine was handed
    to the scheduler; [seen] is a ghost flag: the event was set at some time since the awaiter was constructed. *)
Record waiter := Waiter {
  cancellable : bool;
  at_pc : pc;
  wake : option wstate;
  suspended : bool;
  scheduled : bool;
  seen : bool;
}.

Record event := EventState {
  signaled_ : bool;
  waiters_ : list id;
  holder : option id;
  objs : gmap id waiter;
  to_schedule : list id;
  to_cancel : list id;
}.

Definition no_waiter : waiter := Waiter false Destroyed None false false false.
#[global] Instance waiter_inhabited : Inhabited waiter := populate no_waiter.

(** ** Field updates *)

Definition with_pc (p : pc) (x : waiter) : waiter := Waiter (cancellable x) p (wake x) (suspended x) (scheduled x) (seen x).
Definition with_wake (s : wstate) (x : waiter) : waiter := Waiter (cancellable x) (at_pc x) (Some s) (suspended x) (scheduled x) (seen x).
Definition with_suspended (b : bool) (x : waiter) : waiter := Waiter (cancellable x) (at_pc x) (wake x) b (scheduled x) (seen x).
Definition with_scheduled (x : waiter) : waiter := Waiter (cancellable x) (at_pc x) (wake x) (suspended x) true (seen x).
Definition with_seen (x : waiter) : waiter := Waiter (cancellable x) (at_pc x) (wake x) (suspended x) (scheduled x) true.

Definition upd (w : id) (f : waiter -> waiter) (s : event) : event :=
  EventState (signaled_ s) (waiters_ s) (holder s) (<[w := f (objs s !!! w)]> (objs s)) (to_schedule s) (to_cancel s).
Definition with_queue (q : list id) (s : event) : event :=
  EventState (signaled_ s) q (holder s) (objs s) (to_schedule s) (to_cancel s).
Definition with_holder (h : option id) (s : event) : event :=
  EventState (signaled_ s) (waiters_ s) h (objs s) (to_schedule s) (to_cancel s).
Definition with_to_schedule (l : list id) (s : event) : event :=
  EventState (signaled_ s) (waiters_ s) (holder s) (objs s) l (to_cancel s).
Definition with_to_cancel (l : list id) (s : event) : event :=
  EventState (signaled_ s) (waiters_ s) (holder s) (objs s) (to_schedule s) l.

(** [signaled_.store(b)]; the awaiters that exist when it becomes true have seen it. *)
Definition store_signal (b : bool) (s : event) : event :=
  EventState b (waiters_ s) (holder s) (if b then with_seen <$> objs s else objs s) (to_schedule s) (to_cancel s).

Definition linked (w : id) (s : event) : bool := bool_decide (w ∈ waiters_ s).
Definition unlink (w : id) (s : event) : event := with_queue (filter (.≠ w) (waiters_ s)) s.
Definition wake_of (x : waiter) : wstate := default idle (wake x).

(** ** The event *)

Definition init : event := EventState false [] None ∅ [] [].

(** The loop of [set]: pops every waiter and collects those that accept the notification. *)
Fixpoint set_loop (q : list id) (s : event) : event :=
  match q with
  | [] => with_queue [] s
  | w :: q =>
      let x := objs s !!! w in
      if cancellable x then
        let (st, action) := claim_notification (wake_of x) in
        let s := upd w (with_wake st) s in
        if decide (action = rejected) then set_loop q s else set_loop q (with_to_schedule (w :: to_schedule s) s)
      else set_loop q (with_to_schedule (w :: to_schedule s) s)
  end.

Definition set (s : event) : event := let s := store_signal true s in set_loop (waiters_ s) s.

(** [to_schedule.reserve] throws: nothing was changed. *)
Definition set_throws (s : event) : event := s.

Definition reset (s : event) : event := store_signal false s.

Definition is_set (s : event) : bool := signaled_ s.

(** ** The awaiter *)

Definition construct (w : id) (is_cancellable : bool) (s : event) : event :=
  upd w (fun _ => Waiter is_cancellable Ready (if is_cancellable then Some idle else None) false false (signaled_ s)) s.

Definition await_ready_plain (w : id) (s : event) : event :=
  upd w (with_pc (if signaled_ s then Resumable else Suspend)) s.

Definition await_ready_check (w : id) (s : event) : event :=
  upd w (with_pc (if was_cancelled (wake_of (objs s !!! w)) then Resumable else ReadyChecked)) s.

Definition await_ready_load (w : id) (s : event) : event :=
  upd w (with_pc (if signaled_ s then ReadySignaled else Suspend)) s.

(** The result of the claim is not used. *)
Definition claim (w : id) (s : event) : event :=
  upd w (with_wake (claim_notification (wake_of (objs s !!! w))).1) s.

Definition await_ready_claim (w : id) (s : event) : event := upd w (with_pc Resumable) (claim w s).

Definition await_suspend_recheck (w : id) (s : event) : event :=
  upd w (with_pc (if signaled_ s then Resumable else SuspendAlloc)) s.

(** [make_wake_state] throws [std::bad_alloc]. *)
Definition await_suspend_throws (w : id) (s : event) : event := upd w (with_pc Destroyed) s.

Definition await_suspend_plain (w : id) (s : event) : event :=
  let s := upd w (with_wake idle) s in
  if signaled_ s then upd w (with_pc Resumable) s
  else
    let s := upd w (fun x => with_wake (set_handle (wake_of x)) x) s in
    let s := with_queue (waiters_ s ++ [w]) s in
    upd w (fun x => with_pc Suspended (with_suspended true x)) s.

Definition await_suspend_lock (w : id) (s : event) : event :=
  if was_cancelled (wake_of (objs s !!! w)) then upd w (with_pc Resumable) s
  else upd w (with_pc SuspendLocked) (with_holder (Some w) s).

Definition await_suspend_publish (w : id) (s : event) : event :=
  if signaled_ s then with_holder None (upd w (with_pc Resumable) (claim w s))
  else
    let (st, ok) := set_handle_blocked (wake_of (objs s !!! w)) in
    let s := upd w (with_wake st) s in
    if ok then
      let s := with_queue (waiters_ s ++ [w]) s in
      upd w (fun x => with_pc Published (with_suspended true x)) s
    else with_holder None (upd w (with_pc Resumable) s).

Definition await_suspend_unblock (w : id) (s : event) : event :=
  let (st, ok) := unblock_after_publish (wake_of (objs s !!! w)) in
  let s := upd w (with_wake st) s in
  if ok then with_holder None (upd w (with_pc Suspended) s)
  else with_holder None (upd w (fun x => with_pc Resumable (with_suspended false x)) (unlink w s)).

Definition await_resume (w : id) (s : event) : event :=
  let x := objs s !!! w in
  if cancellable x && was_cancelled (wake_of x) then
    let s := if suspended x && linked w s then unlink w s else s in
    upd w (fun x => with_pc (Done cancelled) (with_suspended false x)) s
  else upd w (fun x => with_pc (Done completed) (with_suspended false x)) s.

(** [~event_waiter] of a coroutine frame destroyed while it is suspended. *)
Definition destroy (w : id) (s : event) : event :=
  let s := upd w (with_pc Destroyed) s in
  let s := if linked w s then unlink w s else s in
  upd w (fun x => with_wake (abandon (wake_of x)) x) s.

(** ** Notifiers and cancellation callbacks *)

Definition schedule_one (w : id) (s : event) : event :=
  let (st, ok) := schedule_selected (wake_of (objs s !!! w)) in
  let s := with_to_schedule (remove_one w (to_schedule s)) s in
  upd w (fun x => let x := with_wake st x in if ok then with_scheduled x else x) s.

Definition cancel_first (w : id) (s : event) : event :=
  let (st, r) := request_cancel_cas (wake_of (objs s !!! w)) in
  let s := upd w (with_wake st) s in
  if r.2 then with_to_cancel (w :: to_cancel s) s else s.

Definition cancel_second (w : id) (s : event) : event :=
  let (st, ok) := schedule_claimed (wake_of (objs s !!! w)) in
  let s := with_to_cancel (remove_one w (to_cancel s)) s in
  upd w (fun x => let x := with_wake st x in if ok then with_scheduled x else x) s.

(** ** Interleavings *)

Definition is_at (w : id) (p : pc) (c : bool) (s : event) : Prop :=
  exists x, objs s !! w = Some x /\ at_pc x = p /\ cancellable x = c.

Inductive step : event -> event -> Prop :=
| step_construct w c s : objs s !! w = None -> step s (construct w c s)
| step_ready_plain w s : is_at w Ready false s -> step s (await_ready_plain w s)
| step_ready_check w s : is_at w Ready true s -> step s (await_ready_check w s)
| step_ready_load w s : is_at w ReadyChecked true s -> step s (await_ready_load w s)
| step_ready_claim w s : is_at w ReadySignaled true s -> step s (await_ready_claim w s)
| step_suspend_recheck w s : is_at w Suspend false s -> step s (await_suspend_recheck w s)
| step_suspend_throws w s : is_at w SuspendAlloc false s -> step s (await_suspend_throws w s)
| step_suspend_plain w s : is_at w SuspendAlloc false s -> holder s = None -> step s (await_suspend_plain w s)
| step_suspend_lock w s : is_at w Suspend true s -> holder s = None -> step s (await_suspend_lock w s)
| step_suspend_publish w s : is_at w SuspendLocked true s -> step s (await_suspend_publish w s)
| step_suspend_unblock w s : is_at w Published true s -> step s (await_suspend_unblock w s)
| step_resume_inline w c s : is_at w Resumable c s -> step s (await_resume w s)
| step_resume w c s :
    is_at w Suspended c s -> scheduled (objs s !!! w) = true ->
    (c = true -> was_cancelled (wake_of (objs s !!! w)) = true -> holder s = None) ->
    step s (await_resume w s)
| step_destroy w c s : is_at w Suspended c s -> holder s = None -> step s (destroy w s)
| step_schedule w s : w ∈ to_schedule s -> step s (schedule_one w s)
| step_cancel_first w s : (exists p, is_at w p true s) -> step s (cancel_first w s)
| step_cancel_second w s : w ∈ to_cancel s -> step s (cancel_second w s)
| step_set s : holder s = None -> step s (set s)
| step_set_throws s : waiters_ s <> [] -> step s (set_throws s)
| step_reset s : holder s = None -> step s (reset s).

(** ** The configurations an awaiter can be in *)

Inductive wshape : waiter -> bool -> bool -> bool -> bool -> Prop :=
| sh_fresh_plain p g : p = Ready \/ p = Suspend \/ p = SuspendAlloc ->
    wshape (Waiter false p None false false g) false false false false
| sh_fresh_cancellable p st g :
    p = Ready \/ p = ReadyChecked \/ p = Suspend -> st = idle \/ st = cancelled_inline ->
    wshape (Waiter true p (Some st) false false g) false false false false
| sh_ready_signaled st : st = idle \/ st = cancelled_inline ->
    wshape (Waiter true ReadySignaled (Some st) false false true) false false false false
| sh_locked st g : st = idle \/ st = cancelled_inline ->
    wshape (Waiter true SuspendLocked (Some st) false false g) false false false true
| sh_published st g : st = blocked \/ st = cancelled_inline ->
    wshape (Waiter true Published (Some st) true false g) true false false true
| sh_queued c g :
    wshape (Waiter c Suspended (Some waiting) true false g) true false false false
| sh_claimed c st : (c = false /\ st = waiting) \/ (c = true /\ st = notification_claimed) ->
    wshape (Waiter c Suspended (Some st) true false true) false true false false
| sh_notified c :
    wshape (Waiter c Suspended (Some notification_scheduling) true true true) false false false false
| sh_cancelling q g :
    wshape (Waiter true Suspended (Some cancellation_claimed) true false g) q false true false
| sh_cancelled q g :
    wshape (Waiter true Suspended (Some cancellation_scheduling) true true g) q false false false
| sh_inline_plain wk : wk = None \/ wk = Some idle ->
    wshape (Waiter false Resumable wk false false true) false false false false
| sh_inline_notified :
    wshape (Waiter true Resumable (Some notified_inline) false false true) false false false false
| sh_inline_cancelled g :
    wshape (Waiter true Resumable (Some cancelled_inline) false false g) false false false false
| sh_completed c wk sc :
    (c = false /\ (wk = None \/ wk = Some idle)) \/ (c = true /\ wk = Some notified_inline)
      \/ wk = Some notification_scheduling ->
    wshape (Waiter c (Done completed) wk false sc true) false false false false
| sh_done_cancelled st sc g : st = cancelled_inline \/ st = cancellation_scheduling ->
    wshape (Waiter true (Done cancelled) (Some st) false sc g) false false false false
| sh_thrown g :
    wshape (Waiter false Destroyed None false false g) false false false false
| sh_abandoned c sc s cn g :
    wshape (Waiter c Destroyed (Some abandoned) true sc g) false s cn false
| sh_destroyed c st sc g : st = notification_scheduling \/ st = cancellation_scheduling ->
    wshape (Waiter c Destroyed (Some st) true sc g) false false false false.

Abbreviation linked_ok := (Waiters.linked_ok wshape).

Record inv (s : event) : Prop := {
  inv_linked : linked_ok (waiters_ s) (to_schedule s) (to_cancel s) (holder s) (objs s);
  inv_queue : signaled_ s = true -> waiters_ s = [];
  inv_seen : forall w x, objs s !! w = Some x -> signaled_ s = true -> seen x = true;
}.

(** ** Setting the event *)

Lemma wshape_seen x q s c h : wshape x q s c h -> wshape (with_seen x) q s c h.
Proof. destruct 1; cbn; by constructor. Qed.

Lemma linked_ok_seen q sc cn h m : linked_ok q sc cn h m -> linked_ok q sc cn h (with_seen <$> m).
Proof.
  intros [Hq Hsc Hcn Hdom Hsh]. split; try done.
  - intros w Hw. rewrite lookup_fmap. destruct (Hdom w Hw) as [x ->]. by eexists.
  - intros w x. rewrite lookup_fmap. destruct (m !! w) as [y|] eqn:Hy; [|done]. intros [= <-]. by apply wshape_seen, Hsh.
Qed.

Lemma event_upd_id w f s x : objs s !! w = Some x -> f x = x -> upd w f s = s.
Proof.
  intros Hx Hf. unfold upd. rewrite (lookup_total_correct _ _ _ Hx), Hf, insert_id by done. by destruct s.
Qed.

Lemma set_loop_ok q s :
  linked_ok q (to_schedule s) (to_cancel s) None (objs s) -> holder s = None -> (forall w x, objs s !! w = Some x -> seen x = true) ->
  let s' := set_loop q s in
  signaled_ s' = signaled_ s /\ waiters_ s' = [] /\ holder s' = None /\
  linked_ok [] (to_schedule s') (to_cancel s') None (objs s') /\ (forall w x, objs s' !! w = Some x -> seen x = true).
Proof.
  revert s. induction q as [|w q IH]; intros s Hl Hh Hseen; [done|].
  destruct (lo_dom _ _ _ _ _ Hl w) as [x Hx]; [left; apply elem_cons_self|].
  pose proof (lo_q _ _ _ _ _ Hl) as [Hwq Hq]%NoDup_cons.
  pose proof (lo_sc _ _ _ _ _ Hl) as Hsc. pose proof (lo_cn _ _ _ _ _ Hl) as Hcn.
  assert (was_cancelled (wake_of x) = true -> linked_ok q (to_schedule s) (to_cancel s) None (objs s)) as Hrest.
  { intros Hwc. rewrite <-(insert_id _ _ _ Hx). eapply linked_ok_update; [exact Hl|done..|others|].
    shape_of Hl Hx; try absurd_shape; try discriminate; set_bits; constructor. }
  pose proof (Hseen w x Hx) as Hsx. cbn [set_loop]. rewrite (lookup_total_correct _ _ _ Hx).
  shape_of Hl Hx; try absurd_shape; simpl in *; try (rewrite (event_upd_id _ _ _ _ Hx) by done; by apply IH; [apply Hrest|..]).
  subst g.
  assert (exists t, (if c then upd w (with_wake notification_claimed) s else s) = t) as [t Ht] by eauto.
  assert (objs t = <[w := Waiter c Suspended (Some (if c then notification_claimed else waiting)) true false true]> (objs s) /\
    to_schedule t = to_schedule s /\ to_cancel t = to_cancel s /\ holder t = None /\ signaled_ t = signaled_ s) as (Eo & Es & Ec & Eh & Eg).
  { subst t. destruct c; simpl; [by rewrite (lookup_total_correct _ _ _ Hx)|]. by rewrite insert_id. }
  assert (set_loop (w :: q) s = set_loop q (with_to_schedule (w :: to_schedule t) t)) as Eq.
  { cbn [set_loop]. rewrite (lookup_total_correct _ _ _ Hx). subst t. by destruct c. }
  cbn [set_loop] in Eq. rewrite (lookup_total_correct _ _ _ Hx) in Eq. simpl in Eq. rewrite Eq. rewrite <-Eg.
  apply (IH (with_to_schedule (w :: to_schedule t) t)); simpl; [|done|].
  - rewrite Eo, Es, Ec. eapply linked_ok_update; [exact Hl|done|constructor; done|done|others|]. set_bits. constructor. destruct c; tauto.
  - intros v y. rewrite Eo. destruct (decide (v = w)) as [->|Hne]; [rewrite lookup_insert_eq; by intros [= <-]|]. rewrite lookup_insert_ne by done. apply Hseen.
Qed.

Lemma event_set_ok s : inv s -> holder s = None -> inv (set s).
Proof.
  intros [Hl Hq Hs] Hh. unfold set. rewrite Hh in Hl.
  destruct (set_loop_ok (waiters_ s) (store_signal true s)) as (E1 & E2 & E3 & Hl' & Hs'); simpl; [by apply linked_ok_seen|done| |].
  { intros w x. rewrite lookup_fmap. destruct (objs s !! w); [|done]. by intros [= <-]. }
  split; [by rewrite E2, E3|done|eauto].
Qed.

Lemma reset_ok s : inv s -> inv (reset s).
Proof. by intros [Hl Hq Hs]. Qed.

(** ** Steps that change one awaiter *)

Lemma event_inv_upd s s' w x x' :
  inv s -> objs s !! w = Some x -> objs s' = <[w := x']> (objs s) ->
  NoDup (waiters_ s') -> NoDup (to_schedule s') -> NoDup (to_cancel s') ->
  (forall v, v <> w -> (v ∈ waiters_ s' <-> v ∈ waiters_ s) /\ (v ∈ to_schedule s' <-> v ∈ to_schedule s)
     /\ (v ∈ to_cancel s' <-> v ∈ to_cancel s) /\ (holder s' = Some v <-> holder s = Some v)) ->
  wshape x' (bool_decide (w ∈ waiters_ s')) (bool_decide (w ∈ to_schedule s')) (bool_decide (w ∈ to_cancel s'))
    (bool_decide (holder s' = Some w)) ->
  signaled_ s' = signaled_ s -> (signaled_ s = true -> waiters_ s' = []) -> (seen x = true -> seen x' = true) -> inv s'.
Proof.
  intros [Hl Hq Hs] Hx Ho ? ? ? Hoth Hsh Hsig Hq' Hseen. split.
  - rewrite Ho. by eapply linked_ok_update.
  - by rewrite Hsig.
  - intros v y. rewrite Ho, Hsig. destruct (decide (v = w)) as [->|Hne].
    + rewrite lookup_insert_eq. intros [= <-] E. by apply Hseen, (Hs w x).
    + rewrite lookup_insert_ne by done. apply Hs.
Qed.

Ltac upd_one Hi Hx :=
  eapply (event_inv_upd _ _ _ _ _ Hi Hx);
  [ norm_objs Hx; reflexivity | simpl; eauto 2 with waiters | simpl; eauto 2 with waiters | simpl; eauto 2 with waiters
  | simpl; others | simpl; set_bits; try (constructor; tauto)
  | simpl; try solve [done | congruence | auto | match goal with H : ?b = true -> _ = [] |- _ => let E := fresh in intros E; by rewrite (H E) end] .. ].

Tactic Notation "facts" hyp(Hi) "as" ident(Hl) :=
  pose proof (inv_linked _ Hi) as Hl;
  pose proof (lo_q _ _ _ _ _ Hl); pose proof (lo_sc _ _ _ _ _ Hl); pose proof (lo_cn _ _ _ _ _ Hl); pose proof (inv_queue _ Hi).

Tactic Notation "start" "as" ident(Hi) ident(Hl) ident(Hx) :=
  let x := fresh "x" in
  intros Hi (x & Hx & ? & ?); facts Hi as Hl; pose proof (inv_seen _ Hi _ _ Hx); shape_of Hl Hx; simpl in *; simplify_eq;
  cases; rewrite ?(lookup_total_correct _ _ _ Hx); simpl.

(** Case analysis on the signal: an awaiter that exists while it is set has seen it. *)
Ltac on_signal s :=
  let E := fresh "E" in
  destruct (signaled_ s) eqn:E; [try match goal with H : true = true -> ?g = true |- _ => specialize (H eq_refl); try subst g end|].

Lemma event_await_ready_plain_ok w s : inv s -> is_at w Ready false s -> inv (await_ready_plain w s).
Proof. unfold await_ready_plain. start as Hi Hl Hx. on_signal s; upd_one Hi Hx. Qed.

Lemma event_await_ready_check_ok w s : inv s -> is_at w Ready true s -> inv (await_ready_check w s).
Proof. unfold await_ready_check. start as Hi Hl Hx; upd_one Hi Hx. Qed.

Lemma await_ready_load_ok w s : inv s -> is_at w ReadyChecked true s -> inv (await_ready_load w s).
Proof. unfold await_ready_load. start as Hi Hl Hx; on_signal s; upd_one Hi Hx. Qed.

Lemma event_await_ready_claim_ok w s : inv s -> is_at w ReadySignaled true s -> inv (await_ready_claim w s).
Proof. unfold await_ready_claim, claim. start as Hi Hl Hx; upd_one Hi Hx. Qed.

Lemma event_await_suspend_recheck_ok w s : inv s -> is_at w Suspend false s -> inv (await_suspend_recheck w s).
Proof. unfold await_suspend_recheck. start as Hi Hl Hx. on_signal s; upd_one Hi Hx. Qed.

Lemma event_await_suspend_throws_ok w s : inv s -> is_at w SuspendAlloc false s -> inv (await_suspend_throws w s).
Proof. unfold await_suspend_throws. start as Hi Hl Hx; upd_one Hi Hx. Qed.

Lemma event_await_suspend_plain_ok w s : inv s -> is_at w SuspendAlloc false s -> inv (await_suspend_plain w s).
Proof. unfold await_suspend_plain. start as Hi Hl Hx. on_signal s; upd_one Hi Hx. Qed.

Lemma event_await_suspend_lock_ok w s : inv s -> is_at w Suspend true s -> holder s = None -> inv (await_suspend_lock w s).
Proof. unfold await_suspend_lock. start as Hi Hl Hx; intros Hh; upd_one Hi Hx. Qed.

Lemma event_await_suspend_publish_ok w s : inv s -> is_at w SuspendLocked true s -> inv (await_suspend_publish w s).
Proof. unfold await_suspend_publish, claim. start as Hi Hl Hx; on_signal s; upd_one Hi Hx. Qed.

Lemma event_await_suspend_unblock_ok w s : inv s -> is_at w Published true s -> inv (await_suspend_unblock w s).
Proof. unfold await_suspend_unblock. start as Hi Hl Hx; upd_one Hi Hx. Qed.

Lemma event_await_resume_ok w c p s :
  inv s -> is_at w p c s -> p = Resumable \/ (p = Suspended /\ scheduled (objs s !!! w) = true) -> inv (await_resume w s).
Proof.
  unfold await_resume, linked. start as Hi Hl Hx; intros Hp; rewrite ?(lookup_total_correct _ _ _ Hx) in Hp;
    cases; simplify_eq/=;
    repeat match goal with |- context [?b && _] => is_var b; destruct b end; simpl;
    try case_bool_decide; upd_one Hi Hx.
Qed.

Lemma event_destroy_ok w c s : inv s -> is_at w Suspended c s -> holder s = None -> inv (destroy w s).
Proof.
  unfold destroy, linked. start as Hi Hl Hx; intros Hh; simpl;
    first [rewrite bool_decide_eq_true_2 by done | rewrite bool_decide_eq_false_2 by done | case_bool_decide]; upd_one Hi Hx.
Qed.

Lemma event_schedule_one_ok w s : inv s -> w ∈ to_schedule s -> inv (schedule_one w s).
Proof.
  intros Hi Hw. facts Hi as Hl. destruct (lo_dom _ _ _ _ _ Hl w) as [x Hx]; [tauto|].
  unfold schedule_one. shape_of Hl Hx; cases; try contradiction; rewrite ?(lookup_total_correct _ _ _ Hx); simpl; upd_one Hi Hx.
Qed.

Lemma event_cancel_second_ok w s : inv s -> w ∈ to_cancel s -> inv (cancel_second w s).
Proof.
  intros Hi Hw. facts Hi as Hl. destruct (lo_dom _ _ _ _ _ Hl w) as [x Hx]; [tauto|].
  unfold cancel_second. shape_of Hl Hx; cases; try contradiction; rewrite ?(lookup_total_correct _ _ _ Hx); simpl; upd_one Hi Hx.
Qed.

Lemma event_cancel_first_ok w p s : inv s -> is_at w p true s -> inv (cancel_first w s).
Proof. unfold cancel_first. start as Hi Hl Hx; upd_one Hi Hx. Qed.

Lemma event_construct_ok w c s : inv s -> objs s !! w = None -> inv (construct w c s).
Proof.
  intros Hi Hw. facts Hi as Hl. destruct Hi as [_ Hq Hs]. unfold construct.
  assert (w ∉ waiters_ s /\ w ∉ to_schedule s /\ w ∉ to_cancel s /\ holder s <> Some w) as (? & ? & ? & ?).
  { split_and!; intros Hin; destruct (lo_dom _ _ _ _ _ Hl w) as [x Hx]; first [tauto | congruence]. }
  split; simpl; [|done|].
  - eapply linked_ok_update; [exact Hl|done..|others|]. set_bits. destruct c; constructor; tauto.
  - intros v x. destruct (decide (v = w)) as [->|Hne]; [rewrite lookup_insert_eq; by intros [= <-]|]. rewrite lookup_insert_ne by done. apply Hs.
Qed.

Lemma event_step_ok s s' : inv s -> step s s' -> inv s'.
Proof.
  intros Hi Hst. destruct Hst as [| | | | | | | | | | | | | | |w s [p Hp]| | | |];
    eauto using event_construct_ok, event_await_ready_plain_ok, event_await_ready_check_ok, await_ready_load_ok, event_await_ready_claim_ok, event_await_suspend_recheck_ok,
      event_await_suspend_throws_ok, event_await_suspend_plain_ok, event_await_suspend_lock_ok, event_await_suspend_publish_ok, event_await_suspend_unblock_ok,
      event_await_resume_ok, event_destroy_ok, event_schedule_one_ok, event_cancel_first_ok, event_cancel_second_ok, event_set_ok, reset_ok.
Qed.

Lemma event_init_ok : inv init.
Proof.
  split; [|done|done]. split; simpl; try constructor; [|done]. intros w [H|[H|[H|H]]]; [by apply not_elem_of_nil in H..|done].
Qed.

Lemma event_reachable_ok s : rtc step init s -> inv s.
Proof. apply (rtc_invariant step inv event_step_ok). apply event_init_ok. Qed.

(** ** Theorems *)

(** [C15] Waiting on an event, over every interleaving of waits, cancellations, destructions of frames, [set] and
    [reset]: while the event is set nobody is in the queue; a wait reports [completed] only if the event was
    set after it began, and [cancelled] only if its token was cancelled; and a suspended coroutine is queued on an event that
    is not set, or a running thread is about to deliver its notification or cancellation, or it has been scheduled. *)
Theorem event_waits_sound s : rtc step init s ->
  (is_set s = true -> waiters_ s = []) /\
  forall w x, objs s !! w = Some x ->
    (at_pc x = Done completed -> seen x = true) /\ (at_pc x = Done cancelled -> was_cancelled (wake_of x) = true) /\
    (at_pc x = Suspended ->
       scheduled x = true
       \/ (w ∈ to_schedule s /\ seen x = true)
       \/ (w ∈ to_cancel s /\ was_cancelled (wake_of x) = true)
       \/ (w ∈ waiters_ s /\ is_set s = false /\ wake x = Some waiting)).
Proof.
  intros Hr. pose proof (event_reachable_ok s Hr) as [Hl Hq Hs]. unfold is_set. split; [done|]. intros w x Hx.
  assert (w ∈ waiters_ s -> signaled_ s = false) as Hz.
  { intros Hw. destruct (signaled_ s); [|done]. rewrite Hq in Hw by done. by apply not_elem_of_nil in Hw. }
  shape_of Hl Hx; simpl in *; split_and!; intros; simplify_eq; cases; simplify_eq; first [done | by auto 6 | right; right; right; by auto].
Qed.

(** ** A run: one wait suspends, the event is set *)

Definition demo_waiting : event := Eval vm_compute in
  await_suspend_plain 0 (await_suspend_recheck 0 (await_ready_plain 0 (construct 0 false init))).
Definition demo_done : event := Eval vm_compute in await_resume 0 (schedule_one 0 (set demo_waiting)).

Lemma event_rtc_to s s' s'' t : step s s' -> s' = s'' -> rtc step s'' t -> rtc step s t.
Proof. intros Hs <-. by apply rtc_l. Defined.

Ltac now_at := eexists; split; [vm_compute; reflexivity|done].

Lemma event_demo_done_reachable : rtc step init demo_done.
Proof.
  eapply event_rtc_to; [apply (step_construct 0%nat false); reflexivity|vm_compute; reflexivity|].
  eapply event_rtc_to; [apply (step_ready_plain 0%nat); now_at|vm_compute; reflexivity|].
  eapply event_rtc_to; [apply (step_suspend_recheck 0%nat); now_at|vm_compute; reflexivity|].
  eapply event_rtc_to; [apply (step_suspend_plain 0%nat); [now_at|reflexivity]|vm_compute; reflexivity|].
  eapply event_rtc_to; [apply step_set; reflexivity|vm_compute; reflexivity|].
  eapply event_rtc_to; [apply (step_schedule 0%nat); by left|vm_compute; reflexivity|].
  eapply event_rtc_to; [apply (step_resume 0%nat false); [now_at|reflexivity|discriminate]|vm_compute; reflexivity|].
  apply rtc_refl.
Qed.

Lemma event_waits_sound_witness : waiters_ demo_done = [] /\ seen (objs demo_done !!! 0%nat) = true.
Proof.
  split; [apply (event_waits_sound demo_done event_demo_done_reachable); reflexivity|].
  apply (event_waits_sound demo_done event_demo_done_reachable) with (w := 0%nat); reflexivity.
Defined.

End Event.
