(* ===== verification/CondVar.v ===== *)
(** * The coroutine condition variable of [src/include/elio/sync/condition_variable.hpp]

    The waits with a lock (a [mutex] or any lockable, plain and cancellable) and those without.  A waiter is queued with its
    wake state [blocked] before the lock of the caller is released, so a notifier can select it while it is still
    suspending.  The lock of the caller is the ghost [user_lock]; that it has one owner at a time is what [Mutex] proves of
    its implementation.  Proved for every interleaving: a wait reports [completed] only if a notification selected it,
    it returns with the lock held whatever its result, and no suspended coroutine is lost. *)

From S2P Require Import Prelude WakeState Waiters.

Module CondVar.
Export Waiters.
Import Wake.

(** ** Data *)

(** Where the coroutine is in [co_await cv.wait(...)]. *)
Inductive pc :=
  | Ready          (* about to call await_ready *)
  | Suspend        (* await_ready returned false; about to call await_suspend *)
  | SuspendLocked  (* prepare_blocked_wait: holds internal_mutex_, was_cancelled() was false *)
  | Queued         (* in waiters_ with a blocked wake state, the lock of the caller still held *)
  | Unblock        (* the lock was released; about to call unblock_after_publish *)
  | Finish         (* cancellable: unblock_after_publish failed, about to lock internal_mutex_ *)
  | Suspended      (* await_suspend returned true *)
  | Resumable      (* continues without suspending; about to call await_resume *)
  | Relock (r : cancel_result)  (* about to lock again *)
  | Done (r : cancel_result)
  | Left           (* released the lock after the wait *)
  | Destroyed.

#[global] Instance pc_EqDecision : EqDecision pc.
Proof. solve_decision. Defined.

(** A [cv_waiter_base] and its derived classes: [with_lock] distinguishes [wait] from [wait_unlocked].
    [scheduled] records that the coroutine was handed to the scheduler; [notified] is a ghost flag: a notifier selected it. *)
Record waiter := Waiter {
  with_lock : bool;
  cancellable : bool;
  at_pc : pc;
  wake : wstate;
  suspended : bool;
  lock_released : bool;
  scheduled : bool;
  notified : bool;
}.

Record condition_variable := CvState {
  waiters_ : list id;
  holder : option id;
  user_lock : option id;
  objs : gmap id waiter;
  to_schedule : list id;
  to_cancel : list id;
}.

Definition no_waiter : waiter := Waiter false false Destroyed idle false false false false.
#[global] Instance waiter_inhabited : Inhabited waiter := populate no_waiter.

(** ** Field updates *)

Definition with_pc (p : pc) (x : waiter) : waiter :=
  Waiter (with_lock x) (cancellable x) p (wake x) (suspended x) (lock_released x) (scheduled x) (notified x).
Definition with_wake (s : wstate) (x : waiter) : waiter :=
  Waiter (with_lock x) (cancellable x) (at_pc x) s (suspended x) (lock_released x) (scheduled x) (notified x).
Definition with_suspended (b : bool) (x : waiter) : waiter :=
  Waiter (with_lock x) (cancellable x) (at_pc x) (wake x) b (lock_released x) (scheduled x) (notified x).
Definition with_released (b : bool) (x : waiter) : waiter :=
  Waiter (with_lock x) (cancellable x) (at_pc x) (wake x) (suspended x) b (scheduled x) (notified x).
Definition with_scheduled (x : waiter) : waiter :=
  Waiter (with_lock x) (cancellable x) (at_pc x) (wake x) (suspended x) (lock_released x) true (notified x).
Definition with_notified (x : waiter) : waiter :=
  Waiter (with_lock x) (cancellable x) (at_pc x) (wake x) (suspended x) (lock_released x) (scheduled x) true.

Definition upd (w : id) (f : waiter -> waiter) (s : condition_variable) : condition_variable :=
  CvState (waiters_ s) (holder s) (user_lock s) (<[w := f (objs s !!! w)]> (objs s)) (to_schedule s) (to_cancel s).
Definition with_queue (q : list id) (s : condition_variable) : condition_variable :=
  CvState q (holder s) (user_lock s) (objs s) (to_schedule s) (to_cancel s).
Definition with_holder (h : option id) (s : condition_variable) : condition_variable :=
  CvState (waiters_ s) h (user_lock s) (objs s) (to_schedule s) (to_cancel s).
Definition with_user_lock (l : option id) (s : condition_variable) : condition_variable :=
  CvState (waiters_ s) (holder s) l (objs s) (to_schedule s) (to_cancel s).
Definition with_to_schedule (l : list id) (s : condition_variable) : condition_variable :=
  CvState (waiters_ s) (holder s) (user_lock s) (objs s) l (to_cancel s).
Definition with_to_cancel (l : list id) (s : condition_variable) : condition_variable :=
  CvState (waiters_ s) (holder s) (user_lock s) (objs s) (to_schedule s) l.

Definition linked (w : id) (s : condition_variable) : bool := bool_decide (w ∈ waiters_ s).
Definition unlink (w : id) (s : condition_variable) : condition_variable := with_queue (filter (.≠ w) (waiters_ s)) s.

(** ** Notifying *)

Definition init : condition_variable := CvState [] None None ∅ [] [].

(** A popped waiter that accepts the notification: its wake state will be passed to [schedule_wake_state]. *)
Definition selected (w : id) (s : condition_variable) : condition_variable :=
  upd w with_notified (with_to_schedule (w :: to_schedule s) s).

(** Pop the waiters of [q], stopping after the first one that accepts when [one]. *)
Fixpoint notify_loop (one : bool) (q : list id) (s : condition_variable) : condition_variable :=
  match q with
  | [] => with_queue [] s
  | w :: q =>
      let x := objs s !!! w in
      let accept := fun s => if one then selected w (with_queue q s) else notify_loop one q (selected w s) in
      if cancellable x then
        let (st, action) := claim_notification (wake x) in
        let s := upd w (with_wake st) s in
        if decide (action = rejected) then notify_loop one q s else accept s
      else accept s
  end.

Definition notify_one (s : condition_variable) : condition_variable := notify_loop true (waiters_ s) s.
Definition notify_all (s : condition_variable) : condition_variable := notify_loop false (waiters_ s) s.

(** [to_schedule.reserve] throws in [notify_all]: nothing was changed. *)
Definition notify_all_throws (s : condition_variable) : condition_variable := s.

Definition has_waiters (s : condition_variable) : bool := negb (bool_decide (waiters_ s = [])).

(** ** The awaiter *)

Definition construct (w : id) (lock is_cancellable : bool) (s : condition_variable) : condition_variable :=
  upd w (fun _ => Waiter lock is_cancellable Ready idle false false false false) s.

Definition await_ready (w : id) (s : condition_variable) : condition_variable :=
  let x := objs s !!! w in
  upd w (with_pc (if cancellable x && was_cancelled (wake x) then Resumable else Suspend)) s.

(** [await_suspend] of the plain waits up to the release of the lock. *)
Definition await_suspend_plain (w : id) (s : condition_variable) : condition_variable :=
  let s := upd w (fun x => with_wake (set_handle_blocked (wake x)).1 x) s in
  let s := with_queue (waiters_ s ++ [w]) s in
  upd w (fun x => with_pc Queued (with_suspended true x)) s.

(** [await_suspend] of [wait_unlocked]. *)
Definition await_suspend_unlocked (w : id) (s : condition_variable) : condition_variable :=
  let s := upd w (fun x => with_wake (set_handle (wake x)) x) s in
  let s := with_queue (waiters_ s ++ [w]) s in
  upd w (fun x => with_pc Suspended (with_suspended true x)) s.

(** [prepare_blocked_wait], in two steps. *)
Definition prepare_lock (w : id) (s : condition_variable) : condition_variable :=
  if was_cancelled (wake (objs s !!! w)) then upd w (with_pc Resumable) s
  else upd w (with_pc SuspendLocked) (with_holder (Some w) s).

Definition prepare_publish (w : id) (s : condition_variable) : condition_variable :=
  let (st, ok) := set_handle_blocked (wake (objs s !!! w)) in
  let s := upd w (with_wake st) s in
  if ok then
    let s := with_queue (waiters_ s ++ [w]) s in
    with_holder None (upd w (fun x => with_pc (if with_lock x then Queued else Unblock) (with_suspended true x)) s)
  else with_holder None (upd w (with_pc Resumable) s).

(** [mutex_.unlock()] or [lock_.unlock()], and [lock_released_ = true]. *)
Definition release_lock (w : id) (s : condition_variable) : condition_variable :=
  upd w (fun x => with_pc Unblock (with_released true x)) (with_user_lock None s).

(** [unblock_after_publish]: a plain wait that was notified continues at once. *)
Definition await_suspend_unblock (w : id) (s : condition_variable) : condition_variable :=
  let (st, ok) := unblock_after_publish (wake (objs s !!! w)) in
  let s := upd w (with_wake st) s in
  if ok then upd w (with_pc Suspended) s
  else upd w (fun x => with_pc (if cancellable x then Finish else Resumable) x) s.

(** The rest of [finish_blocked_publication]. *)
Definition finish_publication (w : id) (s : condition_variable) : condition_variable :=
  let s := if linked w s then unlink w s else s in
  upd w (fun x => with_pc Resumable (with_suspended false x)) s.

(** [await_resume]: [finish_wait] when the wait is cancellable; the lock is taken again if it was released. *)
Definition await_resume (w : id) (s : condition_variable) : condition_variable :=
  let x := objs s !!! w in
  let next r := fun x => with_pc (if lock_released x then Relock r else Done r) x in
  if negb (cancellable x) then upd w (next completed) s
  else if was_cancelled (wake x) then
    let s := if suspended x && linked w s then unlink w s else s in
    upd w (fun x => next cancelled (with_suspended false x)) s
  else upd w (fun x => next completed (with_suspended false x)) s.

(** [co_await m.lock()] or [lock_.lock()]. *)
Definition relock (w : id) (s : condition_variable) : condition_variable :=
  upd w (fun x => with_pc (match at_pc x with Relock r => Done r | p => p end) x) (with_user_lock (Some w) s).

(** The caller releases its lock after the wait. *)
Definition leave (w : id) (s : condition_variable) : condition_variable :=
  upd w (with_pc Left) (if with_lock (objs s !!! w) then with_user_lock None s else s).

(** [~cv_waiter_base], of a suspended coroutine whose frame is destroyed or of a plain wait that is over. *)
Definition destroy (w : id) (s : condition_variable) : condition_variable :=
  let s := if linked w s then unlink w s else s in
  upd w (fun x => with_pc (match at_pc x with Suspended => Destroyed | p => p end) (with_suspended false (with_wake (abandon (wake x)) x))) s.

(** ** Notifiers and cancellation callbacks *)

Definition schedule_one (w : id) (s : condition_variable) : condition_variable :=
  let (st, ok) := schedule_selected (wake (objs s !!! w)) in
  let s := with_to_schedule (remove_one w (to_schedule s)) s in
  upd w (fun x => let x := with_wake st x in if ok then with_scheduled x else x) s.

Definition cancel_first (w : id) (s : condition_variable) : condition_variable :=
  let (st, r) := request_cancel_cas (wake (objs s !!! w)) in
  let s := upd w (with_wake st) s in
  if r.2 then with_to_cancel (w :: to_cancel s) s else s.

Definition cancel_second (w : id) (s : condition_variable) : condition_variable :=
  let (st, ok) := schedule_claimed (wake (objs s !!! w)) in
  let s := with_to_cancel (remove_one w (to_cancel s)) s in
  upd w (fun x => let x := with_wake st x in if ok then with_scheduled x else x) s.

(** ** Interleavings *)

Definition is_at (w : id) (p : pc) (s : condition_variable) (x : waiter) : Prop := objs s !! w = Some x /\ at_pc x = p.

(** A wait with a lock is constructed by the owner of the lock, which took it before, or has it from an earlier wait
    ([step_again]); anybody else takes and releases it in between. *)
Inductive step : condition_variable -> condition_variable -> Prop :=
| step_lock (v : id) s : objs s !! v = None -> user_lock s = None -> step s (with_user_lock (Some v) s)
| step_unlock (v : id) s : objs s !! v = None -> user_lock s = Some v -> step s (with_user_lock None s)
| step_again w (v : id) r x s : is_at w (Done r) s x -> with_lock x = true -> objs s !! v = None -> step s (with_user_lock (Some v) (leave w s))
| step_construct w (l : bool) c s : objs s !! w = None -> (if l then user_lock s = Some w else user_lock s <> Some w) -> step s (construct w l c s)
| step_ready w x s : is_at w Ready s x -> step s (await_ready w s)
| step_suspend_plain w x s : is_at w Suspend s x -> cancellable x = false -> with_lock x = true -> holder s = None -> step s (await_suspend_plain w s)
| step_suspend_unlocked w x s : is_at w Suspend s x -> cancellable x = false -> with_lock x = false -> holder s = None -> step s (await_suspend_unlocked w s)
| step_prepare_lock w x s : is_at w Suspend s x -> cancellable x = true -> holder s = None -> step s (prepare_lock w s)
| step_prepare_publish w x s : is_at w SuspendLocked s x -> step s (prepare_publish w s)
| step_release w x s : is_at w Queued s x -> step s (release_lock w s)
| step_unblock w x s : is_at w Unblock s x -> step s (await_suspend_unblock w s)
| step_finish w x s : is_at w Finish s x -> holder s = None -> step s (finish_publication w s)
| step_resume_inline w x s : is_at w Resumable s x -> step s (await_resume w s)
| step_resume w x s : is_at w Suspended s x -> scheduled x = true ->
    (cancellable x = true -> was_cancelled (wake x) = true -> holder s = None) -> step s (await_resume w s)
| step_relock w r x s : is_at w (Relock r) s x -> user_lock s = None -> step s (relock w s)
| step_leave w r x s : is_at w (Done r) s x -> step s (leave w s)
| step_destroy w x s : objs s !! w = Some x -> suspended x = true ->
    (at_pc x = Suspended \/ (exists r, at_pc x = Relock r \/ at_pc x = Done r) \/ at_pc x = Left) -> holder s = None -> step s (destroy w s)
| step_schedule w s : w ∈ to_schedule s -> step s (schedule_one w s)
| step_cancel_first w x s : objs s !! w = Some x -> cancellable x = true -> step s (cancel_first w s)
| step_cancel_second w s : w ∈ to_cancel s -> step s (cancel_second w s)
| step_notify_one s : holder s = None -> step s (notify_one s)
| step_notify_all s : holder s = None -> step s (notify_all s)
| step_notify_all_throws s : step s (notify_all_throws s).

(** ** The configurations an awaiter can be in *)

Inductive wshape : waiter -> bool -> bool -> bool -> bool -> Prop :=
| sh_start l c p st : p = Ready \/ p = Suspend -> st = idle \/ (c = true /\ st = cancelled_inline) ->
    wshape (Waiter l c p st false false false false) false false false false
| sh_prepare l st : st = idle \/ st = cancelled_inline ->
    wshape (Waiter l true SuspendLocked st false false false false) false false false true
| sh_blocked_plain p lr wk q s n :
    (p = Queued /\ lr = false) \/ (p = Unblock /\ lr = true) ->
    (wk = blocked /\ q = true /\ s = false /\ n = false) \/ (wk = blocked /\ q = false /\ s = true /\ n = true)
      \/ (wk = notified_inline /\ q = false /\ s = false /\ n = true) ->
    wshape (Waiter true false p wk true lr false n) q s false false
| sh_blocked_cancellable l p lr wk q s n :
    (l = true /\ p = Queued /\ lr = false) \/ (p = Unblock /\ lr = l) ->
    (wk = blocked /\ q = true /\ s = false /\ n = false) \/ (wk = notified_inline /\ q = false /\ n = true)
      \/ (wk = cancelled_inline /\ s = false /\ n = false) ->
    wshape (Waiter l true p wk true lr false n) q s false false
| sh_finish l wk q s n :
    (wk = notified_inline /\ q = false /\ n = true) \/ (wk = cancelled_inline /\ s = false /\ n = false) ->
    wshape (Waiter l true Finish wk true l false n) q s false false
| sh_queued l c : wshape (Waiter l c Suspended waiting true l false false) true false false false
| sh_claimed l c st : (c = false /\ st = waiting) \/ (c = true /\ st = notification_claimed) ->
    wshape (Waiter l c Suspended st true l false true) false true false false
| sh_notified l c : wshape (Waiter l c Suspended notification_scheduling true l true true) false false false false
| sh_cancelling l q : wshape (Waiter l true Suspended cancellation_claimed true l false false) q false true false
| sh_cancelled l q : wshape (Waiter l true Suspended cancellation_scheduling true l true false) q false false false
| sh_inline_plain : wshape (Waiter true false Resumable notified_inline true true false true) false false false false
| sh_inline_notified l s : wshape (Waiter l true Resumable notified_inline false l false true) false s false false
| sh_inline_cancelled l lr : lr = false \/ lr = l ->
    wshape (Waiter l true Resumable cancelled_inline false lr false false) false false false false
| sh_over_plain l p wk susp sc :
    (l = true /\ p = Relock completed) \/ p = Done completed \/ p = Left ->
    wk = notified_inline \/ wk = notification_scheduling \/ wk = abandoned ->
    wshape (Waiter l false p wk susp l sc true) false false false false
| sh_over_notified l p wk s sc :
    (l = true /\ p = Relock completed) \/ p = Done completed \/ p = Left ->
    wk = notified_inline \/ (wk = notification_scheduling /\ s = false) ->
    wshape (Waiter l true p wk false l sc true) false s false false
| sh_over_cancelled l p st lr sc :
    (l = true /\ lr = true /\ p = Relock cancelled) \/ p = Done cancelled \/ p = Left ->
    st = cancelled_inline \/ st = cancellation_scheduling -> lr = false \/ lr = l ->
    wshape (Waiter l true p st false lr sc false) false false false false
| sh_abandoned l c sc s cn n : wshape (Waiter l c Destroyed abandoned false l sc n) false s cn false
| sh_destroyed l c st sc n : st = notification_scheduling \/ st = cancellation_scheduling ->
    wshape (Waiter l c Destroyed st false l sc n) false false false false.

Abbreviation linked_ok := (Waiters.linked_ok wshape).

(** Whether a wait with a lock holds it. *)
Definition holds_lock (x : waiter) : bool :=
  with_lock x &&
  match at_pc x with
  | Ready | Suspend | SuspendLocked | Queued | Done _ => true
  | Resumable => negb (lock_released x)
  | _ => false
  end.

Record inv (s : condition_variable) : Prop := {
  inv_linked : linked_ok (waiters_ s) (to_schedule s) (to_cancel s) (holder s) (objs s);
  inv_lock : forall w x, objs s !! w = Some x -> holds_lock x = true <-> user_lock s = Some w;
}.

(** ** Notifying *)

Lemma cv_upd_id w f s x : objs s !! w = Some x -> f x = x -> upd w f s = s.
Proof.
  intros Hx Hf. unfold upd. rewrite (lookup_total_correct _ _ _ Hx), Hf, insert_id by done. by destruct s.
Qed.

Ltac shape_cases Hl Hx := shape_of Hl Hx; cases; bits; try absurd_shape; try contradiction.

Definition lock_inv (s : condition_variable) : Prop := forall w x, objs s !! w = Some x -> holds_lock x = true <-> user_lock s = Some w.

(** Changing an awaiter without moving its lock. *)
Lemma lock_inv_insert s s' w x x' : lock_inv s -> objs s !! w = Some x -> objs s' = <[w := x']> (objs s) -> user_lock s' = user_lock s ->
  holds_lock x' = holds_lock x -> lock_inv s'.
Proof.
  intros Hs Hx Ho Hu Hh v y. rewrite Ho, Hu. destruct (decide (v = w)) as [->|Hne].
  - rewrite lookup_insert_eq. intros [= <-]. rewrite Hh. by apply Hs.
  - rewrite lookup_insert_ne by done. apply Hs.
Qed.

Lemma notify_loop_ok one q s :
  linked_ok q (to_schedule s) (to_cancel s) None (objs s) -> holder s = None -> lock_inv s -> inv (notify_loop one q s) /\ holder (notify_loop one q s) = None.
Proof.
  revert s. induction q as [|w q IH]; intros s Hl Hh Hlock.
  { cbn [notify_loop]. split; [|done]. split; [by cbn; rewrite Hh|done]. }
  destruct (lo_dom _ _ _ _ _ Hl w) as [x Hx]; [left; apply elem_cons_self|].
  pose proof (lo_q _ _ _ _ _ Hl) as [Hwq Hq]%NoDup_cons.
  pose proof (lo_sc _ _ _ _ _ Hl) as Hsc. pose proof (lo_cn _ _ _ _ _ Hl) as Hcn.
  assert (was_cancelled (wake x) = true -> linked_ok q (to_schedule s) (to_cancel s) None (objs s)) as Hrest.
  { intros Hwc. rewrite <-(insert_id _ _ _ Hx). eapply linked_ok_update; [exact Hl|done..|others|].
    shape_cases Hl Hx; try discriminate; set_bits; constructor; tauto. }
  set (st := if cancellable x then (claim_notification (wake x)).1 else wake x). set (t := selected w (upd w (with_wake st) s)).
  assert (notify_loop one (w :: q) s = if was_cancelled (wake x) then notify_loop one q s else if one then with_queue q t else notify_loop one q t) as ->.
  { cbn [notify_loop]. rewrite (lookup_total_correct _ _ _ Hx). unfold t, st.
    shape_cases Hl Hx; rewrite ?(cv_upd_id w (with_wake _) s _ Hx) by done; try done; destruct c; rewrite ?(cv_upd_id w (with_wake _) s _ Hx) by done; done. }
  destruct (was_cancelled (wake x)) eqn:Ewc; [by apply IH; [apply Hrest|..]|].
  assert (objs t = <[w := with_notified (with_wake st x)]> (objs s)) as Eo by (unfold t; norm_objs Hx; done).
  assert (linked_ok q (to_schedule t) (to_cancel t) None (objs t)) as Ht.
  { rewrite Eo. cbn [t selected to_schedule to_cancel upd with_to_schedule].
    eapply linked_ok_update; [exact Hl|done|constructor; [|done]|done|others|]; unfold st; shape_cases Hl Hx; try done; set_bits;
      try (constructor; tauto); destruct c; constructor; tauto. }
  assert (lock_inv t) as Htl by (by eapply (lock_inv_insert s); [..|exact Hx|exact Eo| |]).
  destruct one; [|by apply IH]. split; [|done]. split; [|done]. cbn. rewrite Hh. exact Ht.
Qed.

Lemma notify_ok one s : inv s -> holder s = None -> inv (notify_loop one (waiters_ s) s).
Proof. intros [Hl Hk] Hh. rewrite Hh in Hl. by apply notify_loop_ok. Qed.

(** ** Steps that change one awaiter *)

Lemma cv_inv_upd s s' w x x' :
  inv s -> objs s !! w = Some x -> objs s' = <[w := x']> (objs s) ->
  NoDup (waiters_ s') -> NoDup (to_schedule s') -> NoDup (to_cancel s') ->
  (forall v, v <> w -> (v ∈ waiters_ s' <-> v ∈ waiters_ s) /\ (v ∈ to_schedule s' <-> v ∈ to_schedule s)
     /\ (v ∈ to_cancel s' <-> v ∈ to_cancel s) /\ (holder s' = Some v <-> holder s = Some v)) ->
  wshape x' (bool_decide (w ∈ waiters_ s')) (bool_decide (w ∈ to_schedule s')) (bool_decide (w ∈ to_cancel s'))
    (bool_decide (holder s' = Some w)) ->
  (forall v, v <> w -> user_lock s' = Some v <-> user_lock s = Some v) ->
  (holds_lock x' = true <-> user_lock s' = Some w) -> inv s'.
Proof.
  intros [Hl Hk] Hx Ho ? ? ? Hoth Hsh Hu Hw. split.
  - rewrite Ho. by eapply linked_ok_update.
  - intros v y. rewrite Ho. destruct (decide (v = w)) as [->|Hne].
    + rewrite lookup_insert_eq. by intros [= <-].
    + rewrite lookup_insert_ne, Hu by done. apply Hk.
Qed.

Ltac upd_one Hi Hx :=
  eapply (cv_inv_upd _ _ _ _ _ Hi Hx);
  [ norm_objs Hx; reflexivity | simpl; eauto 2 with waiters | simpl; eauto 2 with waiters | simpl; eauto 2 with waiters
  | simpl; others | simpl; set_bits; try (constructor; tauto)
  | simpl; try solve [done | intros; split; congruence] | simpl; try solve [done | split; congruence | unfold holds_lock in *; simpl in *; repeat match goal with l : bool |- _ => destruct l end; simpl in *; done] ].

Tactic Notation "facts" hyp(Hi) hyp(Hx) "as" ident(Hl) :=
  pose proof (inv_linked _ Hi) as Hl; pose proof (lo_q _ _ _ _ _ Hl); pose proof (lo_sc _ _ _ _ _ Hl); pose proof (lo_cn _ _ _ _ _ Hl);
  let Hk := fresh "Hk" in pose proof (inv_lock _ Hi _ _ Hx) as Hk.

Tactic Notation "start" "as" ident(Hi) ident(Hl) ident(Hx) :=
  intros Hi [Hx ?]; facts Hi Hx as Hl; shape_cases Hl Hx; simpl in *; simplify_eq; rewrite ?(lookup_total_correct _ _ _ Hx); simpl.

Lemma await_ready_ok w x s : inv s -> is_at w Ready s x -> inv (await_ready w s).
Proof. unfold await_ready. start as Hi Hl Hx; try destruct c; simpl; upd_one Hi Hx. Qed.

Lemma cv_await_suspend_plain_ok w x s : inv s -> is_at w Suspend s x -> cancellable x = false -> with_lock x = true -> inv (await_suspend_plain w s).
Proof. unfold await_suspend_plain. start as Hi Hl Hx; intros; simplify_eq; upd_one Hi Hx. Qed.

Lemma await_suspend_unlocked_ok w x s : inv s -> is_at w Suspend s x -> cancellable x = false -> with_lock x = false -> inv (await_suspend_unlocked w s).
Proof. unfold await_suspend_unlocked. start as Hi Hl Hx; intros; simplify_eq; upd_one Hi Hx. Qed.

Lemma prepare_lock_ok w x s : inv s -> is_at w Suspend s x -> cancellable x = true -> holder s = None -> inv (prepare_lock w s).
Proof. unfold prepare_lock. start as Hi Hl Hx; intros; simplify_eq; upd_one Hi Hx. Qed.

Lemma prepare_publish_ok w x s : inv s -> is_at w SuspendLocked s x -> inv (prepare_publish w s).
Proof. unfold prepare_publish. start as Hi Hl Hx; try (match goal with l : bool |- _ => destruct l end); upd_one Hi Hx. Qed.

Lemma release_lock_ok w x s : inv s -> is_at w Queued s x -> inv (release_lock w s).
Proof. unfold release_lock. start as Hi Hl Hx; (assert (user_lock s = Some w) by (by apply Hk)); upd_one Hi Hx. Qed.

Lemma cv_await_suspend_unblock_ok w x s : inv s -> is_at w Unblock s x -> inv (await_suspend_unblock w s).
Proof. unfold await_suspend_unblock. start as Hi Hl Hx; upd_one Hi Hx. Qed.

Lemma finish_publication_ok w x s : inv s -> is_at w Finish s x -> inv (finish_publication w s).
Proof. unfold finish_publication, linked. start as Hi Hl Hx; case_bool_decide; upd_one Hi Hx. Qed.

Lemma cv_await_resume_ok w x p s :
  inv s -> is_at w p s x -> p = Resumable \/ (p = Suspended /\ scheduled x = true) -> inv (await_resume w s).
Proof.
  unfold await_resume, linked. start as Hi Hl Hx; intros Hp; cases; simplify_eq/=;
    repeat match goal with l : bool |- _ => destruct l end; simpl in *;
    try case_bool_decide; upd_one Hi Hx.
Qed.

Lemma relock_ok w r x s : inv s -> is_at w (Relock r) s x -> user_lock s = None -> inv (relock w s).
Proof. unfold relock. start as Hi Hl Hx; intros; upd_one Hi Hx. Qed.

Lemma leave_ok w r x s : inv s -> is_at w (Done r) s x -> inv (leave w s).
Proof.
  unfold leave. start as Hi Hl Hx; repeat match goal with l : bool |- _ => destruct l end; simpl in *;
    try (assert (user_lock s = Some w) by (by apply Hk)); upd_one Hi Hx.
Qed.

Lemma cv_destroy_ok w x s : inv s -> objs s !! w = Some x -> suspended x = true ->
  (at_pc x = Suspended \/ (exists r, at_pc x = Relock r \/ at_pc x = Done r) \/ at_pc x = Left) -> inv (destroy w s).
Proof.
  unfold destroy, linked. intros Hi Hx. facts Hi Hx as Hl. shape_cases Hl Hx; simpl in *; simplify_eq; intros Hs Hp; simplify_eq;
    repeat (destruct Hp as [Hp|Hp]; simplify_eq); try (destruct Hp as [[] [Hp|Hp]]; simplify_eq);
    try (case_bool_decide; try contradiction); upd_one Hi Hx.
Qed.

Lemma cv_schedule_one_ok w s : inv s -> w ∈ to_schedule s -> inv (schedule_one w s).
Proof.
  intros Hi Hw. destruct (lo_dom _ _ _ _ _ (inv_linked _ Hi) w) as [x Hx]; [tauto|]. facts Hi Hx as Hl.
  unfold schedule_one. shape_cases Hl Hx; rewrite ?(lookup_total_correct _ _ _ Hx); simpl; upd_one Hi Hx.
Qed.

Lemma cv_cancel_second_ok w s : inv s -> w ∈ to_cancel s -> inv (cancel_second w s).
Proof.
  intros Hi Hw. destruct (lo_dom _ _ _ _ _ (inv_linked _ Hi) w) as [x Hx]; [tauto|]. facts Hi Hx as Hl.
  unfold cancel_second. shape_cases Hl Hx; rewrite ?(lookup_total_correct _ _ _ Hx); simpl; upd_one Hi Hx.
Qed.

Lemma cv_cancel_first_ok w x s : inv s -> objs s !! w = Some x -> cancellable x = true -> inv (cancel_first w s).
Proof.
  intros Hi Hx. facts Hi Hx as Hl. unfold cancel_first. shape_cases Hl Hx; rewrite ?(lookup_total_correct _ _ _ Hx); simpl; intros; simplify_eq; upd_one Hi Hx.
Qed.

Lemma cv_construct_ok w (l : bool) c s : inv s -> objs s !! w = None -> (if l then user_lock s = Some w else user_lock s <> Some w) -> inv (construct w l c s).
Proof.
  intros [Hl Hk] Hw Hu. pose proof (lo_q _ _ _ _ _ Hl). pose proof (lo_sc _ _ _ _ _ Hl). pose proof (lo_cn _ _ _ _ _ Hl). unfold construct.
  assert (w ∉ waiters_ s /\ w ∉ to_schedule s /\ w ∉ to_cancel s /\ holder s <> Some w) as (? & ? & ? & ?).
  { split_and!; intros Hin; destruct (lo_dom _ _ _ _ _ Hl w) as [x Hx]; first [tauto | congruence]. }
  split; simpl.
  - eapply linked_ok_update; [exact Hl|done..|others|]. set_bits. constructor; tauto.
  - intros v x. destruct (decide (v = w)) as [->|Hne]; [|rewrite lookup_insert_ne by done; apply Hk].
    rewrite lookup_insert_eq. intros [= <-]. unfold holds_lock. simpl. by destruct l.
Qed.

(** The lock changes hands between parties that are not waiting. *)
Lemma user_lock_ok l s : inv s -> (forall w x, objs s !! w = Some x -> user_lock s <> Some w) -> (forall w, l = Some w -> objs s !! w = None) -> inv (with_user_lock l s).
Proof.
  intros [Hl Hk] Hno Hw. split; [done|]. intros w x Hx. simpl in *. split; intros H.
  - exfalso. by apply (Hno w x Hx), (Hk w x Hx).
  - by rewrite (Hw w H) in Hx.
Qed.

Lemma again_ok w v r x s : inv s -> is_at w (Done r) s x -> with_lock x = true -> objs s !! v = None -> inv (with_user_lock (Some v) (leave w s)).
Proof.
  intros Hi Hat Hlock Hv. pose proof (leave_ok _ _ _ _ Hi Hat) as Hi'. destruct Hat as [Hx Hp]. apply user_lock_ok; [done| |].
  - intros u y Hy. unfold leave. rewrite (lookup_total_correct _ _ _ Hx), Hlock. done.
  - intros u [= <-]. unfold leave. rewrite (lookup_total_correct _ _ _ Hx), Hlock. simpl. by rewrite lookup_insert_ne by congruence.
Qed.

Lemma cv_step_ok s s' : inv s -> step s s' -> inv s'.
Proof.
  intros Hi Hst. destruct Hst as [v s Hv Hu|v s Hv Hu| | | | | | | | | | | | | | | | | | |s Hh|s Hh|];
    eauto using again_ok, cv_construct_ok, await_ready_ok, cv_await_suspend_plain_ok, await_suspend_unlocked_ok, prepare_lock_ok, prepare_publish_ok,
      release_lock_ok, cv_await_suspend_unblock_ok, finish_publication_ok, cv_await_resume_ok, relock_ok, leave_ok, cv_destroy_ok, cv_schedule_one_ok,
      cv_cancel_first_ok, cv_cancel_second_ok.
  - apply user_lock_ok; [done|by rewrite Hu|by intros w [= <-]].
  - apply user_lock_ok; [done| |done]. intros w x Hx E. congruence.
  - by apply notify_ok.
  - by apply notify_ok.
Qed.

Lemma cv_init_ok : inv init.
Proof.
  split; [|done]. split; simpl; try constructor; [|done]. intros w [H|[H|[H|H]]]; [by apply not_elem_of_nil in H..|done].
Qed.

Lemma cv_reachable_ok s : rtc step init s -> inv s.
Proof. apply (rtc_invariant step inv cv_step_ok). apply cv_init_ok. Qed.

(** ** Theorems *)

(** [C14] Waiting on a condition variable, over every interleaving of waits, notifications, cancellations and destructions of
    frames: a wait reports [completed] only if a notification selected it (there are no spurious wakeups) and
    [cancelled] only if none did; a wait with a lock returns as the owner of the lock with either result, and does not hold it
    while it is suspended; and a suspended coroutine is in the queue, or a running thread is about to
    deliver its notification or cancellation, or it has been scheduled. *)
Theorem condition_waits_sound s w x : rtc step init s -> objs s !! w = Some x ->
  (at_pc x = Done completed -> notified x = true) /\ (at_pc x = Done cancelled -> notified x = false /\ was_cancelled (wake x) = true) /\
  (with_lock x = true -> forall r, at_pc x = Done r -> user_lock s = Some w) /\
  (at_pc x = Suspended ->
     user_lock s <> Some w /\
     (scheduled x = true
      \/ (w ∈ to_schedule s /\ notified x = true)
      \/ (w ∈ to_cancel s /\ was_cancelled (wake x) = true)
      \/ (w ∈ waiters_ s /\ wake x = waiting /\ notified x = false))).
Proof.
  intros Hr Hx. pose proof (cv_reachable_ok s Hr) as Hi. facts Hi Hx as Hl.
  assert (at_pc x = Suspended -> user_lock s <> Some w) as Hns.
  { intros Hp E. apply Hk in E. unfold holds_lock in E. rewrite Hp in E. by destruct (with_lock x). }
  assert (with_lock x = true -> forall r, at_pc x = Done r -> user_lock s = Some w) as Hd.
  { intros Hlk r Hp. apply Hk. unfold holds_lock. by rewrite Hlk, Hp. }
  split_and!; [..|exact Hd|]; clear Hk Hd; shape_cases Hl Hx; simpl in *; intros; simplify_eq; try done; split; try (by apply Hns); by auto 6.
Qed.

(** [notify_one] selects the oldest waiter that was not cancelled; if all were, it selects nobody. *)
Theorem notify_one_selects s : rtc step init s -> holder s = None ->
  let dead w := was_cancelled (wake (objs s !!! w)) = true in
  (Forall dead (waiters_ s) /\ waiters_ (notify_one s) = [] /\ to_schedule (notify_one s) = to_schedule s)
  \/ (exists older w rest, waiters_ s = older ++ w :: rest /\ Forall dead older /\ ~ dead w /\ waiters_ (notify_one s) = rest /\
        to_schedule (notify_one s) = w :: to_schedule s /\ notified (objs (notify_one s) !!! w) = true).
Proof.
  intros Hr Hh dead. pose proof (inv_linked _ (cv_reachable_ok _ Hr)) as Hl. unfold notify_one.
  rewrite Hh in Hl. revert Hl. generalize (waiters_ s) as q. clear Hr Hh.
  induction q as [|w q IH]; intros Hl; [by left|].
  destruct (lo_dom _ _ _ _ _ Hl w) as [x Hx]; [left; apply elem_cons_self|].
  pose proof (lo_q _ _ _ _ _ Hl) as [Hwq Hq]%NoDup_cons.
  pose proof (lo_sc _ _ _ _ _ Hl) as Hsc. pose proof (lo_cn _ _ _ _ _ Hl) as Hcn.
  destruct (was_cancelled (wake x)) eqn:Ewc.
  - assert (linked_ok q (to_schedule s) (to_cancel s) None (objs s)) as Hrest.
    { rewrite <-(insert_id _ _ _ Hx). eapply linked_ok_update; [exact Hl|done..|others|].
      shape_cases Hl Hx; try discriminate; set_bits; constructor; tauto. }
    assert (dead w) as Hd by (unfold dead; by rewrite (lookup_total_correct _ _ _ Hx)).
    assert (notify_loop true (w :: q) s = notify_loop true q s) as ->.
    { cbn [notify_loop]. rewrite (lookup_total_correct _ _ _ Hx). shape_cases Hl Hx; try discriminate; by rewrite (cv_upd_id w (with_wake _) s _ Hx). }
    destruct (IH Hrest) as [(Hf & Hw & Ht)|(o & v & r & -> & Hf & Hv & Hw & Ht & Hn)]; [left|right]; [by split_and!; [constructor|..]|].
    exists (w :: o), v, r. by split_and!; [|constructor|..].
  - right. exists [], w, q. split_and!; [done|done|unfold dead; rewrite (lookup_total_correct _ _ _ Hx); congruence|..]; cbn [notify_loop];
      rewrite (lookup_total_correct _ _ _ Hx); shape_cases Hl Hx; try discriminate; try destruct c; simpl; rewrite ?lookup_total_insert_eq; done.
Qed.

(** ** A run: a wait releases the lock, is notified, and takes the lock again *)

Definition demo_waiting : condition_variable := Eval vm_compute in
  await_suspend_unblock 0 (release_lock 0 (await_suspend_plain 0 (await_ready 0 (construct 0 true false (with_user_lock (Some 0%nat) init))))).
Definition demo_done : condition_variable := Eval vm_compute in relock 0 (await_resume 0 (schedule_one 0 (notify_one demo_waiting))).

Lemma cv_rtc_to s s' s'' t : step s s' -> s' = s'' -> rtc step s'' t -> rtc step s t.
Proof. intros Hs <-. by apply rtc_l. Defined.

Ltac now_at := split; vm_compute; reflexivity.

Lemma cv_demo_waiting_reachable : rtc step init demo_waiting.
Proof.
  eapply cv_rtc_to; [apply (step_lock 0%nat); reflexivity|vm_compute; reflexivity|].
  eapply cv_rtc_to; [apply (step_construct 0%nat true false); reflexivity|vm_compute; reflexivity|].
  eapply cv_rtc_to; [eapply (step_ready 0%nat); now_at|vm_compute; reflexivity|].
  eapply cv_rtc_to; [eapply (step_suspend_plain 0%nat); [now_at|reflexivity..]|vm_compute; reflexivity|].
  eapply cv_rtc_to; [eapply (step_release 0%nat); now_at|vm_compute; reflexivity|].
  eapply cv_rtc_to; [eapply (step_unblock 0%nat); now_at|vm_compute; reflexivity|].
  apply rtc_refl.
Qed.

Lemma cv_demo_done_reachable : rtc step init demo_done.
Proof.
  etrans; [apply cv_demo_waiting_reachable|].
  eapply cv_rtc_to; [apply step_notify_one; reflexivity|vm_compute; reflexivity|].
  eapply cv_rtc_to; [apply (step_schedule 0%nat); by left|vm_compute; reflexivity|].
  eapply cv_rtc_to; [eapply (step_resume 0%nat); [now_at|reflexivity|discriminate]|vm_compute; reflexivity|].
  eapply cv_rtc_to; [eapply (step_relock 0%nat completed); [now_at|reflexivity]|vm_compute; reflexivity|].
  apply rtc_refl.
Qed.

Lemma condition_waits_sound_witness : notified (objs demo_done !!! 0%nat) = true /\ user_lock demo_done = Some 0%nat.
Proof.
  destruct (condition_waits_sound demo_done 0%nat (objs demo_done !!! 0%nat) cv_demo_done_reachable eq_refl) as (H1 & _ & H3 & _).
  split; [apply H1; reflexivity|apply (H3 eq_refl completed); reflexivity].
Defined.

End CondVar.
