(* ===== verification/SharedMutex.v ===== *)
(** * The coroutine read-write lock of [src/include/elio/sync/shared_mutex.hpp]

    Readers and writers take the lock by exchanging the packed word [state_] without the internal mutex, or queue under it.
    Each [Definition] is one atomic section; a retry loop of exchanges is the exchange that succeeds, and what a call does
    after its last access to its awaiter (the slow path of [unlock_shared], [wake_additional_readers], passing a wake state
    to the scheduler) is a task of its own, so that it interleaves with everything else.  The exchange of
    [finish_writer_removal_locked] comes after the load it relies on, with the lock-free operations of other
    threads in between, as in the code.

    Proved for every interleaving: as long as no assertion failed, readers and writers exclude each other and nobody
    who waits is forgotten.  The assertion of [finish_writer_removal_locked] can fail, and in a build without
    assertions a reader and a writer then own the lock together: [reader_and_writer_together]. *)

From Stdlib Require Import ZifyBool.
From S2P Require Import Prelude WakeState Waiters.

Module Shared.
Export Waiters.
Import Wake.

(** ** The word *)

Definition WRITER_ACTIVE : Z := 2 ^ 62.
Definition WRITER_WAITING : Z := 2 ^ 63.
Definition READER_MASK : Z := 2 ^ 62 - 1.
Definition WRITER_FLAGS : Z := Z.lor WRITER_ACTIVE WRITER_WAITING.

Definition readers (state : Z) : Z := Z.land state READER_MASK.
Definition has (mask state : Z) : bool := negb (Z.land state mask =? 0).
Definition saturated (state : Z) : bool := readers state =? READER_MASK.

(** ** Data *)

Inductive kind := Reader | Writer.

#[global] Instance kind_EqDecision : EqDecision kind.
Proof. solve_decision. Defined.

(** Where the coroutine is in [co_await m.lock_shared(...)] or [co_await m.lock(...)]. *)
Inductive pc :=
  | Ready         (* about to call await_ready *)
  | ReadyChecked  (* await_ready, cancellable: was_cancelled() was false *)
  | Owner         (* cancellable: owns the lock, the wake state is not claimed yet *)
  | GiveBack      (* the claim was rejected; about to release the lock *)
  | Suspend       (* await_ready returned false; about to call await_suspend *)
  | SuspendBlock  (* await_suspend, cancellable: was_cancelled() was false *)
  | Fast          (* await_suspend of a reader: about to try without the internal mutex *)
  | Slow          (* await_suspend: about to take the internal mutex *)
  | Decide        (* holds the internal mutex, about to look at the word *)
  | LockedOwner   (* holds the internal mutex, cancellable: owns the lock, the wake state is not claimed yet *)
  | Announce      (* a writer that holds the internal mutex, about to set WRITER_WAITING *)
  | Recheck       (* a writer that holds the internal mutex and has set WRITER_WAITING *)
  | Published     (* holds the internal mutex, cancellable: queued, still blocked *)
  | Suspended     (* await_suspend returned true *)
  | Resumable     (* continues without suspending; about to call await_resume *)
  | Done (r : cancel_result)
  | Released      (* the lock was released after the await *)
  | Destroying    (* destroyed with a grant it did not use; about to release the lock *)
  | Destroyed.

#[global] Instance pc_EqDecision : EqDecision pc.
Proof. solve_decision. Defined.

(** A [lock_shared_waiter] or a [lock_waiter]; [wake] is [None] while [wake_state_] is null.  [scheduled] records that the coroutine
    was handed to the scheduler; [got] is a ghost flag, true while this await owns the lock. *)
Record waiter := Waiter {
  kind_of : kind;
  cancellable : bool;
  at_pc : pc;
  wake : option wstate;
  suspended : bool;
  resumed : bool;
  grant_pending : bool;
  scheduled : bool;
  got : bool;
}.

(** What the thread that holds the internal mutex is doing between two steps: [await_suspend] of an awaiter; the slow path of
    [unlock_shared] before it stores the word of the writer it claimed; [finish_writer_removal_locked] before its
    exchange, with the reader it claimed; [wake_additional_readers] with a slot reserved. *)
Inductive critical := ByWaiter (w : id) | Handing (w : id) | Finishing (reader : option id) | Waking.

(** [slow]: threads in [unlock_shared] that have decremented the word and will take the internal mutex; [more]: threads
    about to take it in [wake_additional_readers].  [shared_tries] and [exclusive_tries] are the ghost numbers of callers that own the lock
    through [try_lock_shared] and [try_lock]; [overflow] records that a reader was queued, or left in
    the queue, because the reader count was full. *)
Record shared_mutex := SharedState {
  state_ : Z;
  pending_writers_ : Z;
  reader_waiters_ : list id;
  writer_waiters_ : list id;
  holder : option critical;
  objs : gmap id waiter;
  to_schedule : list id;
  to_cancel : list id;
  slow : nat;
  more : nat;
  shared_tries : Z;
  exclusive_tries : Z;
  asserts_ok : bool;
  overflow : bool;
}.

Definition no_waiter : waiter := Waiter Reader false Destroyed None false false false false false.
#[global] Instance waiter_inhabited : Inhabited waiter := populate no_waiter.

(** ** Field updates *)

Definition with_pc (p : pc) (x : waiter) : waiter :=
  Waiter (kind_of x) (cancellable x) p (wake x) (suspended x) (resumed x) (grant_pending x) (scheduled x) (got x).
Definition with_wake (s : wstate) (x : waiter) : waiter :=
  Waiter (kind_of x) (cancellable x) (at_pc x) (Some s) (suspended x) (resumed x) (grant_pending x) (scheduled x) (got x).
Definition with_suspended (b : bool) (x : waiter) : waiter :=
  Waiter (kind_of x) (cancellable x) (at_pc x) (wake x) b (resumed x) (grant_pending x) (scheduled x) (got x).
Definition with_grant (b : bool) (x : waiter) : waiter :=
  Waiter (kind_of x) (cancellable x) (at_pc x) (wake x) (suspended x) (resumed x) b (scheduled x) (got x).
Definition with_scheduled (x : waiter) : waiter :=
  Waiter (kind_of x) (cancellable x) (at_pc x) (wake x) (suspended x) (resumed x) (grant_pending x) true (got x).
Definition with_got (b : bool) (x : waiter) : waiter :=
  Waiter (kind_of x) (cancellable x) (at_pc x) (wake x) (suspended x) (resumed x) (grant_pending x) (scheduled x) b.

Section Updates.
Implicit Types s : shared_mutex.

Definition with_objs (m : gmap id waiter) s : shared_mutex :=
  SharedState (state_ s) (pending_writers_ s) (reader_waiters_ s) (writer_waiters_ s) (holder s) m (to_schedule s) (to_cancel s) (slow s) (more s)
    (shared_tries s) (exclusive_tries s) (asserts_ok s) (overflow s).
Definition upd (w : id) (f : waiter -> waiter) s : shared_mutex := with_objs (<[w := f (objs s !!! w)]> (objs s)) s.
Definition with_state (v : Z) s : shared_mutex :=
  SharedState v (pending_writers_ s) (reader_waiters_ s) (writer_waiters_ s) (holder s) (objs s) (to_schedule s) (to_cancel s) (slow s) (more s)
    (shared_tries s) (exclusive_tries s) (asserts_ok s) (overflow s).
Definition with_readers (q : list id) s : shared_mutex :=
  SharedState (state_ s) (pending_writers_ s) q (writer_waiters_ s) (holder s) (objs s) (to_schedule s) (to_cancel s) (slow s) (more s)
    (shared_tries s) (exclusive_tries s) (asserts_ok s) (overflow s).
Definition with_writers (n : Z) (q : list id) s : shared_mutex :=
  SharedState (state_ s) n (reader_waiters_ s) q (holder s) (objs s) (to_schedule s) (to_cancel s) (slow s) (more s)
    (shared_tries s) (exclusive_tries s) (asserts_ok s) (overflow s).
Definition with_holder (h : option critical) s : shared_mutex :=
  SharedState (state_ s) (pending_writers_ s) (reader_waiters_ s) (writer_waiters_ s) h (objs s) (to_schedule s) (to_cancel s) (slow s) (more s)
    (shared_tries s) (exclusive_tries s) (asserts_ok s) (overflow s).
Definition with_to_schedule (l : list id) s : shared_mutex :=
  SharedState (state_ s) (pending_writers_ s) (reader_waiters_ s) (writer_waiters_ s) (holder s) (objs s) l (to_cancel s) (slow s) (more s)
    (shared_tries s) (exclusive_tries s) (asserts_ok s) (overflow s).
Definition with_to_cancel (l : list id) s : shared_mutex :=
  SharedState (state_ s) (pending_writers_ s) (reader_waiters_ s) (writer_waiters_ s) (holder s) (objs s) (to_schedule s) l (slow s) (more s)
    (shared_tries s) (exclusive_tries s) (asserts_ok s) (overflow s).
Definition with_tasks (n m : nat) s : shared_mutex :=
  SharedState (state_ s) (pending_writers_ s) (reader_waiters_ s) (writer_waiters_ s) (holder s) (objs s) (to_schedule s) (to_cancel s) n m
    (shared_tries s) (exclusive_tries s) (asserts_ok s) (overflow s).
Definition add_tries (n m : Z) s : shared_mutex :=
  SharedState (state_ s) (pending_writers_ s) (reader_waiters_ s) (writer_waiters_ s) (holder s) (objs s) (to_schedule s) (to_cancel s) (slow s) (more s)
    (shared_tries s + n) (exclusive_tries s + m) (asserts_ok s) (overflow s).
Definition check (b : bool) s : shared_mutex :=
  SharedState (state_ s) (pending_writers_ s) (reader_waiters_ s) (writer_waiters_ s) (holder s) (objs s) (to_schedule s) (to_cancel s) (slow s) (more s)
    (shared_tries s) (exclusive_tries s) (asserts_ok s && b) (overflow s).
Definition note_overflow (b : bool) s : shared_mutex :=
  SharedState (state_ s) (pending_writers_ s) (reader_waiters_ s) (writer_waiters_ s) (holder s) (objs s) (to_schedule s) (to_cancel s) (slow s) (more s)
    (shared_tries s) (exclusive_tries s) (asserts_ok s) (overflow s || b).
End Updates.

(** [this->is_linked()], and [remove(this)] of its queue. *)
Definition linked (w : id) (s : shared_mutex) : bool := bool_decide (w ∈ reader_waiters_ s ++ writer_waiters_ s).
Definition unlink_reader (w : id) (s : shared_mutex) : shared_mutex := with_readers (filter (.≠ w) (reader_waiters_ s)) s.
Definition unlink_writer (w : id) (s : shared_mutex) : shared_mutex :=
  with_writers (u64 (pending_writers_ s - 1)) (filter (.≠ w) (writer_waiters_ s)) (check (0 <? pending_writers_ s) s).

Definition wake_of (x : waiter) : wstate := default idle (wake x).

Definition init : shared_mutex := SharedState 0 0 [] [] None ∅ [] [] 0 0 0 0 true false.

(** ** Acquiring without waiting *)

(** The loop of exchanges: it succeeds in a state without writers, or fails in the state it last saw. *)
Definition try_lock_shared (s : shared_mutex) : shared_mutex * bool :=
  if has WRITER_FLAGS (state_ s) then (s, false)
  else if saturated (state_ s) then (s, false)
  else (with_state (u64 (state_ s + 1)) s, true).

(** [state_.compare_exchange_strong(expected, desired)]. *)
Definition exchange (expected desired : Z) (s : shared_mutex) : shared_mutex * bool :=
  if decide (state_ s = expected) then (with_state desired s, true) else (s, false).

Definition try_lock (s : shared_mutex) : shared_mutex * bool := exchange 0 WRITER_ACTIVE s.

Definition reader_count (s : shared_mutex) : Z := readers (state_ s).
Definition is_writer_active (s : shared_mutex) : bool := has WRITER_ACTIVE (state_ s).

(** ** Claiming waiters, under the internal mutex *)

Definition grant (w : id) (s : shared_mutex) : shared_mutex := upd w (fun x => with_got true (with_grant true x)) s.

(** Pop the waiters of [q] until one accepts; [drop] removes the popped one from its queue. *)
Fixpoint claim_loop (drop : list id -> shared_mutex -> shared_mutex) (q : list id) (s : shared_mutex) : option id * shared_mutex :=
  match q with
  | [] => (None, s)
  | w :: q =>
      let s := drop q s in
      let x := objs s !!! w in
      if cancellable x then
        let (st, action) := claim_notification (wake_of x) in
        let s := upd w (with_wake st) s in
        if decide (action = rejected) then claim_loop drop q s else (Some w, grant w s)
      else (Some w, grant w s)
  end.

Definition claim_reader_locked (s : shared_mutex) : option id * shared_mutex := claim_loop with_readers (reader_waiters_ s) s.

Definition drop_writer (q : list id) (s : shared_mutex) : shared_mutex :=
  with_writers (u64 (pending_writers_ s - 1)) q (check (0 <? pending_writers_ s) s).

Definition claim_writer_locked (s : shared_mutex) : option id * shared_mutex := claim_loop drop_writer (writer_waiters_ s) s.

(** The word of a writer that takes over. *)
Definition writer_word (s : shared_mutex) : Z := if 0 <? pending_writers_ s then Z.lor WRITER_ACTIVE WRITER_WAITING else WRITER_ACTIVE.

Definition send (w : id) (s : shared_mutex) : shared_mutex := with_to_schedule (w :: to_schedule s) s.
Definition wake_more (s : shared_mutex) : shared_mutex :=
  if decide (reader_waiters_ s = []) then s else with_tasks (slow s) (S (more s)) s.

(** [finish_writer_removal_locked] up to its exchange. *)
Definition finish_writer_removal_locked (s : shared_mutex) : shared_mutex :=
  if negb (pending_writers_ s =? 0) then with_holder None s
  else if has WRITER_ACTIVE (state_ s) then with_holder None (with_state (Z.land (state_ s) (Z.ones 63)) s)
  else let (r, s) := claim_reader_locked s in with_holder (Some (Finishing r)) s.

(** Its exchange, with the assertions on the word that is exchanged, and what follows. *)
Definition finish_exchange (r : option id) (s : shared_mutex) : shared_mutex :=
  let reader_grant := match r with Some _ => 1 | None => 0 end in
  let s := check ((readers (state_ s) <=? READER_MASK - reader_grant) && negb (has WRITER_ACTIVE (state_ s))) s in
  let s := with_holder None (with_state (u64 (Z.land (state_ s) (Z.ones 63) + reader_grant)) s) in
  match r with Some w => wake_more (send w s) | None => s end.

(** One round of [wake_additional_readers]: reserve a slot, then claim a reader for it. *)
Definition wake_reserve (s : shared_mutex) : shared_mutex :=
  let leave := with_tasks (slow s) (pred (more s)) s in
  if negb (pending_writers_ s =? 0) || bool_decide (reader_waiters_ s = []) then leave
  else if has WRITER_FLAGS (state_ s) || saturated (state_ s) then note_overflow (negb (has WRITER_FLAGS (state_ s))) leave
  else with_holder (Some Waking) (with_state (u64 (state_ s + 1)) s).

Definition wake_claim (s : shared_mutex) : shared_mutex :=
  let (r, s) := claim_reader_locked s in
  match r with
  | Some w => with_holder None (send w s)
  | None => with_holder None (with_tasks (slow s) (pred (more s)) (with_state (u64 (state_ s - 1)) s))
  end.

(** ** Releasing *)

(** The decrement, and whether the slow path follows. *)
Definition unlock_shared (s : shared_mutex) : shared_mutex :=
  let prev := state_ s in
  let s := with_state (u64 (prev - 1)) s in
  if negb (readers prev =? 1) || negb (has WRITER_WAITING prev) then s else with_tasks (S (slow s)) (more s) s.

(** The slow path of [unlock_shared]; the store of the word of the writer is a step of its own. *)
Definition unlock_shared_slow (s : shared_mutex) : shared_mutex :=
  let s := with_tasks (pred (slow s)) (more s) s in
  if Z.land (state_ s) (Z.lor READER_MASK WRITER_ACTIVE) =? 0 then
    let (r, s) := claim_writer_locked s in
    match r with Some w => with_holder (Some (Handing w)) s | None => finish_writer_removal_locked s end
  else s.

Definition hand_over (w : id) (s : shared_mutex) : shared_mutex := with_holder None (send w (with_state (writer_word s) s)).

Definition unlock (s : shared_mutex) : shared_mutex :=
  let (r, s) := claim_writer_locked s in
  match r with
  | Some w => send w (with_state (writer_word s) s)
  | None =>
      let (r, s) := claim_reader_locked s in
      match r with
      | Some w => wake_more (send w (with_state 1 s))
      | None => with_state 0 s
      end
  end.

Definition release (k : kind) (s : shared_mutex) : shared_mutex := match k with Reader => unlock_shared s | Writer => unlock s end.

(** ** The awaiters *)

Definition construct (w : id) (k : kind) (is_cancellable : bool) (s : shared_mutex) : shared_mutex :=
  upd w (fun _ => Waiter k is_cancellable Ready (if is_cancellable then Some idle else None) false false false false false) s.

(** Where an awaiter goes that has just taken the lock: a cancellable one still has to claim its wake state. *)
Definition acquired (w : id) (p : pc) (s : shared_mutex) : shared_mutex :=
  upd w (fun x => with_got true (with_pc (if cancellable x then p else Resumable) x)) s.

Definition await_ready_check (w : id) (s : shared_mutex) : shared_mutex :=
  upd w (with_pc (if was_cancelled (wake_of (objs s !!! w)) then Resumable else ReadyChecked)) s.

Definition await_ready_try (w : id) (s : shared_mutex) : shared_mutex :=
  let (s, ok) := match kind_of (objs s !!! w) with Reader => try_lock_shared s | Writer => try_lock s end in
  if ok then acquired w Owner s else upd w (with_pc Suspend) s.

(** The claim of an owner, holding the internal mutex or not. *)
Definition owner_claim (w : id) (s : shared_mutex) : shared_mutex :=
  let (st, action) := claim_notification (wake_of (objs s !!! w)) in
  upd w (fun x => with_pc (if decide (action = rejected) then GiveBack else Resumable) (with_wake st x)) s.

Definition give_back (w : id) (s : shared_mutex) : shared_mutex :=
  release (kind_of (objs s !!! w)) (upd w (fun x => with_got false (with_pc Resumable x)) s).

Definition await_suspend_check (w : id) (s : shared_mutex) : shared_mutex :=
  upd w (with_pc (if was_cancelled (wake_of (objs s !!! w)) then Resumable else SuspendBlock)) s.

Definition after_block (x : waiter) : pc := match kind_of x with Reader => Fast | Writer => Slow end.

Definition await_suspend_block (w : id) (s : shared_mutex) : shared_mutex :=
  let (st, ok) := set_handle_blocked (wake_of (objs s !!! w)) in
  upd w (fun x => with_pc (if ok then after_block x else Resumable) (with_wake st x)) s.

(** A plain wait goes on at once; [None]: no wake state is allocated yet. *)
Definition await_suspend_plain (w : id) (s : shared_mutex) : shared_mutex := upd w (fun x => with_pc (after_block x) x) s.

Definition await_suspend_fast (w : id) (s : shared_mutex) : shared_mutex :=
  let (s, ok) := try_lock_shared s in
  if ok then acquired w Owner s else upd w (with_pc Slow) s.

(** [make_wake_state] throws [std::bad_alloc]. *)
Definition await_suspend_throws (w : id) (s : shared_mutex) : shared_mutex := upd w (with_pc Destroyed) s.

(** Take the internal mutex, after the allocation of a plain wait. *)
Definition await_suspend_lock (w : id) (s : shared_mutex) : shared_mutex :=
  let x := objs s !!! w in
  if cancellable x && was_cancelled (wake_of x) then upd w (with_pc Resumable) s
  else upd w (fun x => with_pc Decide (with_wake (wake_of x) x)) (with_holder (Some (ByWaiter w)) s).

(** Queue the awaiter: a plain one is suspended, a cancellable one is still blocked. *)
Definition publish (w : id) (s : shared_mutex) : shared_mutex :=
  if cancellable (objs s !!! w) then upd w (fun x => with_pc Published (with_suspended true x)) s
  else with_holder None (upd w (fun x => with_pc Suspended (with_suspended true (with_wake (set_handle (wake_of x)) x))) s).

(** After an exchange under the internal mutex succeeded; a plain await returns. *)
Definition acquired_locked (w : id) (s : shared_mutex) : shared_mutex :=
  let s := acquired w LockedOwner s in if cancellable (objs s !!! w) then s else with_holder None s.

(** The locked part of a reader's [await_suspend]: [retry] when the exchange lost to another reader. *)
Definition reader_decide (retry : bool) (w : id) (s : shared_mutex) : shared_mutex :=
  if has WRITER_FLAGS (state_ s) || saturated (state_ s) then
    publish w (note_overflow (negb (has WRITER_FLAGS (state_ s))) (with_readers (reader_waiters_ s ++ [w]) s))
  else if retry then with_holder None (upd w (with_pc Fast) s)
  else acquired_locked w (with_state (u64 (state_ s + 1)) s).

(** The locked part of a writer's [await_suspend], one access to the word per step. *)
Definition writer_decide (w : id) (s : shared_mutex) : shared_mutex :=
  let (s, ok) := exchange 0 WRITER_ACTIVE s in
  if ok then acquired_locked w s else upd w (with_pc Announce) s.

Definition writer_announce (w : id) (s : shared_mutex) : shared_mutex :=
  upd w (with_pc Recheck) (with_state (Z.lor (state_ s) WRITER_WAITING) s).

Definition writer_recheck (w : id) (s : shared_mutex) : shared_mutex :=
  let (s, ok) := exchange WRITER_WAITING (writer_word s) s in
  if ok then acquired_locked w s
  else publish w (with_writers (u64 (pending_writers_ s + 1)) (writer_waiters_ s ++ [w]) s).

(** The claim of an owner that holds the internal mutex, which it leaves. *)
Definition locked_claim (w : id) (s : shared_mutex) : shared_mutex := with_holder None (owner_claim w s).

(** Leave the queue; the last writer to go clears the preference for writers. *)
Definition depart (w : id) (s : shared_mutex) : shared_mutex :=
  match kind_of (objs s !!! w) with
  | Reader => with_holder None (unlink_reader w s)
  | Writer => finish_writer_removal_locked (unlink_writer w s)
  end.

Definition await_suspend_unblock (w : id) (s : shared_mutex) : shared_mutex :=
  let (st, ok) := unblock_after_publish (wake_of (objs s !!! w)) in
  let s := upd w (with_wake st) s in
  if ok then with_holder None (upd w (with_pc Suspended) s)
  else depart w (upd w (fun x => with_pc Resumable (with_suspended false x)) s).

Definition await_resume (w : id) (s : shared_mutex) : shared_mutex :=
  let x := objs s !!! w in
  if cancellable x && was_cancelled (wake_of x) then
    let was_linked := suspended x && linked w s in
    let s := upd w (fun x => with_pc (Done cancelled) (with_suspended false x)) s in
    if was_linked then depart w s else s
  else
    upd w (fun x => Waiter (kind_of x) (cancellable x) (Done completed) (wake x) false true false (scheduled x) (got x)) s.

(** The destructor of an awaiter whose frame is destroyed while it is suspended. *)
Definition destroy (w : id) (s : shared_mutex) : shared_mutex :=
  let x := objs s !!! w in
  let s := upd w (fun x => with_wake (abandon (wake_of x)) x) s in
  if linked w s then depart w (upd w (with_pc Destroyed) s)
  else if grant_pending x && negb (resumed x) then upd w (fun x => with_pc Destroying (with_grant false x)) s
  else upd w (with_pc Destroyed) s.

Definition destroy_release (w : id) (s : shared_mutex) : shared_mutex :=
  release (kind_of (objs s !!! w)) (upd w (fun x => with_got false (with_pc Destroyed x)) s).

(** The owner's [unlock_shared()] or [unlock()]. *)
Definition unlock_owner (w : id) (s : shared_mutex) : shared_mutex :=
  release (kind_of (objs s !!! w)) (upd w (fun x => with_got false (with_pc Released x)) s).

(** ** Notifiers and cancellation callbacks *)

Definition schedule_one (w : id) (s : shared_mutex) : shared_mutex :=
  let (st, ok) := schedule_selected (wake_of (objs s !!! w)) in
  let s := with_to_schedule (remove_one w (to_schedule s)) s in
  upd w (fun x => let x := with_wake st x in if ok then with_scheduled x else x) s.

Definition cancel_first (w : id) (s : shared_mutex) : shared_mutex :=
  let (st, r) := request_cancel_cas (wake_of (objs s !!! w)) in
  let s := upd w (with_wake st) s in
  if r.2 then with_to_cancel (w :: to_cancel s) s else s.

Definition cancel_second (w : id) (s : shared_mutex) : shared_mutex :=
  let (st, ok) := schedule_claimed (wake_of (objs s !!! w)) in
  let s := with_to_cancel (remove_one w (to_cancel s)) s in
  upd w (fun x => let x := with_wake st x in if ok then with_scheduled x else x) s.

(** ** Interleavings *)

Definition is_at (w : id) (p : pc) (s : shared_mutex) (x : waiter) : Prop := objs s !! w = Some x /\ at_pc x = p.

(** Releasing needs the internal mutex when it is [unlock].  (In [step_writer_recheck]: the waiters are distinct objects in memory, so
    that [size_t] can count them.) *)
Definition can_release (x : waiter) (s : shared_mutex) : Prop := kind_of x = Writer -> holder s = None.

Inductive step : shared_mutex -> shared_mutex -> Prop :=
| step_construct w k c s : objs s !! w = None -> step s (construct w k c s)
| step_ready_check w x s : is_at w Ready s x -> cancellable x = true -> step s (await_ready_check w s)
| step_ready_try w x s : is_at w (if cancellable x then ReadyChecked else Ready) s x -> step s (await_ready_try w s)
| step_owner_claim w x s : is_at w Owner s x -> step s (owner_claim w s)
| step_give_back w x s : is_at w GiveBack s x -> can_release x s -> step s (give_back w s)
| step_suspend_check w x s : is_at w Suspend s x -> cancellable x = true -> step s (await_suspend_check w s)
| step_suspend_block w x s : is_at w SuspendBlock s x -> step s (await_suspend_block w s)
| step_suspend_plain w x s : is_at w Suspend s x -> cancellable x = false -> step s (await_suspend_plain w s)
| step_suspend_fast w x s : is_at w Fast s x -> step s (await_suspend_fast w s)
| step_suspend_throws w x s : is_at w Slow s x -> wake x = None -> step s (await_suspend_throws w s)
| step_suspend_lock w x s : is_at w Slow s x -> holder s = None -> step s (await_suspend_lock w s)
| step_reader_decide retry w x s : is_at w Decide s x -> kind_of x = Reader -> step s (reader_decide retry w s)
| step_writer_decide w x s : is_at w Decide s x -> kind_of x = Writer -> step s (writer_decide w s)
| step_writer_announce w x s : is_at w Announce s x -> step s (writer_announce w s)
| step_writer_recheck w x s : is_at w Recheck s x -> Z.of_nat (length (writer_waiters_ s)) < SIZE_MAX -> step s (writer_recheck w s)
| step_locked_claim w x s : is_at w LockedOwner s x -> step s (locked_claim w s)
| step_unblock w x s : is_at w Published s x -> step s (await_suspend_unblock w s)
| step_resume_inline w x s : is_at w Resumable s x -> step s (await_resume w s)
| step_resume w x s : is_at w Suspended s x -> scheduled x = true ->
    (cancellable x = true -> was_cancelled (wake_of x) = true -> holder s = None) -> step s (await_resume w s)
| step_destroy w x s : is_at w Suspended s x -> holder s = None -> step s (destroy w s)
| step_destroy_release w x s : is_at w Destroying s x -> can_release x s -> step s (destroy_release w s)
| step_unlock w x s : is_at w (Done completed) s x -> can_release x s -> step s (unlock_owner w s)
| step_try_lock_shared s : step s (let (s', ok) := try_lock_shared s in if ok then add_tries 1 0 s' else s')
| step_try_lock s : step s (let (s', ok) := try_lock s in if ok then add_tries 0 1 s' else s')
| step_unlock_shared_tried s : 0 < shared_tries s -> step s (unlock_shared (add_tries (-1) 0 s))
| step_unlock_tried s : 0 < exclusive_tries s -> holder s = None -> step s (unlock (add_tries 0 (-1) s))
| step_slow s : (0 < slow s)%nat -> holder s = None -> step s (unlock_shared_slow s)
| step_hand_over w s : holder s = Some (Handing w) -> step s (hand_over w s)
| step_finish r s : holder s = Some (Finishing r) -> step s (finish_exchange r s)
| step_more s : (0 < more s)%nat -> holder s = None -> step s (wake_reserve s)
| step_more_claim s : holder s = Some Waking -> step s (wake_claim s)
| step_schedule w s : w ∈ to_schedule s -> step s (schedule_one w s)
| step_cancel_first w x s : objs s !! w = Some x -> cancellable x = true -> step s (cancel_first w s)
| step_cancel_second w s : w ∈ to_cancel s -> step s (cancel_second w s).

(** ** The word, taken apart *)

Definition pack (w a : bool) (r : Z) : Z := (if w then WRITER_WAITING else 0) + (if a then WRITER_ACTIVE else 0) + r.

Section Word.
Context (w a : bool) (r : Z) (Hr : 0 <= r <= READER_MASK).

Lemma pack_range : 0 <= pack w a r < 2 ^ 64.
Proof. unfold pack, WRITER_WAITING, WRITER_ACTIVE, READER_MASK in *. destruct w, a; lia. Qed.

Lemma pack_readers : readers (pack w a r) = r.
Proof.
  unfold readers, READER_MASK in *. change (2 ^ 62 - 1) with (Z.ones 62). rewrite Z.land_ones by lia. unfold pack, WRITER_WAITING, WRITER_ACTIVE.
  change (2 ^ 63) with (2 * 2 ^ 62). symmetry. destruct w, a; [apply (Z.mod_unique _ _ 3)|apply (Z.mod_unique _ _ 2)|apply (Z.mod_unique _ _ 1)|apply (Z.mod_unique _ _ 0)]; lia.
Qed.

Lemma pack_bit62 : Z.testbit (pack w a r) 62 = a.
Proof.
  rewrite Z.testbit_odd, Z.shiftr_div_pow2 by lia. unfold pack, WRITER_WAITING, WRITER_ACTIVE, READER_MASK in *. change (2 ^ 63) with (2 * 2 ^ 62) in *.
  destruct w, a; [rewrite <-(Z.div_unique _ _ 3 r)|rewrite <-(Z.div_unique _ _ 2 r)|rewrite <-(Z.div_unique _ _ 1 r)|rewrite <-(Z.div_unique _ _ 0 r)]; by (done || lia).
Qed.

Lemma pack_bit63 : Z.testbit (pack w a r) 63 = w.
Proof.
  rewrite Z.testbit_odd, Z.shiftr_div_pow2 by lia. unfold pack, WRITER_WAITING, WRITER_ACTIVE, READER_MASK in *.
  destruct w; [rewrite <-(Z.div_unique _ _ 1 ((if a then 2 ^ 62 else 0) + r))|rewrite <-(Z.div_unique _ _ 0 ((if a then 2 ^ 62 else 0) + r))]; by (done || (destruct a; lia)).
Qed.

Lemma land_bit x n : 0 <= n -> (Z.land x (2 ^ n) =? 0) = negb (Z.testbit x n).
Proof.
  intros Hn. destruct (Z.testbit x n) eqn:E; cbn [negb].
  - apply Z.eqb_neq. intros H. assert (Z.testbit (Z.land x (2 ^ n)) n = false) as Hf by (rewrite H; apply Z.bits_0).
    by rewrite Z.land_spec, E, Z.pow2_bits_true in Hf by lia.
  - apply Z.eqb_eq, Z.bits_inj'. intros i Hi. rewrite Z.land_spec, Z.bits_0, Z.pow2_bits_eqb by lia. destruct (Z.eqb_spec n i) as [->|]; [by rewrite E|by rewrite andb_false_r].
Qed.

Lemma pack_active : has WRITER_ACTIVE (pack w a r) = a.
Proof. unfold has, WRITER_ACTIVE. rewrite land_bit, negb_involutive by lia. apply pack_bit62. Qed.

Lemma pack_waiting : has WRITER_WAITING (pack w a r) = w.
Proof. unfold has, WRITER_WAITING. rewrite land_bit, negb_involutive by lia. apply pack_bit63. Qed.

Lemma pack_flags : has WRITER_FLAGS (pack w a r) = w || a.
Proof.
  unfold has, WRITER_FLAGS. rewrite Z.land_lor_distr_r.
  assert ((Z.lor (Z.land (pack w a r) WRITER_ACTIVE) (Z.land (pack w a r) WRITER_WAITING) =? 0) =
          (Z.land (pack w a r) WRITER_ACTIVE =? 0) && (Z.land (pack w a r) WRITER_WAITING =? 0)) as ->.
  { destruct (Z.eqb_spec (Z.lor (Z.land (pack w a r) WRITER_ACTIVE) (Z.land (pack w a r) WRITER_WAITING)) 0) as [E|E].
    - apply Z.lor_eq_0_iff in E as [-> ->]. done.
    - symmetry. apply andb_false_iff. destruct (Z.eqb_spec (Z.land (pack w a r) WRITER_ACTIVE) 0) as [E1|]; [right|by left].
      apply Z.eqb_neq. intros E2. by rewrite E1, E2 in E. }
  rewrite negb_andb. fold (has WRITER_ACTIVE (pack w a r)) (has WRITER_WAITING (pack w a r)). rewrite pack_active, pack_waiting. apply orb_comm.
Qed.

Lemma pack_saturated : saturated (pack w a r) = (r =? READER_MASK).
Proof. unfold saturated. by rewrite pack_readers. Qed.

Lemma pack_announce : Z.lor (pack w a r) WRITER_WAITING = pack true a r.
Proof.
  pose proof pack_bit63 as Hb. destruct w.
  - apply Z.bits_inj'. intros i Hi. rewrite Z.lor_spec. unfold WRITER_WAITING. rewrite Z.pow2_bits_eqb by lia. destruct (Z.eqb_spec 63 i) as [<-|]; [by rewrite Hb|].
    by rewrite orb_false_r.
  - assert (Z.land (pack false a r) WRITER_WAITING = 0) as Hd by (apply Z.eqb_eq; unfold WRITER_WAITING; rewrite land_bit, Hb by lia; done).
    rewrite <-Z.lxor_lor, <-Z.add_nocarry_lxor by done. unfold pack. lia.
Qed.

Lemma pack_clear : Z.land (pack w a r) (Z.ones 63) = pack false a r.
Proof.
  rewrite Z.land_ones by lia. symmetry. unfold pack, WRITER_WAITING, WRITER_ACTIVE, READER_MASK in *.
  destruct w; [apply (Z.mod_unique _ _ 1)|apply (Z.mod_unique _ _ 0)]; destruct a; lia.
Qed.

Lemma pack_more : r < READER_MASK -> u64 (pack w a r + 1) = pack w a (r + 1).
Proof. intros H. rewrite u64_small; [unfold pack; lia|]. pose proof pack_range. unfold pack, WRITER_WAITING, WRITER_ACTIVE, READER_MASK in *. destruct w, a; lia. Qed.

Lemma pack_less : 0 < r -> u64 (pack w a r - 1) = pack w a (r - 1).
Proof. intros H. pose proof pack_range. rewrite u64_small; [unfold pack; lia|]. unfold pack, WRITER_WAITING, WRITER_ACTIVE, READER_MASK in *. destruct w, a; lia. Qed.

Lemma pack_free : pack w a r = 0 <-> w = false /\ a = false /\ r = 0.
Proof. unfold pack, WRITER_WAITING, WRITER_ACTIVE. destruct w, a; split; intros; try lia; split_and!; done || lia. Qed.

Lemma pack_only_waiting : pack w a r = WRITER_WAITING <-> w = true /\ a = false /\ r = 0.
Proof. unfold pack, WRITER_WAITING, WRITER_ACTIVE, READER_MASK in *. destruct w, a; split; intros; try lia; split_and!; done || lia. Qed.

Lemma pack_unowned : (Z.land (pack w a r) (Z.lor READER_MASK WRITER_ACTIVE) =? 0) = negb a && (r =? 0).
Proof.
  rewrite Z.land_lor_distr_r. fold (readers (pack w a r)). rewrite pack_readers. pose proof pack_active as Ha. unfold has in Ha.
  destruct (Z.eqb_spec (Z.lor r (Z.land (pack w a r) WRITER_ACTIVE)) 0) as [E|E].
  - apply Z.lor_eq_0_iff in E as [-> E]. rewrite E in Ha. by destruct a.
  - destruct a; [done|]. cbn. symmetry. apply Z.eqb_neq. intros ->. destruct (Z.eqb_spec (Z.land (pack w false 0) WRITER_ACTIVE) 0) as [E2|]; [by rewrite E2 in E|done].
Qed.
End Word.

(** ** The configurations an awaiter can be in *)

Inductive wshape : waiter -> bool -> bool -> bool -> bool -> Prop :=
| sh_plain k p wk : p = Ready \/ p = Suspend \/ (k = Reader /\ p = Fast) \/ p = Slow -> wk = None \/ wk = Some idle ->
    wshape (Waiter k false p wk false false false false false) false false false false
| sh_fresh k p st : p = Ready \/ p = ReadyChecked \/ p = Suspend \/ p = SuspendBlock -> st = idle \/ st = cancelled_inline ->
    wshape (Waiter k true p (Some st) false false false false false) false false false false
| sh_blocked k p st : (k = Reader /\ p = Fast) \/ p = Slow -> st = blocked \/ st = cancelled_inline ->
    wshape (Waiter k true p (Some st) false false false false false) false false false false
| sh_owner k st : st = idle \/ st = blocked \/ st = cancelled_inline ->
    wshape (Waiter k true Owner (Some st) false false false false true) false false false false
| sh_give_back k :
    wshape (Waiter k true GiveBack (Some cancelled_inline) false false false false true) false false false false
| sh_locked k c p st : p = Decide \/ (k = Writer /\ (p = Announce \/ p = Recheck)) ->
    (c = false /\ st = idle) \/ (c = true /\ (st = blocked \/ st = cancelled_inline)) ->
    wshape (Waiter k c p (Some st) false false false false false) false false false true
| sh_locked_owner k st : st = blocked \/ st = cancelled_inline ->
    wshape (Waiter k true LockedOwner (Some st) false false false false true) false false false true
| sh_published k st : st = blocked \/ st = cancelled_inline ->
    wshape (Waiter k true Published (Some st) true false false false false) true false false true
| sh_queued k c :
    wshape (Waiter k c Suspended (Some waiting) true false false false false) true false false false
| sh_granted k c st : (c = false /\ st = waiting) \/ (c = true /\ st = notification_claimed) ->
    wshape (Waiter k c Suspended (Some st) true false true false true) false true false false
| sh_notified k c :
    wshape (Waiter k c Suspended (Some notification_scheduling) true false true true true) false false false false
| sh_cancelling k q :
    wshape (Waiter k true Suspended (Some cancellation_claimed) true false false false false) q false true false
| sh_cancelled k q :
    wshape (Waiter k true Suspended (Some cancellation_scheduling) true false false true false) q false false false
| sh_inline_plain k wk : wk = None \/ wk = Some idle ->
    wshape (Waiter k false Resumable wk false false false false true) false false false false
| sh_inline_notified k :
    wshape (Waiter k true Resumable (Some notified_inline) false false false false true) false false false false
| sh_inline_cancelled k :
    wshape (Waiter k true Resumable (Some cancelled_inline) false false false false false) false false false false
| sh_completed k c p wk sc g :
    (p = Done completed /\ g = true) \/ (p = Released /\ g = false) ->
    (c = false /\ (wk = None \/ wk = Some idle)) \/ (c = true /\ wk = Some notified_inline)
      \/ wk = Some notification_scheduling ->
    wshape (Waiter k c p wk false true false sc g) false false false false
| sh_done_cancelled k st sc : st = cancelled_inline \/ st = cancellation_scheduling ->
    wshape (Waiter k true (Done cancelled) (Some st) false false false sc false) false false false false
| sh_thrown k :
    wshape (Waiter k false Destroyed None false false false false false) false false false false
| sh_abandoned k c p sc g s cn : (p = Destroyed /\ g = false) \/ (p = Destroying /\ g = true) ->
    wshape (Waiter k c p (Some abandoned) true false false sc g) false s cn false
| sh_destroyed k c p st sc g : (p = Destroyed /\ g = false) \/ (p = Destroying /\ g = true) ->
    st = notification_scheduling \/ st = cancellation_scheduling ->
    wshape (Waiter k c p (Some st) true false false sc g) false false false false.

Abbreviation linked_ok := (Waiters.linked_ok wshape).

(** The awaiter that holds the internal mutex, and the one that was claimed but not sent to the scheduler yet. *)
Definition locked_by (h : option critical) : option id := match h with Some (ByWaiter w) => Some w | _ => None end.
Definition in_flight (h : option critical) : list id :=
  match h with Some (Handing w) | Some (Finishing (Some w)) => [w] | _ => [] end.

Definition owners (k : kind) (m : gmap id waiter) : Z := count_if (fun x => got x && bool_decide (kind_of x = k)) m.

Definition one (b : bool) : Z := if b then 1 else 0.
Definition handing (h : option critical) : bool := match h with Some (Handing _) => true | _ => false end.
Definition finishing (h : option critical) : bool := match h with Some (Finishing (Some _)) => true | _ => false end.
Definition waking (h : option critical) : bool := match h with Some Waking => true | _ => false end.

(** The invariant on the word: [w], [a] and [r] are its fields, [nr] and [nw] the shared and exclusive owners. *)
Record word_ok (w a : bool) (r : Z) (state pending : Z) (rq wq : list id) (h : option critical) (nr nw : Z) (sl mo : nat) (ov : bool) : Prop := {
  wo_state : state = pack w a r;
  wo_range : 0 <= r <= READER_MASK;
  wo_readers : r + one (finishing h) = nr + one (waking h);
  wo_writers : one a + one (handing h) = nw;
  wo_exclusive : a = true -> r = 0;
  wo_pending : pending = Z.of_nat (length wq) /\ pending <= SIZE_MAX;
  wo_preference : wq <> [] -> w = true;
  wo_handing : handing h = true -> w = true /\ a = false /\ r = 0;
  wo_finishing : forall v, h = Some (Finishing v) -> wq = [] /\ (v = None -> rq = []);
  wo_waking : waking h = true -> w = false /\ a = false /\ wq = [] /\ 0 < r /\ (0 < mo)%nat;
  wo_writer_served : wq <> [] -> a = true \/ 0 < r \/ (0 < sl)%nat \/ handing h = true;
  wo_reader_served : rq <> [] -> w = true \/ a = true \/ (0 < mo)%nat \/ waking h = true \/ (exists v, h = Some (Finishing v)) \/ ov = true;
}.

Record good (s : shared_mutex) (w a : bool) (r : Z) : Prop := {
  gd_linked : linked_ok (reader_waiters_ s ++ writer_waiters_ s) (in_flight (holder s) ++ to_schedule s) (to_cancel s) (locked_by (holder s)) (objs s);
  gd_readers : forall v, v ∈ reader_waiters_ s -> kind_of (objs s !!! v) = Reader;
  gd_writers : forall v, v ∈ writer_waiters_ s -> kind_of (objs s !!! v) = Writer;
  gd_word : word_ok w a r (state_ s) (pending_writers_ s) (reader_waiters_ s) (writer_waiters_ s) (holder s)
              (owners Reader (objs s) + shared_tries s) (owners Writer (objs s) + exclusive_tries s) (slow s) (more s) (overflow s);
  gd_recheck : forall v x, objs s !! v = Some x -> at_pc x = Recheck -> w = true;
  gd_waiting : w = true -> writer_waiters_ s <> [] \/ (exists v x, objs s !! v = Some x /\ at_pc x = Recheck) \/ handing (holder s) = true
                 \/ (exists v, holder s = Some (Finishing v));
  gd_flight : forall v, v ∈ in_flight (holder s) ->
    exists x, objs s !! v = Some x /\ got x = true /\ at_pc x = Suspended /\ kind_of x = if handing (holder s) then Writer else Reader;
  gd_tries : 0 <= shared_tries s /\ 0 <= exclusive_tries s;
}.

(** ** Queues in two parts *)

Lemma elem_snoc_left (v w : id) q q' : v <> w -> v ∈ (q ++ [w]) ++ q' <-> v ∈ q ++ q'.
Proof. set_solver. Qed.
Lemma elem_snoc_left_self (w : id) q q' : w ∈ (q ++ [w]) ++ q'.
Proof. set_solver. Qed.
Lemma elem_snoc_right (v w : id) q q' : v <> w -> v ∈ q ++ q' ++ [w] <-> v ∈ q ++ q'.
Proof. set_solver. Qed.
Lemma elem_snoc_right_self (w : id) q q' : w ∈ q ++ q' ++ [w].
Proof. set_solver. Qed.
Lemma elem_filter_left (v w : id) (q q' : list id) : v <> w -> v ∈ filter (.≠ w) q ++ q' <-> v ∈ q ++ q'.
Proof. rewrite !elem_of_app, list_elem_of_filter. tauto. Qed.
Lemma elem_filter_right (v w : id) (q q' : list id) : v <> w -> v ∈ q ++ filter (.≠ w) q' <-> v ∈ q ++ q'.
Proof. rewrite !elem_of_app, list_elem_of_filter. tauto. Qed.
Lemma elem_filter_left_self (w : id) (q q' : list id) : NoDup (q ++ q') -> w ∈ q -> w ∉ filter (.≠ w) q ++ q'.
Proof. intros (_ & Hd & _)%NoDup_app Hw. rewrite elem_of_app, list_elem_of_filter. intros [[? _]|?]; [done|]. by eapply Hd. Qed.
Lemma elem_filter_right_self (w : id) (q q' : list id) : NoDup (q ++ q') -> w ∈ q' -> w ∉ q ++ filter (.≠ w) q'.
Proof. intros (_ & Hd & _)%NoDup_app Hw. rewrite elem_of_app, list_elem_of_filter. intros [?|[? _]]; [by eapply Hd|done]. Qed.
Lemma NoDup_snoc_left (w : id) q q' : NoDup (q ++ q') -> w ∉ q ++ q' -> NoDup ((q ++ [w]) ++ q').
Proof.
  intros (H1 & H2 & H3)%NoDup_app Hw. rewrite elem_of_app in Hw. apply NoDup_app. split; [apply NoDup_snoc; tauto|]. split; [|done].
  intros v [Hv|Hv%list_elem_of_singleton]%elem_of_app; [by apply H2|]. subst. tauto.
Qed.
Lemma NoDup_snoc_right (w : id) q q' : NoDup (q ++ q') -> w ∉ q ++ q' -> NoDup (q ++ q' ++ [w]).
Proof. intros H1 H2. rewrite app_assoc. by apply NoDup_snoc. Qed.
Lemma NoDup_filter_left (w : id) (q q' : list id) : NoDup (q ++ q') -> NoDup (filter (.≠ w) q ++ q').
Proof.
  intros (H1 & H2 & H3)%NoDup_app. apply NoDup_app. split; [by apply NoDup_filter|]. split; [|done]. intros v [_ Hv]%list_elem_of_filter. by apply H2.
Qed.
Lemma NoDup_filter_right (w : id) (q q' : list id) : NoDup (q ++ q') -> NoDup (q ++ filter (.≠ w) q').
Proof.
  intros (H1 & H2 & H3)%NoDup_app. apply NoDup_app. split; [done|]. split; [|by apply NoDup_filter]. intros v Hv [_ Hv']%list_elem_of_filter. by eapply H2.
Qed.

#[export] Hint Resolve elem_snoc_left elem_snoc_left_self elem_snoc_right elem_snoc_right_self elem_filter_left elem_filter_right
  elem_filter_left_self elem_filter_right_self NoDup_snoc_left NoDup_snoc_right NoDup_filter_left NoDup_filter_right : waiters.

(** ** Changing one awaiter *)

Lemma owners_insert k m v x x' : m !! v = Some x -> kind_of x' = kind_of x ->
  owners k (<[v := x']> m) = owners k m + (if bool_decide (kind_of x = k) then one (got x') - one (got x) else 0).
Proof.
  intros Hx Hk. unfold owners. rewrite count_if_insert, Hx, Hk. unfold one. case_bool_decide; rewrite ?andb_true_r, ?andb_false_r; destruct (got x), (got x'); cbn; lia.
Qed.

(** Nobody but the holder of the internal mutex is between the announcement and the exchange. *)
Lemma recheck_holds q sc cn h m v x : linked_ok q sc cn h m -> m !! v = Some x -> at_pc x = Recheck -> h = Some v.
Proof. intros Hl Hx Hp. shape_of Hl Hx; simpl in *; cases; done. Qed.

Lemma good_upd s s' w a r w' a' r' v x x' :
  good s w a r -> objs s !! v = Some x -> objs s' = <[v := x']> (objs s) -> kind_of x' = kind_of x ->
  NoDup (reader_waiters_ s' ++ writer_waiters_ s') -> NoDup (in_flight (holder s') ++ to_schedule s') -> NoDup (to_cancel s') ->
  (forall u, u <> v -> (u ∈ reader_waiters_ s' ++ writer_waiters_ s' <-> u ∈ reader_waiters_ s ++ writer_waiters_ s) /\
     (u ∈ in_flight (holder s') ++ to_schedule s' <-> u ∈ in_flight (holder s) ++ to_schedule s) /\
     (u ∈ to_cancel s' <-> u ∈ to_cancel s) /\ (locked_by (holder s') = Some u <-> locked_by (holder s) = Some u)) ->
  wshape x' (bool_decide (v ∈ reader_waiters_ s' ++ writer_waiters_ s')) (bool_decide (v ∈ in_flight (holder s') ++ to_schedule s'))
    (bool_decide (v ∈ to_cancel s')) (bool_decide (locked_by (holder s') = Some v)) ->
  (forall u, u ∈ reader_waiters_ s' -> u ∈ reader_waiters_ s \/ (u = v /\ kind_of x = Reader)) ->
  (forall u, u ∈ writer_waiters_ s' -> u ∈ writer_waiters_ s \/ (u = v /\ kind_of x = Writer)) ->
  word_ok w' a' r' (state_ s') (pending_writers_ s') (reader_waiters_ s') (writer_waiters_ s') (holder s')
    (owners Reader (objs s) + (if bool_decide (kind_of x = Reader) then one (got x') - one (got x) else 0) + shared_tries s')
    (owners Writer (objs s) + (if bool_decide (kind_of x = Writer) then one (got x') - one (got x) else 0) + exclusive_tries s')
    (slow s') (more s') (overflow s') ->
  (at_pc x' = Recheck -> w' = true) -> (w = true -> w' = true) \/ (forall u, u <> v -> locked_by (holder s) <> Some u) ->
  (w' = true -> writer_waiters_ s' <> [] \/ at_pc x' = Recheck \/ handing (holder s') = true \/ (exists g, holder s' = Some (Finishing g)) \/
     (w = true /\ at_pc x <> Recheck /\ (writer_waiters_ s <> [] -> writer_waiters_ s' <> []) /\ holder s' = holder s)) ->
  in_flight (holder s') = [] \/ (holder s' = holder s /\ (v ∈ in_flight (holder s) -> got x' = true /\ at_pc x' = Suspended)) ->
  0 <= shared_tries s' /\ 0 <= exclusive_tries s' -> good s' w' a' r'.
Proof.
  intros [Hl Hrk Hwk Hw Hre Hwait Hfl Ht] Hx Ho Hk ? ? ? Hoth Hsh Hrq Hwq Hword Hre' Hmono Hwait' Hfl' Ht'.
  assert (kind_of (objs s !!! v) = kind_of x) as Hkx by (by rewrite (lookup_total_correct _ _ _ Hx)).
  assert (forall u, kind_of (objs s' !!! u) = kind_of (objs s !!! u)) as Hkinds.
  { intros u. rewrite Ho. destruct (decide (u = v)) as [->|]; [by rewrite lookup_total_insert_eq, Hk|by rewrite lookup_total_insert_ne]. }
  split; [rewrite Ho; by eapply linked_ok_update| | | | | | |done].
  - intros u [Hu|[-> Hu]]%Hrq; rewrite Hkinds; [by apply Hrk|congruence].
  - intros u [Hu|[-> Hu]]%Hwq; rewrite Hkinds; [by apply Hwk|congruence].
  - rewrite Ho, !(owners_insert _ _ v x x') by done. done.
  - intros u y. rewrite Ho. destruct (decide (u = v)) as [->|Hne]; [rewrite lookup_insert_eq; by intros [= <-]|].
    rewrite lookup_insert_ne by done. intros Hy Hp. destruct Hmono as [Hm|Hm]; [by eapply Hm, Hre|]. exfalso. eapply Hm; [done|]. by eapply recheck_holds.
  - intros E. destruct (Hwait' E) as [?|[Hp|[?|[?|(E0 & Hp & Hq & Hh)]]]]; [by left| |by auto|by auto|].
    + right; left. exists v, x'. by rewrite Ho, lookup_insert_eq.
    + rewrite Hh. destruct (Hwait E0) as [?|[(u & y & Hy & Hpy)|?]]; [by auto| |by auto]. right; left. exists u, y. rewrite Ho, lookup_insert_ne; [done|].
      intros ->. congruence.
  - intros u Hu. destruct Hfl' as [E|[E Hv]]; [rewrite E in Hu; by apply not_elem_of_nil in Hu|]. rewrite E in *. destruct (Hfl u Hu) as (y & Hy & Hg & Hp & Hky).
    rewrite Ho. destruct (decide (u = v)) as [->|Hne]; [|rewrite lookup_insert_ne by done; eauto]. rewrite lookup_insert_eq. destruct (Hv Hu). simplify_eq. exists x'. split_and!; [done..|congruence].
Qed.

(** ** Claiming *)

Definition queued (k : kind) (c : bool) : waiter := Waiter k c Suspended (Some waiting) true false false false false.
Definition granted (k : kind) (c : bool) : waiter :=
  Waiter k c Suspended (Some (if c then notification_claimed else waiting)) true false true false true.

Definition dead (m : gmap id waiter) (v : id) : Prop :=
  exists x, m !! v = Some x /\ cancellable x = true /\ was_cancelled (wake_of x) = true /\ wake x <> None.

Lemma queued_or_dead q sc cn m v : linked_ok q sc cn None m -> v ∈ q -> (exists k c, m !! v = Some (queued k c)) \/ dead m v.
Proof.
  intros Hl Hv. destruct (lo_dom _ _ _ _ _ Hl v) as [x Hx]; [auto|]. shape_of Hl Hx; try absurd_shape; cases; try contradiction; simplify_eq; [left; by do 2 eexists|right..];
    eexists; (split; [exact Hx|done]).
Qed.

Lemma queued_bits q sc cn h m v k c : linked_ok q sc cn h m -> m !! v = Some (queued k c) -> v ∈ q /\ v ∉ sc /\ v ∉ cn /\ h <> Some v.
Proof. intros Hl Hx. unfold queued in Hx. shape_of Hl Hx; cases; done. Qed.

(** Cancelled waiters can leave the queue at any time. *)
Lemma linked_ok_drop q q' sc cn m : linked_ok q sc cn None m -> NoDup q' -> (forall v, v ∈ q' -> v ∈ q) -> (forall v, v ∈ q -> v ∈ q' \/ dead m v) ->
  linked_ok q' sc cn None m.
Proof.
  intros Hl Hq' Hsub Hdead. pose proof Hl as [Hq Hsc Hcn Hdom Hsh]. split; try done.
  - intros v [Hv|Hv]; apply Hdom; [by left; apply Hsub|by right].
  - intros v x Hx. pose proof (Hsh v x Hx) as Hs. destruct (decide (v ∈ q)) as [Hv|Hv].
    + destruct (Hdead v Hv) as [Hv'|(y & Hy & Hc & Hd & Hwk)]; [by rewrite (bool_decide_eq_true_2 (v ∈ q')), <-(bool_decide_eq_true_2 (v ∈ q) Hv)|].
      simplify_eq. rewrite (bool_decide_eq_true_2 (v ∈ q)) in Hs by done. inversion Hs; subst; cases; try discriminate; bits; try contradiction; try done; constructor.
    + rewrite (bool_decide_eq_false_2 (v ∈ q')) by (intros H; by apply Hv, Hsub). by rewrite (bool_decide_eq_false_2 (v ∈ q)) in Hs.
Qed.

Lemma shared_upd_id v f s x : objs s !! v = Some x -> f x = x -> upd v f s = s.
Proof. intros Hx Hf. unfold upd. rewrite (lookup_total_correct _ _ _ Hx), Hf, insert_id by done. by destruct s. Qed.

Section ClaimLoop.
Context (drop : list id -> shared_mutex -> shared_mutex) (Hdrop : forall q s, objs (drop q s) = objs s).

Fixpoint drops (n : nat) (q : list id) (s : shared_mutex) : shared_mutex :=
  match n, q with
  | S n, _ :: q => drops n q (drop q s)
  | _, _ => s
  end.

Lemma objs_drops n q s : objs (drops n q s) = objs s.
Proof. revert q s. induction n as [|n IH]; intros [|v q] s; cbn; try done. by rewrite IH, Hdrop. Qed.

Lemma claim_loop_ok q s r s' : (forall v, v ∈ q -> (exists k c, objs s !! v = Some (queued k c)) \/ dead (objs s) v) -> claim_loop drop q s = (r, s') ->
  match r with
  | None => Forall (dead (objs s)) q /\ s' = drops (length q) q s
  | Some v => exists older rest k c, q = older ++ v :: rest /\ Forall (dead (objs s)) older /\ objs s !! v = Some (queued k c) /\
      s' = with_objs (<[v := granted k c]> (objs s)) (drops (S (length older)) q s)
  end.
Proof.
  revert s. induction q as [|v q IH]; intros s Hq E; cbn [claim_loop] in E; [by simplify_eq|]. cbn [length drops].
  destruct (Hq v) as [(k & c & Hx)|(x & Hx & Hc & Hd & Hwk)]; [by left| |].
  - assert (r = Some v /\ s' = with_objs (<[v := granted k c]> (objs s)) (drop q s)) as [-> ->].
    { rewrite Hdrop in E. rewrite (lookup_total_correct _ _ _ Hx) in E. destruct c; cbn in E; try (rewrite decide_False in E by done); simplify_eq; split; try done;
        unfold grant, upd, with_objs; cbn; rewrite ?Hdrop, ?insert_insert_eq, ?lookup_total_insert_eq, ?(lookup_total_correct _ _ _ Hx); done. }
    exists [], q, k, c. split_and!; try done. 
  - assert (claim_loop drop q (drop q s) = (r, s')) as E'.
    { rewrite Hdrop in E. rewrite (lookup_total_correct _ _ _ Hx), Hc in E. unfold wake_of in *. destruct (wake x) as [st|] eqn:Ew; [|done].
      change (default idle (Some st)) with st in *. assert (claim_notification st = (st, rejected)) as Ecl by (by destruct st). rewrite Ecl in E. rewrite decide_True in E by done.
      rewrite (shared_upd_id v (with_wake st) (drop q s) x) in E; [done|by rewrite Hdrop|]. destruct x; cbn in *; by subst. }
    assert (dead (objs s) v) as Hdv by (by exists x).
    specialize (IH (drop q s)). rewrite Hdrop in IH. specialize (IH (fun u Hu => Hq u ltac:(by right)) E'). destruct r as [u|].
    + destruct IH as (o & rest & k & c & -> & Hf & Hu & ->). exists (v :: o), rest, k, c. by split_and!; [|constructor|..].
    + destruct IH as [Hf ->]. split; [by constructor|done].
Qed.
End ClaimLoop.

Lemma drops_readers n q s : reader_waiters_ s = q -> (n <= length q)%nat -> drops with_readers n q s = with_readers (skipn n q) s.
Proof.
  revert q s. induction n as [|n IH]; intros q s Hq Hn; [subst; cbn; by destruct s|]. destruct q as [|v q]; cbn in Hn; [lia|].
  cbn [drops skipn]. rewrite IH by (done || cbn; lia). done.
Qed.

Lemma drops_writers n q s : writer_waiters_ s = q -> pending_writers_ s = Z.of_nat (length q) -> pending_writers_ s <= SIZE_MAX -> (n <= length q)%nat ->
  drops drop_writer n q s = with_writers (Z.of_nat (length (skipn n q))) (skipn n q) s.
Proof.
  revert q s. induction n as [|n IH]; intros q s Hq Hp Hm Hn; [cbn [drops]; change (skipn 0 q) with q; subst q; rewrite <-Hp; by destruct s|]. destruct q as [|v q]; cbn in Hn; [lia|].
  cbn [drops skipn length] in *. assert (drop_writer q s = with_writers (Z.of_nat (length q)) q s) as ->.
  { unfold drop_writer. rewrite u64_small by (unfold SIZE_MAX in *; lia). rewrite Hp. replace (Z.of_nat (S (length q)) - 1) with (Z.of_nat (length q)) by lia.
    rewrite (proj2 (Z.ltb_lt 0 _)) by lia. unfold with_writers, check. cbn. by rewrite andb_true_r. }
  rewrite IH; cbn; try done; lia.
Qed.

Lemma claim_reader_ok s sc cn r s' : linked_ok (reader_waiters_ s ++ writer_waiters_ s) sc cn None (objs s) -> claim_reader_locked s = (r, s') ->
  match r with
  | None => s' = with_readers [] s /\ linked_ok (writer_waiters_ s) sc cn None (objs s)
  | Some v => exists rest k c, objs s !! v = Some (queued k c) /\ v ∈ reader_waiters_ s /\ (forall u, u ∈ rest -> u ∈ reader_waiters_ s) /\
      s' = with_objs (<[v := granted k c]> (objs s)) (with_readers rest s) /\
      linked_ok (rest ++ writer_waiters_ s) (v :: sc) cn None (<[v := granted k c]> (objs s))
  end.
Proof.
  intros Hl E. unfold claim_reader_locked in E. pose proof (lo_q _ _ _ _ _ Hl) as Hnd. pose proof (lo_sc _ _ _ _ _ Hl) as Hsc. pose proof (lo_cn _ _ _ _ _ Hl) as Hcn.
  pose proof (claim_loop_ok with_readers (fun _ _ => eq_refl) (reader_waiters_ s) s r s') as Hc.
  specialize (Hc (fun v Hv => queued_or_dead _ _ _ _ v Hl ltac:(rewrite elem_of_app; by left)) E). destruct r as [v|].
  - destruct Hc as (older & rest & k & c & Eq & Hd & Hx & ->). exists rest, k, c.
    rewrite drops_readers by (done || (rewrite Eq, ?length_app; cbn; lia)). rewrite Eq in *.
    assert (skipn (S (length older)) (older ++ v :: rest) = rest) as -> by (rewrite skipn_app, skipn_all2 by lia; replace (S (length older) - length older)%nat with 1%nat by lia; done).
    split; [done|]. split; [set_solver|]. split; [set_solver|]. split; [done|]. rewrite <-app_assoc in Hnd. cbn in Hnd.
    assert (linked_ok (v :: rest ++ writer_waiters_ s) sc cn None (objs s)) as Hl'.
    { eapply linked_ok_drop; [exact Hl| |set_solver|]; [by apply NoDup_app in Hnd as (_ & _ & ?)|]. intros u [[Hu|Hu]%elem_of_app|Hu]%elem_of_app; [right; by eapply Forall_forall in Hd|left; set_solver..]. }
    pose proof (lo_q _ _ _ _ _ Hl') as [Hv Hnd']%NoDup_cons. eapply linked_ok_update; [exact Hl'|done|constructor; [|done]|done|others|].
    + by apply (queued_bits _ _ _ _ _ _ _ _ Hl' Hx).
    + destruct (queued_bits _ _ _ _ _ _ _ _ Hl' Hx) as (_ & ? & ? & _). set_bits. constructor. destruct c; tauto.
  - destruct Hc as [Hd ->]. rewrite drops_readers, skipn_all by done. split; [done|]. eapply linked_ok_drop; [exact Hl| |set_solver|].
    + by apply NoDup_app in Hnd as (_ & _ & ?).
    + intros u [Hu|Hu]%elem_of_app; [right; by eapply Forall_forall in Hd|by left].
Qed.

Lemma claim_writer_ok s sc cn r s' : linked_ok (reader_waiters_ s ++ writer_waiters_ s) sc cn None (objs s) ->
  pending_writers_ s = Z.of_nat (length (writer_waiters_ s)) -> pending_writers_ s <= SIZE_MAX -> claim_writer_locked s = (r, s') ->
  match r with
  | None => s' = with_writers 0 [] s /\ linked_ok (reader_waiters_ s) sc cn None (objs s)
  | Some v => exists rest k c, objs s !! v = Some (queued k c) /\ v ∈ writer_waiters_ s /\ (forall u, u ∈ rest -> u ∈ writer_waiters_ s) /\
      (length rest <= length (writer_waiters_ s))%nat /\
      s' = with_objs (<[v := granted k c]> (objs s)) (with_writers (Z.of_nat (length rest)) rest s) /\
      linked_ok (reader_waiters_ s ++ rest) (v :: sc) cn None (<[v := granted k c]> (objs s))
  end.
Proof.
  intros Hl Hp Hm E. unfold claim_writer_locked in E. pose proof (lo_q _ _ _ _ _ Hl) as Hnd. pose proof (lo_sc _ _ _ _ _ Hl) as Hsc. pose proof (lo_cn _ _ _ _ _ Hl) as Hcn.
  pose proof (claim_loop_ok drop_writer (fun _ _ => eq_refl) (writer_waiters_ s) s r s') as Hc.
  specialize (Hc (fun v Hv => queued_or_dead _ _ _ _ v Hl ltac:(rewrite elem_of_app; by right)) E). destruct r as [v|].
  - destruct Hc as (older & rest & k & c & Eq & Hd & Hx & ->). exists rest, k, c.
    rewrite drops_writers by (done || (rewrite Eq, ?length_app; cbn; lia)). rewrite Eq in *.
    assert (skipn (S (length older)) (older ++ v :: rest) = rest) as -> by (rewrite skipn_app, skipn_all2 by lia; replace (S (length older) - length older)%nat with 1%nat by lia; done).
    split; [done|]. split; [set_solver|]. split; [set_solver|]. split; [rewrite length_app; cbn; lia|]. split; [done|].
    assert (linked_ok (v :: reader_waiters_ s ++ rest) sc cn None (objs s)) as Hl'.
    { eapply linked_ok_drop; [exact Hl| |set_solver|].
      - rewrite (Permutation_middle (reader_waiters_ s) rest v). apply NoDup_app in Hnd as (H1 & H2 & H3). apply NoDup_app in H3 as (_ & _ & H3). apply NoDup_app. split_and!; [done|set_solver|done].
      - intros u [Hu|[Hu|Hu]%elem_of_app]%elem_of_app; [left; set_solver|right; by eapply Forall_forall in Hd|left; set_solver]. }
    pose proof (lo_q _ _ _ _ _ Hl') as [Hv Hnd']%NoDup_cons. eapply linked_ok_update; [exact Hl'|done|constructor; [|done]|done|others|].
    + by apply (queued_bits _ _ _ _ _ _ _ _ Hl' Hx).
    + destruct (queued_bits _ _ _ _ _ _ _ _ Hl' Hx) as (_ & ? & ? & _). set_bits. constructor. destruct c; tauto.
  - destruct Hc as [Hd ->]. rewrite drops_writers, skipn_all by done. split; [done|]. eapply linked_ok_drop; [exact Hl| |set_solver|].
    + by apply NoDup_app in Hnd as (? & _ & _).
    + intros u [Hu|Hu]%elem_of_app; [by left|right; by eapply Forall_forall in Hd].
Qed.

(** ** Critical sections *)

(** A state in which the running thread holds the internal mutex and [nr], [nw] count the owners, those in its hands included;
    the preference for writers may be out of date. *)
Record owned (s : shared_mutex) (w a : bool) (r nr nw : Z) : Prop := {
  ow_linked : linked_ok (reader_waiters_ s ++ writer_waiters_ s) (to_schedule s) (to_cancel s) None (objs s);
  ow_readers : forall v, v ∈ reader_waiters_ s -> kind_of (objs s !!! v) = Reader;
  ow_writers : forall v, v ∈ writer_waiters_ s -> kind_of (objs s !!! v) = Writer;
  ow_word : word_ok w a r (state_ s) (pending_writers_ s) (reader_waiters_ s) (writer_waiters_ s) None nr nw (slow s) (more s) (overflow s);
  ow_tries : 0 <= shared_tries s /\ 0 <= exclusive_tries s;
}.

Abbreviation shared_owners s := (owners Reader (objs s) + shared_tries s).
Abbreviation exclusive_owners s := (owners Writer (objs s) + exclusive_tries s).

Lemma owners_nonneg k m : 0 <= owners k m.
Proof. apply count_if_nonneg. Qed.

(** Outside the internal mutex. *)
Lemma owned_good s w a r : owned s w a r (shared_owners s) (exclusive_owners s) -> holder s = None -> (w = true -> writer_waiters_ s <> []) -> good s w a r.
Proof.
  intros [Hl Hr Hw Hword Ht] Hh Hwait. split; rewrite ?Hh; cbn; try done.
  - intros v x Hx Hp. by pose proof (recheck_holds _ _ _ _ _ _ _ Hl Hx Hp).
  - intros E. left. by apply Hwait.
  - intros v Hv. by apply not_elem_of_nil in Hv.
Qed.

Lemma shared_leave_ok s w a r : owned s w a r (shared_owners s) (exclusive_owners s) -> (w = true -> writer_waiters_ s <> []) -> good (with_holder None s) w a r.
Proof. intros [Hl Hr Hw Hword Ht] Hwait. by apply owned_good. Qed.

Lemma kinds_insert (m : gmap id waiter) (q q' : list id) v k c k' : m !! v = Some (queued k c) -> (forall u, u ∈ q -> kind_of (m !!! u) = k') -> (forall u, u ∈ q' -> u ∈ q) ->
  forall u, u ∈ q' -> kind_of (<[v := granted k c]> m !!! u) = k'.
Proof.
  intros Hx Hq Hsub u Hu%Hsub%Hq. destruct (decide (u = v)) as [->|Hne]; [|by rewrite lookup_total_insert_ne].
  rewrite lookup_total_insert_eq. by rewrite (lookup_total_correct _ _ _ Hx) in Hu.
Qed.

Lemma owners_granted k' m v k c : m !! v = Some (queued k c) -> owners k' (<[v := granted k c]> m) = owners k' m + (if bool_decide (k = k') then 1 else 0).
Proof. intros Hx. rewrite (owners_insert _ _ _ _ _ Hx) by done. cbn. case_bool_decide; lia. Qed.

Lemma kind_queued (m : gmap id waiter) v k c k' : m !! v = Some (queued k c) -> kind_of (m !!! v) = k' -> k = k'.
Proof. intros Hx. by rewrite (lookup_total_correct _ _ _ Hx). Qed.

Lemma shared_finish_ok s w a r : owned s w a r (shared_owners s) (exclusive_owners s) ->
  (exists w' a' r', good (finish_writer_removal_locked s) w' a' r') /\ asserts_ok (finish_writer_removal_locked s) = asserts_ok s.
Proof.
  intros Ho. pose proof Ho as [Hl Hr Hw [Hst Hrange Hnr Hnw Hex [Hp Hpm] Hpref Hhand Hfin Hwak Hws Hrs] Ht]. unfold finish_writer_removal_locked.
  destruct (Z.eqb_spec (pending_writers_ s) 0) as [E|E]; cbn [negb].
  2: { split; [|done]. exists w, a, r. apply shared_leave_ok; [done|]. intros _ E'. by rewrite E' in Hp. }
  assert (writer_waiters_ s = []) as Ewq by (destruct (writer_waiters_ s); [done|cbn in Hp; lia]).
  rewrite Hst, pack_active by done. destruct a.
  - split; [|done]. exists false, true, r. rewrite pack_clear by done. apply shared_leave_ok; [|done]. split; cbn; try done. split; cbn; try done; auto. 
  - destruct (claim_reader_locked s) as [g s'] eqn:Ec. pose proof (claim_reader_ok _ _ _ _ _ Hl Ec) as Hc. destruct g as [v|].
    + destruct Hc as (rest & k & c & Hx & Hv & Hsub & -> & Hl'). pose proof (kind_queued _ _ _ _ _ Hx (Hr v Hv)) as ->. split; [|done]. exists w, false, r.
      split; cbn; [exact Hl'|by apply (kinds_insert _ (reader_waiters_ s))|by apply (kinds_insert _ (writer_waiters_ s))| | | | |done].
      * rewrite !(owners_granted _ _ _ _ _ Hx). rewrite (bool_decide_true (Reader = Reader)), (bool_decide_false (Reader = Writer)) by done.
        split; cbn in *; try done; try lia; [|intros _; right; right; right; right; left; by eexists]. intros ? [= <-]. done.
      * intros u x Hu Hpx. by pose proof (recheck_holds _ _ _ _ _ _ _ Hl' Hu Hpx).
      * intros _. right; right; right. by eexists.
      * intros u ->%list_elem_of_singleton. eexists. by rewrite lookup_insert_eq.
    + destruct Hc as [-> Hl']. split; [|done]. exists w, false, r. split; cbn; [exact Hl'|intros v Hv; by apply not_elem_of_nil in Hv|done| | | | |done].
      * split; cbn in *; try done; try lia. 
      * intros u x Hu Hpx. by pose proof (recheck_holds _ _ _ _ _ _ _ Hl' Hu Hpx).
      * intros _. right; right; right. by eexists.
      * intros u Hu. by apply not_elem_of_nil in Hu.
Qed.

Lemma pending_flag s (q : list id) : pending_writers_ s = Z.of_nat (length q) -> (0 <? pending_writers_ s) = negb (bool_decide (q = [])).
Proof. intros ->. destruct q; [done|]. rewrite bool_decide_false by done. apply Z.ltb_lt. cbn. lia. Qed.

Lemma writer_word_pack s (q : list id) : pending_writers_ s = Z.of_nat (length q) -> writer_word s = pack (negb (bool_decide (q = []))) true 0.
Proof. intros H. unfold writer_word. rewrite (pending_flag s q H). by case_bool_decide. Qed.

(** A writer's turn to release: its ownership is in the hands of the running thread. *)
Lemma unlock_ok s w a r : owned s w a r (shared_owners s) (exclusive_owners s + 1) -> holder s = None ->
  (exists w' a' r', good (unlock s) w' a' r') /\ asserts_ok (unlock s) = asserts_ok s.
Proof.
  intros Ho Hh. pose proof Ho as [Hl Hr Hw [Hst Hrange Hnr Hnw Hex [Hp Hpm] Hpref Hhand Hfin Hwak Hws Hrs] Ht].
  pose proof (owners_nonneg Writer (objs s)). pose proof (owners_nonneg Reader (objs s)).
  assert (a = true /\ exclusive_owners s = 0) as [-> Hnw0] by (destruct a; cbn in Hnw; split; try done; lia). specialize (Hex eq_refl) as ->. cbn in Hnr.
  unfold unlock. destruct (claim_writer_locked s) as [g s'] eqn:Ec. pose proof (claim_writer_ok _ _ _ _ _ Hl Hp Hpm Ec) as Hc. destruct g as [v|].
  - destruct Hc as (rest & k & c & Hx & Hv & Hsub & Hlen & -> & Hl'). pose proof (kind_queued _ _ _ _ _ Hx (Hw v Hv)) as ->. split; [|done].
    rewrite (writer_word_pack _ rest) by done. exists (negb (bool_decide (rest = []))), true, 0. apply owned_good; [|done|cbn; intros E Er; by rewrite bool_decide_true in E].
    split; cbn; [exact Hl'|by apply (kinds_insert _ (reader_waiters_ s))|by apply (kinds_insert _ (writer_waiters_ s))| |done].
    rewrite !(owners_granted _ _ _ _ _ Hx). rewrite (bool_decide_false (Writer = Reader)), (bool_decide_true (Writer = Writer)) by done.
    split; cbn in *; try done; try lia. intros; by rewrite bool_decide_false.
  - destruct Hc as [-> Hl']. destruct (claim_reader_locked (with_writers 0 [] s)) as [g s'] eqn:Ec'.
    assert (linked_ok (reader_waiters_ (with_writers 0 [] s) ++ writer_waiters_ (with_writers 0 [] s)) (to_schedule s) (to_cancel s) None (objs (with_writers 0 [] s))) as Hl2 by (cbn; by rewrite app_nil_r).
    pose proof (claim_reader_ok _ _ _ _ _ Hl2 Ec') as Hc. destruct g as [v|].
    + destruct Hc as (rest & k & c & Hx & Hv & Hsub & -> & Hl3). cbn in *. pose proof (kind_queued _ _ _ _ _ Hx (Hr v Hv)) as ->.
      assert (word_ok false false 1 1 0 rest [] None (shared_owners s + 1) (exclusive_owners s) (slow s) (if decide (rest = []) then more s else S (more s)) (overflow s)) as Hword.
      { split; cbn in *; try done; try lia. intros Hne. right; right; left. rewrite decide_False by done. lia. }
      unfold wake_more. cbn. case_decide as Er; (split; [|done]); exists false, false, 1; (apply owned_good; [|done|done]);
        (split; cbn; [exact Hl3|by apply (kinds_insert _ (reader_waiters_ s))|intros u Hu; by apply not_elem_of_nil in Hu| |done]);
        rewrite !(owners_granted _ _ _ _ _ Hx), (bool_decide_true (Reader = Reader)), (bool_decide_false (Reader = Writer)), Z.add_0_r by done;
        by replace (owners Reader (objs s) + 1 + shared_tries s) with (shared_owners s + 1) by lia.
    + destruct Hc as [-> Hl3]. cbn in *. split; [|done]. exists false, false, 0. apply owned_good; [|done|done].
      split; cbn; [exact Hl3|intros u Hu; by apply not_elem_of_nil in Hu|intros u Hu; by apply not_elem_of_nil in Hu| |done]. split; cbn in *; try done; lia.
Qed.

Lemma good_owned s w a r : good s w a r -> holder s = None -> owned s w a r (shared_owners s) (exclusive_owners s) /\ (w = true -> writer_waiters_ s <> []).
Proof.
  intros [Hl Hr Hw Hword Hre Hwait Hfl Ht] Hh. rewrite Hh in *. split; [by split|]. intros E.
  destruct (Hwait E) as [?|[(v & x & Hx & Hp)|[?|[? ?]]]]; [done| |done|done]. by pose proof (recheck_holds _ _ _ _ _ _ _ Hl Hx Hp).
Qed.

Lemma slow_ok s w a r : good s w a r -> holder s = None -> (0 < slow s)%nat ->
  (exists w' a' r', good (unlock_shared_slow s) w' a' r') /\ asserts_ok (unlock_shared_slow s) = asserts_ok s.
Proof.
  intros Hg Hh Hs. destruct (good_owned _ _ _ _ Hg Hh) as [[Hl Hr Hw [Hst Hrange Hnr Hnw Hex [Hp Hpm] Hpref Hhand Hfin Hwak Hws Hrs] Ht] Hwait].
  unfold unlock_shared_slow. cbn [state_ with_tasks]. rewrite Hst, pack_unowned by done. destruct (negb a && (r =? 0)) eqn:Eu.
  - destruct a; [done|]. cbn in Eu. apply Z.eqb_eq in Eu as ->.
    destruct (claim_writer_locked _) as [g s'] eqn:Ec. pose proof (claim_writer_ok (with_tasks (pred (slow s)) (more s) s) _ _ _ _ Hl Hp Hpm Ec) as Hc. destruct g as [v|].
    + destruct Hc as (rest & k & c & Hx & Hv & Hsub & Hlen & -> & Hl'). cbn in *. pose proof (kind_queued _ _ _ _ _ Hx (Hw v Hv)) as ->. split; [|done].
      assert (w = true) as -> by (apply Hpref; intros E; rewrite E in Hv; by apply not_elem_of_nil in Hv). exists true, false, 0.
      split; cbn; [exact Hl'|by apply (kinds_insert _ (reader_waiters_ s))|by apply (kinds_insert _ (writer_waiters_ s))| | |by right; right; left| |done].
      * rewrite !(owners_granted _ _ _ _ _ Hx), (bool_decide_false (Writer = Reader)), (bool_decide_true (Writer = Writer)) by done. split; cbn in *; try done; try lia; by auto.
      * done.
      * intros u ->%list_elem_of_singleton. eexists. by rewrite lookup_insert_eq.
    + destruct Hc as [-> Hl']. cbn [writer_waiters_ reader_waiters_ with_tasks objs] in Hl'. apply (shared_finish_ok (with_writers 0 [] (with_tasks (pred (slow s)) (more s) s)) w false 0). split; cbn; [by rewrite app_nil_r|done|intros u Hu; by apply not_elem_of_nil in Hu| |done].
      split; cbn in *; try done; try lia.
  - split; [|done]. exists w, a, r. apply owned_good; [|done|done]. split; cbn; try done. split; cbn in *; try done. intros Hne. clear Hws Hs. destruct a; [by left|]. cbn in Eu. apply Z.eqb_neq in Eu. right; left. lia.
Qed.

Lemma hand_over_ok v s w a r : good s w a r -> holder s = Some (Handing v) ->
  (exists w' a' r', good (hand_over v s) w' a' r') /\ asserts_ok (hand_over v s) = asserts_ok s.
Proof.
  intros [Hl Hr Hw [Hst Hrange Hnr Hnw Hex [Hp Hpm] Hpref Hhand Hfin Hwak Hws Hrs] Hre Hwait Hfl Ht] Hh. rewrite Hh in *. cbn in *.
  destruct (Hhand eq_refl) as (-> & -> & ->). split; [|done]. unfold hand_over. rewrite (writer_word_pack _ _ Hp).
  exists (negb (bool_decide (writer_waiters_ s = []))), true, 0. apply owned_good; [|done|cbn; intros E Er; by rewrite bool_decide_true in E].
  split; cbn; try done. split; cbn in *; try done; try lia; try by auto. intros; by rewrite bool_decide_false.
Qed.

(** The exchange of [finish_writer_removal_locked] is right when its assertions hold. *)
Lemma finish_exchange_ok g s w a r : good s w a r -> holder s = Some (Finishing g) -> asserts_ok (finish_exchange g s) = true ->
  exists w' a' r', good (finish_exchange g s) w' a' r'.
Proof.
  intros [Hl Hr Hw [Hst Hrange Hnr Hnw Hex [Hp Hpm] Hpref Hhand Hfin Hwak Hws Hrs] Hre Hwait Hfl Ht] Hh Ha. rewrite Hh in *.
  destruct (Hfin g eq_refl) as [Ewq Erq].
  assert (a = false /\ r <= READER_MASK - match g with Some _ => 1 | None => 0 end) as [-> Hroom].
  { assert (asserts_ok (finish_exchange g s) = asserts_ok s && ((readers (state_ s) <=? READER_MASK - match g with Some _ => 1 | None => 0 end) && negb (has WRITER_ACTIVE (state_ s)))) as Ea.
    { unfold finish_exchange, wake_more. destruct g; cbn; [case_decide|]; done. }
    rewrite Ea, Hst, pack_readers, pack_active in Ha by done. apply andb_true_iff in Ha as [_ [Hle Hna]%andb_true_iff]. destruct a; [done|]. split; [done|lia]. }
  exists false, false, (r + match g with Some _ => 1 | None => 0 end). unfold finish_exchange. cbn [state_ check]. rewrite Hst, pack_clear by done.
  destruct g as [v|].
  - rewrite pack_more by lia. unfold wake_more. cbn in *.
    assert (word_ok false false (r + 1) (pack false false (r + 1)) (pending_writers_ s) (reader_waiters_ s) (writer_waiters_ s) None (shared_owners s) (exclusive_owners s) (slow s)
      (if decide (reader_waiters_ s = []) then more s else S (more s)) (overflow s)) as Hword.
    { split; cbn in *; try done; try lia. intros Hne. right; right; left. rewrite decide_False by done. lia. }
    case_decide; apply owned_good; (done || (split; cbn; done)).
  - rewrite Z.add_0_r, u64_small by (by apply pack_range). rewrite Z.add_0_r. specialize (Erq eq_refl). apply owned_good; [|done|done]. split; cbn; try done. all: split; cbn in *; try done; lia.
Qed.

Lemma wake_reserve_ok s w a r : good s w a r -> holder s = None -> (0 < more s)%nat ->
  (exists w' a' r', good (wake_reserve s) w' a' r') /\ asserts_ok (wake_reserve s) = asserts_ok s.
Proof.
  intros Hg Hh Hm. pose proof (good_owned _ _ _ _ Hg Hh) as [[Hl Hr Hw [Hst Hrange Hnr Hnw Hex [Hp Hpm] Hpref Hhand Hfin Hwak Hws Hrs] Ht] Hwait].
  unfold wake_reserve. destruct (negb (pending_writers_ s =? 0) || bool_decide (reader_waiters_ s = [])) eqn:E1.
  - split; [|done]. exists w, a, r. apply owned_good; [|done|done]. split; cbn; try done. split; cbn in *; try done. intros Hne.
    rewrite (bool_decide_false (reader_waiters_ s = [])), orb_false_r in E1 by done. apply negb_true_iff, Z.eqb_neq in E1. left. apply Hpref. intros E. by rewrite E in Hp.
  - apply orb_false_iff in E1 as [E1 E2]. apply negb_false_iff, Z.eqb_eq in E1. apply bool_decide_eq_false in E2.
    assert (writer_waiters_ s = []) as Ewq by (destruct (writer_waiters_ s); [done|cbn in Hp; lia]). rewrite Hst, pack_flags, pack_saturated by done.
    destruct (w || a || (r =? READER_MASK)) eqn:E3.
    + split; [|done]. exists w, a, r. apply owned_good; [|done|done]. split; cbn; try done. split; cbn in *; try done. intros Hne.
      destruct w; [by left|]. destruct a; [by auto|]. cbn in *. do 5 right. by rewrite orb_true_r.
    + apply orb_false_iff in E3 as [[-> ->]%orb_false_iff E3%Z.eqb_neq]. rewrite pack_more by (done || lia). split; [|done]. exists false, false, (r + 1).
      split; cbn; try done; [|intros v x Hx Hpx; by pose proof (recheck_holds _ _ _ _ _ _ _ Hl Hx Hpx)|intros v Hv; by apply not_elem_of_nil in Hv].
      split; cbn in *; try done; try lia; try (intros; congruence); try (by auto 6); intros _; split_and!; done || lia.
Qed.

Lemma wake_claim_ok s w a r : good s w a r -> holder s = Some Waking ->
  (exists w' a' r', good (wake_claim s) w' a' r') /\ asserts_ok (wake_claim s) = asserts_ok s.
Proof.
  intros [Hl Hr Hw [Hst Hrange Hnr Hnw Hex [Hp Hpm] Hpref Hhand Hfin Hwak Hws Hrs] Hre Hwait Hfl Ht] Hh. rewrite Hh in *. cbn in *.
  destruct (Hwak eq_refl) as (-> & -> & Ewq & Hpos & Hm). unfold wake_claim. destruct (claim_reader_locked s) as [g s'] eqn:Ec.
  pose proof (claim_reader_ok _ _ _ _ _ Hl Ec) as Hc. destruct g as [v|].
  - destruct Hc as (rest & k & c & Hx & Hv & Hsub & -> & Hl'). pose proof (kind_queued _ _ _ _ _ Hx (Hr v Hv)) as ->. split; [|done]. exists false, false, r.
    apply owned_good; [|done|done]. split; cbn; [exact Hl'|by apply (kinds_insert _ (reader_waiters_ s))|by apply (kinds_insert _ (writer_waiters_ s))| |done].
    rewrite !(owners_granted _ _ _ _ _ Hx), (bool_decide_true (Reader = Reader)), (bool_decide_false (Reader = Writer)) by done. split; cbn in *; try done; try lia; by auto.
  - destruct Hc as [-> Hl']. cbn. split; [|done]. exists false, false, (r - 1). rewrite Hst, pack_less by done. apply owned_good; [|done|done].
    split; cbn; [exact Hl'|intros u Hu; by apply not_elem_of_nil in Hu|done| |done]. split; cbn in *; try done; lia.
Qed.

(** ** Steps that change one awaiter *)

Definition plain_holder (h : option critical) : bool := match h with None | Some (ByWaiter _) => true | _ => false end.

(** Taking and leaving the internal mutex does not touch the word. *)
Lemma word_eq w a r st p rq wq h h' nr nr' nw nw' sl mo ov : word_ok w a r st p rq wq h nr nw sl mo ov ->
  h' = h \/ (plain_holder h = true /\ plain_holder h' = true) -> nr' = nr -> nw' = nw -> word_ok w a r st p rq wq h' nr' nw' sl mo ov.
Proof.
  intros Hw [->|[Hh Hh']] -> ->; [done|]. destruct Hw as [? ? ? ? ? ? ? ? ? ? ? Hrs].
  assert (forall v, h <> Some (Finishing v)) as Hn by (intros v ->; done).
  destruct h as [[]|], h' as [[]|]; try done; split; cbn in *; try done;
    (intros Hq; destruct (Hrs Hq) as [?|[?|[?|[?|[[? E]|?]]]]]; [by auto 7..|by apply Hn in E|by auto 7]).
Qed.

Lemma locked_by_waiter h v : locked_by h = Some v -> h = Some (ByWaiter v).
Proof. destruct h as [[]|]; cbn; congruence. Qed.

Lemma elem_remove_right (v w : id) q q' : v <> w -> v ∈ q ++ remove_one w q' <-> v ∈ q ++ q'.
Proof. intros H. rewrite !elem_of_app, elem_remove_one by done. done. Qed.
Lemma elem_remove_right_self (w : id) q q' : NoDup (q ++ q') -> w ∈ q' -> w ∉ q ++ remove_one w q'.
Proof.
  intros (_ & Hd & Hq)%NoDup_app Hw [Hin|Hin]%elem_of_app; [by eapply Hd|]. by eapply elem_remove_one_self.
Qed.
Lemma NoDup_remove_right (w : id) q q' : NoDup (q ++ q') -> NoDup (q ++ remove_one w q').
Proof.
  intros (H1 & H2 & H3)%NoDup_app. apply NoDup_app. split_and!; [done| |by apply NoDup_remove_one]. intros v Hv Hv'. apply (H2 v Hv).
  destruct (decide (v = w)) as [->|]; [|by apply elem_remove_one in Hv']. exfalso. by eapply elem_remove_one_self.
Qed.
#[export] Hint Resolve elem_remove_right elem_remove_right_self NoDup_remove_right : waiters.

Ltac count_side := simpl; repeat case_bool_decide; try congruence; unfold one; lia.

(** Use what is known of the internal mutex. *)
Ltac know :=
  repeat match goal with
  | Hh : holder ?s = _, H : context [holder ?s] |- _ => lazymatch H with Hh => fail | _ => rewrite Hh in H; simpl in H end
  | Hh : holder ?s = _ |- context [holder ?s] => rewrite Hh
  end.

Ltac tidy := simpl; know; simpl.

Ltac word_side Hg :=
  simpl; eapply word_eq; [exact (gd_word _ _ _ _ Hg)|know; first [by left|right; split; done]|count_side|count_side].

(** The flag for a waiting writer is up for a queued one, unless the holder of the internal mutex is a writer about to queue. *)
Lemma waiting_queued s w a r : good s w a r -> holder s = None -> w = true -> writer_waiters_ s <> [].
Proof. intros Hg Hh. by apply (good_owned _ _ _ _ Hg Hh). Qed.

Lemma waiting_held s w a r v x : good s w a r -> holder s = Some (ByWaiter v) -> objs s !! v = Some x -> at_pc x <> Recheck -> w = true -> writer_waiters_ s <> [].
Proof.
  intros Hg Hh Hx Hp E. destruct (gd_waiting _ _ _ _ Hg E) as [?|[(u & y & Hy & Hpy)|[H|[g H]]]]; [done| |by rewrite Hh in H|by rewrite Hh in H].
  pose proof (recheck_holds _ _ _ _ _ _ _ (gd_linked _ _ _ _ Hg) Hy Hpy) as E'. rewrite Hh in E'. cbn in E'. congruence.
Qed.

Ltac wait_side Hg Hx := simpl; first [ by (intros ?; left; eapply (waiting_queued _ _ _ _ Hg); done) | by (intros ?; left; eapply (waiting_held _ _ _ _ _ _ Hg); [eassumption|exact Hx|done|done]) | by left | by right; left | by (intros ?; do 4 right; split_and!; (done || congruence || auto)) | by (intros ?; discriminate) ].

Ltac flight_side Hg Hx :=
  simpl; first [ by left
               | right; split; [done|]; first [ by intros ? | by (let Hf := fresh in intros Hf; apply (gd_flight _ _ _ _ Hg) in Hf as (? & ? & ? & ? & ?); simplify_eq)
                   | by (intros ?; exfalso; match goal with H : _ ∉ in_flight _ ++ _ |- _ => apply H, elem_of_app; by left end) ] ].

(** The awaiter changes, the word does not. *)
Ltac upd_same Hg Hx :=
  eapply (good_upd _ _ _ _ _ _ _ _ _ _ _ Hg Hx);
  [ norm_objs Hx; reflexivity | done | tidy; eauto 3 with waiters | tidy; eauto 3 with waiters | tidy; eauto 3 with waiters
  | tidy; others | tidy; set_bits; try (constructor; tauto)
  | simpl; auto | simpl; auto | try word_side Hg | simpl; first [done | by (intros _; exact (gd_recheck _ _ _ _ Hg _ _ Hx eq_refl)) | idtac] | by left | try wait_side Hg Hx | tidy; try flight_side Hg Hx | simpl; exact (gd_tries _ _ _ _ Hg) ].

Tactic Notation "facts" hyp(Hg) "as" ident(Hl) :=
  pose proof (gd_linked _ _ _ _ Hg) as Hl; pose proof (lo_q _ _ _ _ _ Hl); pose proof (lo_sc _ _ _ _ _ Hl); pose proof (lo_cn _ _ _ _ _ Hl).

Ltac holders := repeat match goal with H : locked_by (holder _) = Some _ |- _ => apply locked_by_waiter in H end.

Tactic Notation "start" "as" ident(Hg) ident(Hl) ident(Hx) :=
  intros Hg [Hx ?]; facts Hg as Hl; shape_of Hl Hx; simpl in *; simplify_eq; cases; holders; rewrite ?(lookup_total_correct _ _ _ Hx); simpl.

Lemma ready_check_ok v x s w a r : good s w a r -> is_at v Ready s x -> cancellable x = true -> good (await_ready_check v s) w a r.
Proof. unfold await_ready_check. start as Hg Hl Hx; intros; simplify_eq; upd_same Hg Hx. Qed.
Lemma owner_claim_ok v x s w a r : good s w a r -> is_at v Owner s x -> good (owner_claim v s) w a r.
Proof. unfold owner_claim. start as Hg Hl Hx; upd_same Hg Hx. Qed.
Lemma suspend_check_ok v x s w a r : good s w a r -> is_at v Suspend s x -> cancellable x = true -> good (await_suspend_check v s) w a r.
Proof. unfold await_suspend_check. start as Hg Hl Hx; intros; simplify_eq; upd_same Hg Hx. Qed.
Lemma suspend_block_ok v x s w a r : good s w a r -> is_at v SuspendBlock s x -> good (await_suspend_block v s) w a r.
Proof. unfold await_suspend_block, after_block. start as Hg Hl Hx; try (destruct k); upd_same Hg Hx. Qed.
Lemma suspend_plain_ok v x s w a r : good s w a r -> is_at v Suspend s x -> cancellable x = false -> good (await_suspend_plain v s) w a r.
Proof. unfold await_suspend_plain, after_block. start as Hg Hl Hx; intros; simplify_eq; try (destruct k); upd_same Hg Hx. Qed.
Lemma suspend_throws_ok v x s w a r : good s w a r -> is_at v Slow s x -> wake x = None -> good (await_suspend_throws v s) w a r.
Proof. unfold await_suspend_throws. start as Hg Hl Hx; intros; simplify_eq; upd_same Hg Hx. Qed.
Lemma suspend_lock_ok v x s w a r : good s w a r -> is_at v Slow s x -> holder s = None -> good (await_suspend_lock v s) w a r.
Proof. unfold await_suspend_lock. start as Hg Hl Hx; intros Hh; upd_same Hg Hx. Qed.
Lemma locked_claim_ok v x s w a r : good s w a r -> is_at v LockedOwner s x -> good (locked_claim v s) w a r.
Proof. unfold locked_claim, owner_claim. start as Hg Hl Hx; upd_same Hg Hx. Qed.

Lemma schedule_ok v s w a r : good s w a r -> v ∈ to_schedule s -> good (schedule_one v s) w a r.
Proof.
  unfold schedule_one. intros Hg Hv. facts Hg as Hl. assert (v ∈ in_flight (holder s) ++ to_schedule s) as Hin by (apply elem_of_app; by right).
  assert (v ∉ in_flight (holder s)) as Hnf by (intros Hf; by eapply NoDup_app in H0 as (_ & Hd & _); eapply Hd).
  destruct (lo_dom _ _ _ _ _ Hl v (or_intror (or_introl Hin))) as [x Hx]. rewrite (lookup_total_correct _ _ _ Hx).
  shape_of Hl Hx; try contradiction; cases; upd_same Hg Hx; by right.
Qed.

Lemma shared_cancel_first_ok v x s w a r : good s w a r -> objs s !! v = Some x -> cancellable x = true -> good (cancel_first v s) w a r.
Proof.
  unfold cancel_first. intros Hg Hx Hc. facts Hg as Hl. rewrite (lookup_total_correct _ _ _ Hx).
  shape_of Hl Hx; simpl in *; simplify_eq; cases; upd_same Hg Hx.
Qed.

Lemma shared_cancel_second_ok v s w a r : good s w a r -> v ∈ to_cancel s -> good (cancel_second v s) w a r.
Proof.
  unfold cancel_second. intros Hg Hin. facts Hg as Hl. destruct (lo_dom _ _ _ _ _ Hl v (or_intror (or_intror (or_introl Hin)))) as [x Hx].
  rewrite (lookup_total_correct _ _ _ Hx). shape_of Hl Hx; try contradiction; cases; upd_same Hg Hx.
Qed.

(** ** Taking the lock *)

Lemma word_reader_takes r st p rq wq h h' nr nr' nw nw' sl mo ov : word_ok false false r st p rq wq h nr nw sl mo ov -> r < READER_MASK ->
  h' = h \/ (plain_holder h = true /\ plain_holder h' = true) -> nr' = nr + 1 -> nw' = nw ->
  word_ok false false (r + 1) (u64 (st + 1)) p rq wq h' nr' nw' sl mo ov.
Proof.
  intros Hw Hr Hh -> ->. eapply word_eq; [|exact Hh|done|done]. destruct Hw as [-> ? ? ? ? ? ? Hhand ? Hwak ? ?]. rewrite pack_more by lia.
  split; try done; try lia; intros E; try (by destruct (Hhand E)). destruct (Hwak E) as (? & ? & ? & ? & ?). split_and!; done || lia.
Qed.

Lemma word_writer_takes w w' st p rq wq h h' nr nr' nw nw' sl mo ov : word_ok w false 0 st p rq wq h nr nw sl mo ov -> handing h = false ->
  (wq <> [] -> w' = true) -> h' = h \/ (plain_holder h = true /\ plain_holder h' = true) -> nr' = nr -> nw' = nw + 1 ->
  word_ok w' true 0 (pack w' true 0) p rq wq h' nr' nw' sl mo ov.
Proof.
  intros Hw Hnh Hp Hh -> ->. eapply word_eq; [|exact Hh|done|done]. destruct Hw as [_ ? ? Hn ? ? ? Hhand ? Hwak ? ?]. rewrite Hnh in *. cbn in *.
  split; cbn; rewrite ?Hnh; cbn; try done; try lia; by auto.
Qed.

Lemma word_not_handing w a r st p rq wq h nr nw sl mo ov : word_ok w a r st p rq wq h nr nw sl mo ov -> w = false \/ plain_holder h = true -> handing h = false.
Proof. intros Hw Hc. destruct (handing h) eqn:E; [|done]. destruct (wo_handing _ _ _ _ _ _ _ _ _ _ _ _ _ Hw E) as [-> _]. destruct Hc; [done|by destruct h as [[]|]]. Qed.

(** The word that a successful attempt sees. *)
Lemma try_lock_shared_cases s w a r : good s w a r ->
  try_lock_shared s = (s, false) \/ (w = false /\ a = false /\ r < READER_MASK /\ try_lock_shared s = (with_state (u64 (state_ s + 1)) s, true)).
Proof.
  intros Hg. pose proof (gd_word _ _ _ _ Hg) as Hw. pose proof (wo_range _ _ _ _ _ _ _ _ _ _ _ _ _ Hw). unfold try_lock_shared.
  rewrite (wo_state _ _ _ _ _ _ _ _ _ _ _ _ _ Hw), pack_flags, pack_saturated by done. destruct w, a; cbn; try by left. destruct (Z.eqb_spec r READER_MASK); [by left|].
  right. split_and!; [done..|lia|done].
Qed.

Lemma try_lock_cases s w a r : good s w a r ->
  try_lock s = (s, false) \/ (w = false /\ a = false /\ r = 0 /\ try_lock s = (with_state (pack false true 0) s, true)).
Proof.
  intros Hg. pose proof (gd_word _ _ _ _ Hg) as Hw. pose proof (wo_range _ _ _ _ _ _ _ _ _ _ _ _ _ Hw). unfold try_lock, exchange.
  rewrite (wo_state _ _ _ _ _ _ _ _ _ _ _ _ _ Hw). case_decide as E; [|by left]. apply pack_free in E as (-> & -> & ->); [|done]. by right.
Qed.

(** The awaiter takes the lock in shared or exclusive mode. *)
Ltac upd_word Hg Hx w' a' r' word :=
  eapply (good_upd _ _ _ _ _ w' a' r' _ _ _ Hg Hx);
  [ norm_objs Hx; reflexivity | done | tidy; eauto 3 with waiters | tidy; eauto 3 with waiters | tidy; eauto 3 with waiters
  | tidy; others | tidy; set_bits; try (constructor; tauto)
  | simpl; auto | simpl; auto | simpl; word | simpl; try done | first [by left | idtac] | try wait_side Hg Hx | tidy; try flight_side Hg Hx | simpl; exact (gd_tries _ _ _ _ Hg) ].

Ltac takes_shared Hg := eapply word_reader_takes; [exact (gd_word _ _ _ _ Hg)|done|know; first [by left|right; split; done]|count_side|count_side].
Ltac takes_exclusive Hg :=
  eapply word_writer_takes; [exact (gd_word _ _ _ _ Hg)|eapply word_not_handing; [exact (gd_word _ _ _ _ Hg)|know; by auto]|first [exact (wo_preference _ _ _ _ _ _ _ _ _ _ _ _ _ (gd_word _ _ _ _ Hg))|idtac]|know; first [by left|right; split; done]|count_side|count_side].

Lemma ready_try_ok v x s w a r : good s w a r -> is_at v (if cancellable x then ReadyChecked else Ready) s x -> exists w' a' r', good (await_ready_try v s) w' a' r'.
Proof.
  intros Hg [Hx Hp]. facts Hg as Hl. unfold await_ready_try, acquired. rewrite (lookup_total_correct _ _ _ Hx).
  assert (at_pc x = Ready \/ at_pc x = ReadyChecked) as Hp' by (destruct (cancellable x); auto). clear Hp. destruct (kind_of x) eqn:Ek.
  - destruct (try_lock_shared_cases _ _ _ _ Hg) as [->|(-> & -> & Hr & ->)].
    + exists w, a, r. shape_of Hl Hx; simpl in *; simplify_eq; cases; upd_same Hg Hx.
    + exists false, false, (r + 1). shape_of Hl Hx; simpl in *; simplify_eq; cases; upd_word Hg Hx false false (r + 1) ltac:(takes_shared Hg).
  - destruct (try_lock_cases _ _ _ _ Hg) as [->|(-> & -> & -> & ->)].
    + exists w, a, r. shape_of Hl Hx; simpl in *; simplify_eq; cases; upd_same Hg Hx.
    + exists false, true, 0. shape_of Hl Hx; simpl in *; simplify_eq; cases; upd_word Hg Hx false true 0 ltac:(takes_exclusive Hg).
Qed.

Lemma suspend_fast_ok v x s w a r : good s w a r -> is_at v Fast s x -> exists w' a' r', good (await_suspend_fast v s) w' a' r'.
Proof.
  intros Hg [Hx Hp]. facts Hg as Hl. unfold await_suspend_fast, acquired. destruct (try_lock_shared_cases _ _ _ _ Hg) as [->|(-> & -> & Hr & ->)].
  - exists w, a, r. shape_of Hl Hx; simpl in *; simplify_eq; cases; upd_same Hg Hx.
  - exists false, false, (r + 1). shape_of Hl Hx; simpl in *; simplify_eq; cases; upd_word Hg Hx false false (r + 1) ltac:(takes_shared Hg).
Qed.

(** A reader that queues. *)
Lemma word_reader_queues w a r st p rq wq h h' nr nr' nw nw' sl mo ov v : word_ok w a r st p rq wq h nr nw sl mo ov ->
  has WRITER_FLAGS st || saturated st = true -> h' = h \/ (plain_holder h = true /\ plain_holder h' = true) -> plain_holder h = true -> nr' = nr -> nw' = nw ->
  word_ok w a r st p (rq ++ [v]) wq h' nr' nw' sl mo (ov || negb (has WRITER_FLAGS st)).
Proof.
  intros Hw Hf Hh Hph -> ->. eapply word_eq; [|exact Hh|done|done]. pose proof (wo_range _ _ _ _ _ _ _ _ _ _ _ _ _ Hw).
  assert (forall g, h <> Some (Finishing g)) as Hn by (intros g ->; done). destruct Hw as [-> ? ? ? ? ? ? ? ? ? ? ?]. rewrite pack_flags, pack_saturated in * by done.
  split; try done; [intros g E; by apply Hn in E|]. intros _. destruct w, a; try by auto. do 5 right. by rewrite orb_true_r.
Qed.

Lemma reader_decide_ok retry v x s w a r : good s w a r -> is_at v Decide s x -> kind_of x = Reader -> exists w' a' r', good (reader_decide retry v s) w' a' r'.
Proof.
  intros Hg [Hx Hp] Hk. facts Hg as Hl. pose proof (gd_word _ _ _ _ Hg) as Hw. pose proof (wo_range _ _ _ _ _ _ _ _ _ _ _ _ _ Hw).
  unfold reader_decide. destruct (has WRITER_FLAGS (state_ s) || saturated (state_ s)) eqn:Ef.
  - exists w, a, r. unfold publish. shape_of Hl Hx; simpl in *; simplify_eq; cases; holders; rewrite (lookup_total_correct _ _ _ Hx); simpl.
    all: upd_word Hg Hx w a r ltac:(eapply word_reader_queues; [exact Hw|done|know; by auto|by know|count_side|count_side]).
    all: intros u [Hu|Hu%list_elem_of_singleton]%elem_of_app; subst; by auto.
  - destruct retry.
    + exists w, a, r. shape_of Hl Hx; simpl in *; simplify_eq; cases; holders; upd_same Hg Hx.
    + rewrite (wo_state _ _ _ _ _ _ _ _ _ _ _ _ _ Hw), pack_flags, pack_saturated in Ef by done. apply orb_false_iff in Ef as [[-> ->]%orb_false_iff Er%Z.eqb_neq].
      assert (r < READER_MASK) by lia. exists false, false, (r + 1). unfold acquired_locked, acquired. shape_of Hl Hx; simpl in *; simplify_eq; cases; holders; norm_objs Hx.
      all: upd_word Hg Hx false false (r + 1) ltac:(takes_shared Hg).
Qed.

Lemma writer_decide_ok v x s w a r : good s w a r -> is_at v Decide s x -> kind_of x = Writer -> exists w' a' r', good (writer_decide v s) w' a' r'.
Proof.
  intros Hg [Hx Hp] Hk. facts Hg as Hl. unfold writer_decide. change (exchange 0 WRITER_ACTIVE s) with (try_lock s).
  destruct (try_lock_cases _ _ _ _ Hg) as [->|(-> & -> & -> & ->)].
  - exists w, a, r. shape_of Hl Hx; simpl in *; simplify_eq; cases; holders; upd_same Hg Hx.
  - exists false, true, 0. unfold acquired_locked, acquired. shape_of Hl Hx; simpl in *; simplify_eq; cases; holders; norm_objs Hx.
    all: upd_word Hg Hx false true 0 ltac:(takes_exclusive Hg).
Qed.

Lemma word_announce w a r st p rq wq h nr nr' nw nw' sl mo ov : word_ok w a r st p rq wq h nr nw sl mo ov -> plain_holder h = true -> nr' = nr -> nw' = nw ->
  word_ok true a r (Z.lor st WRITER_WAITING) p rq wq h nr' nw' sl mo ov.
Proof.
  intros Hw Hh -> ->. pose proof (wo_range _ _ _ _ _ _ _ _ _ _ _ _ _ Hw). destruct Hw as [-> ? ? ? ? ? ? ? ? ? ? ?]. rewrite pack_announce by done.
  destruct h as [[]|]; try done; split; cbn in *; try done; by auto.
Qed.

Lemma writer_announce_ok v x s w a r : good s w a r -> is_at v Announce s x -> exists w' a' r', good (writer_announce v s) w' a' r'.
Proof.
  intros Hg [Hx Hp]. facts Hg as Hl. unfold writer_announce. exists true, a, r. shape_of Hl Hx; simpl in *; simplify_eq; cases; holders.
  all: upd_word Hg Hx true a r ltac:(eapply word_announce; [exact (gd_word _ _ _ _ Hg)|by know|count_side|count_side]).
Qed.

(** A writer that queues: the exchange it tried failed, so that somebody owns the lock. *)
Lemma word_writer_queues a r st p rq wq h h' nr nr' nw nw' sl mo ov v : word_ok true a r st p rq wq h nr nw sl mo ov ->
  st <> WRITER_WAITING -> Z.of_nat (length wq) < SIZE_MAX -> plain_holder h = true -> plain_holder h' = true -> nr' = nr -> nw' = nw ->
  word_ok true a r st (u64 (p + 1)) rq (wq ++ [v]) h' nr' nw' sl mo ov.
Proof.
  intros Hw Hst Hlen Hh Hh' -> ->. eapply (word_eq _ _ _ _ _ _ _ h); [|by right|done|done]. pose proof (wo_range _ _ _ _ _ _ _ _ _ _ _ _ _ Hw).
  destruct Hw as [-> ? ? ? ? [-> _] ? ? ? ? ? ?]. assert (~ (a = false /\ r = 0)) as Hu by (intros [-> ->]; by apply Hst, pack_only_waiting).
  assert (u64 (Z.of_nat (length wq) + 1) = Z.of_nat (length (wq ++ [v]))) as -> by (rewrite length_app; cbn; rewrite u64_small; unfold SIZE_MAX in *; lia).
  assert (Z.of_nat (length (wq ++ [v])) <= SIZE_MAX) by (rewrite length_app; cbn; lia).
  destruct h as [[]|]; try done; split; cbn in *; try done; try lia; intros _; destruct a; try (by left); right; left; lia.
Qed.

Lemma writer_recheck_ok v x s w a r : good s w a r -> is_at v Recheck s x -> Z.of_nat (length (writer_waiters_ s)) < SIZE_MAX -> exists w' a' r', good (writer_recheck v s) w' a' r'.
Proof.
  intros Hg [Hx Hp] Hlen. facts Hg as Hl. pose proof (gd_word _ _ _ _ Hg) as Hw. pose proof (wo_range _ _ _ _ _ _ _ _ _ _ _ _ _ Hw).
  pose proof (gd_recheck _ _ _ _ Hg _ _ Hx Hp) as ->. unfold writer_recheck, exchange. case_decide as E.
  - rewrite (wo_state _ _ _ _ _ _ _ _ _ _ _ _ _ Hw) in E. apply pack_only_waiting in E as (_ & -> & ->); [|done].
    rewrite (writer_word_pack _ _ (proj1 (wo_pending _ _ _ _ _ _ _ _ _ _ _ _ _ Hw))). set (w' := negb (bool_decide (writer_waiters_ s = []))). exists w', true, 0.
    assert (writer_waiters_ s <> [] -> w' = true) by (intros Hne; unfold w'; by rewrite bool_decide_false).
    assert (w' = true -> writer_waiters_ s <> []) by (unfold w'; intros E Ew; by rewrite bool_decide_true in E).
    unfold acquired_locked, acquired. shape_of Hl Hx; simpl in *; simplify_eq; cases; holders; norm_objs Hx.
    all: upd_word Hg Hx w' true 0 ltac:(takes_exclusive Hg).
    all: first [done | by (right; intros u Hu; tidy; congruence) | by (intros ?; left; auto)].
  - exists true, a, r. unfold publish. shape_of Hl Hx; simpl in *; simplify_eq; cases; holders; rewrite (lookup_total_correct _ _ _ Hx); simpl.
    all: upd_word Hg Hx true a r ltac:(eapply word_writer_queues; [exact Hw|done|done|by know|by know|count_side|count_side]).
    all: first [by (intros u [Hu|Hu%list_elem_of_singleton]%elem_of_app; subst; auto) | by (intros _; left; simpl; destruct (writer_waiters_ s))].
Qed.

(** ** Releasing the lock *)

(** An owner counts besides the one in the hands of the thread in the critical section. *)
Lemma owner_counts s w a r v x k : good s w a r -> objs s !! v = Some x -> got x = true -> kind_of x = k -> v ∉ in_flight (holder s) ->
  1 + one (match k with Reader => finishing (holder s) | Writer => handing (holder s) end) <= owners k (objs s).
Proof.
  intros Hg Hx Hgot Hk Hnf. pose proof (gd_flight _ _ _ _ Hg) as Hf.
  assert (1 <= owners k (objs s)) as H1.
  { unfold owners. rewrite (count_if_delete _ _ _ _ Hx), Hgot, Hk, bool_decide_true by done. cbn. pose proof (count_if_nonneg (fun x => got x && bool_decide (kind_of x = k)) (delete v (objs s))). lia. }
  assert (forall u y, objs s !! u = Some y -> got y = true -> kind_of y = k -> u <> v -> 2 <= owners k (objs s)) as H2.
  { intros u y Hy Hgy Hky Hne. eapply (count_if_two _ _ u v y x); [done..| | |done]; by rewrite ?Hgy, ?Hgot, ?Hky, ?Hk, bool_decide_true. }
  destruct (holder s) as [[u|u|[u|]|]|], k; cbn in *; try lia.
  all: destruct (Hf u) as (y & Hy & Hgy & _ & Hky); [by left|]. all: specialize (H2 u y Hy Hgy Hky); assert (u <> v) as Hne by (intros ->; apply Hnf; by left); specialize (H2 Hne); lia.
Qed.

Lemma owners_in_hand s w a r k : good s w a r -> one (match k with Reader => finishing (holder s) | Writer => handing (holder s) end) <= owners k (objs s).
Proof.
  intros Hg. pose proof (gd_flight _ _ _ _ Hg) as Hf. pose proof (owners_nonneg k (objs s)).
  destruct (holder s) as [[u|u|[u|]|]|], k; cbn in *; try lia.
  all: destruct (Hf u) as (y & Hy & Hgy & _ & Hky); [by left|]. all: unfold owners; rewrite (count_if_delete _ _ _ _ Hy), Hgy, Hky, bool_decide_true by done; cbn.
  all: match goal with |- context [count_if ?f ?m] => pose proof (count_if_nonneg f m); lia end.
Qed.

Lemma unlock_shared_eq s : unlock_shared s =
  with_tasks (if negb (readers (state_ s) =? 1) || negb (has WRITER_WAITING (state_ s)) then slow s else S (slow s)) (more s) (with_state (u64 (state_ s - 1)) s).
Proof. unfold unlock_shared. by destruct (negb _ || negb _). Qed.

(** The last reader to leave while a writer waits takes the slow path. *)
Lemma word_reader_leaves w a r st p rq wq h nr nr' nw nw' sl mo ov : word_ok w a r st p rq wq h nr nw sl mo ov -> 1 + one (finishing h) <= nr -> nr' = nr - 1 -> nw' = nw ->
  word_ok w a (r - 1) (u64 (st - 1)) p rq wq h nr' nw' (if negb (readers st =? 1) || negb (has WRITER_WAITING st) then sl else S sl) mo ov.
Proof.
  intros [-> Hr Hnr Hnw Hex Hp Hpref Hhand Hfin Hwak Hws Hrs] Hn -> ->.
  assert (0 <= one (waking h) <= 1) by (unfold one; destruct (waking h); lia). assert (0 <= one (finishing h)) by (unfold one; destruct (finishing h); lia).
  assert (0 < r) by (destruct (waking h) eqn:E; [by apply Hwak|cbn in *; lia]). rewrite pack_less, pack_readers, pack_waiting by done.
  split; try done; try lia.
  - intros E. destruct (Hwak E) as (? & ? & ? & _ & ?). rewrite E in Hnr. split_and!; [done..| |done]. cbn in *. lia.
  - intros Hne. rewrite (Hpref Hne). destruct (Z.eqb_spec r 1); cbn; [right; right; left; lia|right; left; lia].
Qed.

(** The awaiter [v] gives up the lock, as a reader or as a writer. *)
Lemma shared_release_ok f v x s w a r : good s w a r -> objs s !! v = Some x -> can_release x s -> got x = true -> v ∉ in_flight (holder s) -> v ∉ reader_waiters_ s ++ writer_waiters_ s ->
  locked_by (holder s) <> Some v -> got (f x) = false -> at_pc (f x) <> Recheck -> at_pc x <> Recheck -> kind_of (f x) = kind_of x ->
  (forall q sc cn h, wshape x q sc cn h -> wshape (f x) q sc cn h) ->
  (exists w' a' r', good (release (kind_of x) (upd v f s)) w' a' r') /\ asserts_ok (release (kind_of x) (upd v f s)) = asserts_ok s.
Proof.
  intros Hg Hx Hrel Hgot Hnf Hnq Hnl Hgf Hpf Hpx Hkf Hsh. facts Hg as Hl. pose proof (owner_counts _ _ _ _ _ _ _ Hg Hx Hgot eq_refl Hnf) as Hn. pose proof (gd_tries _ _ _ _ Hg).
  pose proof (lo_shape _ _ _ _ _ Hl _ _ Hx) as Hs. destruct (kind_of x) eqn:Ek; cbn [release].
  - rewrite unlock_shared_eq. split; [|done]. exists w, a, (r - 1). 
    eapply (good_upd _ _ _ _ _ _ _ _ _ _ _ Hg Hx); [norm_objs Hx; reflexivity|congruence|done|done|done|done|by apply Hsh|by auto|by auto| |done|by left| | |done].
    + simpl. rewrite Ek, Hgot, Hgf, bool_decide_true, bool_decide_false by done. eapply word_reader_leaves; [exact (gd_word _ _ _ _ Hg)|lia|cbn; lia|lia].
    + intros E. do 4 right. split_and!; try done.
    + right. split; [done|]. intros Hf. contradiction.
  - specialize (Hrel Ek). refine (unlock_ok (upd v f s) w a r _ _); [|done]. pose proof (good_owned _ _ _ _ Hg Hrel) as [[Hl' Hr Hw Hword Ht] _]. know.
    split; simpl; rewrite ?(lookup_total_correct _ _ _ Hx).
    + eapply linked_ok_update; try done. by apply Hsh.
    + intros u Hu. destruct (decide (u = v)) as [->|]; [|rewrite lookup_total_insert_ne by done; by apply Hr]. destruct Hnq. apply elem_of_app. by left.
    + intros u Hu. destruct (decide (u = v)) as [->|]; [|rewrite lookup_total_insert_ne by done; by apply Hw]. destruct Hnq. apply elem_of_app. by right.
    + rewrite !(owners_insert _ _ v x) by congruence. rewrite Ek, Hgot, Hgf, bool_decide_false, bool_decide_true by done. cbn.
      eapply word_eq; [exact Hword|by left|lia|lia].
    + done.
Qed.

Lemma not_in_flight s w a r v x : good s w a r -> objs s !! v = Some x -> at_pc x <> Suspended -> v ∉ in_flight (holder s).
Proof. intros Hg Hx Hp Hf. destruct (gd_flight _ _ _ _ Hg _ Hf) as (y & Hy & _ & Hpy & _). congruence. Qed.

Ltac releases Hg Hx :=
  apply (shared_release_ok _ _ _ _ _ _ _ Hg Hx); try done; [by apply (not_in_flight _ _ _ _ _ _ Hg Hx)|];
  intros ? ? ? ? Hs; inversion Hs; subst; cases; constructor; tauto.

Lemma give_back_ok v x s w a r : good s w a r -> is_at v GiveBack s x -> can_release x s ->
  (exists w' a' r', good (give_back v s) w' a' r') /\ asserts_ok (give_back v s) = asserts_ok s.
Proof. unfold give_back. intros Hg [Hx ?] Hc. facts Hg as Hl. rewrite (lookup_total_correct _ _ _ Hx). shape_of Hl Hx; simpl in *; simplify_eq; cases; releases Hg Hx. Qed.

Lemma destroy_release_ok v x s w a r : good s w a r -> is_at v Destroying s x -> can_release x s ->
  (exists w' a' r', good (destroy_release v s) w' a' r') /\ asserts_ok (destroy_release v s) = asserts_ok s.
Proof. unfold destroy_release. intros Hg [Hx ?] Hc. facts Hg as Hl. rewrite (lookup_total_correct _ _ _ Hx). shape_of Hl Hx; simpl in *; simplify_eq; cases; releases Hg Hx. Qed.

Lemma shared_unlock_owner_ok v x s w a r : good s w a r -> is_at v (Done completed) s x -> can_release x s ->
  (exists w' a' r', good (unlock_owner v s) w' a' r') /\ asserts_ok (unlock_owner v s) = asserts_ok s.
Proof. unfold unlock_owner. intros Hg [Hx ?] Hc. facts Hg as Hl. rewrite (lookup_total_correct _ _ _ Hx). shape_of Hl Hx; simpl in *; simplify_eq; cases; releases Hg Hx. Qed.

(** Callers that own the lock without an awaiter. *)
Lemma good_word s s' w a r w' a' r' : good s w a r -> objs s' = objs s -> reader_waiters_ s' = reader_waiters_ s -> writer_waiters_ s' = writer_waiters_ s -> holder s' = holder s ->
  to_schedule s' = to_schedule s -> to_cancel s' = to_cancel s -> w' = w -> 0 <= shared_tries s' /\ 0 <= exclusive_tries s' ->
  word_ok w' a' r' (state_ s') (pending_writers_ s') (reader_waiters_ s') (writer_waiters_ s') (holder s') (shared_owners s') (exclusive_owners s') (slow s') (more s') (overflow s') ->
  good s' w' a' r'.
Proof. intros [Hl Hr Hw Hword Hre Hwait Hfl Ht] E1 E2 E3 E4 E5 E6 -> Ht' Hword'. split; rewrite ?E1, ?E2, ?E3, ?E4, ?E5, ?E6 in *; done. Qed.

Lemma tried_shared_ok s w a r : good s w a r -> exists w' a' r', good (let (s', ok) := try_lock_shared s in if ok then add_tries 1 0 s' else s') w' a' r'.
Proof.
  intros Hg. pose proof (gd_tries _ _ _ _ Hg). destruct (try_lock_shared_cases _ _ _ _ Hg) as [->|(-> & -> & Hr & ->)]; [eauto|].
  exists false, false, (r + 1). eapply (good_word _ _ _ _ _ _ _ _ Hg); try done; cbn; [lia|]. eapply word_reader_takes; [exact (gd_word _ _ _ _ Hg)|done|by left|lia|lia].
Qed.

Lemma tried_ok s w a r : good s w a r -> exists w' a' r', good (let (s', ok) := try_lock s in if ok then add_tries 0 1 s' else s') w' a' r'.
Proof.
  intros Hg. pose proof (gd_tries _ _ _ _ Hg). pose proof (gd_word _ _ _ _ Hg) as Hw. destruct (try_lock_cases _ _ _ _ Hg) as [->|(-> & -> & -> & ->)]; [eauto|].
  exists false, true, 0. eapply (good_word _ _ _ _ _ _ _ _ Hg); try done; cbn; [lia|].
  eapply word_writer_takes; [exact Hw|eapply word_not_handing; [exact Hw|by left]|exact (wo_preference _ _ _ _ _ _ _ _ _ _ _ _ _ Hw)|by left|lia|lia].
Qed.

Lemma untried_shared_ok s w a r : good s w a r -> 0 < shared_tries s ->
  (exists w' a' r', good (unlock_shared (add_tries (-1) 0 s)) w' a' r') /\ asserts_ok (unlock_shared (add_tries (-1) 0 s)) = asserts_ok s.
Proof.
  intros Hg Ht. pose proof (gd_tries _ _ _ _ Hg). pose proof (owners_in_hand _ _ _ _ Reader Hg). rewrite unlock_shared_eq. split; [|done]. exists w, a, (r - 1).
  eapply (good_word _ _ _ _ _ _ _ _ Hg); try done; cbn; [lia|]. eapply word_reader_leaves; [exact (gd_word _ _ _ _ Hg)|cbn in *; lia|lia|lia].
Qed.

Lemma untried_ok s w a r : good s w a r -> 0 < exclusive_tries s -> holder s = None ->
  (exists w' a' r', good (unlock (add_tries 0 (-1) s)) w' a' r') /\ asserts_ok (unlock (add_tries 0 (-1) s)) = asserts_ok s.
Proof.
  intros Hg Ht Hh. pose proof (good_owned _ _ _ _ Hg Hh) as [[Hl Hr Hw Hword [? ?]] _]. refine (unlock_ok (add_tries 0 (-1) s) w a r _ _); [|done].
  split; cbn; try done; [|lia]. eapply word_eq; [exact Hword|by left|lia|lia].
Qed.

(** ** Leaving a queue *)

Lemma upd_known v f s x : objs s !! v = Some x -> upd v f s = with_objs (<[v := f x]> (objs s)) s.
Proof. intros Hx. unfold upd. by rewrite (lookup_total_correct _ _ _ Hx). Qed.

Lemma upd_again v f s x m : upd v f (with_objs (<[v := x]> m) s) = with_objs (<[v := f x]> m) s.
Proof. unfold upd, with_objs. cbn. by rewrite lookup_total_insert_eq, insert_insert_eq. Qed.

Lemma filter_nonempty (v : id) (q : list id) : filter (.≠ v) q <> [] -> q <> [].
Proof. by intros H ->. Qed.

Lemma filter_absent (v : id) (q : list id) : v ∉ q -> filter (.≠ v) q = q.
Proof. induction q as [|u q IH]; [done|]. intros [Hu Hq]%not_elem_of_cons. rewrite filter_cons_True by done. by rewrite IH. Qed.

Lemma length_filter_self (v : id) (q : list id) : NoDup q -> v ∈ q -> Z.of_nat (length (filter (.≠ v) q)) = Z.of_nat (length q) - 1.
Proof.
  induction 1 as [|u q Hu Hq IH]; [by intros ?%not_elem_of_nil|]. rewrite filter_cons. case_decide as E.
  - intros [->|Hv]%elem_of_cons; [done|]. cbn [length]. rewrite !Nat2Z.inj_succ, IH by done. lia.
  - subst u. intros _. cbn [length]. rewrite Nat2Z.inj_succ. rewrite filter_absent by done. lia.
Qed.

Lemma word_reader_departs w a r st p rq wq h nr nw sl mo ov v : word_ok w a r st p rq wq h nr nw sl mo ov -> plain_holder h = true ->
  word_ok w a r st p (filter (.≠ v) rq) wq None nr nw sl mo ov.
Proof.
  intros Hw Hh. assert (word_ok w a r st p rq wq None nr nw sl mo ov) as [] by (eapply word_eq; [exact Hw|by right|done|done]).
  split; try done. intros Hq%filter_nonempty. by auto.
Qed.

Lemma word_writer_departs w a r st p rq wq h nr nr' nw nw' sl mo ov v : word_ok w a r st p rq wq h nr nw sl mo ov -> plain_holder h = true -> NoDup wq -> v ∈ wq -> nr' = nr -> nw' = nw ->
  0 < p /\ word_ok w a r st (u64 (p - 1)) rq (filter (.≠ v) wq) None nr' nw' sl mo ov.
Proof.
  intros Hw Hh Hnd Hv -> ->. assert (word_ok w a r st p rq wq None nr nw sl mo ov) as [? ? ? ? ? [-> ?] ? ? ? ? ? ?] by (eapply word_eq; [exact Hw|by right|done|done]).
  pose proof (length_filter_self v wq Hnd Hv) as E. assert (0 < Z.of_nat (length wq)) by lia. split; [done|].
  rewrite u64_small, <- E by (unfold SIZE_MAX in *; lia). split; try done; [lia| |]; intros Hq%filter_nonempty; by auto.
Qed.

Lemma depart_ok v x x' s w a r : good s w a r -> objs s !! v = Some x -> v ∈ reader_waiters_ s ++ writer_waiters_ s -> holder s = None \/ holder s = Some (ByWaiter v) ->
  kind_of x' = kind_of x -> got x = false -> got x' = false -> at_pc x <> Recheck -> at_pc x' <> Recheck ->
  wshape x' false (bool_decide (v ∈ to_schedule s)) (bool_decide (v ∈ to_cancel s)) false ->
  (exists w' a' r', good (depart v (with_objs (<[v := x']> (objs s)) s)) w' a' r') /\ asserts_ok (depart v (with_objs (<[v := x']> (objs s)) s)) = asserts_ok s.
Proof.
  intros Hg Hx Hv Hh Hk Hgx Hgx' Hp Hp' Hs. facts Hg as Hl. assert (plain_holder (holder s) = true) as Hph by (by destruct Hh as [->| ->]). assert (in_flight (holder s) = []) as Hf by (by destruct Hh as [->| ->]).
  assert (forall u, u <> v -> locked_by (holder s) <> Some u) as Hlk by (intros u Hu; destruct Hh as [->| ->]; cbn; congruence).
  assert (kind_of (objs s !!! v) = kind_of x) as Hkx by (by rewrite (lookup_total_correct _ _ _ Hx)). pose proof (gd_word _ _ _ _ Hg) as Hw. rewrite Hf in *. cbn in *.
  unfold depart. cbn. rewrite lookup_total_insert_eq, Hk. destruct (kind_of x) eqn:Ek.
  - assert (v ∈ reader_waiters_ s) as Hr by (apply elem_of_app in Hv as [?|Hv]; [done|]; apply (gd_writers _ _ _ _ Hg) in Hv; congruence). split; [|done]. exists w, a, r.
    eapply (good_upd _ _ _ _ _ w a r _ _ _ Hg Hx); [reflexivity|congruence|cbn; eauto 3 with waiters|by rewrite ?Hf|done| | | | | |by intros ?|by left| |by left|exact (gd_tries _ _ _ _ Hg)]; cbn.
    + rewrite Hf. intros u Hu. split_and!; [by apply elem_filter_left|done|done|]. split; [done|]. intros E. by destruct (Hlk u Hu).
    + rewrite (bool_decide_false (v ∈ filter _ _ ++ _)), (bool_decide_false (None = Some v)) by (done || by apply elem_filter_left_self). done.
    + intros u [_ Hu]%list_elem_of_filter. by left.
    + intros u Hu. by left.
    + rewrite Ek, Hgx, Hgx'. eapply word_reader_departs; [|exact Hph]. eapply word_eq; [exact Hw|by left|count_side|count_side].
    + intros E. left. destruct Hh as [Hh|Hh]; [by apply (waiting_queued _ _ _ _ Hg)|by apply (waiting_held _ _ _ _ _ _ Hg Hh Hx Hp)].
  - assert (v ∈ writer_waiters_ s) as Hr by (apply elem_of_app in Hv as [Hv|?]; [|done]; apply (gd_readers _ _ _ _ Hg) in Hv; congruence).
    pose proof Hl as Hnd. apply lo_q, NoDup_app in Hnd as (_ & _ & Hnd).
    destruct (word_writer_departs _ _ _ _ _ _ _ _ _ (shared_owners s) _ (exclusive_owners s) _ _ _ v Hw Hph Hnd Hr eq_refl eq_refl) as [Hpos Hw'].
    match goal with |- _ /\ asserts_ok (finish_writer_removal_locked ?t) = _ => assert (owned t w a r (shared_owners t) (exclusive_owners t)) as Ho end.
    { split; cbn; [| | | |exact (gd_tries _ _ _ _ Hg)].
      - eapply linked_ok_update; [exact Hl|eauto 3 with waiters|done|done| |].
        + intros u Hu. split_and!; [by apply elem_filter_right|done|done|]. split; [done|]. intros E. by destruct (Hlk u Hu).
        + rewrite (bool_decide_false (v ∈ _ ++ filter _ _)), (bool_decide_false (None = Some v)) by (done || by apply elem_filter_right_self). done.
      - intros u Hu. destruct (decide (u = v)) as [->|]; [|rewrite lookup_total_insert_ne by done; by apply (gd_readers _ _ _ _ Hg)]. apply (gd_readers _ _ _ _ Hg) in Hu. congruence.
      - intros u [Hu Hu']%list_elem_of_filter. rewrite lookup_total_insert_ne by done. by apply (gd_writers _ _ _ _ Hg).
      - rewrite !(owners_insert _ _ v x) by congruence. rewrite Ek, Hgx, Hgx'. eapply word_eq; [exact Hw'|by left|count_side|count_side]. }
    destruct (shared_finish_ok _ _ _ _ Ho) as [Hfin ->]. split; [done|]. cbn. apply Z.ltb_lt in Hpos as ->. apply andb_true_r.
Qed.

Lemma unblock_ok v x s w a r : good s w a r -> is_at v Published s x ->
  (exists w' a' r', good (await_suspend_unblock v s) w' a' r') /\ asserts_ok (await_suspend_unblock v s) = asserts_ok s.
Proof.
  unfold await_suspend_unblock. start as Hg Hl Hx.
  - split; [|done]. exists w, a, r. upd_same Hg Hx.
  - rewrite (upd_known _ _ _ _ Hx), upd_again. apply (depart_ok _ _ _ _ _ _ _ Hg Hx); try done; [by right|]. tidy. know. set_bits. constructor; tauto.
Qed.

Lemma resume_ok v x s w a r : good s w a r -> objs s !! v = Some x -> at_pc x = Resumable \/ (at_pc x = Suspended /\ scheduled x = true) ->
  (at_pc x = Suspended -> cancellable x = true -> was_cancelled (wake_of x) = true -> holder s = None) ->
  (exists w' a' r', good (await_resume v s) w' a' r') /\ asserts_ok (await_resume v s) = asserts_ok s.
Proof.
  intros Hg Hx Hp Hh. unfold await_resume, linked. rewrite (lookup_total_correct _ _ _ Hx). facts Hg as Hl.
  shape_of Hl Hx; simpl in *; simplify_eq; cases; simpl.
  all: try (split; [|done]; exists w, a, r; upd_same Hg Hx).
  - destruct c; simpl; (split; [|done]); exists w, a, r; upd_same Hg Hx.
  - case_bool_decide as Hq; [|split; [|done]; exists w, a, r; upd_same Hg Hx].
    specialize (Hh eq_refl eq_refl eq_refl). rewrite (upd_known _ _ _ _ Hx). apply (depart_ok _ _ _ _ _ _ _ Hg Hx); try done; [by left|]. know. set_bits. constructor; tauto.
Qed.

Lemma shared_destroy_ok v x s w a r : good s w a r -> is_at v Suspended s x -> holder s = None ->
  (exists w' a' r', good (destroy v s) w' a' r') /\ asserts_ok (destroy v s) = asserts_ok s.
Proof.
  unfold destroy, linked. intros Hg [Hx Hp] Hh. rewrite (lookup_total_correct _ _ _ Hx). facts Hg as Hl. know. rewrite (upd_known _ _ _ _ Hx), !upd_again.
  case_bool_decide as Hq.
  - assert (got x = false) by (shape_of Hl Hx; simpl in *; simplify_eq; cases; try contradiction; done).
    apply (depart_ok _ _ _ _ _ _ _ Hg Hx); try done; [by left| |]; [congruence|]. shape_of Hl Hx; simpl in *; simplify_eq; cases; try contradiction; know; set_bits; constructor; tauto.
  - simpl in Hq. shape_of Hl Hx; simpl in *; simplify_eq; cases; try contradiction; simpl; (split; [|done]); exists w, a, r; upd_same Hg Hx.
Qed.

Lemma shared_construct_ok v k c s w a r : good s w a r -> objs s !! v = None -> good (construct v k c s) w a r.
Proof.
  intros [Hl Hr Hw Hword Hre Hwait Hfl Ht] Hn. pose proof (lo_dom _ _ _ _ _ Hl v) as Hdom. rewrite Hn in Hdom.
  assert (v ∉ reader_waiters_ s ++ writer_waiters_ s /\ v ∉ in_flight (holder s) ++ to_schedule s /\ v ∉ to_cancel s /\ locked_by (holder s) <> Some v) as (H1 & H2 & H3 & H4)
    by (split_and!; intros ?; destruct Hdom as [? ?]; eauto; done).
  assert (forall u, u ∈ reader_waiters_ s ++ writer_waiters_ s -> u <> v) as Hq by (by intros u Hu ->).
  split; cbn.
  - eapply linked_ok_update; [exact Hl|apply Hl..|done|]. set_bits. destruct c; constructor; by auto.
  - intros u Hu. rewrite lookup_total_insert_ne; [by apply Hr|]. intros ->. apply H1, elem_of_app. by left.
  - intros u Hu. rewrite lookup_total_insert_ne; [by apply Hw|]. intros ->. apply H1, elem_of_app. by right.
  - unfold owners. rewrite !count_if_insert, Hn. cbn. eapply word_eq; [exact Hword|by left|unfold owners; lia|unfold owners; lia].
  - intros u x. destruct (decide (u = v)) as [->|]; [rewrite lookup_insert_eq; by intros [= <-]|rewrite lookup_insert_ne by done; apply Hre].
  - intros E. destruct (Hwait E) as [?|[(u & x & Hx & Hp)|?]]; [by auto| |by auto]. right; left. exists u, x. rewrite lookup_insert_ne; [done|congruence].
  - intros u Hu. destruct (Hfl u Hu) as (x & Hx & Hrest). exists x. rewrite lookup_insert_ne; [done|congruence].
  - done.
Qed.

(** ** Reachable states *)

(** A failed assertion stays failed. *)
Lemma claim_loop_asserts drop q s : (forall q s, asserts_ok s = false -> asserts_ok (drop q s) = false) -> asserts_ok s = false -> asserts_ok (claim_loop drop q s).2 = false.
Proof.
  intros Hd. revert s. induction q as [|v q IH]; intros s Hs; [done|]. cbn. destruct (cancellable _); [|cbn; by apply Hd].
  destruct (claim_notification _) as [st act]. case_decide; [|cbn; by apply Hd]. apply IH. cbn. by apply Hd.
Qed.

Lemma claim_reader_asserts s : asserts_ok s = false -> asserts_ok (claim_reader_locked s).2 = false.
Proof. by apply claim_loop_asserts. Qed.
Lemma claim_writer_asserts s : asserts_ok s = false -> asserts_ok (claim_writer_locked s).2 = false.
Proof. apply claim_loop_asserts. intros q t Ht. cbn. by rewrite Ht. Qed.

Lemma finish_asserts s : asserts_ok s = false -> asserts_ok (finish_writer_removal_locked s) = false.
Proof.
  intros Hs. unfold finish_writer_removal_locked. destruct (negb _); [done|]. destruct (has _ _); [done|].
  pose proof (claim_reader_asserts s Hs) as H. by destruct (claim_reader_locked s).
Qed.

Lemma unlock_asserts s : asserts_ok s = false -> asserts_ok (unlock s) = false.
Proof.
  intros Hs. unfold unlock. pose proof (claim_writer_asserts s Hs) as H. destruct (claim_writer_locked s) as [[v|] t]; [done|].
  pose proof (claim_reader_asserts t H) as H'. destruct (claim_reader_locked t) as [[v|] t']; [|done]. unfold wake_more. cbn. by case_decide.
Qed.

Lemma release_asserts k s : asserts_ok s = false -> asserts_ok (release k s) = false.
Proof. destruct k; cbn; [|apply unlock_asserts]. by rewrite unlock_shared_eq. Qed.

Lemma depart_asserts v s : asserts_ok s = false -> asserts_ok (depart v s) = false.
Proof. intros Hs. unfold depart. destruct (kind_of _); [done|]. apply finish_asserts. cbn. by rewrite Hs. Qed.

Lemma slow_asserts s : asserts_ok s = false -> asserts_ok (unlock_shared_slow s) = false.
Proof.
  intros Hs. unfold unlock_shared_slow. destruct (_ =? 0); [|done]. pose proof (claim_writer_asserts (with_tasks (pred (slow s)) (more s) s) Hs) as H.
  destruct (claim_writer_locked _) as [[v|] t]; [done|by apply finish_asserts].
Qed.

Lemma exchange_asserts g s : asserts_ok s = false -> asserts_ok (finish_exchange g s) = false.
Proof. intros Hs. unfold finish_exchange, wake_more. destruct g; cbn; [case_decide|]; cbn; by rewrite Hs. Qed.

Lemma step_asserts s s' : step s s' -> asserts_ok s = false -> asserts_ok s' = false.
Proof.
  intros Hst Hs. destruct Hst; try done; try (by apply release_asserts); try (by apply unlock_asserts); try (by apply slow_asserts); try (by apply exchange_asserts); try (by rewrite unlock_shared_eq).
  all: unfold await_ready_try, owner_claim, await_suspend_block, await_suspend_fast, await_suspend_lock, reader_decide, writer_decide, writer_recheck, locked_claim, owner_claim,
    await_suspend_unblock, await_resume, destroy, try_lock, try_lock_shared, exchange, acquired_locked, publish, schedule_one, cancel_first, cancel_second, wake_reserve, wake_claim.
  all: try (pose proof (claim_reader_asserts s Hs); destruct (claim_reader_locked s) as [[?|] ?]; done).
  all: repeat case_match; simplify_eq; try done; by apply depart_asserts.
Qed.

Lemma shared_step_ok s s' w a r : good s w a r -> step s s' -> asserts_ok s' = true -> exists w' a' r', good s' w' a' r'.
Proof.
  intros Hg Hst Ha. destruct Hst.
  - eauto using shared_construct_ok.
  - eauto using ready_check_ok.
  - by eapply ready_try_ok.
  - eauto using owner_claim_ok.
  - by eapply give_back_ok.
  - eauto using suspend_check_ok.
  - eauto using suspend_block_ok.
  - eauto using suspend_plain_ok.
  - by eapply suspend_fast_ok.
  - eauto using suspend_throws_ok.
  - eauto using suspend_lock_ok.
  - by eapply reader_decide_ok.
  - by eapply writer_decide_ok.
  - by eapply writer_announce_ok.
  - by eapply writer_recheck_ok.
  - eauto using locked_claim_ok.
  - by eapply unblock_ok.
  - destruct H as [Hx Hp]. eapply (resume_ok _ _ _ _ _ _ Hg Hx); [by left|congruence].
  - destruct H as [Hx Hp]. eapply (resume_ok _ _ _ _ _ _ Hg Hx); [by right|by auto].
  - by eapply shared_destroy_ok.
  - by eapply destroy_release_ok.
  - by eapply shared_unlock_owner_ok.
  - by eapply tried_shared_ok.
  - by eapply tried_ok.
  - by eapply untried_shared_ok.
  - by eapply untried_ok.
  - by eapply slow_ok.
  - by eapply hand_over_ok.
  - by eapply finish_exchange_ok.
  - by eapply wake_reserve_ok.
  - by eapply wake_claim_ok.
  - eauto using schedule_ok.
  - eauto using shared_cancel_first_ok.
  - eauto using shared_cancel_second_ok.
Qed.

Lemma init_good : good init false false 0.
Proof.
  assert (forall k, owners k ∅ = 0) as Hn by (intros k; unfold owners, count_if; by rewrite map_filter_empty, map_size_empty).
  apply owned_good; [|done|done]. split.
  - split; [apply NoDup_nil_2..| |]; [intros v [H|[H|[H|H]]]; by inversion H|]. intros v x Hx. cbn [objs init] in Hx. by rewrite lookup_empty in Hx.
  - by intros v ?%not_elem_of_nil.
  - by intros v ?%not_elem_of_nil.
  - cbn [objs init]. rewrite !Hn. split; cbn; try done; lia.
  - done.
Qed.

Lemma reachable_good s : rtc step init s -> asserts_ok s = true -> exists w a r, good s w a r.
Proof.
  intros Hr. eapply (rtc_invariant step (fun s => asserts_ok s = true -> exists w a r, good s w a r)); [|eauto using init_good|exact Hr].
  intros x y IH Hst Hy. destruct (asserts_ok x) eqn:Ex; [|by rewrite (step_asserts _ _ Hst Ex) in Hy]. destruct (IH eq_refl) as (w & a & r & Hg). by eapply shared_step_ok.
Qed.

(** ** What the lock promises *)

(** The callers that hold the lock: an await that returned, or a successful attempt. *)
Definition holding (k : kind) (s : shared_mutex) : Z :=
  count_if (fun x => bool_decide (at_pc x = Done completed) && bool_decide (kind_of x = k)) (objs s) + match k with Reader => shared_tries s | Writer => exclusive_tries s end.

(** Those that the word counts. *)
Lemma holding_le s w a r k : good s w a r ->
  holding k s + one (match k with Reader => finishing (holder s) | Writer => handing (holder s) end) <= match k with Reader => shared_owners s | Writer => exclusive_owners s end.
Proof.
  intros Hg. pose proof (gd_linked _ _ _ _ Hg) as Hl. pose proof (gd_flight _ _ _ _ Hg) as Hf.
  set (f := fun x => bool_decide (at_pc x = Done completed) && bool_decide (kind_of x = k)). set (g := fun x => got x && bool_decide (kind_of x = k)).
  assert (forall m, (forall u y, m !! u = Some y -> objs s !! u = Some y) -> count_if f m <= count_if g m) as Hle.
  { intros m Hm. apply count_if_mono. intros u y Hy. unfold f, g. intros [Hp Hk]%andb_true_iff. rewrite Hk, andb_true_r. apply bool_decide_eq_true in Hp.
    apply Hm in Hy. shape_of Hl Hy; simpl in *; simplify_eq; cases; simplify_eq; done. }
  assert (count_if f (objs s) + one (match k with Reader => finishing (holder s) | Writer => handing (holder s) end) <= count_if g (objs s)) as H.
  { assert (forall u y, objs s !! u = Some y -> got y = true -> at_pc y = Suspended -> kind_of y = k -> count_if f (objs s) + 1 <= count_if g (objs s)) as Hin.
    { intros u y Hy Hgy Hpy Hky. rewrite (count_if_delete f _ _ _ Hy), (count_if_delete g _ _ _ Hy). unfold f at 2, g at 2. rewrite Hgy, Hpy, Hky, bool_decide_false, bool_decide_true by done. cbn.
      pose proof (Hle (delete u (objs s))). enough (count_if f (delete u (objs s)) <= count_if g (delete u (objs s))) by lia. apply Hle. by intros v z [_ Hz]%lookup_delete_Some. }
    specialize (Hle (objs s) ltac:(done)). destruct (holder s) as [[u|u|[u|]|]|], k; cbn in *; try lia.
    all: destruct (Hf u) as (y & Hy & Hgy & Hpy & Hky); [by left|]. all: by apply (Hin u y). }
  unfold holding, owners. fold f. destruct k; fold g; lia.
Qed.

(** [C11] While no assertion has failed, at most one caller holds the lock exclusively, and nobody holds it shared meanwhile; the reader count covers everybody who holds the lock
    shared, and is exact when nobody is in the internal mutex. *)
Theorem readers_writer_exclusion s : rtc step init s -> asserts_ok s = true ->
  holding Writer s <= 1 /\ (0 < holding Writer s -> holding Reader s = 0 /\ is_writer_active s = true) /\ 0 <= holding Reader s <= reader_count s /\
  (holder s = None -> reader_count s = owners Reader (objs s) + shared_tries s).
Proof.
  intros Hr Ha. destruct (reachable_good s Hr Ha) as (w & a & r & Hg). pose proof (holding_le _ _ _ _ Reader Hg) as H1. pose proof (holding_le _ _ _ _ Writer Hg) as H2. cbn in H1, H2.
  pose proof (gd_tries _ _ _ _ Hg). assert (0 <= holding Reader s) by (unfold holding; pose proof (count_if_nonneg (fun x => bool_decide (at_pc x = Done completed) && bool_decide (kind_of x = Reader)) (objs s)); lia).
  destruct (gd_word _ _ _ _ Hg) as [Hst Hrange Hnr Hnw Hex _ _ Hhand _ Hwak _ _]. unfold reader_count, is_writer_active. rewrite Hst, pack_readers, pack_active by done.
  assert (0 <= one (waking (holder s)) <= 1) by (unfold one; destruct (waking (holder s)); lia).
  assert (waking (holder s) = true -> 0 < r) by (intros E; by destruct (Hwak E) as (_ & _ & _ & ? & _)).
  assert (holding Reader s <= r) by (destruct (waking (holder s)); cbn in *; lia).
  split_and!; try lia; [destruct a; cbn in *; lia| |].
  - intros Hpos. destruct a; cbn in *; [|lia]. specialize (Hex eq_refl). split; [lia|done].
  - intros Hh. rewrite Hh in *. cbn in *. lia.
Qed.

Lemma writer_served s w a r : good s w a r -> writer_waiters_ s <> [] ->
  is_writer_active s = true \/ 0 < reader_count s \/ (0 < slow s)%nat \/ handing (holder s) = true.
Proof.
  intros Hg Hq. destruct (gd_word _ _ _ _ Hg). unfold is_writer_active, reader_count. rewrite wo_state0, pack_active, pack_readers by done. by auto.
Qed.

Lemma reader_served s w a r : good s w a r -> reader_waiters_ s <> [] ->
  is_writer_active s = true \/ writer_waiters_ s <> [] \/ (0 < more s)%nat \/ holder s <> None \/ overflow s = true.
Proof.
  intros Hg Hq. destruct (decide (holder s = None)) as [Hh|]; [|by auto]. pose proof (waiting_queued _ _ _ _ Hg Hh) as Hw. destruct (gd_word _ _ _ _ Hg) as [Hst ? ? ? ? ? ? ? ? ? ? Hrs].
  unfold is_writer_active. rewrite Hst, pack_active by done. rewrite Hh in Hrs. destruct (Hrs Hq) as [?|[?|[?|[?|[[? ?]|?]]]]]; try done; by auto 6.
Qed.

(** [C12] While no assertion has failed, no coroutine that waits for the read-write lock is lost: a suspended one has been handed to the scheduler, or a running thread is about to deliver its
    grant or cancellation, or it is in the queue of its kind and somebody is there to serve it: for a writer an owner, or a releasing thread on its way; for a reader
    a writer that owns the lock or waits for it, a thread in the internal mutex or about to enter it to wake readers, or it queued when the reader count was full.  A result
    [completed] comes with the lock and [cancelled] without it. *)
Theorem shared_waiter_not_lost s v x : rtc step init s -> asserts_ok s = true -> objs s !! v = Some x ->
  (at_pc x = Suspended ->
     scheduled x = true
     \/ ((v ∈ to_schedule s \/ v ∈ in_flight (holder s)) /\ got x = true)
     \/ (v ∈ to_cancel s /\ was_cancelled (wake_of x) = true)
     \/ (kind_of x = Writer /\ v ∈ writer_waiters_ s /\ (is_writer_active s = true \/ 0 < reader_count s \/ (0 < slow s)%nat \/ handing (holder s) = true))
     \/ (kind_of x = Reader /\ v ∈ reader_waiters_ s /\ (is_writer_active s = true \/ writer_waiters_ s <> [] \/ (0 < more s)%nat \/ holder s <> None \/ overflow s = true)))
  /\ (at_pc x = Done completed -> got x = true) /\ (at_pc x = Done cancelled -> got x = false) /\ (at_pc x = Destroyed -> got x = false).
Proof.
  intros Hr Ha Hx. destruct (reachable_good s Hr Ha) as (w & a & r & Hg). pose proof (gd_linked _ _ _ _ Hg) as Hl.
  assert (at_pc x = Suspended -> v ∈ reader_waiters_ s ++ writer_waiters_ s ->
    (kind_of x = Writer /\ v ∈ writer_waiters_ s /\ (is_writer_active s = true \/ 0 < reader_count s \/ (0 < slow s)%nat \/ handing (holder s) = true))
     \/ (kind_of x = Reader /\ v ∈ reader_waiters_ s /\ (is_writer_active s = true \/ writer_waiters_ s <> [] \/ (0 < more s)%nat \/ holder s <> None \/ overflow s = true))) as Hq.
  { intros _ [Hv|Hv]%elem_of_app; [right|left]; (split_and!; [|done|]).
    - rewrite <- (gd_readers _ _ _ _ Hg v Hv). by rewrite (lookup_total_correct _ _ _ Hx).
    - apply (reader_served _ _ _ _ Hg). intros E. rewrite E in Hv. by apply not_elem_of_nil in Hv.
    - rewrite <- (gd_writers _ _ _ _ Hg v Hv). by rewrite (lookup_total_correct _ _ _ Hx).
    - apply (writer_served _ _ _ _ Hg). intros E. rewrite E in Hv. by apply not_elem_of_nil in Hv. }
  shape_of Hl Hx; simpl in *; split_and!; intros; simplify_eq; cases; simplify_eq; first [done | by auto 6 | rewrite elem_of_app in *; tauto | right; right; right; by auto].
Qed.

(** Writers are preferred: while a writer is queued, no attempt to lock without waiting succeeds, so that readers that come later cannot keep the writer out. *)
Theorem queued_writer_blocks_attempts s : rtc step init s -> asserts_ok s = true -> writer_waiters_ s <> [] -> try_lock_shared s = (s, false) /\ try_lock s = (s, false).
Proof.
  intros Hr Ha Hq. destruct (reachable_good s Hr Ha) as (w & a & r & Hg). pose proof (wo_preference _ _ _ _ _ _ _ _ _ _ _ _ _ (gd_word _ _ _ _ Hg) Hq) as ->. split.
  - by destruct (try_lock_shared_cases _ _ _ _ Hg) as [|(? & _)].
  - by destruct (try_lock_cases _ _ _ _ Hg) as [|(? & _)].
Qed.

(** ** A run: a reader owns the lock; a writer and two readers queue; the writer is cancelled *)

Lemma shared_rtc_to s s' s'' t : step s s' -> s' = s'' -> rtc step s'' t -> rtc step s t.
Proof. intros Hs <-. by apply rtc_l. Defined.

Ltac now_at := split; vm_compute; reflexivity.
Tactic Notation "go" tactic3(t) := eapply shared_rtc_to; [t|vm_compute; reflexivity|].

Definition plain_queues (w : id) (s : shared_mutex) : shared_mutex :=
  reader_decide false w (await_suspend_lock w (await_suspend_fast w (await_suspend_plain w (await_ready_try w (construct w Reader false s))))).

Definition demo_queued : shared_mutex := Eval vm_compute in
  let s := await_resume 0 (await_ready_try 0 (construct 0 Reader false init)) in
  let s := await_suspend_lock 1 (await_suspend_block 1 (await_suspend_check 1 (await_ready_try 1 (await_ready_check 1 (construct 1 Writer true s))))) in
  let s := await_suspend_unblock 1 (writer_recheck 1 (writer_announce 1 (writer_decide 1 s))) in
  plain_queues 3 (plain_queues 2 s).

Definition demo_granted : shared_mutex := Eval vm_compute in
  let s := await_resume 1 (cancel_second 1 (cancel_first 1 (unlock_owner 0 demo_queued))) in
  unlock_owner 2 (await_resume 2 (schedule_one 2 (finish_exchange (Some 2%nat) s))).

(** The slow path of the first release resumes here; [try_lock] runs between its load and its exchange. *)
Definition demo_both : shared_mutex := Eval vm_compute in
  let s := add_tries 0 1 (try_lock (unlock_shared_slow demo_granted)).1 in
  await_resume 3 (schedule_one 3 (finish_exchange (Some 3%nat) s)).

Ltac queue_plain w :=
  go (by apply (step_construct w Reader false)); go (eapply (step_ready_try w); now_at); go (eapply (step_suspend_plain w); [now_at|reflexivity]); go (eapply (step_suspend_fast w); now_at);
  go (eapply (step_suspend_lock w); [now_at|reflexivity]); go (eapply (step_reader_decide false w); [now_at|reflexivity]).

Lemma demo_queued_reachable : rtc step init demo_queued.
Proof.
  go (by apply (step_construct 0%nat Reader false)). go (eapply (step_ready_try 0%nat); now_at). go (eapply (step_resume_inline 0%nat); now_at).
  go (by apply (step_construct 1%nat Writer true)). go (eapply (step_ready_check 1%nat); [now_at|reflexivity]). go (eapply (step_ready_try 1%nat); now_at).
  go (eapply (step_suspend_check 1%nat); [now_at|reflexivity]). go (eapply (step_suspend_block 1%nat); now_at). go (eapply (step_suspend_lock 1%nat); [now_at|reflexivity]).
  go (eapply (step_writer_decide 1%nat); [now_at|reflexivity]). go (eapply (step_writer_announce 1%nat); now_at). go (eapply (step_writer_recheck 1%nat); [now_at|reflexivity]).
  go (eapply (step_unblock 1%nat); now_at). queue_plain 2%nat. queue_plain 3%nat. apply rtc_refl.
Qed.

Lemma demo_granted_reachable : rtc step init demo_granted.
Proof.
  etrans; [apply demo_queued_reachable|]. go (eapply (step_unlock 0%nat); [now_at|done]).
  go (eapply (step_cancel_first 1%nat); vm_compute; reflexivity). go (apply (step_cancel_second 1%nat); by left). go (eapply (step_resume 1%nat); [now_at|reflexivity|done]).
  go (by apply (step_finish (Some 2%nat))). go (apply (step_schedule 2%nat); by left). go (eapply (step_resume 2%nat); [now_at|reflexivity|done]).
  go (eapply (step_unlock 2%nat); [now_at|done]). apply rtc_refl.
Qed.

Lemma demo_both_reachable : rtc step init demo_both.
Proof.
  etrans; [apply demo_granted_reachable|]. go (apply step_slow; [vm_compute; lia|reflexivity]). go (apply step_try_lock). go (by apply (step_finish (Some 3%nat))).
  go (apply (step_schedule 3%nat); by left). go (eapply (step_resume 3%nat); [now_at|reflexivity|done]). apply rtc_refl.
Qed.

Lemma readers_writer_exclusion_witness : holding Writer demo_queued <= 1 /\ holding Reader demo_queued <= reader_count demo_queued /\ reader_count demo_queued = 1.
Proof.
  destruct (readers_writer_exclusion demo_queued demo_queued_reachable eq_refl) as (H1 & _ & [_ H2] & H3). split_and!; [exact H1|exact H2|]. rewrite (H3 eq_refl). vm_compute. reflexivity.
Defined.

Lemma shared_waiter_not_lost_witness : let x := objs demo_queued !!! 1%nat in
  scheduled x = true
  \/ ((1%nat ∈ to_schedule demo_queued \/ 1%nat ∈ in_flight (holder demo_queued)) /\ got x = true)
  \/ (1%nat ∈ to_cancel demo_queued /\ was_cancelled (wake_of x) = true)
  \/ (kind_of x = Writer /\ 1%nat ∈ writer_waiters_ demo_queued /\
       (is_writer_active demo_queued = true \/ 0 < reader_count demo_queued \/ (0 < slow demo_queued)%nat \/ handing (holder demo_queued) = true))
  \/ (kind_of x = Reader /\ 1%nat ∈ reader_waiters_ demo_queued /\
       (is_writer_active demo_queued = true \/ writer_waiters_ demo_queued <> [] \/ (0 < more demo_queued)%nat \/ holder demo_queued <> None \/ overflow demo_queued = true)).
Proof. apply (shared_waiter_not_lost demo_queued 1%nat (objs demo_queued !!! 1%nat) demo_queued_reachable); reflexivity. Defined.

Lemma queued_writer_blocks_attempts_witness : writer_waiters_ demo_queued = [1%nat] /\ try_lock_shared demo_queued = (demo_queued, false).
Proof. split; [reflexivity|]. apply (queued_writer_blocks_attempts demo_queued demo_queued_reachable); [reflexivity|discriminate]. Defined.

(** [C13] The exchange of [finish_writer_removal_locked] does not look again whether a writer became active since its load, and the slow path of [unlock_shared] can reach it while
    nothing keeps [try_lock] out.  So there is a run in which its assertion fails and, in a build without assertions, a reader is granted the lock that a writer owns. *)
Theorem reader_and_writer_together : exists s, rtc step init s /\ asserts_ok s = false /\ holding Writer s = 1 /\ holding Reader s = 1 /\ is_writer_active s = true /\ reader_count s = 1.
Proof. exists demo_both. split; [apply demo_both_reachable|]. split_and!; vm_compute; reflexivity. Qed.

End Shared.
