(* ===== verification/Ring.v ===== *)
(** * The lock-free bounded ring

    Models [src/include/elio/sync/lockfree_ring.hpp] ([LockfreeMPMCRing], the bounded
    multi-producer multi-consumer queue under [channel]).  Every access to an atomic variable is one
    step of [Ring.tstep], a function of the shared state and of the thread that runs; [Ring.step]
    interleaves any number of threads, each in the middle of a [try_push] or a [try_pop], under
    sequential consistency.  [compare_exchange_weak] may fail spuriously.

    Counters are 64-bit words and are compared through signed differences as in the code.  The properties are about
    runs in which fewer than [2^63 - capacity] elements were ever pushed, where these
    differences do not overflow.

    Ghost state: [pushed] lists the values in the order in which [head_] was advanced past their
    tickets, [popped] records, per ticket, the value returned by a completed [try_pop]. *)

From S2P Require Import Prelude.

Module Ring.

(** ** The code *)

Definition next_power_of_2 (n : Z) : Z :=
  if n =? 0 then 1
  else
    let n := n - 1 in
    let n := Z.lor n (Z.shiftr n 1) in
    let n := Z.lor n (Z.shiftr n 2) in
    let n := Z.lor n (Z.shiftr n 4) in
    let n := Z.lor n (Z.shiftr n 8) in
    let n := Z.lor n (Z.shiftr n 16) in
    let n := Z.lor n (Z.shiftr n 32) in
    u64 (n + 1).

Section Code.
Context {V : Type}.

Record slot := Slot { sequence : Z; value : option V }.

Record ring := RingState {
  capacity_ : Z;
  slots_ : gmap Z slot;
  head_ : Z;
  tail_ : Z;
  pushed : list V;
  popped : gmap Z V
}.

Definition mask_ (r : ring) : Z := capacity_ r - 1.

(** The constructor. *)
Definition init (capacity : Z) : ring :=
  let cap := next_power_of_2 (Z.max capacity 2) in
  RingState cap (list_to_map (map (fun i => (i, Slot i None)) (seqZ 0 cap))) 0 0 [] ∅.

(** A thread inside [try_push] or [try_pop], by the access it performs next. *)
Inductive thread :=
| PushLoadHead (v : V)
| PushLoadSeq (v : V) (head : Z)
| PushTest (v : V) (head seq : Z)
| PushWrite (v : V) (head : Z)
| PushPublish (v : V) (head : Z)
| PushDone (ok : bool)
| PopLoadTail
| PopLoadSeq (tail : Z)
| PopTest (tail seq : Z)
| PopRead (tail : Z)
| PopRelease (tail : Z) (v : V)
| PopDone (r : option V).

Definition with_slot (i : Z) (s : slot) (r : ring) : ring :=
  RingState (capacity_ r) (<[i := s]> (slots_ r)) (head_ r) (tail_ r) (pushed r) (popped r).

(** The signed difference of two 64-bit counters. *)
Definition sdiff (a b : Z) : Z := s64 a - s64 b.

(** One access; [spurious] makes a [compare_exchange_weak] fail.  [None] is an access to a slot
    that is not there or to a value that is not there. *)
Definition tstep (spurious : bool) (r : ring) (t : thread) : option (ring * thread) :=
  match t with
  | PushLoadHead v => Some (r, PushLoadSeq v (head_ r))
  | PushLoadSeq v head =>
      match slots_ r !! Z.land head (mask_ r) with
      | Some s => Some (r, PushTest v head (sequence s))
      | None => None
      end
  | PushTest v head seq =>
      let diff := sdiff seq head in
      if diff =? 0 then
        if negb spurious && (head_ r =? head)
        then Some (RingState (capacity_ r) (slots_ r) (u64 (head + 1)) (tail_ r) (pushed r ++ [v]) (popped r),
                   PushWrite v head)
        else Some (r, PushLoadSeq v (head_ r))
      else if diff <? 0 then Some (r, PushDone false)
      else Some (r, PushLoadSeq v (head_ r))
  | PushWrite v head =>
      match slots_ r !! Z.land head (mask_ r) with
      | Some s => Some (with_slot (Z.land head (mask_ r)) (Slot (sequence s) (Some v)) r, PushPublish v head)
      | None => None
      end
  | PushPublish v head =>
      match slots_ r !! Z.land head (mask_ r) with
      | Some s => Some (with_slot (Z.land head (mask_ r)) (Slot (u64 (head + 1)) (value s)) r, PushDone true)
      | None => None
      end
  | PopLoadTail => Some (r, PopLoadSeq (tail_ r))
  | PopLoadSeq tail =>
      match slots_ r !! Z.land tail (mask_ r) with
      | Some s => Some (r, PopTest tail (sequence s))
      | None => None
      end
  | PopTest tail seq =>
      let diff := sdiff seq (u64 (tail + 1)) in
      if diff =? 0 then
        if negb spurious && (tail_ r =? tail)
        then Some (RingState (capacity_ r) (slots_ r) (head_ r) (u64 (tail + 1)) (pushed r) (popped r), PopRead tail)
        else Some (r, PopLoadSeq (tail_ r))
      else if diff <? 0 then Some (r, PopDone None)
      else Some (r, PopLoadSeq (tail_ r))
  | PopRead tail =>
      match slots_ r !! Z.land tail (mask_ r) with
      | Some (Slot seq (Some v)) => Some (with_slot (Z.land tail (mask_ r)) (Slot seq None) r, PopRelease tail v)
      | _ => None
      end
  | PopRelease tail v =>
      match slots_ r !! Z.land tail (mask_ r) with
      | Some s => Some (RingState (capacity_ r)
                                  (<[Z.land tail (mask_ r) := Slot (u64 (tail + capacity_ r)) (value s)]> (slots_ r))
                                  (head_ r) (tail_ r) (pushed r) (<[tail := v]> (popped r)), PopDone (Some v))
      | None => None
      end
  | PushDone _ | PopDone _ => None
  end.

(** The other observers. *)
Definition can_push (r : ring) : bool :=
  match slots_ r !! Z.land (head_ r) (mask_ r) with
  | Some s => sdiff (sequence s) (head_ r) =? 0
  | None => false
  end.

Definition size (r : ring) : Z := if tail_ r <=? head_ r then head_ r - tail_ r else 0.
Definition empty (r : ring) : bool := head_ r =? tail_ r.

(** ** Interleavings *)

Record system := System { shared : ring; threads : gmap nat thread }.

Inductive step : system -> system -> Prop :=
| step_call w t r ths : ths !! w = None -> (t = PopLoadTail \/ exists v, t = PushLoadHead v) ->
    step (System r ths) (System r (<[w := t]> ths))
| step_thread w spurious t r ths r' t' : ths !! w = Some t -> tstep spurious r t = Some (r', t') ->
    step (System r ths) (System r' (<[w := t']> ths)).

(** ** The invariant *)

(** The ticket a thread has claimed and not finished with. *)
Definition claims_push (t : thread) : option Z :=
  match t with PushWrite _ h | PushPublish _ h => Some h | _ => None end.
Definition claims_pop (t : thread) : option Z :=
  match t with PopRead h | PopRelease h _ => Some h | _ => None end.
Definition claim (t : thread) : option Z :=
  match claims_push t with Some h => Some h | None => claims_pop t end.

Definition finished (t : thread) : bool := match t with PushDone _ | PopDone _ => true | _ => false end.

(** The state of the slot of ticket [p]. *)
Inductive slot_phase (r : ring) (ths : gmap nat thread) (p : Z) : slot -> Prop :=
| ph_free : head_ r <= p < tail_ r + capacity_ r -> slot_phase r ths p (Slot p None)
| ph_writing w v : tail_ r <= p < head_ r -> ths !! w = Some (PushWrite v p) -> pushed r !! Z.to_nat p = Some v ->
    slot_phase r ths p (Slot p None)
| ph_written w v : tail_ r <= p < head_ r -> ths !! w = Some (PushPublish v p) -> pushed r !! Z.to_nat p = Some v ->
    slot_phase r ths p (Slot p (Some v))
| ph_full v : tail_ r <= p < head_ r -> pushed r !! Z.to_nat p = Some v -> slot_phase r ths p (Slot (p + 1) (Some v))
| ph_reading w v : p < tail_ r -> head_ r <= p + capacity_ r -> ths !! w = Some (PopRead p) ->
    pushed r !! Z.to_nat p = Some v -> slot_phase r ths p (Slot (p + 1) (Some v))
| ph_read w v : p < tail_ r -> head_ r <= p + capacity_ r -> ths !! w = Some (PopRelease p v) ->
    pushed r !! Z.to_nat p = Some v -> slot_phase r ths p (Slot (p + 1) None).

(** What a thread knows. *)
Definition thread_ok (r : ring) (t : thread) : Prop :=
  let at_ h sl := slots_ r !! (h mod capacity_ r) = Some sl in
  match t with
  | PushLoadHead _ | PushDone _ | PopLoadTail | PopDone _ => True
  | PushLoadSeq _ h => 0 <= h <= head_ r
  | PushTest _ h seq => 0 <= h <= head_ r /\ 0 <= seq /\ exists sl, at_ h sl /\ seq <= sequence sl
  | PushWrite v h => 0 <= tail_ r /\ tail_ r <= h < head_ r /\ pushed r !! Z.to_nat h = Some v /\ at_ h (Slot h None)
  | PushPublish v h => 0 <= tail_ r /\ tail_ r <= h < head_ r /\ pushed r !! Z.to_nat h = Some v /\ at_ h (Slot h (Some v))
  | PopLoadSeq h => 0 <= h <= tail_ r
  | PopTest h seq => 0 <= h <= tail_ r /\ 0 <= seq /\ exists sl, at_ h sl /\ seq <= sequence sl
  | PopRead h => 0 <= h < tail_ r /\ head_ r <= h + capacity_ r /\
      exists v, pushed r !! Z.to_nat h = Some v /\ at_ h (Slot (h + 1) (Some v))
  | PopRelease h v => 0 <= h < tail_ r /\ head_ r <= h + capacity_ r /\
      pushed r !! Z.to_nat h = Some v /\ at_ h (Slot (h + 1) None)
  end.

Record inv (s : system) : Prop := {
  i_cap : exists k, 1 <= k /\ capacity_ (shared s) = 2 ^ k;
  i_range : 0 <= tail_ (shared s) <= head_ (shared s) /\ head_ (shared s) <= tail_ (shared s) + capacity_ (shared s);
  i_small : head_ (shared s) + capacity_ (shared s) < 2 ^ 63;
  i_pushed : zlen (pushed (shared s)) = head_ (shared s);
  i_slots : forall i, 0 <= i < capacity_ (shared s) -> exists p sl,
    slots_ (shared s) !! i = Some sl /\ 0 <= p /\ p mod capacity_ (shared s) = i /\ slot_phase (shared s) (threads s) p sl;
  i_threads : forall w t, threads s !! w = Some t -> thread_ok (shared s) t;
  i_unique : forall w1 w2 t1 t2 h, threads s !! w1 = Some t1 -> threads s !! w2 = Some t2 ->
    claim t1 = Some h -> claim t2 = Some h -> w1 = w2;
  i_popped : forall t v, popped (shared s) !! t = Some v ->
    0 <= t < tail_ (shared s) /\ pushed (shared s) !! Z.to_nat t = Some v /\
    forall w th, threads s !! w = Some th -> claims_pop th <> Some t;
  i_taken : forall t, 0 <= t < tail_ (shared s) -> popped (shared s) !! t = None ->
    exists w th, threads s !! w = Some th /\ claims_pop th = Some t
}.

(** ** Arithmetic of tickets *)

Lemma cong_near c p h : 0 < c -> p mod c = h mod c -> - c < p - h < c -> p = h.
Proof.
  intros Hc E Hr. pose proof (Z.div_mod p c). pose proof (Z.div_mod h c).
  assert (p - h = c * (p / c - h / c)) as Ed by lia.
  assert (p / c - h / c = 0) by nia. lia.
Qed.

Lemma cong_below c p h : 0 < c -> p mod c = h mod c -> h - 2 * c < p < h -> p = h - c.
Proof.
  intros Hc E Hr. apply (cong_near c); [done| |lia].
  rewrite E. symmetry. rewrite <-(Z.mod_add (h - c) 1 c) by lia. f_equal. lia.
Qed.

Lemma cap_pos s : inv s -> 2 <= capacity_ (shared s).
Proof.
  intros []. destruct i_cap0 as (k & Hk & ->). change 2 with (2 ^ 1) at 1. apply Z.pow_le_mono_r; lia.
Qed.

Lemma mask_mod s h : inv s -> Z.land h (mask_ (shared s)) = h mod capacity_ (shared s).
Proof.
  intros []. destruct i_cap0 as (k & Hk & E). unfold mask_. rewrite E.
  rewrite Z.sub_1_r, <-Z.ones_equiv. apply Z.land_ones. lia.
Qed.

Lemma slot_of s h : inv s -> exists p sl, slots_ (shared s) !! (h mod capacity_ (shared s)) = Some sl /\ 0 <= p /\
  p mod capacity_ (shared s) = h mod capacity_ (shared s) /\ slot_phase (shared s) (threads s) p sl.
Proof.
  intros Hi. pose proof (cap_pos s Hi). apply (i_slots s Hi). apply Z.mod_pos_bound. lia.
Qed.

Lemma sdiff_eq a b : 0 <= a < 2 ^ 63 -> 0 <= b < 2 ^ 63 -> sdiff a b = a - b.
Proof. intros. unfold sdiff. by rewrite !s64_small by lia. Qed.

(** A slot keeps its phase when the counters move past other tickets and the threads that
    claim its ticket stay where they are. *)
Lemma slot_phase_mono r ths r' ths' p sl : slot_phase r ths p sl ->
  capacity_ r' = capacity_ r -> tail_ r <= tail_ r' ->
  (head_ r <= p -> head_ r' <= p) -> (p < head_ r -> p < head_ r') ->
  (tail_ r <= p -> tail_ r' <= p) -> (head_ r <= p + capacity_ r -> head_ r' <= p + capacity_ r) ->
  (forall v, pushed r !! Z.to_nat p = Some v -> pushed r' !! Z.to_nat p = Some v) ->
  (forall w t, ths !! w = Some t -> claim t = Some p -> ths' !! w = Some t) ->
  slot_phase r' ths' p sl.
Proof.
  intros Hp Ec Ht H1 H2 H3 H4 Hpu Hth. destruct Hp as [|w v|w v|v|w v|w v].
  - apply ph_free. rewrite Ec. lia.
  - eapply (ph_writing _ _ _ w v); [lia|by apply Hth|by apply Hpu].
  - eapply (ph_written _ _ _ w v); [lia|by apply Hth|by apply Hpu].
  - apply ph_full; [lia|by apply Hpu].
  - eapply (ph_reading _ _ _ w v); [lia|rewrite Ec; by apply H4|by apply Hth|by apply Hpu].
  - eapply (ph_read _ _ _ w v); [lia|rewrite Ec; by apply H4|by apply Hth|by apply Hpu].
Qed.

(** The thread that claims a ticket is the one its slot's phase names. *)
Lemma slot_seq_le s p sl : inv s -> slot_phase (shared s) (threads s) p sl -> 0 <= p ->
  p <= sequence sl <= p + 1 /\ p < tail_ (shared s) + capacity_ (shared s) /\ head_ (shared s) <= p + capacity_ (shared s).
Proof.
  intros Hi Hp H0. pose proof (cap_pos s Hi). destruct (i_range s Hi). destruct Hp; simpl; lia.
Qed.

(** When [head_] stands at the ticket whose free sequence number was seen, the slot is free. *)
Lemma free_slot s h seq sl p : inv s -> head_ (shared s) = h -> seq = h ->
  p mod capacity_ (shared s) = h mod capacity_ (shared s) -> slot_phase (shared s) (threads s) p sl -> 0 <= p ->
  seq <= sequence sl -> p = h /\ sl = Slot h None /\ h < tail_ (shared s) + capacity_ (shared s).
Proof.
  intros Hi Hh -> Hp Hph H0 Hs. pose proof (cap_pos s Hi). destruct (i_range s Hi) as [? ?].
  destruct (slot_seq_le s p sl Hi Hph H0) as (? & ? & ?).
  assert (p = h) as -> by (apply (cong_near (capacity_ (shared s))); [lia|done|lia]).
  destruct Hph; simpl in *; try lia. done.
Qed.

(** When [tail_] stands at the ticket whose full sequence number was seen, the slot is full. *)
Lemma full_slot s t seq sl p : inv s -> tail_ (shared s) = t -> seq = t + 1 ->
  p mod capacity_ (shared s) = t mod capacity_ (shared s) -> slot_phase (shared s) (threads s) p sl -> 0 <= p ->
  seq <= sequence sl -> p = t /\ t < head_ (shared s) /\ exists v, sl = Slot (t + 1) (Some v) /\ pushed (shared s) !! Z.to_nat t = Some v.
Proof.
  intros Hi Ht -> Hp Hph H0 Hs. pose proof (cap_pos s Hi). destruct (i_range s Hi) as [? ?].
  destruct (slot_seq_le s p sl Hi Hph H0) as (? & ? & ?).
  assert (p = t) as -> by (apply (cong_near (capacity_ (shared s))); [lia|done|lia]).
  destruct Hph; simpl in *; try lia. split_and!; [done|lia|eauto].
Qed.

(** ** Preservation *)

(** The sequence number of the slot of a claimed ticket. *)
Lemma claim_seq r t h : thread_ok r t -> claim t = Some h ->
  0 <= h /\ exists sl, slots_ r !! (h mod capacity_ r) = Some sl /\ (sequence sl = h \/ sequence sl = h + 1) /\
  (claims_push t = Some h -> tail_ r <= h /\ sequence sl = h) /\ (claims_pop t = Some h -> h < tail_ r /\ sequence sl = h + 1).
Proof.
  destruct t; simpl; intros Ht [= ->].
  - destruct Ht as (? & ? & _ & Hs). split; [lia|]. eexists. split; [exact Hs|]. simpl. split_and!; [by left|intros _; lia|done].
  - destruct Ht as (? & ? & _ & Hs). split; [lia|]. eexists. split; [exact Hs|]. simpl. split_and!; [by left|intros _; lia|done].
  - destruct Ht as (? & _ & v & _ & Hs). split; [lia|]. eexists. split; [exact Hs|]. simpl. split_and!; [by right|done|intros _; lia].
  - destruct Ht as (? & _ & _ & Hs). split; [lia|]. eexists. split; [exact Hs|]. simpl. split_and!; [by right|done|intros _; lia].
Qed.

Lemma claim_lt_head r t h : thread_ok r t -> claim t = Some h -> tail_ r <= head_ r -> h < head_ r.
Proof. destruct t; simpl; intros Ht [= ->] Hr; destruct Ht as (? & ? & ?); lia. Qed.

(** Different threads have claimed tickets of different slots. *)
Lemma claims_apart s w1 w2 t1 t2 h1 h2 : inv s -> threads s !! w1 = Some t1 -> threads s !! w2 = Some t2 ->
  claim t1 = Some h1 -> claim t2 = Some h2 -> w1 <> w2 ->
  h1 mod capacity_ (shared s) <> h2 mod capacity_ (shared s).
Proof.
  intros Hi H1 H2 C1 C2 Hw E. pose proof (cap_pos s Hi).
  destruct (claim_seq _ _ _ (i_threads s Hi _ _ H1) C1) as (? & sl1 & S1 & Q1 & _).
  destruct (claim_seq _ _ _ (i_threads s Hi _ _ H2) C2) as (? & sl2 & S2 & Q2 & _).
  rewrite E, S2 in S1. injection S1 as <-. apply Hw.
  assert (h1 = h2) as -> by (apply (cong_near (capacity_ (shared s))); [lia|done|lia]).
  by apply (i_unique s Hi w1 w2 t1 t2 h2).
Qed.

(** Steps that only move a thread that claims nothing. *)
Lemma inv_local r ths w t' : inv (System r ths) -> thread_ok r t' -> claim t' = None ->
  (forall t, ths !! w = Some t -> claim t = None) -> inv (System r (<[w := t']> ths)).
Proof.
  intros Hi Ht' Hc' Hc. pose proof Hi as []. simpl in *.
  assert (forall w' t, ths !! w' = Some t -> claim t <> None -> <[w := t']> ths !! w' = Some t) as Hkeep.
  { intros w' t Hw' Hct. rewrite lookup_insert_ne; [done|]. intros <-. by rewrite (Hc t Hw') in Hct. }
  assert (claims_pop t' = None) as Hp' by (by destruct t').
  split; simpl; try done.
  - intros i Hi'. destruct (i_slots0 i Hi') as (p & sl & ? & ? & ? & Hph). exists p, sl. split_and!; try done.
    eapply slot_phase_mono; [exact Hph|done|lia|done|done|done|done|done|].
    intros w' t Hw' Hct. apply Hkeep; [done|by rewrite Hct].
  - intros w' t [[<- <-]|[Hne Hw']]%lookup_insert_Some; [done|by eapply i_threads0].
  - intros w1 w2 t1 t2 h [[<- <-]|[? H1]]%lookup_insert_Some [[<- <-]|[? H2]]%lookup_insert_Some C1 C2; try done; try congruence.
    by eapply i_unique0.
  - intros t v Hv. destruct (i_popped0 t v Hv) as (? & ? & Hn). do 2 (split; [done|]).
    intros w' th [[<- <-]|[? Hw']]%lookup_insert_Some; [by rewrite Hp'|by eapply Hn].
  - intros t Ht Hv. destruct (i_taken0 t Ht Hv) as (w' & th & Hw' & Hth). exists w', th. split; [|done].
    apply Hkeep; [done|]. by destruct th.
Qed.

(** Other threads when a counter moves forward. *)
Lemma thread_ok_counters r t hd tl pu po : thread_ok r t ->
  head_ r <= hd -> tail_ r <= tl -> tl <= hd ->
  (forall h, claims_push t = Some h -> tl <= h) ->
  (forall h, claims_pop t = Some h -> hd <= h + capacity_ r) ->
  (forall i v, pushed r !! i = Some v -> pu !! i = Some v) ->
  thread_ok (RingState (capacity_ r) (slots_ r) hd tl pu po) t.
Proof.
  intros Ht H1 H2 H3 H4 H5 Hpu. pose proof Ht as Ht'. destruct t; simpl in *; try done; try lia.
  - destruct Ht as (? & ? & ?). split; [lia|done].
  - destruct Ht as (? & ? & ? & ?). specialize (H4 _ eq_refl). split; [lia|]. split; [lia|]. split; [by apply Hpu|done].
  - destruct Ht as (? & ? & ? & ?). specialize (H4 _ eq_refl). split; [lia|]. split; [lia|]. split; [by apply Hpu|done].
  - destruct Ht as (? & ? & ?). split; [lia|done].
  - destruct Ht as (? & ? & v & ? & ?). specialize (H5 _ eq_refl). split; [lia|]. split; [lia|]. exists v. split; [by apply Hpu|done].
  - destruct Ht as (? & ? & ? & ?). specialize (H5 _ eq_refl). split; [lia|]. split; [lia|]. split; [by apply Hpu|done].
Qed.

(** A producer claims the ticket at [head_]. *)
Lemma inv_push_claim r ths w v seq : inv (System r ths) -> head_ r + 1 + capacity_ r < 2 ^ 63 ->
  ths !! w = Some (PushTest v (head_ r) seq) -> seq = head_ r ->
  inv (System (RingState (capacity_ r) (slots_ r) (head_ r + 1) (tail_ r) (pushed r ++ [v]) (popped r))
              (<[w := PushWrite v (head_ r)]> ths)).
Proof.
  intros Hi Hsm Hw Hseq. pose proof Hi as []. pose proof (cap_pos _ Hi) as Hcap. simpl in *.
  set (h := head_ r) in *. pose proof (i_threads0 _ _ Hw) as (Hh & Hs0 & sl & Hsl & Hle).
  destruct (slot_of _ h Hi) as (p & sl' & Hsl' & Hp0 & Hpm & Hph). simpl in *. rewrite Hsl in Hsl'. injection Hsl' as <-.
  destruct (free_slot _ h seq sl p Hi eq_refl Hseq Hpm Hph Hp0 Hle) as (-> & -> & Hlt). simpl in Hlt.
  assert (length (pushed r) = Z.to_nat h) as Hlen by (unfold zlen in *; lia).
  assert (forall i x, pushed r !! i = Some x -> (pushed r ++ [v]) !! i = Some x) as Hpu by (intros; by apply lookup_app_l_Some).
  assert ((pushed r ++ [v]) !! Z.to_nat h = Some v) as Hpv by (rewrite <-Hlen; by rewrite lookup_app_r, Nat.sub_diag by lia).
  assert (forall w' t, ths !! w' = Some t -> claim t <> None -> <[w := PushWrite v h]> ths !! w' = Some t) as Hkeep.
  { intros w' t Hw' Hct. rewrite lookup_insert_ne; [done|]. intros <-. rewrite Hw in Hw'. injection Hw' as <-. done. }
  split; simpl; try done; try lia.
  - rewrite zlen_app. unfold zlen in *. simpl. lia.
  - intros i Hir. destruct (decide (i = h mod capacity_ r)) as [->|Hne].
    + exists h, (Slot h None). split_and!; try done. eapply (ph_writing _ _ _ w v); simpl; [lia|by rewrite lookup_insert_eq|done].
    + destruct (i_slots0 i Hir) as (q & sl & ? & ? & Hq & Hph'). exists q, sl. do 3 (split; [done|]).
      assert (q <> h) by (intros ->; congruence).
      assert (q + capacity_ r <> h) by (intros E; apply Hne; rewrite <-Hq, <-E, <-(Z.mod_add q 1) by lia; f_equal; lia).
      eapply slot_phase_mono; [exact Hph'|done|simpl; lia..| |]; [intros; by apply Hpu|].
      intros w' t Hw' Hct. apply Hkeep; [done|by rewrite Hct].
  - intros w' t [[<- <-]|[Hne Hw']]%lookup_insert_Some; [simpl; split_and!; [lia|lia|lia|done|done]|].
    pose proof (i_threads0 _ _ Hw') as Ht. apply thread_ok_counters; try done; try lia.
    + intros h' Hc. destruct t; simplify_eq/=; lia.
    + intros h' Hc. assert (claim t = Some h') as Hct by (destruct t; done).
      destruct (claim_seq _ _ _ Ht Hct) as (? & sl2 & S2 & _ & _ & Q). simpl in S2. destruct (Q Hc) as [? Q2].
      destruct (decide (h' + capacity_ r = h)) as [E|E]; [|destruct t; simplify_eq/=; lia].
      assert (h' mod capacity_ r = h mod capacity_ r) as Em by (rewrite <-E, <-(Z.mod_add h' 1) by lia; f_equal; lia).
      rewrite Em, Hsl in S2. injection S2 as <-. simpl in Q2. lia.
  - intros w1 w2 t1 t2 q [[<- <-]|[? H1]]%lookup_insert_Some [[<- <-]|[? H2]]%lookup_insert_Some C1 C2; try done.
    + simpl in C1. injection C1 as <-. pose proof (claim_lt_head _ _ _ (i_threads0 _ _ H2) C2). simpl in *. lia.
    + simpl in C2. injection C2 as <-. pose proof (claim_lt_head _ _ _ (i_threads0 _ _ H1) C1). simpl in *. lia.
    + by eapply i_unique0.
  - intros t x Hx. destruct (i_popped0 t x Hx) as (? & ? & Hn). split; [done|]. split; [by apply Hpu|].
    intros w' th [[<- <-]|[? Hw']]%lookup_insert_Some; [done|by eapply Hn].
  - intros t Ht Hx. destruct (i_taken0 t Ht Hx) as (w' & th & Hw' & Hth). exists w', th. split; [|done].
    apply Hkeep; [done|]. by destruct th.
Qed.

(** A consumer claims the ticket at [tail_]. *)
Lemma inv_pop_claim r ths w seq : inv (System r ths) ->
  ths !! w = Some (PopTest (tail_ r) seq) -> seq = tail_ r + 1 ->
  inv (System (RingState (capacity_ r) (slots_ r) (head_ r) (tail_ r + 1) (pushed r) (popped r))
              (<[w := PopRead (tail_ r)]> ths)).
Proof.
  intros Hi Hw Hseq. pose proof Hi as []. pose proof (cap_pos _ Hi) as Hcap. simpl in *.
  set (h := tail_ r) in *. pose proof (i_threads0 _ _ Hw) as (Hh & Hs0 & sl & Hsl & Hle).
  destruct (slot_of _ h Hi) as (p & sl' & Hsl' & Hp0 & Hpm & Hph). simpl in *. rewrite Hsl in Hsl'. injection Hsl' as <-.
  destruct (full_slot _ h seq sl p Hi eq_refl Hseq Hpm Hph Hp0 Hle) as (-> & Hlt & v & -> & Hpv). simpl in Hlt, Hpv.
  assert (forall w' t, ths !! w' = Some t -> claim t <> None -> <[w := PopRead h]> ths !! w' = Some t) as Hkeep.
  { intros w' t Hw' Hct. rewrite lookup_insert_ne; [done|]. intros <-. rewrite Hw in Hw'. injection Hw' as <-. done. }
  (* no thread has claimed the ticket at [tail_] *)
  assert (forall w' t, ths !! w' = Some t -> claim t <> Some h) as Hfresh.
  { intros w' t Hw' Hct. destruct (claim_seq _ _ _ (i_threads0 _ _ Hw') Hct) as (_ & sl2 & S2 & _ & Qp & Qc).
    simpl in S2, Qp, Qc. rewrite Hsl in S2. injection S2 as <-. simpl in *. unfold claim in Hct.
    destruct (claims_push t) as [h'|] eqn:E; [injection Hct as ->; specialize (Qp eq_refl)|specialize (Qc Hct)]; lia. }
  split; simpl; try done; try lia.
  - intros i Hir. destruct (decide (i = h mod capacity_ r)) as [->|Hne].
    + exists h, (Slot (h + 1) (Some v)). split_and!; try done.
      eapply (ph_reading _ _ _ w v); simpl; [lia|lia|by rewrite lookup_insert_eq|done].
    + destruct (i_slots0 i Hir) as (q & sl & ? & ? & Hq & Hph'). exists q, sl. do 3 (split; [done|]).
      assert (q <> h) by (intros ->; congruence).
      eapply slot_phase_mono; [exact Hph'|done|simpl; lia..|done|].
      intros w' t Hw' Hct. apply Hkeep; [done|by rewrite Hct].
  - intros w' t [[<- <-]|[Hne Hw']]%lookup_insert_Some; [simpl; split_and!; [lia|lia|lia|eauto]|].
    pose proof (i_threads0 _ _ Hw') as Ht. apply thread_ok_counters; try done; try lia.
    + intros h' Hc. assert (claim t = Some h') as Hct by (unfold claim; by rewrite Hc).
      destruct (claim_seq _ _ _ Ht Hct) as (_ & sl2 & _ & _ & Qp & _). destruct (Qp Hc) as [? _]. simpl in *.
      assert (h' <> h) by (intros ->; by eapply Hfresh). lia.
    + intros h' Hc. destruct t; simplify_eq/=; destruct Ht as (? & ? & ?); lia.
  - intros w1 w2 t1 t2 q [[<- <-]|[? H1]]%lookup_insert_Some [[<- <-]|[? H2]]%lookup_insert_Some C1 C2; try done.
    + simpl in C1. injection C1 as <-. by destruct (Hfresh _ _ H2).
    + simpl in C2. injection C2 as <-. by destruct (Hfresh _ _ H1).
    + by eapply i_unique0.
  - intros t x Hx. destruct (i_popped0 t x Hx) as (? & ? & Hn). split; [lia|]. split; [done|].
    intros w' th [[<- <-]|[? Hw']]%lookup_insert_Some; [simpl; intros [= ?]; lia|by eapply Hn].
  - intros t Ht Hx. destruct (decide (t = h)) as [->|Hne].
    + exists w, (PopRead h). by rewrite lookup_insert_eq.
    + destruct (i_taken0 t ltac:(lia) Hx) as (w' & th & Hw' & Hth). exists w', th. split; [|done].
      apply Hkeep; [done|]. by destruct th.
Qed.

(** A thread changes the slot of the ticket it has claimed. *)
Lemma inv_slot r ths w t t' h sl sl' p' po : inv (System r ths) -> ths !! w = Some t -> claim t = Some h ->
  slots_ r !! (h mod capacity_ r) = Some sl -> sequence sl <= sequence sl' ->
  let r' := RingState (capacity_ r) (<[h mod capacity_ r := sl']> (slots_ r)) (head_ r) (tail_ r) (pushed r) po in
  let ths' := <[w := t']> ths in
  0 <= p' -> p' mod capacity_ r = h mod capacity_ r -> slot_phase r' ths' p' sl' -> thread_ok r' t' ->
  (forall q, claim t' = Some q -> q = h) ->
  (forall k x, po !! k = Some x -> 0 <= k < tail_ r /\ pushed r !! Z.to_nat k = Some x /\
     (forall w' th, ths' !! w' = Some th -> claims_pop th <> Some k)) ->
  (forall k, 0 <= k < tail_ r -> po !! k = None -> exists w' th, ths' !! w' = Some th /\ claims_pop th = Some k) ->
  inv (System r' ths').
Proof.
  intros Hi Hw Hc Hsl Hseq r' ths' Hp0 Hpm Hph Ht' Hc' Hpo1 Hpo2. pose proof Hi as []. pose proof (cap_pos _ Hi). simpl in *.
  split; simpl; try done.
  - intros i Hir. destruct (decide (i = h mod capacity_ r)) as [->|Hne].
    + exists p', sl'. split_and!; try done. by rewrite lookup_insert_eq.
    + destruct (i_slots0 i Hir) as (q & sl0 & ? & ? & Hq & Hph'). exists q, sl0. rewrite lookup_insert_ne by done.
      do 3 (split; [done|]). eapply slot_phase_mono; [exact Hph'|done|simpl; lia..|done|].
      intros w' t0 Hw' Hct. unfold ths'. rewrite lookup_insert_ne; [done|]. intros <-. congruence.
  - intros w' t0 [[<- <-]|[Hne Hw']]%lookup_insert_Some; [done|]. pose proof (i_threads0 _ _ Hw') as Ht0.
    assert (forall q, claim t0 = Some q -> q mod capacity_ r <> h mod capacity_ r) as Hap
      by (intros q Hq; eapply (claims_apart (System r ths)); [done|exact Hw'|exact Hw|done|done|done]).
    assert (forall q s0, slots_ r !! (q mod capacity_ r) = Some s0 ->
      exists s1, <[h mod capacity_ r := sl']> (slots_ r) !! (q mod capacity_ r) = Some s1 /\ sequence s0 <= sequence s1) as Hmono.
    { intros q s0 Hs0. destruct (decide (q mod capacity_ r = h mod capacity_ r)) as [E|E].
      - rewrite E in *. exists sl'. rewrite lookup_insert_eq. split; [done|]. congruence.
      - exists s0. rewrite lookup_insert_ne by congruence. done. }
    destruct t0; simpl in *; try done.
    + destruct Ht0 as (? & ? & s0 & Hs0 & ?). destruct (Hmono _ _ Hs0) as (s1 & ? & ?). split_and!; try lia. exists s1. split; [done|lia].
    + rewrite lookup_insert_ne; [done|]. intros E. by apply (Hap head).
    + rewrite lookup_insert_ne; [done|]. intros E. by apply (Hap head).
    + destruct Ht0 as (? & ? & s0 & Hs0 & ?). destruct (Hmono _ _ Hs0) as (s1 & ? & ?). split_and!; try lia. exists s1. split; [done|lia].
    + rewrite lookup_insert_ne; [done|]. intros E. by apply (Hap tail).
    + rewrite lookup_insert_ne; [done|]. intros E. by apply (Hap tail).
  - intros w1 w2 t1 t2 q [[<- <-]|[? H1]]%lookup_insert_Some [[<- <-]|[? H2]]%lookup_insert_Some C1 C2; try done.
    + rewrite (Hc' q C1) in C2. by eapply (i_unique0 w w2).
    + rewrite (Hc' q C2) in C1. by eapply (i_unique0 w1 w).
    + by eapply i_unique0.
Qed.

(** The same, when the thread keeps what it has claimed as a consumer. *)
Lemma inv_slot_keep r ths w t t' h sl sl' : inv (System r ths) -> ths !! w = Some t -> claim t = Some h ->
  slots_ r !! (h mod capacity_ r) = Some sl -> sequence sl <= sequence sl' -> 0 <= h ->
  claims_pop t = claims_pop t' -> (forall q, claim t' = Some q -> q = h) ->
  let r' := with_slot (h mod capacity_ r) sl' r in
  slot_phase r' (<[w := t']> ths) h sl' -> thread_ok r' t' -> inv (System r' (<[w := t']> ths)).
Proof.
  intros Hi Hw Hc Hsl Hseq Hh Hcp Hc' r' Hph Ht'. pose proof Hi as []. simpl in *.
  eapply (inv_slot r ths w t t' h sl sl' h (popped r)); try done.
  - intros k x Hx. destruct (i_popped0 k x Hx) as (? & ? & Hn). do 2 (split; [done|]).
    intros w' th [[<- <-]|[? Hw']]%lookup_insert_Some; [rewrite <-Hcp|]; by eapply Hn.
  - intros k Hk Hx. destruct (i_taken0 k Hk Hx) as (w' & th & Hw' & Hth).
    destruct (decide (w' = w)) as [->|Hne].
    + exists w, t'. rewrite lookup_insert_eq, <-Hcp. split; [done|]. congruence.
    + exists w', th. by rewrite lookup_insert_ne by done.
Qed.

(** A consumer hands its slot back. *)
Lemma inv_pop_release r ths w h v : inv (System r ths) -> ths !! w = Some (PopRelease h v) ->
  inv (System (RingState (capacity_ r) (<[h mod capacity_ r := Slot (h + capacity_ r) None]> (slots_ r))
                         (head_ r) (tail_ r) (pushed r) (<[h := v]> (popped r)))
              (<[w := PopDone (Some v)]> ths)).
Proof.
  intros Hi Hw. pose proof Hi as []. pose proof (cap_pos _ Hi). simpl in *.
  pose proof (i_threads0 _ _ Hw) as (Hh & Hle & Hpv & Hsl). simpl in *.
  eapply (inv_slot r ths w _ _ h _ _ (h + capacity_ r)); try done; simpl; try lia.
  - rewrite <-(Z.mod_add h 1 (capacity_ r)) by lia. f_equal. lia.
  - apply ph_free. simpl. lia.
  - intros k x [[<- <-]|[Hne Hx]]%lookup_insert_Some.
    + do 2 (split; [done|]). intros w' th [[<- <-]|[Hw1 Hw']]%lookup_insert_Some Hth; [done|].
      apply Hw1. eapply (i_unique0 w w' _ _ h Hw Hw'); [done|]. by destruct th.
    + destruct (i_popped0 k x Hx) as (? & ? & Hn). do 2 (split; [done|]).
      intros w' th [[<- <-]|[? Hw']]%lookup_insert_Some; [done|by eapply Hn].
  - intros k Hk [Hx Hne]%lookup_insert_None. destruct (i_taken0 k Hk Hx) as (w' & th & Hw' & Hth).
    exists w', th. split; [|done]. rewrite lookup_insert_ne; [done|]. intros <-.
    rewrite Hw in Hw'. injection Hw' as <-. simpl in Hth. congruence.
Qed.

Lemma u64_next h : 0 <= h < 2 ^ 63 -> u64 (h + 1) = h + 1.
Proof. intros. apply u64_small. lia. Qed.

(** Loads see what the slot holds. *)
Lemma load_ok s h sl : inv s -> 0 <= h -> slots_ (shared s) !! (h mod capacity_ (shared s)) = Some sl ->
  0 <= sequence sl < 2 ^ 63.
Proof.
  intros Hi Hh Hsl. pose proof (cap_pos s Hi). destruct (slot_of s h Hi) as (p & sl' & E & Hp & _ & Hph).
  rewrite Hsl in E. injection E as <-. destruct (slot_seq_le s p sl Hi Hph Hp) as (? & ? & ?).
  pose proof (i_range s Hi). pose proof (i_small s Hi). lia.
Qed.

(** No access fails. *)
Lemma tstep_total s w t sp : inv s -> threads s !! w = Some t -> finished t = false ->
  exists r' t', tstep sp (shared s) t = Some (r', t').
Proof.
  intros Hi Hw Hf. pose proof (i_threads s Hi w t Hw) as Ht. pose proof (fun h => slot_of s h Hi) as Hs.
  destruct t; simpl in *; rewrite ?(mask_mod s) by done; try discriminate; eauto.
  - destruct (Hs head) as (p & sl & -> & _); eauto.
  - repeat case_match; eauto.
  - destruct Ht as (_ & _ & _ & ->); eauto.
  - destruct Ht as (_ & _ & _ & ->); eauto.
  - destruct (Hs tail) as (p & sl & -> & _); eauto.
  - repeat case_match; eauto.
  - destruct Ht as (_ & _ & v & _ & ->); eauto.
  - destruct Ht as (_ & _ & _ & ->); eauto.
Qed.

(** Every step keeps the invariant while the tickets fit. *)
Lemma thread_inv r ths w sp t r' t' : inv (System r ths) -> ths !! w = Some t -> tstep sp r t = Some (r', t') ->
  head_ r' + capacity_ r' < 2 ^ 63 -> inv (System r' (<[w := t']> ths)).
Proof.
  intros Hi Hw Hst Hsm. pose proof (i_threads _ Hi w t Hw) as Ht. pose proof (cap_pos _ Hi) as Hcap.
  pose proof (i_range _ Hi) as Hrg. pose proof (i_small _ Hi) as Hsm0. pose proof (fun h sl => load_ok _ h sl Hi) as Hld. simpl in *.
  assert (forall h, Z.land h (mask_ r) = h mod capacity_ r) as Hm by (intros; by apply (mask_mod (System r ths))).
  assert (forall t1, claim t = None -> thread_ok r t1 -> claim t1 = None -> inv (System r (<[w := t1]> ths))) as Hloc.
  { intros t1 Hc Ht1 Hc1. apply inv_local; try done. intros t0 Ht0. rewrite Hw in Ht0. by injection Ht0 as <-. }
  destruct t; simpl in Hst, Ht; rewrite ?Hm in Hst; try discriminate.
  - injection Hst as <- <-. apply Hloc; simpl; try done; lia.
  - destruct (slots_ r !! (head mod capacity_ r)) as [sl|] eqn:E; [injection Hst as <- <-|done].
    pose proof (Hld head sl ltac:(lia) E). apply Hloc; try done. simpl. split_and!; try lia. exists sl. split; [done|lia].
  - destruct Ht as (Hh & H0 & sl & Hsl & Hle). pose proof (Hld head sl ltac:(lia) Hsl).
    rewrite sdiff_eq in Hst by lia. destruct (seq - head =? 0) eqn:E1; [|destruct (seq - head <? 0)].
    + destruct (negb sp && (head_ r =? head)) eqn:E2; injection Hst as <- <-; [|apply Hloc; simpl; try done; lia].
      simpl in Hsm. zbool. subst head. rewrite u64_next in * by lia. eapply inv_push_claim; try done; lia.
    + injection Hst as <- <-. by apply Hloc.
    + injection Hst as <- <-. apply Hloc; simpl; try done; lia.
  - destruct Ht as (H1 & H2 & Hpv & Hsl). rewrite Hsl in Hst. injection Hst as <- <-.
    eapply (inv_slot_keep r ths w _ _ head); try done; simpl; try lia; [by intros q [= ->]| |].
    + eapply (ph_written _ _ _ w v); simpl; [lia|by rewrite lookup_insert_eq|done].
    + split_and!; try lia; [done|]. by rewrite lookup_insert_eq.
  - destruct Ht as (H1 & H2 & Hpv & Hsl). rewrite Hsl in Hst. injection Hst as <- <-. rewrite u64_next in * by lia.
    eapply (inv_slot_keep r ths w _ _ head); try done; simpl; try lia. by apply ph_full.
  - injection Hst as <- <-. apply Hloc; simpl; try done; lia.
  - destruct (slots_ r !! (tail mod capacity_ r)) as [sl|] eqn:E; [injection Hst as <- <-|done].
    pose proof (Hld tail sl ltac:(lia) E). apply Hloc; try done. simpl. split_and!; try lia. exists sl. split; [done|lia].
  - destruct Ht as (Hh & H0 & sl & Hsl & Hle). pose proof (Hld tail sl ltac:(lia) Hsl).
    rewrite u64_next in Hst by lia. rewrite sdiff_eq in Hst by lia.
    destruct (seq - (tail + 1) =? 0) eqn:E1; [|destruct (seq - (tail + 1) <? 0)].
    + destruct (negb sp && (tail_ r =? tail)) eqn:E2; injection Hst as <- <-; [|apply Hloc; simpl; try done; lia].
      zbool. subst tail. eapply inv_pop_claim; try done; lia.
    + injection Hst as <- <-. by apply Hloc.
    + injection Hst as <- <-. apply Hloc; simpl; try done; lia.
  - destruct Ht as (H1 & H2 & v & Hpv & Hsl). rewrite Hsl in Hst. injection Hst as <- <-.
    eapply (inv_slot_keep r ths w _ _ tail); try done; simpl; try lia; [by intros q [= ->]| |].
    + eapply (ph_read _ _ _ w v); simpl; [lia|lia|by rewrite lookup_insert_eq|done].
    + split_and!; try lia; [done|]. by rewrite lookup_insert_eq.
  - destruct Ht as (H1 & H2 & Hpv & Hsl). rewrite Hsl in Hst. injection Hst as <- <-. simpl.
    rewrite u64_small by lia. by apply inv_pop_release.
Qed.

(** ** The constructor *)

(** [x] is [m] with every set bit copied to the [w - 1] places below it. *)
Definition smeared (m w x : Z) : Prop :=
  0 <= x /\ forall i, 0 <= i -> Z.testbit x i = true <-> exists j, i <= j < i + w /\ Z.testbit m j = true.

Lemma smear_step m w w' x : 0 < w -> w' = 2 * w -> smeared m w x -> smeared m w' (Z.lor x (Z.shiftr x w)).
Proof.
  intros Hw -> [H0 Hx]. split; [apply Z.lor_nonneg; split; [done|by apply Z.shiftr_nonneg]|].
  intros i Hi. rewrite Z.lor_spec, Z.shiftr_spec, orb_true_iff, !Hx by lia. split.
  - intros [(j & ? & ?)|(j & ? & ?)]; exists j; split; try done; lia.
  - intros (j & ? & ?). destruct (decide (j < i + w)); [left|right]; exists j; split; try done; lia.
Qed.

Lemma smear_full m w x : 0 < m < 2 ^ w -> smeared m w x -> x = Z.ones (Z.log2 m + 1).
Proof.
  intros Hm [H0 Hx]. apply Z.bits_inj'. intros i Hi. pose proof (Z.log2_nonneg m).
  assert (Z.log2 m < w) by (apply Z.log2_lt_pow2; lia).
  rewrite Z.testbit_ones_nonneg by lia. destruct (Z.ltb_spec i (Z.log2 m + 1)).
  - apply Hx; [done|]. exists (Z.log2 m). split; [lia|]. apply Z.bit_log2. lia.
  - apply not_true_is_false. intros (j & Hj & Hb)%Hx; [|done]. rewrite Z.bits_above_log2 in Hb by lia. done.
Qed.

Lemma next_power_of_2_log n : 2 <= n <= 2 ^ 63 -> next_power_of_2 n = 2 ^ (Z.log2 (n - 1) + 1).
Proof.
  intros Hn. unfold next_power_of_2. rewrite (proj2 (Z.eqb_neq n 0)) by lia. cbv zeta.
  assert (smeared (n - 1) 1 (n - 1)) as S.
  { split; [lia|]. intros i Hi. split; [intros; exists i; split; [lia|done]|].
    intros (j & ? & ?). by replace i with j by lia. }
  apply (smear_step _ 1 2), (smear_step _ 2 4), (smear_step _ 4 8), (smear_step _ 8 16), (smear_step _ 16 32),
    (smear_step _ 32 64) in S; try lia. apply smear_full in S; [|lia]. rewrite S.
  rewrite Z.ones_equiv. replace (Z.pred (2 ^ (Z.log2 (n - 1) + 1)) + 1) with (2 ^ (Z.log2 (n - 1) + 1)) by lia.
  apply u64_small. split; [apply Z.pow_nonneg; lia|]. apply Z.pow_lt_mono_r; [lia|lia|].
  assert (Z.log2 (n - 1) < 63) by (apply Z.log2_lt_pow2; lia). lia.
Qed.

(** The capacity is the least power of two, at least two, that holds the requested number. *)
Lemma next_power_of_2_spec n : 2 <= n <= 2 ^ 63 ->
  exists k, 1 <= k <= 63 /\ next_power_of_2 n = 2 ^ k /\ n <= 2 ^ k /\ 2 ^ (k - 1) < n.
Proof.
  intros Hn. exists (Z.log2 (n - 1) + 1). pose proof (Z.log2_spec (n - 1) ltac:(lia)) as [H1 H2].
  pose proof (Z.log2_nonneg (n - 1)). assert (Z.log2 (n - 1) < 63) by (apply Z.log2_lt_pow2; lia).
  split; [lia|]. split; [by apply next_power_of_2_log|]. rewrite <-Z.add_1_r in H2. split; [lia|].
  replace (Z.log2 (n - 1) + 1 - 1) with (Z.log2 (n - 1)) by lia. lia.
Qed.

Lemma init_slots cap i : 0 <= i < cap ->
  (list_to_map (map (fun i => (i, Slot i None)) (seqZ 0 cap)) : gmap Z slot) !! i = Some (Slot i None).
Proof.
  intros Hi. apply elem_of_list_to_map_1.
  - rewrite map_map. simpl. rewrite map_id. apply NoDup_seqZ.
  - apply list_elem_of_In, in_map_iff. exists i. split; [done|]. apply list_elem_of_In, elem_of_seqZ. lia.
Qed.

Lemma inv_init capacity : 0 <= capacity <= 2 ^ 62 -> inv (System (init capacity) ∅).
Proof.
  intros Hc. destruct (next_power_of_2_spec (Z.max capacity 2) ltac:(lia)) as (k & Hk & E & Hle & Hlt).
  assert (2 ^ k <= 2 ^ 62) as Hk62.
  { apply Z.pow_le_mono_r; [lia|]. assert (k - 1 < 62); [|lia].
    apply (Z.pow_lt_mono_r_iff 2); [lia..|]. lia. }
  split; simpl; rewrite ?E; try done; try lia.
  - exists k. split; [lia|done].
  - intros i Hi. exists i, (Slot i None). split; [by apply init_slots|]. split; [lia|].
    split; [by apply Z.mod_small|]. apply ph_free. simpl. lia.
Qed.

(** ** Runs *)

Lemma tstep_counts sp r t r' t' : tstep sp r t = Some (r', t') -> capacity_ r' = capacity_ r /\
  ((head_ r' = head_ r /\ pushed r' = pushed r) \/ exists v, head_ r' = u64 (head_ r + 1) /\ pushed r' = pushed r ++ [v]).
Proof.
  intros H. destruct t; simpl in H; repeat case_match; simplify_eq/=; split; try done; try by left.
  right. zbool. subst. eauto.
Qed.

Lemma step_inv s s' : inv s -> step s s' -> zlen (pushed (shared s')) + capacity_ (shared s') < 2 ^ 63 -> inv s'.
Proof.
  intros Hi Hst Hsm. destruct Hst as [w t r ths Hw Ht|w sp t r ths r' t' Hw Ht]; simpl in *.
  - apply inv_local; [done|destruct Ht as [->|[v ->]]; done..|]. intros t0 E. by rewrite Hw in E.
  - eapply thread_inv; try done. destruct (tstep_counts _ _ _ _ _ Ht) as [Ec [[Eh Ep]|(v & Eh & Ep)]];
      pose proof (i_pushed _ Hi); pose proof (i_range _ Hi); pose proof (cap_pos _ Hi); rewrite Ep, ?zlen_app in Hsm; simpl in *;
      unfold zlen in *; simpl in *; [lia|]. rewrite Eh, u64_small; lia.
Qed.

Lemma step_pushed s s' : step s s' ->
  capacity_ (shared s') = capacity_ (shared s) /\ zlen (pushed (shared s)) <= zlen (pushed (shared s')).
Proof.
  destruct 1 as [|w sp t r ths r' t' Hw Ht]; simpl; [split; [done|lia]|].
  destruct (tstep_counts _ _ _ _ _ Ht) as [Ec [[Eh Ep]|(v & Eh & Ep)]]; rewrite Ep, ?zlen_app; unfold zlen; split; try done; lia.
Qed.

(** The runs of a ring built for [capacity] elements in which the tickets fit their word. *)
Definition run (capacity : Z) (s : system) : Prop :=
  0 <= capacity <= 2 ^ 62 /\ rtc step (System (init capacity) ∅) s /\
  zlen (pushed (shared s)) + capacity_ (shared s) < 2 ^ 63.

Lemma run_inv capacity s : run capacity s -> inv s.
Proof.
  intros (Hc & Hr & Hs). revert Hs.
  eapply (rtc_invariant _ (fun s => zlen (pushed (shared s)) + capacity_ (shared s) < 2 ^ 63 -> inv s)); [| |exact Hr].
  - intros s1 s2 IH Hst Hs. eapply step_inv; [apply IH|done|done]. destruct (step_pushed _ _ Hst). lia.
  - intros _. by apply inv_init.
Qed.

(** ** Properties *)

(** [C3] The ring delivers every element exactly once and in order of claim.  In every interleaving of
    any number of [try_push] and [try_pop] calls: the window between [tail_] and [head_] never
    exceeds the capacity; what the pop with ticket [t] returned is the [t]-th value for which a
    push claimed [head_]; and a ticket below [tail_] that has not been returned yet is held by
    exactly one running [try_pop], while a returned one is held by none. *)
Theorem exactly_once capacity s : run capacity s -> let r := shared s in
  (0 <= tail_ r <= head_ r /\ head_ r <= tail_ r + capacity_ r /\ head_ r = zlen (pushed r)) /\
  (forall t v, popped r !! t = Some v -> 0 <= t < tail_ r /\ pushed r !! Z.to_nat t = Some v /\
     forall w th, threads s !! w = Some th -> claims_pop th <> Some t) /\
  (forall t, 0 <= t < tail_ r -> popped r !! t = None ->
     exists w th, threads s !! w = Some th /\ claims_pop th = Some t /\
     forall w' th', threads s !! w' = Some th' -> claims_pop th' = Some t -> w' = w).
Proof.
  intros Hr%run_inv r. subst r. destruct Hr. split; [by destruct i_range0; rewrite i_pushed0|]. split; [done|].
  intros t Ht Hn. destruct (i_taken0 t Ht Hn) as (w & th & Hw & Hc). exists w, th. do 2 (split; [done|]).
  intros w' th' Hw' Hc'. eapply (i_unique0 w' w th' th t); [done|done|by destruct th'|by destruct th].
Qed.

(** When no call is running, the ring holds exactly the elements pushed and not popped: the
    pops have returned the first [tail_] elements pushed, every later one sits in its slot with
    the sequence number a consumer waits for, and [size] and [can_push] report just that. *)
Theorem quiescent_contents capacity s : run capacity s ->
  (forall w t, threads s !! w = Some t -> finished t = true) -> let r := shared s in
  (forall t, 0 <= t < tail_ r -> popped r !! t = pushed r !! Z.to_nat t) /\
  (forall t, tail_ r <= t < head_ r -> exists v, pushed r !! Z.to_nat t = Some v /\
     slots_ r !! (t mod capacity_ r) = Some (Slot (t + 1) (Some v))) /\
  size r = zlen (pushed r) - tail_ r /\ (empty r = true <-> size r = 0) /\
  (can_push r = true <-> size r < capacity_ r).
Proof.
  intros Hr%run_inv Hf r. subst r. pose proof Hr as Hi. destruct Hr. pose proof (cap_pos _ Hi) as Hcap.
  assert (size (shared s) = head_ (shared s) - tail_ (shared s)) as Hsz.
  { unfold size. destruct (Z.leb_spec (tail_ (shared s)) (head_ (shared s))); lia. }
  assert (forall w t, threads s !! w = Some t -> claim t = None) as Hnc.
  { intros w t Hw. specialize (Hf w t Hw). by destruct t. }
  split; [|split; [|split; [lia|split]]].
  - intros t Ht. destruct (popped (shared s) !! t) as [v|] eqn:E; [by destruct (i_popped0 t v E) as (_ & -> & _)|].
    destruct (i_taken0 t Ht E) as (w & th & Hw & Hc). specialize (Hnc w th Hw). by destruct th.
  - intros t Ht. destruct (slot_of s t Hi) as (p & sl & Hsl & Hp & Hm & Hph).
    destruct (slot_seq_le s p sl Hi Hph Hp) as (_ & ? & ?).
    assert (p = t) as -> by (apply (cong_near (capacity_ (shared s))); [lia|done|lia]).
    destruct Hph as [|w v ? Hw|w v ? Hw|v| |]; try lia; try (by specialize (Hnc _ _ Hw)). exists v. done.
  - unfold empty. rewrite Hsz. split; intros; zbool; lia.
  - unfold can_push. rewrite (mask_mod s) by done. destruct (slot_of s (head_ (shared s)) Hi) as (p & sl & Hsl & Hp & Hm & Hph).
    rewrite Hsl, sdiff_eq by (try apply (load_ok s (head_ (shared s))); try done; lia).
    destruct (slot_seq_le s p sl Hi Hph Hp) as (? & ? & ?). rewrite Hsz. split; intros Hc.
    + zbool. destruct (free_slot s _ (head_ (shared s)) sl p Hi eq_refl eq_refl Hm Hph Hp ltac:(lia)) as (-> & _ & ?). lia.
    + apply Z.eqb_eq. destruct (decide (p = head_ (shared s))) as [->|Hne].
      { destruct Hph; simpl in *; lia. }
      destruct (decide (p < head_ (shared s))); [|destruct Hne; apply (cong_near (capacity_ (shared s))); [lia|done|lia]].
      assert (p = head_ (shared s) - capacity_ (shared s)) by (apply cong_below; [lia|done|lia]).
      destruct Hph as [| | | |w v ? ? Hw|w v ? ? Hw]; try lia; by specialize (Hnc _ _ Hw).
Qed.

(** A slot whose ticket is behind is one whose element has not been handed back. *)
Lemma unreleased s p sl : inv s -> slot_phase (shared s) (threads s) p sl -> p < head_ (shared s) -> popped (shared s) !! p = None.
Proof.
  intros Hi Hph Hp. destruct (popped (shared s) !! p) as [v'|] eqn:E; [|done].
  destruct (i_popped s Hi p v' E) as (Hr & _ & Hn).
  destruct Hph as [|w v Hc|w v Hc|v Hc|w v ? ? Hw|w v ? ? Hw]; try lia; exfalso; by apply (Hn _ _ Hw).
Qed.

Lemma push_test_from sp r t r' v h seq : tstep sp r t = Some (r', PushTest v h seq) ->
  t = PushLoadSeq v h /\ exists sl, slots_ r !! Z.land h (mask_ r) = Some sl /\ seq = sequence sl.
Proof. intros H. destruct t; simpl in H; repeat case_match; simplify_eq/=; eauto. Qed.

Lemma pop_test_from sp r t r' h seq : tstep sp r t = Some (r', PopTest h seq) ->
  t = PopLoadSeq h /\ exists sl, slots_ r !! Z.land h (mask_ r) = Some sl /\ seq = sequence sl.
Proof. intros H. destruct t; simpl in H; repeat case_match; simplify_eq/=; eauto. Qed.

(** Calls give up only for a reason.  A [try_push] returns [false] only if, when it read the
    sequence number, its ticket was the next one and the element one lap before it had not been
    taken out; a [try_pop] returns nothing only if, when it read the sequence number, its ticket was
    the next one and either the ring was empty or the producer of that element was still writing it. *)
Theorem failures_justified capacity s w t sp r' t' : run capacity s ->
  threads s !! w = Some t -> tstep sp (shared s) t = Some (r', t') -> let r := shared s in
  (forall v h seq, t' = PushTest v h seq -> sdiff seq h < 0 ->
     head_ r = h /\ capacity_ r <= h /\ popped r !! (h - capacity_ r) = None) /\
  (forall h seq, t' = PopTest h seq -> sdiff seq (u64 (h + 1)) < 0 ->
     tail_ r = h /\ (head_ r = h \/ exists w' th, threads s !! w' = Some th /\ claims_push th = Some h)).
Proof.
  intros Hi%run_inv Hw Hst r. subst r. pose proof (cap_pos s Hi) as Hcap. pose proof (i_range s Hi) as Hrg.
  pose proof (i_small s Hi) as Hsm. pose proof (i_threads s Hi w t Hw) as Ht.
  split; [intros v h seq -> Hd; apply push_test_from in Hst|intros h seq -> Hd; apply pop_test_from in Hst];
    destruct Hst as (-> & sl & Hsl & ->); rewrite (mask_mod s) in Hsl by done; simpl in Ht;
    destruct (slot_of s h Hi) as (p & sl' & Hsl' & Hp & Hm & Hph); rewrite Hsl in Hsl'; injection Hsl' as <-.
  - destruct (slot_seq_le s p sl Hi Hph Hp) as (? & ? & ?). pose proof (load_ok s h sl Hi ltac:(lia) Hsl).
    rewrite sdiff_eq in Hd by lia. assert (p = h - capacity_ (shared s)) as -> by (apply cong_below; [lia|done|lia]).
    split_and!; [lia|lia|]. eapply unreleased; [done|done|lia].
  - destruct (slot_seq_le s p sl Hi Hph Hp) as (? & ? & ?). pose proof (load_ok s h sl Hi ltac:(lia) Hsl).
    rewrite u64_next, sdiff_eq in Hd by lia. destruct (decide (p = h)) as [->|Hne].
    + destruct Hph as [|w1 v Hc Hw1|w1 v Hc Hw1| | |]; simpl in *; try lia; split; [lia|right; eauto|lia|right; eauto].
    + assert (p = h - capacity_ (shared s)) as -> by (apply cong_below; [lia|done|lia]). lia.
Qed.

(** No call ever touches memory that is not there: a running [try_push] or [try_pop] finds its
    slot at every access, and a [try_pop] that has claimed a ticket finds a value in its slot. *)
Theorem accesses_defined capacity s w t sp : run capacity s -> threads s !! w = Some t -> finished t = false ->
  exists r' t', tstep sp (shared s) t = Some (r', t').
Proof. intros Hr%run_inv. by apply tstep_total. Qed.

(** ** Schedules *)

Inductive move := Call (t : thread) | Run (spurious : bool).

Definition act (s : system) (m : nat * move) : option system :=
  match m with
  | (w, Call t) => match threads s !! w, t with
                   | None, (PopLoadTail | PushLoadHead _) => Some (System (shared s) (<[w := t]> (threads s)))
                   | _, _ => None
                   end
  | (w, Run sp) => match threads s !! w with
                   | Some t => match tstep sp (shared s) t with
                               | Some (r', t') => Some (System r' (<[w := t']> (threads s)))
                               | None => None
                               end
                   | None => None
                   end
  end.

Fixpoint schedule (s : system) (ms : list (nat * move)) : option system :=
  match ms with
  | [] => Some s
  | m :: ms => match act s m with Some s' => schedule s' ms | None => None end
  end.

Lemma schedule_rtc ms : forall s s', schedule s ms = Some s' -> rtc step s s'.
Proof.
  induction ms as [|[w m] ms IH]; simpl; intros s s' H; [injection H as <-; apply rtc_refl|].
  destruct (match m with Call _ => _ | Run _ => _ end) as [s1|] eqn:E; [|done].
  eapply rtc_l; [|by apply IH]. destruct s as [r ths], m; simpl in E; repeat case_match; simplify_eq; econstructor; eauto.
Qed.

End Code.

Arguments thread V : clear implicits.
Arguments system V : clear implicits.
Arguments move V : clear implicits.

(** ** Witnesses *)

(** Two producers race for the first of two slots, the loser publishes before the winner, and a
    consumer takes the oldest element out. *)
Definition demo_moves : list (nat * move Z) :=
  [(0%nat, Call (PushLoadHead 10)); (1%nat, Call (PushLoadHead 20)); (2%nat, Call PopLoadTail);
   (0%nat, Run false); (1%nat, Run false); (0%nat, Run false); (1%nat, Run false); (0%nat, Run false);
   (1%nat, Run false); (1%nat, Run false); (1%nat, Run true)] ++
  repeat (1%nat, Run false) 4 ++ repeat (2%nat, Run false) 2 ++ repeat (0%nat, Run false) 2 ++
  [(3%nat, Call PopLoadTail)] ++ repeat (3%nat, Run false) 5 ++ [(2%nat, Run false)].

Definition demo_at (n : nat) : system Z :=
  match schedule (System (init 2) ∅) (take n demo_moves) with Some s => s | None => System (init 2) ∅ end.

Lemma demo_run n : schedule (System (init 2) ∅) (take n demo_moves) = Some (demo_at n) ->
  zlen (pushed (shared (demo_at n))) + capacity_ (shared (demo_at n)) < 2 ^ 63 -> run 2 (demo_at n).
Proof. intros H ?. split; [lia|]. split; [|done]. by eapply schedule_rtc. Qed.

Lemma exactly_once_witness : run 2 (demo_at 25) /\ tail_ (shared (demo_at 25)) <= head_ (shared (demo_at 25)) /\
  map_to_list (popped (shared (demo_at 25))) = [(0, 10)] /\ pushed (shared (demo_at 25)) = [10; 20].
Proof.
  assert (run 2 (demo_at 25)) as Hr by (apply demo_run; vm_compute; reflexivity).
  split; [exact Hr|]. destruct (exactly_once 2 (demo_at 25) Hr) as [[[_ H] _] _].
  split; [exact H|]. split; vm_compute; reflexivity.
Defined.

Lemma quiescent_contents_witness : run 2 (demo_at 26) /\
  slots_ (shared (demo_at 26)) !! 1 = Some (Slot 2 (Some 20)) /\ size (shared (demo_at 26)) = 1.
Proof.
  assert (run 2 (demo_at 26)) as Hr by (apply demo_run; vm_compute; reflexivity). split; [exact Hr|].
  assert (map_Forall (fun _ t => finished t = true) (threads (demo_at 26))) as Hf
    by (refine (bool_decide_unpack _ _); vm_compute; exact I).
  destruct (quiescent_contents 2 (demo_at 26) Hr Hf) as (_ & _ & Hs & _). split; [vm_compute; reflexivity|].
  rewrite Hs. vm_compute. reflexivity.
Defined.

Lemma failures_justified_witness : run 2 (demo_at 16) /\
  exists w th, threads (demo_at 16) !! w = Some th /\ claims_push th = Some 0.
Proof.
  assert (run 2 (demo_at 16)) as Hr by (apply demo_run; vm_compute; reflexivity). split; [exact Hr|].
  destruct (failures_justified 2 (demo_at 16) 2%nat (PopLoadSeq 0) false (shared (demo_at 16)) (PopTest 0 0) Hr
              ltac:(vm_compute; reflexivity) ltac:(vm_compute; reflexivity)) as [_ Hpop].
  destruct (Hpop 0 0 eq_refl ltac:(vm_compute; reflexivity)) as [_ [Hh|Hw]]; [|exact Hw].
  exfalso. vm_compute in Hh. discriminate Hh.
Defined.

Lemma accesses_defined_witness : run 2 (demo_at 23) /\
  exists r' t', tstep false (shared (demo_at 23)) (PopRead 0) = Some (r', t').
Proof.
  assert (run 2 (demo_at 23)) as Hr by (apply demo_run; vm_compute; reflexivity). split; [exact Hr|].
  apply (accesses_defined 2 (demo_at 23) 3%nat (PopRead 0) false Hr); [vm_compute; reflexivity|reflexivity].
Defined.

End Ring.
