(* ===== verification/Endian.v ===== *)
(** * Little-endian scalars of the RPC wire format

    Models [src/include/elio/rpc/rpc_endian.hpp].  The byte order of the host
    ([std::endian::native]) is a parameter of every definition; a scalar object in memory is the
    list of its bytes in address order ([object_bytes] is what [memcpy] copies out of it and
    [object_value] what [memcpy] into it makes of it).  [Endian.write_le] and [Endian.read_le] are the
    code's helpers for each kind of scalar, and the lemmas show that the bytes they exchange
    are the same on both kinds of host. *)

From Stdlib Require Import Strings.Byte.
From S2P Require Import Prelude.

(** ** Byte strings as little-endian numbers *)

Fixpoint le_bytes (n : nat) (z : Z) : list byte :=
  match n with
  | O => []
  | S n => z2b z :: le_bytes n (z / 256)
  end.

Fixpoint le_val (l : list byte) : Z :=
  match l with
  | [] => 0
  | b :: l => b2z b + 256 * le_val l
  end.

Module Endian.

(** [std::endian::native]. *)
Inductive endian := little | big.

(** The types the helpers accept: [bool], an integer or enumeration of [n] bytes (the
    underlying type of the enumeration), a floating-point number of [n] bytes (its value is its
    bit pattern), a trivially copyable aggregate of [n] bytes (its value is the number that its bytes
    in memory spell, the lowest address first, whatever the host). *)
Inductive scalar :=
| Bool
| Unsigned (n : nat)
| Signed (n : nat)
| Floating (n : nat)
| Aggregate (n : nat).

Definition sizeof (t : scalar) : nat :=
  match t with
  | Bool => 1
  | Unsigned n | Signed n | Floating n | Aggregate n => n
  end.

(** The values of a scalar type; a [bool] is 0 or 1. *)
Definition in_type (t : scalar) (v : Z) : Prop :=
  match t with
  | Bool => v = 0 \/ v = 1
  | Unsigned n | Floating n | Aggregate n => 0 <= v < 2 ^ (8 * Z.of_nat n)
  | Signed n => - 2 ^ (8 * Z.of_nat n - 1) <= v < 2 ^ (8 * Z.of_nat n - 1)
  end.

(** [static_cast] to the [n]-byte type of that signedness. *)
Definition cast (t : scalar) (z : Z) : Z :=
  match t with
  | Bool => if z =? 0 then 0 else 1
  | Unsigned n | Floating n | Aggregate n => uwrap (8 * Z.of_nat n) z
  | Signed n => swrap (8 * Z.of_nat n) z
  end.

Definition object_bytes (host : endian) (n : nat) (z : Z) : list byte :=
  match host with
  | little => le_bytes n z
  | big => reverse (le_bytes n z)
  end.

Definition object_value (host : endian) (l : list byte) : Z :=
  match host with
  | little => le_val l
  | big => le_val (reverse l)
  end.

(** [__builtin_bswap16/32/64]: the bytes of the pattern in the opposite order. *)
Definition bswap (n : nat) (z : Z) : Z := le_val (reverse (le_bytes n z)).

Definition integral_byteswap (t : scalar) (x : Z) : Z :=
  match sizeof t with
  | 1%nat => x
  | n => cast t (bswap n (uwrap (8 * Z.of_nat n) x))
  end.

Definition integral_host_to_le (host : endian) (t : scalar) (x : Z) : Z :=
  match host with
  | little => x
  | big => integral_byteswap t x
  end.

Definition integral_le_to_host (host : endian) (t : scalar) (x : Z) : Z :=
  integral_host_to_le host t x.

Definition write_le (host : endian) (t : scalar) (value : Z) : list byte :=
  match t with
  | Bool => [z2b (if value =? 0 then 0 else 1)]
  | Floating n => object_bytes host n (integral_host_to_le host (Unsigned n) value)
  | Aggregate n => le_bytes n value
  | _ => object_bytes host (sizeof t) (integral_host_to_le host t value)
  end.

Definition read_le (host : endian) (t : scalar) (src : list byte) : Z :=
  match t with
  | Bool => if b2z (nth 0 src Byte.x00) =? 0 then 0 else 1
  | Floating n => integral_le_to_host host (Unsigned n) (object_value host (take n src))
  | Aggregate n => le_val (take n src)
  | _ => integral_le_to_host host t (cast t (object_value host (take (sizeof t) src)))
  end.

End Endian.

(** ** Lemmas *)

Lemma length_le_bytes n z : length (le_bytes n z) = n.
Proof. revert z. induction n; intros; simpl; [done|]. by rewrite IHn. Qed.

Lemma le_val_range l : 0 <= le_val l < 2 ^ (8 * zlen l).
Proof.
  induction l as [|b l IH]; cbn [le_val]; [unfold zlen; simpl; lia|].
  rewrite zlen_cons, Z.mul_add_distr_l, Z.pow_add_r by (pose proof (zlen_nonneg l); lia).
  pose proof (b2z_range b). change (2 ^ (8 * 1)) with 256. lia.
Qed.

Lemma le_val_le_bytes n z : le_val (le_bytes n z) = uwrap (8 * Z.of_nat n) z.
Proof.
  unfold uwrap. revert z. induction n as [|n IH]; intros z.
  - simpl. by rewrite Z.mod_1_r.
  - cbn [le_bytes le_val]. rewrite IH, b2z_z2b.
    replace (8 * Z.of_nat (S n)) with (8 + 8 * Z.of_nat n) by lia.
    rewrite Z.pow_add_r by lia. change (2 ^ 8) with 256.
    rewrite Z.rem_mul_r; [done|lia|]. apply Z.pow_pos_nonneg; lia.
Qed.

Lemma le_bytes_le_val l : le_bytes (length l) (le_val l) = l.
Proof.
  induction l as [|b l IH]; [done|]. cbn [length le_bytes le_val]. pose proof (b2z_range b).
  f_equal.
  - apply b2z_inj. rewrite b2z_z2b, Z.mul_comm, Z.mod_add by lia.
    by apply Z.mod_small.
  - rewrite Z.mul_comm, Z.div_add, Z.div_small by lia. by rewrite Z.add_0_l.
Qed.

Lemma le_bytes_le_val' n l : length l = n -> le_bytes n (le_val l) = l.
Proof. intros <-. apply le_bytes_le_val. Qed.

Lemma le_bytes_uwrap n z : le_bytes n (uwrap (8 * Z.of_nat n) z) = le_bytes n z.
Proof. by rewrite <-le_val_le_bytes, <-(length_le_bytes n z) at 1; rewrite le_bytes_le_val. Qed.

Lemma le_bytes_inj n a b : le_bytes n a = le_bytes n b -> uwrap (8 * Z.of_nat n) a = uwrap (8 * Z.of_nat n) b.
Proof. intros H. by rewrite <-!le_val_le_bytes, H. Qed.

Lemma pow_zlen_cons {A} (x : A) l : 2 ^ (8 * zlen (x :: l)) = 256 * 2 ^ (8 * zlen l).
Proof.
  rewrite zlen_cons, Z.mul_add_distr_l, Z.pow_add_r by (pose proof (zlen_nonneg l); lia). done.
Qed.

Lemma le_val_app l k : le_val (l ++ k) = le_val l + 2 ^ (8 * zlen l) * le_val k.
Proof.
  induction l as [|b l IH]; cbn [le_val app]; [unfold zlen; simpl; lia|].
  rewrite IH, pow_zlen_cons. lia.
Qed.

Lemma length_reverse_le n z : length (reverse (le_bytes n z)) = n.
Proof. by rewrite length_reverse, length_le_bytes. Qed.

Module EndianFacts.
Import Endian.

Lemma object_value_bytes host n z : object_value host (object_bytes host n z) = uwrap (8 * Z.of_nat n) z.
Proof. destruct host; simpl; rewrite ?reverse_involutive; apply le_val_le_bytes. Qed.

Lemma swrap_uwrap w z : 0 < w -> swrap w (uwrap w z) = swrap w z.
Proof. intros. unfold uwrap, swrap. by rewrite Zplus_mod_idemp_l. Qed.

(** The scalar types the code instantiates: 1, 2, 4 or 8 bytes ([float] and [double] for
    floating point); an aggregate has any size that fits in a message. *)
Definition supported (t : scalar) : Prop :=
  match t with
  | Bool => True
  | Unsigned n | Signed n => n = 1%nat \/ n = 2%nat \/ n = 4%nat \/ n = 8%nat
  | Floating n => n = 4%nat \/ n = 8%nat
  | Aggregate n => 0 < Z.of_nat n <= 2 ^ 32
  end.

Lemma sizeof_pos t : supported t -> (0 < sizeof t)%nat.
Proof. destruct t; simpl; lia. Qed.

Lemma cast_in_type t v : supported t -> in_type t v -> cast t v = v.
Proof.
  destruct t as [|n|n|n|n]; simpl; intros Hs Hv.
  - by destruct Hv as [-> | ->].
  - by apply uwrap_small.
  - apply swrap_small; [lia|done].
  - by apply uwrap_small.
  - by apply uwrap_small.
Qed.

Lemma le_bytes_cast t z : t <> Bool -> supported t -> le_bytes (sizeof t) (cast t z) = le_bytes (sizeof t) z.
Proof.
  destruct t as [|n|n|n|n]; simpl; intros Hb Hs; [done| | | |]; try apply le_bytes_uwrap.
  rewrite <-(le_bytes_uwrap n (swrap _ _)), uwrap_swrap by lia. apply le_bytes_uwrap.
Qed.

Lemma le_bytes_bswap n z : le_bytes n (bswap n z) = reverse (le_bytes n z).
Proof.
  unfold bswap. rewrite <-(length_reverse_le n z) at 1. apply le_bytes_le_val.
Qed.

Lemma le_bytes_byteswap t z : t <> Bool -> supported t ->
  le_bytes (sizeof t) (integral_byteswap t z) = reverse (le_bytes (sizeof t) z).
Proof.
  intros Hb Hs. unfold integral_byteswap.
  destruct (sizeof t) as [|[|n]] eqn:E; [done|done|]. rewrite <-E.
  rewrite le_bytes_cast, le_bytes_bswap, le_bytes_uwrap by done. done.
Qed.

(** The wire bytes of a scalar do not depend on the host. *)
Lemma write_le_bytes host t v : supported t -> in_type t v -> write_le host t v = le_bytes (sizeof t) v.
Proof.
  intros Hs Hv. destruct t as [|n|n|n|n].
  - by destruct Hv as [-> | ->].
  - destruct host; [done|]. simpl. by rewrite (le_bytes_byteswap (Unsigned n)), reverse_involutive.
  - destruct host; [done|]. simpl. by rewrite (le_bytes_byteswap (Signed n)), reverse_involutive.
  - destruct host; [done|]. simpl. rewrite (le_bytes_byteswap (Unsigned n)), reverse_involutive; try done.
    simpl in *; lia.
  - done.
Qed.

Lemma length_write_le host t v : length (write_le host t v) = sizeof t.
Proof.
  destruct t; simpl; [done| | | |apply length_le_bytes]; destruct host; simpl; rewrite ?length_reverse, ?length_le_bytes; done.
Qed.

Lemma byteswap_le_val t l : t <> Bool -> supported t -> length l = sizeof t ->
  integral_byteswap t (cast t (le_val (reverse l))) = cast t (le_val l).
Proof.
  intros Hb Hs Hl. unfold integral_byteswap.
  destruct (sizeof t) as [|[|n]] eqn:E; [pose proof (sizeof_pos t Hs); lia| |].
  - destruct l as [|b [|]]; done.
  - unfold bswap. rewrite <-E, le_bytes_uwrap, le_bytes_cast by done.
    rewrite E, <-Hl, <-(length_reverse l), le_bytes_le_val, reverse_involutive. done.
Qed.

(** Reading yields the little-endian value of the first [sizeof t] bytes, on both hosts. *)
Lemma read_le_value host t src : supported t -> (sizeof t <= length src)%nat ->
  read_le host t src = cast t (le_val (take (sizeof t) src)).
Proof.
  intros Hs Hl.
  assert (length (take (sizeof t) src) = sizeof t) as Ht by (rewrite length_take; lia).
  destruct t as [|n|n|n|n].
  - destruct src as [|b src]; [simpl in Hl; lia|]. simpl. by rewrite Z.add_0_r.
  - destruct host; [done|]. by apply (byteswap_le_val (Unsigned n)).
  - destruct host; [done|]. by apply (byteswap_le_val (Signed n)).
  - pose proof (le_val_range (take n src)) as Hr. pose proof (le_val_range (reverse (take n src))) as Hr'.
    unfold zlen in Hr, Hr'. rewrite length_reverse in Hr'. simpl in Ht. rewrite Ht in Hr, Hr'.
    destruct host; simpl; [by rewrite uwrap_small|].
    assert (supported (Unsigned n)) as Hu by (simpl in *; lia).
    rewrite <-(uwrap_small _ (le_val (reverse (take n src)))) by exact Hr'.
    exact (byteswap_le_val (Unsigned n) (take n src) ltac:(done) Hu Ht).
  - pose proof (le_val_range (take n src)) as Hr. unfold zlen in Hr. simpl in Ht. rewrite Ht in Hr. simpl. by rewrite uwrap_small.
Qed.

Lemma cast_uwrap t v : t <> Bool -> supported t -> cast t (uwrap (8 * Z.of_nat (sizeof t)) v) = cast t v.
Proof.
  destruct t; simpl; intros; [done|..]; try apply swrap_uwrap; try lia; unfold uwrap; by rewrite Zmod_mod.
Qed.

(** Round trip: what was written is read back, whatever follows it and on either host. *)
Lemma read_write_le host host' t v rest : supported t -> in_type t v ->
  read_le host' t (write_le host t v ++ rest) = v.
Proof.
  intros Hs Hv. pose proof (length_write_le host t v) as Hl.
  rewrite read_le_value; [|done|rewrite length_app; lia].
  rewrite take_app_length' by done. rewrite write_le_bytes, le_val_le_bytes by done.
  destruct t as [|n|n|n|n]; [by destruct Hv as [-> | ->]|..];
    rewrite cast_uwrap by done; by apply cast_in_type.
Qed.

End EndianFacts.
