(* ===== verification/Crc32.v ===== *)
(** * CRC-32 and CRC-32C

    Models [src/include/elio/hash/crc32.hpp]: the compile-time tables, the slicing-by-8
    software routines, the loops around the hardware instructions and the public functions.
    The byte order of the host, the address of each buffer (the routines align their loads to
    8 bytes) and the instructions available are parameters.  The instructions themselves are
    arguments of the routines that use them; what the processor manuals say of them is the
    record [Crc.crc_instructions].

    The reference definition is the bit-serial shift register [Crc.crc_ref].  The lemmas rest on one
    fact: the register after [n] bytes is the [8n]-fold shift of the initial register xored
    with the message read as a little-endian number, and the shift is linear for xor. *)

From S2P Require Import Prelude Endian.

Module Crc.
Export Endian.

Definition IEEE : Z := 0xEDB88320.
Definition CASTAGNOLI : Z := 0x82F63B78.
Definition ALL_ONES : Z := 0xFFFFFFFF.

(** ** Tables *)

Fixpoint crc32_make_table_entry (k : nat) (n : Z) : Z :=
  match k with
  | O => n
  | S k => crc32_make_table_entry k (if Z.odd n then Z.lxor IEEE (Z.shiftr n 1) else Z.shiftr n 1)
  end.

Definition crc32_table : list Z := map (crc32_make_table_entry 8) (seqZ 0 256).

(** [t[i]] on a table of 256 entries. *)
Definition at_ (t : list Z) (i : Z) : Z := nth (Z.to_nat i) t 0.

Definition table_bit (P crc : Z) : Z := Z.lxor (Z.shiftr crc 1) (if Z.odd crc then P else 0).

Definition table0 (P : Z) : list Z := map (fun i => Nat.iter 8 (table_bit P) i) (seqZ 0 256).

Definition next_table (t0 tk : list Z) : list Z :=
  map (fun e => Z.lxor (Z.shiftr e 8) (at_ t0 (Z.land e 0xFF))) tk.

Record tables := Tables { t0 : list Z; t1 : list Z; t2 : list Z; t3 : list Z;
                          t4 : list Z; t5 : list Z; t6 : list Z; t7 : list Z }.

Definition make_tables (P : Z) : tables :=
  let t0 := table0 P in
  let t1 := next_table t0 t0 in
  let t2 := next_table t0 t1 in
  let t3 := next_table t0 t2 in
  let t4 := next_table t0 t3 in
  let t5 := next_table t0 t4 in
  let t6 := next_table t0 t5 in
  let t7 := next_table t0 t6 in
  Tables t0 t1 t2 t3 t4 t5 t6 t7.

Definition crc32_slice_tables : tables := make_tables IEEE.
Definition crc32c_slice_tables : tables := make_tables CASTAGNOLI.

(** ** Software *)

(** One byte: [crc = t[0][(crc ^ *data++) & 0xFF] ^ (crc >> 8)]. *)
Definition sw_byte (t : tables) (crc : Z) (b : byte) : Z :=
  Z.lxor (at_ (t0 t) (Z.land (Z.lxor crc (b2z b)) 0xFF)) (Z.shiftr crc 8).

(** The loop over the unaligned head; [addr] is the address of the first byte of [data]. *)
Fixpoint head_loop (f : Z -> byte -> Z) (addr : Z) (data : list byte) (crc : Z) : list byte * Z :=
  match data with
  | b :: rest => if Z.land addr 7 =? 0 then (data, crc) else head_loop f (addr + 1) rest (f crc b)
  | [] => ([], crc)
  end.

(** The eight look-ups of the slicing-by-8 loop. *)
Definition slice8 (t : tables) (crc lo hi : Z) : Z :=
  let crc := Z.lxor crc lo in
  Z.lxor (at_ (t7 t) (Z.land crc 0xFF))
  (Z.lxor (at_ (t6 t) (Z.land (Z.shiftr crc 8) 0xFF))
  (Z.lxor (at_ (t5 t) (Z.land (Z.shiftr crc 16) 0xFF))
  (Z.lxor (at_ (t4 t) (Z.shiftr crc 24))
  (Z.lxor (at_ (t3 t) (Z.land hi 0xFF))
  (Z.lxor (at_ (t2 t) (Z.land (Z.shiftr hi 8) 0xFF))
  (Z.lxor (at_ (t1 t) (Z.land (Z.shiftr hi 16) 0xFF))
          (at_ (t0 t) (Z.shiftr hi 24)))))))).

Fixpoint slice_loop (host : endian) (t : tables) (data : list byte) (crc : Z) : list byte * Z :=
  match data with
  | b0 :: b1 :: b2 :: b3 :: b4 :: b5 :: b6 :: b7 :: rest =>
      slice_loop host t rest
        (slice8 t crc (object_value host [b0; b1; b2; b3]) (object_value host [b4; b5; b6; b7]))
  | _ => (data, crc)
  end.

Definition sw (host : endian) (t : tables) (addr : Z) (data : list byte) (crc : Z) : Z :=
  let (data, crc) :=
    match host with
    | little => let (data, crc) := head_loop (sw_byte t) addr data crc in slice_loop host t data crc
    | big => (data, crc)
    end in
  fold_left (sw_byte t) data crc.

Definition crc32_sw (host : endian) := sw host crc32_slice_tables.
Definition crc32c_sw (host : endian) := sw host crc32c_slice_tables.

(** ** Hardware *)

(** The instructions that accumulate 1, 4 and 8 bytes. *)
Record instructions := Instructions {
  crc_u8 : Z -> Z -> Z;
  crc_u32 : Z -> Z -> Z;
  crc_u64 : Z -> Z -> Z
}.

Fixpoint u64_loop (host : endian) (f : instructions) (data : list byte) (crc : Z) : list byte * Z :=
  match data with
  | b0 :: b1 :: b2 :: b3 :: b4 :: b5 :: b6 :: b7 :: rest =>
      u64_loop host f rest
        (u32 (crc_u64 f crc (object_value host [b0; b1; b2; b3; b4; b5; b6; b7])))
  | _ => (data, crc)
  end.

Fixpoint u32_loop (host : endian) (f : instructions) (data : list byte) (crc : Z) : list byte * Z :=
  match data with
  | b0 :: b1 :: b2 :: b3 :: rest =>
      u32_loop host f rest (crc_u32 f crc (object_value host [b0; b1; b2; b3]))
  | _ => (data, crc)
  end.

Definition hw_byte (f : instructions) (crc : Z) (b : byte) : Z := crc_u8 f crc (b2z b).

(** The three hardware routines have the same body; [wide] says whether the 8-byte loop is
    compiled in (on x86 only under [__x86_64__], on AArch64 always). *)
Definition hw (wide : bool) (host : endian) (f : instructions) (addr : Z) (data : list byte) (crc : Z) : Z :=
  let (data, crc) := head_loop (hw_byte f) addr data crc in
  let (data, crc) := if wide then u64_loop host f data crc else (data, crc) in
  let (data, crc) := u32_loop host f data crc in
  fold_left (hw_byte f) data crc.

Definition crc32c_hw_x86 (x86_64 : bool) (f : instructions) := hw x86_64 little f.
Definition crc32_hw_arm64 (host : endian) (f : instructions) := hw true host f.
Definition crc32c_hw_arm64 (host : endian) (f : instructions) := hw true host f.

(** ** Public functions *)

(** What the preprocessor and [has_hw_crc32()] select for each polynomial. *)
Inductive backend :=
| Software
| X86 (x86_64 : bool) (f : instructions)
| Arm64 (f : instructions).

Record platform := Platform {
  host : endian;
  crc32_backend : backend;   (* never X86: SSE4.2 has no IEEE instruction *)
  crc32c_backend : backend
}.

Definition crc32_run (p : platform) (addr : Z) (data : list byte) (crc : Z) : Z :=
  match crc32_backend p with
  | Arm64 f => crc32_hw_arm64 (host p) f addr data crc
  | _ => crc32_sw (host p) addr data crc
  end.

Definition crc32 (p : platform) (addr : Z) (data : list byte) (seed : Z) : Z :=
  if zlen data =? 0 then Z.lxor seed ALL_ONES else Z.lxor (crc32_run p addr data seed) ALL_ONES.

(** An [iovec] is a base address and the bytes it spans. *)
Definition crc32_iovec (p : platform) (iov : list (Z * list byte)) : Z :=
  Z.lxor (fold_left (fun crc '(addr, data) => if 0 <? zlen data then crc32_run p addr data crc else crc)
                    iov ALL_ONES) ALL_ONES.

Definition crc32_update (p : platform) (addr : Z) (data : list byte) (crc : Z) : Z :=
  if zlen data =? 0 then crc else crc32_run p addr data crc.

Definition crc32_finalize (crc : Z) : Z := Z.lxor crc ALL_ONES.

Definition crc32c (p : platform) (addr : Z) (data : list byte) (seed : Z) : Z :=
  if zlen data =? 0 then Z.lxor seed ALL_ONES
  else Z.lxor (match crc32c_backend p with
               | X86 x86_64 f => crc32c_hw_x86 x86_64 f addr data seed
               | Arm64 f => crc32c_hw_arm64 (host p) f addr data seed
               | Software => crc32c_sw (host p) addr data seed
               end) ALL_ONES.

(** ** Reference *)

(** One shift of the reflected register, one byte, a message. *)
Definition crc_bit (P c : Z) : Z := Z.lxor (Z.shiftr c 1) (if Z.odd c then P else 0).
Definition crc_shift (P : Z) (n : nat) (c : Z) : Z := Nat.iter n (crc_bit P) c.
#[global] Arguments crc_shift : simpl never.
Definition crc_byte (P c : Z) (b : byte) : Z := crc_shift P 8 (Z.lxor c (b2z b)).
Definition crc_ref (P c : Z) (data : list byte) : Z := fold_left (crc_byte P) data c.

(** The instructions compute the register after the bytes of their operand, least significant
    byte first. *)
Record crc_instructions (P : Z) (f : instructions) : Prop := {
  crc_u8_spec : forall c v, 0 <= c < 2 ^ 32 -> 0 <= v < 2 ^ 8 -> crc_u8 f c v = crc_ref P c (le_bytes 1 v);
  crc_u32_spec : forall c v, 0 <= c < 2 ^ 32 -> 0 <= v < 2 ^ 32 -> crc_u32 f c v = crc_ref P c (le_bytes 4 v);
  crc_u64_spec : forall c v, 0 <= c < 2 ^ 32 -> 0 <= v < 2 ^ 64 -> crc_u64 f c v = crc_ref P c (le_bytes 8 v)
}.

(** A platform on which the code is meant to run: its instructions are those of its manual,
    and 64-bit Arm runs little-endian. *)
Definition backend_ok (P : Z) (h : endian) (b : backend) : Prop :=
  match b with
  | Software => True
  | X86 _ f => h = little /\ crc_instructions P f
  | Arm64 f => h = little /\ crc_instructions P f
  end.

Definition platform_ok (p : platform) : Prop :=
  backend_ok IEEE (host p) (crc32_backend p) /\ backend_ok CASTAGNOLI (host p) (crc32c_backend p).

(** ** The shift register is linear *)

#[local] Strategy 1000 [crc_shift].

Section Register.
Context (P : Z) (HP : 0 <= P < 2 ^ 32).

Lemma crc_bit_lxor a b : crc_bit P (Z.lxor a b) = Z.lxor (crc_bit P a) (crc_bit P b).
Proof.
  unfold crc_bit. rewrite Z.shiftr_lxor.
  assert (Z.odd (Z.lxor a b) = xorb (Z.odd a) (Z.odd b)) as ->
    by (rewrite <-!Z.bit0_odd; apply Z.lxor_spec).
  apply Z.bits_inj'. intros i Hi.
  destruct (Z.odd a), (Z.odd b); simpl; rewrite ?Z.lxor_spec, ?Z.bits_0;
    repeat match goal with |- context [Z.testbit ?x ?j] => destruct (Z.testbit x j) end; done.
Qed.

Lemma crc_shift_lxor n a b : crc_shift P n (Z.lxor a b) = Z.lxor (crc_shift P n a) (crc_shift P n b).
Proof. induction n as [|n IH]; [done|]. unfold crc_shift in *. simpl. by rewrite IH, crc_bit_lxor. Qed.

Lemma crc_shift_add n m c : crc_shift P (n + m) c = crc_shift P n (crc_shift P m c).
Proof. apply Nat.iter_add. Qed.

Lemma crc_bit_range c : 0 <= c < 2 ^ 32 -> 0 <= crc_bit P c < 2 ^ 32.
Proof.
  intros. unfold crc_bit. apply lxor_range; [lia| |destruct (Z.odd c); lia].
  pose proof (shiftr_range 32 1 c). lia.
Qed.

Lemma crc_shift_range n c : 0 <= c < 2 ^ 32 -> 0 <= crc_shift P n c < 2 ^ 32.
Proof. intros. induction n; [done|]. unfold crc_shift in *. simpl. by apply crc_bit_range. Qed.

(** Shifting out zero bits just shifts. *)
Lemma crc_bit_double x : crc_bit P (2 * x) = x.
Proof.
  unfold crc_bit. rewrite Z.odd_mul. simpl. rewrite Z.lxor_0_r, Z.shiftr_div_pow2 by lia.
  rewrite Z.mul_comm. by apply Z.div_mul.
Qed.

Lemma crc_shift_up n x : crc_shift P n (2 ^ Z.of_nat n * x) = x.
Proof.
  revert x. induction n as [|n IH]; intros x; [unfold crc_shift; simpl; lia|].
  unfold crc_shift in *. simpl Nat.iter.
  replace (2 ^ Z.of_nat (S n) * x) with (2 ^ Z.of_nat n * (2 * x))
    by (rewrite Nat2Z.inj_succ, Z.pow_succ_r by lia; lia).
  rewrite IH. apply crc_bit_double.
Qed.

Lemma crc_shift_up' n k x : Z.of_nat n = k -> crc_shift P n (2 ^ k * x) = x.
Proof. intros <-. apply crc_shift_up. Qed.

(** The shift is injective on registers when the polynomial has degree 32. *)
Lemma crc_bit_nonzero c : Z.testbit P 31 = true -> 0 < c < 2 ^ 32 -> crc_bit P c <> 0.
Proof.
  intros HP31 Hc E. unfold crc_bit in E. destruct (Z.odd c) eqn:Ho.
  - assert (Z.testbit (Z.lxor (Z.shiftr c 1) P) 31 = false) as H by (rewrite E; apply Z.bits_0).
    rewrite Z.lxor_spec, HP31, Z.shiftr_spec in H by lia.
    rewrite (testbit_high 32) in H by lia. done.
  - rewrite Z.lxor_0_r, Z.shiftr_div_pow2 in E by lia.
    pose proof (Z.div_mod c 2 ltac:(lia)). rewrite Zmod_odd, Ho in *. change (2 ^ 1) with 2 in E. lia.
Qed.

Lemma crc_shift_nonzero n c : Z.testbit P 31 = true -> 0 < c < 2 ^ 32 -> crc_shift P n c <> 0.
Proof.
  intros HP31 Hc. induction n as [|n IH]; [unfold crc_shift; simpl; lia|].
  pose proof (crc_shift_range n c ltac:(lia)). unfold crc_shift in *. simpl.
  apply crc_bit_nonzero; [done|lia].
Qed.

(** The register after a message is a shift of the register xored with the message. *)
Lemma add_lxor n a b : 0 <= n -> 0 <= a < 2 ^ n -> a + 2 ^ n * b = Z.lxor a (2 ^ n * b).
Proof.
  intros Hn Ha. apply Z.add_nocarry_lxor, Z.bits_inj'. intros i Hi.
  rewrite Z.land_spec, Z.bits_0, Z.mul_comm, <-Z.shiftl_mul_pow2 by lia.
  destruct (Z.lt_ge_cases i n).
  - rewrite Z.shiftl_spec_low by lia. apply andb_false_r.
  - by rewrite (testbit_high n) by lia.
Qed.

Lemma le_val_cons b l : le_val (b :: l) = Z.lxor (b2z b) (2 ^ 8 * le_val l).
Proof. pose proof (b2z_range b). rewrite <-add_lxor; [done|lia|done]. Qed.

Lemma crc_byte_shift c b l : Z.lxor (crc_byte P c b) (le_val l) = crc_shift P 8 (Z.lxor c (le_val (b :: l))).
Proof.
  rewrite le_val_cons, <-Z.lxor_assoc, crc_shift_lxor. unfold crc_byte.
  rewrite (crc_shift_up' 8 8) by done. done.
Qed.

Lemma crc_ref_cons c b l : crc_ref P c (b :: l) = crc_ref P (crc_byte P c b) l.
Proof. done. Qed.

Lemma crc_ref_shift data c : crc_ref P c data = crc_shift P (8 * length data) (Z.lxor c (le_val data)).
Proof.
  revert c. induction data as [|b data IH]; intros c; [simpl; by rewrite Z.lxor_0_r|].
  rewrite crc_ref_cons, IH, crc_byte_shift, <-crc_shift_add. f_equal. simpl. lia.
Qed.

Lemma crc_ref_app c l k : crc_ref P c (l ++ k) = crc_ref P (crc_ref P c l) k.
Proof. apply fold_left_app. Qed.

Lemma crc_ref_range c data : 0 <= c < 2 ^ 32 -> 0 <= crc_ref P c data < 2 ^ 32.
Proof.
  intros Hc. rewrite <-(rev_involutive data). unfold crc_ref. rewrite <-fold_left_rev_right, rev_involutive.
  induction (rev data) as [|b l IH]; [done|]. cbn [fold_right]. unfold crc_byte.
  apply crc_shift_range, lxor_range; [lia|done|]. pose proof (b2z_range b). lia.
Qed.

(** ** The tables hold the shifts of the bytes *)

Lemma crc_shift_split n x : crc_shift P (n + 8) x =
  Z.lxor (crc_shift P (n + 8) (Z.land x 0xFF)) (crc_shift P n (Z.shiftr x 8)).
Proof.
  assert (x = Z.lxor (Z.land x 0xFF) (2 ^ 8 * Z.shiftr x 8)) as E.
  { change 0xFF with (Z.ones 8). rewrite Z.land_ones, Z.shiftr_div_pow2 by lia.
    rewrite <-add_lxor; [|lia|apply Z.mod_pos_bound; lia].
    pose proof (Z.div_mod x (2 ^ 8)). lia. }
  rewrite E at 1. rewrite crc_shift_lxor. f_equal. rewrite crc_shift_add. f_equal. by apply crc_shift_up'.
Qed.

Lemma crc_shift_split' n m x : n = (m + 8)%nat ->
  crc_shift P n x = Z.lxor (crc_shift P n (Z.land x 0xFF)) (crc_shift P m (Z.shiftr x 8)).
Proof. intros ->. apply crc_shift_split. Qed.

Lemma crc_shift_split8 x : crc_shift P 8 x = Z.lxor (crc_shift P 8 (Z.land x 0xFF)) (Z.shiftr x 8).
Proof. exact (crc_shift_split 0 x). Qed.

Definition good_table (m : nat) (t : list Z) : Prop :=
  length t = 256%nat /\ forall i, 0 <= i < 256 -> at_ t i = crc_shift P m i.

Lemma land_byte_range x : 0 <= Z.land x 0xFF < 256.
Proof. change 0xFF with (Z.ones 8). rewrite Z.land_ones by lia. apply Z.mod_pos_bound. lia. Qed.

Lemma at_map f t i : 0 <= i < Z.of_nat (length t) -> at_ (map f t) i = f (at_ t i).
Proof.
  intros Hi. unfold at_. rewrite (nth_indep _ 0 (f 0)) by (rewrite length_map; lia). apply map_nth.
Qed.

Lemma table_bit_iter n x : Nat.iter n (table_bit P) x = crc_shift P n x.
Proof. done. Qed.

Lemma good_table0 : good_table 8 (table0 P).
Proof.
  split; [unfold table0; by rewrite length_map|]. intros i Hi. unfold table0.
  rewrite at_map by (rewrite length_seqZ; lia).
  assert (at_ (seqZ 0 256) i = i) as ->; [|apply table_bit_iter].
  unfold at_. rewrite nth_lookup, lookup_seqZ_lt by lia. simpl. lia.
Qed.

Lemma good_next_table m t : good_table m t -> good_table (8 + m) (next_table (table0 P) t).
Proof.
  intros [Hl Ht]. split; [unfold next_table; by rewrite length_map|].
  intros i Hi. unfold next_table. rewrite at_map, Ht by lia.
  rewrite (proj2 good_table0) by apply land_byte_range.
  rewrite crc_shift_add, (crc_shift_split8 (crc_shift P m i)). apply Z.lxor_comm.
Qed.

Lemma good_tables : let t := make_tables P in
  good_table 8 (t0 t) /\ good_table 16 (t1 t) /\ good_table 24 (t2 t) /\ good_table 32 (t3 t) /\
  good_table 40 (t4 t) /\ good_table 48 (t5 t) /\ good_table 56 (t6 t) /\ good_table 64 (t7 t).
Proof. cbv zeta. unfold make_tables. cbn. split_and!; repeat apply (good_next_table); apply good_table0. Qed.

Lemma sw_byte_ok c b : sw_byte (make_tables P) c b = crc_byte P c b.
Proof.
  unfold sw_byte, crc_byte. rewrite (proj2 (proj1 good_tables)) by apply land_byte_range.
  rewrite (crc_shift_split8 (Z.lxor c (b2z b))). f_equal.
  rewrite Z.shiftr_lxor. rewrite (Z.shiftr_div_pow2 (b2z b)), (Z.div_small (b2z b)) by (apply b2z_range || lia).
  by rewrite Z.lxor_0_r.
Qed.

Lemma slice8_ok c lo hi : 0 <= c < 2 ^ 32 -> 0 <= lo < 2 ^ 32 -> 0 <= hi < 2 ^ 32 ->
  slice8 (make_tables P) c lo hi = crc_shift P 64 (Z.lxor c (Z.lxor lo (2 ^ 32 * hi))).
Proof.
  intros Hc Hlo Hhi. unfold slice8. cbv zeta.
  pose proof (lxor_range 32 c lo ltac:(lia) Hc Hlo) as Hx.
  rewrite Z.lxor_assoc at 1 || rewrite <-(Z.lxor_assoc c lo).
  set (x := Z.lxor c lo) in *.
  destruct good_tables as ([_ E0] & [_ E1] & [_ E2] & [_ E3] & [_ E4] & [_ E5] & [_ E6] & [_ E7]).
  pose proof (shiftr_range 32 24 x ltac:(lia) Hx). pose proof (shiftr_range 32 24 hi ltac:(lia) Hhi).
  rewrite E7, E6, E5, E3, E2, E1 by apply land_byte_range. rewrite E4, E0 by lia.
  rewrite crc_shift_lxor.
  replace (crc_shift P 64 (2 ^ 32 * hi)) with (crc_shift P 32 hi)
    by (change 64%nat with (32 + 32)%nat; rewrite crc_shift_add; f_equal; symmetry; by apply crc_shift_up').
  rewrite (crc_shift_split' 64 56 x), (crc_shift_split' 56 48 (Z.shiftr x 8)),
    (crc_shift_split' 48 40 (Z.shiftr _ 8)) by done.
  rewrite (crc_shift_split' 32 24 hi), (crc_shift_split' 24 16 (Z.shiftr hi 8)),
    (crc_shift_split' 16 8 (Z.shiftr _ 8)) by done.
  rewrite !Z.shiftr_shiftr by lia. by rewrite !Z.lxor_assoc.
Qed.

(** ** The loops compute the reference *)

Lemma fold_byte_ok f data c : (forall c b, 0 <= c < 2 ^ 32 -> f c b = crc_byte P c b) ->
  0 <= c < 2 ^ 32 -> fold_left f data c = crc_ref P c data.
Proof.
  intros Hf. revert c. induction data as [|b data IH]; intros c Hc; [done|].
  rewrite crc_ref_cons. cbn [fold_left]. rewrite Hf by done.
  apply IH. apply (crc_ref_range c [b]); done.
Qed.

Lemma head_loop_ok f addr data c rest c' : (forall c b, 0 <= c < 2 ^ 32 -> f c b = crc_byte P c b) ->
  0 <= c < 2 ^ 32 -> head_loop f addr data c = (rest, c') ->
  0 <= c' < 2 ^ 32 /\ crc_ref P c data = crc_ref P c' rest.
Proof.
  intros Hf. revert addr c. induction data as [|b data IH]; intros addr c Hc E; cbn in E.
  - by simplify_eq.
  - case_if; [by simplify_eq|]. rewrite Hf in E by done. rewrite crc_ref_cons.
    apply IH in E; [done|]. apply (crc_ref_range c [b]); done.
Qed.

Lemma slice8_bytes c b0 b1 b2 b3 b4 b5 b6 b7 : 0 <= c < 2 ^ 32 ->
  slice8 (make_tables P) c (le_val [b0; b1; b2; b3]) (le_val [b4; b5; b6; b7]) =
  crc_ref P c [b0; b1; b2; b3; b4; b5; b6; b7].
Proof.
  intros Hc. pose proof (le_val_range [b0; b1; b2; b3]) as H1.
  pose proof (le_val_range [b4; b5; b6; b7]) as H2.
  rewrite slice8_ok, crc_ref_shift by done. f_equal. f_equal.
  rewrite <-add_lxor by done. exact (eq_sym (le_val_app [b0; b1; b2; b3] [b4; b5; b6; b7])).
Qed.

Lemma slice_loop_cons h t b0 b1 b2 b3 b4 b5 b6 b7 data c :
  slice_loop h t (b0 :: b1 :: b2 :: b3 :: b4 :: b5 :: b6 :: b7 :: data) c =
  slice_loop h t data (slice8 t c (object_value h [b0; b1; b2; b3]) (object_value h [b4; b5; b6; b7])).
Proof. done. Qed.

Lemma cons8 {A} (b0 b1 b2 b3 b4 b5 b6 b7 : A) data :
  b0 :: b1 :: b2 :: b3 :: b4 :: b5 :: b6 :: b7 :: data = [b0; b1; b2; b3; b4; b5; b6; b7] ++ data.
Proof. done. Qed.

Lemma slice_loop_ok data c rest c' : 0 <= c < 2 ^ 32 ->
  slice_loop little (make_tables P) data c = (rest, c') ->
  0 <= c' < 2 ^ 32 /\ crc_ref P c data = crc_ref P c' rest.
Proof.
  revert c. induction data as [data IH] using (induction_ltof1 _ length). intros c Hc E.
  destruct data as [|b0 [|b1 [|b2 [|b3 [|b4 [|b5 [|b6 [|b7 data]]]]]]]]; try by simplify_eq/=.
  rewrite slice_loop_cons in E. unfold object_value in E. rewrite slice8_bytes in E by done.
  rewrite cons8, crc_ref_app.
  apply IH in E; [done| |apply crc_ref_range; done]. unfold ltof. simpl. lia.
Qed.

Lemma sw_ok h addr data c : 0 <= c < 2 ^ 32 -> sw h (make_tables P) addr data c = crc_ref P c data.
Proof.
  intros Hc. unfold sw. destruct h.
  - destruct (head_loop _ _ _ _) as [d1 c1] eqn:E1.
    apply head_loop_ok in E1 as [Hc1 ->]; [|by intros; apply sw_byte_ok|done].
    destruct (slice_loop _ _ _ _) as [d2 c2] eqn:E2. apply slice_loop_ok in E2 as [Hc2 ->]; [|done].
    apply fold_byte_ok; [by intros; apply sw_byte_ok|done].
  - apply fold_byte_ok; [by intros; apply sw_byte_ok|done].
Qed.

(** The instructions, used on a little-endian host. *)
Section Hardware.
Context (f : instructions) (Hf : crc_instructions P f).

Lemma hw_byte_ok c b : 0 <= c < 2 ^ 32 -> hw_byte f c b = crc_byte P c b.
Proof.
  intros. unfold hw_byte. rewrite (crc_u8_spec _ _ Hf) by (done || apply b2z_range).
  cbn [le_bytes]. by rewrite z2b_b2z.
Qed.

Lemma u32_loop_ok data c rest c' : 0 <= c < 2 ^ 32 ->
  u32_loop little f data c = (rest, c') -> 0 <= c' < 2 ^ 32 /\ crc_ref P c data = crc_ref P c' rest.
Proof.
  revert c. induction data as [data IH] using (induction_ltof1 _ length). intros c Hc E.
  destruct data as [|b0 [|b1 [|b2 [|b3 data]]]]; try by simplify_eq/=.
  cbn [u32_loop object_value] in E.
  rewrite (crc_u32_spec _ _ Hf), (le_bytes_le_val' 4) in E
    by (done || apply (le_val_range [b0; b1; b2; b3])).
  change (b0 :: b1 :: b2 :: b3 :: data) with ([b0; b1; b2; b3] ++ data). rewrite crc_ref_app.
  apply IH in E; [done| |apply crc_ref_range; done]. unfold ltof. simpl. lia.
Qed.

Lemma u64_loop_ok data c rest c' : 0 <= c < 2 ^ 32 ->
  u64_loop little f data c = (rest, c') -> 0 <= c' < 2 ^ 32 /\ crc_ref P c data = crc_ref P c' rest.
Proof.
  revert c. induction data as [data IH] using (induction_ltof1 _ length). intros c Hc E.
  destruct data as [|b0 [|b1 [|b2 [|b3 [|b4 [|b5 [|b6 [|b7 data]]]]]]]]; try by simplify_eq/=.
  cbn [u64_loop object_value] in E. set (l := [b0; b1; b2; b3; b4; b5; b6; b7]) in *.
  pose proof (crc_ref_range c l Hc) as Hr.
  rewrite (crc_u64_spec _ _ Hf), (le_bytes_le_val' 8), u32_small in E
    by (done || apply (le_val_range l)).
  change (b0 :: b1 :: b2 :: b3 :: b4 :: b5 :: b6 :: b7 :: data) with (l ++ data). rewrite crc_ref_app.
  apply IH in E; [done| |done]. unfold ltof. simpl. lia.
Qed.

Lemma hw_ok wide addr data c : 0 <= c < 2 ^ 32 -> hw wide little f addr data c = crc_ref P c data.
Proof.
  intros Hc. unfold hw. destruct (head_loop _ _ _ _) as [d1 c1] eqn:E1.
  apply head_loop_ok in E1 as [Hc1 ->]; [|apply hw_byte_ok|done].
  destruct (if wide then _ else _) as [d2 c2] eqn:E2.
  assert (0 <= c2 < 2 ^ 32 /\ crc_ref P c1 d1 = crc_ref P c2 d2) as [Hc2 ->]
    by (destruct wide; [by apply u64_loop_ok|by simplify_eq]).
  destruct (u32_loop _ _ _ _) as [d3 c3] eqn:E3. apply u32_loop_ok in E3 as [Hc3 ->]; [|done].
  apply fold_byte_ok; [apply hw_byte_ok|done].
Qed.

End Hardware.
End Register.

Lemma crc32_run_ok p addr data c : platform_ok p -> 0 <= c < 2 ^ 32 ->
  crc32_run p addr data c = crc_ref IEEE c data.
Proof.
  intros [Hp _] Hc. unfold crc32_run. destruct (crc32_backend p) as [| |f]; try by apply sw_ok.
  destruct Hp as [-> Hf]. by apply hw_ok.
Qed.

Lemma crc32_ok p addr data seed : platform_ok p -> 0 <= seed < 2 ^ 32 ->
  crc32 p addr data seed = Z.lxor (crc_ref IEEE seed data) ALL_ONES.
Proof.
  intros Hp Hs. unfold crc32. case_if; [|by rewrite crc32_run_ok].
  destruct data; [done|]. zbool. unfold zlen in *. simpl in *. lia.
Qed.

Lemma crc32_update_ok p addr data c : platform_ok p -> 0 <= c < 2 ^ 32 ->
  crc32_update p addr data c = crc_ref IEEE c data.
Proof.
  intros Hp Hc. unfold crc32_update. case_if; [|by rewrite crc32_run_ok].
  destruct data; [done|]. zbool. unfold zlen in *. simpl in *. lia.
Qed.

Lemma crc32c_ok p addr data seed : platform_ok p -> 0 <= seed < 2 ^ 32 ->
  crc32c p addr data seed = Z.lxor (crc_ref CASTAGNOLI seed data) ALL_ONES.
Proof.
  intros [_ Hp] Hs. unfold crc32c. case_if.
  { destruct data; [done|]. zbool. unfold zlen in *. simpl in *. lia. }
  f_equal. destruct (crc32c_backend p) as [|b f|f]; [by apply sw_ok| |];
    destruct Hp as [Hh Hf]; [by apply hw_ok|]. unfold crc32c_hw_arm64. rewrite Hh. by apply hw_ok.
Qed.

Lemma crc32_updates_ok p (chunks : list (Z * list byte)) c : platform_ok p -> 0 <= c < 2 ^ 32 ->
  fold_left (fun crc '(addr, data) => crc32_update p addr data crc) chunks c =
  crc_ref IEEE c (concat (map snd chunks)).
Proof.
  intros Hp. revert c. induction chunks as [|[addr data] chunks IH]; intros c Hc; [done|].
  cbn [fold_left map concat snd]. rewrite crc32_update_ok, crc_ref_app by done.
  apply IH. by apply crc_ref_range.
Qed.

Lemma crc32_iovec_updates p iov : 
  crc32_iovec p iov =
  crc32_finalize (fold_left (fun crc '(addr, data) => crc32_update p addr data crc) iov ALL_ONES).
Proof.
  unfold crc32_iovec, crc32_finalize. f_equal. generalize ALL_ONES.
  induction iov as [|[addr data] iov IH]; intros c; [done|]. cbn [fold_left]. rewrite IH. f_equal.
  unfold crc32_update. destruct data; [done|].
  assert (0 < zlen (b :: data)) by (rewrite zlen_cons; pose proof (zlen_nonneg data); lia).
  destruct (0 <? _) eqn:E1, (_ =? 0) eqn:E2; zbool; done || lia.
Qed.

Lemma lxor_cancel_r a b c : Z.lxor a c = Z.lxor b c -> a = b.
Proof.
  intros H. apply (f_equal (fun x => Z.lxor x c)) in H.
  by rewrite !Z.lxor_assoc, Z.lxor_nilpotent, !Z.lxor_0_r in H.
Qed.

(** Xor of two messages that differ by a burst [e] that starts at bit [k]. *)
Lemma crc_ref_burst P c m m' e k : 0 <= P < 2 ^ 32 -> Z.testbit P 31 = true ->
  length m = length m' -> Z.lxor (le_val m) (le_val m') = Z.shiftl e (Z.of_nat k) ->
  0 < e < 2 ^ 32 -> (k <= 8 * length m)%nat -> crc_ref P c m <> crc_ref P c m'.
Proof.
  intros HP HP31 Hl He Hr Hk E. rewrite !crc_ref_shift, <-Hl in E.
  assert (crc_shift P (8 * length m) (Z.shiftl e (Z.of_nat k)) = 0) as H0.
  { rewrite <-He, crc_shift_lxor. rewrite !(crc_shift_lxor P _ c) in E.
    rewrite !(Z.lxor_comm (crc_shift P _ c)) in E. apply lxor_cancel_r in E.
    rewrite E. apply Z.lxor_nilpotent. }
  rewrite Z.shiftl_mul_pow2, Z.mul_comm in H0 by lia.
  replace (8 * length m)%nat with ((8 * length m - k) + k)%nat in H0 by lia.
  rewrite crc_shift_add, crc_shift_up in H0. revert H0. by apply crc_shift_nonzero.
Qed.

(** ** Properties *)

(** [C6] On every supported platform, whatever the address of the buffer and whichever of the
    software and hardware routines is selected, [crc32] and [crc32c] return the bit-serial
    CRC of the data for the IEEE and the Castagnoli polynomial, finalised by complement: the
    aligned, slicing-by-8 and instruction-based loops are all equivalent to the reference. *)
Theorem crc32_matches_reference p addr data seed :
  platform_ok p -> 0 <= seed < 2 ^ 32 ->
  crc32 p addr data seed = Z.lxor (crc_ref IEEE seed data) ALL_ONES /\
  crc32c p addr data seed = Z.lxor (crc_ref CASTAGNOLI seed data) ALL_ONES.
Proof. intros. split; [by apply crc32_ok|by apply crc32c_ok]. Qed.

(** Streaming: accumulating the pieces of a message with [crc32_update] and finalising,
    or passing them as an [iovec] array to [crc32_iovec], gives the checksum of the whole
    message, however it is cut (empty pieces included) and wherever the pieces lie. *)
Theorem crc32_streaming p addr pieces :
  platform_ok p ->
  let whole := crc32 p addr (concat (map snd pieces)) ALL_ONES in
  crc32_finalize (fold_left (fun crc '(addr, data) => crc32_update p addr data crc) pieces ALL_ONES) = whole /\
  crc32_iovec p pieces = whole.
Proof.
  intros Hp. cbv zeta. rewrite crc32_iovec_updates, crc32_ok, crc32_updates_ok by done. done.
Qed.

(** Error detection: two messages of the same length that differ in a burst of at most 32
    consecutive bits (bit [i] of byte [j] being bit [8j+i] of the message) have different
    checksums, for both polynomials. *)
Theorem crc32_detects_bursts p addr addr' m m' e k :
  platform_ok p -> length m = length m' ->
  Z.lxor (le_val m) (le_val m') = Z.shiftl e (Z.of_nat k) -> 0 < e < 2 ^ 32 -> (k <= 8 * length m)%nat ->
  crc32 p addr m ALL_ONES <> crc32 p addr' m' ALL_ONES /\
  crc32c p addr m ALL_ONES <> crc32c p addr' m' ALL_ONES.
Proof.
  intros Hp Hl He Hr Hk. split; intros E.
  - rewrite !crc32_ok in E by done. apply lxor_cancel_r in E. revert E. by apply (crc_ref_burst IEEE _ _ _ e k).
  - rewrite !crc32c_ok in E by done. apply lxor_cancel_r in E. revert E.
    by apply (crc_ref_burst CASTAGNOLI _ _ _ e k).
Qed.

(** The AArch64 routine is not gated on the byte order as [crc32_sw] is: on a big-endian
    host, with instructions that behave as documented, it disagrees with [crc32_sw]. *)
Theorem crc32_hw_arm64_big_endian :
  exists f data, crc_instructions IEEE f /\
    crc32_hw_arm64 big f 0 data ALL_ONES <> crc32_sw big 0 data ALL_ONES.
Proof.
  exists (Instructions (fun c v => crc_ref IEEE c (le_bytes 1 v)) (fun c v => crc_ref IEEE c (le_bytes 4 v))
                       (fun c v => crc_ref IEEE c (le_bytes 8 v))), (le_bytes 8 1).
  split; [by split|]. by vm_compute.
Qed.

(** ** Witnesses *)

(** Instructions as documented, and platforms that use them. *)
Definition manual (P : Z) : instructions :=
  Instructions (fun c v => crc_ref P c (le_bytes 1 v)) (fun c v => crc_ref P c (le_bytes 4 v))
               (fun c v => crc_ref P c (le_bytes 8 v)).

Definition arm_x86 : platform := Platform little (Arm64 (manual IEEE)) (X86 true (manual CASTAGNOLI)).

(** The check values of the two polynomials: the checksum of the digits 1 to 9. *)
Definition digits : list byte := map z2b [49; 50; 51; 52; 53; 54; 55; 56; 57].

Lemma arm_x86_ok : platform_ok arm_x86.
Proof. split; split; done. Qed.

Lemma crc32_matches_reference_witness :
  crc32 arm_x86 3 digits ALL_ONES = 0xCBF43926 /\ crc32c arm_x86 3 digits ALL_ONES = 0xE3069283.
Proof.
  destruct (crc32_matches_reference arm_x86 3 digits ALL_ONES arm_x86_ok) as [E1 E2]; [by vm_compute|].
  split; [rewrite E1|rewrite E2]; by vm_compute.
Defined.

Lemma crc32_streaming_witness :
  crc32_iovec arm_x86 [(1, take 4 digits); (2, []); (6, drop 4 digits)] = 0xCBF43926.
Proof.
  rewrite (proj2 (crc32_streaming arm_x86 0 [(1, take 4 digits); (2, []); (6, drop 4 digits)] arm_x86_ok)).
  by vm_compute.
Defined.

Lemma crc32_detects_bursts_witness :
  crc32 arm_x86 0 digits ALL_ONES <> crc32 arm_x86 0 (z2b 50 :: drop 1 digits) ALL_ONES.
Proof.
  apply (crc32_detects_bursts arm_x86 0 0 digits (z2b 50 :: drop 1 digits) 3 0 arm_x86_ok).
  - reflexivity.
  - vm_compute. reflexivity.
  - lia.
  - simpl. lia.
Defined.

End Crc.
