(* ===== verification/Sha.v ===== *)
(** * What SHA-1 and SHA-256 share

    The 32-bit word operations and the incremental contexts of
    [src/include/elio/hash/sha1.hpp] and [src/include/elio/hash/sha256.hpp].  The two context classes have the same
    [update] and [finalize] up to the state and the block function, which are the parameters of
    [Section Context] here; [Sha1] and [Sha256] instantiate them.  [Sha.context_correct] shows
    that hashing in pieces gives the state of the padded message processed block by block. *)

From S2P Require Import Prelude.

Module Sha.

(** ** Words *)

Definition word (z : Z) : Prop := 0 <= z < 2 ^ 32.

Definition add32 (a b : Z) : Z := u32 (a + b).
Definition not32 (a : Z) : Z := u32 (Z.lnot a).
Definition shl32 (a n : Z) : Z := u32 (Z.shiftl a n).

Definition rotr (x n : Z) : Z := Z.lor (Z.shiftr x n) (shl32 x (32 - n)).
Definition rotl (x n : Z) : Z := Z.lor (shl32 x n) (Z.shiftr x (32 - n)).

Definition load_be32 (p : list byte) : Z :=
  match p with
  | p0 :: p1 :: p2 :: p3 :: _ =>
      Z.lor (Z.lor (Z.lor (shl32 (b2z p0) 24) (shl32 (b2z p1) 16)) (shl32 (b2z p2) 8)) (b2z p3)
  | _ => 0
  end.

(** The bytes of a word, most significant first. *)
Definition store_be32 (w : Z) : list byte :=
  [z2b (Z.shiftr w 24); z2b (Z.shiftr w 16); z2b (Z.shiftr w 8); z2b w].

Declare Scope word_scope.
Infix "⊞" := add32 (at level 50, left associativity) : word_scope.
(** The hexadecimal form of a digest. *)
Definition hex_digit (n : Z) : byte := z2b (if n <? 10 then 48 + n else 87 + n).

Definition to_hex (digest : list byte) : list byte :=
  flat_map (fun b => [hex_digit (Z.land (Z.shiftr (b2z b) 4) 0x0F); hex_digit (Z.land (b2z b) 0x0F)]) digest.

(** ** The incremental context *)

Definition block_size : nat := 64.

(** [std::memcpy(buf + off, l, size of l)]. *)
Definition splice (buf : list byte) (off : nat) (l : list byte) : list byte :=
  take off buf ++ l ++ drop (off + length l) buf.

Section Context.
Context {St : Type} (process_block : list byte -> St -> St) (H0 : St) (words : St -> list Z).

Record context := Ctx { state_ : St; count_ : Z; buffer_ : list byte; buffer_len_ : nat }.

Definition reset (c : context) : context := Ctx H0 0 (buffer_ c) 0.

(** The loop over the full blocks of the input: the state and what is left. *)
Fixpoint full_blocks (fuel : nat) (input : list byte) (st : St) : St * list byte :=
  match fuel with
  | O => (st, input)
  | S fuel => if (block_size <=? length input)%nat
              then full_blocks fuel (drop block_size input) (process_block (take block_size input) st)
              else (st, input)
  end.

(** Filling the buffer, as both functions begin: the context and what is left of the input. *)
Definition fill_buffer (input : list byte) (c : context) : context * list byte :=
  if (0 <? buffer_len_ c)%nat then
    let to_copy := Nat.min (block_size - buffer_len_ c) (length input) in
    let buffer := splice (buffer_ c) (buffer_len_ c) (take to_copy input) in
    let len := (buffer_len_ c + to_copy)%nat in
    let input := drop to_copy input in
    if (len =? block_size)%nat
    then (Ctx (process_block buffer (state_ c)) (count_ c) buffer 0, input)
    else (Ctx (state_ c) (count_ c) buffer len, input)
  else (c, input).

Definition update (input : list byte) (c : context) : context :=
  let c := Ctx (state_ c) (u64 (count_ c + zlen input)) (buffer_ c) (buffer_len_ c) in
  let '(c, input) := fill_buffer input c in
  let '(st, rest) := full_blocks (length input) input (state_ c) in
  match rest with
  | [] => Ctx st (count_ c) (buffer_ c) (buffer_len_ c)
  | _ => Ctx st (count_ c) (splice (buffer_ c) 0 rest) (length rest)
  end.

(** The [pad_len + 8] bytes of [padding]. *)
Definition padding (total_bits : Z) (buffer_len : nat) : list byte :=
  let pad_len := (if buffer_len <? 56 then 56 - buffer_len else 120 - buffer_len)%nat in
  z2b 0x80 :: repeat (z2b 0) (pad_len - 1) ++ map (fun i => z2b (Z.shiftr total_bits (56 - i * 8))) (seqZ 0 8).

Definition finalize (c : context) : list byte * context :=
  let total_bits := u64 (count_ c * 8) in
  let '(c, input) := fill_buffer (padding total_bits (buffer_len_ c)) c in
  let '(st, rest) := full_blocks (length input) input (state_ c) in
  (flat_map store_be32 (words st), Ctx st (count_ c) (buffer_ c) (buffer_len_ c)).

(** ** Reference *)

(** FIPS 180-4, 5.1.1: a one bit, the fewest zero bits that fill a block, the length in bits. *)
Definition pad (msg : list byte) : list byte :=
  msg ++ z2b 0x80 :: repeat (z2b 0) (Z.to_nat ((55 - zlen msg) mod 64)) ++
  map (fun i => z2b (Z.shiftr (8 * zlen msg) (56 - i * 8))) (seqZ 0 8).

(** The state after the full blocks of a byte string, and the bytes after them. *)
Definition absorb (st : St) (m : list byte) : St * list byte := full_blocks (length m) m st.

Definition reference (msg : list byte) : list byte := flat_map store_be32 (words (absorb H0 (pad msg)).1).

(** ** Proofs *)

Lemma full_blocks_S fuel input st : full_blocks (S fuel) input st =
  if (block_size <=? length input)%nat
  then full_blocks fuel (drop block_size input) (process_block (take block_size input) st) else (st, input).
Proof. done. Qed.

Lemma full_blocks_fuel fuel input st : (length input <= fuel)%nat -> full_blocks fuel input st = absorb st input.
Proof.
  unfold absorb. revert input st. induction (Nat.lt_wf_0 fuel) as [fuel _ IH]. intros input st Hf.
  destruct fuel as [|fuel]; [by destruct input; simpl in *; [|lia]|].
  destruct input as [|b input]; [done|]. cbn [full_blocks length].
  destruct (block_size <=? S (length input))%nat eqn:E; [|done].
  apply Nat.leb_le in E. unfold block_size in *. simpl in Hf.
  assert (length (drop 64 (b :: input)) <= length input)%nat by (rewrite length_drop; simpl; lia).
  rewrite (IH fuel) by (simpl in *; lia). destruct (decide (length input = fuel)) as [->|]; [by rewrite (IH fuel) by lia|].
  by rewrite (IH (length input)) by lia.
Qed.

Lemma absorb_small st m : (length m < block_size)%nat -> absorb st m = (st, m).
Proof.
  intros Hm. unfold absorb. destruct m as [|b m]; [done|]. cbn [full_blocks length].
  by rewrite (proj2 (Nat.leb_gt _ _)) by exact Hm.
Qed.

Lemma absorb_block st b m : length b = block_size -> absorb st (b ++ m) = absorb (process_block b st) m.
Proof.
  intros Hb. rewrite <-(full_blocks_fuel (S (length b + length m))) by (rewrite length_app; lia).
  rewrite full_blocks_S, length_app, Hb, (proj2 (Nat.leb_le _ _)) by lia.
  rewrite take_app_length', drop_app_length' by done. apply full_blocks_fuel. lia.
Qed.

Lemma split_block (m : list byte) : (block_size <= length m)%nat -> exists b m', m = b ++ m' /\ length b = block_size.
Proof.
  intros. exists (take block_size m), (drop block_size m). split; [by rewrite take_drop|]. rewrite length_take. lia.
Qed.

(** Strong induction on the length, block by block. *)
Lemma blocks_ind (P : list byte -> Prop) :
  (forall m, (length m < block_size)%nat -> P m) ->
  (forall b m, length b = block_size -> P m -> P (b ++ m)) -> forall m, P m.
Proof.
  intros Hs Hb m. remember (length m) as n eqn:E. revert m E. induction (Nat.lt_wf_0 n) as [n _ IH]. intros m ->.
  destruct (decide (length m < block_size)%nat); [by apply Hs|].
  destruct (split_block m ltac:(lia)) as (b & m' & -> & Hl). apply Hb; [done|].
  eapply IH; [|done]. rewrite length_app, Hl. unfold block_size. lia.
Qed.

Lemma absorb_app st x y : absorb st (x ++ y) = absorb (absorb st x).1 ((absorb st x).2 ++ y).
Proof.
  revert st. induction x as [x Hx|b x Hb IH] using blocks_ind; intros st.
  - by rewrite (absorb_small st x) by done.
  - rewrite <-app_assoc, (absorb_block st b (x ++ y)), (absorb_block st b x) by done. apply IH.
Qed.

Lemma absorb_rest st m : length (absorb st m).2 = (length m mod block_size)%nat.
Proof.
  revert st. induction m as [m Hm|b m Hb IH] using blocks_ind; intros st.
  - rewrite absorb_small by done. by rewrite Nat.mod_small.
  - rewrite absorb_block, IH, length_app, Hb by done. unfold block_size.
    rewrite <-(Nat.Div0.mod_add (length m) 1). f_equal. lia.
Qed.

Definition ctx_ok (c : context) : Prop := length (buffer_ c) = block_size /\ (buffer_len_ c < block_size)%nat.
Definition pending (c : context) : list byte := take (buffer_len_ c) (buffer_ c).

Lemma length_splice (buf : list byte) off l : (off + length l <= length buf)%nat -> length (splice buf off l) = length buf.
Proof. intros. unfold splice. rewrite !length_app, length_take, length_drop. lia. Qed.

Lemma take_splice buf off l : (off + length l <= length buf)%nat -> take (off + length l) (splice buf off l) = take off buf ++ l.
Proof.
  intros. unfold splice. rewrite app_assoc. apply take_app_length'. rewrite length_app, length_take. lia.
Qed.

Lemma fill_buffer_ok input c c' rest : ctx_ok c -> fill_buffer input c = (c', rest) ->
  ctx_ok c' /\ count_ c' = count_ c /\ (buffer_len_ c' = 0%nat \/ rest = []) /\
  absorb (state_ c) (pending c ++ input) = absorb (state_ c') (pending c' ++ rest).
Proof.
  intros [Hb Hl] E. unfold fill_buffer in E. destruct (0 <? buffer_len_ c)%nat eqn:E0;
    [|injection E as <- <-; apply Nat.ltb_ge in E0; split_and!; try done; left; lia].
  set (n := Nat.min (block_size - buffer_len_ c) (length input)) in *.
  assert (length (take n input) = n) as Hn by (rewrite length_take; lia).
  assert (length (splice (buffer_ c) (buffer_len_ c) (take n input)) = block_size) as Hs
    by (rewrite length_splice; [done|rewrite Hn; unfold block_size in *; lia]).
  pose proof (take_splice (buffer_ c) (buffer_len_ c) (take n input)) as Ht. rewrite Hn in Ht.
  specialize (Ht ltac:(unfold block_size in *; lia)).
  assert (pending c ++ input = (pending c ++ take n input) ++ drop n input) as Ei by (by rewrite <-app_assoc, take_drop).
  destruct (buffer_len_ c + n =? block_size)%nat eqn:E1; injection E as <- <-.
  - apply Nat.eqb_eq in E1. rewrite E1, take_ge in Ht by lia.
    split; [split; simpl; [done|unfold block_size; lia]|]. split; [done|]. split; [by left|].
    unfold pending at 2. simpl. rewrite Ei. unfold pending. rewrite <-Ht. by apply absorb_block.
  - apply Nat.eqb_neq in E1. split; [split; simpl; [done|lia]|]. split; [done|]. split; [right; apply drop_ge; lia|].
    unfold pending in *. cbn [state_ buffer_ buffer_len_]. by rewrite Ht, Ei.
Qed.

Lemma update_ok input c : ctx_ok c -> let c' := update input c in
  ctx_ok c' /\ absorb (state_ c) (pending c ++ input) = (state_ c', pending c') /\ count_ c' = u64 (count_ c + zlen input).
Proof.
  intros Hc c'. subst c'. unfold update. cbv zeta.
  set (c1 := Ctx (state_ c) (u64 (count_ c + zlen input)) (buffer_ c) (buffer_len_ c)).
  destruct (fill_buffer input c1) as [c2 rest] eqn:E.
  destruct (fill_buffer_ok input c1 c2 rest Hc E) as ([Hb Hl] & Hct & H0' & Ha).
  change (absorb (state_ c1) (pending c1 ++ input)) with (absorb (state_ c) (pending c ++ input)) in Ha.
  rewrite Ha. change (full_blocks (length rest) rest (state_ c2)) with (absorb (state_ c2) rest).
  pose proof (absorb_rest (state_ c2) rest) as Hr. destruct (absorb (state_ c2) rest) as [st r] eqn:Ea. cbn [snd] in Hr.
  pose proof (Nat.mod_upper_bound (length rest) block_size ltac:(done)).
  destruct H0' as [H0'| ->].
  - unfold pending. rewrite H0', take_0, app_nil_l, Ea.
    destruct r as [|x r]; cbn [buffer_ buffer_len_ state_ count_]; [rewrite ?H0', ?take_0; split; [split; simpl; [done|unfold block_size; lia]|done]|].
    split; [|split; [|done]].
    + split; cbn [buffer_ buffer_len_]; [|lia]. rewrite <-Hb. apply length_splice. rewrite Hb. simpl in *. lia.
    + f_equal. symmetry. apply (take_splice (buffer_ c2) 0 (x :: r)). rewrite Hb. simpl in *. lia.
  - injection Ea as <- <-. rewrite app_nil_r, absorb_small by (unfold pending; rewrite length_take; lia). done.
Qed.

Lemma update_all pieces c msg : ctx_ok c -> absorb H0 msg = (state_ c, pending c) -> count_ c = u64 (zlen msg) ->
  let c' := foldl (fun c p => update p c) c pieces in
  ctx_ok c' /\ absorb H0 (msg ++ concat pieces) = (state_ c', pending c') /\ count_ c' = u64 (zlen (msg ++ concat pieces)).
Proof.
  revert c msg. induction pieces as [|p pieces IH]; intros c msg Hc Ha Hn; simpl; [by rewrite app_nil_r|].
  destruct (update_ok p c Hc) as (Hc' & Ha' & Hn'). rewrite app_assoc. apply IH; [done| |].
  - rewrite absorb_app, Ha. exact Ha'.
  - rewrite Hn', Hn, zlen_app. unfold u64, uwrap. by rewrite Zplus_mod_idemp_l.
Qed.

(** The padding computed from the buffer fill is the padding of the message. *)
Lemma padding_pad msg bl : (bl = length msg mod block_size)%nat -> zlen msg < 2 ^ 61 ->
  pad msg = msg ++ padding (u64 (u64 (zlen msg) * 8)) bl.
Proof.
  intros -> Hl. pose proof (zlen_nonneg msg). unfold pad, padding. do 2 f_equal.
  rewrite (u64_small (zlen msg)) by lia. rewrite u64_small by lia. rewrite (Z.mul_comm 8). do 2 f_equal. unfold zlen, block_size.
  pose proof (Nat.mod_upper_bound (length msg) 64 ltac:(lia)).
  assert (Z.of_nat (length msg mod 64) = Z.of_nat (length msg) mod 64) as E by (by rewrite Nat2Z.inj_mod).
  destruct (Nat.ltb_spec (length msg mod 64) 56); apply Nat2Z.inj; rewrite Z2Nat.id by (apply Z.mod_pos_bound; lia);
    rewrite Nat2Z.inj_sub, Nat2Z.inj_sub by lia; rewrite E; Z.div_mod_to_equations; lia.
Qed.

Lemma length_padding bits bl : (bl < block_size)%nat ->
  exists k, (1 <= k)%nat /\ (bl + length (padding bits bl) = k * block_size)%nat.
Proof.
  intros Hb. unfold padding, block_size in *. cbn [length]. rewrite length_app, repeat_length, length_map, length_seqZ.
  destruct (Nat.ltb_spec bl 56); [exists 1%nat|exists 2%nat]; lia.
Qed.

Lemma finalize_ok c : ctx_ok c ->
  (finalize c).1 = flat_map store_be32 (words (absorb (state_ c) (pending c ++ padding (u64 (count_ c * 8)) (buffer_len_ c))).1).
Proof.
  intros Hc. unfold finalize. cbv zeta. set (pd := padding _ _).
  destruct (length_padding (u64 (count_ c * 8)) (buffer_len_ c) (proj2 Hc)) as (k & Hk & Hl). fold pd in Hl.
  destruct (fill_buffer pd c) as [c' rest] eqn:E. destruct (fill_buffer_ok _ _ _ _ Hc E) as (Hc' & _ & Hr & Ha).
  pose proof (absorb_rest (state_ c) (pending c ++ pd)) as Hz. rewrite Ha in Hz.
  assert (length (pending c ++ pd) = k * block_size)%nat as Hlen.
  { rewrite length_app. unfold pending. rewrite length_take. destruct Hc. lia. }
  rewrite Hlen, Nat.Div0.mod_mul in Hz.
  assert (buffer_len_ c' = 0%nat) as H0'.
  { destruct Hr as [?| ->]; [done|]. rewrite app_nil_r, absorb_small in Hz
      by (unfold pending; rewrite length_take; destruct Hc'; lia).
    cbn [snd] in Hz. unfold pending in Hz. rewrite length_take in Hz. destruct Hc'. lia. }
  rewrite Ha. unfold pending. rewrite H0', take_0, app_nil_l.
  change (full_blocks (length rest) rest (state_ c')) with (absorb (state_ c') rest). by destruct (absorb (state_ c') rest).
Qed.

(** Hashing a message in pieces: the digest is that of the padded message, block by block. *)
Lemma context_correct c pieces : length (buffer_ c) = block_size -> zlen (concat pieces) < 2 ^ 61 ->
  (finalize (foldl (fun c p => update p c) (reset c) pieces)).1 = reference (concat pieces).
Proof.
  intros Hb Hl. destruct (update_all pieces (reset c) []) as (Hc & Ha & Hn); [split; simpl; [done|unfold block_size; lia]|done|done|].
  simpl in Ha, Hn. rewrite finalize_ok by done. unfold reference.
  set (c' := foldl _ _ _) in *. rewrite Hn. rewrite (padding_pad _ (buffer_len_ c')); [|pose proof (absorb_rest H0 (concat pieces)) as Hr|done].
  - by rewrite (absorb_app H0), Ha.
  - rewrite Ha in Hr. cbn [snd] in Hr. rewrite <-Hr. unfold pending. rewrite length_take. destruct Hc. lia.
Qed.

End Context.

(** Block functions that agree on the states a hash goes through give the same digests. *)
Lemma absorb_ext {St} (f g : list byte -> St -> St) (P : St -> Prop) m :
  (forall b st, length b = block_size -> P st -> f b st = g b st /\ P (g b st)) ->
  forall st, P st -> absorb f st m = absorb g st m.
Proof.
  intros Hfg. induction m as [m Hm|b m Hb IH] using blocks_ind; intros st Hst; [by rewrite !absorb_small by done|].
  rewrite !absorb_block by done. destruct (Hfg b st Hb Hst) as [-> HP]. by apply IH.
Qed.

Lemma reference_ext {St} (f g : list byte -> St -> St) (P : St -> Prop) H0 words msg :
  (forall b st, length b = block_size -> P st -> f b st = g b st /\ P (g b st)) -> P H0 ->
  reference f H0 words msg = reference g H0 words msg.
Proof. intros Hfg HP. unfold reference. by rewrite (absorb_ext f g P). Qed.

(** ** Message schedules as sliding windows *)

Lemma length_tail {A} (l : list A) : length (tail l) = (length l - 1)%nat.
Proof. destruct l; cbn; lia. Qed.

Section Schedule.
Context (next : list Z -> Z) (block : list byte).

(** The words [t] to [t + 15] of the schedule: the block's, then [next] of the sixteen before. *)
Fixpoint window (t : nat) : list Z :=
  match t with
  | O => map (fun i => load_be32 (drop (i * 4) block)) (seq 0 16)
  | S t => let w := window t in tail w ++ [next w]
  end.

Definition schedule (t : nat) : Z := nth 0 (window t) 0.

Lemma length_window t : length (window t) = 16%nat.
Proof. induction t as [|t IH]; [done|]. cbn [window]. rewrite length_app, length_tail, IH. done. Qed.

Lemma nth_window t i : (i < 16)%nat -> nth i (window t) 0 = schedule (t + i).
Proof.
  revert t. induction i as [|i IH]; intros t Hi; [by rewrite Nat.add_0_r|].
  replace (t + S i)%nat with (S t + i)%nat by lia. rewrite <-IH by lia. cbn [window].
  pose proof (length_window t) as Hw. rewrite app_nth1 by (rewrite length_tail; lia). by destruct (window t).
Qed.

Lemma schedule_first t : (t < 16)%nat -> schedule t = load_be32 (drop (t * 4) block).
Proof.
  intros Ht. change (schedule t) with (schedule (0 + t)). rewrite <-(nth_window 0) by done. cbn [window].
  by apply (nth_map_seq (fun i => load_be32 (drop (i * 4) block))).
Qed.

Lemma schedule_next t : schedule (t + 16) = next (window t).
Proof.
  replace (t + 16)%nat with (S t + 15)%nat by lia. rewrite <-nth_window by lia. cbn [window].
  rewrite app_nth2; rewrite length_tail, length_window; [done|lia].
Qed.

(** The code's arrays: the sixteen words of the block, extended one word at a time. *)
Lemma schedule_array (extend : list Z -> nat -> list Z) n :
  (forall k, (k < n)%nat -> extend (map schedule (seq 0 (16 + k))) (16 + k)%nat =
                            map schedule (seq 0 (16 + k)) ++ [schedule (k + 16)]) ->
  fold_left extend (seq 16 n) (map (fun i => load_be32 (drop (i * 4) block)) (seq 0 16)) = map schedule (seq 0 (16 + n)).
Proof.
  induction n as [|n IH]; intros He.
  - cbn [fold_left]. apply map_ext_in. intros i [_ Hi]%in_seq. symmetry. apply schedule_first. lia.
  - rewrite seq_S, fold_left_app, IH by auto. cbn [fold_left]. rewrite He by lia.
    replace (16 + S n)%nat with (S (16 + n)) by lia. rewrite (seq_S (16 + n) 0), map_app, (Nat.add_comm n). done.
Qed.

End Schedule.

End Sha.
