(* ===== verification/ShaVec.v ===== *)
(** * Words and 128-bit vectors for the hardware paths

    Facts on 32-bit words, and the vector intrinsics that the hardware block functions of
    [sha1.hpp] and [sha256.hpp] call.  The intrinsics are not part of the library: they are the
    fields of the records [Neon.neon] and [Sse.sse], and [Neon.neon_ok] and [Sse.sse_ok] state what the
    ACLE specification and the Intel intrinsics guide document of them, for 32-bit lanes.
    [neon_manual] and [sse_manual] are concrete functions that meet these statements. *)

From S2P Require Import Prelude Endian Sha.
Export Sha.

(** ** Words *)

Lemma word_u32 z : word (u32 z).
Proof. apply uwrap_range. lia. Qed.

Lemma word_add32 a b : word (add32 a b).
Proof. apply word_u32. Qed.

Lemma word_lxor a b : word a -> word b -> word (Z.lxor a b).
Proof. apply lxor_range. lia. Qed.

(** Equality as 32-bit words. *)
Definition eqw (a b : Z) : Prop := u32 a = u32 b.

#[global] Instance eqw_equivalence : Equivalence eqw.
Proof. split; unfold eqw; [by intros ?|by intros ? ?|by intros ? ? ? -> ->]. Qed.

#[global] Instance eqw_add : Proper (eqw ==> eqw ==> eqw) Z.add.
Proof.
  intros a a' Ha b b' Hb. unfold eqw, u32, uwrap in *. by rewrite Zplus_mod, Ha, Hb, <-Zplus_mod.
Qed.

#[global] Instance eqw_wrap : Proper (eqw ==> eq) u32.
Proof. by intros a b. Qed.

Lemma eqw_u32 a : eqw (u32 a) a.
Proof. unfold eqw, u32, uwrap. apply Zmod_mod. Qed.

Lemma testbit_u32 z i : 0 <= i -> Z.testbit (u32 z) i = (i <? 32) && Z.testbit z i.
Proof. intros. unfold u32, uwrap. rewrite Z.testbit_mod_pow2 by lia. done. Qed.

Lemma testbit_word z i : word z -> 32 <= i -> Z.testbit z i = false.
Proof. intros Hw Hi. apply (testbit_high 32); [exact Hw|lia]. Qed.

Lemma word_bits z : (forall i, 32 <= i -> Z.testbit z i = false) -> word z.
Proof.
  intros H. assert (z = u32 z) as ->; [|apply word_u32]. apply Z.bits_inj'. intros i Hi. rewrite testbit_u32 by done.
  destruct (Z.ltb_spec i 32); [done|]. by rewrite H.
Qed.

Lemma word_rotl x n : word x -> 0 <= n <= 32 -> word (rotl x n).
Proof.
  intros Hx Hn. apply word_bits. intros i Hi. unfold rotl, shl32.
  rewrite Z.lor_spec, Z.shiftr_spec, testbit_u32, (proj2 (Z.ltb_ge _ _)) by lia. apply testbit_word; [done|lia].
Qed.

Lemma word_rotr x n : word x -> 0 <= n <= 32 -> word (rotr x n).
Proof.
  intros Hx Hn. apply word_bits. intros i Hi. unfold rotr, shl32.
  rewrite Z.lor_spec, Z.shiftr_spec, testbit_u32, (proj2 (Z.ltb_ge _ _)) by lia. rewrite orb_false_r. apply testbit_word; [done|lia].
Qed.

Lemma word_shiftr x n : word x -> 0 <= n -> word (Z.shiftr x n).
Proof. intros Hx Hn. apply word_bits. intros i Hi. rewrite Z.shiftr_spec by lia. apply testbit_word; [done|lia]. Qed.

(** Rotation moves bits around. *)
Lemma testbit_rotl x n i : word x -> 0 < n < 32 -> 0 <= i -> Z.testbit (rotl x n) i = (i <? 32) && Z.testbit x ((i - n) mod 32).
Proof.
  intros Hx Hn Hi. unfold rotl, shl32. rewrite Z.lor_spec, Z.shiftr_spec, testbit_u32, Z.shiftl_spec by lia.
  destruct (Z.ltb_spec i 32); cbn [andb]; [|by apply testbit_word; [|lia]]. destruct (decide (i < n)).
  - rewrite Z.testbit_neg_r by lia. cbn [orb]. f_equal. apply Z.mod_unique with (-1); lia.
  - rewrite (testbit_word x (i + (32 - n))) by (done || lia). rewrite orb_false_r, Z.mod_small by lia. done.
Qed.

Lemma rotl_lxor x y n : word x -> word y -> 0 < n < 32 -> rotl (Z.lxor x y) n = Z.lxor (rotl x n) (rotl y n).
Proof.
  intros. apply Z.bits_inj'. intros i Hi. rewrite Z.lxor_spec, !testbit_rotl by (done || by apply word_lxor).
  rewrite Z.lxor_spec. by destruct (i <? 32).
Qed.

Lemma rotl_rotl x n m : word x -> 0 < n -> 0 < m -> n + m < 32 -> rotl (rotl x n) m = rotl x (n + m).
Proof.
  intros. assert (word (rotl x n)) by (apply word_rotl; [done|lia]). apply Z.bits_inj'. intros i Hi. pose proof (Z.mod_pos_bound (i - m) 32) as Hm.
  rewrite !testbit_rotl by (done || lia). destruct (Z.ltb_spec i 32); [|done].
  rewrite (proj2 (Z.ltb_lt _ _)) by lia. cbn [andb]. f_equal. rewrite Zminus_mod_idemp_l. by replace (i - m - n) with (i - (n + m)) by lia.
Qed.

Create HintDb sha.
#[export] Hint Resolve word_u32 word_add32 : sha.
#[export] Hint Resolve word_lxor : sha.
#[export] Hint Extern 1 (word (rotl _ _)) => (apply word_rotl; [|lia]) : sha.
#[export] Hint Extern 1 (word (rotr _ _)) => (apply word_rotr; [|lia]) : sha.
#[export] Hint Extern 1 (word (Z.shiftr _ _)) => (apply word_shiftr; [|lia]) : sha.

(** Equalities of sums of words. *)
Ltac sums := unfold add32; match goal with |- u32 ?a = u32 ?b => change (eqw a b) end;
  rewrite ?eqw_u32; match goal with |- eqw ?a ?b => replace a with b by ring; reflexivity end.

(** The two ways of writing "choose" and "majority". *)
Ltac bitwise :=
  let i := fresh "i" in let Hi := fresh "Hi" in
  apply Z.bits_inj'; intros i Hi; unfold not32;
  repeat first [rewrite Z.lxor_spec | rewrite Z.lor_spec | rewrite Z.land_spec | rewrite testbit_u32 by lia | rewrite Z.lnot_spec by lia];
  destruct (Z.ltb_spec i 32); [|rewrite ?testbit_word by (done || lia)]; simpl;
  repeat match goal with |- context [Z.testbit ?a i] => destruct (Z.testbit a i) end; try done.

(** Equalities of exclusive ors. *)
Ltac xors :=
  let i := fresh "i" in
  apply Z.bits_inj'; intros i _; rewrite ?Z.lxor_spec;
  repeat match goal with |- context [Z.testbit ?a i] => destruct (Z.testbit a i) end; reflexivity.

Lemma load_be32_le_val a b c d l : load_be32 (a :: b :: c :: d :: l) = le_val [d; c; b; a].
Proof.
  pose proof (b2z_range a). pose proof (b2z_range b). pose proof (b2z_range c). pose proof (b2z_range d).
  unfold load_be32, shl32. rewrite !Z.shiftl_mul_pow2 by lia. rewrite !u32_small by lia. cbn [le_val].
  assert (forall x y k, 0 <= k -> 0 <= y < 2 ^ k -> Z.lor (x * 2 ^ k) y = x * 2 ^ k + y) as Hor.
  { intros x y k Hk Hy. assert (Z.land (x * 2 ^ k) y = 0) as E.
    { apply Z.bits_inj'. intros i Hi. rewrite Z.land_spec, Z.bits_0, <-Z.shiftl_mul_pow2, Z.shiftl_spec by lia.
      destruct (decide (i < k)); [by rewrite Z.testbit_neg_r by lia|]. rewrite (testbit_high k y i) by lia. apply andb_false_r. }
    by rewrite Z.add_nocarry_lxor, Z.lxor_lor. }
  rewrite (Hor (b2z a) (b2z b * 2 ^ 16) 24) by lia.
  replace (b2z a * 2 ^ 24 + b2z b * 2 ^ 16) with ((b2z a * 2 ^ 8 + b2z b) * 2 ^ 16) by lia.
  rewrite (Hor _ (b2z c * 2 ^ 8) 16) by lia.
  replace ((b2z a * 2 ^ 8 + b2z b) * 2 ^ 16 + b2z c * 2 ^ 8) with (((b2z a * 2 ^ 8 + b2z b) * 2 ^ 8 + b2z c) * 2 ^ 8) by lia.
  rewrite (Hor _ (b2z d) 8) by lia. lia.
Qed.

Lemma word_load_be32 l : word (load_be32 l).
Proof.
  destruct l as [|a [|b [|c [|d l]]]]; try (by split; simpl; lia). rewrite load_be32_le_val.
  pose proof (le_val_range [d; c; b; a]). done.
Qed.
#[export] Hint Resolve word_load_be32 : sha.

(** ** Straight-line code *)

(** An assignment in a long sequence of them. *)
Definition assign {A B : Type} (e : A) (k : A -> B) : B := k e.

Notation "x <~ e ;; k" := (assign e (fun x => k)) (at level 100, e at next level, right associativity,
  format "x  <~  e ;; '//' k").

Lemma assign_step {A B : Type} (e v : A) (k : A -> B) r : e = v -> k v = r -> assign e k = r.
Proof. by intros -> <-. Qed.

(** Replace the first assignment's right-hand side by the value [tac] finds for it. *)
Ltac step tac := eapply assign_step; [solve [tac]|cbv beta].

(** ** Vectors *)

(** Four 32-bit lanes, lane 0 in the low bits. *)
Record v4 := V4 { lane0 : Z; lane1 : Z; lane2 : Z; lane3 : Z }.

Definition lane (v : v4) (i : Z) : Z :=
  if i =? 0 then lane0 v else if i =? 1 then lane1 v else if i =? 2 then lane2 v else lane3 v.

Definition vword (v : v4) : Prop := word (lane0 v) /\ word (lane1 v) /\ word (lane2 v) /\ word (lane3 v).

Lemma vword_V4 a b c d : word a -> word b -> word c -> word d -> vword (V4 a b c d).
Proof. by split_ands. Qed.

(** The 16 bytes of a register, from the low end. *)
Definition v4_bytes (v : v4) : list byte :=
  le_bytes 4 (lane0 v) ++ le_bytes 4 (lane1 v) ++ le_bytes 4 (lane2 v) ++ le_bytes 4 (lane3 v).

Definition bytes_v4 (l : list byte) : v4 :=
  V4 (le_val (take 4 l)) (le_val (take 4 (drop 4 l))) (le_val (take 4 (drop 8 l))) (le_val (take 4 (drop 12 l))).

Lemma length_v4_bytes v : length (v4_bytes v) = 16%nat.
Proof. unfold v4_bytes. by rewrite !length_app, !length_le_bytes. Qed.

Lemma le_val_word l : (length l <= 4)%nat -> word (le_val l).
Proof.
  intros Hl. pose proof (le_val_range l) as [? ?]. split; [done|]. eapply Z.lt_le_trans; [done|].
  apply Z.pow_le_mono_r; unfold zlen; lia.
Qed.

Lemma le_val_bytes4 z : word z -> le_val (le_bytes 4 z) = z.
Proof. intros Hz. rewrite le_val_le_bytes. by apply uwrap_small. Qed.

Lemma bytes_v4_bytes v : vword v -> bytes_v4 (v4_bytes v) = v.
Proof.
  destruct v as [a b c d]. intros (Ha & Hb & Hc & Hd). unfold bytes_v4, v4_bytes. simpl lane0; simpl lane1; simpl lane2; simpl lane3.
  f_equal.
  - rewrite <-(le_val_bytes4 a) at 2 by done. done.
  - rewrite <-(le_val_bytes4 b) at 2 by done. done.
  - rewrite <-(le_val_bytes4 c) at 2 by done. done.
  - rewrite <-(le_val_bytes4 d) at 2 by done. done.
Qed.

Lemma v4_bytes_v4 l : length l = 16%nat -> v4_bytes (bytes_v4 l) = l.
Proof.
  intros Hl. unfold v4_bytes, bytes_v4. simpl lane0; simpl lane1; simpl lane2; simpl lane3.
  rewrite !le_bytes_le_val' by (rewrite length_take, ?length_drop; lia).
  do 16 (destruct l as [|? l]; [done|]). by destruct l.
Qed.

Lemma bytes_v4_word l : vword (bytes_v4 l).
Proof. split_and!; apply le_val_word; rewrite length_take; lia. Qed.

Lemma v4_bytes_inj v w : vword v -> vword w -> v4_bytes v = v4_bytes w -> v = w.
Proof. intros Hv Hw E. by rewrite <-(bytes_v4_bytes v), E, bytes_v4_bytes. Qed.

Definition vadd (v w : v4) : v4 :=
  V4 (add32 (lane0 v) (lane0 w)) (add32 (lane1 v) (lane1 w)) (add32 (lane2 v) (lane2 w)) (add32 (lane3 v) (lane3 w)).
Definition vxor (v w : v4) : v4 :=
  V4 (Z.lxor (lane0 v) (lane0 w)) (Z.lxor (lane1 v) (lane1 w)) (Z.lxor (lane2 v) (lane2 w)) (Z.lxor (lane3 v) (lane3 w)).

(** ** Dispatch *)

(** The fields of [cpu_features] the SHA functions look at, and the flag that
    [set_force_software_hash] sets. *)
Record cpu := Cpu { sha_ni : bool; arm_sha1 : bool; arm_sha2 : bool; force_software : bool }.

Definition set_force_software_hash (c : cpu) (v : bool) : cpu := Cpu (sha_ni c) (arm_sha1 c) (arm_sha2 c) v.
Definition use_sha_ni (c : cpu) : bool := sha_ni c && negb (force_software c).
Definition use_arm_sha1 (c : cpu) : bool := arm_sha1 c && negb (force_software c).
Definition use_arm_sha2 (c : cpu) : bool := arm_sha2 c && negb (force_software c).

(** ** Arm *)

Module Neon.

Record neon := {
  vld1q_u32 : list Z -> v4;
  vst1q_u32 : v4 -> list Z;
  vld1q_u8 : list byte -> list byte;
  vrev32q_u8 : list byte -> list byte;
  vreinterpretq_u32_u8 : list byte -> v4;
  vaddq_u32 : v4 -> v4 -> v4;
  vdupq_n_u32 : Z -> v4;
  vgetq_lane_u32 : v4 -> Z -> Z
}.

Fixpoint rev32 (l : list byte) : list byte :=
  match l with
  | a :: b :: c :: d :: l => d :: c :: b :: a :: rev32 l
  | _ => l
  end.

Record neon_ok (f : neon) : Prop := {
  n_vld1q_u32 a b c d l : word a -> word b -> word c -> word d -> vld1q_u32 f (a :: b :: c :: d :: l) = V4 a b c d;
  n_vst1q_u32 v : vword v -> vst1q_u32 f v = [lane0 v; lane1 v; lane2 v; lane3 v];
  n_vld1q_u8 l : (16 <= length l)%nat -> vld1q_u8 f l = take 16 l;
  n_vrev32q_u8 l : length l = 16%nat -> vrev32q_u8 f l = rev32 l;
  n_vreinterpretq_u32_u8 l : length l = 16%nat -> vreinterpretq_u32_u8 f l = bytes_v4 l;
  n_vaddq_u32 v w : vword v -> vword w -> vaddq_u32 f v w = vadd v w;
  n_vdupq_n_u32 x : word x -> vdupq_n_u32 f x = V4 x x x x;
  n_vgetq_lane_u32 v i : vword v -> 0 <= i < 4 -> vgetq_lane_u32 f v i = lane v i
}.

Definition neon_manual : neon := {|
  vld1q_u32 l := V4 (nth 0 l 0) (nth 1 l 0) (nth 2 l 0) (nth 3 l 0);
  vst1q_u32 v := [lane0 v; lane1 v; lane2 v; lane3 v];
  vld1q_u8 l := take 16 l;
  vrev32q_u8 := rev32;
  vreinterpretq_u32_u8 := bytes_v4;
  vaddq_u32 := vadd;
  vdupq_n_u32 x := V4 x x x x;
  vgetq_lane_u32 := lane
|}.

Lemma neon_manual_ok : neon_ok neon_manual.
Proof. by split. Qed.

End Neon.

(** ** x86 *)

Module Sse.

Record sse := {
  _mm_loadu_si128 : list byte -> v4;
  _mm_storeu_si128 : v4 -> list byte;
  _mm_shuffle_epi8 : v4 -> v4 -> v4;
  _mm_shuffle_epi32 : v4 -> Z -> v4;
  _mm_alignr_epi8 : v4 -> v4 -> Z -> v4;
  _mm_blend_epi16 : v4 -> v4 -> Z -> v4;
  _mm_add_epi32 : v4 -> v4 -> v4;
  _mm_xor_si128 : v4 -> v4 -> v4;
  _mm_set_epi64x : Z -> Z -> v4;
  _mm_set_epi32 : Z -> Z -> Z -> Z -> v4;
  _mm_extract_epi32 : v4 -> Z -> Z
}.

(** The byte selections of the guide. *)
Definition pshufb (a m : list byte) : list byte :=
  map (fun c => if 128 <=? b2z c then z2b 0 else nth (Z.to_nat (Z.land (b2z c) 15)) a (z2b 0)) m.
Definition palignr (a b : list byte) (n : Z) : list byte := take 16 (drop (Z.to_nat n) (b ++ a)).
Definition pblendw (a b : list byte) (imm : Z) : list byte :=
  flat_map (fun j => take 2 (drop (Z.to_nat (2 * j)) (if Z.testbit imm j then b else a))) (seqZ 0 8).

Definition pshufd (a : v4) (imm : Z) : v4 :=
  V4 (lane a (Z.land imm 3)) (lane a (Z.land (Z.shiftr imm 2) 3)) (lane a (Z.land (Z.shiftr imm 4) 3)) (lane a (Z.land (Z.shiftr imm 6) 3)).

Definition epi64x (e1 e0 : Z) : v4 := V4 (u32 e0) (u32 (Z.shiftr e0 32)) (u32 e1) (u32 (Z.shiftr e1 32)).

Record sse_ok (f : sse) : Prop := {
  x_loadu l : (16 <= length l)%nat -> vword (_mm_loadu_si128 f l) /\ v4_bytes (_mm_loadu_si128 f l) = take 16 l;
  x_storeu v : vword v -> _mm_storeu_si128 f v = v4_bytes v;
  x_shuffle_epi8 a m : vword a -> vword m ->
    vword (_mm_shuffle_epi8 f a m) /\ v4_bytes (_mm_shuffle_epi8 f a m) = pshufb (v4_bytes a) (v4_bytes m);
  x_shuffle_epi32 a imm : vword a -> 0 <= imm < 256 -> _mm_shuffle_epi32 f a imm = pshufd a imm;
  x_alignr_epi8 a b n : vword a -> vword b -> 0 <= n <= 16 ->
    vword (_mm_alignr_epi8 f a b n) /\ v4_bytes (_mm_alignr_epi8 f a b n) = palignr (v4_bytes a) (v4_bytes b) n;
  x_blend_epi16 a b imm : vword a -> vword b -> 0 <= imm < 256 ->
    vword (_mm_blend_epi16 f a b imm) /\ v4_bytes (_mm_blend_epi16 f a b imm) = pblendw (v4_bytes a) (v4_bytes b) imm;
  x_add_epi32 a b : vword a -> vword b -> _mm_add_epi32 f a b = vadd a b;
  x_xor_si128 a b : vword a -> vword b -> _mm_xor_si128 f a b = vxor a b;
  x_set_epi64x e1 e0 : - 2 ^ 63 <= e1 < 2 ^ 63 -> - 2 ^ 63 <= e0 < 2 ^ 63 -> _mm_set_epi64x f e1 e0 = epi64x e1 e0;
  x_set_epi32 e3 e2 e1 e0 : _mm_set_epi32 f e3 e2 e1 e0 = V4 (u32 e0) (u32 e1) (u32 e2) (u32 e3);
  x_extract_epi32 v i : vword v -> 0 <= i < 4 -> u32 (_mm_extract_epi32 f v i) = lane v i
}.

Definition sse_manual : sse := {|
  _mm_loadu_si128 := bytes_v4;
  _mm_storeu_si128 := v4_bytes;
  _mm_shuffle_epi8 a m := bytes_v4 (pshufb (v4_bytes a) (v4_bytes m));
  _mm_shuffle_epi32 := pshufd;
  _mm_alignr_epi8 a b n := bytes_v4 (palignr (v4_bytes a) (v4_bytes b) n);
  _mm_blend_epi16 a b imm := bytes_v4 (pblendw (v4_bytes a) (v4_bytes b) imm);
  _mm_add_epi32 := vadd;
  _mm_xor_si128 := vxor;
  _mm_set_epi64x := epi64x;
  _mm_set_epi32 e3 e2 e1 e0 := V4 (u32 e0) (u32 e1) (u32 e2) (u32 e3);
  _mm_extract_epi32 := lane
|}.

Lemma length_pblendw a b imm : length a = 16%nat -> length b = 16%nat -> length (pblendw a b imm) = 16%nat.
Proof.
  intros Ha Hb. unfold pblendw. change (seqZ 0 8) with [0; 1; 2; 3; 4; 5; 6; 7]. cbn [flat_map].
  assert (forall j, length (if Z.testbit imm j then b else a) = 16%nat) as Hj by (intros j; by case_match).
  by rewrite !length_app, !length_take, !length_drop, !Hj.
Qed.

Lemma sse_manual_ok : sse_ok sse_manual.
Proof.
  split; unfold sse_manual; cbn [_mm_loadu_si128 _mm_storeu_si128 _mm_shuffle_epi8 _mm_shuffle_epi32 _mm_alignr_epi8
    _mm_blend_epi16 _mm_add_epi32 _mm_xor_si128 _mm_set_epi64x _mm_set_epi32 _mm_extract_epi32]; try done.
  - intros l Hl. split; [apply bytes_v4_word|]. rewrite <-(v4_bytes_v4 (take 16 l)) by (rewrite length_take; lia).
    do 16 (destruct l as [|? l]; [simpl in Hl; lia|]). reflexivity.
  - intros a m Ha Hm. split; [apply bytes_v4_word|]. apply v4_bytes_v4. unfold pshufb. by rewrite length_map, length_v4_bytes.
  - intros a b n Ha Hb Hn. split; [apply bytes_v4_word|]. apply v4_bytes_v4. unfold palignr.
    rewrite length_take, length_drop, length_app, !length_v4_bytes. lia.
  - intros a b n Ha Hb Hn. split; [apply bytes_v4_word|]. apply v4_bytes_v4. by apply length_pblendw; apply length_v4_bytes.
  - intros v i (? & ? & ? & ?) Hi. unfold lane. repeat case_match; by apply u32_small.
Qed.

End Sse.

(** ** Derived facts on the vector operations *)

(** The words of a block, as both paths load them. *)
Lemma neon_load f block k : Neon.neon_ok f -> (k + 16 <= length block)%nat ->
  Neon.vreinterpretq_u32_u8 f (Neon.vrev32q_u8 f (Neon.vld1q_u8 f (drop k block))) =
  V4 (load_be32 (drop k block)) (load_be32 (drop (k + 4) block)) (load_be32 (drop (k + 8) block)) (load_be32 (drop (k + 12) block)).
Proof.
  intros Hf Hl. rewrite <-!(drop_drop block _ k). assert (16 <= length (drop k block))%nat as Hd by (rewrite length_drop; lia).
  set (l := drop k block) in *. clearbody l. clear Hl.
  rewrite Neon.n_vld1q_u8, Neon.n_vrev32q_u8, Neon.n_vreinterpretq_u32_u8; try done; try (rewrite length_take; lia).
  - do 16 (destruct l as [|? l]; [simpl in Hd; lia|]). cbn [drop]. rewrite !load_be32_le_val. reflexivity.
  - do 16 (destruct l as [|? l]; [simpl in Hd; lia|]). reflexivity.
Qed.

Section Sse.
Context (x : Sse.sse) (Hx : Sse.sse_ok x).
Import Sse.

Lemma sse_alignr4 a b : vword a -> vword b -> _mm_alignr_epi8 x a b 4 = V4 (lane1 b) (lane2 b) (lane3 b) (lane0 a).
Proof.
  intros Ha Hb. destruct (x_alignr_epi8 x Hx a b 4) as [Hv E]; [done..|lia|].
  apply v4_bytes_inj; [done| |by rewrite E]. destruct Ha, Hb as (? & ? & ? & ?). by apply vword_V4.
Qed.

Lemma sse_alignr8 a b : vword a -> vword b -> _mm_alignr_epi8 x a b 8 = V4 (lane2 b) (lane3 b) (lane0 a) (lane1 a).
Proof.
  intros Ha Hb. destruct (x_alignr_epi8 x Hx a b 8) as [Hv E]; [done..|lia|].
  apply v4_bytes_inj; [done| |by rewrite E]. destruct Ha as (? & ? & ? & ?), Hb as (? & ? & ? & ?). by apply vword_V4.
Qed.

Lemma sse_blend a b : vword a -> vword b -> _mm_blend_epi16 x a b 0xF0 = V4 (lane0 a) (lane1 a) (lane2 b) (lane3 b).
Proof.
  intros Ha Hb. destruct (x_blend_epi16 x Hx a b 0xF0) as [Hv E]; [done..|lia|].
  apply v4_bytes_inj; [done| |by rewrite E]. destruct Ha as (? & ? & ? & ?), Hb as (? & ? & ? & ?). by apply vword_V4.
Qed.

Lemma sse_shuffle_B1 a b c d : vword (V4 a b c d) -> _mm_shuffle_epi32 x (V4 a b c d) 0xB1 = V4 b a d c.
Proof. intros. by rewrite x_shuffle_epi32 by (done || lia). Qed.

Lemma sse_shuffle_1B a b c d : vword (V4 a b c d) -> _mm_shuffle_epi32 x (V4 a b c d) 0x1B = V4 d c b a.
Proof. intros. by rewrite x_shuffle_epi32 by (done || lia). Qed.

(** The big-endian loads of the two routines, through their [MASK]s. *)
Definition sha256_mask : v4 := _mm_set_epi64x x (s64 0x0c0d0e0f08090a0b) (s64 0x0405060700010203).
Definition sha1_mask : v4 := _mm_set_epi64x x (s64 0x0001020304050607) (s64 0x08090a0b0c0d0e0f).

Lemma sse_shuffle block e1 e0 r : (16 <= length block)%nat -> - 2 ^ 63 <= e1 < 2 ^ 63 -> - 2 ^ 63 <= e0 < 2 ^ 63 -> vword r ->
  pshufb (take 16 block) (v4_bytes (epi64x e1 e0)) = v4_bytes r ->
  _mm_shuffle_epi8 x (_mm_loadu_si128 x block) (_mm_set_epi64x x e1 e0) = r.
Proof.
  intros Hl H1 H0 Hr E. rewrite x_set_epi64x by done. destruct (x_loadu x Hx block Hl) as [Hv Ev].
  destruct (x_shuffle_epi8 x Hx _ (epi64x e1 e0) Hv) as [Hs Es]; [apply vword_V4; apply word_u32|].
  apply v4_bytes_inj; [done..|]. by rewrite Es, Ev.
Qed.

Lemma sse_load block k : (k + 16 <= length block)%nat ->
  _mm_shuffle_epi8 x (_mm_loadu_si128 x (drop k block)) sha256_mask =
  V4 (load_be32 (drop k block)) (load_be32 (drop (k + 4) block)) (load_be32 (drop (k + 8) block)) (load_be32 (drop (k + 12) block)).
Proof.
  intros Hl. rewrite <-!(drop_drop block _ k). assert (16 <= length (drop k block))%nat as Hd by (rewrite length_drop; lia).
  set (l := drop k block) in *. clearbody l. clear Hl.
  apply sse_shuffle; [done|by vm_compute..|apply vword_V4; apply word_load_be32|].
  do 16 (destruct l as [|? l]; [simpl in Hd; lia|]). cbn [drop take]. rewrite !load_be32_le_val.
  unfold v4_bytes at 2. cbn [lane0 lane1 lane2 lane3]. rewrite !le_bytes_le_val' by done. vm_compute. reflexivity.
Qed.

Lemma sse_load_rev block k : (k + 16 <= length block)%nat ->
  _mm_shuffle_epi8 x (_mm_loadu_si128 x (drop k block)) sha1_mask =
  V4 (load_be32 (drop (k + 12) block)) (load_be32 (drop (k + 8) block)) (load_be32 (drop (k + 4) block)) (load_be32 (drop k block)).
Proof.
  intros Hl. rewrite <-!(drop_drop block _ k). assert (16 <= length (drop k block))%nat as Hd by (rewrite length_drop; lia).
  set (l := drop k block) in *. clearbody l. clear Hl.
  apply sse_shuffle; [done|by vm_compute..|apply vword_V4; apply word_load_be32|].
  do 16 (destruct l as [|? l]; [simpl in Hd; lia|]). cbn [drop take]. rewrite !load_be32_le_val.
  unfold v4_bytes at 2. cbn [lane0 lane1 lane2 lane3]. rewrite !le_bytes_le_val' by done. vm_compute. reflexivity.
Qed.

(** Four integers in memory. *)
Definition u32_object (l : list Z) : list byte := flat_map (le_bytes 4) l.
Definition u32_at (l : list byte) (i : nat) : Z := le_val (take 4 (drop (4 * i) l)).

Lemma sse_load_words a b c d l : word a -> word b -> word c -> word d ->
  _mm_loadu_si128 x (u32_object (a :: b :: c :: d :: l)) = V4 a b c d.
Proof.
  intros. destruct (x_loadu x Hx (u32_object (a :: b :: c :: d :: l))) as [Hv E]; [cbn; lia|].
  apply v4_bytes_inj; [done|by apply vword_V4|]. by rewrite E.
Qed.

Lemma u32_at_bytes a b c d : vword (V4 a b c d) -> let l := v4_bytes (V4 a b c d) in
  u32_at l 0 = a /\ u32_at l 1 = b /\ u32_at l 2 = c /\ u32_at l 3 = d.
Proof.
  intros (Ha & Hb & Hc & Hd) l. split_and!.
  - exact (le_val_bytes4 a Ha).
  - exact (le_val_bytes4 b Hb).
  - exact (le_val_bytes4 c Hc).
  - exact (le_val_bytes4 d Hd).
Qed.

End Sse.
