(* ===== verification/Sha256.v ===== *)
(** * SHA-256

    Models [src/include/elio/hash/sha256.hpp]: the software block function with its unrolled
    schedule and rounds, the Armv8 and the SHA-NI block functions statement by statement, the
    dispatch between them and the digest functions; the incremental context is [Sha]'s.  The
    reference is FIPS 180-4: the schedule as a sliding window of sixteen words, one round at a
    time, with the constants computed from the roots of the primes.  The SHA instructions are the fields of [arm_sha256_insns] and [x86_sha]; [arm_sha2_ok] and
    [x86_sha_ok] state the pseudocode of the vendors' manuals. *)

From S2P Require Import Prelude Endian Sha ShaVec.

Module Sha256.
Import Neon Sse.

#[local] Open Scope word_scope.

(** ** The code *)

Definition sha256_k : list Z :=
  [0x428a2f98; 0x71374491; 0xb5c0fbcf; 0xe9b5dba5; 0x3956c25b; 0x59f111f1; 0x923f82a4; 0xab1c5ed5] ++
  [0xd807aa98; 0x12835b01; 0x243185be; 0x550c7dc3; 0x72be5d74; 0x80deb1fe; 0x9bdc06a7; 0xc19bf174] ++
  [0xe49b69c1; 0xefbe4786; 0x0fc19dc6; 0x240ca1cc; 0x2de92c6f; 0x4a7484aa; 0x5cb0a9dc; 0x76f988da] ++
  [0x983e5152; 0xa831c66d; 0xb00327c8; 0xbf597fc7; 0xc6e00bf3; 0xd5a79147; 0x06ca6351; 0x14292967] ++
  [0x27b70a85; 0x2e1b2138; 0x4d2c6dfc; 0x53380d13; 0x650a7354; 0x766a0abb; 0x81c2c92e; 0x92722c85] ++
  [0xa2bfe8a1; 0xa81a664b; 0xc24b8b70; 0xc76c51a3; 0xd192e819; 0xd6990624; 0xf40e3585; 0x106aa070] ++
  [0x19a4c116; 0x1e376c08; 0x2748774c; 0x34b0bcb5; 0x391c0cb3; 0x4ed8aa4a; 0x5b9cca4f; 0x682e6ff3] ++
  [0x748f82ee; 0x78a5636f; 0x84c87814; 0x8cc70208; 0x90befffa; 0xa4506ceb; 0xbef9a3f7; 0xc67178f2].

(** [state_], and the local variables [a] to [h]. *)
Record regs := Regs { ra : Z; rb : Z; rc : Z; rd : Z; re : Z; rf : Z; rg : Z; rh : Z }.

Definition initial : regs :=
  Regs 0x6a09e667 0xbb67ae85 0x3c6ef372 0xa54ff53a 0x510e527f 0x9b05688c 0x1f83d9ab 0x5be0cd19.

Definition words (r : regs) : list Z := [ra r; rb r; rc r; rd r; re r; rf r; rg r; rh r].

Definition ch (e f g : Z) : Z := Z.lxor (Z.land e f) (Z.land (not32 e) g).
Definition maj (a b c : Z) : Z := Z.lxor (Z.lxor (Z.land a b) (Z.land a c)) (Z.land b c).
Definition sigma0 (a : Z) : Z := Z.lxor (Z.lxor (rotr a 2) (rotr a 13)) (rotr a 22).
Definition sigma1 (e : Z) : Z := Z.lxor (Z.lxor (rotr e 6) (rotr e 11)) (rotr e 25).

(** [SHA256_ROUND], with the constant and the word of the round. *)
Definition SHA256_ROUND (k w : Z) (r : regs) : regs :=
  let '(Regs a b c d e f g h) := r in
  let t1 := h ⊞ sigma1 e ⊞ ch e f g ⊞ k ⊞ w in
  let t2 := sigma0 a ⊞ maj a b c in
  Regs (t1 ⊞ t2) a b c (d ⊞ t1) e f g.

(** [SHA256_SCHEDULE(i)], where [w] holds the words written so far. *)
Definition SHA256_SCHEDULE (w : list Z) (i : nat) : list Z :=
  let at_ j := nth j w 0 in
  let s0 := Z.lxor (Z.lxor (rotr (at_ (i - 15)%nat) 7) (rotr (at_ (i - 15)%nat) 18)) (Z.shiftr (at_ (i - 15)%nat) 3) in
  let s1 := Z.lxor (Z.lxor (rotr (at_ (i - 2)%nat) 17) (rotr (at_ (i - 2)%nat) 19)) (Z.shiftr (at_ (i - 2)%nat) 10) in
  w ++ [at_ (i - 16)%nat ⊞ s0 ⊞ at_ (i - 7)%nat ⊞ s1].

Definition add_regs (s r : regs) : regs :=
  Regs (ra s ⊞ ra r) (rb s ⊞ rb r) (rc s ⊞ rc r) (rd s ⊞ rd r) (re s ⊞ re r) (rf s ⊞ rf r) (rg s ⊞ rg r) (rh s ⊞ rh r).

Definition process_block_sw (block : list byte) (state : regs) : regs :=
  let w := map (fun i => load_be32 (drop (i * 4) block)) (seq 0 16) in
  let w := fold_left SHA256_SCHEDULE (seq 16 48) w in
  let r := fold_left (fun r i => SHA256_ROUND (nth i sha256_k 0) (nth i w 0) r) (seq 0 64) state in
  add_regs state r.

(** The Armv8 instructions. *)
Record arm_sha256_insns := {
  vsha256su0q_u32 : v4 -> v4 -> v4;
  vsha256su1q_u32 : v4 -> v4 -> v4 -> v4;
  vsha256hq_u32 : v4 -> v4 -> v4 -> v4;
  vsha256h2q_u32 : v4 -> v4 -> v4 -> v4
}.

Definition process_block_arm (n : neon) (f : arm_sha256_insns) (block : list byte) (state : regs) : regs :=
  STATE0 <~ vld1q_u32 n (words state);;
  STATE1 <~ vld1q_u32 n (drop 4 (words state));;
  ABEF_SAVE <~ STATE0;;
  CDGH_SAVE <~ STATE1;;
  MSG0 <~ vreinterpretq_u32_u8 n (vrev32q_u8 n (vld1q_u8 n block));;
  MSG1 <~ vreinterpretq_u32_u8 n (vrev32q_u8 n (vld1q_u8 n (drop 16 block)));;
  MSG2 <~ vreinterpretq_u32_u8 n (vrev32q_u8 n (vld1q_u8 n (drop 32 block)));;
  MSG3 <~ vreinterpretq_u32_u8 n (vrev32q_u8 n (vld1q_u8 n (drop 48 block)));;
  TMP0 <~ vaddq_u32 n MSG0 (vld1q_u32 n (drop 0 sha256_k));;
  (* Rounds 0-3 *)
  MSG0 <~ vsha256su0q_u32 f MSG0 MSG1;;
  TMP2 <~ STATE0;;
  TMP1 <~ vaddq_u32 n MSG1 (vld1q_u32 n (drop 4 sha256_k));;
  STATE0 <~ vsha256hq_u32 f STATE0 STATE1 TMP0;;
  STATE1 <~ vsha256h2q_u32 f STATE1 TMP2 TMP0;;
  MSG0 <~ vsha256su1q_u32 f MSG0 MSG2 MSG3;;
  (* Rounds 4-7 *)
  MSG1 <~ vsha256su0q_u32 f MSG1 MSG2;;
  TMP2 <~ STATE0;;
  TMP0 <~ vaddq_u32 n MSG2 (vld1q_u32 n (drop 8 sha256_k));;
  STATE0 <~ vsha256hq_u32 f STATE0 STATE1 TMP1;;
  STATE1 <~ vsha256h2q_u32 f STATE1 TMP2 TMP1;;
  MSG1 <~ vsha256su1q_u32 f MSG1 MSG3 MSG0;;
  (* Rounds 8-11 *)
  MSG2 <~ vsha256su0q_u32 f MSG2 MSG3;;
  TMP2 <~ STATE0;;
  TMP1 <~ vaddq_u32 n MSG3 (vld1q_u32 n (drop 12 sha256_k));;
  STATE0 <~ vsha256hq_u32 f STATE0 STATE1 TMP0;;
  STATE1 <~ vsha256h2q_u32 f STATE1 TMP2 TMP0;;
  MSG2 <~ vsha256su1q_u32 f MSG2 MSG0 MSG1;;
  (* Rounds 12-15 *)
  MSG3 <~ vsha256su0q_u32 f MSG3 MSG0;;
  TMP2 <~ STATE0;;
  TMP0 <~ vaddq_u32 n MSG0 (vld1q_u32 n (drop 16 sha256_k));;
  STATE0 <~ vsha256hq_u32 f STATE0 STATE1 TMP1;;
  STATE1 <~ vsha256h2q_u32 f STATE1 TMP2 TMP1;;
  MSG3 <~ vsha256su1q_u32 f MSG3 MSG1 MSG2;;
  (* Rounds 16-19 *)
  MSG0 <~ vsha256su0q_u32 f MSG0 MSG1;;
  TMP2 <~ STATE0;;
  TMP1 <~ vaddq_u32 n MSG1 (vld1q_u32 n (drop 20 sha256_k));;
  STATE0 <~ vsha256hq_u32 f STATE0 STATE1 TMP0;;
  STATE1 <~ vsha256h2q_u32 f STATE1 TMP2 TMP0;;
  MSG0 <~ vsha256su1q_u32 f MSG0 MSG2 MSG3;;
  (* Rounds 20-23 *)
  MSG1 <~ vsha256su0q_u32 f MSG1 MSG2;;
  TMP2 <~ STATE0;;
  TMP0 <~ vaddq_u32 n MSG2 (vld1q_u32 n (drop 24 sha256_k));;
  STATE0 <~ vsha256hq_u32 f STATE0 STATE1 TMP1;;
  STATE1 <~ vsha256h2q_u32 f STATE1 TMP2 TMP1;;
  MSG1 <~ vsha256su1q_u32 f MSG1 MSG3 MSG0;;
  (* Rounds 24-27 *)
  MSG2 <~ vsha256su0q_u32 f MSG2 MSG3;;
  TMP2 <~ STATE0;;
  TMP1 <~ vaddq_u32 n MSG3 (vld1q_u32 n (drop 28 sha256_k));;
  STATE0 <~ vsha256hq_u32 f STATE0 STATE1 TMP0;;
  STATE1 <~ vsha256h2q_u32 f STATE1 TMP2 TMP0;;
  MSG2 <~ vsha256su1q_u32 f MSG2 MSG0 MSG1;;
  (* Rounds 28-31 *)
  MSG3 <~ vsha256su0q_u32 f MSG3 MSG0;;
  TMP2 <~ STATE0;;
  TMP0 <~ vaddq_u32 n MSG0 (vld1q_u32 n (drop 32 sha256_k));;
  STATE0 <~ vsha256hq_u32 f STATE0 STATE1 TMP1;;
  STATE1 <~ vsha256h2q_u32 f STATE1 TMP2 TMP1;;
  MSG3 <~ vsha256su1q_u32 f MSG3 MSG1 MSG2;;
  (* Rounds 32-35 *)
  MSG0 <~ vsha256su0q_u32 f MSG0 MSG1;;
  TMP2 <~ STATE0;;
  TMP1 <~ vaddq_u32 n MSG1 (vld1q_u32 n (drop 36 sha256_k));;
  STATE0 <~ vsha256hq_u32 f STATE0 STATE1 TMP0;;
  STATE1 <~ vsha256h2q_u32 f STATE1 TMP2 TMP0;;
  MSG0 <~ vsha256su1q_u32 f MSG0 MSG2 MSG3;;
  (* Rounds 36-39 *)
  MSG1 <~ vsha256su0q_u32 f MSG1 MSG2;;
  TMP2 <~ STATE0;;
  TMP0 <~ vaddq_u32 n MSG2 (vld1q_u32 n (drop 40 sha256_k));;
  STATE0 <~ vsha256hq_u32 f STATE0 STATE1 TMP1;;
  STATE1 <~ vsha256h2q_u32 f STATE1 TMP2 TMP1;;
  MSG1 <~ vsha256su1q_u32 f MSG1 MSG3 MSG0;;
  (* Rounds 40-43 *)
  MSG2 <~ vsha256su0q_u32 f MSG2 MSG3;;
  TMP2 <~ STATE0;;
  TMP1 <~ vaddq_u32 n MSG3 (vld1q_u32 n (drop 44 sha256_k));;
  STATE0 <~ vsha256hq_u32 f STATE0 STATE1 TMP0;;
  STATE1 <~ vsha256h2q_u32 f STATE1 TMP2 TMP0;;
  MSG2 <~ vsha256su1q_u32 f MSG2 MSG0 MSG1;;
  (* Rounds 44-47 *)
  MSG3 <~ vsha256su0q_u32 f MSG3 MSG0;;
  TMP2 <~ STATE0;;
  TMP0 <~ vaddq_u32 n MSG0 (vld1q_u32 n (drop 48 sha256_k));;
  STATE0 <~ vsha256hq_u32 f STATE0 STATE1 TMP1;;
  STATE1 <~ vsha256h2q_u32 f STATE1 TMP2 TMP1;;
  MSG3 <~ vsha256su1q_u32 f MSG3 MSG1 MSG2;;
  (* Rounds 48-51 *)
  TMP2 <~ STATE0;;
  TMP1 <~ vaddq_u32 n MSG1 (vld1q_u32 n (drop 52 sha256_k));;
  STATE0 <~ vsha256hq_u32 f STATE0 STATE1 TMP0;;
  STATE1 <~ vsha256h2q_u32 f STATE1 TMP2 TMP0;;
  (* Rounds 52-55 *)
  TMP2 <~ STATE0;;
  TMP0 <~ vaddq_u32 n MSG2 (vld1q_u32 n (drop 56 sha256_k));;
  STATE0 <~ vsha256hq_u32 f STATE0 STATE1 TMP1;;
  STATE1 <~ vsha256h2q_u32 f STATE1 TMP2 TMP1;;
  (* Rounds 56-59 *)
  TMP2 <~ STATE0;;
  TMP1 <~ vaddq_u32 n MSG3 (vld1q_u32 n (drop 60 sha256_k));;
  STATE0 <~ vsha256hq_u32 f STATE0 STATE1 TMP0;;
  STATE1 <~ vsha256h2q_u32 f STATE1 TMP2 TMP0;;
  (* Rounds 60-63 *)
  TMP2 <~ STATE0;;
  STATE0 <~ vsha256hq_u32 f STATE0 STATE1 TMP1;;
  STATE1 <~ vsha256h2q_u32 f STATE1 TMP2 TMP1;;
  STATE0 <~ vaddq_u32 n STATE0 ABEF_SAVE;;
  STATE1 <~ vaddq_u32 n STATE1 CDGH_SAVE;;
  match vst1q_u32 n STATE0, vst1q_u32 n STATE1 with
  | [a; b; c; d], [e; f; g; h] => Regs a b c d e f g h
  | _, _ => state
  end.

(** The SHA-NI instructions. *)
Record x86_sha := {
  _mm_sha256rnds2_epu32 : v4 -> v4 -> v4 -> v4;
  _mm_sha256msg1_epu32 : v4 -> v4 -> v4;
  _mm_sha256msg2_epu32 : v4 -> v4 -> v4
}.

(** The vectors of the message that [process_block_sha_ni] keeps, with the two of the state. *)
Record ni_regs := Ni { STATE0_ : v4; STATE1_ : v4; TMSG0_ : v4; TMSG1_ : v4; TMSG2_ : v4; TMSG3_ : v4 }.

Definition sha_ni_rounds_0_31 (x : sse) (f : x86_sha) (MASK : v4) (block : list byte) (STATE0 STATE1 : v4) : ni_regs :=
  (* Rounds 0-3 *)
  MSG <~ _mm_loadu_si128 x block;;
  TMSG0 <~ _mm_shuffle_epi8 x MSG MASK;;
  MSG <~ _mm_add_epi32 x TMSG0 (_mm_set_epi64x x (s64 0xE9B5DBA5B5C0FBCF) (s64 0x71374491428A2F98));;
  STATE1 <~ _mm_sha256rnds2_epu32 f STATE1 STATE0 MSG;;
  MSG <~ _mm_shuffle_epi32 x MSG 0x0E;;
  STATE0 <~ _mm_sha256rnds2_epu32 f STATE0 STATE1 MSG;;
  (* Rounds 4-7 *)
  TMSG1 <~ _mm_loadu_si128 x (drop 16 block);;
  TMSG1 <~ _mm_shuffle_epi8 x TMSG1 MASK;;
  MSG <~ _mm_add_epi32 x TMSG1 (_mm_set_epi64x x (s64 0xAB1C5ED5923F82A4) (s64 0x59F111F13956C25B));;
  STATE1 <~ _mm_sha256rnds2_epu32 f STATE1 STATE0 MSG;;
  MSG <~ _mm_shuffle_epi32 x MSG 0x0E;;
  STATE0 <~ _mm_sha256rnds2_epu32 f STATE0 STATE1 MSG;;
  TMSG0 <~ _mm_sha256msg1_epu32 f TMSG0 TMSG1;;
  (* Rounds 8-11 *)
  TMSG2 <~ _mm_loadu_si128 x (drop 32 block);;
  TMSG2 <~ _mm_shuffle_epi8 x TMSG2 MASK;;
  MSG <~ _mm_add_epi32 x TMSG2 (_mm_set_epi64x x (s64 0x550C7DC3243185BE) (s64 0x12835B01D807AA98));;
  STATE1 <~ _mm_sha256rnds2_epu32 f STATE1 STATE0 MSG;;
  MSG <~ _mm_shuffle_epi32 x MSG 0x0E;;
  STATE0 <~ _mm_sha256rnds2_epu32 f STATE0 STATE1 MSG;;
  TMSG1 <~ _mm_sha256msg1_epu32 f TMSG1 TMSG2;;
  (* Rounds 12-15 *)
  TMSG3 <~ _mm_loadu_si128 x (drop 48 block);;
  TMSG3 <~ _mm_shuffle_epi8 x TMSG3 MASK;;
  MSG <~ _mm_add_epi32 x TMSG3 (_mm_set_epi64x x (s64 0xC19BF1749BDC06A7) (s64 0x80DEB1FE72BE5D74));;
  STATE1 <~ _mm_sha256rnds2_epu32 f STATE1 STATE0 MSG;;
  TMP <~ _mm_alignr_epi8 x TMSG3 TMSG2 4;;
  TMSG0 <~ _mm_add_epi32 x TMSG0 TMP;;
  TMSG0 <~ _mm_sha256msg2_epu32 f TMSG0 TMSG3;;
  MSG <~ _mm_shuffle_epi32 x MSG 0x0E;;
  STATE0 <~ _mm_sha256rnds2_epu32 f STATE0 STATE1 MSG;;
  TMSG2 <~ _mm_sha256msg1_epu32 f TMSG2 TMSG3;;
  (* Rounds 16-19 *)
  MSG <~ _mm_add_epi32 x TMSG0 (_mm_set_epi64x x (s64 0x240CA1CC0FC19DC6) (s64 0xEFBE4786E49B69C1));;
  STATE1 <~ _mm_sha256rnds2_epu32 f STATE1 STATE0 MSG;;
  TMP <~ _mm_alignr_epi8 x TMSG0 TMSG3 4;;
  TMSG1 <~ _mm_add_epi32 x TMSG1 TMP;;
  TMSG1 <~ _mm_sha256msg2_epu32 f TMSG1 TMSG0;;
  MSG <~ _mm_shuffle_epi32 x MSG 0x0E;;
  STATE0 <~ _mm_sha256rnds2_epu32 f STATE0 STATE1 MSG;;
  TMSG3 <~ _mm_sha256msg1_epu32 f TMSG3 TMSG0;;
  (* Rounds 20-23 *)
  MSG <~ _mm_add_epi32 x TMSG1 (_mm_set_epi64x x (s64 0x76F988DA5CB0A9DC) (s64 0x4A7484AA2DE92C6F));;
  STATE1 <~ _mm_sha256rnds2_epu32 f STATE1 STATE0 MSG;;
  TMP <~ _mm_alignr_epi8 x TMSG1 TMSG0 4;;
  TMSG2 <~ _mm_add_epi32 x TMSG2 TMP;;
  TMSG2 <~ _mm_sha256msg2_epu32 f TMSG2 TMSG1;;
  MSG <~ _mm_shuffle_epi32 x MSG 0x0E;;
  STATE0 <~ _mm_sha256rnds2_epu32 f STATE0 STATE1 MSG;;
  TMSG0 <~ _mm_sha256msg1_epu32 f TMSG0 TMSG1;;
  (* Rounds 24-27 *)
  MSG <~ _mm_add_epi32 x TMSG2 (_mm_set_epi64x x (s64 0xBF597FC7B00327C8) (s64 0xA831C66D983E5152));;
  STATE1 <~ _mm_sha256rnds2_epu32 f STATE1 STATE0 MSG;;
  TMP <~ _mm_alignr_epi8 x TMSG2 TMSG1 4;;
  TMSG3 <~ _mm_add_epi32 x TMSG3 TMP;;
  TMSG3 <~ _mm_sha256msg2_epu32 f TMSG3 TMSG2;;
  MSG <~ _mm_shuffle_epi32 x MSG 0x0E;;
  STATE0 <~ _mm_sha256rnds2_epu32 f STATE0 STATE1 MSG;;
  TMSG1 <~ _mm_sha256msg1_epu32 f TMSG1 TMSG2;;
  (* Rounds 28-31 *)
  MSG <~ _mm_add_epi32 x TMSG3 (_mm_set_epi64x x (s64 0x1429296706CA6351) (s64 0xD5A79147C6E00BF3));;
  STATE1 <~ _mm_sha256rnds2_epu32 f STATE1 STATE0 MSG;;
  TMP <~ _mm_alignr_epi8 x TMSG3 TMSG2 4;;
  TMSG0 <~ _mm_add_epi32 x TMSG0 TMP;;
  TMSG0 <~ _mm_sha256msg2_epu32 f TMSG0 TMSG3;;
  MSG <~ _mm_shuffle_epi32 x MSG 0x0E;;
  STATE0 <~ _mm_sha256rnds2_epu32 f STATE0 STATE1 MSG;;
  TMSG2 <~ _mm_sha256msg1_epu32 f TMSG2 TMSG3;;
  Ni STATE0 STATE1 TMSG0 TMSG1 TMSG2 TMSG3.

Definition sha_ni_rounds_32_63 (x : sse) (f : x86_sha) (r : ni_regs) : v4 * v4 :=
  let '(Ni STATE0 STATE1 TMSG0 TMSG1 TMSG2 TMSG3) := r in
  (* Rounds 32-35 *)
  MSG <~ _mm_add_epi32 x TMSG0 (_mm_set_epi64x x (s64 0x53380D134D2C6DFC) (s64 0x2E1B213827B70A85));;
  STATE1 <~ _mm_sha256rnds2_epu32 f STATE1 STATE0 MSG;;
  TMP <~ _mm_alignr_epi8 x TMSG0 TMSG3 4;;
  TMSG1 <~ _mm_add_epi32 x TMSG1 TMP;;
  TMSG1 <~ _mm_sha256msg2_epu32 f TMSG1 TMSG0;;
  MSG <~ _mm_shuffle_epi32 x MSG 0x0E;;
  STATE0 <~ _mm_sha256rnds2_epu32 f STATE0 STATE1 MSG;;
  TMSG3 <~ _mm_sha256msg1_epu32 f TMSG3 TMSG0;;
  (* Rounds 36-39 *)
  MSG <~ _mm_add_epi32 x TMSG1 (_mm_set_epi64x x (s64 0x92722C8581C2C92E) (s64 0x766A0ABB650A7354));;
  STATE1 <~ _mm_sha256rnds2_epu32 f STATE1 STATE0 MSG;;
  TMP <~ _mm_alignr_epi8 x TMSG1 TMSG0 4;;
  TMSG2 <~ _mm_add_epi32 x TMSG2 TMP;;
  TMSG2 <~ _mm_sha256msg2_epu32 f TMSG2 TMSG1;;
  MSG <~ _mm_shuffle_epi32 x MSG 0x0E;;
  STATE0 <~ _mm_sha256rnds2_epu32 f STATE0 STATE1 MSG;;
  TMSG0 <~ _mm_sha256msg1_epu32 f TMSG0 TMSG1;;
  (* Rounds 40-43 *)
  MSG <~ _mm_add_epi32 x TMSG2 (_mm_set_epi64x x (s64 0xC76C51A3C24B8B70) (s64 0xA81A664BA2BFE8A1));;
  STATE1 <~ _mm_sha256rnds2_epu32 f STATE1 STATE0 MSG;;
  TMP <~ _mm_alignr_epi8 x TMSG2 TMSG1 4;;
  TMSG3 <~ _mm_add_epi32 x TMSG3 TMP;;
  TMSG3 <~ _mm_sha256msg2_epu32 f TMSG3 TMSG2;;
  MSG <~ _mm_shuffle_epi32 x MSG 0x0E;;
  STATE0 <~ _mm_sha256rnds2_epu32 f STATE0 STATE1 MSG;;
  TMSG1 <~ _mm_sha256msg1_epu32 f TMSG1 TMSG2;;
  (* Rounds 44-47 *)
  MSG <~ _mm_add_epi32 x TMSG3 (_mm_set_epi64x x (s64 0x106AA070F40E3585) (s64 0xD6990624D192E819));;
  STATE1 <~ _mm_sha256rnds2_epu32 f STATE1 STATE0 MSG;;
  TMP <~ _mm_alignr_epi8 x TMSG3 TMSG2 4;;
  TMSG0 <~ _mm_add_epi32 x TMSG0 TMP;;
  TMSG0 <~ _mm_sha256msg2_epu32 f TMSG0 TMSG3;;
  MSG <~ _mm_shuffle_epi32 x MSG 0x0E;;
  STATE0 <~ _mm_sha256rnds2_epu32 f STATE0 STATE1 MSG;;
  TMSG2 <~ _mm_sha256msg1_epu32 f TMSG2 TMSG3;;
  (* Rounds 48-51 *)
  MSG <~ _mm_add_epi32 x TMSG0 (_mm_set_epi64x x (s64 0x34B0BCB52748774C) (s64 0x1E376C0819A4C116));;
  STATE1 <~ _mm_sha256rnds2_epu32 f STATE1 STATE0 MSG;;
  TMP <~ _mm_alignr_epi8 x TMSG0 TMSG3 4;;
  TMSG1 <~ _mm_add_epi32 x TMSG1 TMP;;
  TMSG1 <~ _mm_sha256msg2_epu32 f TMSG1 TMSG0;;
  MSG <~ _mm_shuffle_epi32 x MSG 0x0E;;
  STATE0 <~ _mm_sha256rnds2_epu32 f STATE0 STATE1 MSG;;
  TMSG3 <~ _mm_sha256msg1_epu32 f TMSG3 TMSG0;;
  (* Rounds 52-55 *)
  MSG <~ _mm_add_epi32 x TMSG1 (_mm_set_epi64x x (s64 0x682E6FF35B9CCA4F) (s64 0x4ED8AA4A391C0CB3));;
  STATE1 <~ _mm_sha256rnds2_epu32 f STATE1 STATE0 MSG;;
  TMP <~ _mm_alignr_epi8 x TMSG1 TMSG0 4;;
  TMSG2 <~ _mm_add_epi32 x TMSG2 TMP;;
  TMSG2 <~ _mm_sha256msg2_epu32 f TMSG2 TMSG1;;
  MSG <~ _mm_shuffle_epi32 x MSG 0x0E;;
  STATE0 <~ _mm_sha256rnds2_epu32 f STATE0 STATE1 MSG;;
  (* Rounds 56-59 *)
  MSG <~ _mm_add_epi32 x TMSG2 (_mm_set_epi64x x (s64 0x8CC7020884C87814) (s64 0x78A5636F748F82EE));;
  STATE1 <~ _mm_sha256rnds2_epu32 f STATE1 STATE0 MSG;;
  TMP <~ _mm_alignr_epi8 x TMSG2 TMSG1 4;;
  TMSG3 <~ _mm_add_epi32 x TMSG3 TMP;;
  TMSG3 <~ _mm_sha256msg2_epu32 f TMSG3 TMSG2;;
  MSG <~ _mm_shuffle_epi32 x MSG 0x0E;;
  STATE0 <~ _mm_sha256rnds2_epu32 f STATE0 STATE1 MSG;;
  (* Rounds 60-63 *)
  MSG <~ _mm_add_epi32 x TMSG3 (_mm_set_epi64x x (s64 0xC67178F2BEF9A3F7) (s64 0xA4506CEB90BEFFFA));;
  STATE1 <~ _mm_sha256rnds2_epu32 f STATE1 STATE0 MSG;;
  MSG <~ _mm_shuffle_epi32 x MSG 0x0E;;
  STATE0 <~ _mm_sha256rnds2_epu32 f STATE0 STATE1 MSG;;
  (STATE0, STATE1).

Definition process_block_sha_ni (x : sse) (f : x86_sha) (block : list byte) (state : regs) : regs :=
  MASK <~ _mm_set_epi64x x (s64 0x0c0d0e0f08090a0b) (s64 0x0405060700010203);;
  TMP <~ _mm_loadu_si128 x (u32_object (take 4 (words state)));;
  STATE1 <~ _mm_loadu_si128 x (u32_object (drop 4 (words state)));;
  TMP <~ _mm_shuffle_epi32 x TMP 0xB1;;
  STATE1 <~ _mm_shuffle_epi32 x STATE1 0x1B;;
  STATE0 <~ _mm_alignr_epi8 x TMP STATE1 8;;
  STATE1 <~ _mm_blend_epi16 x STATE1 TMP 0xF0;;
  ABEF_SAVE <~ STATE0;;
  CDGH_SAVE <~ STATE1;;
  let '(STATE0, STATE1) := sha_ni_rounds_32_63 x f (sha_ni_rounds_0_31 x f MASK block STATE0 STATE1) in
  STATE0 <~ _mm_add_epi32 x STATE0 ABEF_SAVE;;
  STATE1 <~ _mm_add_epi32 x STATE1 CDGH_SAVE;;
  TMP <~ _mm_shuffle_epi32 x STATE0 0x1B;;
  STATE1 <~ _mm_shuffle_epi32 x STATE1 0xB1;;
  STATE0 <~ _mm_blend_epi16 x TMP STATE1 0xF0;;
  STATE1 <~ _mm_alignr_epi8 x STATE1 TMP 8;;
  lo <~ _mm_storeu_si128 x STATE0;;
  hi <~ _mm_storeu_si128 x STATE1;;
  Regs (u32_at lo 0) (u32_at lo 1) (u32_at lo 2) (u32_at lo 3) (u32_at hi 0) (u32_at hi 1) (u32_at hi 2) (u32_at hi 3).

(** The platform a build is for, with its instructions. *)
Inductive platform :=
| Portable
| Arm64 (n : neon) (f : arm_sha256_insns)
| X86 (x : sse) (f : x86_sha).

Definition process_block (p : platform) (c : cpu) (block : list byte) (state : regs) : regs :=
  match p with
  | Arm64 n f => if use_arm_sha2 c then process_block_arm n f block state else process_block_sw block state
  | X86 x f => if use_sha_ni c then process_block_sha_ni x f block state else process_block_sw block state
  | Portable => process_block_sw block state
  end.

(** The members of [sha256_context]. *)
Definition sha256_reset : @context regs -> @context regs := Sha.reset initial.
Definition sha256_update (p : platform) (c : cpu) : list byte -> @context regs -> @context regs := Sha.update (process_block p c).
Definition sha256_finalize (p : platform) (c : cpu) : @context regs -> list byte * @context regs := Sha.finalize (process_block p c) words.

(** [ctx] is the context before its constructor's [reset]. *)
Definition sha256 (p : platform) (c : cpu) (ctx : context) (data : list byte) : list byte :=
  (sha256_finalize p c (sha256_update p c data (sha256_reset ctx))).1.
Definition sha256_hex (p : platform) (c : cpu) (ctx : context) (data : list byte) : list byte := to_hex (sha256 p c ctx data).

(** ** Reference: FIPS 180-4, 4.1.2, 4.2.2, 5.3.3 and 6.2 *)

Definition Ch (x y z : Z) : Z := Z.lxor (Z.land x y) (Z.land (not32 x) z).
Definition Maj (x y z : Z) : Z := Z.lxor (Z.lxor (Z.land x y) (Z.land x z)) (Z.land y z).
Definition Sigma0 (x : Z) : Z := Z.lxor (Z.lxor (rotr x 2) (rotr x 13)) (rotr x 22).
Definition Sigma1 (x : Z) : Z := Z.lxor (Z.lxor (rotr x 6) (rotr x 11)) (rotr x 25).
Definition s0 (x : Z) : Z := Z.lxor (Z.lxor (rotr x 7) (rotr x 18)) (Z.shiftr x 3).
Definition s1 (x : Z) : Z := Z.lxor (Z.lxor (rotr x 17) (rotr x 19)) (Z.shiftr x 10).

(** The constants: the first 32 bits of the fractional parts of the cube roots of the first 64
    primes, and of the square roots of the first eight for the initial state. *)
Definition is_prime (n : Z) : bool := forallb (fun d => negb (n mod d =? 0)) (seqZ 2 (n - 2)).
Definition primes : list Z := firstn 64 (filter (fun n => is_prime n = true) (seqZ 2 310)).
Definition cube_root (n : Z) : Z :=
  fold_left (fun x b => let y := x + 2 ^ b in if y * y * y <=? n then y else x) (rev (seqZ 0 40)) 0.

Definition fips_K : list Z := map (fun p => cube_root (p * 2 ^ 96) mod 2 ^ 32) primes.
Definition fips_initial : regs :=
  let h i := Z.sqrt (nth i primes 0 * 2 ^ 64) mod 2 ^ 32 in Regs (h 0%nat) (h 1%nat) (h 2%nat) (h 3%nat) (h 4%nat) (h 5%nat) (h 6%nat) (h 7%nat).

Lemma cube_root_primes : Forall (fun p => let n := p * 2 ^ 96 in let x := cube_root n in x ^ 3 <= n < (x + 1) ^ 3) primes.
Proof. apply (Forall_impl (fun p => (let n := p * 2 ^ 96 in let x := cube_root n in (x ^ 3 <=? n) && (n <? (x + 1) ^ 3)) = true)).
  - apply List.Forall_forall. apply forallb_forall. vm_compute. reflexivity.
  - intros p [H1 H2]%andb_prop. split; [by apply Z.leb_le|by apply Z.ltb_lt].
Qed.

Lemma fips_K_table : fips_K = sha256_k.
Proof. vm_compute. reflexivity. Qed.

Lemma fips_initial_table : fips_initial = initial.
Proof. vm_compute. reflexivity. Qed.

Definition fips_round (k w : Z) (r : regs) : regs :=
  let T1 := rh r ⊞ Sigma1 (re r) ⊞ Ch (re r) (rf r) (rg r) ⊞ k ⊞ w in
  let T2 := Sigma0 (ra r) ⊞ Maj (ra r) (rb r) (rc r) in
  Regs (T1 ⊞ T2) (ra r) (rb r) (rc r) (rd r ⊞ T1) (re r) (rf r) (rg r).

(** A round in terms of the code's functions. *)
Lemma fips_round_code k w r : fips_round k w r =
  let T1 := rh r ⊞ sigma1 (re r) ⊞ ch (re r) (rf r) (rg r) ⊞ k ⊞ w in
  let T2 := sigma0 (ra r) ⊞ maj (ra r) (rb r) (rc r) in
  Regs (T1 ⊞ T2) (ra r) (rb r) (rc r) (rd r ⊞ T1) (re r) (rf r) (rg r).
Proof. reflexivity. Qed.

Section Reference.
Context (block : list byte).

Definition next_word (w : list Z) : Z := s1 (nth 14 w 0) ⊞ nth 9 w 0 ⊞ s0 (nth 1 w 0) ⊞ nth 0 w 0.

(** The words of the message schedule. *)
Definition W : nat -> Z := schedule next_word block.

Fixpoint fips_rounds (state : regs) (t : nat) : regs :=
  match t with
  | O => state
  | S t => fips_round (nth t fips_K 0) (W t) (fips_rounds state t)
  end.

Definition compress (state : regs) : regs := add_regs state (fips_rounds state 64).

(** The same with the code's table. *)
Definition K (t : nat) : Z := nth t sha256_k 0.

Fixpoint rounds (state : regs) (t : nat) : regs :=
  match t with
  | O => state
  | S t => fips_round (K t) (W t) (rounds state t)
  end.

Lemma fips_rounds_code state t : fips_rounds state t = rounds state t.
Proof. induction t as [|t IH]; [done|]. cbn [fips_rounds rounds]. rewrite IH. unfold K. by rewrite fips_K_table. Qed.

Lemma compress_code state : compress state = add_regs state (rounds state 64).
Proof. unfold compress. by rewrite fips_rounds_code. Qed.

(** ** The schedule *)

Lemma W_first t : (t < 16)%nat -> W t = load_be32 (drop (t * 4) block).
Proof. apply schedule_first. Qed.

Lemma W_next t : W (t + 16) = s1 (W (t + 14)) ⊞ W (t + 9) ⊞ s0 (W (t + 1)) ⊞ W t.
Proof. unfold W. rewrite schedule_next. unfold next_word. rewrite !nth_window by lia. by rewrite Nat.add_0_r. Qed.

Lemma word_W t : word (W t).
Proof.
  destruct (decide (t < 16)%nat); [rewrite W_first by done; apply word_load_be32|].
  replace t with (t - 16 + 16)%nat by lia. rewrite W_next. apply word_add32.
Qed.

(** ** Software *)

Lemma schedule_sw n : fold_left SHA256_SCHEDULE (seq 16 n) (map (fun i => load_be32 (drop (i * 4) block)) (seq 0 16)) =
  map W (seq 0 (16 + n)).
Proof.
  apply schedule_array. intros k Hk. unfold SHA256_SCHEDULE. do 2 f_equal. rewrite !nth_map_seq by lia. fold W. rewrite W_next.
  replace (16 + k - 15)%nat with (k + 1)%nat by lia. replace (16 + k - 2)%nat with (k + 14)%nat by lia.
  replace (16 + k - 16)%nat with k by lia. replace (16 + k - 7)%nat with (k + 9)%nat by lia.
  fold (s0 (W (k + 1))) (s1 (W (k + 14))). sums.
Qed.

Lemma rounds_sw (w : list Z) state n : (forall i, (i < n)%nat -> nth i w 0 = W i) ->
  fold_left (fun r i => SHA256_ROUND (nth i sha256_k 0) (nth i w 0) r) (seq 0 n) state = rounds state n.
Proof.
  induction n as [|n IH]; intros Hw; [done|]. rewrite seq_S, fold_left_app, IH by auto. cbn [fold_left rounds].
  rewrite Nat.add_0_l, Hw by lia. by destruct (rounds state n).
Qed.

Lemma process_block_sw_ok state : process_block_sw block state = compress state.
Proof.
  rewrite compress_code. unfold process_block_sw. cbv zeta. rewrite schedule_sw. f_equal. apply rounds_sw.
  intros i Hi. by apply nth_map_seq.
Qed.

(** ** The registers of the hardware paths *)

Definition regs_word (r : regs) : Prop := Forall word (words r).

Definition msg (t : nat) : v4 := V4 (W t) (W (t + 1)) (W (t + 2)) (W (t + 3)).
Definition wk (t : nat) : v4 := V4 (W t ⊞ K t) (W (t + 1) ⊞ K (t + 1)) (W (t + 2) ⊞ K (t + 2)) (W (t + 3) ⊞ K (t + 3)).
Definition part (t : nat) : v4 :=
  V4 (W t ⊞ s0 (W (t + 1))) (W (t + 1) ⊞ s0 (W (t + 2))) (W (t + 2) ⊞ s0 (W (t + 3))) (W (t + 3) ⊞ s0 (W (t + 4))).
Definition abcd (r : regs) : v4 := V4 (ra r) (rb r) (rc r) (rd r).
Definition efgh (r : regs) : v4 := V4 (re r) (rf r) (rg r) (rh r).

Lemma word_K t : word (K t).
Proof.
  unfold K. assert (Forall word sha256_k) as Hk by (repeat (apply Forall_cons_2; [by split|]); apply Forall_nil_2).
  destruct (decide (t < length sha256_k)%nat); [|rewrite nth_overflow by lia; by split].
  rewrite Forall_forall in Hk. apply Hk. apply list_elem_of_In. by apply nth_In.
Qed.

Lemma vword_msg t : vword (msg t).
Proof. apply vword_V4; apply word_W. Qed.

Lemma vword_wk t : vword (wk t).
Proof. apply vword_V4; apply word_add32. Qed.

Lemma vword_part t : vword (part t).
Proof. apply vword_V4; apply word_add32. Qed.

Lemma regs_word_spec r : regs_word r -> word (ra r) /\ word (rb r) /\ word (rc r) /\ word (rd r) /\
  word (re r) /\ word (rf r) /\ word (rg r) /\ word (rh r).
Proof. unfold regs_word, words. rewrite !Forall_cons. tauto. Qed.

Lemma rounds_word state t : regs_word state -> regs_word (rounds state t).
Proof.
  intros Hs. induction t as [|t IH]; [done|]. apply regs_word_spec in IH as (? & ? & ? & ? & ? & ? & ? & ?).
  cbn [rounds]. unfold fips_round, regs_word, words. cbn [ra rb rc rd re rf rg rh].
  repeat (apply Forall_cons_2; [solve [done | apply word_add32]|]). apply Forall_nil_2.
Qed.

Lemma vword_abcd r : regs_word r -> vword (abcd r).
Proof. intros (? & ? & ? & ? & ? & ? & ? & ?)%regs_word_spec. by apply vword_V4. Qed.

Lemma vword_efgh r : regs_word r -> vword (efgh r).
Proof. intros (? & ? & ? & ? & ? & ? & ? & ?)%regs_word_spec. by apply vword_V4. Qed.

Lemma compress_word state : regs_word (compress state).
Proof.
  rewrite compress_code. generalize (rounds state 64). intros r. unfold add_regs, regs_word, words. cbn [ra rb rc rd re rf rg rh].
  repeat (apply Forall_cons_2; [apply word_add32|]). apply Forall_nil_2.
Qed.

#[local] Hint Resolve word_W word_K vword_msg vword_wk vword_part rounds_word vword_abcd vword_efgh : sha.

Lemma drop_k t : (t <= 60)%nat -> exists l, drop t sha256_k = K t :: K (t + 1) :: K (t + 2) :: K (t + 3) :: l.
Proof.
  intros Ht. exists (drop (t + 4) sha256_k). do 61 (destruct t as [|t]; [reflexivity|]). lia.
Qed.

End Reference.

#[local] Hint Resolve word_W word_K vword_msg vword_wk vword_part rounds_word vword_abcd vword_efgh : sha.

(** ** Armv8 *)

(** The manual's pseudocode. *)
Definition SHAchoose (x y z : Z) : Z := Z.lxor (Z.land (Z.lxor y z) x) z.
Definition SHAmajority (x y z : Z) : Z := Z.lor (Z.land x y) (Z.land (Z.lor x y) z).

(** One iteration of [SHA256hash]; the two operands are rotated as one 256-bit value. *)
Definition SHA256hash1 (w : Z) (XY : v4 * v4) : v4 * v4 :=
  let '(X, Y) := XY in
  let t := lane3 Y ⊞ sigma1 (lane0 Y) ⊞ SHAchoose (lane0 Y) (lane1 Y) (lane2 Y) ⊞ w in
  let X3 := t ⊞ lane3 X in
  let Y3 := t ⊞ sigma0 (lane0 X) ⊞ SHAmajority (lane0 X) (lane1 X) (lane2 X) in
  (V4 Y3 (lane0 X) (lane1 X) (lane2 X), V4 X3 (lane0 Y) (lane1 Y) (lane2 Y)).

Definition SHA256hash (X Y W : v4) : v4 * v4 :=
  SHA256hash1 (lane3 W) (SHA256hash1 (lane2 W) (SHA256hash1 (lane1 W) (SHA256hash1 (lane0 W) (X, Y)))).

Definition SHA256SU0 (a b : v4) : v4 :=
  V4 (s0 (lane1 a) ⊞ lane0 a) (s0 (lane2 a) ⊞ lane1 a) (s0 (lane3 a) ⊞ lane2 a) (s0 (lane0 b) ⊞ lane3 a).

Definition SHA256SU1 (a b c : v4) : v4 :=
  let r0 := s1 (lane2 c) ⊞ lane0 a ⊞ lane1 b in
  let r1 := s1 (lane3 c) ⊞ lane1 a ⊞ lane2 b in
  V4 r0 r1 (s1 r0 ⊞ lane2 a ⊞ lane3 b) (s1 r1 ⊞ lane3 a ⊞ lane0 c).

Record arm_sha2_ok (f : arm_sha256_insns) : Prop := {
  a_su0 a b : vword a -> vword b -> vsha256su0q_u32 f a b = SHA256SU0 a b;
  a_su1 a b c : vword a -> vword b -> vword c -> vsha256su1q_u32 f a b c = SHA256SU1 a b c;
  a_h abcd efgh wk : vword abcd -> vword efgh -> vword wk -> vsha256hq_u32 f abcd efgh wk = (SHA256hash abcd efgh wk).1;
  a_h2 efgh abcd wk : vword abcd -> vword efgh -> vword wk -> vsha256h2q_u32 f efgh abcd wk = (SHA256hash abcd efgh wk).2
}.

Definition arm_manual : arm_sha256_insns := {|
  vsha256su0q_u32 := SHA256SU0;
  vsha256su1q_u32 := SHA256SU1;
  vsha256hq_u32 abcd efgh wk := (SHA256hash abcd efgh wk).1;
  vsha256h2q_u32 efgh abcd wk := (SHA256hash abcd efgh wk).2
|}.

Lemma choose_ch e f g : word e -> word f -> word g -> SHAchoose e f g = ch e f g.
Proof. intros. unfold SHAchoose, ch. bitwise. Qed.

Lemma majority_maj a b c : SHAmajority a b c = maj a b c.
Proof.
  apply Z.bits_inj'. intros i Hi. unfold SHAmajority, maj. rewrite !Z.lor_spec, !Z.land_spec, !Z.lxor_spec, !Z.land_spec, !Z.lor_spec.
  by destruct (Z.testbit a i), (Z.testbit b i), (Z.testbit c i).
Qed.

Lemma hash1_round k w r : regs_word r ->
  SHA256hash1 (w ⊞ k) (abcd r, efgh r) = (abcd (fips_round k w r), efgh (fips_round k w r)).
Proof.
  intros (? & ? & ? & ? & ? & ? & ? & ?)%regs_word_spec. destruct r as [a b c d e f g h]. cbn [ra rb rc rd re rf rg rh] in *.
  rewrite fips_round_code. unfold SHA256hash1, abcd, efgh. cbn [lane0 lane1 lane2 lane3 ra rb rc rd re rf rg rh].
  rewrite choose_ch, majority_maj by done. f_equal; f_equal; sums.
Qed.

Lemma hash_round1 block state t : regs_word state -> let R := rounds block state in
  SHA256hash1 (W block t ⊞ K t) (abcd (R t), efgh (R t)) = (abcd (R (S t)), efgh (R (S t))).
Proof. intros Hs R. apply hash1_round. by apply rounds_word. Qed.

Lemma hash_rounds block state t : regs_word state -> let R := rounds block state in
  SHA256hash (abcd (R t)) (efgh (R t)) (wk block t) = (abcd (R (t + 4)%nat), efgh (R (t + 4)%nat)).
Proof.
  intros Hs R. unfold SHA256hash, wk. cbn [lane0 lane1 lane2 lane3]. rewrite !(Nat.add_comm t). cbn [Nat.add].
  subst R. by rewrite !hash_round1.
Qed.

Section Arm.
Context (n : neon) (f : arm_sha256_insns) (Hn : neon_ok n) (Hf : arm_sha2_ok f) (block : list byte) (state : regs).
Context (Hb : length block = 64%nat) (Hs : regs_word state).

Notation R := (rounds block state).

Lemma arm_h t : vsha256hq_u32 f (abcd (R t)) (efgh (R t)) (wk block t) = abcd (R (t + 4)).
Proof. rewrite a_h by auto with sha. by rewrite hash_rounds. Qed.

Lemma arm_h2 t : vsha256h2q_u32 f (efgh (R t)) (abcd (R t)) (wk block t) = efgh (R (t + 4)).
Proof. rewrite a_h2 by auto with sha. by rewrite hash_rounds. Qed.

Lemma arm_su0 t : vsha256su0q_u32 f (msg block t) (msg block (t + 4)) = part block t.
Proof.
  rewrite a_su0 by auto with sha. unfold SHA256SU0, msg, part. cbn [lane0 lane1 lane2 lane3].
  f_equal; sums.
Qed.

Lemma schedule_step t : msg block (t + 16) =
  let r0 := s1 (W block (t + 14)) ⊞ W block (t + 9) ⊞ s0 (W block (t + 1)) ⊞ W block t in
  let r1 := s1 (W block (t + 15)) ⊞ W block (t + 10) ⊞ s0 (W block (t + 2)) ⊞ W block (t + 1) in
  V4 r0 r1 (s1 r0 ⊞ W block (t + 11) ⊞ s0 (W block (t + 3)) ⊞ W block (t + 2))
           (s1 r1 ⊞ W block (t + 12) ⊞ s0 (W block (t + 4)) ⊞ W block (t + 3)).
Proof.
  cbv zeta. unfold msg. rewrite W_next. f_equal.
  - replace (t + 16 + 1)%nat with ((t + 1) + 16)%nat by lia. rewrite W_next. do 2 f_equal; rewrite <-!Nat.add_assoc; reflexivity.
  - replace (t + 16 + 2)%nat with ((t + 2) + 16)%nat by lia. rewrite W_next. rewrite <-!Nat.add_assoc. cbn [Nat.add]. by rewrite W_next.
  - replace (t + 16 + 3)%nat with ((t + 3) + 16)%nat by lia. rewrite W_next.
    replace (t + 3 + 14)%nat with ((t + 1) + 16)%nat by lia. rewrite W_next. rewrite <-!Nat.add_assoc. done.
Qed.

Lemma arm_su1 t : vsha256su1q_u32 f (part block t) (msg block (t + 8)) (msg block (t + 12)) = msg block (t + 16).
Proof.
  rewrite a_su1, schedule_step by auto with sha. unfold SHA256SU1, msg, part. cbn [lane0 lane1 lane2 lane3].
  rewrite <-!Nat.add_assoc. cbn [Nat.add].
  assert (forall a b c d, s1 a ⊞ (b ⊞ c) ⊞ d = s1 a ⊞ d ⊞ c ⊞ b) as E by (intros; sums). by rewrite !E.
Qed.

Lemma arm_add_k t : (t <= 60)%nat -> vaddq_u32 n (msg block t) (vld1q_u32 n (drop t sha256_k)) = wk block t.
Proof.
  intros Ht. destruct (drop_k t Ht) as [l ->]. rewrite n_vld1q_u32 by auto with sha.
  by rewrite n_vaddq_u32 by (auto with sha || (apply vword_V4; auto with sha)).
Qed.

Lemma arm_load t k : (t <= 12)%nat -> k = (t * 4)%nat ->
  vreinterpretq_u32_u8 n (vrev32q_u8 n (vld1q_u8 n (drop k block))) = msg block t.
Proof.
  intros Ht ->. rewrite neon_load by (done || lia). unfold msg. rewrite !W_first by lia.
  by replace ((t + 1) * 4)%nat with (t * 4 + 4)%nat by lia; replace ((t + 2) * 4)%nat with (t * 4 + 8)%nat by lia;
    replace ((t + 3) * 4)%nat with (t * 4 + 12)%nat by lia.
Qed.

Lemma arm_load0 : vreinterpretq_u32_u8 n (vrev32q_u8 n (vld1q_u8 n block)) = msg block 0.
Proof. by apply (arm_load 0 0); [lia|]. Qed.

Lemma arm_state : vld1q_u32 n (words state) = abcd (R 0) /\ vld1q_u32 n (drop 4 (words state)) = efgh (R 0).
Proof. pose proof (regs_word_spec state Hs) as (? & ? & ? & ? & ? & ? & ? & ?). split; by apply n_vld1q_u32. Qed.

(** The value of the next assignment. *)
Ltac arm_value :=
  first [ apply arm_h | apply arm_h2 | apply arm_su0 | apply arm_su1 | apply arm_add_k; lia
        | apply (proj1 arm_state) | apply (proj2 arm_state) | apply arm_load0 | apply (arm_load 4); [lia|reflexivity]
        | apply (arm_load 8); [lia|reflexivity] | apply (arm_load 12); [lia|reflexivity]
        | lazymatch goal with |- abcd _ = _ => reflexivity | |- efgh _ = _ => reflexivity end ].

Lemma process_block_arm_ok : process_block_arm n f block state = compress block state.
Proof.
  unfold process_block_arm. repeat step ltac:(arm_value). rewrite compress_code. change (60 + 4)%nat with 64%nat.
  pose proof (rounds_word block state 64 Hs) as Hr. change (R 0) with state. revert Hr. generalize (R 64). intros r Hr.
  do 2 step ltac:(apply n_vaddq_u32; auto with sha).
  rewrite !n_vst1q_u32 by (done || (apply vword_V4; apply word_add32)). unfold add_regs.
  cbn [lane0 lane1 lane2 lane3 vadd abcd efgh]. f_equal; sums.
Qed.

End Arm.

(** ** SHA-NI *)

Definition ni_round (wk : Z) (r : regs) : regs :=
  let t := ch (re r) (rf r) (rg r) ⊞ sigma1 (re r) ⊞ wk ⊞ rh r in
  Regs (t ⊞ maj (ra r) (rb r) (rc r) ⊞ sigma0 (ra r)) (ra r) (rb r) (rc r) (t ⊞ rd r) (re r) (rf r) (rg r).

(** The manual's operations; the first operand of [SHA256RNDS2] holds C, D, G, H and the second
    A, B, E, F, from the high lane down. *)
Definition SHA256RNDS2 (cdgh abef wk : v4) : v4 :=
  let r := Regs (lane3 abef) (lane2 abef) (lane3 cdgh) (lane2 cdgh) (lane1 abef) (lane0 abef) (lane1 cdgh) (lane0 cdgh) in
  let r := ni_round (lane1 wk) (ni_round (lane0 wk) r) in
  V4 (rf r) (re r) (rb r) (ra r).

Definition SHA256MSG1 (a b : v4) : v4 :=
  V4 (lane0 a ⊞ s0 (lane1 a)) (lane1 a ⊞ s0 (lane2 a)) (lane2 a ⊞ s0 (lane3 a)) (lane3 a ⊞ s0 (lane0 b)).

Definition SHA256MSG2 (a b : v4) : v4 :=
  let w16 := lane0 a ⊞ s1 (lane2 b) in
  let w17 := lane1 a ⊞ s1 (lane3 b) in
  V4 w16 w17 (lane2 a ⊞ s1 w16) (lane3 a ⊞ s1 w17).

Record x86_sha_ok (f : x86_sha) : Prop := {
  i_rnds2 a b k : vword a -> vword b -> vword k -> _mm_sha256rnds2_epu32 f a b k = SHA256RNDS2 a b k;
  i_msg1 a b : vword a -> vword b -> _mm_sha256msg1_epu32 f a b = SHA256MSG1 a b;
  i_msg2 a b : vword a -> vword b -> _mm_sha256msg2_epu32 f a b = SHA256MSG2 a b
}.

Definition x86_manual : x86_sha := {|
  _mm_sha256rnds2_epu32 := SHA256RNDS2; _mm_sha256msg1_epu32 := SHA256MSG1; _mm_sha256msg2_epu32 := SHA256MSG2
|}.

Lemma ni_round_fips k w r : ni_round (w ⊞ k) r = fips_round k w r.
Proof.
  rewrite fips_round_code. unfold ni_round. f_equal; sums.
Qed.

Definition abef (r : regs) : v4 := V4 (rf r) (re r) (rb r) (ra r).
Definition cdgh (r : regs) : v4 := V4 (rh r) (rg r) (rd r) (rc r).

Lemma vword_abef r : regs_word r -> vword (abef r).
Proof. intros (? & ? & ? & ? & ? & ? & ? & ?)%regs_word_spec. by apply vword_V4. Qed.

Lemma vword_cdgh r : regs_word r -> vword (cdgh r).
Proof. intros (? & ? & ? & ? & ? & ? & ? & ?)%regs_word_spec. by apply vword_V4. Qed.

#[local] Hint Resolve vword_abef vword_cdgh : sha.

Section Ni.
Context (x : sse) (f : x86_sha) (Hx : sse_ok x) (Hf : x86_sha_ok f) (block : list byte) (state : regs).
Context (Hb : length block = 64%nat) (Hs : regs_word state).

Notation R := (rounds block state).

(** [wk t] with its halves exchanged, as [_mm_shuffle_epi32(MSG, 0x0E)] leaves it. *)
Definition wkhi (t : nat) : v4 := V4 (lane2 (wk block t)) (lane3 (wk block t)) (lane0 (wk block t)) (lane0 (wk block t)).
Definition part2 (t : nat) : v4 := vadd (part block t) (msg block (t + 9)).

Lemma vword_wkhi t : vword (wkhi t).
Proof. apply vword_V4; apply word_add32. Qed.

Lemma vword_part2 t : vword (part2 t).
Proof. apply vword_V4; apply word_add32. Qed.

Lemma ni_two t k : vword k -> lane0 k = W block t ⊞ K t -> lane1 k = W block (S t) ⊞ K (S t) ->
  _mm_sha256rnds2_epu32 f (cdgh (R t)) (abef (R t)) k = abef (R (S (S t))).
Proof.
  intros Hk H0 H1. rewrite i_rnds2 by auto with sha. unfold SHA256RNDS2. cbn [lane0 lane1 lane2 lane3 abef cdgh].
  rewrite H0, H1, !ni_round_fips. cbn [rounds]. by destruct (R t).
Qed.

Lemma ni_first : _mm_sha256rnds2_epu32 f (cdgh (R 0)) (abef (R 0)) (wk block 0) = abef (R 2).
Proof. by apply (ni_two 0); [apply vword_wk|..]. Qed.

Lemma ni_lo u : _mm_sha256rnds2_epu32 f (abef (R u)) (abef (R (u + 2))) (wk block (u + 2)) = abef (R (u + 4)).
Proof.
  rewrite (Nat.add_comm u 2), (Nat.add_comm u 4). change (abef (R u)) with (cdgh (R (2 + u))).
  apply ni_two; [apply vword_wk|done|]. unfold wk. cbn [lane1]. by rewrite Nat.add_1_r.
Qed.

Lemma ni_hi u : _mm_sha256rnds2_epu32 f (abef (R u)) (abef (R (u + 2))) (wkhi u) = abef (R (u + 4)).
Proof.
  rewrite (Nat.add_comm u 2), (Nat.add_comm u 4). change (abef (R u)) with (cdgh (R (2 + u))).
  apply ni_two; [apply vword_wkhi|unfold wkhi, wk; cbn [lane0 lane1 lane2 lane3]; by rewrite (Nat.add_comm u)..].
Qed.

Lemma ni_shuffle t : _mm_shuffle_epi32 x (wk block t) 0x0E = wkhi t.
Proof. rewrite x_shuffle_epi32 by (done || lia || auto with sha). done. Qed.

Lemma ni_msg1 t : _mm_sha256msg1_epu32 f (msg block t) (msg block (t + 4)) = part block t.
Proof. by rewrite i_msg1 by auto with sha. Qed.

Lemma ni_alignr t u : u = (t + 4)%nat -> _mm_alignr_epi8 x (msg block u) (msg block t) 4 = msg block (t + 1).
Proof. intros ->. rewrite sse_alignr4 by auto with sha. unfold msg. cbn [lane0 lane1 lane2 lane3]. by rewrite <-!Nat.add_assoc. Qed.

Lemma ni_part2 t : _mm_add_epi32 x (part block t) (msg block (t + 9)) = part2 t.
Proof. by rewrite x_add_epi32 by auto with sha. Qed.

Lemma ni_msg2 t : _mm_sha256msg2_epu32 f (part2 t) (msg block (t + 12)) = msg block (t + 16).
Proof.
  rewrite i_msg2, schedule_step by (auto with sha || apply vword_part2).
  unfold SHA256MSG2, part2, vadd, msg, part. cbn [lane0 lane1 lane2 lane3]. rewrite <-!Nat.add_assoc. cbn [Nat.add].
  assert (forall a b c d, a ⊞ b ⊞ c ⊞ s1 d = s1 d ⊞ c ⊞ b ⊞ a) as E by (intros; sums). by rewrite !E.
Qed.

Lemma ni_add_k t e1 e0 : - 2 ^ 63 <= e1 < 2 ^ 63 -> - 2 ^ 63 <= e0 < 2 ^ 63 ->
  epi64x e1 e0 = V4 (K t) (K (t + 1)) (K (t + 2)) (K (t + 3)) ->
  _mm_add_epi32 x (msg block t) (_mm_set_epi64x x e1 e0) = wk block t.
Proof.
  intros H1 H0 E. rewrite x_set_epi64x, E by done.
  by rewrite x_add_epi32 by (auto with sha || (apply vword_V4; apply word_K)).
Qed.

Lemma ni_load t k : (t <= 12)%nat -> k = (t * 4)%nat ->
  _mm_shuffle_epi8 x (_mm_loadu_si128 x (drop k block)) (sha256_mask x) = msg block t.
Proof.
  intros Ht ->. rewrite sse_load by (done || lia). unfold msg. rewrite !W_first by lia.
  by replace ((t + 1) * 4)%nat with (t * 4 + 4)%nat by lia; replace ((t + 2) * 4)%nat with (t * 4 + 8)%nat by lia;
    replace ((t + 3) * 4)%nat with (t * 4 + 12)%nat by lia.
Qed.

Lemma ni_load0 : _mm_shuffle_epi8 x (_mm_loadu_si128 x block) (sha256_mask x) = msg block 0.
Proof. by apply (ni_load 0 0); [lia|]. Qed.

(** The value of the next assignment; [t] is found from the registers. *)
Ltac ni_value :=
  first [ apply ni_first | apply ni_lo | apply ni_hi | apply ni_shuffle | apply ni_msg1 | apply ni_alignr; reflexivity | apply ni_part2
        | apply ni_msg2 | apply ni_add_k; [vm_compute; split; congruence..|vm_compute; reflexivity]
        | apply ni_load0 | apply (ni_load 4); [lia|reflexivity] | apply (ni_load 8); [lia|reflexivity]
        | apply (ni_load 12); [lia|reflexivity]
        | lazymatch goal with |- _mm_loadu_si128 _ _ = _ => reflexivity end ].

#[local] Opaque rounds abef cdgh msg wk wkhi part part2.

Lemma rounds_0_31_ok : sha_ni_rounds_0_31 x f (sha256_mask x) block (abef (R 0)) (cdgh (R 0)) =
  Ni (abef (R 32)) (abef (R 30)) (msg block 32) (part block 20) (part block 24) (msg block 28).
Proof. unfold sha_ni_rounds_0_31. repeat step ltac:(ni_value). reflexivity. Qed.

Lemma rounds_32_63_ok :
  sha_ni_rounds_32_63 x f (Ni (abef (R 32)) (abef (R 30)) (msg block 32) (part block 20) (part block 24) (msg block 28)) =
  (abef (R 64), abef (R 62)).
Proof. unfold sha_ni_rounds_32_63. repeat step ltac:(ni_value). reflexivity. Qed.

#[local] Transparent rounds abef cdgh msg wk wkhi part part2.

Lemma cdgh_abef t : abef (R t) = cdgh (R (S (S t))).
Proof. done. Qed.

Lemma process_block_sha_ni_ok : process_block_sha_ni x f block state = compress block state.
Proof.
  pose proof (regs_word_spec state Hs) as (? & ? & ? & ? & ? & ? & ? & ?).
  unfold process_block_sha_ni. step ltac:(exact (eq_refl (sha256_mask x))).
  do 2 step ltac:(apply sse_load_words; done).
  step ltac:(apply sse_shuffle_B1; [done|by apply vword_V4]). step ltac:(apply sse_shuffle_1B; [done|by apply vword_V4]).
  step ltac:(apply sse_alignr8; [done|by apply vword_V4..]). step ltac:(apply sse_blend; [done|by apply vword_V4..]).
  cbn [lane0 lane1 lane2 lane3]. do 2 step ltac:(reflexivity).
  change (V4 (rf state) (re state) (rb state) (ra state)) with (abef (R 0)).
  change (V4 (rh state) (rg state) (rd state) (rc state)) with (cdgh (R 0)).
  rewrite rounds_0_31_ok, rounds_32_63_ok. rewrite compress_code, (cdgh_abef 62).
  pose proof (rounds_word block state 64 Hs) as Hr. change (R 0) with state. revert Hr. generalize (R 64). intros r Hr.
  do 2 step ltac:(apply x_add_epi32; auto with sha). cbn [vadd abef cdgh lane0 lane1 lane2 lane3].
  assert (forall a b c d a' b' c' d', vword (V4 (a ⊞ a') (b ⊞ b') (c ⊞ c') (d ⊞ d'))) as Hv
    by (intros; apply vword_V4; apply word_add32).
  step ltac:(apply sse_shuffle_1B; auto). step ltac:(apply sse_shuffle_B1; auto).
  step ltac:(apply sse_blend; auto). step ltac:(apply sse_alignr8; auto). cbn [lane0 lane1 lane2 lane3].
  do 2 step ltac:(apply x_storeu; auto).
  do 2 match goal with |- context [u32_at (v4_bytes (V4 ?a ?b ?c ?d)) 0] =>
    destruct (u32_at_bytes a b c d (Hv _ _ _ _ _ _ _ _)) as (-> & -> & -> & ->) end.
  unfold add_regs, abef, cdgh. cbn [lane0 lane1 lane2 lane3]. f_equal; sums.
Qed.

End Ni.

(** ** Properties *)

(** The instructions the processor reports do what the manuals say. *)
Definition platform_ok (p : platform) (c : cpu) : Prop :=
  match p with
  | Portable => True
  | Arm64 n f => arm_sha2 c = true -> neon_ok n /\ arm_sha2_ok f
  | X86 x f => sha_ni c = true -> sse_ok x /\ x86_sha_ok f
  end.

Lemma process_block_ok p c block state : platform_ok p c -> length block = 64%nat -> regs_word state ->
  process_block p c block state = compress block state.
Proof.
  intros Hp Hl Hs. destruct p as [|n f|x f]; cbn [process_block]; [by apply process_block_sw_ok|..].
  - unfold use_arm_sha2. destruct (arm_sha2 c) eqn:E; [destruct (force_software c)|]; [by apply process_block_sw_ok| |by apply process_block_sw_ok].
    destruct (Hp E). by apply process_block_arm_ok.
  - unfold use_sha_ni. destruct (sha_ni c) eqn:E; [destruct (force_software c)|]; [by apply process_block_sw_ok| |by apply process_block_sw_ok].
    destruct (Hp E). by apply process_block_sha_ni_ok.
Qed.

Definition fips_sha256 (msg : list byte) : list byte := reference compress fips_initial words msg.

(** [C7] SHA-256 is SHA-256, on every path: whatever the processor reports and the
    software override says, so whichever block function the dispatcher selects (the
    unrolled software rounds, the Armv8 or the SHA-NI sequence, given instructions that do what
    their manuals say), whatever the buffer held before [reset] and however a message of fewer
    than 2^61 bytes is cut into [update] calls, [finalize] returns the FIPS 180-4 digest of the
    whole message. *)
Theorem sha256_matches_reference p c ctx pieces :
  platform_ok p c -> length (buffer_ ctx) = block_size -> zlen (concat pieces) < 2 ^ 61 ->
  (sha256_finalize p c (foldl (fun ctx piece => sha256_update p c piece ctx) (sha256_reset ctx) pieces)).1 = fips_sha256 (concat pieces).
Proof.
  intros Hb Hc Hl. unfold sha256_finalize, sha256_update, sha256_reset. rewrite context_correct by done. unfold fips_sha256. rewrite fips_initial_table.
  apply (reference_ext _ _ regs_word).
  - intros block state Hlen Hs. split; [by apply process_block_ok|apply compress_word].
  - repeat (apply Forall_cons_2; [by split|]). apply Forall_nil_2.
Qed.

Lemma sha256_matches_reference_witness : let p := Arm64 neon_manual arm_manual in let c := Cpu true true true false in
  (sha256_finalize p c (foldl (fun ctx piece => sha256_update p c piece ctx) (sha256_reset (Ctx initial 7 (repeat (z2b 170) 64) 9))
                        [map z2b [97]; map z2b [98; 99]])).1 =
  fips_sha256 (map z2b [97; 98; 99]) /\
  firstn 4 (fips_sha256 (map z2b [97; 98; 99])) = map z2b [0xba; 0x78; 0x16; 0xbf].
Proof.
  split; [|vm_compute; reflexivity].
  apply (sha256_matches_reference (Arm64 neon_manual arm_manual) (Cpu true true true false) (Ctx initial 7 (repeat (z2b 170) 64) 9) [map z2b [97]; map z2b [98; 99]]).
  - intros _. split; [exact neon_manual_ok|split; reflexivity].
  - reflexivity.
  - reflexivity.
Defined.

End Sha256.
