(* ===== verification/Sha1.v ===== *)
(** * SHA-1

    Models [src/include/elio/hash/sha1.hpp]: the software block function, whose rounds rename their
    variables instead of moving them, the Armv8 and the SHA-NI block functions statement by
    statement, the dispatch between them and the digest functions; the incremental context is
    [Sha]'s.  The reference is FIPS 180-4, 6.1.2.  The SHA instructions are the fields of [arm_sha1_insns]
    and [x86_sha1]; [arm_sha1_ok] and [x86_sha1_ok] state the pseudocode of the vendors' manuals. *)

From S2P Require Import Prelude Endian Sha ShaVec.

Module Sha1.
Import Neon Sse.

#[local] Open Scope word_scope.

(** ** The code *)

(** [state_], and the local variables [a] to [e]. *)
Record regs := Regs { ra : Z; rb : Z; rc : Z; rd : Z; re : Z }.

Definition initial : regs := Regs 0x67452301 0xEFCDAB89 0x98BADCFE 0x10325476 0xC3D2E1F0.

Definition words (r : regs) : list Z := [ra r; rb r; rc r; rd r; re r].

Definition f0 (b c d : Z) : Z := Z.lor (Z.land b c) (Z.land (not32 b) d).
Definition f1 (b c d : Z) : Z := Z.lxor (Z.lxor b c) d.
Definition f2 (b c d : Z) : Z := Z.lor (Z.lor (Z.land b c) (Z.land b d)) (Z.land c d).

(** The round macros [SHA1_ROUND0] to [SHA1_ROUND3] update two of their five arguments, [e] and
    [b]; the result is [(b, e)]. *)
Definition SHA1_ROUND (f : Z -> Z -> Z -> Z) (k : Z) (a b c d e w : Z) : Z * Z :=
  (rotl b 30, e ⊞ (rotl a 5 ⊞ f b c d ⊞ k ⊞ w)).

(** Five rounds, through the five renamings of the arguments. *)
Definition five_rounds (f : Z -> Z -> Z -> Z) (k : Z) (w : list Z) (r : regs) (i : nat) : regs :=
  let '(Regs a b c d e) := r in
  let '(b, e) := SHA1_ROUND f k a b c d e (nth i w 0) in
  let '(a, d) := SHA1_ROUND f k e a b c d (nth (i + 1) w 0) in
  let '(e, c) := SHA1_ROUND f k d e a b c (nth (i + 2) w 0) in
  let '(d, b) := SHA1_ROUND f k c d e a b (nth (i + 3) w 0) in
  let '(c, a) := SHA1_ROUND f k b c d e a (nth (i + 4) w 0) in
  Regs a b c d e.

Definition add_regs (s r : regs) : regs := Regs (ra s ⊞ ra r) (rb s ⊞ rb r) (rc s ⊞ rc r) (rd s ⊞ rd r) (re s ⊞ re r).

Definition process_block_sw (block : list byte) (state : regs) : regs :=
  let w := map (fun i => load_be32 (drop (i * 4) block)) (seq 0 16) in
  let w := fold_left (fun w i => w ++ [rotl (Z.lxor (Z.lxor (Z.lxor (nth (i - 3) w 0) (nth (i - 8) w 0)) (nth (i - 14) w 0))
                                            (nth (i - 16) w 0)) 1]) (seq 16 64) w in
  let r := fold_left (five_rounds f0 0x5A827999 w) [0; 5; 10; 15]%nat state in
  let r := fold_left (five_rounds f1 0x6ED9EBA1 w) [20; 25; 30; 35]%nat r in
  let r := fold_left (five_rounds f2 0x8F1BBCDC w) [40; 45; 50; 55]%nat r in
  let r := fold_left (five_rounds f1 0xCA62C1D6 w) [60; 65; 70; 75]%nat r in
  add_regs state r.

(** The Armv8 instructions. *)
Record arm_sha1_insns := {
  vsha1h_u32 : Z -> Z;
  vsha1cq_u32 : v4 -> Z -> v4 -> v4;
  vsha1pq_u32 : v4 -> Z -> v4 -> v4;
  vsha1mq_u32 : v4 -> Z -> v4 -> v4;
  vsha1su0q_u32 : v4 -> v4 -> v4 -> v4;
  vsha1su1q_u32 : v4 -> v4 -> v4
}.

(** The registers [process_block_arm] keeps from one group of rounds to the next. *)
Record arm_regs := ArmRegs { ABCD_ : v4; E0_ : Z; E1_ : Z; MSG0_ : v4; MSG1_ : v4; MSG2_ : v4; MSG3_ : v4; TMP0_ : v4; TMP1_ : v4 }.

Definition arm_rounds_0_39 (n : neon) (f : arm_sha1_insns) (ABCD : v4) (E0 : Z) (MSG0 MSG1 MSG2 MSG3 K0 K1 K2 TMP0 TMP1 : v4) : arm_regs :=
  (* Rounds 0-3 *)
  E1 <~ vsha1h_u32 f (vgetq_lane_u32 n ABCD 0);;
  ABCD <~ vsha1cq_u32 f ABCD E0 TMP0;;
  TMP0 <~ vaddq_u32 n MSG2 K0;;
  MSG0 <~ vsha1su0q_u32 f MSG0 MSG1 MSG2;;
  (* Rounds 4-7 *)
  E0 <~ vsha1h_u32 f (vgetq_lane_u32 n ABCD 0);;
  ABCD <~ vsha1cq_u32 f ABCD E1 TMP1;;
  TMP1 <~ vaddq_u32 n MSG3 K0;;
  MSG0 <~ vsha1su1q_u32 f MSG0 MSG3;;
  MSG1 <~ vsha1su0q_u32 f MSG1 MSG2 MSG3;;
  (* Rounds 8-11 *)
  E1 <~ vsha1h_u32 f (vgetq_lane_u32 n ABCD 0);;
  ABCD <~ vsha1cq_u32 f ABCD E0 TMP0;;
  TMP0 <~ vaddq_u32 n MSG0 K0;;
  MSG1 <~ vsha1su1q_u32 f MSG1 MSG0;;
  MSG2 <~ vsha1su0q_u32 f MSG2 MSG3 MSG0;;
  (* Rounds 12-15 *)
  E0 <~ vsha1h_u32 f (vgetq_lane_u32 n ABCD 0);;
  ABCD <~ vsha1cq_u32 f ABCD E1 TMP1;;
  TMP1 <~ vaddq_u32 n MSG1 K1;;
  MSG2 <~ vsha1su1q_u32 f MSG2 MSG1;;
  MSG3 <~ vsha1su0q_u32 f MSG3 MSG0 MSG1;;
  (* Rounds 16-19 *)
  E1 <~ vsha1h_u32 f (vgetq_lane_u32 n ABCD 0);;
  ABCD <~ vsha1cq_u32 f ABCD E0 TMP0;;
  TMP0 <~ vaddq_u32 n MSG2 K1;;
  MSG3 <~ vsha1su1q_u32 f MSG3 MSG2;;
  MSG0 <~ vsha1su0q_u32 f MSG0 MSG1 MSG2;;
  (* Rounds 20-23 *)
  E0 <~ vsha1h_u32 f (vgetq_lane_u32 n ABCD 0);;
  ABCD <~ vsha1pq_u32 f ABCD E1 TMP1;;
  TMP1 <~ vaddq_u32 n MSG3 K1;;
  MSG0 <~ vsha1su1q_u32 f MSG0 MSG3;;
  MSG1 <~ vsha1su0q_u32 f MSG1 MSG2 MSG3;;
  (* Rounds 24-27 *)
  E1 <~ vsha1h_u32 f (vgetq_lane_u32 n ABCD 0);;
  ABCD <~ vsha1pq_u32 f ABCD E0 TMP0;;
  TMP0 <~ vaddq_u32 n MSG0 K1;;
  MSG1 <~ vsha1su1q_u32 f MSG1 MSG0;;
  MSG2 <~ vsha1su0q_u32 f MSG2 MSG3 MSG0;;
  (* Rounds 28-31 *)
  E0 <~ vsha1h_u32 f (vgetq_lane_u32 n ABCD 0);;
  ABCD <~ vsha1pq_u32 f ABCD E1 TMP1;;
  TMP1 <~ vaddq_u32 n MSG1 K1;;
  MSG2 <~ vsha1su1q_u32 f MSG2 MSG1;;
  MSG3 <~ vsha1su0q_u32 f MSG3 MSG0 MSG1;;
  (* Rounds 32-35 *)
  E1 <~ vsha1h_u32 f (vgetq_lane_u32 n ABCD 0);;
  ABCD <~ vsha1pq_u32 f ABCD E0 TMP0;;
  TMP0 <~ vaddq_u32 n MSG2 K2;;
  MSG3 <~ vsha1su1q_u32 f MSG3 MSG2;;
  MSG0 <~ vsha1su0q_u32 f MSG0 MSG1 MSG2;;
  (* Rounds 36-39 *)
  E0 <~ vsha1h_u32 f (vgetq_lane_u32 n ABCD 0);;
  ABCD <~ vsha1pq_u32 f ABCD E1 TMP1;;
  TMP1 <~ vaddq_u32 n MSG3 K2;;
  MSG0 <~ vsha1su1q_u32 f MSG0 MSG3;;
  MSG1 <~ vsha1su0q_u32 f MSG1 MSG2 MSG3;;
  ArmRegs ABCD E0 E1 MSG0 MSG1 MSG2 MSG3 TMP0 TMP1.

Definition arm_rounds_40_79 (n : neon) (f : arm_sha1_insns) (K2 K3 : v4) (r : arm_regs) : v4 * Z :=
  let '(ArmRegs ABCD E0 E1 MSG0 MSG1 MSG2 MSG3 TMP0 TMP1) := r in
  (* Rounds 40-43 *)
  E1 <~ vsha1h_u32 f (vgetq_lane_u32 n ABCD 0);;
  ABCD <~ vsha1mq_u32 f ABCD E0 TMP0;;
  TMP0 <~ vaddq_u32 n MSG0 K2;;
  MSG1 <~ vsha1su1q_u32 f MSG1 MSG0;;
  MSG2 <~ vsha1su0q_u32 f MSG2 MSG3 MSG0;;
  (* Rounds 44-47 *)
  E0 <~ vsha1h_u32 f (vgetq_lane_u32 n ABCD 0);;
  ABCD <~ vsha1mq_u32 f ABCD E1 TMP1;;
  TMP1 <~ vaddq_u32 n MSG1 K2;;
  MSG2 <~ vsha1su1q_u32 f MSG2 MSG1;;
  MSG3 <~ vsha1su0q_u32 f MSG3 MSG0 MSG1;;
  (* Rounds 48-51 *)
  E1 <~ vsha1h_u32 f (vgetq_lane_u32 n ABCD 0);;
  ABCD <~ vsha1mq_u32 f ABCD E0 TMP0;;
  TMP0 <~ vaddq_u32 n MSG2 K2;;
  MSG3 <~ vsha1su1q_u32 f MSG3 MSG2;;
  MSG0 <~ vsha1su0q_u32 f MSG0 MSG1 MSG2;;
  (* Rounds 52-55 *)
  E0 <~ vsha1h_u32 f (vgetq_lane_u32 n ABCD 0);;
  ABCD <~ vsha1mq_u32 f ABCD E1 TMP1;;
  TMP1 <~ vaddq_u32 n MSG3 K3;;
  MSG0 <~ vsha1su1q_u32 f MSG0 MSG3;;
  MSG1 <~ vsha1su0q_u32 f MSG1 MSG2 MSG3;;
  (* Rounds 56-59 *)
  E1 <~ vsha1h_u32 f (vgetq_lane_u32 n ABCD 0);;
  ABCD <~ vsha1mq_u32 f ABCD E0 TMP0;;
  TMP0 <~ vaddq_u32 n MSG0 K3;;
  MSG1 <~ vsha1su1q_u32 f MSG1 MSG0;;
  MSG2 <~ vsha1su0q_u32 f MSG2 MSG3 MSG0;;
  (* Rounds 60-63 *)
  E0 <~ vsha1h_u32 f (vgetq_lane_u32 n ABCD 0);;
  ABCD <~ vsha1pq_u32 f ABCD E1 TMP1;;
  TMP1 <~ vaddq_u32 n MSG1 K3;;
  MSG2 <~ vsha1su1q_u32 f MSG2 MSG1;;
  MSG3 <~ vsha1su0q_u32 f MSG3 MSG0 MSG1;;
  (* Rounds 64-67 *)
  E1 <~ vsha1h_u32 f (vgetq_lane_u32 n ABCD 0);;
  ABCD <~ vsha1pq_u32 f ABCD E0 TMP0;;
  TMP0 <~ vaddq_u32 n MSG2 K3;;
  MSG3 <~ vsha1su1q_u32 f MSG3 MSG2;;
  MSG0 <~ vsha1su0q_u32 f MSG0 MSG1 MSG2;;
  (* Rounds 68-71 *)
  E0 <~ vsha1h_u32 f (vgetq_lane_u32 n ABCD 0);;
  ABCD <~ vsha1pq_u32 f ABCD E1 TMP1;;
  TMP1 <~ vaddq_u32 n MSG3 K3;;
  MSG0 <~ vsha1su1q_u32 f MSG0 MSG3;;
  (* Rounds 72-75 *)
  E1 <~ vsha1h_u32 f (vgetq_lane_u32 n ABCD 0);;
  ABCD <~ vsha1pq_u32 f ABCD E0 TMP0;;
  (* Rounds 76-79 *)
  E0 <~ vsha1h_u32 f (vgetq_lane_u32 n ABCD 0);;
  ABCD <~ vsha1pq_u32 f ABCD E1 TMP1;;
  (ABCD, E0).

Definition process_block_arm (n : neon) (f : arm_sha1_insns) (block : list byte) (state : regs) : regs :=
  ABCD <~ vld1q_u32 n (words state);;
  E0 <~ re state;;
  MSG0 <~ vreinterpretq_u32_u8 n (vrev32q_u8 n (vld1q_u8 n block));;
  MSG1 <~ vreinterpretq_u32_u8 n (vrev32q_u8 n (vld1q_u8 n (drop 16 block)));;
  MSG2 <~ vreinterpretq_u32_u8 n (vrev32q_u8 n (vld1q_u8 n (drop 32 block)));;
  MSG3 <~ vreinterpretq_u32_u8 n (vrev32q_u8 n (vld1q_u8 n (drop 48 block)));;
  ABCD_SAVED <~ ABCD;;
  E0_SAVED <~ E0;;
  K0 <~ vdupq_n_u32 n 0x5A827999;;
  K1 <~ vdupq_n_u32 n 0x6ED9EBA1;;
  K2 <~ vdupq_n_u32 n 0x8F1BBCDC;;
  K3 <~ vdupq_n_u32 n 0xCA62C1D6;;
  TMP0 <~ vaddq_u32 n MSG0 K0;;
  TMP1 <~ vaddq_u32 n MSG1 K0;;
  let '(ABCD, E0) := arm_rounds_40_79 n f K2 K3 (arm_rounds_0_39 n f ABCD E0 MSG0 MSG1 MSG2 MSG3 K0 K1 K2 TMP0 TMP1) in
  E0 <~ E0 ⊞ E0_SAVED;;
  ABCD <~ vaddq_u32 n ABCD_SAVED ABCD;;
  match vst1q_u32 n ABCD with
  | [a; b; c; d] => Regs a b c d E0
  | _ => state
  end.

(** The SHA-NI instructions. *)
Record x86_sha1 := {
  _mm_sha1rnds4_epu32 : v4 -> v4 -> Z -> v4;
  _mm_sha1nexte_epu32 : v4 -> v4 -> v4;
  _mm_sha1msg1_epu32 : v4 -> v4 -> v4;
  _mm_sha1msg2_epu32 : v4 -> v4 -> v4
}.

Record ni_regs := Ni { NABCD : v4; NE0 : v4; NE1 : v4; NMSG0 : v4; NMSG1 : v4; NMSG2 : v4; NMSG3 : v4 }.

Definition sha_ni_rounds_0_39 (x : sse) (f : x86_sha1) (ABCD E0 MSG0 MSG1 MSG2 MSG3 : v4) : ni_regs :=
  (* Rounds 0-3 *)
  E0 <~ _mm_add_epi32 x E0 MSG0;;
  E1 <~ ABCD;;
  ABCD <~ _mm_sha1rnds4_epu32 f ABCD E0 0;;
  (* Rounds 4-7 *)
  E1 <~ _mm_sha1nexte_epu32 f E1 MSG1;;
  E0 <~ ABCD;;
  ABCD <~ _mm_sha1rnds4_epu32 f ABCD E1 0;;
  MSG0 <~ _mm_sha1msg1_epu32 f MSG0 MSG1;;
  (* Rounds 8-11 *)
  E0 <~ _mm_sha1nexte_epu32 f E0 MSG2;;
  E1 <~ ABCD;;
  ABCD <~ _mm_sha1rnds4_epu32 f ABCD E0 0;;
  MSG1 <~ _mm_sha1msg1_epu32 f MSG1 MSG2;;
  MSG0 <~ _mm_xor_si128 x MSG0 MSG2;;
  (* Rounds 12-15 *)
  E1 <~ _mm_sha1nexte_epu32 f E1 MSG3;;
  E0 <~ ABCD;;
  MSG0 <~ _mm_sha1msg2_epu32 f MSG0 MSG3;;
  ABCD <~ _mm_sha1rnds4_epu32 f ABCD E1 0;;
  MSG2 <~ _mm_sha1msg1_epu32 f MSG2 MSG3;;
  MSG1 <~ _mm_xor_si128 x MSG1 MSG3;;
  (* Rounds 16-19 *)
  E0 <~ _mm_sha1nexte_epu32 f E0 MSG0;;
  E1 <~ ABCD;;
  MSG1 <~ _mm_sha1msg2_epu32 f MSG1 MSG0;;
  ABCD <~ _mm_sha1rnds4_epu32 f ABCD E0 0;;
  MSG3 <~ _mm_sha1msg1_epu32 f MSG3 MSG0;;
  MSG2 <~ _mm_xor_si128 x MSG2 MSG0;;
  (* Rounds 20-23 *)
  E1 <~ _mm_sha1nexte_epu32 f E1 MSG1;;
  E0 <~ ABCD;;
  MSG2 <~ _mm_sha1msg2_epu32 f MSG2 MSG1;;
  ABCD <~ _mm_sha1rnds4_epu32 f ABCD E1 1;;
  MSG0 <~ _mm_sha1msg1_epu32 f MSG0 MSG1;;
  MSG3 <~ _mm_xor_si128 x MSG3 MSG1;;
  (* Rounds 24-27 *)
  E0 <~ _mm_sha1nexte_epu32 f E0 MSG2;;
  E1 <~ ABCD;;
  MSG3 <~ _mm_sha1msg2_epu32 f MSG3 MSG2;;
  ABCD <~ _mm_sha1rnds4_epu32 f ABCD E0 1;;
  MSG1 <~ _mm_sha1msg1_epu32 f MSG1 MSG2;;
  MSG0 <~ _mm_xor_si128 x MSG0 MSG2;;
  (* Rounds 28-31 *)
  E1 <~ _mm_sha1nexte_epu32 f E1 MSG3;;
  E0 <~ ABCD;;
  MSG0 <~ _mm_sha1msg2_epu32 f MSG0 MSG3;;
  ABCD <~ _mm_sha1rnds4_epu32 f ABCD E1 1;;
  MSG2 <~ _mm_sha1msg1_epu32 f MSG2 MSG3;;
  MSG1 <~ _mm_xor_si128 x MSG1 MSG3;;
  (* Rounds 32-35 *)
  E0 <~ _mm_sha1nexte_epu32 f E0 MSG0;;
  E1 <~ ABCD;;
  MSG1 <~ _mm_sha1msg2_epu32 f MSG1 MSG0;;
  ABCD <~ _mm_sha1rnds4_epu32 f ABCD E0 1;;
  MSG3 <~ _mm_sha1msg1_epu32 f MSG3 MSG0;;
  MSG2 <~ _mm_xor_si128 x MSG2 MSG0;;
  (* Rounds 36-39 *)
  E1 <~ _mm_sha1nexte_epu32 f E1 MSG1;;
  E0 <~ ABCD;;
  MSG2 <~ _mm_sha1msg2_epu32 f MSG2 MSG1;;
  ABCD <~ _mm_sha1rnds4_epu32 f ABCD E1 1;;
  MSG0 <~ _mm_sha1msg1_epu32 f MSG0 MSG1;;
  MSG3 <~ _mm_xor_si128 x MSG3 MSG1;;
  Ni ABCD E0 E1 MSG0 MSG1 MSG2 MSG3.

Definition sha_ni_rounds_40_79 (x : sse) (f : x86_sha1) (r : ni_regs) : v4 * v4 :=
  let '(Ni ABCD E0 E1 MSG0 MSG1 MSG2 MSG3) := r in
  (* Rounds 40-43 *)
  E0 <~ _mm_sha1nexte_epu32 f E0 MSG2;;
  E1 <~ ABCD;;
  MSG3 <~ _mm_sha1msg2_epu32 f MSG3 MSG2;;
  ABCD <~ _mm_sha1rnds4_epu32 f ABCD E0 2;;
  MSG1 <~ _mm_sha1msg1_epu32 f MSG1 MSG2;;
  MSG0 <~ _mm_xor_si128 x MSG0 MSG2;;
  (* Rounds 44-47 *)
  E1 <~ _mm_sha1nexte_epu32 f E1 MSG3;;
  E0 <~ ABCD;;
  MSG0 <~ _mm_sha1msg2_epu32 f MSG0 MSG3;;
  ABCD <~ _mm_sha1rnds4_epu32 f ABCD E1 2;;
  MSG2 <~ _mm_sha1msg1_epu32 f MSG2 MSG3;;
  MSG1 <~ _mm_xor_si128 x MSG1 MSG3;;
  (* Rounds 48-51 *)
  E0 <~ _mm_sha1nexte_epu32 f E0 MSG0;;
  E1 <~ ABCD;;
  MSG1 <~ _mm_sha1msg2_epu32 f MSG1 MSG0;;
  ABCD <~ _mm_sha1rnds4_epu32 f ABCD E0 2;;
  MSG3 <~ _mm_sha1msg1_epu32 f MSG3 MSG0;;
  MSG2 <~ _mm_xor_si128 x MSG2 MSG0;;
  (* Rounds 52-55 *)
  E1 <~ _mm_sha1nexte_epu32 f E1 MSG1;;
  E0 <~ ABCD;;
  MSG2 <~ _mm_sha1msg2_epu32 f MSG2 MSG1;;
  ABCD <~ _mm_sha1rnds4_epu32 f ABCD E1 2;;
  MSG0 <~ _mm_sha1msg1_epu32 f MSG0 MSG1;;
  MSG3 <~ _mm_xor_si128 x MSG3 MSG1;;
  (* Rounds 56-59 *)
  E0 <~ _mm_sha1nexte_epu32 f E0 MSG2;;
  E1 <~ ABCD;;
  MSG3 <~ _mm_sha1msg2_epu32 f MSG3 MSG2;;
  ABCD <~ _mm_sha1rnds4_epu32 f ABCD E0 2;;
  MSG1 <~ _mm_sha1msg1_epu32 f MSG1 MSG2;;
  MSG0 <~ _mm_xor_si128 x MSG0 MSG2;;
  (* Rounds 60-63 *)
  E1 <~ _mm_sha1nexte_epu32 f E1 MSG3;;
  E0 <~ ABCD;;
  MSG0 <~ _mm_sha1msg2_epu32 f MSG0 MSG3;;
  ABCD <~ _mm_sha1rnds4_epu32 f ABCD E1 3;;
  MSG2 <~ _mm_sha1msg1_epu32 f MSG2 MSG3;;
  MSG1 <~ _mm_xor_si128 x MSG1 MSG3;;
  (* Rounds 64-67 *)
  E0 <~ _mm_sha1nexte_epu32 f E0 MSG0;;
  E1 <~ ABCD;;
  MSG1 <~ _mm_sha1msg2_epu32 f MSG1 MSG0;;
  ABCD <~ _mm_sha1rnds4_epu32 f ABCD E0 3;;
  MSG3 <~ _mm_sha1msg1_epu32 f MSG3 MSG0;;
  MSG2 <~ _mm_xor_si128 x MSG2 MSG0;;
  (* Rounds 68-71 *)
  E1 <~ _mm_sha1nexte_epu32 f E1 MSG1;;
  E0 <~ ABCD;;
  MSG2 <~ _mm_sha1msg2_epu32 f MSG2 MSG1;;
  ABCD <~ _mm_sha1rnds4_epu32 f ABCD E1 3;;
  MSG3 <~ _mm_xor_si128 x MSG3 MSG1;;
  (* Rounds 72-75 *)
  E0 <~ _mm_sha1nexte_epu32 f E0 MSG2;;
  E1 <~ ABCD;;
  MSG3 <~ _mm_sha1msg2_epu32 f MSG3 MSG2;;
  ABCD <~ _mm_sha1rnds4_epu32 f ABCD E0 3;;
  (* Rounds 76-79 *)
  E1 <~ _mm_sha1nexte_epu32 f E1 MSG3;;
  E0 <~ ABCD;;
  ABCD <~ _mm_sha1rnds4_epu32 f ABCD E1 3;;
  (ABCD, E0).

Definition process_block_sha_ni (x : sse) (f : x86_sha1) (block : list byte) (state : regs) : regs :=
  MASK <~ _mm_set_epi64x x (s64 0x0001020304050607) (s64 0x08090a0b0c0d0e0f);;
  ABCD <~ _mm_loadu_si128 x (u32_object (words state));;
  E0 <~ _mm_set_epi32 x (swrap 32 (re state)) 0 0 0;;
  ABCD <~ _mm_shuffle_epi32 x ABCD 0x1B;;
  ABCD_SAVE <~ ABCD;;
  E0_SAVE <~ E0;;
  MSG0 <~ _mm_shuffle_epi8 x (_mm_loadu_si128 x block) MASK;;
  MSG1 <~ _mm_shuffle_epi8 x (_mm_loadu_si128 x (drop 16 block)) MASK;;
  MSG2 <~ _mm_shuffle_epi8 x (_mm_loadu_si128 x (drop 32 block)) MASK;;
  MSG3 <~ _mm_shuffle_epi8 x (_mm_loadu_si128 x (drop 48 block)) MASK;;
  let '(ABCD, E0) := sha_ni_rounds_40_79 x f (sha_ni_rounds_0_39 x f ABCD E0 MSG0 MSG1 MSG2 MSG3) in
  E0 <~ _mm_sha1nexte_epu32 f E0 E0_SAVE;;
  ABCD <~ _mm_add_epi32 x ABCD ABCD_SAVE;;
  ABCD <~ _mm_shuffle_epi32 x ABCD 0x1B;;
  bytes <~ _mm_storeu_si128 x ABCD;;
  Regs (u32_at bytes 0) (u32_at bytes 1) (u32_at bytes 2) (u32_at bytes 3) (u32 (_mm_extract_epi32 x E0 3)).

(** The platform a build is for, with its instructions. *)
Inductive platform :=
| Portable
| Arm64 (n : neon) (f : arm_sha1_insns)
| X86 (x : sse) (f : x86_sha1).

Definition process_block (p : platform) (c : cpu) (block : list byte) (state : regs) : regs :=
  match p with
  | Arm64 n f => if use_arm_sha1 c then process_block_arm n f block state else process_block_sw block state
  | X86 x f => if use_sha_ni c then process_block_sha_ni x f block state else process_block_sw block state
  | Portable => process_block_sw block state
  end.

(** The members of [sha1_context]. *)
Definition sha1_reset : @context regs -> @context regs := Sha.reset initial.
Definition sha1_update (p : platform) (c : cpu) : list byte -> @context regs -> @context regs := Sha.update (process_block p c).
Definition sha1_finalize (p : platform) (c : cpu) : @context regs -> list byte * @context regs := Sha.finalize (process_block p c) words.

(** [ctx] is the context before its constructor's [reset]. *)
Definition sha1 (p : platform) (c : cpu) (ctx : context) (data : list byte) : list byte :=
  (sha1_finalize p c (sha1_update p c data (sha1_reset ctx))).1.
Definition sha1_hex (p : platform) (c : cpu) (ctx : context) (data : list byte) : list byte := to_hex (sha1 p c ctx data).

(** ** Reference: FIPS 180-4, 6.1 *)

Definition Ch (x y z : Z) : Z := Z.lxor (Z.land x y) (Z.land (not32 x) z).
Definition Parity (x y z : Z) : Z := Z.lxor (Z.lxor x y) z.
Definition Maj (x y z : Z) : Z := Z.lxor (Z.lxor (Z.land x y) (Z.land x z)) (Z.land y z).

(** The function and the constant of each group of twenty rounds. *)
Definition group_F (q : nat) : Z -> Z -> Z -> Z := match q with 0%nat => Ch | 1%nat => Parity | 2%nat => Maj | _ => Parity end.
Definition group_K (q : nat) : Z := match q with 0%nat => 0x5A827999 | 1%nat => 0x6ED9EBA1 | 2%nat => 0x8F1BBCDC | _ => 0xCA62C1D6 end.

Definition F (t : nat) : Z -> Z -> Z -> Z := group_F (t / 20).
Definition K (t : nat) : Z := group_K (t / 20).

Lemma group_of q t : (20 * q <= t < 20 * q + 20)%nat -> F t = group_F q /\ K t = group_K q.
Proof. intros Ht. unfold F, K. replace (t / 20)%nat with q; [done|]. apply Nat.div_unique with (t - 20 * q)%nat; lia. Qed.

Definition fips_round (f : Z -> Z -> Z -> Z) (k w : Z) (r : regs) : regs :=
  let T := rotl (ra r) 5 ⊞ f (rb r) (rc r) (rd r) ⊞ re r ⊞ k ⊞ w in
  Regs T (ra r) (rotl (rb r) 30) (rc r) (rd r).

Section Reference.
Context (block : list byte).

Definition next_word (w : list Z) : Z := rotl (Z.lxor (Z.lxor (Z.lxor (nth 13 w 0) (nth 8 w 0)) (nth 2 w 0)) (nth 0 w 0)) 1.

(** The words of the message schedule. *)
Definition W : nat -> Z := schedule next_word block.

Fixpoint rounds (state : regs) (t : nat) : regs :=
  match t with
  | O => state
  | S t => fips_round (F t) (K t) (W t) (rounds state t)
  end.

Definition compress (state : regs) : regs := add_regs state (rounds state 80).

(** ** The schedule *)

Lemma sha1_W_next t : W (t + 16) = rotl (Z.lxor (Z.lxor (Z.lxor (W (t + 13)) (W (t + 8))) (W (t + 2))) (W t)) 1.
Proof. unfold W. rewrite schedule_next. unfold next_word. rewrite !nth_window by lia. by rewrite Nat.add_0_r. Qed.

Lemma sha1_word_W t : word (W t).
Proof.
  induction (Nat.lt_wf_0 t) as [t _ IH]. destruct (decide (t < 16)%nat).
  - unfold W. rewrite schedule_first by done. apply word_load_be32.
  - replace t with (t - 16 + 16)%nat by lia. rewrite sha1_W_next. apply word_rotl; [|lia].
    repeat apply word_lxor; apply IH; lia.
Qed.

Lemma sha1_schedule_sw n :
  fold_left (fun w i => w ++ [rotl (Z.lxor (Z.lxor (Z.lxor (nth (i - 3) w 0) (nth (i - 8) w 0)) (nth (i - 14) w 0))
                                   (nth (i - 16) w 0)) 1]) (seq 16 n) (map (fun i => load_be32 (drop (i * 4) block)) (seq 0 16)) =
  map W (seq 0 (16 + n)).
Proof.
  apply schedule_array. intros k Hk. do 2 f_equal. rewrite !nth_map_seq by lia. fold W. rewrite sha1_W_next.
  replace (16 + k - 3)%nat with (k + 13)%nat by lia. replace (16 + k - 8)%nat with (k + 8)%nat by lia.
  replace (16 + k - 14)%nat with (k + 2)%nat by lia. by replace (16 + k - 16)%nat with k by lia.
Qed.

(** ** Software *)

Lemma f0_Ch b c d : word b -> word c -> word d -> f0 b c d = Ch b c d.
Proof. intros. unfold f0, Ch. bitwise. Qed.

Lemma f2_Maj b c d : f2 b c d = Maj b c d.
Proof.
  apply Z.bits_inj'. intros i Hi. unfold f2, Maj. rewrite !Z.lor_spec, !Z.lxor_spec, !Z.land_spec.
  by destruct (Z.testbit b i), (Z.testbit c i), (Z.testbit d i).
Qed.

Definition regs_word (r : regs) : Prop := Forall word (words r).

Lemma sha1_regs_word_spec r : regs_word r -> word (ra r) /\ word (rb r) /\ word (rc r) /\ word (rd r) /\ word (re r).
Proof. unfold regs_word, words. rewrite !Forall_cons. tauto. Qed.

Lemma round_word f k w r : regs_word r -> regs_word (fips_round f k w r).
Proof.
  intros (? & ? & ? & ? & ?)%sha1_regs_word_spec. unfold fips_round, regs_word, words. cbn [ra rb rc rd re].
  repeat (apply Forall_cons_2; [solve [done | apply word_add32 | apply word_rotl; [done|lia]]|]). apply Forall_nil_2.
Qed.

Lemma sha1_rounds_word state t : regs_word state -> regs_word (rounds state t).
Proof. intros Hs. induction t as [|t IH]; [done|]. by apply round_word. Qed.

Lemma sha1_compress_word state : regs_word (compress state).
Proof.
  unfold compress. generalize (rounds state 80). intros r. unfold add_regs, regs_word, words. cbn [ra rb rc rd re].
  repeat (apply Forall_cons_2; [apply word_add32|]). apply Forall_nil_2.
Qed.

(** A round macro, after renaming its arguments, is a round. *)
Lemma round_sw g f k w r : (forall x y z, word x -> word y -> word z -> g x y z = f x y z) -> regs_word r ->
  (let '(Regs a b c d e) := r in let '(b, e) := SHA1_ROUND g k a b c d e w in Regs e a b c d) = fips_round f k w r.
Proof.
  intros Hg (? & ? & ? & ? & ?)%sha1_regs_word_spec. destruct r as [a b c d e]. cbn [ra rb rc rd re] in *.
  unfold SHA1_ROUND, fips_round. cbn [ra rb rc rd re]. rewrite Hg by done. f_equal. sums.
Qed.

Lemma five_rounds_fips g f k w r i : (forall x y z, word x -> word y -> word z -> g x y z = f x y z) -> regs_word r ->
  five_rounds g k w r i =
  fips_round f k (nth (i + 4) w 0) (fips_round f k (nth (i + 3) w 0) (fips_round f k (nth (i + 2) w 0)
    (fips_round f k (nth (i + 1) w 0) (fips_round f k (nth i w 0) r)))).
Proof.
  intros Hg Hr. rewrite <-(round_sw g f k (nth (i + 4) w 0)), <-(round_sw g f k (nth (i + 3) w 0)), <-(round_sw g f k (nth (i + 2) w 0)),
    <-(round_sw g f k (nth (i + 1) w 0)), <-(round_sw g f k (nth i w 0)) by (done || by repeat apply round_word).
  by destruct r.
Qed.

Lemma five_rounds_ok g q w state i : (forall x y z, word x -> word y -> word z -> g x y z = group_F q x y z) -> regs_word state ->
  (forall j, (j < 80)%nat -> nth j w 0 = W j) -> (q < 4)%nat -> (20 * q <= i <= 20 * q + 15)%nat ->
  five_rounds g (group_K q) w (rounds state i) i = rounds state (i + 5).
Proof.
  intros Hg Hs Hw Hq Hi. rewrite (five_rounds_fips g (group_F q)) by (done || by apply sha1_rounds_word). rewrite !Hw by lia.
  assert (forall j, (j < 5)%nat -> F (j + i) = group_F q /\ K (j + i) = group_K q) as HFK by (intros; apply group_of; lia).
  destruct (HFK 0%nat), (HFK 1%nat), (HFK 2%nat), (HFK 3%nat), (HFK 4%nat); [lia..|].
  rewrite !(Nat.add_comm i). cbn [Nat.add rounds] in *. congruence.
Qed.

Lemma twenty_rounds g q i w state : (forall x y z, word x -> word y -> word z -> g x y z = group_F q x y z) -> regs_word state ->
  (forall j, (j < 80)%nat -> nth j w 0 = W j) -> (q < 4)%nat -> i = (20 * q)%nat ->
  fold_left (five_rounds g (group_K q) w) [i; i + 5; i + 5 + 5; i + 5 + 5 + 5]%nat (rounds state i) = rounds state (i + 5 + 5 + 5 + 5).
Proof. intros Hg Hs Hw Hq ->. cbn [fold_left]. rewrite !five_rounds_ok by (done || lia). done. Qed.

#[local] Opaque rounds.

Lemma sha1_process_block_sw_ok state : regs_word state -> process_block_sw block state = compress state.
Proof.
  intros Hs. unfold process_block_sw, compress. cbv zeta. rewrite sha1_schedule_sw. set (w := map W (seq 0 (16 + 64))).
  assert (forall j, (j < 80)%nat -> nth j w 0 = W j) as Hw by (intros; by apply nth_map_seq). clearbody w. f_equal.
  etransitivity; [|exact (twenty_rounds f1 3 60 w state (fun x y z _ _ _ => eq_refl) Hs Hw ltac:(lia) eq_refl)]. f_equal.
  etransitivity; [|exact (twenty_rounds f2 2 40 w state (fun x y z _ _ _ => f2_Maj x y z) Hs Hw ltac:(lia) eq_refl)]. f_equal.
  etransitivity; [|exact (twenty_rounds f1 1 20 w state (fun x y z _ _ _ => eq_refl) Hs Hw ltac:(lia) eq_refl)]. f_equal.
  exact (twenty_rounds f0 0 0 w state f0_Ch Hs Hw ltac:(lia) eq_refl).
Qed.

#[local] Transparent rounds.

(** ** The registers of the hardware paths *)

Definition msg (t : nat) : v4 := V4 (W t) (W (t + 1)) (W (t + 2)) (W (t + 3)).
Definition wk (t : nat) : v4 := V4 (W t ⊞ K t) (W (t + 1) ⊞ K (t + 1)) (W (t + 2) ⊞ K (t + 2)) (W (t + 3) ⊞ K (t + 3)).
(** The three-way exclusive or of the schedule, for the word [t + 16]. *)
Definition xor3 (t : nat) : Z := Z.lxor (Z.lxor (W t) (W (t + 2))) (W (t + 8)).
Definition part (t : nat) : v4 := V4 (xor3 t) (xor3 (t + 1)) (xor3 (t + 2)) (xor3 (t + 3)).

Lemma W_xor3 t : W (t + 16) = rotl (Z.lxor (xor3 t) (W (t + 13))) 1.
Proof. rewrite sha1_W_next. unfold xor3. f_equal. xors. Qed.

Lemma word_xor3 t : word (xor3 t).
Proof. repeat apply word_lxor; apply sha1_word_W. Qed.

Lemma sha1_vword_msg t : vword (msg t).
Proof. apply vword_V4; apply sha1_word_W. Qed.

Lemma sha1_vword_wk t : vword (wk t).
Proof. apply vword_V4; apply word_add32. Qed.

Lemma sha1_vword_part t : vword (part t).
Proof. apply vword_V4; apply word_xor3. Qed.

End Reference.

Definition abcd (r : regs) : v4 := V4 (ra r) (rb r) (rc r) (rd r).

Lemma sha1_vword_abcd r : regs_word r -> vword (abcd r).
Proof. intros (? & ? & ? & ? & ?)%sha1_regs_word_spec. by apply vword_V4. Qed.

Lemma word_re r : regs_word r -> word (re r).
Proof. by intros (? & ? & ? & ? & ?)%sha1_regs_word_spec. Qed.

Lemma word_group_K q : word (group_K q).
Proof. destruct q as [|[|[|q]]]; by split. Qed.

#[local] Hint Resolve sha1_word_W word_xor3 sha1_vword_msg sha1_vword_wk sha1_vword_part sha1_rounds_word sha1_vword_abcd word_re word_group_K : sha.

(** ** Armv8 *)

(** The manual's pseudocode. *)
Definition SHAchoose (x y z : Z) : Z := Z.lxor (Z.land (Z.lxor y z) x) z.
Definition SHAparity (x y z : Z) : Z := Z.lxor (Z.lxor x y) z.
Definition SHAmajority (x y z : Z) : Z := Z.lor (Z.land x y) (Z.land (Z.lor x y) z).

(** One iteration of the loop that [SHA1C], [SHA1P] and [SHA1M] share; the operands are rotated as
    one 160-bit value. *)
Definition SHA1hash1 (op : Z -> Z -> Z -> Z) (w : Z) (XY : v4 * Z) : v4 * Z :=
  let '(X, Y) := XY in
  let t := op (lane1 X) (lane2 X) (lane3 X) in
  let Y := Y ⊞ rotl (lane0 X) 5 ⊞ t ⊞ w in
  (V4 Y (lane0 X) (rotl (lane1 X) 30) (lane2 X), lane3 X).

Definition SHA1hash (op : Z -> Z -> Z -> Z) (X : v4) (Y : Z) (W : v4) : v4 :=
  (SHA1hash1 op (lane3 W) (SHA1hash1 op (lane2 W) (SHA1hash1 op (lane1 W) (SHA1hash1 op (lane0 W) (X, Y))))).1.

Definition SHA1SU0 (a b c : v4) : v4 :=
  V4 (Z.lxor (Z.lxor (lane2 a) (lane0 a)) (lane0 c)) (Z.lxor (Z.lxor (lane3 a) (lane1 a)) (lane1 c))
     (Z.lxor (Z.lxor (lane0 b) (lane2 a)) (lane2 c)) (Z.lxor (Z.lxor (lane1 b) (lane3 a)) (lane3 c)).

Definition SHA1SU1 (a b : v4) : v4 :=
  let T := V4 (Z.lxor (lane0 a) (lane1 b)) (Z.lxor (lane1 a) (lane2 b)) (Z.lxor (lane2 a) (lane3 b)) (Z.lxor (lane3 a) 0) in
  V4 (rotl (lane0 T) 1) (rotl (lane1 T) 1) (rotl (lane2 T) 1) (Z.lxor (rotl (lane3 T) 1) (rotl (lane0 T) 2)).

Record arm_sha1_ok (f : arm_sha1_insns) : Prop := {
  a_h e : word e -> vsha1h_u32 f e = rotl e 30;
  a_c a e w : vword a -> word e -> vword w -> vsha1cq_u32 f a e w = SHA1hash SHAchoose a e w;
  a_p a e w : vword a -> word e -> vword w -> vsha1pq_u32 f a e w = SHA1hash SHAparity a e w;
  a_m a e w : vword a -> word e -> vword w -> vsha1mq_u32 f a e w = SHA1hash SHAmajority a e w;
  a_su0 a b c : vword a -> vword b -> vword c -> vsha1su0q_u32 f a b c = SHA1SU0 a b c;
  a_su1 a b : vword a -> vword b -> vsha1su1q_u32 f a b = SHA1SU1 a b
}.

Definition arm_manual : arm_sha1_insns := {|
  vsha1h_u32 e := rotl e 30;
  vsha1cq_u32 := SHA1hash SHAchoose;
  vsha1pq_u32 := SHA1hash SHAparity;
  vsha1mq_u32 := SHA1hash SHAmajority;
  vsha1su0q_u32 := SHA1SU0;
  vsha1su1q_u32 := SHA1SU1
|}.

Lemma choose_Ch x y z : word x -> word y -> word z -> SHAchoose x y z = Ch x y z.
Proof. intros. unfold SHAchoose, Ch. bitwise. Qed.

Lemma majority_Maj x y z : SHAmajority x y z = Maj x y z.
Proof.
  apply Z.bits_inj'. intros i Hi. unfold SHAmajority, Maj. rewrite !Z.lxor_spec, !Z.lor_spec, !Z.land_spec, !Z.lor_spec.
  by destruct (Z.testbit x i), (Z.testbit y i), (Z.testbit z i).
Qed.

Lemma sha1_hash1_round op f k w r : (forall x y z, word x -> word y -> word z -> op x y z = f x y z) -> regs_word r ->
  SHA1hash1 op (w ⊞ k) (abcd r, re r) = (abcd (fips_round f k w r), re (fips_round f k w r)).
Proof.
  intros Hop (? & ? & ? & ? & ?)%sha1_regs_word_spec. destruct r as [a b c d e]. cbn [ra rb rc rd re] in *.
  unfold SHA1hash1, abcd, fips_round. cbn [lane0 lane1 lane2 lane3 ra rb rc rd re]. rewrite Hop by done. f_equal. f_equal. sums.
Qed.

Lemma sha1_hash_rounds op q block state t : (forall x y z, word x -> word y -> word z -> op x y z = group_F q x y z) ->
  regs_word state -> (20 * q <= t <= 20 * q + 16)%nat -> let R := rounds block state in
  SHA1hash op (abcd (R t)) (re (R t)) (wk block t) = abcd (R (t + 4)%nat).
Proof.
  intros Hop Hs Ht R.
  assert (forall j, (j < 4)%nat -> SHA1hash1 op (W block (j + t) ⊞ K (j + t)) (abcd (R (j + t)%nat), re (R (j + t)%nat)) =
    (abcd (R (S (j + t))), re (R (S (j + t))))) as H1.
  { intros j Hj. subst R. cbn [rounds]. destruct (group_of q (j + t)) as [-> ->]; [lia|]. apply sha1_hash1_round; [done|]. by apply sha1_rounds_word. }
  pose proof (H1 0%nat ltac:(lia)) as E0. pose proof (H1 1%nat ltac:(lia)) as E1.
  pose proof (H1 2%nat ltac:(lia)) as E2. pose proof (H1 3%nat ltac:(lia)) as E3. cbn [Nat.add] in E0, E1, E2, E3.
  unfold SHA1hash, wk. cbn [lane0 lane1 lane2 lane3]. rewrite !(Nat.add_comm t). cbn [Nat.add]. by rewrite E0, E1, E2, E3.
Qed.

Section Arm.
Context (n : neon) (f : arm_sha1_insns) (Hn : neon_ok n) (Hf : arm_sha1_ok f) (block : list byte) (state : regs).
Context (Hb : length block = 64%nat) (Hs : regs_word state).

Notation R := (rounds block state).

Lemma arm_c t : (t <= 16)%nat -> vsha1cq_u32 f (abcd (R t)) (re (R t)) (wk block t) = abcd (R (t + 4)).
Proof. intros Ht. rewrite a_c by auto with sha. apply (sha1_hash_rounds _ 0); [exact choose_Ch|done|lia]. Qed.

Lemma arm_p t : (20 <= t <= 36 \/ 60 <= t <= 76)%nat -> vsha1pq_u32 f (abcd (R t)) (re (R t)) (wk block t) = abcd (R (t + 4)).
Proof.
  intros Ht. rewrite a_p by auto with sha. destruct Ht; [apply (sha1_hash_rounds _ 1)|apply (sha1_hash_rounds _ 3)]; done || lia.
Qed.

Lemma arm_m t : (40 <= t <= 56)%nat -> vsha1mq_u32 f (abcd (R t)) (re (R t)) (wk block t) = abcd (R (t + 4)).
Proof. intros Ht. rewrite a_m by auto with sha. apply (sha1_hash_rounds _ 2); [intros; apply majority_Maj|done|lia]. Qed.

Lemma re_later t : re (R (t + 4)) = rotl (ra (R t)) 30.
Proof. by rewrite Nat.add_comm. Qed.

Lemma sha1_arm_h t : vsha1h_u32 f (vgetq_lane_u32 n (abcd (R t)) 0) = re (R (t + 4)).
Proof.
  rewrite n_vgetq_lane_u32 by (done || lia || auto with sha). rewrite re_later. apply a_h; [done|].
  by destruct (sha1_vword_abcd _ (sha1_rounds_word block _ t Hs)).
Qed.

Lemma sha1_arm_su0 t : vsha1su0q_u32 f (msg block t) (msg block (t + 4)) (msg block (t + 8)) = part block t.
Proof.
  rewrite a_su0 by auto with sha. unfold SHA1SU0, msg, part, xor3. cbn [lane0 lane1 lane2 lane3].
  rewrite <-!Nat.add_assoc. cbn [Nat.add]. f_equal; xors.
Qed.

Lemma sha1_arm_su1 t : vsha1su1q_u32 f (part block t) (msg block (t + 12)) = msg block (t + 16).
Proof.
  rewrite a_su1 by auto with sha. unfold SHA1SU1, msg, part. cbn [lane0 lane1 lane2 lane3].
  replace (t + 16 + 1)%nat with (t + 1 + 16)%nat by lia. replace (t + 16 + 2)%nat with (t + 2 + 16)%nat by lia.
  replace (t + 16 + 3)%nat with (t + 3 + 16)%nat by lia. rewrite !W_xor3, Z.lxor_0_r.
  replace (t + 3 + 13)%nat with (t + 16)%nat by lia. rewrite W_xor3, (rotl_lxor (xor3 block (t + 3))) by (lia || auto with sha).
  rewrite rotl_rotl by (lia || auto with sha). rewrite <-!Nat.add_assoc. done.
Qed.

Lemma sha1_arm_add_k t q : (20 * q <= t <= 20 * q + 16)%nat -> let k := group_K q in vaddq_u32 n (msg block t) (V4 k k k k) = wk block t.
Proof.
  intros Ht k. rewrite n_vaddq_u32 by (auto with sha || (apply vword_V4; apply word_group_K)).
  unfold wk, vadd, msg. cbn [lane0 lane1 lane2 lane3].
  destruct (group_of q t), (group_of q (t + 1)), (group_of q (t + 2)), (group_of q (t + 3)); [lia..|]. subst k. congruence.
Qed.

Lemma sha1_arm_load t k : (t <= 12)%nat -> k = (t * 4)%nat ->
  vreinterpretq_u32_u8 n (vrev32q_u8 n (vld1q_u8 n (drop k block))) = msg block t.
Proof.
  intros Ht ->. rewrite neon_load by (done || lia). unfold msg, W. rewrite !schedule_first by lia.
  by replace ((t + 1) * 4)%nat with (t * 4 + 4)%nat by lia; replace ((t + 2) * 4)%nat with (t * 4 + 8)%nat by lia;
    replace ((t + 3) * 4)%nat with (t * 4 + 12)%nat by lia.
Qed.

Lemma sha1_arm_load0 : vreinterpretq_u32_u8 n (vrev32q_u8 n (vld1q_u8 n block)) = msg block 0.
Proof. by apply (sha1_arm_load 0 0); [lia|]. Qed.

Lemma sha1_arm_state : vld1q_u32 n (words state) = abcd (R 0).
Proof. pose proof (sha1_regs_word_spec state Hs) as (? & ? & ? & ? & ?). by apply n_vld1q_u32. Qed.

(** The value of the next assignment. *)
Ltac arm_value :=
  first [ apply sha1_arm_h | apply arm_c; lia | apply arm_p; lia | apply arm_m; lia | apply sha1_arm_su0 | apply sha1_arm_su1
        | apply (sha1_arm_add_k _ 0); lia | apply (sha1_arm_add_k _ 1); lia | apply (sha1_arm_add_k _ 2); lia | apply (sha1_arm_add_k _ 3); lia ].

#[local] Opaque rounds msg wk part.

Notation dup q := (V4 (group_K q) (group_K q) (group_K q) (group_K q)).

Lemma arm_0_39_ok : arm_rounds_0_39 n f (abcd (R 0)) (re (R 0)) (msg block 0) (msg block 4) (msg block 8) (msg block 12)
    (dup 0) (dup 1) (dup 2) (wk block 0) (wk block 4) =
  ArmRegs (abcd (R 40)) (re (R 40)) (re (R 36)) (msg block 48) (part block 36) (msg block 40) (msg block 44) (wk block 40) (wk block 44).
Proof. unfold arm_rounds_0_39. repeat step ltac:(arm_value). reflexivity. Qed.

Lemma arm_40_79_ok :
  arm_rounds_40_79 n f (dup 2) (dup 3)
    (ArmRegs (abcd (R 40)) (re (R 40)) (re (R 36)) (msg block 48) (part block 36) (msg block 40) (msg block 44) (wk block 40) (wk block 44)) =
  (abcd (R 80), re (R 80)).
Proof. unfold arm_rounds_40_79. repeat step ltac:(arm_value). reflexivity. Qed.

Lemma sha1_process_block_arm_ok : process_block_arm n f block state = compress block state.
Proof.
  unfold process_block_arm. step ltac:(apply sha1_arm_state). step ltac:(exact (eq_refl (re (R 0)))).
  step ltac:(apply sha1_arm_load0). step ltac:(apply (sha1_arm_load 4); [lia|reflexivity]). step ltac:(apply (sha1_arm_load 8); [lia|reflexivity]).
  step ltac:(apply (sha1_arm_load 12); [lia|reflexivity]). do 2 step ltac:(reflexivity).
  step ltac:(apply (n_vdupq_n_u32 n Hn (group_K 0)); auto with sha). step ltac:(apply (n_vdupq_n_u32 n Hn (group_K 1)); auto with sha).
  step ltac:(apply (n_vdupq_n_u32 n Hn (group_K 2)); auto with sha). step ltac:(apply (n_vdupq_n_u32 n Hn (group_K 3)); auto with sha).
  do 2 step ltac:(arm_value). rewrite arm_0_39_ok, arm_40_79_ok. unfold compress.
  pose proof (sha1_rounds_word block state 80 Hs) as Hr. change (R 0) with state. revert Hr. generalize (R 80). intros r Hr.
  step ltac:(reflexivity). step ltac:(apply n_vaddq_u32; auto with sha).
  rewrite !n_vst1q_u32 by (done || (apply vword_V4; apply word_add32)). unfold add_regs.
  cbn [lane0 lane1 lane2 lane3 vadd abcd]. f_equal; sums.
Qed.

#[local] Transparent rounds msg wk part.

End Arm.

(** ** SHA-NI *)

Definition ni_round (f : Z -> Z -> Z -> Z) (k w : Z) (r : regs) : regs :=
  Regs (f (rb r) (rc r) (rd r) ⊞ rotl (ra r) 5 ⊞ w ⊞ k) (ra r) (rotl (rb r) 30) (rc r) (rd r).

(** The manual's operations.  [SHA1RNDS4] holds A to D from the high lane down, and the first word
    of its second operand comes with E added. *)
Definition SHA1RNDS4 (a b : v4) (imm : Z) : v4 :=
  let f := group_F (Z.to_nat imm) in
  let k := group_K (Z.to_nat imm) in
  let r := ni_round f k (lane3 b) (Regs (lane3 a) (lane2 a) (lane1 a) (lane0 a) 0) in
  let r := ni_round f k (lane2 b ⊞ re r) r in
  let r := ni_round f k (lane1 b ⊞ re r) r in
  let r := ni_round f k (lane0 b ⊞ re r) r in
  V4 (rd r) (rc r) (rb r) (ra r).

Definition SHA1NEXTE (a b : v4) : v4 := V4 (lane0 b) (lane1 b) (lane2 b) (lane3 b ⊞ rotl (lane3 a) 30).

Definition SHA1MSG1 (a b : v4) : v4 :=
  V4 (Z.lxor (lane2 b) (lane0 a)) (Z.lxor (lane3 b) (lane1 a)) (Z.lxor (lane0 a) (lane2 a)) (Z.lxor (lane1 a) (lane3 a)).

Definition SHA1MSG2 (a b : v4) : v4 :=
  let w16 := rotl (Z.lxor (lane3 a) (lane2 b)) 1 in
  let w17 := rotl (Z.lxor (lane2 a) (lane1 b)) 1 in
  let w18 := rotl (Z.lxor (lane1 a) (lane0 b)) 1 in
  V4 (rotl (Z.lxor (lane0 a) w16) 1) w18 w17 w16.

Record x86_sha1_ok (f : x86_sha1) : Prop := {
  i_rnds4 a b imm : vword a -> vword b -> 0 <= imm < 4 -> _mm_sha1rnds4_epu32 f a b imm = SHA1RNDS4 a b imm;
  i_nexte a b : vword a -> vword b -> _mm_sha1nexte_epu32 f a b = SHA1NEXTE a b;
  i_msg1 a b : vword a -> vword b -> _mm_sha1msg1_epu32 f a b = SHA1MSG1 a b;
  i_msg2 a b : vword a -> vword b -> _mm_sha1msg2_epu32 f a b = SHA1MSG2 a b
}.

Definition x86_manual : x86_sha1 := {|
  _mm_sha1rnds4_epu32 := SHA1RNDS4; _mm_sha1nexte_epu32 := SHA1NEXTE;
  _mm_sha1msg1_epu32 := SHA1MSG1; _mm_sha1msg2_epu32 := SHA1MSG2
|}.

Lemma sha1_ni_round_fips f k w r : ni_round f k (w ⊞ re r) r = fips_round f k w r.
Proof. unfold ni_round, fips_round. f_equal. sums. Qed.

Definition rabcd (r : regs) : v4 := V4 (rd r) (rc r) (rb r) (ra r).

Lemma vword_rabcd r : regs_word r -> vword (rabcd r).
Proof. intros (? & ? & ? & ? & ?)%sha1_regs_word_spec. by apply vword_V4. Qed.

#[local] Hint Resolve vword_rabcd : sha.

Section Ni.
Context (x : sse) (f : x86_sha1) (Hx : sse_ok x) (Hf : x86_sha1_ok f) (block : list byte) (state : regs).
Context (Hb : length block = 64%nat) (Hs : regs_word state).

Notation R := (rounds block state).
Notation W := (W block).

(** Registers of the schedule, from the high lane down. *)
Definition rmsg (t : nat) : v4 := V4 (W (t + 3)) (W (t + 2)) (W (t + 1)) (W t).
Definition we (t : nat) : v4 := V4 (W (t + 3)) (W (t + 2)) (W (t + 1)) (W t ⊞ re (R t)).
Definition xor2 (t : nat) : v4 :=
  V4 (Z.lxor (W (t + 3)) (W (t + 5))) (Z.lxor (W (t + 2)) (W (t + 4))) (Z.lxor (W (t + 1)) (W (t + 3))) (Z.lxor (W t) (W (t + 2))).
Definition rpart (t : nat) : v4 := V4 (xor3 block (t + 3)) (xor3 block (t + 2)) (xor3 block (t + 1)) (xor3 block t).

Lemma vword_rmsg t : vword (rmsg t).
Proof. apply vword_V4; apply sha1_word_W. Qed.

Lemma vword_we t : vword (we t).
Proof. apply vword_V4; solve [apply sha1_word_W | apply word_add32]. Qed.

Lemma vword_xor2 t : vword (xor2 t).
Proof. apply vword_V4; apply word_lxor; apply sha1_word_W. Qed.

Lemma vword_rpart t : vword (rpart t).
Proof. apply vword_V4; apply word_xor3. Qed.

Hint Resolve vword_rmsg vword_we vword_xor2 vword_rpart : sha.

Lemma ni_rnds4 t imm : 0 <= imm < 4 -> (20 * Z.to_nat imm <= t <= 20 * Z.to_nat imm + 16)%nat ->
  _mm_sha1rnds4_epu32 f (rabcd (R t)) (we t) imm = rabcd (R (t + 4)).
Proof.
  intros Hi Ht. rewrite i_rnds4 by auto with sha. unfold SHA1RNDS4, we. cbn [lane0 lane1 lane2 lane3 rabcd].
  set (q := Z.to_nat imm) in *.
  assert (forall j, (j < 4)%nat -> fips_round (group_F q) (group_K q) (W (j + t)) (R (j + t)%nat) = R (S (j + t))) as H1.
  { intros j Hj. cbn [rounds]. destruct (group_of q (j + t)) as [-> ->]; [lia|done]. }
  pose proof (H1 0%nat ltac:(lia)) as E0. pose proof (H1 1%nat ltac:(lia)) as E1.
  pose proof (H1 2%nat ltac:(lia)) as E2. pose proof (H1 3%nat ltac:(lia)) as E3. cbn [Nat.add] in E0, E1, E2, E3.
  assert (ni_round (group_F q) (group_K q) (W t ⊞ re (R t)) (Regs (ra (R t)) (rb (R t)) (rc (R t)) (rd (R t)) 0) = R (S t)) as ->
    by (rewrite <-E0, <-sha1_ni_round_fips; done).
  rewrite !(Nat.add_comm t). cbn [Nat.add]. by rewrite !sha1_ni_round_fips, E1, E2, E3.
Qed.

Lemma ni_nexte t u : u = (t + 4)%nat -> _mm_sha1nexte_epu32 f (rabcd (R t)) (rmsg u) = we u.
Proof. intros ->. rewrite i_nexte by auto with sha. unfold SHA1NEXTE, we, rmsg. cbn [lane0 lane1 lane2 lane3 rabcd]. by rewrite re_later. Qed.

Lemma sha1_ni_msg1 t : _mm_sha1msg1_epu32 f (rmsg t) (rmsg (t + 4)) = xor2 t.
Proof.
  rewrite i_msg1 by auto with sha. unfold SHA1MSG1, rmsg, xor2. cbn [lane0 lane1 lane2 lane3]. rewrite <-!Nat.add_assoc. cbn [Nat.add].
  f_equal; apply Z.lxor_comm.
Qed.

Lemma ni_xor t : _mm_xor_si128 x (xor2 t) (rmsg (t + 8)) = rpart t.
Proof.
  rewrite x_xor_si128 by auto with sha. unfold vxor, xor2, rmsg, rpart, xor3. cbn [lane0 lane1 lane2 lane3].
  rewrite <-!Nat.add_assoc. done.
Qed.

Lemma sha1_ni_msg2 t : _mm_sha1msg2_epu32 f (rpart t) (rmsg (t + 12)) = rmsg (t + 16).
Proof.
  rewrite i_msg2 by auto with sha. unfold SHA1MSG2, rpart, rmsg. cbn [lane0 lane1 lane2 lane3].
  replace (t + 16 + 1)%nat with (t + 1 + 16)%nat by lia. replace (t + 16 + 2)%nat with (t + 2 + 16)%nat by lia.
  replace (t + 16 + 3)%nat with (t + 3 + 16)%nat by lia. rewrite !W_xor3.
  replace (t + 3 + 13)%nat with (t + 16)%nat by lia. rewrite W_xor3. rewrite <-!Nat.add_assoc. done.
Qed.

Lemma sha1_ni_load t k : (t <= 12)%nat -> k = (t * 4)%nat ->
  _mm_shuffle_epi8 x (_mm_loadu_si128 x (drop k block)) (sha1_mask x) = rmsg t.
Proof.
  intros Ht ->. rewrite sse_load_rev by (done || lia). unfold rmsg, Sha1.W. rewrite !schedule_first by lia.
  by replace ((t + 1) * 4)%nat with (t * 4 + 4)%nat by lia; replace ((t + 2) * 4)%nat with (t * 4 + 8)%nat by lia;
    replace ((t + 3) * 4)%nat with (t * 4 + 12)%nat by lia.
Qed.

Lemma sha1_ni_load0 : _mm_shuffle_epi8 x (_mm_loadu_si128 x block) (sha1_mask x) = rmsg 0.
Proof. by apply (sha1_ni_load 0 0); [lia|]. Qed.

Notation e_only := (V4 0 0 0 (re state)).

Lemma sha1_ni_first : _mm_add_epi32 x e_only (rmsg 0) = we 0.
Proof.
  rewrite x_add_epi32 by (auto with sha || (apply vword_V4; (done || by split) || auto with sha)). unfold vadd, rmsg, we. cbn [lane0 lane1 lane2 lane3].
  assert (forall t, 0 ⊞ W t = W t) as H0 by (intros t; apply u32_small; apply sha1_word_W). rewrite !H0. f_equal. change (R 0) with state. sums.
Qed.

#[local] Opaque rounds rabcd rmsg we xor2 rpart.

(** The value of the next assignment. *)
Ltac ni_value :=
  first [ lazymatch goal with |- rabcd _ = _ => reflexivity end
        | apply ni_rnds4; [lia|simpl; lia] | apply ni_nexte; reflexivity | apply sha1_ni_msg1 | apply ni_xor | apply sha1_ni_msg2 | apply sha1_ni_first ].

Lemma rounds_0_39_ok : sha_ni_rounds_0_39 x f (rabcd (R 0)) e_only (rmsg 0) (rmsg 4) (rmsg 8) (rmsg 12) =
  Ni (rabcd (R 40)) (rabcd (R 36)) (we 36) (xor2 32) (rmsg 36) (rmsg 40) (rpart 28).
Proof. unfold sha_ni_rounds_0_39. repeat step ltac:(ni_value). reflexivity. Qed.

Lemma rounds_40_79_ok :
  sha_ni_rounds_40_79 x f (Ni (rabcd (R 40)) (rabcd (R 36)) (we 36) (xor2 32) (rmsg 36) (rmsg 40) (rpart 28)) = (rabcd (R 80), rabcd (R 76)).
Proof. unfold sha_ni_rounds_40_79. repeat step ltac:(ni_value). reflexivity. Qed.

#[local] Transparent rounds rabcd rmsg we xor2 rpart.

Lemma ni_last : _mm_sha1nexte_epu32 f (rabcd (R 76)) e_only = V4 0 0 0 (re state ⊞ re (R 80)).
Proof.
  rewrite i_nexte by (auto with sha || (apply vword_V4; (done || by split) || auto with sha)).
  unfold SHA1NEXTE. cbn [lane0 lane1 lane2 lane3 rabcd]. change 80%nat with (76 + 4)%nat. by rewrite re_later.
Qed.

#[local] Opaque rounds.

Lemma sha1_process_block_sha_ni_ok : process_block_sha_ni x f block state = compress block state.
Proof.
  pose proof (sha1_regs_word_spec state Hs) as (? & ? & ? & ? & ?).
  unfold process_block_sha_ni. step ltac:(exact (eq_refl (sha1_mask x))). step ltac:(apply sse_load_words; done).
  assert (u32 (swrap 32 (re state)) = re state) as E by (unfold u32; rewrite uwrap_swrap; by apply u32_small).
  step ltac:(rewrite x_set_epi32, E by done; exact (eq_refl e_only)). step ltac:(apply sse_shuffle_1B; [done|by apply vword_V4]).
  do 2 step ltac:(reflexivity). step ltac:(apply sha1_ni_load0). step ltac:(apply (sha1_ni_load 4); [lia|reflexivity]).
  step ltac:(apply (sha1_ni_load 8); [lia|reflexivity]). step ltac:(apply (sha1_ni_load 12); [lia|reflexivity]).
  change (V4 (rd state) (rc state) (rb state) (ra state)) with (rabcd (R 0)). rewrite rounds_0_39_ok, rounds_40_79_ok.
  step ltac:(apply ni_last). unfold compress.
  pose proof (sha1_rounds_word block state 80 Hs) as Hr. change (R 0) with state. revert Hr. generalize (R 80). intros r Hr.
  step ltac:(apply x_add_epi32; auto with sha). cbn [vadd rabcd lane0 lane1 lane2 lane3].
  assert (forall a b c d a' b' c' d', vword (V4 (a ⊞ a') (b ⊞ b') (c ⊞ c') (d ⊞ d'))) as Hv
    by (intros; apply vword_V4; apply word_add32).
  step ltac:(apply sse_shuffle_1B; auto). step ltac:(apply x_storeu; auto).
  match goal with |- context [u32_at (v4_bytes (V4 ?a ?b ?c ?d)) 0] =>
    destruct (u32_at_bytes a b c d (Hv _ _ _ _ _ _ _ _)) as (-> & -> & -> & ->) end.
  rewrite x_extract_epi32 by (done || lia || (apply vword_V4; (by split) || apply word_add32)).
  unfold add_regs. cbn [lane0 lane1 lane2 lane3 rabcd]. f_equal; sums.
Qed.

#[local] Transparent rounds.

End Ni.

(** ** Properties *)

(** The instructions the processor reports do what the manuals say. *)
Definition platform_ok (p : platform) (c : cpu) : Prop :=
  match p with
  | Portable => True
  | Arm64 n f => arm_sha1 c = true -> neon_ok n /\ arm_sha1_ok f
  | X86 x f => sha_ni c = true -> sse_ok x /\ x86_sha1_ok f
  end.

Lemma sha1_process_block_ok p c block state : platform_ok p c -> length block = 64%nat -> regs_word state ->
  process_block p c block state = compress block state.
Proof.
  intros Hp Hl Hs. destruct p as [|n f|x f]; cbn [process_block]; [by apply sha1_process_block_sw_ok|..].
  - unfold use_arm_sha1. destruct (arm_sha1 c) eqn:E; [destruct (force_software c)|]; [by apply sha1_process_block_sw_ok| |by apply sha1_process_block_sw_ok].
    destruct (Hp E). by apply sha1_process_block_arm_ok.
  - unfold use_sha_ni. destruct (sha_ni c) eqn:E; [destruct (force_software c)|]; [by apply sha1_process_block_sw_ok| |by apply sha1_process_block_sw_ok].
    destruct (Hp E). by apply sha1_process_block_sha_ni_ok.
Qed.

Definition fips_sha1 (msg : list byte) : list byte := reference compress initial words msg.

(** [C8] SHA-1 is SHA-1, on every path: whatever the processor reports and the
    software override says, so whichever block function the dispatcher selects (the
    software rounds that rename their variables, the Armv8 or the SHA-NI sequence, given
    instructions that do what their manuals say), whatever the buffer held before [reset] and
    however a message of fewer than 2^61 bytes is cut into [update] calls, [finalize] returns the
    FIPS 180-4 digest of the whole message. *)
Theorem sha1_matches_reference p c ctx pieces :
  platform_ok p c -> length (buffer_ ctx) = block_size -> zlen (concat pieces) < 2 ^ 61 ->
  (sha1_finalize p c (foldl (fun ctx piece => sha1_update p c piece ctx) (sha1_reset ctx) pieces)).1 = fips_sha1 (concat pieces).
Proof.
  intros Hb Hc Hl. unfold sha1_finalize, sha1_update, sha1_reset. rewrite context_correct by done. unfold fips_sha1.
  apply (reference_ext _ _ regs_word).
  - intros block state Hlen Hs. split; [by apply sha1_process_block_ok|apply sha1_compress_word].
  - repeat (apply Forall_cons_2; [by split|]). apply Forall_nil_2.
Qed.

Lemma sha1_matches_reference_witness : let p := X86 sse_manual x86_manual in let c := Cpu true true true false in
  (sha1_finalize p c (foldl (fun ctx piece => sha1_update p c piece ctx) (sha1_reset (Ctx initial 7 (repeat (z2b 170) 64) 9))
                        [map z2b [97]; map z2b [98; 99]])).1 =
  fips_sha1 (map z2b [97; 98; 99]) /\
  firstn 4 (fips_sha1 (map z2b [97; 98; 99])) = map z2b [0xa9; 0x99; 0x3e; 0x36].
Proof.
  split; [|vm_compute; reflexivity].
  apply (sha1_matches_reference (X86 sse_manual x86_manual) (Cpu true true true false) (Ctx initial 7 (repeat (z2b 170) 64) 9) [map z2b [97]; map z2b [98; 99]]).
  - intros _. split; [exact sse_manual_ok|split; reflexivity].
  - reflexivity.
  - reflexivity.
Defined.

End Sha1.
