(* ===== verification/RpcBuffer.v ===== *)
(** * RPC buffers

    Models [src/include/elio/rpc/rpc_buffer.hpp].  A [Buf.buffer_view] is a window ([base], [size_])
    on a memory object with a read position; views and spans handed out by the readers are
    windows on the same object, as in the code (nothing is copied).  A [Buf.buffer_writer] is the
    vector of the bytes written so far.  Exceptions do not undo what was done before them, so
    an operation returns its outcome and the new state ([Buf.op]). *)

From S2P Require Import Prelude Endian.

Module Buf.
Export Endian EndianFacts.

Definition max_message_size : Z := 16 * 1024 * 1024.
Definition IOV_MAX : Z := 1024.

(** The [serialization_error]s, one constructor per message of the code. *)
Inductive serialization_error :=
| seek_past_end | skip_past_end | read_past_end | peek_past_end | read_bytes_past_end
| string_length_exceeds_buffer | blob_length_exceeds_buffer
| string_too_long | blob_too_long | write_at_past_end
| exceeded_IOV_MAX_limit | total_size_overflow
| container_count_exceeds_max | container_count_exceeds_remaining
| trailing_bytes.

(** Operations on a state that may throw. *)
Definition op (S A : Type) : Type := S -> result serialization_error A * S.

Definition ret {S A} (a : A) : op S A := fun s => (Ok a, s).
Definition throw {S A} (e : serialization_error) : op S A := fun s => (Throw e, s).
Definition bind {S A B} (m : op S A) (k : A -> op S B) : op S B := fun s =>
  match m s with
  | (Ok a, s) => k a s
  | (Throw e, s) => (Throw e, s)
  end.

Notation "x <- m ;; k" := (bind m (fun x => k))
  (at level 100, m at next level, right associativity, only parsing) : elio_scope.
Notation "m ;;; k" := (bind m (fun _ => k))
  (at level 100, right associativity, only parsing) : elio_scope.

(** ** Views *)

Record buffer_view := View { mem : list byte; base : Z; size_ : Z; pos_ : Z }.

(** A span handed out: offset in the memory object and length. *)
Record span := Span { off : Z; len : Z }.

Definition bytes_at (m : list byte) (o n : Z) : list byte := take (Z.to_nat n) (drop (Z.to_nat o) m).
Definition span_bytes (m : list byte) (s : span) : list byte := bytes_at m (off s) (len s).

Definition view_of (m : list byte) : buffer_view := View m 0 (zlen m) 0.

Definition with_pos (p : Z) (v : buffer_view) : buffer_view := View (mem v) (base v) (size_ v) p.

Definition remaining (v : buffer_view) : Z := u64 (size_ v - pos_ v).

Definition seek (p : Z) : op buffer_view unit := fun v =>
  if p >? size_ v then throw seek_past_end v else (Ok tt, with_pos p v).

Definition skip (n : Z) : op buffer_view unit := fun v =>
  if u64 (pos_ v + n) >? size_ v then throw skip_past_end v else (Ok tt, with_pos (u64 (pos_ v + n)) v).

(** The decoded value of the scalar at the read position. *)
Definition scalar_at (host : endian) (t : scalar) (v : buffer_view) : Z :=
  read_le host t (drop (Z.to_nat (base v + pos_ v)) (mem v)).

Definition read (host : endian) (t : scalar) : op buffer_view Z := fun v =>
  let n := Z.of_nat (sizeof t) in
  if u64 (pos_ v + n) >? size_ v then throw read_past_end v
  else (Ok (scalar_at host t v), with_pos (u64 (pos_ v + n)) v).

Definition peek (host : endian) (t : scalar) : op buffer_view Z := fun v =>
  if u64 (pos_ v + Z.of_nat (sizeof t)) >? size_ v then throw peek_past_end v
  else (Ok (scalar_at host t v), v).

Definition read_bytes (n : Z) : op buffer_view buffer_view := fun v =>
  if u64 (pos_ v + n) >? size_ v then throw read_bytes_past_end v
  else (Ok (View (mem v) (base v + pos_ v) n 0), with_pos (u64 (pos_ v + n)) v).

(** [read_string] and [read_blob] after the length has been read. *)
Definition take_span (e : serialization_error) (l : Z) : op buffer_view span := fun v =>
  if l >? u64 (size_ v - pos_ v) then throw e v
  else (Ok (Span (base v + pos_ v) l), with_pos (u64 (pos_ v + l)) v).

Definition read_string (host : endian) : op buffer_view span :=
  l <- read host (Unsigned 4) ;; take_span string_length_exceeds_buffer l.

Definition read_blob (host : endian) : op buffer_view span :=
  l <- read host (Unsigned 4) ;; take_span blob_length_exceeds_buffer l.

Definition read_array_size (host : endian) : op buffer_view Z := read host (Unsigned 4).

Definition remaining_span (v : buffer_view) : span := Span (base v + pos_ v) (remaining v).

(** ** Writers *)

Definition buffer_writer := list byte.

Definition write (host : endian) (t : scalar) (value : Z) : op buffer_writer unit := fun w =>
  (Ok tt, w ++ write_le host t value).

Definition write_bytes (src : list byte) : op buffer_writer unit := fun w =>
  if zlen src =? 0 then (Ok tt, w) else (Ok tt, w ++ src).

Definition write_string (host : endian) (str : list byte) : op buffer_writer unit :=
  if zlen str >? UINT32_MAX then throw string_too_long
  else write host (Unsigned 4) (u32 (zlen str)) ;;; write_bytes str.

Definition write_blob (host : endian) (blob : list byte) : op buffer_writer unit :=
  if zlen blob >? UINT32_MAX then throw blob_too_long
  else write host (Unsigned 4) (u32 (zlen blob)) ;;; write_bytes blob.

Definition write_array_size (host : endian) (count : Z) : op buffer_writer unit :=
  write host (Unsigned 4) count.

(** [resize] value-initialises the new bytes. *)
Definition reserve_space (n : Z) : op buffer_writer Z := fun w =>
  (Ok (zlen w), w ++ replicate (Z.to_nat n) (z2b 0)).

Definition write_at (host : endian) (t : scalar) (offset value : Z) : op buffer_writer unit := fun w =>
  if u64 (offset + Z.of_nat (sizeof t)) >? zlen w then throw write_at_past_end w
  else (Ok tt, take (Z.to_nat offset) w ++ write_le host t value ++ drop (Z.to_nat offset + sizeof t) w).

Definition writer_view (w : buffer_writer) : buffer_view := view_of w.

(** ** Scatter-gather lists *)

Record iovec_buffer := IovecBuffer { iovecs_ : list (list byte); total_size_ : Z }.

Definition iovec_empty : iovec_buffer := IovecBuffer [] 0.

Definition iovec_add (seg : list byte) : op iovec_buffer unit := fun b =>
  if 0 <? zlen seg then
    if IOV_MAX <=? zlen (iovecs_ b) then throw exceeded_IOV_MAX_limit b
    else if total_size_ b >? SIZE_MAX - zlen seg then throw total_size_overflow b
    else (Ok tt, IovecBuffer (iovecs_ b ++ [seg]) (u64 (total_size_ b + zlen seg)))
  else (Ok tt, b).

Definition iovec_clear (b : iovec_buffer) : iovec_buffer := iovec_empty.

Definition flatten (b : iovec_buffer) : list byte := fold_left (fun r seg => r ++ seg) (iovecs_ b) [].

(** ** Sequences of reads *)

Inductive vop :=
| Seek (p : Z) | Skip (n : Z) | Read (t : scalar) | Peek (t : scalar)
| ReadBytes (n : Z) | ReadString | ReadBlob.

(** The windows of the memory object an operation hands out or decodes from, and the view
    after it. *)
Definition exec (host : endian) (o : vop) (v : buffer_view) : list span * buffer_view :=
  let here n := Span (base v + pos_ v) n in
  match o with
  | Seek p => ([], snd (seek p v))
  | Skip n => ([], snd (skip n v))
  | Read t => let '(r, v') := read host t v in
              ((match r with Ok _ => [here (Z.of_nat (sizeof t))] | Throw _ => [] end), v')
  | Peek t => let '(r, v') := peek host t v in
              ((match r with Ok _ => [here (Z.of_nat (sizeof t))] | Throw _ => [] end), v')
  | ReadBytes n => let '(r, v') := read_bytes n v in
                   ((match r with Ok b => [Span (base b) (size_ b)] | Throw _ => [] end), v')
  | ReadString => let '(r, v') := read_string host v in
                  ((match r with Ok s => [s] | Throw _ => [] end), v')
  | ReadBlob => let '(r, v') := read_blob host v in
                ((match r with Ok s => [s] | Throw _ => [] end), v')
  end.

Fixpoint exec_all (host : endian) (ops : list vop) (v : buffer_view) : list span * buffer_view :=
  match ops with
  | [] => ([], v)
  | o :: ops => let '(s1, v1) := exec host o v in
                let '(s2, v2) := exec_all host ops v1 in (s1 ++ s2, v2)
  end.

(** Arguments of the callers: a position or count is a [size_t]; [skip] and [read_bytes] are
    called with less than half the address space. *)
Definition vop_ok (o : vop) : Prop :=
  match o with
  | Seek p => 0 <= p < 2 ^ 64
  | Skip n | ReadBytes n => 0 <= n < 2 ^ 63
  | Read t | Peek t => supported t
  | ReadString | ReadBlob => True
  end.

(** ** Well-formed views *)

(** The window lies in its memory object, which is at most half the address space, and the
    position lies in the window. *)
Record view_ok (v : buffer_view) : Prop := {
  mem_small : zlen (mem v) < 2 ^ 63;
  base_pos : 0 <= base v;
  window_in : base v + size_ v <= zlen (mem v);
  pos_in : 0 <= pos_ v <= size_ v
}.

(** A span inside the window of a view. *)
Definition span_in (v : buffer_view) (s : span) : Prop :=
  base v <= off s /\ 0 <= len s /\ off s + len s <= base v + size_ v.

(** [v'] is [v] read further. *)
Definition advanced (v v' : buffer_view) : Prop :=
  mem v' = mem v /\ base v' = base v /\ size_ v' = size_ v /\ pos_ v <= pos_ v' <= size_ v.

(** The bytes not read yet. *)
Definition rest (v : buffer_view) : list byte := bytes_at (mem v) (base v + pos_ v) (size_ v - pos_ v).

(** What a reader promises: whatever the bytes, it stays in the window, and on bytes that
    start with [w] it returns [a] and consumes exactly [w]. *)
Definition reader_safe {A} (r : op buffer_view A) : Prop :=
  forall v, view_ok v -> advanced v (snd (r v)).

Definition reads {A} (r : op buffer_view A) (w : list byte) (a : A) : Prop :=
  forall v tl, view_ok v -> rest v = w ++ tl -> r v = (Ok a, with_pos (pos_ v + zlen w) v).

Definition writes (wr : op buffer_writer unit) (w : list byte) : Prop :=
  forall b, wr b = (Ok tt, b ++ w).

(** ** Lemmas *)

Lemma advanced_ok v v' : view_ok v -> advanced v v' -> view_ok v'.
Proof. intros [] (E1 & E2 & E3 & ?). split; rewrite ?E1, ?E2, ?E3; lia. Qed.

Lemma advanced_refl v : view_ok v -> advanced v v.
Proof. intros []. unfold advanced. split_and!; done || lia. Qed.

Lemma advanced_trans v1 v2 v3 : advanced v1 v2 -> advanced v2 v3 -> advanced v1 v3.
Proof. intros (E1 & E2 & E3 & ?) (F1 & F2 & F3 & ?). unfold advanced. rewrite F1, F2, F3. split_and!; done || lia. Qed.

Lemma advanced_pos v n : view_ok v -> 0 <= n <= size_ v - pos_ v -> advanced v (with_pos (pos_ v + n) v).
Proof. intros [] ?. unfold advanced. simpl. split_and!; done || lia. Qed.

Lemma view_pos_add v n : view_ok v -> 0 <= n < 2 ^ 63 -> u64 (pos_ v + n) = pos_ v + n.
Proof. intros [] ?. apply u64_small. lia. Qed.

Lemma remaining_eq v : view_ok v -> remaining v = size_ v - pos_ v.
Proof. intros []. apply u64_small. lia. Qed.

Lemma zlen_bytes_at m o n : 0 <= o -> 0 <= n -> o + n <= zlen m -> zlen (bytes_at m o n) = n.
Proof. unfold zlen, bytes_at. intros. rewrite length_take, length_drop. lia. Qed.

Lemma zlen_rest v : view_ok v -> zlen (rest v) = size_ v - pos_ v.
Proof. intros []. apply zlen_bytes_at; lia. Qed.

Lemma rest_view_of m : rest (view_of m) = m.
Proof. unfold rest, bytes_at, view_of. simpl. apply take_ge. unfold zlen. lia. Qed.

Lemma view_of_ok m : zlen m < 2 ^ 63 -> view_ok (view_of m).
Proof. intros. pose proof (zlen_nonneg m). split; simpl; lia. Qed.

(** The rest after consuming a prefix of it. *)
Lemma rest_advance v w tl : view_ok v -> rest v = w ++ tl -> rest (with_pos (pos_ v + zlen w) v) = tl.
Proof.
  intros Hv E. pose proof (zlen_rest v Hv) as Hl. rewrite E, zlen_app in Hl.
  pose proof (zlen_nonneg w). pose proof (zlen_nonneg tl). destruct Hv. simpl in *.
  unfold rest, bytes_at in *. simpl.
  apply (f_equal (drop (length w))) in E. rewrite drop_app_length in E. rewrite <-E, skipn_firstn_comm, drop_drop.
  unfold zlen in *. f_equal; [lia|]. f_equal. lia.
Qed.

Lemma advance_ok v w tl : view_ok v -> rest v = w ++ tl -> view_ok (with_pos (pos_ v + zlen w) v).
Proof.
  intros Hv E. pose proof (zlen_rest v Hv) as Hl. rewrite E, zlen_app in Hl.
  pose proof (zlen_nonneg w). pose proof (zlen_nonneg tl).
  eapply advanced_ok; [done|]. apply advanced_pos; [done|lia].
Qed.

Lemma bind_safe {A B} (m : op buffer_view A) (k : A -> op buffer_view B) :
  reader_safe m -> (forall a, reader_safe (k a)) -> reader_safe (bind m k).
Proof.
  intros Hm Hk v Hv. specialize (Hm v Hv). unfold bind. destruct (m v) as [[a|e] v']; simpl in *; [|done].
  eapply advanced_trans; [done|]. apply Hk. by eapply advanced_ok.
Qed.

Lemma ret_safe {A} (a : A) : reader_safe (ret a).
Proof. intros v Hv. by apply advanced_refl. Qed.

Lemma throw_safe {A} e : reader_safe (throw e : op buffer_view A).
Proof. intros v Hv. by apply advanced_refl. Qed.

Lemma bind_reads {A B} (m : op buffer_view A) (k : A -> op buffer_view B) w1 w2 a b :
  reads m w1 a -> reads (k a) w2 b -> reads (bind m k) (w1 ++ w2) b.
Proof.
  intros Hm Hk v tl Hv E. rewrite <-app_assoc in E. unfold bind. rewrite (Hm v _ Hv E).
  rewrite (Hk _ tl); [|by eapply advance_ok|by eapply rest_advance].
  f_equal. unfold with_pos. simpl. by rewrite zlen_app, Z.add_assoc.
Qed.

Lemma ret_reads {A} (a : A) : reads (ret a) [] a.
Proof. intros v tl _ _. unfold ret. f_equal. destruct v. unfold with_pos. simpl. f_equal. unfold zlen. simpl. lia. Qed.

Lemma bind_writes {A} (m : op buffer_writer A) (k : op buffer_writer unit) w1 w2 a :
  (forall b, m b = (Ok a, b ++ w1)) -> writes k w2 -> writes (bind m (fun _ => k)) (w1 ++ w2).
Proof. intros Hm Hk b. unfold bind. rewrite Hm, Hk. by rewrite app_assoc. Qed.

Lemma ret_writes : writes (ret tt) [].
Proof. intros b. unfold ret. by rewrite app_nil_r. Qed.

(** *** Scalars *)

Lemma sizeof_bound t : supported t -> 0 < Z.of_nat (sizeof t) <= 2 ^ 32.
Proof. destruct t; simpl; lia. Qed.

Lemma read_safe host t : supported t -> reader_safe (read host t).
Proof.
  intros Ht v Hv. pose proof (sizeof_bound t Ht). unfold read.
  rewrite view_pos_add by (done || lia). case_if; simpl; [by apply advanced_refl|]. zbool.
  apply advanced_pos; [done|]. lia.
Qed.

Lemma read_reads host host' t x : supported t -> in_type t x -> reads (read host t) (write_le host' t x) x.
Proof.
  intros Ht Hx v tl Hv E. pose proof (sizeof_bound t Ht).
  pose proof (zlen_rest v Hv) as Hl. rewrite E, zlen_app in Hl. pose proof (zlen_nonneg tl).
  assert (zlen (write_le host' t x) = Z.of_nat (sizeof t)) as Hw by (unfold zlen; by rewrite length_write_le).
  unfold read. rewrite view_pos_add by (done || lia). rewrite Hw in *. case_if; [zbool; lia|].
  f_equal. f_equal. unfold scalar_at. unfold rest, bytes_at in E.
  assert (drop (Z.to_nat (base v + pos_ v)) (mem v) =
    write_le host' t x ++ tl ++ drop (Z.to_nat (size_ v - pos_ v)) (drop (Z.to_nat (base v + pos_ v)) (mem v))) as ->.
  { rewrite app_assoc, <-E. by rewrite take_drop. }
  by apply read_write_le.
Qed.

Lemma write_writes host t x : writes (write host t x) (write_le host t x).
Proof. done. Qed.

Lemma write_bytes_writes l : writes (write_bytes l) l.
Proof.
  intros b. unfold write_bytes. case_if; [|done]. destruct l; [by rewrite app_nil_r|].
  zbool. rewrite zlen_cons in *. pose proof (zlen_nonneg l). lia.
Qed.

(** *** Strings and blobs *)

Lemma take_span_cases e l v : view_ok v -> 0 <= l < 2 ^ 32 ->
  take_span e l v =
    if l <=? size_ v - pos_ v then (Ok (Span (base v + pos_ v) l), with_pos (pos_ v + l) v) else (Throw e, v).
Proof.
  intros Hv Hl. unfold take_span, throw. fold (remaining v). rewrite remaining_eq by done.
  rewrite Z.gtb_ltb, Z.ltb_antisym. destruct (l <=? _) eqn:E; simpl; [|done].
  rewrite view_pos_add by (done || lia). done.
Qed.

Lemma read_u32_range host v x v' : read host (Unsigned 4) v = (Ok x, v') -> view_ok v -> 0 <= x < 2 ^ 32.
Proof.
  unfold read. intros E Hv. rewrite view_pos_add in E by (done || simpl; lia). case_if; [done|].
  destruct Hv. zbool.
  assert (scalar_at host (Unsigned 4) v = cast (Unsigned 4) (le_val (take 4 (drop (Z.to_nat (base v + pos_ v)) (mem v)))))
    as Hs.
  { apply (read_le_value host (Unsigned 4)); [simpl; lia|]. rewrite length_drop. unfold zlen in *. simpl in *. lia. }
  rewrite Hs in E. injection E as <- <-. apply (uwrap_range 32). lia.
Qed.

Lemma read_u32_bind_safe {A} host (k : Z -> op buffer_view A) :
  (forall l v, 0 <= l < 2 ^ 32 -> view_ok v -> advanced v (snd (k l v))) ->
  reader_safe (bind (read host (Unsigned 4)) k).
Proof.
  intros Hk v Hv. pose proof (read_safe host (Unsigned 4) ltac:(simpl; lia) v Hv) as Ha. unfold bind.
  destruct (read host (Unsigned 4) v) as [[l|e] v'] eqn:E; [|done].
  eapply advanced_trans; [exact Ha|]. apply Hk; [by eapply read_u32_range|by eapply advanced_ok].
Qed.

Lemma take_span_safe e l v : 0 <= l < 2 ^ 32 -> view_ok v -> advanced v (snd (take_span e l v)).
Proof.
  intros Hl Hv. rewrite take_span_cases by done. case_if; zbool; [|by apply advanced_refl].
  apply advanced_pos; [done|lia].
Qed.

Lemma read_string_safe host : reader_safe (read_string host).
Proof. apply read_u32_bind_safe. intros. by apply take_span_safe. Qed.

Lemma read_blob_safe host : reader_safe (read_blob host).
Proof. apply read_u32_bind_safe. intros. by apply take_span_safe. Qed.

Lemma take_span_in e l v s v' : 0 <= l < 2 ^ 32 -> view_ok v -> take_span e l v = (Ok s, v') -> span_in v s.
Proof.
  intros Hl Hv E. rewrite take_span_cases in E by done. case_if; [|done]. simplify_eq. zbool.
  destruct Hv. unfold span_in. simpl. lia.
Qed.

Lemma read_span_in host e v s v' : view_ok v ->
  (l <- read host (Unsigned 4) ;; take_span e l) v = (Ok s, v') -> span_in v s.
Proof.
  intros Hv E. unfold bind in E. pose proof (read_safe host (Unsigned 4) ltac:(simpl; lia) v Hv) as Ha.
  destruct (read host (Unsigned 4) v) as [[l|x] v1] eqn:E1; [|done]. simpl in Ha.
  apply take_span_in in E; [|by eapply read_u32_range|by eapply advanced_ok].
  destruct Ha as (_ & Hb & Hs & _). unfold span_in in *. by rewrite Hb, Hs in E.
Qed.

(** Copying the span out, as [std::string::assign] and [std::vector::assign] do. *)
Definition assign (r : op buffer_view span) : op buffer_view (list byte) :=
  s <- r ;; fun v => (Ok (span_bytes (mem v) s), v).

Lemma assign_safe r : reader_safe r -> reader_safe (assign r).
Proof. intros Hr. apply bind_safe; [done|]. intros s v Hv. by apply advanced_refl. Qed.

Lemma take_span_reads e l : zlen l <= UINT32_MAX -> reads (assign (take_span e (zlen l))) l l.
Proof.
  intros Hl v tl Hv E. pose proof (zlen_rest v Hv) as Hr. rewrite E, zlen_app in Hr.
  pose proof (zlen_nonneg tl). pose proof (zlen_nonneg l). unfold UINT32_MAX in *.
  unfold assign, bind. rewrite take_span_cases by (done || lia).
  destruct (zlen l <=? size_ v - pos_ v) eqn:E1; zbool; [|lia]. f_equal. f_equal. unfold span_bytes. simpl.
  unfold rest, bytes_at in *. apply (f_equal (take (length l))) in E. rewrite take_app_length, take_take in E.
  rewrite <-E at 2. unfold zlen in *. f_equal. lia.
Qed.

Lemma zlen_u32 {A} (l : list A) : zlen l <= UINT32_MAX -> u32 (zlen l) = zlen l.
Proof. intros. pose proof (zlen_nonneg l). unfold UINT32_MAX in *. apply u32_small. lia. Qed.

Lemma zlen_in_u32 {A} (l : list A) : zlen l <= UINT32_MAX -> in_type (Unsigned 4) (zlen l).
Proof. intros. pose proof (zlen_nonneg l). unfold UINT32_MAX in *. simpl. lia. Qed.

Lemma read_prefixed_reads host host' e l : zlen l <= UINT32_MAX ->
  reads (assign (n <- read host (Unsigned 4) ;; take_span e n)) (write_le host' (Unsigned 4) (zlen l) ++ l) l.
Proof.
  intros Hl v tl Hv E.
  rewrite <-(bind_reads (read host (Unsigned 4)) (fun n => assign (take_span e n)) _ _ (zlen l) l) with (tl := tl);
    [|apply read_reads; [simpl; lia|by apply zlen_in_u32]|by apply take_span_reads|done|done].
  unfold assign, bind. by destruct (read host (Unsigned 4) v) as [[]].
Qed.

Lemma write_string_writes host l : zlen l <= UINT32_MAX ->
  writes (write_string host l) (write_le host (Unsigned 4) (zlen l) ++ l).
Proof.
  intros Hl. unfold write_string. case_if; zbool; [lia|]. rewrite zlen_u32 by done.
  eapply bind_writes; [done|apply write_bytes_writes].
Qed.

Lemma write_blob_writes host l : zlen l <= UINT32_MAX ->
  writes (write_blob host l) (write_le host (Unsigned 4) (zlen l) ++ l).
Proof.
  intros Hl. unfold write_blob. case_if; zbool; [lia|]. rewrite zlen_u32 by done.
  eapply bind_writes; [done|apply write_bytes_writes].
Qed.

(** *** Scatter-gather lists *)

Definition iovec_ok (b : iovec_buffer) : Prop :=
  total_size_ b = zlen (flatten b) /\ zlen (iovecs_ b) <= IOV_MAX /\ total_size_ b <= SIZE_MAX /\
  Forall (fun seg => 0 < zlen seg) (iovecs_ b).

Lemma fold_app_concat (l : list (list byte)) r : fold_left (fun r seg => r ++ seg) l r = r ++ concat l.
Proof.
  revert r. induction l as [|s l IH]; intros r; simpl; [by rewrite app_nil_r|].
  by rewrite IH, app_assoc.
Qed.

Lemma flatten_concat b : flatten b = concat (iovecs_ b).
Proof. unfold flatten. by rewrite fold_app_concat. Qed.

Lemma iovec_add_ok seg b r b' : iovec_ok b -> iovec_add seg b = (r, b') ->
  iovec_ok b' /\ match r with Ok _ => flatten b' = flatten b ++ seg | Throw _ => b' = b end.
Proof.
  intros (Ht & Hc & Hm & Hf) E. unfold iovec_add, throw in E.
  repeat case_if; simplify_eq; zbool; split; try done.
  - unfold iovec_ok. rewrite flatten_concat in *. simpl. rewrite concat_app, !zlen_app. simpl.
    rewrite app_nil_r. pose proof (zlen_nonneg seg). pose proof (zlen_nonneg (concat (iovecs_ b))).
    unfold SIZE_MAX in *. rewrite u64_small by lia. change (zlen [seg]) with 1.
    split_and!; [lia|lia|lia|]. apply Forall_app. split; [done|]. constructor; [lia|done].
  - rewrite !flatten_concat. simpl. rewrite concat_app. simpl. by rewrite app_nil_r.
  - destruct seg; [by rewrite app_nil_r|]. rewrite zlen_cons in *. pose proof (zlen_nonneg seg). lia.
Qed.

(** *** Sequences of reads *)

Lemma span_here v n : view_ok v -> 0 <= n <= size_ v - pos_ v -> span_in v (Span (base v + pos_ v) n).
Proof. intros [] ?. unfold span_in. simpl. lia. Qed.

Lemma exec_ok host o v : view_ok v -> vop_ok o ->
  let '(ss, v') := exec host o v in
  view_ok v' /\ mem v' = mem v /\ base v' = base v /\ size_ v' = size_ v /\ Forall (span_in v) ss.
Proof.
  intros Hv Ho. pose proof Hv as [].
  assert (forall n, 0 <= n <= size_ v - pos_ v -> view_ok (with_pos (pos_ v + n) v)) as Hadv
    by (intros; eapply advanced_ok; [done|by apply advanced_pos]).
  destruct o as [p|n|t|t|n| |]; simpl in Ho |- *.
  - unfold seek, throw. case_if; simpl; [done|]. zbool. split_and!; try done. split; simpl; lia.
  - unfold skip, throw. rewrite view_pos_add by done. case_if; simpl; [done|]. zbool.
    split_and!; try done. apply Hadv. lia.
  - unfold read, throw. pose proof (sizeof_bound t Ho). rewrite view_pos_add by (done || lia).
    case_if; simpl; [done|]. zbool. split_and!; try done; [apply Hadv; lia|].
    constructor; [apply span_here; [done|lia]|done].
  - unfold peek, throw. pose proof (sizeof_bound t Ho). rewrite view_pos_add by (done || lia).
    case_if; simpl; [done|]. zbool. split_and!; try done.
    constructor; [apply span_here; [done|lia]|done].
  - unfold read_bytes, throw. rewrite view_pos_add by done. case_if; simpl; [done|]. zbool.
    split_and!; try done; [apply Hadv; lia|]. constructor; [apply span_here; [done|lia]|done].
  - pose proof (read_string_safe host v Hv) as Ha. destruct (read_string host v) as [r v'] eqn:E.
    pose proof (advanced_ok _ _ Hv Ha). destruct Ha as (? & ? & ? & ?). split_and!; try done.
    destruct r; [|done]. constructor; [by eapply read_span_in|done].
  - pose proof (read_blob_safe host v Hv) as Ha. destruct (read_blob host v) as [r v'] eqn:E.
    pose proof (advanced_ok _ _ Hv Ha). destruct Ha as (? & ? & ? & ?). split_and!; try done.
    destruct r; [|done]. constructor; [by eapply read_span_in|done].
Qed.

(** ** Properties *)

(** Memory safety of the zero-copy reader: whatever the bytes of the memory object (a
    length prefix chosen by a peer included) and whatever sequence of reads, peeks, seeks and
    skips is performed, caught exceptions included, every window decoded or handed out lies in
    the window of the view, and the read position never leaves it. *)
Theorem view_reads_in_bounds host ops v :
  view_ok v -> Forall vop_ok ops ->
  let '(ss, v') := exec_all host ops v in view_ok v' /\ Forall (span_in v) ss.
Proof.
  revert v. induction ops as [|o ops IH]; intros v Hv Hops; simpl; [done|].
  inversion Hops as [|? ? Ho Hops']; subst.
  pose proof (exec_ok host o v Hv Ho) as H1. destruct (exec host o v) as [s1 v1].
  destruct H1 as (Hv1 & Em & Eb & Es & Hs1). specialize (IH v1 Hv1 Hops').
  destruct (exec_all host ops v1) as [s2 v2]. destruct IH as [Hv2 Hs2]. split; [done|].
  apply Forall_app. split; [done|]. eapply Forall_impl; [exact Hs2|].
  intros s. unfold span_in. by rewrite Eb, Es.
Qed.

(** Back-patching: [write_at] replaces exactly the bytes of its value, leaves the length
    and every other byte of the buffer as they were, and throws without changing anything when
    the value does not fit. *)
Theorem write_at_patches host t offset value (w : list byte) :
  supported t -> in_type t value -> 0 <= offset < 2 ^ 63 -> zlen w < 2 ^ 63 ->
  let n := Z.of_nat (sizeof t) in
  if offset + n <=? zlen w
  then exists w' : list byte, write_at host t offset value w = (Ok tt, w') /\ zlen w' = zlen w /\
       bytes_at w' offset n = le_bytes (sizeof t) value /\
       forall i, 0 <= i -> i < offset \/ offset + n <= i -> w' !! Z.to_nat i = w !! Z.to_nat i
  else write_at host t offset value w = (Throw write_at_past_end, w).
Proof.
  intros Ht Hx Ho Hw n. pose proof (sizeof_bound t Ht). unfold write_at, throw.
  rewrite u64_small by lia. fold n. rewrite Z.gtb_ltb, Z.ltb_antisym.
  destruct (offset + n <=? zlen w) eqn:E; simpl; [|done]. zbool. subst n. unfold zlen in *.
  assert (length (take (Z.to_nat offset) w) = Z.to_nat offset) as Hl by (rewrite length_take; lia).
  eexists; split; [reflexivity|]. rewrite write_le_bytes by done.
  pose proof (length_le_bytes (sizeof t) value) as Hb. split_and!.
  - rewrite !length_app, Hl, Hb, length_drop. lia.
  - unfold bytes_at. rewrite drop_app_length' by done. rewrite take_app_length' by lia. done.
  - intros i Hi [Hlt|Hge].
    + rewrite lookup_app_l by (rewrite Hl; lia). apply lookup_take_lt. lia.
    + rewrite lookup_app_r by (rewrite Hl; lia). rewrite lookup_app_r by (rewrite Hl, Hb; lia).
      rewrite Hl, Hb, lookup_drop. f_equal. lia.
Qed.

(** [C40] What [skip] and [read_bytes] do for every [size_t] count: within the bytes that remain they advance by it, and beyond them they throw;
    but the bound check adds before it compares, so that a count that carries the sum past [2^64] passes it,
    and then [read_bytes] hands out a window larger than the whole memory object and both move the position backwards. *)
Theorem read_bytes_wraps v n : view_ok v -> 0 <= n < 2 ^ 64 ->
  if n <=? size_ v - pos_ v then
    skip n v = (Ok tt, with_pos (pos_ v + n) v) /\
    exists b, read_bytes n v = (Ok b, with_pos (pos_ v + n) v) /\ size_ b = n /\ span_in v (Span (base b) (size_ b))
  else if 2 ^ 64 - pos_ v <=? n then
    let back := pos_ v - (2 ^ 64 - n) in
    0 <= back < pos_ v /\ skip n v = (Ok tt, with_pos back v) /\
    exists b, read_bytes n v = (Ok b, with_pos back v) /\ size_ b = n /\ zlen (mem v) < size_ b
  else (exists e, skip n v = (Throw e, v)) /\ exists e, read_bytes n v = (Throw e, v).
Proof.
  intros [] Hn. unfold skip, read_bytes, span_in, throw. destruct (n <=? size_ v - pos_ v) eqn:E1; zbool.
  { rewrite u64_small by lia. rewrite Z.gtb_ltb, (proj2 (Z.ltb_ge _ _)) by lia. split; [done|]. eexists. split; [done|]. simpl. lia. }
  destruct (2 ^ 64 - pos_ v <=? n) eqn:E2; zbool.
  - assert (u64 (pos_ v + n) = pos_ v - (2 ^ 64 - n)) as ->.
    { unfold u64, uwrap. replace (pos_ v + n) with (pos_ v - (2 ^ 64 - n) + 1 * 2 ^ 64) by lia. rewrite Z.mod_add by lia. apply Z.mod_small. lia. }
    rewrite Z.gtb_ltb, (proj2 (Z.ltb_ge _ _)) by lia. cbv zeta. split; [lia|]. split; [done|]. eexists. split; [done|]. simpl. lia.
  - rewrite u64_small by lia. rewrite Z.gtb_ltb, (proj2 (Z.ltb_lt _ _)) by lia. split; by eexists.
Qed.

Lemma read_bytes_wraps_witness : let v := View [z2b 1; z2b 2] 0 2 1 in
  skip (2 ^ 64 - 1) v = (Ok tt, with_pos 0 v) /\ exists b, read_bytes (2 ^ 64 - 1) v = (Ok b, with_pos 0 v) /\ 2 < size_ b.
Proof.
  intros v. destruct (read_bytes_wraps v (2 ^ 64 - 1)) as (_ & Hs & b & Hb & _ & Hm); [split; vm_compute; done|lia|].
  split; [exact Hs|]. exists b. split; [exact Hb|exact Hm].
Defined.

Lemma view_reads_in_bounds_witness :
  let v := view_of (map z2b [255; 255; 255; 255; 1; 2; 3]) in
  view_ok (snd (exec_all little [ReadString; Seek 0; Read (Unsigned 2); ReadBlob; ReadBytes 9; Skip 1] v)).
Proof.
  pose proof (view_reads_in_bounds little [ReadString; Seek 0; Read (Unsigned 2); ReadBlob; ReadBytes 9; Skip 1]
    (view_of (map z2b [255; 255; 255; 255; 1; 2; 3]))) as H.
  destruct (exec_all _ _ _) as [ss v'] eqn:E. cbv zeta. rewrite E. apply H.
  - apply view_of_ok. vm_compute. done.
  - repeat constructor; simpl; lia.
Defined.

Lemma write_at_patches_witness :
  write_at big (Unsigned 2) 1 258 (map z2b [9; 9; 9; 9]) = (Ok tt, map z2b [9; 2; 1; 9]).
Proof.
  pose proof (write_at_patches big (Unsigned 2) 1 258 (map z2b [9; 9; 9; 9])
    ltac:(simpl; lia) ltac:(simpl; lia) ltac:(lia) ltac:(vm_compute; done)) as H.
  vm_compute in H. destruct H as (w' & H & _). vm_compute. reflexivity.
Defined.

End Buf.
