(* ===== verification/RpcTypes.v ===== *)
(** * RPC serialization

    Models [src/include/elio/rpc/rpc_types.hpp].  The overload set of [serialize_impl] and
    [deserialize_impl] is the class [Rpc.Codec], one instance per overload; what an overload
    promises the code that calls it (the containers, the message builders of [RpcProtocol]) is
    the class [Rpc.CodecOk], discharged for every instance.  [Rpc.rty] is the closed universe of the types a
    program can build from the overloads, and the properties are proved for all of it.  The
    serialising and the deserialising host may have different byte orders. *)

From Stdlib Require Import Sorting.Sorted.
From S2P Require Import Prelude Endian RpcBuffer.

Module Rpc.
Export Buf.

(** ** Bounds on the counts a peer sends *)

Definition max_container_count : Z := max_message_size.

Definition check_container_count (MinElemSize count remaining : Z) : result serialization_error unit :=
  if count >? max_container_count then Throw container_count_exceeds_max
  else if (0 <? MinElemSize) && (count >? remaining / MinElemSize)
       then Throw container_count_exceeds_remaining
       else Ok tt.

(** [check_container_count<Min>(count, reader.remaining())]. *)
Definition check_count (MinElemSize count : Z) : op buffer_view unit := fun v =>
  (check_container_count MinElemSize count (remaining v), v).

(** ** The overload set *)

Class Codec (A : Type) := {
  serialize : endian -> A -> op buffer_writer unit;
  deserialize : endian -> op buffer_view A;
  min_wire_size : Z;
  (* the values of the C++ type that fit in a message *)
  valid : A -> Prop
}.
Arguments min_wire_size A {_}.

(** Arithmetic and enumeration types. *)
Record prim (t : scalar) := Prim { pv : Z }.
Arguments Prim {t} pv.
Arguments pv {t} _.

#[global] Instance prim_codec (t : scalar) : Codec (prim t) := {|
  serialize host x := write host t (pv x);
  deserialize host := x <- read host t ;; ret (Prim x);
  min_wire_size := Z.of_nat (sizeof t);
  valid x := in_type t (pv x)
|}.

(** [std::string]. *)
Record str := Str { chars : list byte }.

#[global] Instance str_codec : Codec str := {|
  serialize host s := write_string host (chars s);
  deserialize host := l <- assign (read_string host) ;; ret (Str l);
  min_wire_size := 4;
  valid s := zlen (chars s) <= UINT32_MAX
|}.

(** A loop over the elements of a container. *)
Fixpoint serialize_all {A} (f : A -> op buffer_writer unit) (l : list A) : op buffer_writer unit :=
  match l with
  | [] => ret tt
  | a :: l => f a ;;; serialize_all f l
  end.

Fixpoint deserialize_n {A} (f : op buffer_view A) (n : nat) : op buffer_view (list A) :=
  match n with
  | O => ret []
  | S n => a <- f ;; l <- deserialize_n f n ;; ret (a :: l)
  end.

(** [std::vector<uint8_t>]: written by the vector overload, read by the blob overload. *)
Record bytes_vec := BytesVec { octets : list byte }.

#[global] Instance bytes_codec : Codec bytes_vec := {|
  serialize host v := write_array_size host (u32 (zlen (octets v))) ;;;
                      serialize_all (fun b => write host (Unsigned 1) (b2z b)) (octets v);
  deserialize host := l <- assign (read_blob host) ;; ret (BytesVec l);
  min_wire_size := 4;
  valid v := zlen (octets v) <= UINT32_MAX
|}.

(** [std::vector<T>]. *)
#[global] Instance vector_codec {A} `{Codec A} : Codec (list A) := {|
  serialize host l := write_array_size host (u32 (zlen l)) ;;; serialize_all (serialize host) l;
  deserialize host := count <- read_array_size host ;;
                      check_count (min_wire_size A) count ;;;
                      deserialize_n (deserialize host) (Z.to_nat count);
  min_wire_size := 4;
  valid l := zlen l <= max_container_count /\ Forall valid l
|}.

(** [std::array<T, N>]. *)
Record arr (n : nat) (A : Type) := Arr { elems : list A }.
Arguments Arr {n A} elems.
Arguments elems {n A} _.

#[global] Instance array_codec {n A} `{Codec A} : Codec (arr n A) := {|
  serialize host x := serialize_all (serialize host) (elems x);
  deserialize host := l <- deserialize_n (deserialize host) n ;; ret (Arr l);
  min_wire_size := Z.of_nat n * min_wire_size A;
  valid x := length (elems x) = n /\ Forall valid (elems x)
|}.

(** [std::map<K, V>]: the entries in iteration order, increasing for [std::less<K>]. *)
Class Less (K : Type) := less : K -> K -> bool.

Record omap (K V : Type) := OMap { entries : list (K * V) }.
Arguments OMap {K V} entries.
Arguments entries {K V} _.

(** [map.emplace]: nothing happens when the key is present. *)
Fixpoint emplace {K V} `{Less K} (k : K) (v : V) (m : list (K * V)) : list (K * V) :=
  match m with
  | [] => [(k, v)]
  | (k', v') :: m' => if less k k' then (k, v) :: m
                      else if less k' k then (k', v') :: emplace k v m' else m
  end.

Fixpoint deserialize_pairs {K V} (emp : K -> V -> list (K * V) -> list (K * V))
    (fk : op buffer_view K) (fv : op buffer_view V) (n : nat) (m : list (K * V)) : op buffer_view (list (K * V)) :=
  match n with
  | O => ret m
  | S n => k <- fk ;; v <- fv ;; deserialize_pairs emp fk fv n (emp k v m)
  end.

Definition before {K V} `{Less K} (a b : K * V) : Prop := less a.1 b.1 = true /\ less b.1 a.1 = false.

#[global] Instance map_codec {K V} `{Codec K, Codec V, Less K} : Codec (omap K V) := {|
  serialize host m := write_array_size host (u32 (zlen (entries m))) ;;;
                      serialize_all (fun '(k, v) => serialize host k ;;; serialize host v) (entries m);
  deserialize host := count <- read_array_size host ;;
                      check_count (min_wire_size K + min_wire_size V) count ;;;
                      m <- deserialize_pairs emplace (deserialize host) (deserialize host) (Z.to_nat count) [] ;;
                      ret (OMap m);
  min_wire_size := 4;
  valid m := zlen (entries m) <= max_container_count /\ StronglySorted before (entries m) /\
             Forall (fun '(k, v) => valid k /\ valid v) (entries m)
|}.

(** [std::unordered_map<K, V>]: the entries in iteration order.  Where the table puts a new entry is [place], a parameter, as
    is the equality of keys. *)
Section Unordered.
Context {K V : Type} `{Codec K, Codec V} (same : K -> K -> bool) (place : K * V -> list (K * V) -> list (K * V)).

Definition emplace_unordered (k : K) (v : V) (m : list (K * V)) : list (K * V) :=
  if existsb (fun e => same e.1 k) m then m else place (k, v) m.

Definition serialize_unordered (host : endian) (m : list (K * V)) : op buffer_writer unit :=
  write_array_size host (u32 (zlen m)) ;;; serialize_all (fun '(k, v) => serialize host k ;;; serialize host v) m.

Definition deserialize_unordered (host : endian) : op buffer_view (list (K * V)) :=
  count <- read_array_size host ;;
  check_count (min_wire_size K + min_wire_size V) count ;;;
  deserialize_pairs emplace_unordered (deserialize host) (deserialize host) (Z.to_nat count) [].

End Unordered.

(** [std::optional<T>]. *)
#[global] Instance optional_codec {A} `{Codec A} : Codec (option A) := {|
  serialize host (o : option A) := write host (Unsigned 1) (if o then 1 else 0) ;;;
                      match o with Some a => serialize host a | None => ret tt end;
  deserialize host := has_value <- read host (Unsigned 1) ;;
                      if has_value =? 0 then ret None else a <- deserialize host ;; ret (Some a);
  min_wire_size := 1;
  valid (o : option A) := match o with Some a => valid a | None => True end
|}.

(** Structs: [ELIO_RPC_EMPTY_FIELDS], then one field in front of the others; the code has no
    [min_wire_size] specialisation for them. *)
#[global] Instance empty_fields_codec : Codec unit := {|
  serialize host _ := ret tt;
  deserialize host := ret tt;
  min_wire_size := 1;
  valid _ := True
|}.

#[global] Instance fields_codec {A B} `{Codec A, Codec B} : Codec (A * B) := {|
  serialize host x := serialize host x.1 ;;; serialize host x.2;
  deserialize host := a <- deserialize host ;; b <- deserialize host ;; ret (a, b);
  min_wire_size := 1;
  valid x := valid x.1 /\ valid x.2
|}.

(** A struct with [ELIO_RPC_FIELDS]: reading and setting its fields in order. *)
Class Fields (A T : Type) := {
  get_fields : A -> T;
  set_fields : T -> A;
  set_get : forall a, set_fields (get_fields a) = a
}.

Definition struct_codec {A T} `{Fields A T, Codec T} : Codec A := {|
  serialize host a := serialize host (get_fields a);
  deserialize host := t <- deserialize host ;; ret (set_fields t);
  min_wire_size := 1;
  valid a := valid (get_fields a)
|}.

(** [buffer_ref]: written like a blob, read back as a window on the received buffer. *)
Definition serialize_buffer_ref (host : endian) (ref : list byte) : op buffer_writer unit := write_blob host ref.
Definition deserialize_buffer_ref (host : endian) : op buffer_view span := read_blob host.

(** The convenience wrappers: a fresh writer, a view of a whole buffer. *)
Definition serialize_new {A} `{Codec A} (host : endian) (a : A) : result serialization_error unit * buffer_writer :=
  serialize host a [].
Definition deserialize_from {A} `{Codec A} (host : endian) (data : list byte) : result serialization_error A :=
  fst (deserialize host (view_of data)).

(** ** The types a program can build *)

Fixpoint bytes_less (a b : list byte) : bool :=
  match a, b with
  | _, [] => false
  | [], _ => true
  | x :: a, y :: b => if b2z x <? b2z y then true else if b2z y <? b2z x then false else bytes_less a b
  end.

(** [operator<] of [float] and [double] on bit patterns: a NaN is unordered, and the zeroes of
    both signs are equal. *)
Definition mantissa_bits (n : nat) : Z := if (n =? 4)%nat then 23 else 52.
Definition magnitude (n : nat) (bits : Z) : Z := bits mod 2 ^ (8 * Z.of_nat n - 1).
Definition is_nan (n : nat) (bits : Z) : bool := 2 ^ (8 * Z.of_nat n - 1) - 2 ^ mantissa_bits n <? magnitude n bits.
Definition float_rank (n : nat) (bits : Z) : Z :=
  if bits <? 2 ^ (8 * Z.of_nat n - 1) then magnitude n bits else - magnitude n bits.
Definition float_less (n : nat) (a b : Z) : bool :=
  negb (is_nan n a) && negb (is_nan n b) && (float_rank n a <? float_rank n b).

#[global] Instance prim_less t : Less (prim t) := fun a b =>
  match t with Floating n => float_less n (pv a) (pv b) | _ => pv a <? pv b end.
#[global] Instance str_less : Less str := fun a b => bytes_less (chars a) (chars b).

Inductive kty := KPrim (t : scalar) | KString.

Inductive rty :=
| TPrim (t : scalar)
| TString
| TBytes
| TVector (e : rty)
| TArray (n : nat) (e : rty)
| TMap (k : kty) (v : rty)
| TOptional (e : rty)
| TEmpty
| TField (f : rty) (fs : rty).

Definition kdenote (k : kty) : Type := match k with KPrim t => prim t | KString => str end.
#[global] Instance kcodec k : Codec (kdenote k) := match k with KPrim t => prim_codec t | KString => str_codec end.
#[global] Instance kless k : Less (kdenote k) := match k with KPrim t => prim_less t | KString => str_less end.

Fixpoint denote (ty : rty) : Type :=
  match ty with
  | TPrim t => prim t
  | TString => str
  | TBytes => bytes_vec
  | TVector e => list (denote e)
  | TArray n e => arr n (denote e)
  | TMap k v => omap (kdenote k) (denote v)
  | TOptional e => option (denote e)
  | TEmpty => unit
  | TField f fs => denote f * denote fs
  end.

Fixpoint codec (ty : rty) : Codec (denote ty) :=
  match ty with
  | TPrim t => prim_codec t
  | TString => str_codec
  | TBytes => bytes_codec
  | TVector e => @vector_codec _ (codec e)
  | TArray n e => @array_codec n _ (codec e)
  | TMap k v => @map_codec _ _ (kcodec k) (codec v) (kless k)
  | TOptional e => @optional_codec _ (codec e)
  | TEmpty => empty_fields_codec
  | TField f fs => @fields_codec _ _ (codec f) (codec fs)
  end.
#[global] Existing Instance codec.

Definition supported_b (t : scalar) : bool :=
  match t with
  | Bool => true
  | Unsigned n | Signed n => match n with 1 | 2 | 4 | 8 => true | _ => false end%nat
  | Floating n => match n with 4 | 8 => true | _ => false end%nat
  | Aggregate _ => false
  end.

(** Values of the type take at least one byte; at least [min_wire_size] bytes. *)
Fixpoint nonempty (ty : rty) : bool :=
  match ty with
  | TArray n e => negb (n =? 0)%nat && nonempty e
  | TEmpty => false
  | TField f fs => nonempty f || nonempty fs
  | _ => true
  end.

Fixpoint sized (ty : rty) : bool :=
  match ty with
  | TArray n e => (n =? 0)%nat || sized e
  | TEmpty => false
  | TField f fs => nonempty f || nonempty fs
  | _ => true
  end.

Definition key_ok (k : kty) : bool :=
  match k with
  | KPrim t => supported_b t
  | KString => true
  end.

(** The types the overload set accepts: every scalar is an arithmetic or enumeration type. *)
Fixpoint accepted (ty : rty) : bool :=
  match ty with
  | TPrim t => supported_b t
  | TString | TBytes | TEmpty => true
  | TVector e | TArray _ e | TOptional e => accepted e
  | TMap k v => key_ok k && accepted v
  | TField f fs => accepted f && accepted fs
  end.

(** The types in which every container element satisfies its [min_wire_size];
    [std::vector<uint8_t>] is [TBytes]. *)
Fixpoint type_ok (ty : rty) : bool :=
  match ty with
  | TPrim t => supported_b t
  | TString | TBytes | TEmpty => true
  | TVector e => type_ok e && sized e && match e with TPrim (Unsigned 1) => false | _ => true end
  | TArray n e => type_ok e
  | TMap k v => key_ok k && type_ok v && sized v
  | TOptional e => type_ok e
  | TField f fs => type_ok f && type_ok fs
  end.

(** ** What an overload promises *)

Class CodecOk (A : Type) `{Codec A} := {
  wire : A -> list byte;
  serialize_writes : forall host a, valid a -> writes (serialize host a) (wire a);
  deserialize_reads : forall host a, valid a -> reads (deserialize host) (wire a) a;
  deserialize_safe : forall host, reader_safe (deserialize (A := A) host)
}.

(** [min_wire_size] is a lower bound: what [check_container_count] relies on. *)
Class Sized (A : Type) `{CodecOk A} :=
  min_size : forall a, valid a -> min_wire_size A <= zlen (wire a).

(** ** Lemmas *)

Lemma zlen_0_nil : zlen (@nil byte) = 0.
Proof. done. Qed.

Lemma check_count_safe m c : reader_safe (check_count m c).
Proof. intros v Hv. by apply advanced_refl. Qed.

Lemma check_reads {A} m c (k : op buffer_view A) w a :
  0 <= c <= max_container_count -> c * m <= zlen w -> reads k w a ->
  reads (check_count m c ;;; k) w a.
Proof.
  intros Hc Hm Hk v tl Hv E. unfold bind, check_count, check_container_count.
  pose proof (zlen_rest v Hv) as Hl. rewrite E, zlen_app in Hl. pose proof (zlen_nonneg tl).
  rewrite remaining_eq by done. rewrite Z.gtb_ltb, (proj2 (Z.ltb_ge _ _)) by lia.
  destruct (0 <? m) eqn:E0; simpl; [|by apply (Hk v tl)]. zbool.
  rewrite Z.gtb_ltb, (proj2 (Z.ltb_ge _ _)); [by apply (Hk v tl)|].
  apply Z.div_le_lower_bound; lia.
Qed.

Lemma deserialize_n_safe {A} (f : op buffer_view A) n : reader_safe f -> reader_safe (deserialize_n f n).
Proof.
  intros Hf. induction n as [|n IH]; simpl; [apply ret_safe|].
  apply bind_safe; [done|]. intros a. apply bind_safe; [done|]. intros l. apply ret_safe.
Qed.

Lemma serialize_all_writes {A} (f : A -> op buffer_writer unit) (wr : A -> list byte) l :
  Forall (fun a => writes (f a) (wr a)) l -> writes (serialize_all f l) (concat (map wr l)).
Proof.
  induction 1 as [|a l Ha Hl IH]; simpl; [apply ret_writes|]. eapply bind_writes; [exact Ha|done].
Qed.

Lemma deserialize_n_reads {A} (f : op buffer_view A) (wr : A -> list byte) l :
  Forall (fun a => reads f (wr a) a) l -> reads (deserialize_n f (length l)) (concat (map wr l)) l.
Proof.
  induction 1 as [|a l Ha Hl IH]; simpl; [apply ret_reads|].
  eapply bind_reads; [exact Ha|]. rewrite <-(app_nil_r (concat _)).
  eapply bind_reads; [exact IH|]. apply ret_reads.
Qed.

Lemma zlen_concat_ge {A} (wr : A -> list byte) m l :
  Forall (fun a => m <= zlen (wr a)) l -> zlen l * m <= zlen (concat (map wr l)).
Proof.
  induction 1 as [|a l Ha Hl IH]; simpl; [unfold zlen; simpl; lia|].
  rewrite zlen_cons, zlen_app. lia.
Qed.

Lemma bind_ret_reads {A B} (m : op buffer_view A) (f : A -> B) w a :
  reads m w a -> reads (x <- m ;; ret (f x)) w (f a).
Proof.
  intros Hm. rewrite <-(app_nil_r w). eapply bind_reads; [exact Hm|apply ret_reads].
Qed.

Lemma bind_ret_safe {A B} (m : op buffer_view A) (f : A -> B) :
  reader_safe m -> reader_safe (x <- m ;; ret (f x)).
Proof. intros. apply bind_safe; [done|]. intros. apply ret_safe. Qed.

(** The 32-bit count in front of a container. *)
Definition count_wire {A} (l : list A) : list byte := le_bytes 4 (zlen l).

Lemma max_count_u32 {A} (l : list A) : zlen l <= max_container_count -> zlen l <= UINT32_MAX.
Proof. unfold max_container_count, max_message_size, UINT32_MAX. lia. Qed.

Lemma count_wire_le {A} host (l : list A) : zlen l <= UINT32_MAX ->
  count_wire l = write_le host (Unsigned 4) (zlen l).
Proof. intros. by rewrite write_le_bytes; [|simpl; lia|apply zlen_in_u32]. Qed.

Lemma write_count {A} host (l : list A) : zlen l <= UINT32_MAX ->
  writes (write_array_size host (u32 (zlen l))) (count_wire l).
Proof.
  intros Hl b. by rewrite zlen_u32, (count_wire_le host).
Qed.

Lemma read_count {A} host (l : list A) : zlen l <= UINT32_MAX ->
  reads (read_array_size host) (count_wire l) (zlen l).
Proof.
  intros Hl. rewrite (count_wire_le host) by done.
  apply read_reads; [simpl; lia|by apply zlen_in_u32].
Qed.

Lemma zlen_count_wire {A} (l : list A) : zlen (count_wire l) = 4.
Proof. unfold count_wire, zlen. by rewrite length_le_bytes. Qed.

#[global] Opaque count_wire.

(** *** The instances keep their promise *)

#[local] Obligation Tactic := idtac.

Class Supported (t : scalar) : Prop := supported_type : supported t.
#[global] Hint Extern 0 (Supported _) => (unfold Supported; simpl; tauto) : typeclass_instances.

#[global] Program Instance prim_ok t `{Supported t} : CodecOk (prim t) := {| wire x := le_bytes (sizeof t) (pv x) |}.
Next Obligation.
  intros t Ht host a Ha b. simpl. unfold write. by rewrite write_le_bytes.
Qed.
Next Obligation.
  intros t Ht host [x] Hx. apply bind_ret_reads. simpl.
  rewrite <-(write_le_bytes host t x) by done. by apply read_reads.
Qed.
Next Obligation. intros t Ht host. apply bind_ret_safe. by apply read_safe. Qed.

#[global] Instance prim_sized t `{Supported t} : Sized (prim t).
Proof. intros a _. simpl. unfold zlen. rewrite length_le_bytes. lia. Qed.

#[global] Program Instance str_ok : CodecOk str := {| wire s := count_wire (chars s) ++ chars s |}.
Next Obligation.
  intros host [l] Hl b. simpl in *. by rewrite write_string_writes, (count_wire_le host).
Qed.
Next Obligation.
  intros host [l] Hl. simpl in *. apply bind_ret_reads. rewrite (count_wire_le host) by done.
  by apply read_prefixed_reads.
Qed.
Next Obligation. intros host. apply bind_ret_safe, assign_safe, read_string_safe. Qed.

Lemma prefixed_sized {A} (l : list A) w : 4 <= zlen (count_wire l ++ w).
Proof. rewrite zlen_app, zlen_count_wire. pose proof (zlen_nonneg w). lia. Qed.

#[global] Instance str_sized : Sized str.
Proof. intros a _. apply prefixed_sized. Qed.

Lemma octets_wire l : concat (map (fun b => le_bytes 1 (b2z b)) l) = l.
Proof. induction l as [|b l IH]; [done|]. cbn [map concat]. rewrite IH. simpl. by rewrite z2b_b2z. Qed.

#[global] Program Instance bytes_ok : CodecOk bytes_vec := {| wire v := count_wire (octets v) ++ octets v |}.
Next Obligation.
  intros host [l] Hl. simpl in *. eapply bind_writes; [by apply write_count|].
  pose proof (serialize_all_writes (fun b => write host (Unsigned 1) (b2z b)) (fun b => le_bytes 1 (b2z b)) l) as E.
  rewrite octets_wire in E. apply E, Forall_true. intros b w. unfold write.
  rewrite write_le_bytes; [done|simpl; lia|]. pose proof (b2z_range b). simpl. lia.
Qed.
Next Obligation.
  intros host [l] Hl. simpl in *. apply bind_ret_reads. rewrite (count_wire_le host) by done.
  by apply read_prefixed_reads.
Qed.
Next Obligation. intros host. apply bind_ret_safe, assign_safe, read_blob_safe. Qed.

#[global] Instance bytes_sized : Sized bytes_vec.
Proof. intros a _. apply prefixed_sized. Qed.

#[global] Program Instance vector_ok {A} `{Sized A} : CodecOk (list A) :=
  {| wire l := count_wire l ++ concat (map wire l) |}.
Next Obligation.
  intros A Hc Hok Hs host l [Hl Hv]. simpl. eapply bind_writes; [by apply write_count, max_count_u32|].
  apply serialize_all_writes. eapply Forall_impl; [exact Hv|]. intros a. apply serialize_writes.
Qed.
Next Obligation.
  intros A Hc Hok Hs host l [Hl Hv]. simpl. eapply bind_reads; [by apply read_count, max_count_u32|].
  apply check_reads.
  - split; [apply zlen_nonneg|done].
  - apply zlen_concat_ge. eapply Forall_impl; [exact Hv|]. intros a. apply min_size.
  - unfold zlen. rewrite Nat2Z.id. apply deserialize_n_reads. eapply Forall_impl; [exact Hv|].
    intros a. apply deserialize_reads.
Qed.
Next Obligation.
  intros A Hc Hok Hs host. apply bind_safe; [apply read_safe; simpl; lia|]. intros c.
  apply bind_safe; [apply check_count_safe|]. intros _. apply deserialize_n_safe, deserialize_safe.
Qed.

#[global] Instance vector_sized {A} `{Sized A} : Sized (list A).
Proof. intros a _. apply prefixed_sized. Qed.

#[global] Program Instance array_ok {n A} `{CodecOk A} : CodecOk (arr n A) :=
  {| wire x := concat (map wire (elems x)) |}.
Next Obligation.
  intros n A Hc Hok host [l] [Hl Hv]. simpl. apply serialize_all_writes.
  eapply Forall_impl; [exact Hv|]. intros a. apply serialize_writes.
Qed.
Next Obligation.
  intros n A Hc Hok host [l] [Hl Hv]. simpl in *. apply bind_ret_reads. rewrite <-Hl.
  apply deserialize_n_reads. eapply Forall_impl; [exact Hv|]. intros a. apply deserialize_reads.
Qed.
Next Obligation.
  intros n A Hc Hok host. apply bind_ret_safe, deserialize_n_safe, deserialize_safe.
Qed.

Lemma array_sized {n A} `{Sized A} : Sized (arr n A).
Proof.
  intros [l] [Hl Hv]. simpl in *. rewrite <-Hl. apply (zlen_concat_ge wire).
  eapply Forall_impl; [exact Hv|]. intros a. apply min_size.
Qed.

(** Inserting a key greater than all the others appends it. *)
Lemma emplace_last {K V} `{Less K} (k : K) (v : V) m :
  Forall (fun e => before e (k, v)) m -> emplace k v m = m ++ [(k, v)].
Proof. induction 1 as [|[k' v'] m [H1 H2] Hm IH]; simpl in *; [done|]. by rewrite H1, H2, IH. Qed.

Lemma StronglySorted_last {A} (R : A -> A -> Prop) l1 x l2 :
  StronglySorted R (l1 ++ x :: l2) -> Forall (fun y => R y x) l1.
Proof.
  induction l1 as [|y l1 IH]; simpl; intros Hs; [done|].
  apply StronglySorted_inv in Hs as [Hs Hf]. constructor; [|by apply IH].
  rewrite Forall_forall in Hf. apply Hf. set_solver.
Qed.

Definition pair_wire {K V} `{CodecOk K, CodecOk V} (e : K * V) : list byte := wire e.1 ++ wire e.2.

Lemma deserialize_pairs_reads {K V} `{Hk : CodecOk K, Hv : CodecOk V, Less K} host (l m : list (K * V)) :
  StronglySorted before (m ++ l) -> Forall (fun '(k, v) => valid k /\ valid v) l ->
  reads (deserialize_pairs emplace (deserialize host) (deserialize host) (length l) m)
        (concat (map pair_wire l)) (m ++ l).
Proof.
  intros Hs Hval. revert m Hs. induction Hval as [|[k v] l [Hvk Hvv] Hval IH]; intros m Hs; simpl.
  - rewrite app_nil_r. apply ret_reads.
  - unfold pair_wire at 1. rewrite <-app_assoc. simpl.
    eapply bind_reads; [by apply deserialize_reads|]. eapply bind_reads; [by apply deserialize_reads|].
    rewrite emplace_last by (by eapply StronglySorted_last).
    replace (m ++ (k, v) :: l) with ((m ++ [(k, v)]) ++ l) in * by (by rewrite <-app_assoc). by apply IH.
Qed.

Lemma deserialize_pairs_safe {K V} emp (fk : op buffer_view K) (fv : op buffer_view V) n m :
  reader_safe fk -> reader_safe fv -> reader_safe (deserialize_pairs emp fk fv n m).
Proof.
  intros Hk Hv. revert m. induction n as [|n IH]; intros m; simpl; [apply ret_safe|].
  apply bind_safe; [done|]. intros k. apply bind_safe; [done|]. intros v. apply IH.
Qed.

#[global] Program Instance map_ok {K V} `{Sized K, Sized V, Less K} : CodecOk (omap K V) :=
  {| wire m := count_wire (entries m) ++ concat (map pair_wire (entries m)) |}.
Next Obligation.
  intros K V ?????? Hless host [l] (Hl & Hs & Hv). simpl in *.
  eapply bind_writes; [by apply write_count, max_count_u32|]. apply serialize_all_writes.
  eapply Forall_impl; [exact Hv|]. intros [k v] [Hvk Hvv].
  eapply bind_writes; [by apply serialize_writes|by apply serialize_writes].
Qed.
Next Obligation.
  intros K V ?? SK ?? SV Hless host [l] (Hl & Hs & Hv). simpl in *.
  eapply bind_reads; [by apply read_count, max_count_u32|]. apply check_reads.
  - split; [apply zlen_nonneg|done].
  - apply (zlen_concat_ge pair_wire). eapply Forall_impl; [exact Hv|]. intros [k v] [Hvk Hvv].
    unfold pair_wire. rewrite zlen_app. apply Z.add_le_mono; by apply min_size.
  - apply bind_ret_reads. unfold zlen. rewrite Nat2Z.id. by apply (deserialize_pairs_reads host l []).
Qed.
Next Obligation.
  intros K V ?????? Hless host. apply bind_safe; [apply read_safe; simpl; lia|]. intros c.
  apply bind_safe; [apply check_count_safe|]. intros _.
  apply bind_ret_safe, deserialize_pairs_safe; apply deserialize_safe.
Qed.

(** Round trip of an unordered map: the entries come back, in an order of the table's own. *)
Section UnorderedOk.
Context {K V : Type} `{Sized K, Sized V} (same : K -> K -> bool) (place : K * V -> list (K * V) -> list (K * V)).
Hypothesis place_adds : forall e m, place e m ≡ₚ e :: m.

Definition apart (a b : K * V) : Prop := same a.1 b.1 = false.

Lemma emplace_unordered_new k v m l : m ≡ₚ l -> Forall (fun e => apart e (k, v)) l -> emplace_unordered same place k v m ≡ₚ (k, v) :: l.
Proof.
  intros Hp Hl. unfold emplace_unordered. rewrite <-Hp in Hl. assert (existsb (fun e => same e.1 k) m = false) as ->; [|by rewrite place_adds, Hp].
  apply not_true_iff_false. intros (e & He & Hs)%existsb_exists. rewrite Forall_forall in Hl. apply list_elem_of_In, Hl in He. unfold apart in He. cbn in He. congruence.
Qed.

Lemma deserialize_unordered_pairs host (l m m0 : list (K * V)) : m ≡ₚ m0 ->
  StronglySorted apart (m0 ++ l) -> Forall (fun '(k, v) => valid k /\ valid v) l ->
  exists m', m' ≡ₚ m0 ++ l /\
    reads (deserialize_pairs (emplace_unordered same place) (deserialize host) (deserialize host) (length l) m) (concat (map pair_wire l)) m'.
Proof.
  intros Hp Hs Hval. revert m m0 Hp Hs. induction Hval as [|[k v] l [Hvk Hvv] Hval IH]; intros m m0 Hp Hs; simpl.
  - exists m. rewrite app_nil_r. split; [done|apply ret_reads].
  - destruct (IH (emplace_unordered same place k v m) (m0 ++ [(k, v)])) as (m' & Hm' & Hr).
    + rewrite (emplace_unordered_new k v m m0 Hp) by (by eapply StronglySorted_last). by rewrite Permutation_app_comm.
    + by rewrite <-app_assoc.
    + exists m'. split; [by rewrite Hm', <-app_assoc|]. unfold pair_wire at 1. rewrite <-app_assoc. simpl.
      eapply bind_reads; [by apply deserialize_reads|]. eapply bind_reads; [by apply deserialize_reads|done].
Qed.

(** A map of at most [max_container_count] entries with different keys. *)
Lemma unordered_round_trip host host' (m : list (K * V)) :
  zlen m <= max_container_count -> StronglySorted apart m -> Forall (fun '(k, v) => valid k /\ valid v) m ->
  exists w m', writes (serialize_unordered host m) w /\ reads (deserialize_unordered same place host') w m' /\ m' ≡ₚ m.
Proof.
  intros Hl Hs Hv. destruct (deserialize_unordered_pairs host' m [] []) as (m' & Hm' & Hr); [done..|].
  exists (count_wire m ++ concat (map pair_wire m)), m'. split; [|split; [|done]].
  - eapply bind_writes; [by apply write_count, max_count_u32|]. apply serialize_all_writes. eapply Forall_impl; [exact Hv|]. intros [k v] [Hvk Hvv].
    eapply bind_writes; by apply serialize_writes.
  - eapply bind_reads; [by apply read_count, max_count_u32|]. apply check_reads; [split; [apply zlen_nonneg|done]| |].
    + apply (zlen_concat_ge pair_wire). eapply Forall_impl; [exact Hv|]. intros [k v] [Hvk Hvv]. unfold pair_wire. rewrite zlen_app. apply Z.add_le_mono; by apply min_size.
    + unfold zlen. by rewrite Nat2Z.id.
Qed.

End UnorderedOk.

#[global] Program Instance optional_ok {A} `{CodecOk A} : CodecOk (option A) :=
  {| wire o := match o with Some a => z2b 1 :: wire a | None => [z2b 0] end |}.
Next Obligation.
  intros A Hc Hok host [a|] Hv; simpl.
  - change (z2b 1 :: wire a) with ([z2b 1] ++ wire a).
    eapply bind_writes; [|by apply serialize_writes]. intros b. unfold write.
    by rewrite write_le_bytes; [|simpl; lia|simpl; lia].
  - intros b. unfold bind, write, ret. by rewrite write_le_bytes; [|simpl; lia|simpl; lia].
Qed.
Next Obligation.
  intros A Hc Hok host o Hv. simpl.
  set (x := if o then 1 else 0).
  assert (reads (read host (Unsigned 1)) [z2b x] x) as Hr.
  { pose proof (read_reads host host (Unsigned 1) x) as Hx.
    rewrite write_le_bytes in Hx by (simpl; destruct o; simpl; lia).
    apply Hx; simpl; destruct o; simpl; lia. }
  destruct o as [a|]; simpl in *.
  - change (z2b 1 :: wire a) with ([z2b 1] ++ wire a). eapply bind_reads; [exact Hr|].
    simpl. apply bind_ret_reads. by apply deserialize_reads.
  - rewrite <-(app_nil_r [z2b 0]). eapply bind_reads; [exact Hr|]. apply ret_reads.
Qed.
Next Obligation.
  intros A Hc Hok host. apply bind_safe; [apply read_safe; simpl; lia|]. intros x. simpl.
  destruct (x =? 0); [apply ret_safe|]. apply bind_ret_safe, deserialize_safe.
Qed.

#[global] Program Instance empty_fields_ok : CodecOk unit := {| wire _ := [] |}.
Next Obligation. intros host a _. apply ret_writes. Qed.
Next Obligation. intros host [] _. apply ret_reads. Qed.
Next Obligation. intros host. apply ret_safe. Qed.

#[global] Program Instance fields_ok {A B} `{CodecOk A, CodecOk B} : CodecOk (A * B) :=
  {| wire x := wire x.1 ++ wire x.2 |}.
Next Obligation.
  intros A B ???? host [a b] [Ha Hb]. eapply bind_writes; [by apply serialize_writes|by apply serialize_writes].
Qed.
Next Obligation.
  intros A B ???? host [a b] [Ha Hb]. simpl in *. eapply bind_reads; [by apply deserialize_reads|].
  apply bind_ret_reads. by apply deserialize_reads.
Qed.
Next Obligation.
  intros A B ???? host. apply bind_safe; [apply deserialize_safe|]. intros a.
  apply bind_ret_safe, deserialize_safe.
Qed.

Program Definition struct_ok {A T} `{Fields A T, CodecOk T} : @CodecOk A struct_codec :=
  @Build_CodecOk A struct_codec (fun a => wire (get_fields a)) _ _ _.
Next Obligation. intros A T ??? host a Ha. exact (serialize_writes host (get_fields a) Ha). Qed.
Next Obligation.
  intros A T ??? host a Ha. simpl. rewrite <-(set_get a) at 2. apply bind_ret_reads.
  exact (deserialize_reads host (get_fields a) Ha).
Qed.
Next Obligation. intros A T ??? host. apply bind_ret_safe, deserialize_safe. Qed.

(** *** Every type of the universe keeps the promise *)

Lemma supported_b_ok t : supported_b t = true -> supported t.
Proof.
  destruct t as [|n|n|n|n]; simpl; [done|..|done]; do 9 (destruct n as [|n]; try done; try lia).
Qed.

Lemma kcodec_ok k : key_ok k = true ->
  { H : CodecOk (kdenote k) | Sized (kdenote k) }.
Proof.
  destruct k as [t|]; intros Ht; simpl.
  - exists (@prim_ok t (supported_b_ok t Ht)). exact (@prim_sized t (supported_b_ok t Ht)).
  - exists str_ok. exact str_sized.
Qed.

Definition promise (ty : rty) : Type :=
  { H : CodecOk (denote ty) |
    (sized ty = true -> Sized (denote ty)) /\
    (nonempty ty = true -> forall a : denote ty, valid a -> 1 <= zlen (wire a)) }.

Lemma prefixed_nonempty {A} (l : list A) w : 1 <= zlen (count_wire l ++ w).
Proof. pose proof (prefixed_sized l w). lia. Qed.

Lemma prim_promise t : supported_b t = true -> promise (TPrim t).
Proof.
  intros Ht. pose proof (supported_b_ok t Ht) as Hs. exists (@prim_ok t Hs). split.
  - intros _. exact (@prim_sized t Hs).
  - intros _ a _. simpl. pose proof (sizeof_pos t Hs). unfold zlen. rewrite length_le_bytes. lia.
Qed.

Lemma vector_promise e : sized e = true -> promise e -> promise (TVector e).
Proof.
  intros Hs (H & H1 & H2). specialize (H1 Hs). exists (@vector_ok _ _ H H1). split.
  - intros _. exact (@vector_sized _ _ H H1).
  - intros _ a _. apply prefixed_nonempty.
Qed.

Lemma array_promise n e : promise e -> promise (TArray n e).
Proof.
  intros (H & H1 & H2). exists (@array_ok n _ _ H). split; simpl.
  - destruct n as [|n]; intros Hs; [intros a _; apply zlen_nonneg|].
    exact (@array_sized (S n) _ _ H (H1 Hs)).
  - destruct n as [|n]; [done|]. intros Hn [l] [Hl Hv]. simpl in *.
    destruct l as [|a l]; [done|]. simpl. rewrite zlen_app. inversion Hv; subst.
    pose proof (H2 Hn a ltac:(done)). pose proof (zlen_nonneg (concat (map wire l))). lia.
Qed.

Lemma map_promise k v : key_ok k = true ->
  sized v = true -> promise v -> promise (TMap k v).
Proof.
  intros Hk Hs (H & H1 & H2). specialize (H1 Hs). destruct (kcodec_ok k Hk) as (HK & HS).
  exists (@map_ok _ _ _ HK HS _ H H1 _). split.
  - intros _ a _. apply prefixed_sized.
  - intros _ a _. apply prefixed_nonempty.
Qed.

Lemma optional_promise e : promise e -> promise (TOptional e).
Proof.
  intros (H & H1 & H2). exists (@optional_ok _ _ H).
  assert (forall o : option (denote e), 1 <= zlen (wire o)) as Ho
    by (intros [a|]; simpl; rewrite zlen_cons; [pose proof (zlen_nonneg (wire a))|]; unfold zlen; simpl; lia).
  split; intros _ o _; apply Ho.
Qed.

Lemma field_promise f fs : promise f -> promise fs -> promise (TField f fs).
Proof.
  intros (H & H1 & H2) (H' & H1' & H2'). exists (@fields_ok _ _ _ H _ H').
  assert (nonempty f || nonempty fs = true -> forall x : denote f * denote fs, valid x -> 1 <= zlen (wire x)) as Hx.
  { intros Hn [a b] [Ha Hb]. simpl in *. rewrite zlen_app.
    pose proof (zlen_nonneg (wire a)). pose proof (zlen_nonneg (wire b)).
    apply orb_true_iff in Hn as [Hn|Hn]; [pose proof (H2 Hn a Ha)|pose proof (H2' Hn b Hb)]; lia. }
  split; [intros Hn x; by apply Hx|done].
Qed.

Lemma codec_ok ty : type_ok ty = true -> promise ty.
Proof.
  induction ty as [t| | |e IH|n e IH|k v IH|e IH| |f IHf fs IHfs]; simpl; intros Ht; zbool.
  - by apply prim_promise.
  - exists str_ok. split; intros _ a _; [apply prefixed_sized|apply prefixed_nonempty].
  - exists bytes_ok. split; intros _ a _; [apply prefixed_sized|apply prefixed_nonempty].
  - apply vector_promise; auto.
  - by apply array_promise, IH.
  - apply map_promise; auto.
  - by apply optional_promise, IH.
  - by exists empty_fields_ok.
  - apply field_promise; auto.
Qed.

(** Reading hostile bytes, for every type. *)
Lemma accepted_safe ty host : accepted ty = true -> reader_safe (deserialize (A := denote ty) host).
Proof.
  assert (forall k, key_ok k = true -> reader_safe (deserialize (A := kdenote k) host)) as Hkey.
  { intros k Hk. destruct (kcodec_ok k Hk) as (H & _). apply deserialize_safe. }
  assert (reader_safe (read_array_size host)) as Hsize by (apply read_safe; simpl; lia).
  induction ty as [t| | |e IH|n e IH|k v IH|e IH| |f IHf fs IHfs]; cbn [accepted]; intros Ht; zbool.
  - destruct (prim_promise t Ht) as (H & _). exact (deserialize_safe host).
  - exact (deserialize_safe (A := str) host).
  - exact (deserialize_safe (A := bytes_vec) host).
  - apply bind_safe; [done|]. intros c. apply bind_safe; [apply check_count_safe|]. intros _. by apply deserialize_n_safe, IH.
  - by apply bind_ret_safe, deserialize_n_safe, IH.
  - apply bind_safe; [done|]. intros c. apply bind_safe; [apply check_count_safe|]. intros _. apply bind_ret_safe, deserialize_pairs_safe; [by apply Hkey|by apply IH].
  - apply bind_safe; [apply read_safe; simpl; lia|]. intros x. destruct (x =? 0); [apply ret_safe|]. by apply bind_ret_safe, IH.
  - apply ret_safe.
  - apply bind_safe; [by apply IHf|]. intros a. by apply bind_ret_safe, IHfs.
Qed.

(** ** Properties *)



(** Counts chosen by a peer are bounded before anything is allocated: when the count read in
    front of a vector exceeds the hard cap, or could not fit in the bytes that remain, the
    deserialiser throws right after the count without decoding (or reserving room for) any element;
    otherwise it decodes exactly that many elements, and their minimal sizes fit in the
    bytes that remain. *)
Theorem container_count_guard {A} `{Codec A} host v c v1 :
  view_ok v -> 0 < min_wire_size A -> read_array_size host v = (Ok c, v1) ->
  if (c >? max_container_count) || (remaining v1 <? c * min_wire_size A)
  then exists e, deserialize (A := list A) host v = (Throw e, v1)
  else deserialize (A := list A) host v = deserialize_n (deserialize host) (Z.to_nat c) v1 /\
       0 <= c <= max_container_count /\ c * min_wire_size A <= size_ v - pos_ v - 4.
Proof.
  intros Hv Hm E. pose proof (read_u32_range _ _ _ _ E Hv) as Hc.
  pose proof (read_safe host (Unsigned 4) ltac:(simpl; lia) v Hv) as Ha. unfold read_array_size in E.
  assert (pos_ v1 = pos_ v + 4 /\ size_ v1 = size_ v) as [Hp Hsz].
  { revert E. unfold read. rewrite view_pos_add by (done || simpl; lia). case_if; [done|].
    intros [= <- <-]. done. }
  rewrite E in Ha. pose proof (advanced_ok _ _ Hv Ha) as Hv1. cbn [deserialize vector_codec].
  unfold bind, read_array_size. rewrite E. unfold check_count, check_container_count.
  rewrite (remaining_eq v1) by done. rewrite (proj2 (Z.ltb_lt 0 (min_wire_size A))) by done. simpl.
  destruct (c >? max_container_count) eqn:E1; simpl; [by eexists|].
  assert ((c >? (size_ v1 - pos_ v1) / min_wire_size A) = (size_ v1 - pos_ v1 <? c * min_wire_size A)) as ->.
  { rewrite Z.gtb_ltb. apply eq_true_iff_eq. rewrite !Z.ltb_lt, <-!Z.nle_gt.
    rewrite (Z.mul_comm c). split; intros Hn Hle; apply Hn; [by apply Z.div_le_lower_bound|].
    eapply Z.le_trans; [apply Z.mul_le_mono_nonneg_l; [lia|exact Hle]|]. apply Z.mul_div_le. lia. }
  case_if; [by eexists|]. zbool. split_and!; [done|lia|lia|lia].
Qed.

(** An element type with an empty wire form keeps the default [min_wire_size] of 1, so the guard
    rejects the code's own output: a non-empty vector of empty structs at the end of a
    message is serialised but cannot be deserialised. *)
Theorem vector_of_empty_structs_rejected host host' n :
  Z.of_nat (S n) <= max_container_count ->
  exists w, serialize_new host (replicate (S n) tt) = (Ok tt, w) /\
            deserialize_from (A := list unit) host' w = Throw container_count_exceeds_remaining.
Proof.
  intros Hn. set (l := replicate (S n) tt).
  assert (zlen l = Z.of_nat (S n)) as Hl by (unfold zlen, l; by rewrite length_replicate).
  assert (zlen l <= UINT32_MAX) as Hu by (apply max_count_u32; lia).
  assert (writes (serialize_all (fun _ : unit => ret tt) l) []) as Hw.
  { replace [] with (concat (map (fun _ : unit => @nil byte) l))
      by (unfold l; generalize (S n); intros k; by induction k).
    apply serialize_all_writes, Forall_true. intros ?. apply ret_writes. }
  exists (count_wire l). split.
  - unfold serialize_new. cbn [serialize vector_codec empty_fields_codec]. unfold bind.
    by rewrite (write_count host l Hu), Hw, app_nil_r.
  - pose proof (zlen_count_wire l) as H4.
    assert (view_ok (view_of (count_wire l))) as Hv by (apply view_of_ok; lia).
    unfold deserialize_from. cbn [deserialize vector_codec]. unfold bind.
    rewrite (read_count host' l Hu _ []) by (done || rewrite rest_view_of; by rewrite app_nil_r).
    unfold check_count, check_container_count, remaining. simpl. rewrite H4, Hl in *.
    rewrite Z.gtb_ltb, (proj2 (Z.ltb_ge _ _)) by lia. done.
Qed.

(** ** Witnesses *)

(** A NaN is not before 1.0 nor 1.0 before it; the zeroes are equal; -1.0 is before +0.0. *)
Example float_order : map (fun p => float_less 4 p.1 p.2) [(0x7fc00000, 0x3f800000); (0x3f800000, 0x7fc00000); (0x80000000, 0); (0, 0x80000000); (0xbf800000, 0); (0, 0xbf800000)] =
  [false; false; false; false; true; false].
Proof. vm_compute. reflexivity. Qed.

(** [struct { std::map<std::string, std::optional<int16_t>> m; std::vector<std::string> v; }]. *)
Definition demo_type : rty :=
  TField (TMap KString (TOptional (TPrim (Signed 2)))) (TField (TVector TString) TEmpty).

Definition demo_value : denote demo_type :=
  (OMap [(Str [z2b 65], None); (Str [z2b 65; z2b 66], Some (Prim (-2)))], ([Str []; Str [z2b 7]], tt)).

Lemma demo_valid : valid demo_value.
Proof.
  split; [|split; [|done]].
  - split; [vm_compute; done|]. split.
    + repeat constructor.
    + repeat constructor; simpl; vm_compute; done.
  - split; [vm_compute; done|]. repeat constructor; vm_compute; done.
Qed.



Lemma container_count_guard_witness :
  exists e, deserialize (A := list str) little (view_of (replicate 9 (z2b 1))) =
    (Throw e, with_pos 4 (view_of (replicate 9 (z2b 1)))).
Proof.
  pose proof (container_count_guard (A := str) little (view_of (replicate 9 (z2b 1))) 16843009
    (with_pos 4 (view_of (replicate 9 (z2b 1))))) as H.
  apply H; [apply view_of_ok; vm_compute; done|done|vm_compute; reflexivity].
Defined.

Lemma vector_of_empty_structs_rejected_witness :
  exists w, serialize_new little [tt; tt] = (Ok tt, w) /\
            deserialize_from (A := list unit) big w = Throw container_count_exceeds_remaining.
Proof. apply (vector_of_empty_structs_rejected little big 1). vm_compute. done. Defined.

End Rpc.
