(* ===== verification/RpcProtocol.v ===== *)
(** * The RPC wire protocol

    Models [src/include/elio/rpc/rpc_protocol.hpp]: frame headers and their validation, request
    identifiers, the scatter-gather write loop, writing and reading of frames with their
    checksum, the message builders and the typed parsers.

    The stream under a frame is a parameter.  On the sending side it is the sequence of answers
    the system gives to [writev] and [poll_write] ([Proto.writev_exact] consumes one per
    call); a positive answer to [writev] never exceeds what was offered, as POSIX says.  On the
    receiving side it is the sequence of bytes that arrive before the end of the stream or an
    error ([read_exactly] fails when it would pass its end). *)

From S2P Require Import Prelude Endian Crc32 RpcBuffer RpcTypes.

Module Proto.
Export Rpc.

Definition protocol_magic : Z := 0x454C494F.
Definition protocol_version : Z := 1.
Definition frame_header_size : nat := 19.
Definition checksum_size : nat := 4.

(** ** Message types and flags: bytes received may be no enumerator, so they are integers *)

Definition T_request : Z := 0.
Definition T_response : Z := 1.
Definition T_error : Z := 2.
Definition T_ping : Z := 3.
Definition T_pong : Z := 4.
Definition T_cancel : Z := 5.

Definition F_none : Z := 0.
Definition F_has_timeout : Z := Z.shiftl 1 0.
Definition F_has_checksum : Z := Z.shiftl 1 1.
Definition F_no_response : Z := Z.shiftl 1 4.

Definition has_flag (flags flag : Z) : bool := negb (Z.land flags flag =? 0).

Definition is_valid_message_type (type : Z) : bool :=
  (type =? T_request) || (type =? T_response) || (type =? T_error) ||
  (type =? T_ping) || (type =? T_pong) || (type =? T_cancel).

Definition has_only_supported_message_flags (flags : Z) : bool :=
  Z.land flags (Z.lor (Z.lor F_has_timeout F_has_checksum) F_no_response) =? flags.

Definition has_allowed_flags_for_type (type flags : Z) : bool :=
  if type =? T_request then Z.land flags (Z.lor (Z.lor F_has_timeout F_has_checksum) F_no_response) =? flags
  else if (type =? T_response) || (type =? T_error) || (type =? T_ping) || (type =? T_pong) || (type =? T_cancel)
       then Z.land flags F_has_checksum =? flags
       else false.

(** ** Frame headers *)

Record frame_header := Header {
  magic : Z; request_id : Z; type : Z; flags : Z; method_id : Z; payload_length : Z; version : Z
}.

Definition has_valid_shape (h : frame_header) : bool :=
  if type h =? T_request then negb (has_flag (flags h) F_has_timeout) || (4 <=? payload_length h)
  else if (type h =? T_response) || (type h =? T_error) then method_id h =? 0
  else if (type h =? T_ping) || (type h =? T_pong) || (type h =? T_cancel)
       then (method_id h =? 0) && (payload_length h =? 0)
       else false.

Definition is_valid (h : frame_header) : bool :=
  (magic h =? protocol_magic) && (version h =? protocol_version) && is_valid_message_type (type h) &&
  has_only_supported_message_flags (flags h) && has_allowed_flags_for_type (type h) (flags h) &&
  has_valid_shape h && (payload_length h <=? max_message_size).

Definition serialize_header (host : endian) (h : frame_header) : op buffer_writer unit :=
  write host (Unsigned 4) (magic h) ;;;
  write host (Unsigned 4) (request_id h) ;;;
  write host (Unsigned 1) (type h) ;;;
  write host (Unsigned 1) (flags h) ;;;
  write host (Unsigned 4) (method_id h) ;;;
  write host (Unsigned 4) (payload_length h) ;;;
  write host (Unsigned 1) (version h).

Definition to_bytes (host : endian) (h : frame_header) : list byte :=
  write_le host (Unsigned 4) (magic h) ++
  write_le host (Unsigned 4) (request_id h) ++
  [z2b (type h)] ++ [z2b (flags h)] ++
  write_le host (Unsigned 4) (method_id h) ++
  write_le host (Unsigned 4) (payload_length h) ++
  [z2b (version h)].

Definition deserialize_header (host : endian) : op buffer_view frame_header :=
  m <- read host (Unsigned 4) ;;
  r <- read host (Unsigned 4) ;;
  t <- read host (Unsigned 1) ;;
  f <- read host (Unsigned 1) ;;
  i <- read host (Unsigned 4) ;;
  p <- read host (Unsigned 4) ;;
  v <- read host (Unsigned 1) ;;
  ret (Header m r t f i p v).

(** [p] walks over the bytes as in the code. *)
Definition from_bytes (host : endian) (data : list byte) : frame_header :=
  let m := read_le host (Unsigned 4) data in let p := drop 4 data in
  let r := read_le host (Unsigned 4) p in let p := drop 4 p in
  let t := b2z (nth 0 p (z2b 0)) in let p := drop 1 p in
  let f := b2z (nth 0 p (z2b 0)) in let p := drop 1 p in
  let i := read_le host (Unsigned 4) p in let p := drop 4 p in
  let l := read_le host (Unsigned 4) p in let p := drop 4 p in
  let v := b2z (nth 0 p (z2b 0)) in
  Header m r t f i l v.

(** ** Request identifiers *)

(** [next]: the identifier and the counter after it. *)
Definition next (counter : Z) : Z * Z := (u32 ((counter mod UINT32_MAX) + 1), u64 (counter + 1)).

(** ** Writing *)

Definition EAGAIN : Z := 11.
Definition EINTR : Z := 4.
Definition EOVERFLOW : Z := 75.

(** The inner loop: [written] bytes have been accepted from the head of the array. *)
Fixpoint advance (written : Z) (iovs : list (list byte)) : list (list byte) :=
  match iovs with
  | seg :: iovs' =>
      if 0 <? written then
        if zlen seg <=? written then advance (written - zlen seg) iovs'
        else drop (Z.to_nat written) seg :: iovs'
      else iovs
  | [] => []
  end.

(** The write loop.  [answers] are the results of the calls to [writev] and [poll_write], in
    order; [out] what the peer has been sent.  The outcome is [None] while the coroutine waits
    for an answer that is not there. *)
Fixpoint writev_loop (answers : list Z) (total : Z) (iovs : list (list byte)) (out : list byte)
    : option Z * list byte :=
  match iovs with
  | [] => (Some (if total >? INT32_MAX then - EOVERFLOW else total), out)
  | _ =>
      let offered := concat (take (Z.to_nat IOV_MAX) iovs) in
      match answers with
      | [] => (None, out)
      | r :: answers =>
          let r := Z.min r (zlen offered) in
          if r =? - EAGAIN then
            match answers with
            | [] => (None, out)
            | poll :: answers => if poll <? 0 then (Some poll, out) else writev_loop answers total iovs out
            end
          else if r =? - EINTR then writev_loop answers total iovs out
          else if r <=? 0 then (Some r, out)
          else writev_loop answers total (advance r iovs) (out ++ take (Z.to_nat r) offered)
      end
  end.

Definition writev_exact (answers : list Z) (iovs : list (list byte)) : option Z * list byte :=
  writev_loop answers (u64 (fold_left (fun n seg => n + zlen seg) iovs 0)) iovs [].

(** The checksum of a frame: header bytes, then payload.  [ha] and [pa] are the addresses of
    the two buffers. *)
Definition frame_crc (p : Crc.platform) (ha pa : Z) (header_bytes payload : list byte) : Z :=
  let crc := Crc.crc32_update p ha header_bytes 0xFFFFFFFF in
  let crc := if 0 <? zlen payload then Crc.crc32_update p pa payload crc else crc in
  Crc.crc32_finalize crc.

(** The iovec array [write_frame] builds. *)
Definition frame_iovecs (p : Crc.platform) (ha pa : Z) (h : frame_header) (payload : list byte) : list (list byte) :=
  let header_bytes := to_bytes (Crc.host p) h in
  [header_bytes] ++
  (if 0 <? zlen payload then [payload] else []) ++
  (if has_flag (flags h) F_has_checksum
   then [write_le (Crc.host p) (Unsigned 4) (frame_crc p ha pa header_bytes payload)] else []).

Definition write_frame (p : Crc.platform) (ha pa : Z) (answers : list Z) (h : frame_header) (payload : list byte)
    : option bool * list byte :=
  let (r, out) := writev_exact answers (frame_iovecs p ha pa h payload) in
  (match r with Some n => Some (0 <? n) | None => None end, out).

(** The cancellable overload copies the frame into one buffer and passes it to
    [write_exactly]. *)
Definition frame_buffer (p : Crc.platform) (ha pa : Z) (h : frame_header) (payload : list byte)
    : result serialization_error unit * buffer_writer :=
  let header_bytes := to_bytes (Crc.host p) h in
  (write_bytes header_bytes ;;;
   (if 0 <? zlen payload then write_bytes payload else ret tt) ;;;
   (if has_flag (flags h) F_has_checksum
    then write_bytes (write_le (Crc.host p) (Unsigned 4) (frame_crc p ha pa header_bytes payload))
    else ret tt)) [].

(** ** Reading *)

Definition read_exactly (n : Z) (s : list byte) : option (list byte * list byte) :=
  if n <=? zlen s then Some (take (Z.to_nat n) s, drop (Z.to_nat n) s) else None.

Definition read_frame_bounded (p : Crc.platform) (ha pa : Z) (max_payload : Z) (s : list byte)
    : option (frame_header * list byte * list byte) :=
  match read_exactly (Z.of_nat frame_header_size) s with
  | None => None
  | Some (header_buf, s) =>
      let header := from_bytes (Crc.host p) header_buf in
      if negb (is_valid header) then None
      else if payload_length header >? max_payload then None
      else
        match (if 0 <? payload_length header then read_exactly (payload_length header) s else Some ([], s)) with
        | None => None
        | Some (payload, s) =>
            if has_flag (flags header) F_has_checksum then
              match read_exactly (Z.of_nat checksum_size) s with
              | None => None
              | Some (chk_bytes, s) =>
                  let received := read_le (Crc.host p) (Unsigned 4) chk_bytes in
                  if frame_crc p ha pa header_buf payload =? received then Some (header, payload, s) else None
              end
            else Some (header, payload, s)
        end
  end.

Definition read_frame (p : Crc.platform) (ha pa : Z) := read_frame_bounded p ha pa (u32 max_message_size).
(** ** Message builders *)

Inductive rpc_exception :=
| serialization (e : serialization_error)
| payload_exceeds_uint32 | payload_exceeds_max_message_size.

Definition validate_payload_size (size : Z) : result rpc_exception unit :=
  if size >? UINT32_MAX then Throw payload_exceeds_uint32
  else if size >? max_message_size then Throw payload_exceeds_max_message_size
  else Ok tt.

(** The error codes and the error payload. *)
Definition E_success : Z := 0.
Definition E_timeout : Z := 1.
Definition E_connection_closed : Z := 2.
Definition E_invalid_message : Z := 3.
Definition E_method_not_found : Z := 4.
Definition E_serialization_error : Z := 5.
Definition E_internal_error : Z := 6.
Definition E_cancelled : Z := 7.
Definition E_resource_exhausted : Z := 8.

Record error_payload := ErrorPayload { code : prim (Unsigned 4); message : str }.

#[global] Program Instance error_payload_fields : Fields error_payload (prim (Unsigned 4) * (str * unit)) := {|
  get_fields e := (code e, (message e, tt));
  set_fields '(c, (m, _)) := ErrorPayload c m
|}.
Next Obligation. by intros []. Qed.

#[global] Instance error_payload_codec : Codec error_payload := struct_codec.
#[global] Instance error_payload_ok : CodecOk error_payload := struct_ok.

(** Run a writer on a fresh buffer, then continue with its contents. *)
Definition run_writer (w : op buffer_writer unit) : result rpc_exception (list byte) :=
  match w [] with
  | (Ok _, b) => Ok b
  | (Throw e, _) => Throw (serialization e)
  end.

Definition finish (h : Z -> frame_header) (payload : list byte) : result rpc_exception (frame_header * list byte) :=
  let? _ := validate_payload_size (zlen payload) in Ok (h (u32 (zlen payload)), payload).

Section Builders.
Context {A : Type} `{Codec A} (host : endian).

Definition build_request (id method : Z) (request : A) (timeout_ms : option Z) (enable_checksum : bool)
    : result rpc_exception (frame_header * list byte) :=
  let flags := F_none in
  let flags := if timeout_ms then Z.lor flags F_has_timeout else flags in
  let flags := if enable_checksum then Z.lor flags F_has_checksum else flags in
  let? payload := run_writer (match timeout_ms with
                              | Some t => write host (Unsigned 4) t
                              | None => ret tt
                              end ;;; serialize host request) in
  finish (fun n => Header protocol_magic id T_request flags method n protocol_version) payload.

Definition build_oneway_request (id method : Z) (request : A) (enable_checksum : bool)
    : result rpc_exception (frame_header * list byte) :=
  let? (h, payload) := build_request id method request None enable_checksum in
  Ok (Header (magic h) (request_id h) (type h) (Z.lor (flags h) F_no_response) (method_id h)
             (payload_length h) (version h), payload).

Definition build_response (id : Z) (response : A) (enable_checksum : bool)
    : result rpc_exception (frame_header * list byte) :=
  let? payload := run_writer (serialize host response) in
  finish (fun n => Header protocol_magic id T_response (if enable_checksum then F_has_checksum else F_none)
                          0 n protocol_version) payload.

(** ** Typed parsers *)

Definition parse_typed_payload : op buffer_view A :=
  parsed <- deserialize host ;;
  (fun v => if remaining v =? 0 then (Ok tt, v) else throw trailing_bytes v) ;;;
  ret parsed.

Definition parse_request (flags : Z) : op buffer_view (option Z * A) :=
  timeout_ms <- (if has_flag flags F_has_timeout
                 then t <- read host (Unsigned 4) ;; ret (Some t) else ret None) ;;
  request <- parse_typed_payload ;;
  ret (timeout_ms, request).

Definition parse_response : op buffer_view A := parse_typed_payload.

End Builders.

Definition build_error_response (host : endian) (id error_code : Z) (error_message : list byte) (enable_checksum : bool)
    : result rpc_exception (frame_header * list byte) :=
  let? payload := run_writer (serialize host (ErrorPayload (Prim error_code) (Str error_message))) in
  finish (fun n => Header protocol_magic id T_error (if enable_checksum then F_has_checksum else F_none)
                          0 n protocol_version) payload.

Definition parse_error (host : endian) : op buffer_view error_payload := parse_typed_payload host.

Definition build_ping (id : Z) : frame_header := Header protocol_magic id T_ping F_none 0 0 protocol_version.
Definition build_pong (id : Z) : frame_header := Header protocol_magic id T_pong F_none 0 0 protocol_version.
Definition build_cancel (id : Z) : frame_header := Header protocol_magic id T_cancel F_none 0 0 protocol_version.

(** ** Specification *)

(** The fields have their C++ types. *)
Definition header_ok (h : frame_header) : Prop :=
  in_type (Unsigned 4) (magic h) /\ in_type (Unsigned 4) (request_id h) /\ in_type (Unsigned 1) (type h) /\
  in_type (Unsigned 1) (flags h) /\ in_type (Unsigned 4) (method_id h) /\
  in_type (Unsigned 4) (payload_length h) /\ in_type (Unsigned 1) (version h).

(** Sequences of answers of a live stream, with [n] successful calls: each takes at least one byte;
    interruptions, and full socket buffers that become writable, in between. *)
Inductive progress : list Z -> Z -> Prop :=
| p_end : progress [] 0
| p_wrote a l n : 0 < a -> progress l n -> progress (a :: l) (n + 1)
| p_interrupted l n : progress l n -> progress (- EINTR :: l) n
| p_again poll l n : 0 <= poll -> progress l n -> progress (- EAGAIN :: poll :: l) n.

(** The wire form of a frame, on any host. *)
Definition header_wire (h : frame_header) : list byte :=
  le_bytes 4 (magic h) ++ le_bytes 4 (request_id h) ++ le_bytes 1 (type h) ++ le_bytes 1 (flags h) ++
  le_bytes 4 (method_id h) ++ le_bytes 4 (payload_length h) ++ le_bytes 1 (version h).

Definition crc_wire (l : list byte) : list byte :=
  le_bytes 4 (Z.lxor (Crc.crc_ref Crc.IEEE Crc.ALL_ONES l) Crc.ALL_ONES).

Definition frame_wire (h : frame_header) (payload : list byte) : list byte :=
  header_wire h ++ payload ++
  (if has_flag (flags h) F_has_checksum then crc_wire (header_wire h ++ payload) else []).

(** ** Headers *)

Ltac u_ok := solve [simpl in *; lia | simpl in *; tauto].

Lemma z2b_le_bytes z : [z2b z] = le_bytes 1 z.
Proof. done. Qed.

Lemma to_bytes_wire host h : header_ok h -> to_bytes host h = header_wire h.
Proof.
  intros (? & ? & ? & ? & ? & ? & ?). unfold to_bytes, header_wire.
  by rewrite !write_le_bytes by u_ok.
Qed.

Lemma length_header_wire h : length (header_wire h) = frame_header_size.
Proof. unfold header_wire. by rewrite !length_app, !length_le_bytes. Qed.

Lemma serialize_header_wire host h : header_ok h -> writes (serialize_header host h) (header_wire h).
Proof.
  intros (? & ? & ? & ? & ? & ? & ?). unfold serialize_header, header_wire.
  assert (forall n v, supported (Unsigned n) -> in_type (Unsigned n) v ->
            forall b, write host (Unsigned n) v b = (Ok tt, b ++ le_bytes n v)) as Hw
    by (intros n v Hn Hv b; unfold write; by rewrite write_le_bytes).
  repeat (eapply bind_writes; [apply Hw; u_ok|]). intros b. apply Hw; u_ok.
Qed.

Lemma read_u host n v : supported (Unsigned n) -> in_type (Unsigned n) v ->
  reads (read host (Unsigned n)) (le_bytes n v) v.
Proof.
  intros Hn Hv. pose proof (read_reads host host (Unsigned n) v Hn Hv) as H.
  by rewrite write_le_bytes in H.
Qed.

Lemma deserialize_header_reads host h : header_ok h -> reads (deserialize_header host) (header_wire h) h.
Proof.
  intros (? & ? & ? & ? & ? & ? & ?). unfold deserialize_header, header_wire.
  do 6 (eapply bind_reads; [apply read_u; u_ok|]). rewrite <-(app_nil_r (le_bytes 1 (version h))).
  eapply bind_reads; [apply read_u; u_ok|]. destruct h. apply ret_reads.
Qed.

Lemma read_le_u32 host b0 b1 b2 b3 l :
  read_le host (Unsigned 4) (b0 :: b1 :: b2 :: b3 :: l) = le_val [b0; b1; b2; b3].
Proof.
  rewrite read_le_value; [|simpl; lia|simpl; lia]. pose proof (le_val_range [b0; b1; b2; b3]).
  cbn [cast sizeof take]. by apply uwrap_small.
Qed.

(** Any 19 bytes are the wire form of the header read from them. *)
Lemma from_bytes_ok host data : length data = frame_header_size ->
  header_ok (from_bytes host data) /\ header_wire (from_bytes host data) = data.
Proof.
  intros Hl. do 19 (destruct data as [|?b data]; [done|]). destruct data; [|done]. clear Hl.
  unfold from_bytes. cbn [drop nth]. rewrite !read_le_u32.
  assert (forall a0 a1 a2 a3, in_type (Unsigned 4) (le_val [a0; a1; a2; a3])) as H4
    by (intros; apply (le_val_range [a0; a1; a2; a3])).
  assert (forall x, in_type (Unsigned 1) (b2z x)) as H1 by (intros; apply b2z_range).
  split; [unfold header_ok; cbn [magic request_id type flags method_id payload_length version]; auto 10|].
  unfold header_wire. cbn [magic request_id type flags method_id payload_length version].
  rewrite !(le_bytes_le_val' 4) by done. cbn [le_bytes app]. by rewrite !z2b_b2z.
Qed.

Lemma app_inj_length {A} (l1 l2 k1 k2 : list A) :
  length l1 = length l2 -> l1 ++ k1 = l2 ++ k2 -> l1 = l2 /\ k1 = k2.
Proof. intros. by apply app_inj_1. Qed.

Lemma le_bytes_inj_u n a b : in_type (Unsigned n) a -> in_type (Unsigned n) b -> le_bytes n a = le_bytes n b -> a = b.
Proof. intros Ha Hb E. apply le_bytes_inj in E. by rewrite !uwrap_small in E. Qed.

(** The wire form determines the header. *)
Lemma header_wire_inj h h' : header_ok h -> header_ok h' -> header_wire h = header_wire h' -> h = h'.
Proof.
  intros (? & ? & ? & ? & ? & ? & ?) (? & ? & ? & ? & ? & ? & ?) E. unfold header_wire in E.
  repeat (apply app_inj_length in E as [?E1 E]; [|by rewrite !length_le_bytes]).
  destruct h, h'; cbn [magic request_id type flags method_id payload_length version] in *.
  repeat match goal with H : le_bytes ?n ?a = le_bytes ?n ?b |- _ => apply (le_bytes_inj_u n) in H; [subst|done|done] end.
  done.
Qed.

Lemma from_bytes_wire host h : header_ok h -> from_bytes host (header_wire h) = h.
Proof.
  intros Hh. destruct (from_bytes_ok host (header_wire h) (length_header_wire h)) as [H1 H2].
  by apply header_wire_inj.
Qed.

(** ** Checksums *)

Lemma frame_crc_ok p ha pa hb payload : Crc.platform_ok p ->
  frame_crc p ha pa hb payload = Z.lxor (Crc.crc_ref Crc.IEEE Crc.ALL_ONES (hb ++ payload)) Crc.ALL_ONES.
Proof.
  intros Hp. unfold frame_crc, Crc.crc32_finalize. fold Crc.ALL_ONES. f_equal.
  rewrite (Crc.crc32_update_ok p ha) by done. rewrite Crc.crc_ref_app.
  destruct (0 <? zlen payload) eqn:E.
  - rewrite Crc.crc32_update_ok; [done|done|by apply Crc.crc_ref_range].
  - destruct payload; [done|]. zbool. rewrite zlen_cons in *. pose proof (zlen_nonneg payload). lia.
Qed.

Lemma crc_in_u32 l : in_type (Unsigned 4) (Z.lxor (Crc.crc_ref Crc.IEEE Crc.ALL_ONES l) Crc.ALL_ONES).
Proof. apply (lxor_range 32); [done|by apply Crc.crc_ref_range|done]. Qed.

Lemma crc_wire_le host l :
  write_le host (Unsigned 4) (Z.lxor (Crc.crc_ref Crc.IEEE Crc.ALL_ONES l) Crc.ALL_ONES) = crc_wire l.
Proof. rewrite write_le_bytes; [done|simpl; lia|apply crc_in_u32]. Qed.

(** ** The write loop *)

Lemma concat_advance iovs n : 0 <= n <= zlen (concat iovs) ->
  concat (advance n iovs) = drop (Z.to_nat n) (concat iovs).
Proof.
  revert n. induction iovs as [|seg iovs IH]; intros n Hn; simpl.
  - by rewrite drop_nil.
  - simpl in Hn. rewrite zlen_app in Hn. destruct (0 <? n) eqn:E0; zbool.
    + destruct (zlen seg <=? n) eqn:E1; zbool.
      * rewrite IH by lia. unfold zlen in *. rewrite drop_app_ge by lia. f_equal. lia.
      * simpl. unfold zlen in *. rewrite drop_app_le by lia. done.
    + replace (Z.to_nat n) with 0%nat by lia. done.
Qed.

Lemma advance_nonempty iovs n : Forall (fun s : list byte => 0 < zlen s) iovs -> Forall (fun s => 0 < zlen s) (advance n iovs).
Proof.
  intros Hf. revert n. induction Hf as [|seg iovs Hs Hf IH]; intros n; simpl; [done|].
  repeat case_if; zbool; [apply IH| |by constructor].
  constructor; [|done]. unfold zlen in *. rewrite length_drop. lia.
Qed.

Lemma concat_take_prefix (iovs : list (list byte)) k :
  concat iovs = concat (take k iovs) ++ concat (drop k iovs).
Proof. by rewrite <-concat_app, take_drop. Qed.

(** What the loop has sent followed by what is left is the message; it reports success exactly
    when nothing is left. *)
Definition sent_ok (total : Z) (out : list byte) (iovs : list (list byte)) (r : option Z) (out' : list byte) : Prop :=
  exists sent left, out' = out ++ sent /\ concat iovs = sent ++ left /\
    match r with
    | Some n => if 0 <? n then n = total /\ left = [] else True
    | None => left <> []
    end.

Lemma sent_stop total out iovs z : z <= 0 -> sent_ok total out iovs (Some z) out.
Proof.
  intros Hz. exists [], (concat iovs). rewrite app_nil_r, (proj2 (Z.ltb_ge _ _)) by lia. done.
Qed.

Lemma sent_wait total out iovs : concat iovs <> [] -> sent_ok total out iovs None out.
Proof. intros Hz. exists [], (concat iovs). by rewrite app_nil_r. Qed.

Lemma sent_more total out iovs r out' n k : 0 <= n <= zlen (concat (take k iovs)) ->
  sent_ok total (out ++ take (Z.to_nat n) (concat (take k iovs))) (advance n iovs) r out' ->
  sent_ok total out iovs r out'.
Proof.
  intros Hn (sent & left & -> & E & Hr). pose proof (concat_take_prefix iovs k) as Hsplit.
  set (offered := concat (take k iovs)) in *.
  exists (take (Z.to_nat n) offered ++ sent), left. split_and!; [by rewrite app_assoc| |done].
  pose proof (zlen_nonneg (concat (drop k iovs))).
  rewrite concat_advance in E by (rewrite Hsplit, zlen_app; lia).
  rewrite <-app_assoc, <-E, Hsplit. unfold zlen in *. rewrite drop_app_le by lia.
  by rewrite app_assoc, take_drop.
Qed.

Lemma concat_nonempty (seg : list byte) iovs : 0 < zlen seg -> concat (seg :: iovs) <> [].
Proof. by destruct seg. Qed.

Lemma writev_loop_end answers total out : total <= INT32_MAX -> writev_loop answers total [] out = (Some total, out).
Proof. intros. destruct answers; cbn [writev_loop]; by rewrite Z.gtb_ltb, (proj2 (Z.ltb_ge _ _)) by lia. Qed.

Lemma writev_loop_ok answers total iovs out :
  Forall (fun s => 0 < zlen s) iovs -> 0 < total <= INT32_MAX ->
  sent_ok total out iovs (fst (writev_loop answers total iovs out)) (snd (writev_loop answers total iovs out)).
Proof.
  revert iovs out. induction answers as [answers IH] using (induction_ltof1 _ length).
  intros iovs out Hf Ht. destruct iovs as [|seg iovs].
  { rewrite writev_loop_end by lia. exists [], []. cbn [fst snd].
    by rewrite app_nil_r, (proj2 (Z.ltb_lt _ _)) by lia. }
  pose proof (concat_nonempty seg iovs (Forall_inv Hf)) as Hne.
  destruct answers as [|a answers]; [by apply sent_wait|]. cbn [writev_loop]. cbv zeta.
  remember (seg :: iovs) as all eqn:Eall. clear Eall.
  case_if; [destruct answers as [|poll answers]; [by apply sent_wait|]; case_if|case_if; [|case_if]]; zbool.
  - apply sent_stop. lia.
  - apply IH; [unfold ltof; simpl; lia|done|done].
  - apply IH; [unfold ltof; simpl; lia|done|done].
  - by apply sent_stop.
  - apply (sent_more _ _ _ _ _ (Z.min a (zlen (concat (take (Z.to_nat IOV_MAX) all)))) (Z.to_nat IOV_MAX)); [lia|].
    apply IH; [unfold ltof; simpl; lia|by apply advance_nonempty|done].
Qed.

Lemma writev_loop_done answers n total iovs out :
  progress answers n -> Forall (fun s => 0 < zlen s) iovs -> 0 < total <= INT32_MAX ->
  zlen (concat iovs) <= n -> fst (writev_loop answers total iovs out) = Some total.
Proof.
  intros Hg Hf Ht. revert iovs out Hf.
  induction Hg as [|a l n Ha Hg IH|l n Hg IH|poll l n Hp Hg IH]; intros iovs out Hf Hlen;
    (destruct iovs as [|seg iovs]; [by rewrite writev_loop_end by lia|]);
    assert (0 < zlen (concat (take (Z.to_nat IOV_MAX) (seg :: iovs)))) as Hoff
      by (pose proof (Forall_inv Hf); pose proof (zlen_nonneg (concat (take 1023 iovs)));
          replace (Z.to_nat IOV_MAX) with (S 1023) by done; cbn [take concat]; rewrite zlen_app; simpl in *; lia);
    pose proof (concat_take_prefix (seg :: iovs) (Z.to_nat IOV_MAX)) as Hsplit;
    pose proof (zlen_nonneg (concat (drop (Z.to_nat IOV_MAX) (seg :: iovs)))) as Hd;
    cbn [writev_loop]; cbv zeta; unfold EAGAIN, EINTR in *.
  - rewrite Hsplit, zlen_app in Hlen. lia.
  - remember (seg :: iovs) as all eqn:Eall. clear Eall. set (k := zlen (concat (take _ all))) in *.
    assert (k <= zlen (concat all)) by (rewrite Hsplit, zlen_app; lia).
    do 3 (case_if; [zbool; lia|]). zbool. apply IH; [by apply advance_nonempty|].
    rewrite concat_advance by lia. unfold zlen in *. rewrite length_drop. lia.
  - rewrite Z.min_l by lia. by apply IH.
  - rewrite Z.min_l by lia. simpl Z.eqb. cbv iota. rewrite (proj2 (Z.ltb_ge _ _)) by lia. by apply IH.
Qed.

(** ** Frames *)

Section Frames.
Context (p : Crc.platform) (Hp : Crc.platform_ok p) (ha pa : Z).

Lemma frame_iovecs_wire h payload : header_ok h -> concat (frame_iovecs p ha pa h payload) = frame_wire h payload.
Proof.
  intros Hh. unfold frame_iovecs, frame_wire. rewrite to_bytes_wire by done. cbv zeta.
  rewrite frame_crc_ok by done. rewrite crc_wire_le, !concat_app. cbn [concat]. rewrite app_nil_r. f_equal. f_equal.
  - case_if; cbn [concat]; [by rewrite app_nil_r|]. destruct payload; [done|]. zbool.
    rewrite zlen_cons in *. pose proof (zlen_nonneg payload). lia.
  - case_if; cbn [concat]; [by rewrite app_nil_r|done].
Qed.

Lemma frame_iovecs_nonempty h payload : header_ok h ->
  Forall (fun s => 0 < zlen s) (frame_iovecs p ha pa h payload).
Proof.
  intros Hh. unfold frame_iovecs. rewrite to_bytes_wire by done. cbv zeta.
  repeat (apply Forall_app; split).
  - constructor; [|done]. unfold zlen. rewrite length_header_wire. done.
  - case_if; zbool; constructor; done.
  - case_if; constructor; [|done]. unfold zlen. by rewrite length_write_le.
Qed.

Lemma fold_zlen (iovs : list (list byte)) n : fold_left (fun n seg => n + zlen seg) iovs n = n + zlen (concat iovs).
Proof.
  revert n. induction iovs as [|s iovs IH]; intros n; simpl; [unfold zlen; simpl; lia|].
  rewrite IH, zlen_app. lia.
Qed.

Lemma zlen_frame_wire h payload : zlen payload <= max_message_size ->
  19 <= zlen (frame_wire h payload) <= INT32_MAX.
Proof.
  intros Hl. pose proof (zlen_nonneg payload). unfold frame_wire. rewrite !zlen_app.
  assert (zlen (header_wire h) = 19) as -> by (unfold zlen; by rewrite length_header_wire).
  assert (0 <= zlen (if has_flag (flags h) F_has_checksum then crc_wire (header_wire h ++ payload) else []) <= 4).
  { case_if; [|done]. unfold zlen, crc_wire. rewrite length_le_bytes. lia. }
  unfold max_message_size, INT32_MAX in *. lia.
Qed.

(** The number [writev_exact] computes for a frame. *)
Lemma frame_total h payload : header_ok h -> zlen payload <= max_message_size ->
  u64 (fold_left (fun n seg => n + zlen seg) (frame_iovecs p ha pa h payload) 0) = zlen (frame_wire h payload).
Proof.
  intros Hh Hl. rewrite fold_zlen, frame_iovecs_wire by done. pose proof (zlen_frame_wire h payload Hl).
  unfold INT32_MAX in *. apply u64_small. lia.
Qed.

Lemma write_frame_sent answers h payload r out : header_ok h -> zlen payload <= max_message_size ->
  write_frame p ha pa answers h payload = (r, out) ->
  exists left, frame_wire h payload = out ++ left /\ (r = Some true -> left = []) /\ (r = None -> left <> []).
Proof.
  intros Hh Hl E. unfold write_frame, writev_exact in E. rewrite frame_total in E by done.
  pose proof (zlen_frame_wire h payload Hl).
  pose proof (writev_loop_ok answers (zlen (frame_wire h payload)) (frame_iovecs p ha pa h payload) []
    (frame_iovecs_nonempty h payload Hh) ltac:(lia)) as (sent & left & E1 & E2 & E3).
  destruct (writev_loop _ _ _ _) as [n out1]. injection E as <- <-. cbn [fst snd app] in *. subst out1.
  rewrite frame_iovecs_wire in E2 by done. exists left. split; [done|]. destruct n as [n|]; [|done].
  split; [|done]. intros [= Hn]. rewrite Hn in E3. apply E3.
Qed.

Lemma frame_buffer_wire h payload : header_ok h -> frame_buffer p ha pa h payload = (Ok tt, frame_wire h payload).
Proof.
  intros Hh. unfold frame_buffer, frame_wire. rewrite to_bytes_wire by done. cbv zeta.
  rewrite frame_crc_ok, crc_wire_le by done.
  assert (forall (c : bool) l, (c = false -> l = []) -> writes (if c then write_bytes l else ret tt) l) as Hif.
  { intros [] l Hc b; [apply write_bytes_writes|]. rewrite Hc, app_nil_r; done. }
  match goal with |- ?m [] = (Ok tt, ?w) => enough (writes m w) as Hw by exact (Hw []) end.
  eapply (bind_writes (write_bytes _) _ (header_wire h) _ tt); [apply write_bytes_writes|].
  eapply (bind_writes _ _ payload _ tt).
  - apply Hif. intros E. destruct payload; [done|]. zbool. rewrite zlen_cons in *. pose proof (zlen_nonneg payload). lia.
  - case_if; [apply write_bytes_writes|apply ret_writes].
Qed.

Lemma read_exactly_app a b n : zlen a = n -> read_exactly n (a ++ b) = Some (a, b).
Proof.
  intros <-. unfold read_exactly. rewrite zlen_app, (proj2 (Z.leb_le _ _)) by (pose proof (zlen_nonneg b); lia).
  unfold zlen. by rewrite Nat2Z.id, take_app_length, drop_app_length.
Qed.

Lemma read_exactly_some n s a b : 0 <= n -> read_exactly n s = Some (a, b) -> s = a ++ b /\ zlen a = n.
Proof.
  intros Hn. unfold read_exactly. case_if; [|done]. intros [= <- <-]. zbool. unfold zlen in *.
  rewrite take_drop, length_take. split; [done|lia].
Qed.

Lemma read_payload (payload s : list byte) :
  (if 0 <? zlen payload then read_exactly (zlen payload) (payload ++ s) else Some ([], payload ++ s)) =
  Some (payload, s).
Proof.
  case_if; [by rewrite read_exactly_app|]. destruct payload; [done|]. zbool.
  rewrite zlen_cons in *. pose proof (zlen_nonneg payload). lia.
Qed.

Lemma read_le_crc host l : read_le host (Unsigned 4) (crc_wire l) = Z.lxor (Crc.crc_ref Crc.IEEE Crc.ALL_ONES l) Crc.ALL_ONES.
Proof.
  rewrite <-(crc_wire_le host). pose proof (read_write_le host host (Unsigned 4)
    (Z.lxor (Crc.crc_ref Crc.IEEE Crc.ALL_ONES l) Crc.ALL_ONES) []) as H. rewrite app_nil_r in H.
  apply H; [simpl; lia|apply crc_in_u32].
Qed.

Lemma read_frame_wire h payload cap tl : header_ok h -> is_valid h = true ->
  payload_length h = zlen payload -> zlen payload <= cap ->
  read_frame_bounded p ha pa cap (frame_wire h payload ++ tl) = Some (h, payload, tl).
Proof.
  intros Hh Hv Hl Hc. unfold read_frame_bounded, frame_wire. rewrite <-!app_assoc.
  rewrite read_exactly_app by (unfold zlen; by rewrite length_header_wire).
  rewrite from_bytes_wire, Hv, Hl by done. simpl negb. cbv iota.
  rewrite Z.gtb_ltb, (proj2 (Z.ltb_ge _ _)) by lia.
  rewrite read_payload.
  case_if; [|done]. rewrite read_exactly_app by (unfold zlen, crc_wire; by rewrite length_le_bytes).
  by rewrite frame_crc_ok, read_le_crc, Z.eqb_refl by done.
Qed.

Lemma crc_wire_read host l chk : length chk = 4%nat ->
  Z.lxor (Crc.crc_ref Crc.IEEE Crc.ALL_ONES l) Crc.ALL_ONES = read_le host (Unsigned 4) chk -> chk = crc_wire l.
Proof.
  intros Hl E. do 4 (destruct chk as [|? chk]; [done|]). destruct chk; [|done].
  rewrite read_le_u32 in E. unfold crc_wire. rewrite E. by rewrite le_bytes_le_val'.
Qed.

Lemma read_frame_sound cap s h payload tl :
  read_frame_bounded p ha pa cap s = Some (h, payload, tl) ->
  header_ok h /\ is_valid h = true /\ payload_length h = zlen payload /\ zlen payload <= cap /\
  s = frame_wire h payload ++ tl.
Proof.
  unfold read_frame_bounded. destruct (read_exactly _ s) as [[hb s1]|] eqn:E1; [|done].
  apply read_exactly_some in E1 as [-> Hhb]; [|lia]. unfold zlen in Hhb. apply Nat2Z.inj in Hhb.
  destruct (from_bytes_ok (Crc.host p) hb Hhb) as [Hok Hw].
  remember (from_bytes (Crc.host p) hb) as hdr eqn:Ehdr. clear Ehdr. destruct (negb (is_valid hdr)) eqn:Ev; [done|].
  destruct (payload_length hdr >? cap) eqn:Ec; [done|]. zbool.
  destruct (if 0 <? payload_length hdr then _ else _) as [[pl s2]|] eqn:E2; [|done].
  assert (s1 = pl ++ s2 /\ zlen pl = payload_length hdr) as [-> Hpl].
  { pose proof Hok as (_ & _ & _ & _ & _ & Hr & _). simpl in Hr.
    destruct (0 <? payload_length hdr) eqn:E0; zbool; [by apply read_exactly_some in E2; [|lia]|].
    injection E2 as <- <-. split; [done|]. change (zlen []) with 0. lia. }
  unfold frame_wire. destruct (has_flag (flags hdr) F_has_checksum) eqn:Ef.
  - destruct (read_exactly _ s2) as [[chk s3]|] eqn:E3; [|done].
    apply read_exactly_some in E3 as [-> Hchk]; [|lia]. unfold zlen in Hchk. apply Nat2Z.inj in Hchk.
    case_if; [|done]. intros [= <- <- <-]. zbool. rewrite frame_crc_ok in * by done.
    apply crc_wire_read in Heqb; [|done]. rewrite Ef, Hw, Heqb, <-!app_assoc.
    repeat (split; [done || lia|]). done.
  - intros [= <- <- <-]. rewrite Ef, Hw, app_nil_r, <-app_assoc. repeat (split; [done || lia|]). done.
Qed.

End Frames.

(** ** Builders and parsers *)

Lemma parse_typed_ok {A} `{CodecOk A} host (a : A) v : valid a -> view_ok v -> rest v = wire a ->
  parse_typed_payload host v = (Ok a, with_pos (size_ v) v).
Proof.
  intros Ha Hv E. pose proof (zlen_rest v Hv) as Hl. rewrite E in Hl.
  assert (pos_ v + zlen (wire a) = size_ v) as Hs by lia.
  unfold parse_typed_payload, bind.
  rewrite (deserialize_reads host a Ha v []) by (done || by rewrite app_nil_r). rewrite Hs.
  unfold remaining. simpl. by rewrite Z.sub_diag.
Qed.

Lemma run_writer_ok w l : writes w l -> run_writer w = Ok l.
Proof. intros Hw. unfold run_writer. by rewrite Hw. Qed.

(** The outcome of [finish]: the length field is the payload's length, or the payload is too
    large. *)
Lemma finish_ok f payload :
  finish f payload = if zlen payload <=? max_message_size then Ok (f (zlen payload), payload)
                     else if zlen payload <=? UINT32_MAX then Throw payload_exceeds_max_message_size
                     else Throw payload_exceeds_uint32.
Proof.
  unfold finish, validate_payload_size. rewrite !Z.gtb_ltb, !Z.ltb_antisym.
  pose proof (zlen_nonneg payload). unfold max_message_size, UINT32_MAX.
  destruct (zlen payload <=? 2 ^ 32 - 1) eqn:E1, (zlen payload <=? 16 * 1024 * 1024) eqn:E2; zbool; simpl; try done.
  - rewrite u32_small by lia. done.
  - lia.
Qed.

Definition timeout_wire (t : option Z) : list byte := match t with Some t => le_bytes 4 t | None => [] end.

Definition request_flags (timeout_ms : option Z) (enable_checksum : bool) : Z :=
  let flags := if timeout_ms then Z.lor F_none F_has_timeout else F_none in
  if enable_checksum then Z.lor flags F_has_checksum else flags.

Lemma build_request_ok {A} `{CodecOk A} host id method (a : A) t c : valid a ->
  match t with Some t => in_type (Unsigned 4) t | None => True end ->
  build_request host id method a t c =
  finish (fun n => Header protocol_magic id T_request (request_flags t c) method n protocol_version)
         (timeout_wire t ++ wire a).
Proof.
  intros Ha Ht. unfold build_request. rewrite (run_writer_ok _ (timeout_wire t ++ wire a)); [done|].
  eapply (bind_writes _ _ _ _ tt); [|by apply serialize_writes].
  intros b. destruct t as [t|]; simpl; [|by rewrite app_nil_r].
  unfold write. by rewrite write_le_bytes; [|simpl; lia|].
Qed.

Lemma request_flags_timeout t c : has_flag (request_flags t c) F_has_timeout = if t then true else false.
Proof. by destruct t, c. Qed.

Lemma in_u32 x : 0 <= x < 2 ^ 32 -> in_type (Unsigned 4) x.
Proof. done. Qed.

Lemma request_header_ok id method t c n : in_type (Unsigned 4) id -> in_type (Unsigned 4) method ->
  0 <= n <= max_message_size -> (t <> None -> 4 <= n) ->
  let h := Header protocol_magic id T_request (request_flags t c) method n protocol_version in
  header_ok h /\ is_valid h = true.
Proof.
  intros Hi Hm Hn Ht. cbv zeta. unfold max_message_size in *. split.
  - assert (in_type (Unsigned 4) n) by (apply in_u32; lia).
    repeat (split; [done || by destruct t, c|]). done.
  - unfold is_valid, has_valid_shape. cbn [magic version type flags payload_length method_id].
    rewrite (request_flags_timeout t c). unfold max_message_size. rewrite (proj2 (Z.leb_le n _)) by lia.
    destruct t as [t|]; [rewrite (proj2 (Z.leb_le 4 n)) by (apply Ht; done)|]; by destruct c.
Qed.

Lemma parse_request_ok {A} `{CodecOk A} host (a : A) t c v : valid a ->
  match t with Some t => in_type (Unsigned 4) t | None => True end ->
  view_ok v -> rest v = timeout_wire t ++ wire a ->
  fst (parse_request host (request_flags t c) v) = Ok (t, a).
Proof.
  intros Ha Ht Hv E. unfold parse_request. rewrite request_flags_timeout.
  assert (reads (if (if t then true else false) : bool then t <- read host (Unsigned 4) ;; ret (Some t) else ret None)
                (timeout_wire t) t) as Hr.
  { destruct t as [t|]; [|apply ret_reads]. apply (bind_ret_reads _ Some). apply (read_u host 4); [simpl; lia|done]. }
  unfold bind at 1. rewrite (Hr v (wire a) Hv E). unfold bind.
  rewrite (parse_typed_ok host a) by (done || (by eapply advance_ok) || (by eapply rest_advance)). done.
Qed.

Lemma build_response_ok {A} `{CodecOk A} host id (a : A) (c : bool) : valid a ->
  build_response host id a c =
  finish (fun n => Header protocol_magic id T_response (if c then F_has_checksum else F_none) 0 n protocol_version) (wire a).
Proof. intros Ha. unfold build_response. by rewrite (run_writer_ok _ (wire a)) by (by apply serialize_writes). Qed.

Lemma build_error_ok host id e m (c : bool) : in_type (Unsigned 4) e -> zlen m <= UINT32_MAX ->
  build_error_response host id e m c =
  finish (fun n => Header protocol_magic id T_error (if c then F_has_checksum else F_none) 0 n protocol_version)
         (wire (ErrorPayload (Prim e) (Str m))).
Proof.
  intros He Hm. unfold build_error_response.
  rewrite (run_writer_ok _ (wire (ErrorPayload (Prim e) (Str m)))); [done|]. apply serialize_writes. by split.
Qed.

Lemma reply_header_ok id ty (c : bool) n : in_type (Unsigned 4) id -> ty = T_response \/ ty = T_error ->
  0 <= n <= max_message_size ->
  let h := Header protocol_magic id ty (if c then F_has_checksum else F_none) 0 n protocol_version in
  header_ok h /\ is_valid h = true.
Proof.
  intros Hi Hty Hn. cbv zeta. unfold max_message_size in *. split.
  - assert (in_type (Unsigned 4) n) by (apply in_u32; lia).
    destruct Hty as [-> | ->]; repeat (split; [done || by destruct c|]); done.
  - unfold is_valid, has_valid_shape. cbn [magic version type flags payload_length method_id].
    unfold max_message_size. rewrite (proj2 (Z.leb_le n _)) by lia. destruct Hty as [-> | ->]; by destruct c.
Qed.

(** Any frame whose header fits its payload survives the trip from one host to another. *)
Lemma transfer ps pr hs ps' hr pr' answers h payload out cap tl :
  Crc.platform_ok ps -> Crc.platform_ok pr -> header_ok h -> is_valid h = true ->
  payload_length h = zlen payload -> zlen payload <= max_message_size -> zlen payload <= cap ->
  write_frame ps hs ps' answers h payload = (Some true, out) ->
  read_frame_bounded pr hr pr' cap (out ++ tl) = Some (h, payload, tl).
Proof.
  intros Hps Hpr Hh Hv Hl Hm Hc Hw. apply write_frame_sent in Hw as (left & E & Hleft & _); [|done..].
  rewrite Hleft, app_nil_r in E by done. rewrite <-E. by apply read_frame_wire.
Qed.

Lemma frame_progress p (Hp : Crc.platform_ok p) ha pa answers n h payload :
  header_ok h -> zlen payload <= max_message_size -> progress answers n -> zlen (frame_wire h payload) <= n ->
  write_frame p ha pa answers h payload = (Some true, frame_wire h payload).
Proof.
  intros Hh Hl Hg Hn. pose proof (zlen_frame_wire h payload Hl) as Ht.
  pose proof (writev_loop_done answers n (zlen (frame_wire h payload)) (frame_iovecs p ha pa h payload) [] Hg
    (frame_iovecs_nonempty p ha pa h payload Hh) ltac:(lia) ltac:(by rewrite frame_iovecs_wire)) as Hd.
  destruct (write_frame p ha pa answers h payload) as [r out] eqn:E. pose proof E as E'.
  unfold write_frame, writev_exact in E'. rewrite frame_total in E' by done.
  destruct (writev_loop _ _ _ _) as [r1 out1]. simpl in Hd. subst r1.
  rewrite (proj2 (Z.ltb_lt _ _)) in E' by lia. injection E' as <- <-.
  apply write_frame_sent in E as (left & E & Hleft & _); [|done..]. rewrite Hleft, app_nil_r in E by done. by rewrite E.
Qed.

(** ** Properties *)

(** Headers: [to_bytes], and [serialize] through a buffer, give the same 19 bytes on every host,
    and [from_bytes], and [deserialize] through a buffer, read the header back on every host;
    conversely any 19 bytes are the wire form of the header [from_bytes] reads from them. *)
Theorem header_round_trip host host' h :
  header_ok h ->
  length (to_bytes host h) = frame_header_size /\
  from_bytes host' (to_bytes host h) = h /\
  (forall b, serialize_header host h b = (Ok tt, b ++ to_bytes host' h)) /\
  fst (deserialize_header host' (view_of (to_bytes host h))) = Ok h /\
  (forall data, length data = frame_header_size -> to_bytes host' (from_bytes host data) = data).
Proof.
  intros Hh. pose proof (length_header_wire h) as Hl. rewrite !to_bytes_wire by done. split; [done|].
  split; [by apply from_bytes_wire|]. split; [by apply serialize_header_wire|]. split.
  - rewrite (deserialize_header_reads host' h Hh _ []); [done| |].
    + apply view_of_ok. unfold zlen. by rewrite Hl.
    + by rewrite rest_view_of, app_nil_r.
  - intros data Hd. destruct (from_bytes_ok host data Hd). by rewrite to_bytes_wire.
Qed.

(** The scatter-gather writer against any behaviour of the stream (partial writes cut anywhere,
    interruptions, full socket buffers, errors): the peer is always sent a prefix of the frame;
    when the call reports success it was sent the whole frame, and while the call is still
    waiting something is left to send. *)
Theorem write_frame_prefix p ha pa answers h payload :
  Crc.platform_ok p -> header_ok h -> zlen payload <= max_message_size ->
  let '(r, out) := write_frame p ha pa answers h payload in
  exists left, frame_wire h payload = out ++ left /\ (r = Some true -> left = []) /\ (r = None -> left <> []).
Proof.
  intros Hp Hh Hl. destruct (write_frame p ha pa answers h payload) as [r out] eqn:E.
  by eapply write_frame_sent.
Qed.

(** [C21] The write completes: when the stream keeps accepting at least one byte per call
    (interruptions and waits in between), the call returns success with the whole frame sent
    after at most as many accepted calls as the frame has bytes. *)
Theorem write_frame_completes p ha pa answers n h payload :
  Crc.platform_ok p -> header_ok h -> zlen payload <= max_message_size ->
  progress answers n -> zlen (frame_wire h payload) <= n ->
  write_frame p ha pa answers h payload = (Some true, frame_wire h payload).
Proof. intros Hp. by apply frame_progress. Qed.

(** The reader accepts exactly the wire forms of valid frames within its cap: it returns a header
    and a payload precisely when the stream starts with their wire form, checksum included,
    the header is valid and the payload is no longer than the cap and as long as the header says;
    what follows the frame is left in the stream. *)
Theorem read_frame_exact p ha pa cap s h payload tl :
  Crc.platform_ok p ->
  read_frame_bounded p ha pa cap s = Some (h, payload, tl) <->
  header_ok h /\ is_valid h = true /\ payload_length h = zlen payload /\ zlen payload <= cap /\
  s = frame_wire h payload ++ tl.
Proof.
  intros Hp. split; [by apply read_frame_sound|]. intros (Hh & Hv & Hl & Hc & ->). by apply read_frame_wire.
Qed.

(** Corruption of a payload by a burst of at most 32 bits is detected: a frame with a checksum
    whose payload was changed so in transit is rejected. *)
Theorem corrupted_payload_rejected p ha pa cap h payload payload' e k tl :
  Crc.platform_ok p -> header_ok h -> has_flag (flags h) F_has_checksum = true ->
  payload_length h = zlen payload -> length payload' = length payload ->
  Z.lxor (le_val payload) (le_val payload') = Z.shiftl e (Z.of_nat k) -> 0 < e < 2 ^ 32 -> (k <= 8 * length payload)%nat ->
  read_frame_bounded p ha pa cap (header_wire h ++ payload' ++ crc_wire (header_wire h ++ payload) ++ tl) = None.
Proof.
  intros Hp Hh Hf Hl Hl' He Hr Hk.
  destruct (read_frame_bounded p ha pa cap _) as [[[h1 pl1] tl1]|] eqn:E; [|done].
  apply read_frame_sound in E as (Hh1 & _ & Hpl1 & _ & E); [|done]. unfold frame_wire in E. rewrite <-!app_assoc in E.
  apply app_inj_length in E as [Eh E]; [|by rewrite !length_header_wire].
  apply header_wire_inj in Eh as <-; [|done..]. rewrite Hf in E.
  apply app_inj_length in E as [<- E]; [|unfold zlen in *; lia].
  apply app_inj_length in E as [E _]; [|unfold crc_wire; by rewrite !length_le_bytes].
  apply le_bytes_inj_u in E; [|apply crc_in_u32..]. apply Crc.lxor_cancel_r in E.
  rewrite !Crc.crc_ref_app in E. exfalso. revert E. by apply (Crc.crc_ref_burst Crc.IEEE _ _ _ e k).
Qed.


(** Replies end to end, for every response type and for errors: what [build_response] and
    [build_error_response] produce is written, read and parsed back to the same identifier and the
    same response, or error code and message. *)
Theorem reply_end_to_end ty ps pr id (a : denote ty) e m checksum :
  Crc.platform_ok ps -> Crc.platform_ok pr -> type_ok ty = true -> valid a ->
  in_type (Unsigned 4) id -> in_type (Unsigned 4) e -> zlen m <= UINT32_MAX ->
  (forall h payload hs ps' hr pr' answers out cap tl,
     build_response (Crc.host ps) id a checksum = Ok (h, payload) ->
     write_frame ps hs ps' answers h payload = (Some true, out) -> zlen payload <= cap ->
     read_frame_bounded pr hr pr' cap (out ++ tl) = Some (h, payload, tl) /\
     request_id h = id /\ type h = T_response /\
     fst (parse_response (Crc.host pr) (view_of payload)) = Ok a) /\
  (forall h payload hs ps' hr pr' answers out cap tl,
     build_error_response (Crc.host ps) id e m checksum = Ok (h, payload) ->
     write_frame ps hs ps' answers h payload = (Some true, out) -> zlen payload <= cap ->
     read_frame_bounded pr hr pr' cap (out ++ tl) = Some (h, payload, tl) /\
     request_id h = id /\ type h = T_error /\
     fst (parse_error (Crc.host pr) (view_of payload)) = Ok (ErrorPayload (Prim e) (Str m))).
Proof.
  intros Hps Hpr Hty Ha Hid He Hm. destruct (codec_ok ty Hty) as (Hok & _ & _).
  split; intros h payload hs ps' hr pr' answers out cap tl Hb Hw Hc;
    [rewrite build_response_ok in Hb by done|rewrite build_error_ok in Hb by done];
    rewrite finish_ok in Hb; (case_if; [|case_if; done]); injection Hb as <- <-; zbool.
  - destruct (reply_header_ok id T_response checksum (zlen (wire a)) Hid (or_introl eq_refl)) as [Hh Hv];
      [split; [apply zlen_nonneg|done]|].
    split; [by eapply (transfer ps pr)|]. do 2 (split; [done|]). unfold parse_response.
    rewrite (parse_typed_ok (Crc.host pr) a); [done|done| |apply rest_view_of].
    apply view_of_ok. unfold max_message_size in *. lia.
  - set (ep := ErrorPayload (Prim e) (Str m)) in *.
    destruct (reply_header_ok id T_error checksum (zlen (wire ep)) Hid (or_intror eq_refl)) as [Hh Hv];
      [split; [apply zlen_nonneg|done]|].
    split; [by eapply (transfer ps pr)|]. do 2 (split; [done|]). unfold parse_error.
    rewrite (parse_typed_ok (Crc.host pr) ep); [done|by split| |apply rest_view_of].
    apply view_of_ok. eapply Z.le_lt_trans; [exact Heqb|done].
Qed.

(** Request identifiers: [next] never returns the reserved identifier 0, and two calls fewer than
    [UINT32_MAX] apart (the counter not having passed [2^64]) return different identifiers. *)
Theorem request_ids_distinct c k :
  0 <= c -> 0 < k < UINT32_MAX -> c + k < 2 ^ 64 ->
  1 <= fst (next c) <= UINT32_MAX /\ fst (next c) <> fst (next (c + k)).
Proof.
  intros Hc Hk Hlt. unfold next. cbn [fst].
  assert (forall x, u32 (x mod UINT32_MAX + 1) = x mod UINT32_MAX + 1) as Hu.
  { intros x. pose proof (Z.mod_pos_bound x UINT32_MAX ltac:(done)). unfold UINT32_MAX in *. apply u32_small. lia. }
  rewrite !Hu. pose proof (Z.mod_pos_bound c UINT32_MAX ltac:(done)). split; [lia|]. intros E.
  assert (k mod UINT32_MAX = 0) as E0.
  { replace k with (c + k - c) by lia. rewrite Zminus_mod. replace ((c + k) mod UINT32_MAX) with (c mod UINT32_MAX) by lia.
    by rewrite Z.sub_diag. }
  rewrite Z.mod_small in E0 by lia. lia.
Qed.

(** ** Witnesses *)

(** A little-endian client with software checksums, a big-endian server. *)
Definition client : Crc.platform := Crc.Platform little Crc.Software Crc.Software.
Definition server : Crc.platform := Crc.Platform big Crc.Software Crc.Software.

Lemma software_ok h : Crc.platform_ok (Crc.Platform h Crc.Software Crc.Software).
Proof. by split. Qed.

Definition demo_header : frame_header :=
  Header protocol_magic 7 T_request (Z.lor F_has_timeout F_has_checksum) 300 6 protocol_version.
Definition demo_payload : list byte := map z2b [232; 3; 0; 0; 1; 2].

Lemma demo_header_ok : header_ok demo_header.
Proof. repeat split; done. Qed.

(** A stream that takes two bytes, is interrupted, blocks, then takes 5 and the rest. *)
Definition demo_answers : list Z := [2; - EINTR; - EAGAIN; 0; 5; 100].

Lemma header_round_trip_witness :
  from_bytes big (to_bytes little demo_header) = demo_header.
Proof. apply (header_round_trip little big demo_header demo_header_ok). Defined.

Lemma write_frame_prefix_witness :
  write_frame client 0 0 demo_answers demo_header demo_payload = (Some true, frame_wire demo_header demo_payload).
Proof.
  pose proof (write_frame_prefix client 0 0 demo_answers demo_header demo_payload
    (software_ok _) demo_header_ok ltac:(vm_compute; done)) as H.
  destruct (write_frame _ _ _ _ _ _) as [r out] eqn:E. destruct H as (left & H & Ht & _).
  assert (r = Some true) as -> by (vm_compute in E; by injection E as <- _).
  by rewrite H, (Ht eq_refl), app_nil_r.
Defined.

Lemma write_frame_completes_witness :
  write_frame client 0 0 (replicate 29 1) demo_header demo_payload = (Some true, frame_wire demo_header demo_payload).
Proof.
  apply (write_frame_completes client 0 0 (replicate 29 1) 29 demo_header demo_payload (software_ok _) demo_header_ok).
  - vm_compute. done.
  - assert (forall k, progress (replicate k 1) (Z.of_nat k)) as H; [|apply (H 29%nat)].
    intros k. induction k as [|k IH]; [constructor|]. rewrite Nat2Z.inj_succ. by constructor.
  - vm_compute. done.
Defined.

Lemma read_frame_exact_witness :
  read_frame_bounded server 0 0 100 (frame_wire demo_header demo_payload ++ [z2b 9]) =
  Some (demo_header, demo_payload, [z2b 9]).
Proof.
  apply (read_frame_exact server 0 0 100 _ demo_header demo_payload [z2b 9] (software_ok _)).
  split; [exact demo_header_ok|]. split; [done|]. split; [done|]. split; [vm_compute; done|done].
Defined.

Lemma corrupted_payload_rejected_witness :
  read_frame_bounded server 0 0 100
    (header_wire demo_header ++ map z2b [232; 3; 0; 0; 1; 3] ++
     crc_wire (header_wire demo_header ++ demo_payload) ++ []) = None.
Proof.
  apply (corrupted_payload_rejected server 0 0 100 demo_header demo_payload (map z2b [232; 3; 0; 0; 1; 3]) 1 40 []
    (software_ok _) demo_header_ok).
  - reflexivity.
  - reflexivity.
  - reflexivity.
  - vm_compute. reflexivity.
  - lia.
  - simpl. lia.
Defined.


Lemma reply_end_to_end_witness :
  exists h payload,
    build_error_response little 7 E_method_not_found (map z2b [110; 111]) true = Ok (h, payload) /\
    fst (parse_error big (view_of payload)) = Ok (ErrorPayload (Prim E_method_not_found) (Str (map z2b [110; 111]))).
Proof.
  destruct (build_error_response little 7 E_method_not_found (map z2b [110; 111]) true) as [[h payload]|e] eqn:E;
    [|vm_compute in E; done].
  exists h, payload. split; [done|].
  assert (write_frame client 0 0 [4096] h payload = (Some true, snd (write_frame client 0 0 [4096] h payload)) /\
          zlen payload <= 4096) as [Hw Hl]
    by (vm_compute in E; injection E as <- <-; split; [vm_compute; reflexivity|vm_compute; done]).
  by destruct (proj2 (reply_end_to_end demo_type client server 7 demo_value E_method_not_found (map z2b [110; 111]) true
    (software_ok _) (software_ok _) ltac:(reflexivity) demo_valid ltac:(done) ltac:(done) ltac:(vm_compute; done))
    h payload 0 0 0 0 [4096] _ 4096 [] E Hw Hl) as (_ & _ & _ & Hp).
Defined.

Lemma request_ids_distinct_witness : fst (next (2 ^ 32)) <> fst (next (2 ^ 32 + 5)).
Proof. apply (request_ids_distinct (2 ^ 32) 5); unfold UINT32_MAX; lia. Defined.

End Proto.
