(* ===== verification/Utf8.v ===== *)
(** * UTF-8 validation

    Models [is_valid_utf8] of [src/include/elio/http/websocket_frame.hpp] and proves that it
    accepts exactly the UTF-8 encodings of sequences of Unicode scalar values (RFC 3629). *)

From Stdlib Require Import ZifyBool.
From S2P Require Import Prelude.

Module Utf8.

(** ** The code *)

(** The length the lead byte announces; 0 when it is no lead byte. *)
Definition lead_len (c : Z) : nat :=
  if c <=? 0x7F then 1
  else if Z.land c 0xE0 =? 0xC0 then 2
  else if Z.land c 0xF0 =? 0xE0 then 3
  else if Z.land c 0xF8 =? 0xF0 then 4
  else 0.

Definition is_continuation (b : byte) : bool := Z.land (b2z b) 0xC0 =? 0x80.

(** The tests after the continuation bytes; [b1] is the byte after the lead byte. *)
Definition well_ranged (len : nat) (c b1 : Z) : bool :=
  match len with
  | 2%nat => negb (c <? 0xC2)
  | 3%nat => negb ((c =? 0xE0) && (b1 <? 0xA0)) && negb ((c =? 0xED) && (0xA0 <=? b1))
  | 4%nat => negb ((c =? 0xF0) && (b1 <? 0x90)) && negb ((c =? 0xF4) && (0x8F <? b1)) && negb (0xF4 <? c)
  | _ => true
  end.

(** The loop, on the part of the string not looked at yet.  Every iteration consumes a byte,
    so the length of the string is enough fuel. *)
Fixpoint valid_from (fuel : nat) (s : list byte) : bool :=
  match s with
  | [] => true
  | c :: tl =>
      match fuel with
      | O => false
      | S fuel =>
          let len := lead_len (b2z c) in
          if (len =? 0)%nat || (length s <? len)%nat then false
          else if negb (forallb is_continuation (take (len - 1) tl)) then false
          else if negb (well_ranged len (b2z c) (b2z (nth 0 tl (z2b 0)))) then false
          else valid_from fuel (drop len s)
      end
  end.

Definition is_valid_utf8 (s : list byte) : bool := valid_from (length s) s.

(** ** The specification *)

(** A Unicode scalar value: a code point that is not a surrogate. *)
Definition scalar_value (cp : Z) : Prop := 0 <= cp <= 0x10FFFF /\ ~ (0xD800 <= cp <= 0xDFFF).

Definition encode (cp : Z) : list byte :=
  if cp <=? 0x7F then [z2b cp]
  else if cp <=? 0x7FF then [z2b (0xC0 + cp / 64); z2b (0x80 + cp mod 64)]
  else if cp <=? 0xFFFF then
    [z2b (0xE0 + cp / 4096); z2b (0x80 + (cp / 64) mod 64); z2b (0x80 + cp mod 64)]
  else [z2b (0xF0 + cp / 262144); z2b (0x80 + (cp / 4096) mod 64);
        z2b (0x80 + (cp / 64) mod 64); z2b (0x80 + cp mod 64)].

Definition encodes (cps : list Z) (s : list byte) : Prop :=
  Forall scalar_value cps /\ s = concat (map encode cps).

(** ** Bytes by range *)

Lemma continuation_range b : is_continuation b = ((0x80 <=? b2z b) && (b2z b <=? 0xBF)).
Proof. destruct b; reflexivity. Qed.

Lemma lead_len_range b : lead_len (b2z b) =
  if b2z b <=? 0x7F then 1%nat
  else if b2z b <=? 0xBF then 0%nat
  else if b2z b <=? 0xDF then 2%nat
  else if b2z b <=? 0xEF then 3%nat
  else if b2z b <=? 0xF7 then 4%nat
  else 0%nat.
Proof. destruct b; reflexivity. Qed.

(** One iteration as a function: the bytes of the first character when they are well formed. *)
Definition first_len (s : list byte) : option nat :=
  match s with
  | [] => None
  | c :: tl =>
      let len := lead_len (b2z c) in
      if (len =? 0)%nat || (length s <? len)%nat then None
      else if negb (forallb is_continuation (take (len - 1) tl)) then None
      else if negb (well_ranged len (b2z c) (b2z (nth 0 tl (z2b 0)))) then None
      else Some len
  end.

Lemma valid_from_step fuel c tl :
  valid_from (S fuel) (c :: tl) =
  match first_len (c :: tl) with Some n => valid_from fuel (drop n (c :: tl)) | None => false end.
Proof. cbn [valid_from first_len]. cbv zeta. repeat case_if; reflexivity. Qed.

(** Well-formed characters by the ranges of their bytes, with their code points. *)
Inductive char : list byte -> Z -> Prop :=
| char1 c : b2z c <= 0x7F -> char [c] (b2z c)
| char2 c b1 : 0xC2 <= b2z c <= 0xDF -> 0x80 <= b2z b1 <= 0xBF ->
    char [c; b1] ((b2z c - 0xC0) * 64 + (b2z b1 - 0x80))
| char3 c b1 b2 : 0xE0 <= b2z c <= 0xEF -> 0x80 <= b2z b1 <= 0xBF -> 0x80 <= b2z b2 <= 0xBF ->
    (b2z c = 0xE0 -> 0xA0 <= b2z b1) -> (b2z c = 0xED -> b2z b1 < 0xA0) ->
    char [c; b1; b2] ((b2z c - 0xE0) * 4096 + (b2z b1 - 0x80) * 64 + (b2z b2 - 0x80))
| char4 c b1 b2 b3 : 0xF0 <= b2z c <= 0xF4 -> 0x80 <= b2z b1 <= 0xBF -> 0x80 <= b2z b2 <= 0xBF ->
    0x80 <= b2z b3 <= 0xBF ->
    (b2z c = 0xF0 -> 0x90 <= b2z b1) -> (b2z c = 0xF4 -> b2z b1 <= 0x8F) ->
    char [c; b1; b2; b3]
      ((b2z c - 0xF0) * 262144 + (b2z b1 - 0x80) * 4096 + (b2z b2 - 0x80) * 64 + (b2z b3 - 0x80)).

(** An iteration that goes on has seen a well-formed character, and conversely. *)
Lemma first_len_char s n : first_len s = Some n -> exists l cp r, s = l ++ r /\ char l cp /\ n = length l.
Proof.
  destruct s as [|c tl]; [done|]. unfold first_len. cbv zeta. rewrite lead_len_range. pose proof (b2z_range c).
  destruct (b2z c <=? 0x7F) eqn:E1.
  { simpl. intros [= <-]. exists [c], (b2z c), tl. split; [done|]. split; [|done]. constructor. lia. }
  destruct (b2z c <=? 0xBF) eqn:E2; [done|].
  destruct (b2z c <=? 0xDF) eqn:E3.
  { destruct tl as [|b1 tl]; [done|]. cbn -[Z.leb Z.ltb Z.eqb]. rewrite !continuation_range.
    repeat case_if; try done.
    intros [= <-]. eexists [c; b1], _, tl. split; [done|]. split; [|done]. constructor; lia. }
  destruct (b2z c <=? 0xEF) eqn:E4.
  { destruct tl as [|b1 [|b2 tl]]; [done..|]. cbn -[Z.leb Z.ltb Z.eqb]. rewrite !continuation_range.
    repeat case_if; try done. intros [= <-]. eexists [c; b1; b2], _, tl. split; [done|]. split; [|done].
    constructor; lia. }
  destruct (b2z c <=? 0xF7) eqn:E5; [|done].
  destruct tl as [|b1 [|b2 [|b3 tl]]]; [done..|]. cbn -[Z.leb Z.ltb Z.eqb]. rewrite !continuation_range.
  repeat case_if; try done. intros [= <-]. eexists [c; b1; b2; b3], _, tl. split; [done|]. split; [|done].
  constructor; lia.
Qed.

Lemma lead_len_in b n lo hi : b2z b <= hi -> lo <= b2z b ->
  (lo, hi, n) ∈ [(0, 0x7F, 1%nat); (0xC0, 0xDF, 2%nat); (0xE0, 0xEF, 3%nat); (0xF0, 0xF7, 4%nat)] ->
  lead_len (b2z b) = n.
Proof.
  intros H1 H2 Hin. rewrite lead_len_range.
  repeat (apply elem_of_cons in Hin as [[= -> -> ->]|Hin]; [repeat (case_if; try lia); done|]).
  by apply elem_of_nil in Hin.
Qed.

Lemma char_first_len l cp r : char l cp -> first_len (l ++ r) = Some (length l).
Proof.
  intros Hc. unfold first_len. destruct Hc as [c|c b1|c b1 b2|c b1 b2 b3]; pose proof (b2z_range c); cbn [app]; cbv zeta;
    [rewrite (lead_len_in c 1 0 0x7F)|rewrite (lead_len_in c 2 0xC0 0xDF)
    |rewrite (lead_len_in c 3 0xE0 0xEF)|rewrite (lead_len_in c 4 0xF0 0xF7)]; try lia; try set_solver;
    cbn -[Z.leb Z.ltb Z.eqb Nat.ltb]; rewrite ?take_0, ?continuation_range; cbn [forallb];
    repeat (case_if; try lia); done.
Qed.

#[local] Ltac Zify.zify_post_hook ::= Z.div_mod_to_equations.

(** The characters are the encodings of the scalar values. *)
Lemma char_encode l cp : char l cp -> scalar_value cp /\ l = encode cp.
Proof.
  intros Hc. unfold scalar_value, encode.
  destruct Hc as [c|c b1|c b1 b2|c b1 b2 b3]; pose proof (b2z_range c); (split; [lia|]);
    repeat (case_if; try lia); repeat (apply (f_equal2 cons); [apply b2z_inj; rewrite b2z_z2b_small; lia|]); done.
Qed.

Lemma char_exists c b1 b2 b3 cp :
  (b2z c <= 0x7F -> cp = b2z c -> char [c] cp) /\
  (0xC2 <= b2z c <= 0xDF -> 0x80 <= b2z b1 <= 0xBF -> cp = (b2z c - 0xC0) * 64 + (b2z b1 - 0x80) -> char [c; b1] cp) /\
  (0xE0 <= b2z c <= 0xEF -> 0x80 <= b2z b1 <= 0xBF -> 0x80 <= b2z b2 <= 0xBF ->
   (b2z c = 0xE0 -> 0xA0 <= b2z b1) -> (b2z c = 0xED -> b2z b1 < 0xA0) ->
   cp = (b2z c - 0xE0) * 4096 + (b2z b1 - 0x80) * 64 + (b2z b2 - 0x80) -> char [c; b1; b2] cp) /\
  (0xF0 <= b2z c <= 0xF4 -> 0x80 <= b2z b1 <= 0xBF -> 0x80 <= b2z b2 <= 0xBF -> 0x80 <= b2z b3 <= 0xBF ->
   (b2z c = 0xF0 -> 0x90 <= b2z b1) -> (b2z c = 0xF4 -> b2z b1 <= 0x8F) ->
   cp = (b2z c - 0xF0) * 262144 + (b2z b1 - 0x80) * 4096 + (b2z b2 - 0x80) * 64 + (b2z b3 - 0x80) ->
   char [c; b1; b2; b3] cp).
Proof. split_and!; intros; subst; by constructor. Qed.

Lemma encode_char cp : scalar_value cp -> char (encode cp) cp.
Proof.
  intros [H1 H2]. unfold encode.
  repeat case_if; eapply (char_exists (z2b _) (z2b _) (z2b _) (z2b _)); rewrite ?b2z_z2b_small; lia.
  Unshelve. all: exact 0.
Qed.

(** ** Properties *)

Lemma length_encode_pos cp : scalar_value cp -> (0 < length (encode cp))%nat.
Proof. intros H. destruct (encode_char cp H); simpl; lia. Qed.

Lemma valid_from_spec fuel s : (length s <= fuel)%nat -> valid_from fuel s = true <-> exists cps, encodes cps s.
Proof.
  revert s. induction fuel as [|fuel IH]; intros [|c tl] Hl; try (simpl in Hl; lia).
  1, 2: split; [intros _; by exists []|done].
  rewrite valid_from_step. split.
  - destruct (first_len (c :: tl)) as [n|] eqn:E; [|done]. apply first_len_char in E as (l & cp & r & E & Hc & ->).
    rewrite E in *. rewrite drop_app_length. intros Hv. destruct (char_encode l cp Hc) as [Hs ->].
    pose proof (length_encode_pos cp Hs). rewrite length_app in Hl.
    apply IH in Hv as (cps & Hf & ->); [|lia]. exists (cp :: cps). by split; [constructor|].
  - intros ([|cp cps] & Hf & E); [done|]. inversion Hf; subst. rewrite E. cbn [map concat].
    pose proof (length_encode_pos cp ltac:(done)).
    rewrite (char_first_len (encode cp) cp) by (by apply encode_char). rewrite drop_app_length.
    apply IH; [|by exists cps]. rewrite E in Hl. cbn [map concat] in Hl. rewrite length_app in Hl. lia.
Qed.

(** [C19] The validator accepts exactly the UTF-8 encodings of sequences of Unicode scalar values:
    overlong forms, surrogates, values above U+10FFFF, stray continuation bytes and
    truncated characters are rejected, and every encoding is accepted. *)
Theorem is_valid_utf8_exact s : is_valid_utf8 s = true <-> exists cps, encodes cps s.
Proof. apply valid_from_spec. lia. Qed.

End Utf8.
