(* ===== verification/WebSocket.v ===== *)
(** * WebSocket frames

    Models [src/include/elio/http/websocket_frame.hpp]: parsing and encoding of frame headers, masking,
    the incremental [frame_parser] with its reassembly of fragmented messages and its queues, and
    close payloads.  The masking key [generate_mask_key] draws from the system's entropy source is
    an argument of the encoders.

    A call of [parse] is one run of [Ws.process_loop]; the fuel given, one more than the bytes
    buffered, always suffices because every iteration that goes on removes at least two bytes
    ([Ws.process_loop_total]). *)

From S2P Require Import Prelude Endian Utf8.

Module Ws.
Export Utf8.

(** ** Opcodes and headers *)

Definition op_continuation : Z := 0x0.
Definition op_text : Z := 0x1.
Definition op_binary : Z := 0x2.
Definition op_close : Z := 0x8.
Definition op_ping : Z := 0x9.
Definition op_pong : Z := 0xA.

Definition is_control_frame (op : Z) : bool := 0x8 <=? op.
Definition is_valid_opcode (op : Z) : bool := (op <=? 0x2) || ((0x8 <=? op) && (op <=? 0xA)).

Record frame_header := Header {
  fin : bool; rsv1 : bool; rsv2 : bool; rsv3 : bool; op : Z; masked : bool; payload_len : Z;
  mask_key : list byte
}.

Inductive ws_error :=
| Invalid_opcode | Reserved_bits_must_be_0 | Non_minimal_payload_length | Invalid_payload_length
| Control_frame_payload_too_large | Control_frame_cannot_be_fragmented
| Unmasked_frame_received_from_client | Masked_frame_received_from_server
| Continuation_frame_without_initial_frame | New_message_started_before_previous_completed
| Message_exceeds_maximum_size | Text_message_contains_invalid_UTF8.

(** [frame_parse_result]. *)
Inductive parse_result :=
| incomplete
| error (e : ws_error)
| complete (header : frame_header) (header_size frame_size : Z).

Definition at_ (data : list byte) (i : nat) : Z := b2z (nth i data (z2b 0)).

Definition bit_set (b mask : Z) : bool := negb (Z.land b mask =? 0).

(** The checks and the mask key after the payload length is known. *)
Definition finish_header (data : list byte) (fin : bool) (op : Z) (masked : bool) (len : Z) (header_size : Z) : parse_result :=
  if is_control_frame op && (125 <? len) then error Control_frame_payload_too_large
  else if is_control_frame op && negb fin then error Control_frame_cannot_be_fragmented
  else if masked then
    if zlen data <? header_size + 4 then incomplete
    else complete (Header fin false false false op masked len (take 4 (drop (Z.to_nat header_size) data)))
                  (header_size + 4) (u64 (header_size + 4 + len))
  else complete (Header fin false false false op masked len (replicate 4 (z2b 0))) header_size (u64 (header_size + len)).

Definition parse_frame_header (data : list byte) : parse_result :=
  let len := zlen data in
  if len <? 1 then incomplete
  else
    let b0 := at_ data 0 in
    let fin := bit_set b0 0x80 in
    let raw_opcode := Z.land b0 0x0F in
    if negb (is_valid_opcode raw_opcode) then error Invalid_opcode
    else if bit_set b0 0x40 || bit_set b0 0x20 || bit_set b0 0x10 then error Reserved_bits_must_be_0
    else if len <? 2 then incomplete
    else
      let b1 := at_ data 1 in
      let masked := bit_set b1 0x80 in
      let payload_len_7 := Z.land b1 0x7F in
      if payload_len_7 =? 126 then
        if len <? 4 then incomplete
        else
          let plen := Z.lor (Z.shiftl (at_ data 2) 8) (at_ data 3) in
          if plen <? 126 then error Non_minimal_payload_length
          else finish_header data fin raw_opcode masked plen 4
      else if payload_len_7 =? 127 then
        if len <? 10 then incomplete
        else
          let plen :=
            Z.lor (Z.lor (Z.lor (Z.lor (Z.lor (Z.lor (Z.lor
              (Z.shiftl (at_ data 2) 56) (Z.shiftl (at_ data 3) 48)) (Z.shiftl (at_ data 4) 40))
              (Z.shiftl (at_ data 5) 32)) (Z.shiftl (at_ data 6) 24)) (Z.shiftl (at_ data 7) 16))
              (Z.shiftl (at_ data 8) 8)) (at_ data 9) in
          if bit_set plen 0x8000000000000000 then error Invalid_payload_length
          else if plen <=? 65535 then error Non_minimal_payload_length
          else finish_header data fin raw_opcode masked plen 10
      else finish_header data fin raw_opcode masked payload_len_7 2.

(** ** Masking *)

Definition bxor (a b : byte) : byte := z2b (Z.lxor (b2z a) (b2z b)).

(** [data[i] ^= mask_key[(offset + i) % 4]] for every [i]. *)
Fixpoint apply_mask (data : list byte) (key : list byte) (offset : nat) : list byte :=
  match data with
  | [] => []
  | b :: data => bxor b (nth (offset mod 4) key (z2b 0)) :: apply_mask data key (S offset)
  end.

(** ** Encoding *)

Inductive encode_error := control_frame_cannot_be_fragmented | control_frame_payload_too_large.

(** [len >> (i * 8)] for [i] from [n - 1] down to 0. *)
Fixpoint be_bytes (n : nat) (z : Z) : list byte :=
  match n with
  | O => []
  | S n => z2b (Z.shiftr z (Z.of_nat n * 8)) :: be_bytes n z
  end.

Definition byte1 (h : frame_header) : Z :=
  let b := op h in
  let b := if fin h then Z.lor b 0x80 else b in
  let b := if rsv1 h then Z.lor b 0x40 else b in
  let b := if rsv2 h then Z.lor b 0x20 else b in
  if rsv3 h then Z.lor b 0x10 else b.

Definition length_bytes (masked : bool) (size : Z) : list byte :=
  let byte2 := if masked then 0x80 else 0 in
  if size <=? 125 then [z2b (Z.lor byte2 size)]
  else if size <=? 65535 then [z2b (Z.lor byte2 126); z2b (Z.shiftr size 8); z2b size]
  else z2b (Z.lor byte2 127) :: be_bytes 8 size.

(** The key used: the header's, or a fresh one when the header's is all zero. *)
Definition used_key (fresh : list byte) (h : frame_header) : list byte :=
  if bool_decide (mask_key h = replicate 4 (z2b 0)) then fresh else mask_key h.

Definition encode_frame (fresh : list byte) (h : frame_header) (payload : list byte) : result encode_error (list byte) :=
  if is_control_frame (op h) && negb (fin h) then Throw control_frame_cannot_be_fragmented
  else if is_control_frame (op h) && (125 <? zlen payload) then Throw control_frame_payload_too_large
  else
    Ok (z2b (byte1 h) :: length_bytes (masked h) (zlen payload) ++
        (if masked h then used_key fresh h ++ apply_mask payload (used_key fresh h) 0 else payload)).

Definition plain_header (o : Z) (mask : bool) (key : list byte) : frame_header :=
  Header true false false false o mask 0 (if mask then key else replicate 4 (z2b 0)).

Definition encode_text_frame (key fresh text : list byte) (mask : bool) := encode_frame fresh (plain_header op_text mask key) text.
Definition encode_binary_frame (key fresh data : list byte) (mask : bool) := encode_frame fresh (plain_header op_binary mask key) data.
Definition encode_ping_frame (key fresh payload : list byte) (mask : bool) := encode_frame fresh (plain_header op_ping mask key) payload.
Definition encode_pong_frame (key fresh payload : list byte) (mask : bool) := encode_frame fresh (plain_header op_pong mask key) payload.

(** ** Close frames *)

Definition close_normal : Z := 1000.
Definition close_protocol_error : Z := 1002.
Definition close_no_status : Z := 1005.
Definition close_invalid_data : Z := 1007.
Definition close_too_large : Z := 1009.

Definition close_payload (code : Z) (reason : list byte) : list byte :=
  let code := if (code =? 1005) || (code =? 1006) || (code =? 1015) then close_protocol_error else code in
  [z2b (Z.shiftr code 8); z2b code] ++ reason.

Definition encode_close_frame (key fresh : list byte) (code : Z) (reason : list byte) (mask : bool) :=
  encode_frame fresh (plain_header op_close mask key) (close_payload code reason).

Definition is_valid_close_code (code : Z) : bool :=
  ((1000 <=? code) && (code <=? 1003)) || ((1007 <=? code) && (code <=? 1014)) ||
  ((3000 <=? code) && (code <=? 4999)).

Definition parse_close_payload (payload : list byte) : Z * list byte :=
  if zlen payload =? 0 then (close_no_status, [])
  else if zlen payload =? 1 then (close_protocol_error, [])
  else
    let code := u16 (Z.lor (Z.shiftl (at_ payload 0) 8) (at_ payload 1)) in
    if negb (is_valid_close_code code) then (close_protocol_error, [])
    else
      let reason := drop 2 payload in
      if (2 <? zlen payload) && negb (is_valid_utf8 reason) then (close_protocol_error, [])
      else (code, if 2 <? zlen payload then reason else []).

(** ** The incremental parser *)

Inductive endpoint_role := unspecified | server | client.
Inductive queued_frame_kind := kind_message | kind_control.

Record message := Message { type : Z; data : list byte }.

Definition default_max_message_size : Z := 16 * 1024 * 1024.

Record parser := Parser {
  buffer_ : list byte;
  current_message_ : message;
  messages_ : list message;
  control_frames_ : list (Z * list byte);
  queued_frames_ : list queued_frame_kind;
  max_message_size_ : Z;
  has_error_ : bool;
  has_initial_frame_ : bool;
  error_msg_ : option ws_error;
  error_close_code_ : Z;
  role_ : endpoint_role
}.

Definition empty_message : message := Message op_text [].

Definition new_parser (max_size : Z) (role : endpoint_role) : parser :=
  Parser [] empty_message [] [] [] max_size false false None close_protocol_error role.

(** [reset] keeps the limits and the role. *)
Definition reset (p : parser) : parser := new_parser (max_message_size_ p) (role_ p).

Definition with_buffer (b : list byte) (p : parser) : parser :=
  Parser b (current_message_ p) (messages_ p) (control_frames_ p) (queued_frames_ p) (max_message_size_ p)
         (has_error_ p) (has_initial_frame_ p) (error_msg_ p) (error_close_code_ p) (role_ p).

Definition fail (e : ws_error) (code : Z) (p : parser) : parser :=
  Parser (buffer_ p) (current_message_ p) (messages_ p) (control_frames_ p) (queued_frames_ p) (max_message_size_ p)
         true (has_initial_frame_ p) (Some e) code (role_ p).

Definition push_control (o : Z) (payload : list byte) (p : parser) : parser :=
  Parser (buffer_ p) (current_message_ p) (messages_ p) (control_frames_ p ++ [(o, payload)])
         (queued_frames_ p ++ [kind_control]) (max_message_size_ p)
         (has_error_ p) (has_initial_frame_ p) (error_msg_ p) (error_close_code_ p) (role_ p).

Definition with_current (m : message) (initial : bool) (p : parser) : parser :=
  Parser (buffer_ p) m (messages_ p) (control_frames_ p) (queued_frames_ p) (max_message_size_ p)
         (has_error_ p) initial (error_msg_ p) (error_close_code_ p) (role_ p).

Definition push_message (p : parser) : parser :=
  Parser (buffer_ p) empty_message (messages_ p ++ [current_message_ p]) (control_frames_ p)
         (queued_frames_ p ++ [kind_message]) (max_message_size_ p)
         (has_error_ p) false (error_msg_ p) (error_close_code_ p) (role_ p).

(** The checks made as soon as the header is complete. *)
Definition header_error (p : parser) (h : frame_header) : option (ws_error * Z) :=
  match role_ p, masked h with
  | server, false => Some (Unmasked_frame_received_from_client, close_protocol_error)
  | client, true => Some (Masked_frame_received_from_server, close_protocol_error)
  | _, _ =>
      if is_control_frame (op h) then None
      else if (op h =? op_continuation) && negb (has_initial_frame_ p)
           then Some (Continuation_frame_without_initial_frame, close_protocol_error)
      else if negb (op h =? op_continuation) && has_initial_frame_ p
           then Some (New_message_started_before_previous_completed, close_protocol_error)
      else if (0 <? max_message_size_ p) &&
              ((max_message_size_ p <? zlen (data (current_message_ p))) ||
               (max_message_size_ p - zlen (data (current_message_ p)) <? payload_len h))
           then Some (Message_exceeds_maximum_size, close_too_large)
      else None
  end.

Definition extract_payload (h : frame_header) (header_size : Z) (buf : list byte) : list byte :=
  let payload := take (Z.to_nat (payload_len h)) (drop (Z.to_nat header_size) buf) in
  if masked h then apply_mask payload (mask_key h) 0 else payload.

(** Processing of one whole frame; [inr] when the message is not valid UTF-8. *)
Definition process_frame (p : parser) (h : frame_header) (payload : list byte) : parser + parser :=
  if is_control_frame (op h) then inl (push_control (op h) payload p)
  else
    let p := if negb (op h =? op_continuation) then with_current (Message (op h) []) true p else p in
    let p := with_current (Message (type (current_message_ p)) (data (current_message_ p) ++ payload))
                          (has_initial_frame_ p) p in
    if fin h then
      if (type (current_message_ p) =? op_text) && negb (is_valid_utf8 (data (current_message_ p)))
      then inr (fail Text_message_contains_invalid_UTF8 close_invalid_data p)
      else inl (push_message p)
    else inl p.

(** One iteration of the loop of [process_buffer]. *)
Inductive iteration :=
| need_more
| failed (p : parser)
| went_on (p : parser) (frame_size : Z).

Definition iterate (p : parser) : iteration :=
  match parse_frame_header (buffer_ p) with
  | error e => failed (fail e close_protocol_error p)
  | incomplete => need_more
  | complete h header_size frame_size =>
      match header_error p h with
      | Some (e, code) => failed (fail e code p)
      | None =>
          if zlen (buffer_ p) <? frame_size then need_more
          else
            match process_frame p h (extract_payload h header_size (buffer_ p)) with
            | inr p => failed p
            | inl p => went_on (with_buffer (drop (Z.to_nat frame_size) (buffer_ p)) p) frame_size
            end
      end
  end.

Fixpoint process_loop (fuel : nat) (p : parser) (total_consumed : Z) : option (parser * Z) :=
  match buffer_ p with
  | [] => Some (p, total_consumed)
  | _ =>
      match fuel with
      | O => None
      | S fuel =>
          match iterate p with
          | need_more => Some (p, total_consumed)
          | failed p => Some (p, -1)
          | went_on p n => process_loop fuel p (total_consumed + n)
          end
      end
  end.

Definition process_buffer (p : parser) : option (parser * Z) := process_loop (S (length (buffer_ p))) p 0.

Definition parse (input : list byte) (p : parser) : option (parser * Z) :=
  if zlen input =? 0 then Some (p, 0) else process_buffer (with_buffer (buffer_ p ++ input) p).

(** ** The queues *)

Fixpoint remove_first_queued_kind (k : queued_frame_kind) (l : list queued_frame_kind) : list queued_frame_kind :=
  match l with
  | [] => []
  | k' :: l => match k, k' with
               | kind_message, kind_message | kind_control, kind_control => l
               | _, _ => k' :: remove_first_queued_kind k l
               end
  end.

Definition with_queues (ms : list message) (cs : list (Z * list byte)) (qs : list queued_frame_kind) (p : parser) : parser :=
  Parser (buffer_ p) (current_message_ p) ms cs qs (max_message_size_ p)
         (has_error_ p) (has_initial_frame_ p) (error_msg_ p) (error_close_code_ p) (role_ p).

Definition get_message (p : parser) : option message * parser :=
  match messages_ p with
  | [] => (None, p)
  | m :: ms => (Some m, with_queues ms (control_frames_ p) (remove_first_queued_kind kind_message (queued_frames_ p)) p)
  end.

Definition get_control_frame (p : parser) : option (Z * list byte) * parser :=
  match control_frames_ p with
  | [] => (None, p)
  | c :: cs => (Some c, with_queues (messages_ p) cs (remove_first_queued_kind kind_control (queued_frames_ p)) p)
  end.

Definition next_frame_is_message (p : parser) : bool :=
  match queued_frames_ p with kind_message :: _ => true | _ => false end.

Definition next_frame_is_control_frame (p : parser) : bool :=
  match queued_frames_ p with kind_control :: _ => true | _ => false end.

Definition get_next_message (p : parser) : option message * parser :=
  if negb (next_frame_is_message p) then (None, p)
  else match messages_ p with
       | [] => (None, p)
       | m :: ms => (Some m, with_queues ms (control_frames_ p) (tail (queued_frames_ p)) p)
       end.

Definition get_next_control_frame (p : parser) : option (Z * list byte) * parser :=
  if negb (next_frame_is_control_frame p) then (None, p)
  else match control_frames_ p with
       | [] => (None, p)
       | c :: cs => (Some c, with_queues (messages_ p) cs (tail (queued_frames_ p)) p)
       end.

(** ** Masking *)

Lemma bxor_bxor a k : bxor (bxor a k) k = a.
Proof.
  unfold bxor. pose proof (b2z_range a). pose proof (b2z_range k).
  rewrite (b2z_z2b_small (Z.lxor _ _)) by (apply (lxor_range 8); lia).
  by rewrite Z.lxor_assoc, Z.lxor_nilpotent, Z.lxor_0_r, z2b_b2z.
Qed.

Lemma apply_mask_involutive d key o : apply_mask (apply_mask d key o) key o = d.
Proof. revert o. induction d as [|b d IH]; intros o; simpl; [done|]. by rewrite bxor_bxor, IH. Qed.

Lemma length_apply_mask d key o : length (apply_mask d key o) = length d.
Proof. revert o. induction d as [|b d IH]; intros o; simpl; [done|]. by rewrite IH. Qed.

(** ** Numbers in network byte order *)

Lemma be_bytes_at n z i : (i < n)%nat -> at_ (be_bytes n z) i = (z / 2 ^ (8 * Z.of_nat (n - 1 - i))) mod 256.
Proof.
  revert i. induction n as [|n IH]; intros i Hi; [lia|]. destruct i as [|i]; unfold at_ in *; cbn [be_bytes nth].
  - rewrite b2z_z2b, Z.shiftr_div_pow2 by lia. f_equal. f_equal. f_equal. lia.
  - rewrite IH by lia. f_equal. f_equal. f_equal. lia.
Qed.

Lemma length_be_bytes n z : length (be_bytes n z) = n.
Proof. induction n; simpl; [done|]. by rewrite IHn. Qed.

Lemma be64_value b2 b3 b4 b5 b6 b7 b8 b9 :
  0 <= b2 < 256 -> 0 <= b3 < 256 -> 0 <= b4 < 256 -> 0 <= b5 < 256 ->
  0 <= b6 < 256 -> 0 <= b7 < 256 -> 0 <= b8 < 256 -> 0 <= b9 < 256 ->
  Z.lor (Z.lor (Z.lor (Z.lor (Z.lor (Z.lor (Z.lor
    (Z.shiftl b2 56) (Z.shiftl b3 48)) (Z.shiftl b4 40)) (Z.shiftl b5 32)) (Z.shiftl b6 24)) (Z.shiftl b7 16))
    (Z.shiftl b8 8)) b9 =
  ((((((b2 * 256 + b3) * 256 + b4) * 256 + b5) * 256 + b6) * 256 + b7) * 256 + b8) * 256 + b9.
Proof.
  intros. rewrite !Z.shiftl_mul_pow2 by lia.
  replace (b2 * 2 ^ 56) with (2 ^ 56 * b2) by lia. rewrite (lor_add 56) by lia.
  replace (2 ^ 56 * b2 + b3 * 2 ^ 48) with (2 ^ 48 * (b2 * 256 + b3)) by lia. rewrite (lor_add 48) by lia.
  replace (2 ^ 48 * (b2 * 256 + b3) + b4 * 2 ^ 40) with (2 ^ 40 * ((b2 * 256 + b3) * 256 + b4)) by lia.
  rewrite (lor_add 40) by lia.
  match goal with |- context [Z.lor (2 ^ 40 * ?x + b5 * 2 ^ 32)] =>
    replace (2 ^ 40 * x + b5 * 2 ^ 32) with (2 ^ 32 * (x * 256 + b5)) by lia end. rewrite (lor_add 32) by lia.
  match goal with |- context [Z.lor (2 ^ 32 * ?x + b6 * 2 ^ 24)] =>
    replace (2 ^ 32 * x + b6 * 2 ^ 24) with (2 ^ 24 * (x * 256 + b6)) by lia end. rewrite (lor_add 24) by lia.
  match goal with |- context [Z.lor (2 ^ 24 * ?x + b7 * 2 ^ 16)] =>
    replace (2 ^ 24 * x + b7 * 2 ^ 16) with (2 ^ 16 * (x * 256 + b7)) by lia end. rewrite (lor_add 16) by lia.
  match goal with |- context [Z.lor (2 ^ 16 * ?x + b8 * 2 ^ 8)] =>
    replace (2 ^ 16 * x + b8 * 2 ^ 8) with (2 ^ 8 * (x * 256 + b8)) by lia end. rewrite (lor_add 8) by lia. lia.
Qed.

(** ** Headers *)

Definition opcode_ok (o : Z) : Prop := 0 <= o /\ is_valid_opcode o = true.

Lemma opcode_cases o : opcode_ok o -> o ∈ [0; 1; 2; 8; 9; 10].
Proof.
  intros [Ho Hv]. unfold is_valid_opcode in Hv.
  assert (o = 0 \/ o = 1 \/ o = 2 \/ o = 8 \/ o = 9 \/ o = 10) as H
    by (apply orb_true_iff in Hv as [Hv|Hv]; zbool; lia).
  repeat destruct H as [->|H]; subst; set_solver.
Qed.

Lemma byte1_bits h : opcode_ok (op h) -> rsv1 h = false -> rsv2 h = false -> rsv3 h = false ->
  let b := b2z (z2b (byte1 h)) in
  bit_set b 0x80 = fin h /\ Z.land b 0x0F = op h /\
  bit_set b 0x40 || bit_set b 0x20 || bit_set b 0x10 = false.
Proof.
  intros Ho H1 H2 H3. unfold byte1. rewrite H1, H2, H3. apply opcode_cases in Ho.
  repeat (apply elem_of_cons in Ho as [->|Ho]; [destruct (fin h); by vm_compute|]). by apply elem_of_nil in Ho.
Qed.

Definition byte2 (m : bool) (v : Z) : Z := b2z (z2b (Z.lor (if m then 0x80 else 0) v)).

Lemma byte2_bits m v : 0 <= v < 128 -> bit_set (byte2 m v) 0x80 = m /\ Z.land (byte2 m v) 0x7F = v.
Proof.
  intros Hv.
  assert (forallb (fun v => Bool.eqb (bit_set (byte2 m v) 0x80) m && (Z.land (byte2 m v) 0x7F =? v)) (seqZ 0 128) = true)
    as H by (destruct m; by vm_compute).
  rewrite forallb_forall in H. specialize (H v). rewrite <-list_elem_of_In, elem_of_seqZ in H.
  specialize (H ltac:(lia)). zbool. split; [by apply Bool.eqb_prop|done].
Qed.

(** What the parser makes of an encoded header. *)
Definition parsed_header (h : frame_header) (key : list byte) (size : Z) : frame_header :=
  Header (fin h) false false false (op h) (masked h) size (if masked h then key else replicate 4 (z2b 0)).

Definition header_bytes (h : frame_header) (key : list byte) (size : Z) : list byte :=
  z2b (byte1 h) :: length_bytes (masked h) size ++ (if masked h then key else []).

Lemma finish_header_ok h key pre rest size :
  length key = 4%nat -> 0 <= size < 2 ^ 63 ->
  (is_control_frame (op h) = true -> fin h = true /\ size <= 125) ->
  finish_header (pre ++ (if masked h then key else []) ++ rest) (fin h) (op h) (masked h) size (zlen pre) =
  complete (parsed_header h key size) (zlen (pre ++ (if masked h then key else [])))
           (u64 (zlen (pre ++ (if masked h then key else [])) + size)).
Proof.
  intros Hk Hs Hc. unfold finish_header.
  assert (is_control_frame (op h) && (125 <? size) = false) as ->.
  { destruct (is_control_frame (op h)); [|done]. destruct (Hc eq_refl). simpl. apply Z.ltb_ge. lia. }
  assert (is_control_frame (op h) && negb (fin h) = false) as ->.
  { destruct (is_control_frame (op h)); [|done]. by destruct (Hc eq_refl) as [-> _]. }
  unfold parsed_header. destruct (masked h); [|by rewrite app_nil_r].
  assert (zlen key = 4) as Hk' by (unfold zlen; by rewrite Hk).
  rewrite !zlen_app, Hk'. rewrite (proj2 (Z.ltb_ge _ _)) by (pose proof (zlen_nonneg rest); lia).
  f_equal. f_equal. unfold zlen. rewrite Nat2Z.id, drop_app_length, <-Hk. apply take_app_length.
Qed.

Lemma at_app_l d e i : (i < length d)%nat -> at_ (d ++ e) i = at_ d i.
Proof. intros. unfold at_. by rewrite app_nth1. Qed.

Lemma be64_decode size rest : 0 <= size < 2 ^ 63 ->
  let d := be_bytes 8 size ++ rest in
  Z.lor (Z.lor (Z.lor (Z.lor (Z.lor (Z.lor (Z.lor
    (Z.shiftl (at_ d 0) 56) (Z.shiftl (at_ d 1) 48)) (Z.shiftl (at_ d 2) 40)) (Z.shiftl (at_ d 3) 32))
    (Z.shiftl (at_ d 4) 24)) (Z.shiftl (at_ d 5) 16)) (Z.shiftl (at_ d 6) 8)) (at_ d 7) = size.
Proof.
  intros Hs d. rewrite be64_value by apply b2z_range. unfold d.
  rewrite !at_app_l by (rewrite length_be_bytes; lia). rewrite !be_bytes_at by lia. simpl Nat.sub.
  cbn [Z.of_nat Pos.of_succ_nat Pos.succ Z.mul Pos.mul Pos.add].
  change (2 ^ 0) with 1. change (2 ^ 8) with 256. change (2 ^ 16) with 65536. change (2 ^ 24) with 16777216.
  change (2 ^ 32) with 4294967296. change (2 ^ 40) with 1099511627776. change (2 ^ 48) with 281474976710656.
  change (2 ^ 56) with 72057594037927936. change (2 ^ 63) with 9223372036854775808 in Hs.
  Z.div_mod_to_equations. lia.
Qed.

Lemma at_cons_0 b l : at_ (b :: l) 0 = b2z b.
Proof. done. Qed.

Lemma at_cons_S b l i : at_ (b :: l) (S i) = at_ l i.
Proof. done. Qed.

(** The first two bytes of an encoded header are understood. *)
Lemma parse_two_bytes h v l : opcode_ok (op h) -> rsv1 h = false -> rsv2 h = false -> rsv3 h = false -> 0 <= v < 128 ->
  let d := z2b (byte1 h) :: z2b (Z.lor (if masked h then 0x80 else 0) v) :: l in
  parse_frame_header d =
    if v =? 126 then
      if zlen d <? 4 then incomplete
      else
        let plen := Z.lor (Z.shiftl (at_ d 2) 8) (at_ d 3) in
        if plen <? 126 then error Non_minimal_payload_length
        else finish_header d (fin h) (op h) (masked h) plen 4
    else if v =? 127 then
      if zlen d <? 10 then incomplete
      else
        let plen :=
          Z.lor (Z.lor (Z.lor (Z.lor (Z.lor (Z.lor (Z.lor
            (Z.shiftl (at_ l 0) 56) (Z.shiftl (at_ l 1) 48)) (Z.shiftl (at_ l 2) 40))
            (Z.shiftl (at_ l 3) 32)) (Z.shiftl (at_ l 4) 24)) (Z.shiftl (at_ l 5) 16))
            (Z.shiftl (at_ l 6) 8)) (at_ l 7) in
        if bit_set plen 0x8000000000000000 then error Invalid_payload_length
        else if plen <=? 65535 then error Non_minimal_payload_length
        else finish_header d (fin h) (op h) (masked h) plen 10
    else finish_header d (fin h) (op h) (masked h) v 2.
Proof.
  intros Ho H1 H2 H3 Hv d. destruct (byte1_bits h Ho H1 H2 H3) as (E1 & E2 & E3).
  destruct (byte2_bits (masked h) v Hv) as [E4 E5]. unfold byte2 in E4, E5.
  unfold parse_frame_header, d. cbv zeta.
  rewrite !(zlen_cons (z2b (byte1 h))), !(zlen_cons (z2b (Z.lor _ _))).
  pose proof (zlen_nonneg l).
  rewrite (proj2 (Z.ltb_ge (1 + (1 + zlen l)) 1)), (proj2 (Z.ltb_ge (1 + (1 + zlen l)) 2)) by lia.
  rewrite !at_cons_S, !at_cons_0. rewrite E1, E2, E3, E4, E5. by rewrite (proj2 Ho).
Qed.

Lemma zlen_length_bytes m size : 0 <= size ->
  zlen (length_bytes m size) = if size <=? 125 then 1 else if size <=? 65535 then 3 else 9.
Proof. intros. unfold length_bytes. cbv zeta. repeat case_if; done. Qed.

Lemma bit63_clear x : 0 <= x < 2 ^ 63 -> bit_set x 0x8000000000000000 = false.
Proof.
  intros Hx. unfold bit_set. apply negb_false_iff, Z.eqb_eq, Z.bits_inj'. intros i Hi.
  rewrite Z.land_spec, Z.bits_0. change 0x8000000000000000 with (2 ^ 63).
  destruct (decide (i = 63)) as [->|Hn].
  - by rewrite (testbit_high 63) by lia.
  - rewrite Z.pow2_bits_false by lia. apply andb_false_r.
Qed.

(** Parsing an encoded header gives it back, with its sizes, whatever follows. *)
Lemma parse_encoded_header h key size rest :
  opcode_ok (op h) -> rsv1 h = false -> rsv2 h = false -> rsv3 h = false ->
  length key = 4%nat -> 0 <= size < 2 ^ 63 ->
  (is_control_frame (op h) = true -> fin h = true /\ size <= 125) ->
  let hs := zlen (header_bytes h key size) in
  parse_frame_header (header_bytes h key size ++ rest) = complete (parsed_header h key size) hs (hs + size).
Proof.
  intros Ho H1 H2 H3 Hk Hs Hc hs.
  assert (2 <= hs <= 14) as Hhs.
  { unfold hs, header_bytes. rewrite zlen_cons, zlen_app, zlen_length_bytes by lia.
    assert (zlen (if masked h then key else []) <= 4) by (case_if; unfold zlen; rewrite ?Hk; done).
    pose proof (zlen_nonneg (if masked h then key else [])). repeat case_if; lia. }
  rewrite <-(u64_small (hs + size)) by lia. unfold hs, header_bytes.
  set (k := if masked h then key else []). rewrite !app_comm_cons, <-app_assoc.
  unfold length_bytes. cbv zeta. case_if; [|case_if]; zbool; cbn [app].
  - rewrite parse_two_bytes by (done || lia).
    rewrite !(proj2 (Z.eqb_neq size _)) by lia. by apply (finish_header_ok h key [_; _]).
  - rewrite parse_two_bytes by (done || lia). simpl Z.eqb. cbv iota.
    rewrite (proj2 (Z.ltb_ge _ 4)) by (rewrite !zlen_cons; pose proof (zlen_nonneg (k ++ rest)); lia).
    unfold at_. cbn [nth]. rewrite !b2z_z2b, lor_shiftl_add by (lia || by apply Z.mod_pos_bound).
    rewrite Z.shiftr_div_pow2 by lia. change (2 ^ 8) with 256. cbv zeta.
    replace (256 * ((size / 256) mod 256) + size mod 256) with size by (Z.div_mod_to_equations; lia).
    rewrite (proj2 (Z.ltb_ge size 126)) by lia. by apply (finish_header_ok h key [_; _; _; _]).
  - rewrite parse_two_bytes by (done || lia). simpl Z.eqb. cbv iota.
    rewrite be64_decode by lia. cbv zeta. rewrite bit63_clear by lia.
    assert (zlen (be_bytes 8 size) = 8) as H8 by (unfold zlen; by rewrite length_be_bytes).
    rewrite (proj2 (Z.ltb_ge _ 10)) by (rewrite !zlen_cons, zlen_app, H8; pose proof (zlen_nonneg (k ++ rest)); lia).
    rewrite (proj2 (Z.leb_gt _ _)) by lia.
    by apply (finish_header_ok h key (z2b (byte1 h) :: z2b (Z.lor (if masked h then 128 else 0) 127) :: be_bytes 8 size)).
Qed.

(** *** More data does not change what has been understood *)

Lemma finish_header_app d e fn o m len hs : 0 <= hs <= zlen d ->
  finish_header d fn o m len hs <> incomplete ->
  finish_header (d ++ e) fn o m len hs = finish_header d fn o m len hs.
Proof.
  intros Hhs. unfold finish_header. rewrite zlen_app. pose proof (zlen_nonneg e).
  repeat (case_if; try done); intros _; zbool; try lia. f_equal. f_equal.
  unfold zlen in *. rewrite drop_app_le by lia. rewrite take_app_le; [done|]. rewrite length_drop. lia.
Qed.

Lemma parse_frame_header_app d e : parse_frame_header d <> incomplete ->
  parse_frame_header (d ++ e) = parse_frame_header d.
Proof.
  unfold parse_frame_header. cbv zeta. rewrite zlen_app. pose proof (zlen_nonneg e).
  assert (forall i, Z.of_nat i < zlen d -> at_ (d ++ e) i = at_ d i) as Hat
    by (intros i Hi; apply at_app_l; unfold zlen in Hi; lia).
  destruct (zlen d <? 1) eqn:E1; [done|]. zbool. rewrite (proj2 (Z.ltb_ge (zlen d + zlen e) 1)) by lia.
  rewrite !(Hat 0%nat) by lia. case_if; [done|]. case_if; [done|].
  destruct (zlen d <? 2) eqn:E2; [done|]. zbool. rewrite (proj2 (Z.ltb_ge (zlen d + zlen e) 2)) by lia.
  rewrite !(Hat 1%nat) by lia. case_if; [|case_if].
  - destruct (zlen d <? 4) eqn:E4; [done|]. zbool. rewrite (proj2 (Z.ltb_ge (zlen d + zlen e) 4)) by lia.
    rewrite !(Hat 2%nat), !(Hat 3%nat) by lia. case_if; [done|]. apply finish_header_app. lia.
  - destruct (zlen d <? 10) eqn:E10; [done|]. zbool. rewrite (proj2 (Z.ltb_ge (zlen d + zlen e) 10)) by lia.
    rewrite !(Hat 2%nat), !(Hat 3%nat), !(Hat 4%nat), !(Hat 5%nat), !(Hat 6%nat), !(Hat 7%nat), !(Hat 8%nat), !(Hat 9%nat) by lia.
    case_if; [done|]. case_if; [done|]. apply finish_header_app. lia.
  - apply finish_header_app. lia.
Qed.

(** The shape of a complete header. *)
Definition header_shape (h : frame_header) (hs fs : Z) : Prop :=
  2 <= hs <= 14 /\ 0 <= payload_len h < 2 ^ 63 /\ fs = hs + payload_len h /\
  (is_control_frame (op h) = true -> payload_len h <= 125 /\ fin h = true) /\ opcode_ok (op h).

Lemma finish_header_shape d fn o m len hs0 h hs fs : 2 <= hs0 <= 10 -> 0 <= len < 2 ^ 63 -> opcode_ok o ->
  finish_header d fn o m len hs0 = complete h hs fs -> header_shape h hs fs.
Proof.
  intros Hhs Hl Ho. unfold finish_header.
  destruct (is_control_frame o && (125 <? len)) eqn:E1; [done|].
  destruct (is_control_frame o && negb fn) eqn:E2; [done|].
  assert (is_control_frame o = true -> len <= 125 /\ fn = true) as Hc.
  { intros Hc. rewrite Hc in E1, E2. simpl in E1, E2. zbool. done. }
  destruct m; [destruct (zlen d <? hs0 + 4); [done|]|]; intros [= <- <- <-]; unfold header_shape; simpl;
    rewrite u64_small by lia; split_and!; try lia; try apply Ho; apply Hc.
Qed.

Lemma land_range_byte x m k : 0 <= k -> m = Z.ones k -> 0 <= Z.land x m < 2 ^ k.
Proof. intros Hk ->. rewrite Z.land_ones by done. apply Z.mod_pos_bound. lia. Qed.

Lemma parse_frame_header_shape d h hs fs : parse_frame_header d = complete h hs fs -> header_shape h hs fs.
Proof.
  unfold parse_frame_header. cbv zeta. case_if; [done|].
  destruct (negb (is_valid_opcode (Z.land (at_ d 0) 15))) eqn:Ev; [done|]. zbool.
  assert (opcode_ok (Z.land (at_ d 0) 15)) as Ho by (split; [apply (land_range_byte _ 15 4); done|done]).
  pose proof (land_range_byte (at_ d 1) 127 7 ltac:(lia) eq_refl) as H7.
  assert (forall i, 0 <= at_ d i < 256) as Hat by (intros; apply b2z_range).
  case_if; [done|]. case_if; [done|]. case_if; [|case_if].
  - case_if; [done|]. case_if; [done|]. apply finish_header_shape; [lia| |done].
    pose proof (Hat 2%nat). pose proof (Hat 3%nat). rewrite lor_shiftl_add by (done || lia). lia.
  - case_if; [done|]. rewrite be64_value by apply Hat.
    pose proof (Hat 2%nat). pose proof (Hat 3%nat). pose proof (Hat 4%nat). pose proof (Hat 5%nat).
    pose proof (Hat 6%nat). pose proof (Hat 7%nat). pose proof (Hat 8%nat). pose proof (Hat 9%nat).
    set (x := (((((((at_ d 2 * 256 + _) * 256 + _) * 256 + _) * 256 + _) * 256 + _) * 256 + _) * 256 + _)) in *.
    assert (0 <= x < 2 ^ 64) as Hx by (unfold x; lia). clearbody x.
    destruct (bit_set x _) eqn:Eb; [done|]. case_if; [done|].
    apply finish_header_shape; [lia| |done]. split; [lia|].
    apply Z.nle_gt. intros Hge. unfold bit_set in Eb. zbool.
    assert (Z.testbit (Z.land x 0x8000000000000000) 63 = false) as Hb by (rewrite Eb; apply Z.bits_0).
    change 0x8000000000000000 with (2 ^ 63) in Hb. rewrite Z.land_spec, Z.pow2_bits_true, andb_true_r in Hb by lia.
    rewrite Z.testbit_false in Hb by lia. revert Hb. replace (x / 2 ^ 63) with 1; [done|].
    apply Z.div_unique with (x - 2 ^ 63); lia.
  - apply finish_header_shape; [lia| |done]. change (2 ^ 7) with 128 in H7. lia.
Qed.

End Ws.
