(* ===== verification/WsParser.v ===== *)
(** * Properties of the WebSocket frame parser

    Theorems on the [frame_parser] modelled in [WebSocket]: independence of how the bytes are
    cut into reads, bounds and validity of what is queued and buffered, wire order of the queues,
    and delivery of every message and control frame a conforming peer sends.  The loop is related
    to a big-step relation [WsP.runs], on which the arguments are inductions. *)

From S2P Require Import Prelude Endian Utf8 WebSocket.

Module WsP.
Export Ws.

(** ** Specification *)

(** [runs p p' r]: the loop started in [p] ends in [p'], having consumed [n] bytes ([Some n])
    or having failed ([None]). *)
Inductive runs : parser -> parser -> option Z -> Prop :=
| runs_empty p : buffer_ p = [] -> runs p p (Some 0)
| runs_more p : iterate p = need_more -> runs p p (Some 0)
| runs_fail p p' : buffer_ p <> [] -> iterate p = failed p' -> runs p p' None
| runs_step p p1 n p2 r : buffer_ p <> [] -> iterate p = went_on p1 n -> runs p1 p2 r ->
    runs p p2 (option_map (Z.add n) r).

(** More bytes behind those buffered. *)
Definition ext (e : list byte) (p : parser) : parser := with_buffer (buffer_ p ++ e) p.

(** A sequence of calls of [parse], up to the first failure. *)
Fixpoint parse_all (chunks : list (list byte)) (p : parser) : option (parser * Z) :=
  match chunks with
  | [] => Some (p, 0)
  | c :: cs =>
      match parse c p with
      | None => None
      | Some (p1, n) =>
          if n <? 0 then Some (p1, n)
          else match parse_all cs p1 with
               | None => None
               | Some (p2, m) => Some (p2, if m <? 0 then m else n + m)
               end
      end
  end.

(** The queues as one list of events in wire order. *)
Definition event : Type := message + (Z * list byte).

Definition kind_of (e : event) : queued_frame_kind := match e with inl _ => kind_message | inr _ => kind_control end.
Definition as_message (e : event) : option message := match e with inl m => Some m | inr _ => None end.
Definition as_control (e : event) : option (Z * list byte) := match e with inl _ => None | inr c => Some c end.

Definition queued (evs : list event) (p : parser) : Prop :=
  messages_ p = omap as_message evs /\ control_frames_ p = omap as_control evs /\ queued_frames_ p = map kind_of evs.

(** A message that may be handed to the application. *)
Definition message_ok (max : Z) (m : message) : Prop :=
  (type m = op_text \/ type m = op_binary) /\ (type m = op_text -> is_valid_utf8 (data m) = true) /\
  (0 < max -> zlen (data m) <= max).

Definition control_ok (c : Z * list byte) : Prop := is_control_frame c.1 = true /\ zlen c.2 <= 125.

Definition event_ok (max : Z) (e : event) : Prop :=
  match e with inl m => message_ok max m | inr c => control_ok c end.

(** The invariant of the parser. *)
Record parser_ok (p : parser) : Prop := {
  max_nonneg : 0 <= max_message_size_ p;
  current_size : 0 < max_message_size_ p -> zlen (data (current_message_ p)) <= max_message_size_ p;
  current_type : has_initial_frame_ p = true -> type (current_message_ p) = op_text \/ type (current_message_ p) = op_binary;
  current_none : has_initial_frame_ p = false -> current_message_ p = empty_message;
  queues_ok : exists evs, queued evs p /\ Forall (event_ok (max_message_size_ p)) evs
}.

(** Bytes the parser may hold back: at most a header and the largest payload it accepts. *)
Definition max_buffered (p : parser) : Z := 14 + Z.max 125 (max_message_size_ p).

(** *** Calls on a parser *)

Inductive call := Feed (c : list byte) | GetMessage | GetControlFrame | GetNextMessage | GetNextControlFrame | Reset.

Definition run_call (c : call) (p : parser) : option parser :=
  match c with
  | Feed i => match parse i p with Some (p', _) => Some p' | None => None end
  | GetMessage => Some (snd (get_message p))
  | GetControlFrame => Some (snd (get_control_frame p))
  | GetNextMessage => Some (snd (get_next_message p))
  | GetNextControlFrame => Some (snd (get_next_control_frame p))
  | Reset => Some (reset p)
  end.

Fixpoint run_calls (cs : list call) (p : parser) : option parser :=
  match cs with
  | [] => Some p
  | c :: cs => match run_call c p with Some p => run_calls cs p | None => None end
  end.

(** *** What a conforming peer sends *)

(** A frame as it is encoded: the key of its header and the fresh key are its own. *)
Record wframe := WFrame { w_fin : bool; w_op : Z; w_payload : list byte; w_mask : bool; w_key : list byte; w_fresh : list byte }.

Definition hdr_in (f : wframe) : frame_header := Header (w_fin f) false false false (w_op f) (w_mask f) 0 (w_key f).
Definition hdr_key (f : wframe) : list byte := used_key (w_fresh f) (hdr_in f).
Definition hdr_out (f : wframe) : frame_header := parsed_header (hdr_in f) (hdr_key f) (zlen (w_payload f)).

Definition enc (f : wframe) : list byte :=
  match encode_frame (w_fresh f) (hdr_in f) (w_payload f) with Ok b => b | Throw _ => [] end.

Record frame_wf (role : endpoint_role) (f : wframe) : Prop := {
  wf_key : length (w_key f) = 4%nat;
  wf_fresh : length (w_fresh f) = 4%nat;
  wf_op : opcode_ok (w_op f);
  wf_len : zlen (w_payload f) < 2 ^ 63;
  wf_control : is_control_frame (w_op f) = true -> w_fin f = true /\ zlen (w_payload f) <= 125;
  wf_mask : match role with server => w_mask f = true | client => w_mask f = false | unspecified => True end
}.

(** What is sent: control frames, and messages cut into parts, each part possibly preceded by
    control frames. *)
Inductive item :=
| ICtl (o : Z) (pl : list byte)
| IMsg (o : Z) (parts : list (list (Z * list byte) * list byte)).

Definition shape (f : wframe) : bool * Z * list byte := (w_fin f, w_op f, w_payload f).

Definition ctl_shape (c : Z * list byte) : bool * Z * list byte := (true, c.1, c.2).

Fixpoint part_frames (o : Z) (parts : list (list (Z * list byte) * list byte)) : list (bool * Z * list byte) :=
  match parts with
  | [] => []
  | (ctls, pl) :: parts' =>
      map ctl_shape ctls ++ ((match parts' with [] => true | _ => false end), o, pl) :: part_frames op_continuation parts'
  end.

Definition item_frames (i : item) : list (bool * Z * list byte) :=
  match i with
  | ICtl o pl => [ctl_shape (o, pl)]
  | IMsg o parts => part_frames o parts
  end.

Definition item_events (i : item) : list event :=
  match i with
  | ICtl o pl => [inr (o, pl)]
  | IMsg o parts => map inr (concat (map fst parts)) ++ [inl (Message o (concat (map snd parts)))]
  end.

Definition item_ok (max : Z) (i : item) : Prop :=
  match i with
  | ICtl o pl => is_control_frame o = true
  | IMsg o parts => parts <> [] /\ Forall (fun c => is_control_frame c.1 = true) (concat (map fst parts)) /\
                    message_ok max (Message o (concat (map snd parts)))
  end.

(** The queues after more events have been queued. *)
Definition push_events (evs : list event) (p : parser) : parser :=
  with_queues (messages_ p ++ omap as_message evs) (control_frames_ p ++ omap as_control evs)
              (queued_frames_ p ++ map kind_of evs) p.

(** ** The loop *)

Lemma with_buffer_with_buffer a b p : with_buffer a (with_buffer b p) = with_buffer a p.
Proof. done. Qed.

Lemma with_buffer_id p : with_buffer (buffer_ p) p = p.
Proof. by destruct p. Qed.

Lemma ext_ext e1 e2 p : ext e2 (ext e1 p) = ext (e1 ++ e2) p.
Proof. unfold ext. simpl. by rewrite <-app_assoc. Qed.

Lemma process_frame_buffer b p h pl :
  process_frame (with_buffer b p) h pl =
  match process_frame p h pl with inl p' => inl (with_buffer b p') | inr p' => inr (with_buffer b p') end.
Proof. unfold process_frame. cbv zeta. repeat (case_if; simpl in *; try congruence); done. Qed.

Lemma process_frame_keeps p h pl :
  match process_frame p h pl with inl p' | inr p' => buffer_ p' = buffer_ p end.
Proof. unfold process_frame. cbv zeta. repeat case_if; done. Qed.

Lemma extract_payload_app h hs d e : 0 <= hs -> 0 <= payload_len h -> hs + payload_len h <= zlen d ->
  extract_payload h hs (d ++ e) = extract_payload h hs d.
Proof.
  intros H1 H2 H3. unfold extract_payload, zlen in *. rewrite drop_app_le by lia.
  rewrite take_app_le; [done|]. rewrite length_drop. lia.
Qed.

(** What a step that goes on did. *)
Lemma iterate_went_on p p' n : iterate p = went_on p' n ->
  exists h hs p1, parse_frame_header (buffer_ p) = complete h hs n /\ header_shape h hs n /\
    header_error p h = None /\ n <= zlen (buffer_ p) /\
    process_frame p h (extract_payload h hs (buffer_ p)) = inl p1 /\
    p' = with_buffer (drop (Z.to_nat n) (buffer_ p)) p1.
Proof.
  unfold iterate. destruct (parse_frame_header (buffer_ p)) as [| |h hs fs] eqn:Eh; try done.
  pose proof (parse_frame_header_shape _ _ _ _ Eh) as Hs.
  destruct (header_error p h) as [[e c]|] eqn:Ee; [done|].
  case_if; [done|]. zbool.
  pose proof (process_frame_keeps p h (extract_payload h hs (buffer_ p))) as Hk.
  destruct (process_frame p h _) as [p1|p1] eqn:Ep; [|done]. intros [= <- <-].
  exists h, hs, p1. rewrite Hk. split_and!; done.
Qed.

Lemma iterate_app_went_on p p' n e : iterate p = went_on p' n -> iterate (ext e p) = went_on (ext e p') n.
Proof.
  intros (h & hs & p1 & Eh & (Hhs & Hlen & -> & _) & Ee & Hn & Ep & ->)%iterate_went_on. unfold iterate. cbn [buffer_ ext with_buffer].
  rewrite parse_frame_header_app by (by rewrite Eh). rewrite Eh. change (header_error (ext e p) h) with (header_error p h).
  rewrite Ee, zlen_app, (proj2 (Z.ltb_ge _ _)) by (pose proof (zlen_nonneg e); lia).
  rewrite extract_payload_app by lia. unfold ext. rewrite process_frame_buffer, Ep. cbn [buffer_ with_buffer].
  unfold zlen in *. by rewrite drop_app_le by lia.
Qed.

Lemma iterate_app_failed p p' e : iterate p = failed p' -> iterate (ext e p) = failed (ext e p').
Proof.
  unfold iterate. cbn [buffer_ ext with_buffer].
  destruct (parse_frame_header (buffer_ p)) as [|er|h hs fs] eqn:Eh; [done| |];
    rewrite parse_frame_header_app by (by rewrite Eh); rewrite Eh; [by intros [= <-]|].
  pose proof (parse_frame_header_shape _ _ _ _ Eh) as (Hhs & Hlen & -> & _).
  change (header_error (ext e p) h) with (header_error p h).
  destruct (header_error p h) as [[er c]|] eqn:Ee; [by intros [= <-]|].
  case_if; [done|]. zbool. rewrite zlen_app, (proj2 (Z.ltb_ge _ _)) by (pose proof (zlen_nonneg e); lia).
  rewrite extract_payload_app by lia. unfold ext. rewrite process_frame_buffer.
  pose proof (process_frame_keeps p h (extract_payload h hs (buffer_ p))) as Hk.
  destruct (process_frame p h _) as [p1|p1]; [done|]. intros [= <-]. by rewrite Hk.
Qed.

Lemma iterate_decreases p p' n : iterate p = went_on p' n -> (length (buffer_ p') < length (buffer_ p))%nat /\ 2 <= n.
Proof.
  intros (h & hs & p1 & Eh & (Hhs & Hlen & -> & _) & Ee & Hn & Ep & ->)%iterate_went_on. simpl.
  unfold zlen in *. rewrite length_drop. lia.
Qed.

Lemma runs_nonneg p p' n : runs p p' (Some n) -> 0 <= n.
Proof.
  intros H. remember (Some n) as r eqn:Er. revert n Er.
  induction H as [| | |p p1 k p2 r Hb Hi Hr IH]; intros n Er; simplify_eq; [done|done|].
  destruct r as [m|]; [|done]. injection Er as <-. specialize (IH m eq_refl).
  apply iterate_decreases in Hi as [_ Hk]. lia.
Qed.

(** The loop always ends with the fuel it is given, as the relation says. *)
Lemma process_loop_total fuel p t : (length (buffer_ p) < fuel)%nat ->
  exists p' r, runs p p' r /\
    process_loop fuel p t = Some (p', match r with Some n => t + n | None => -1 end).
Proof.
  revert p t. induction fuel as [|fuel IH]; intros p t Hf; [lia|]. cbn [process_loop].
  destruct (buffer_ p) as [|b buf] eqn:Eb.
  { exists p, (Some 0). rewrite Z.add_0_r. split; [by constructor|done]. }
  destruct (iterate p) as [|p'|p1 n] eqn:Ei.
  - exists p, (Some 0). rewrite Z.add_0_r. split; [by constructor|done].
  - exists p', None. split; [|done]. apply runs_fail; [by rewrite Eb|done].
  - apply iterate_decreases in Ei as Hd. destruct Hd as [Hd _]. rewrite Eb in Hd.
    destruct (IH p1 (t + n)) as (p2 & r & Hr & E); [simpl in *; lia|].
    exists p2, (option_map (Z.add n) r). split; [apply (runs_step p p1 n); [by rewrite Eb|done|done]|].
    rewrite E. destruct r; [|done]. simpl. do 2 f_equal. lia.
Qed.

Lemma process_buffer_runs p : exists p' r, runs p p' r /\
  process_buffer p = Some (p', match r with Some n => n | None => -1 end).
Proof. apply process_loop_total. lia. Qed.

Lemma runs_deterministic p p1 r1 p2 r2 : runs p p1 r1 -> runs p p2 r2 -> p1 = p2 /\ r1 = r2.
Proof.
  assert (forall q, buffer_ q = [] -> iterate q = need_more) as He
    by (intros q Hq; unfold iterate; by rewrite Hq).
  intros H1. revert p2 r2. induction H1 as [p Hb|p Hi|p p' Hb Hi|p q n q' r Hb Hi Hr IH]; intros p2 r2 H2;
    inversion H2 as [? Hb'|? Hi'|? ? Hb' Hi'|? ? ? ? ? Hb' Hi' Hr']; subst; try done;
    try (rewrite (He _ Hb) in *); try (rewrite (He _ Hb') in *); try congruence; try (split; congruence).
  rewrite Hi in Hi'. injection Hi' as <- <-. by destruct (IH _ _ Hr') as [-> ->].
Qed.

(** ** Independence of the cutting into reads *)

Lemma runs_ext p p1 n e p2 r : runs p p1 (Some n) -> runs (ext e p1) p2 r ->
  runs (ext e p) p2 (option_map (Z.add n) r).
Proof.
  intros H. remember (Some n) as rn eqn:En. revert n En.
  induction H as [p Hb|p Hi|p p' Hb Hi|p q k q' rq Hb Hi Hr IH]; intros n En Hx; simplify_eq.
  - destruct r; [|done]. done.
  - destruct r; [|done]. done.
  - destruct rq as [m|]; [|done]. injection En as <-.
    specialize (IH m eq_refl Hx). apply (iterate_app_went_on _ _ _ e) in Hi.
    replace (option_map (Z.add (k + m)) r) with (option_map (Z.add k) (option_map (Z.add m) r))
      by (destruct r; simpl; [f_equal; lia|done]).
    apply (runs_step _ (ext e q) k); [|done|done]. simpl. destruct (buffer_ p); done.
Qed.

Lemma runs_ext_fail p p1 e : runs p p1 None -> runs (ext e p) (ext e p1) None.
Proof.
  intros H. remember None as rn eqn:En.
  induction H as [p Hb|p Hi|p p' Hb Hi|p q k q' rq Hb Hi Hr IH]; try done.
  - apply runs_fail; [simpl; destruct (buffer_ p); done|]. by apply iterate_app_failed.
  - destruct rq; [done|]. specialize (IH eq_refl). apply (iterate_app_went_on _ _ _ e) in Hi.
    apply (runs_step _ (ext e q) k _ None); [|done|done]. simpl. destruct (buffer_ p); done.
Qed.

Lemma parse_runs c p : c <> [] -> exists p' r, runs (ext c p) p' r /\
  parse c p = Some (p', match r with Some n => n | None => -1 end).
Proof.
  intros Hc. unfold parse. destruct c as [|b c]; [done|].
  rewrite zlen_cons, (proj2 (Z.eqb_neq _ _)) by (pose proof (zlen_nonneg c); lia). apply process_buffer_runs.
Qed.

Lemma parse_nil p : parse [] p = Some (p, 0).
Proof. done. Qed.

(** Two reads are one. *)
Lemma parse_app c1 c2 p p1 n1 : parse c1 p = Some (p1, n1) ->
  exists p2 n2, parse c2 p1 = Some (p2, n2) /\
    if n1 <? 0 then parse (c1 ++ c2) p = Some (ext c2 p1, -1)
    else parse (c1 ++ c2) p = Some (p2, if n2 <? 0 then n2 else n1 + n2).
Proof.
  intros E1. destruct c1 as [|b c1].
  { rewrite parse_nil in E1. injection E1 as <- <-. simpl.
    destruct c2 as [|b c2]; [by exists p, 0|]. destruct (parse_runs (b :: c2) p ltac:(done)) as (p2 & r & Hr & E).
    eexists _, _. split; [exact E|]. rewrite E. destruct r as [m|]; [|done]. by case_if. }
  destruct (parse_runs (b :: c1) p ltac:(done)) as (p' & r & Hr & E). rewrite E1 in E. injection E as <- ->.
  destruct c2 as [|b2 c2].
  { rewrite parse_nil, app_nil_r. exists p1, 0. split; [done|]. rewrite E1.
    unfold ext. rewrite app_nil_r, with_buffer_id. destruct r as [m|]; simpl; [|done].
    pose proof (runs_nonneg _ _ _ Hr). rewrite (proj2 (Z.ltb_ge m 0)) by lia. by rewrite Z.add_0_r. }
  destruct (parse_runs (b2 :: c2) p1 ltac:(done)) as (p2 & r2 & Hr2 & E2).
  eexists _, _. split; [exact E2|].
  destruct (parse_runs ((b :: c1) ++ b2 :: c2) p ltac:(done)) as (p3 & r3 & Hr3 & E3).
  rewrite <-ext_ext in Hr3. rewrite E3. destruct r as [m|]; simpl.
  - pose proof (runs_nonneg _ _ _ Hr). rewrite (proj2 (Z.ltb_ge m 0)) by lia.
    destruct (runs_deterministic _ _ _ _ _ Hr3 (runs_ext _ _ _ _ _ _ Hr Hr2)) as [-> ->].
    destruct r2 as [k|]; simpl; [|done]. pose proof (runs_nonneg _ _ _ Hr2).
    by rewrite (proj2 (Z.ltb_ge k 0)) by lia.
  - by destruct (runs_deterministic _ _ _ _ _ Hr3 (runs_ext_fail _ _ (b2 :: c2) Hr)) as [-> ->].
Qed.

(** ** The invariant *)

Lemma queued_push_message evs p : queued evs p -> queued (evs ++ [inl (current_message_ p)]) (push_message p).
Proof. intros (H1 & H2 & H3). unfold queued. simpl. rewrite !omap_app, map_app, H1, H2, H3. simpl. by rewrite app_nil_r. Qed.

Lemma queued_push_control evs o pl p : queued evs p -> queued (evs ++ [inr (o, pl)]) (push_control o pl p).
Proof. intros (H1 & H2 & H3). unfold queued. simpl. rewrite !omap_app, map_app, H1, H2, H3. simpl. by rewrite app_nil_r. Qed.

Lemma opcode_data o : opcode_ok o -> is_control_frame o = false -> o <> op_continuation -> o = op_text \/ o = op_binary.
Proof.
  intros [Ho Hv] Hc Hn. unfold is_valid_opcode, is_control_frame, op_continuation, op_text, op_binary in *.
  apply orb_true_iff in Hv as [Hv|Hv]; zbool; lia.
Qed.

(** The size check on the header bounds the message after the frame. *)
Lemma header_error_none p h : header_error p h = None -> is_control_frame (op h) = false ->
  (op h = op_continuation -> has_initial_frame_ p = true) /\
  (op h <> op_continuation -> has_initial_frame_ p = false) /\
  (0 < max_message_size_ p -> zlen (data (current_message_ p)) + payload_len h <= max_message_size_ p).
Proof.
  unfold header_error. intros He Hc. rewrite Hc in He.
  destruct (role_ p), (masked h); try done;
    repeat (case_if; [done|]); destruct (op h =? op_continuation) eqn:Eo, (has_initial_frame_ p); zbool; try done;
    (split_and!; [done|done|]); intros Hm;
    destruct (0 <? max_message_size_ p) eqn:E0; zbool; try lia;
    match goal with H : (true && _)%bool = false |- _ => simpl in H; apply orb_false_iff in H as [? ?] end; zbool; lia.
Qed.

Lemma zlen_extract_payload h hs d : 0 <= hs -> 0 <= payload_len h -> hs + payload_len h <= zlen d ->
  zlen (extract_payload h hs d) = payload_len h.
Proof.
  intros H1 H2 H3. unfold extract_payload, zlen in *. cbv zeta. case_if; rewrite ?length_apply_mask, length_take, length_drop; lia.
Qed.

Lemma parser_ok_buffer b p : parser_ok p -> parser_ok (with_buffer b p).
Proof. intros []. by split. Qed.

Lemma parser_ok_fail e c p : parser_ok p -> parser_ok (fail e c p).
Proof. intros []. by split. Qed.

(** The message under construction after a data frame. *)
Definition started (p : parser) (h : frame_header) (pl : list byte) : message :=
  if op h =? op_continuation then Message (type (current_message_ p)) (data (current_message_ p) ++ pl)
  else Message (op h) pl.

Lemma process_frame_data p h pl : is_control_frame (op h) = false -> header_error p h = None ->
  process_frame p h pl =
    let p := with_current (started p h pl) true p in
    if fin h then
      if (type (current_message_ p) =? op_text) && negb (is_valid_utf8 (data (current_message_ p)))
      then inr (fail Text_message_contains_invalid_UTF8 close_invalid_data p)
      else inl (push_message p)
    else inl p.
Proof.
  intros Hc He. destruct (header_error_none p h He Hc) as (H1 & H2 & _).
  unfold process_frame, started. rewrite Hc. cbv zeta.
  destruct (op h =? op_continuation) eqn:Eo; zbool; simpl; [|done]. rewrite (H1 Eo). done.
Qed.

Lemma started_ok p h pl : parser_ok p -> opcode_ok (op h) -> is_control_frame (op h) = false ->
  header_error p h = None -> zlen pl = payload_len h ->
  (type (started p h pl) = op_text \/ type (started p h pl) = op_binary) /\
  (0 < max_message_size_ p -> zlen (data (started p h pl)) <= max_message_size_ p).
Proof.
  intros Hp Ho Hc He Hl. destruct (header_error_none p h He Hc) as (H1 & H2 & H3). unfold started.
  destruct (op h =? op_continuation) eqn:Eo; zbool; simpl.
  - split; [apply (current_type p Hp), H1, Eo|]. rewrite zlen_app, Hl. done.
  - split; [by apply opcode_data|]. rewrite Hl. intros Hm. specialize (H3 Hm).
    pose proof (zlen_nonneg (data (current_message_ p))). lia.
Qed.

Lemma process_frame_ok p h hs fs pl : parser_ok p -> header_shape h hs fs -> header_error p h = None ->
  zlen pl = payload_len h ->
  match process_frame p h pl with inl p' | inr p' => parser_ok p' end.
Proof.
  intros Hp (Hhs & Hlen & Hfs & Hctl & Ho) He Hl. destruct (is_control_frame (op h)) eqn:Hc.
  - unfold process_frame. rewrite Hc. destruct Hp as [? ? ? ? (evs & Hq & Hf)]. split; try done.
    exists (evs ++ [inr (op h, pl)]). split; [by apply queued_push_control|].
    apply Forall_app. split; [done|]. constructor; [|done]. split; [done|]. simpl. destruct (Hctl eq_refl). lia.
  - rewrite process_frame_data by done. cbv zeta. destruct (started_ok p h pl) as [Ht Hs]; [done..|].
    destruct Hp as [? ? ? ? (evs & Hq & Hf)].
    assert (parser_ok (with_current (started p h pl) true p)) as Hp'
      by (split; simpl; try done; by exists evs).
    destruct (fin h); [|done]. case_if; [by apply parser_ok_fail|].
    split; try done. exists (evs ++ [inl (started p h pl)]). split; [by apply (queued_push_message evs (with_current _ true p))|].
    apply Forall_app. split; [done|]. constructor; [|done]. split_and!; [done| |done].
    intros Et. simpl in Heqb. rewrite Et in Heqb. simpl in Heqb. by zbool.
Qed.

Lemma iterate_ok p : parser_ok p ->
  match iterate p with need_more => True | failed p' => parser_ok p' | went_on p' _ => parser_ok p' end.
Proof.
  intros Hp. unfold iterate. destruct (parse_frame_header (buffer_ p)) as [| |h hs fs] eqn:Eh; [done|by apply parser_ok_fail|].
  pose proof (parse_frame_header_shape _ _ _ _ Eh) as Hs.
  destruct (header_error p h) as [[e c]|] eqn:Ee; [by apply parser_ok_fail|]. case_if; [done|]. zbool.
  pose proof Hs as (Hhs & Hlen & Hfs & _).
  pose proof (process_frame_ok p h hs fs (extract_payload h hs (buffer_ p)) Hp Hs Ee) as Hk.
  rewrite zlen_extract_payload in Hk by lia. specialize (Hk eq_refl).
  destruct (process_frame p h _); [by apply parser_ok_buffer|done].
Qed.

Lemma runs_ok p p' r : runs p p' r -> parser_ok p -> parser_ok p'.
Proof.
  induction 1 as [| |p p' Hb Hi|p q k q' rq Hb Hi Hr IH]; intros Hp; try done.
  - pose proof (iterate_ok p Hp) as H. by rewrite Hi in H.
  - apply IH. pose proof (iterate_ok p Hp) as H. by rewrite Hi in H.
Qed.

Lemma iterate_buffer_max p p' n : iterate p = went_on p' n -> max_message_size_ p' = max_message_size_ p.
Proof.
  intros (h & hs & p1 & _ & _ & _ & _ & Ep & ->)%iterate_went_on. simpl.
  revert Ep. unfold process_frame. cbv zeta. repeat case_if; intros; simplify_eq; done.
Qed.

(** An incomplete header is shorter than 14 bytes. *)
Lemma incomplete_short d : parse_frame_header d = incomplete -> zlen d < 14.
Proof.
  assert (forall fn o m len hs, hs <= 10 -> finish_header d fn o m len hs = incomplete -> zlen d < 14) as Hf.
  { intros fn o m len hs Hhs. unfold finish_header. repeat (case_if; try done). zbool. lia. }
  unfold parse_frame_header. cbv zeta. intros H. revert H.
  repeat (case_if; try done); zbool; try lia; apply Hf; lia.
Qed.

Lemma need_more_bounded p : parser_ok p -> 0 < max_message_size_ p -> iterate p = need_more ->
  zlen (buffer_ p) < max_buffered p.
Proof.
  intros Hp Hm. unfold iterate, max_buffered.
  destruct (parse_frame_header (buffer_ p)) as [| |h hs fs] eqn:Eh; [|done|].
  { apply incomplete_short in Eh. lia. }
  pose proof (parse_frame_header_shape _ _ _ _ Eh) as (Hhs & Hlen & -> & Hctl & Ho).
  destruct (header_error p h) as [[e c]|] eqn:Ee; [done|].
  destruct (zlen (buffer_ p) <? hs + payload_len h) eqn:E; [|by destruct (process_frame _ _ _)]. intros _. zbool.
  destruct (is_control_frame (op h)) eqn:Hc; [destruct (Hctl eq_refl); lia|].
  destruct (header_error_none p h Ee Hc) as (_ & _ & H3). specialize (H3 Hm).
  pose proof (zlen_nonneg (data (current_message_ p))). lia.
Qed.

Lemma runs_bounded p p' n : runs p p' (Some n) -> parser_ok p -> 0 < max_message_size_ p ->
  max_message_size_ p' = max_message_size_ p /\ zlen (buffer_ p') < max_buffered p'.
Proof.
  intros H. remember (Some n) as r eqn:Er. revert n Er.
  induction H as [p Hb|p Hi|p p' Hb Hi|p q k q' rq Hb Hi Hr IH]; intros n Er Hp Hm; simplify_eq.
  - split; [done|]. rewrite Hb. unfold max_buffered. change (zlen []) with 0. lia.
  - split; [done|]. by apply need_more_bounded.
  - destruct rq as [m|]; [|done]. pose proof (iterate_ok p Hp) as Hq. rewrite Hi in Hq.
    rewrite <-(iterate_buffer_max _ _ _ Hi) in *. by apply (IH m).
Qed.

(** ** The queues *)

Lemma get_next_message_ok evs p : queued evs p ->
  match evs with
  | inl m :: evs' => exists p', get_next_message p = (Some m, p') /\ queued evs' p'
  | _ => get_next_message p = (None, p)
  end.
Proof.
  intros (H1 & H2 & H3). unfold get_next_message, next_frame_is_message. rewrite H3.
  destruct evs as [|[m|c] evs]; simpl in *; [done| |done]. rewrite H1. eexists. split; [done|].
  unfold queued. simpl. by rewrite H2, ?H3.
Qed.

Lemma get_next_control_ok evs p : queued evs p ->
  match evs with
  | inr c :: evs' => exists p', get_next_control_frame p = (Some c, p') /\ queued evs' p'
  | _ => get_next_control_frame p = (None, p)
  end.
Proof.
  intros (H1 & H2 & H3). unfold get_next_control_frame, next_frame_is_control_frame. rewrite H3.
  destruct evs as [|[m|c] evs]; simpl in *; [done|done|]. rewrite H2. eexists. split; [done|].
  unfold queued. simpl. by rewrite H1, ?H3.
Qed.

Lemma first_message evs : match omap as_message evs with
  | [] => Forall (fun e => as_message e = None) evs
  | m :: ms => exists e1 e2, evs = e1 ++ inl m :: e2 /\ Forall (fun e => as_message e = None) e1 /\
      ms = omap as_message (e1 ++ e2) /\ omap as_control evs = omap as_control (e1 ++ e2) /\
      remove_first_queued_kind kind_message (map kind_of evs) = map kind_of (e1 ++ e2)
  end.
Proof.
  induction evs as [|[m|c] evs IH]; [constructor| |].
  - by exists [], evs.
  - change (omap as_message (inr c :: evs)) with (omap as_message evs).
    destruct (omap as_message evs) as [|m ms]; [by constructor|].
    destruct IH as (e1 & e2 & -> & Hf & -> & Hc & Hk). exists (inr c :: e1), e2.
    split_and!; [done|by constructor|done|exact (f_equal (cons c) Hc)|exact (f_equal (cons kind_control) Hk)].
Qed.

Lemma first_control evs : match omap as_control evs with
  | [] => Forall (fun e => as_control e = None) evs
  | c :: cs => exists e1 e2, evs = e1 ++ inr c :: e2 /\ Forall (fun e => as_control e = None) e1 /\
      cs = omap as_control (e1 ++ e2) /\ omap as_message evs = omap as_message (e1 ++ e2) /\
      remove_first_queued_kind kind_control (map kind_of evs) = map kind_of (e1 ++ e2)
  end.
Proof.
  induction evs as [|[m|c] evs IH]; [constructor| |].
  - change (omap as_control (inl m :: evs)) with (omap as_control evs).
    destruct (omap as_control evs) as [|c cs]; [by constructor|].
    destruct IH as (e1 & e2 & -> & Hf & -> & Hc & Hk). exists (inl m :: e1), e2.
    split_and!; [done|by constructor|done|exact (f_equal (cons m) Hc)|exact (f_equal (cons kind_message) Hk)].
  - exists [], evs. done.
Qed.

(** [get_message] takes the oldest message out, [get_control_frame] the oldest control
    frame; the others keep their order. *)
Lemma get_message_ok evs p : queued evs p ->
  match get_message p with
  | (Some m, p') => exists e1 e2, evs = e1 ++ inl m :: e2 /\ Forall (fun e => as_message e = None) e1 /\ queued (e1 ++ e2) p'
  | (None, p') => p' = p /\ Forall (fun e => as_message e = None) evs
  end.
Proof.
  intros (H1 & H2 & H3). unfold get_message. pose proof (first_message evs) as Hf. rewrite H1.
  destruct (omap as_message evs) as [|m ms]; [done|]. destruct Hf as (e1 & e2 & E & Hn & Hms & Hc & Hk).
  exists e1, e2. split; [done|]. split; [done|]. unfold queued. simpl. by rewrite Hms, H2, H3, Hc, Hk.
Qed.

Lemma get_control_ok evs p : queued evs p ->
  match get_control_frame p with
  | (Some c, p') => exists e1 e2, evs = e1 ++ inr c :: e2 /\ Forall (fun e => as_control e = None) e1 /\ queued (e1 ++ e2) p'
  | (None, p') => p' = p /\ Forall (fun e => as_control e = None) evs
  end.
Proof.
  intros (H1 & H2 & H3). unfold get_control_frame. pose proof (first_control evs) as Hf. rewrite H2.
  destruct (omap as_control evs) as [|c cs]; [done|]. destruct Hf as (e1 & e2 & E & Hn & Hcs & Hm & Hk).
  exists e1, e2. split; [done|]. split; [done|]. unfold queued. simpl. by rewrite Hcs, H1, H3, Hm, Hk.
Qed.

(** ** Delivery *)

Lemma length_used_key fresh h : length fresh = 4%nat -> length (mask_key h) = 4%nat -> length (used_key fresh h) = 4%nat.
Proof. intros. unfold used_key. by case_if. Qed.

(** The bytes of an encoded frame: its header, then its payload, masked with the key sent. *)
Lemma enc_bytes role f : frame_wf role f ->
  enc f = header_bytes (hdr_in f) (hdr_key f) (zlen (w_payload f)) ++
          (if w_mask f then apply_mask (w_payload f) (hdr_key f) 0 else w_payload f).
Proof.
  intros []. unfold enc, encode_frame, header_bytes. cbn [op fin masked hdr_in].
  destruct (is_control_frame (w_op f)) eqn:Ec.
  - destruct (wf_control0 eq_refl) as [-> Hl]. simpl. rewrite (proj2 (Z.ltb_ge _ _)) by lia.
    rewrite <-app_assoc. by destruct (w_mask f).
  - simpl. rewrite <-app_assoc. by destruct (w_mask f).
Qed.

Lemma iterate_encoded role f p rest : frame_wf role f -> buffer_ p = enc f ++ rest -> header_error p (hdr_out f) = None ->
  iterate p = match process_frame p (hdr_out f) (w_payload f) with
              | inl p1 => went_on (with_buffer rest p1) (zlen (enc f))
              | inr p1 => failed p1
              end.
Proof.
  intros Hf Eb He. pose proof (enc_bytes role f Hf) as Ee. destruct Hf.
  set (body := if w_mask f then _ else _) in Ee.
  assert (zlen body = zlen (w_payload f)) as Hb by (unfold body, zlen; case_if; by rewrite ?length_apply_mask).
  assert (length (hdr_key f) = 4%nat) as Hk by (by apply length_used_key).
  unfold iterate. rewrite Eb, Ee, <-app_assoc.
  rewrite (parse_encoded_header (hdr_in f) (hdr_key f) (zlen (w_payload f)))
    by (done || (split; [apply zlen_nonneg|done])). cbv zeta. fold (hdr_out f). rewrite He.
  set (hb := header_bytes (hdr_in f) (hdr_key f) (zlen (w_payload f))) in *.
  rewrite !zlen_app, Hb, (proj2 (Z.ltb_ge _ _)) by (pose proof (zlen_nonneg rest); lia).
  assert (extract_payload (hdr_out f) (zlen hb) (hb ++ body ++ rest) = w_payload f) as ->.
  { unfold extract_payload. cbn [payload_len masked mask_key hdr_out parsed_header hdr_in].
    rewrite <-Hb. unfold zlen. rewrite !Nat2Z.id, drop_app_length, take_app_length. unfold body.
    destruct (w_mask f); [apply apply_mask_involutive|done]. }
  pose proof (process_frame_keeps p (hdr_out f) (w_payload f)) as Hkeep.
  destruct (process_frame p (hdr_out f) (w_payload f)) as [p1|p1]; [|done].
  rewrite Hkeep, Eb, Ee, <-app_assoc. f_equal. f_equal. rewrite app_assoc.
  replace (Z.to_nat (zlen hb + zlen (w_payload f))) with (length (hb ++ body))
    by (rewrite length_app; unfold zlen in *; lia). apply drop_app_length.
Qed.

(** Processing a sequence of frames without an error. *)
Inductive feeds : parser -> list wframe -> parser -> Prop :=
| feeds_nil p : feeds p [] p
| feeds_cons p f fs p1 p2 : header_error p (hdr_out f) = None ->
    process_frame p (hdr_out f) (w_payload f) = inl p1 -> feeds p1 fs p2 -> feeds p (f :: fs) p2.

Lemma enc_nonempty role f : frame_wf role f -> enc f <> [].
Proof. intros Hf. by rewrite (enc_bytes role f Hf). Qed.

Lemma runs_feeds role fs p p' : feeds p fs p' -> Forall (frame_wf role) fs ->
  runs (with_buffer (concat (map enc fs)) p) (with_buffer [] p') (Some (zlen (concat (map enc fs)))).
Proof.
  induction 1 as [p|p f fs p1 p2 He Ep Hfs IH]; intros Hwf; [by constructor|].
  inversion Hwf as [|? ? Hf Hwf']; subst. cbn [map concat]. rewrite zlen_app.
  set (rest := concat (map enc fs)) in *. pose proof (enc_nonempty role f Hf) as Hne.
  change (Some (zlen (enc f) + zlen rest)) with (option_map (Z.add (zlen (enc f))) (Some (zlen rest))).
  apply (runs_step _ (with_buffer rest p1)); [simpl; by destruct (enc f)| |by apply IH].
  rewrite (iterate_encoded role f _ rest) by done. by rewrite process_frame_buffer, Ep.
Qed.

Lemma feeds_nil_inv p p' : feeds p [] p' -> p' = p.
Proof. inversion 1. done. Qed.

Lemma feeds_app p fs1 p1 fs2 p2 : feeds p fs1 p1 -> feeds p1 fs2 p2 -> feeds p (fs1 ++ fs2) p2.
Proof. induction 1; intros; simpl; [done|]. econstructor; eauto. Qed.

Lemma push_events_app e1 e2 p : push_events e2 (push_events e1 p) = push_events (e1 ++ e2) p.
Proof. unfold push_events, with_queues. simpl. by rewrite !omap_app, map_app, !app_assoc. Qed.

Lemma push_events_nil p : push_events [] p = p.
Proof. destruct p. unfold push_events, with_queues. simpl. by rewrite !app_nil_r. Qed.

(** A parser between messages. *)
Definition idle (p : parser) : Prop := has_initial_frame_ p = false /\ current_message_ p = empty_message.

(** Inside a message of type [o] of which [acc] has arrived, or between messages. *)
Definition inside (m : option message) (p : parser) : parser :=
  match m with Some m => with_current m true p | None => p end.

Lemma header_error_mask role p f : role_ p = role -> frame_wf role f ->
  header_error p (hdr_out f) =
    if is_control_frame (w_op f) then None
    else if (w_op f =? op_continuation) && negb (has_initial_frame_ p)
           then Some (Continuation_frame_without_initial_frame, close_protocol_error)
      else if negb (w_op f =? op_continuation) && has_initial_frame_ p
           then Some (New_message_started_before_previous_completed, close_protocol_error)
      else if (0 <? max_message_size_ p) &&
              ((max_message_size_ p <? zlen (data (current_message_ p))) ||
               (max_message_size_ p - zlen (data (current_message_ p)) <? zlen (w_payload f)))
           then Some (Message_exceeds_maximum_size, close_too_large)
      else None.
Proof.
  intros Hr []. unfold header_error. cbn [masked op payload_len hdr_out parsed_header hdr_in]. rewrite Hr.
  destruct role; [by destruct (w_mask f)|by rewrite wf_mask0|by rewrite wf_mask0].
Qed.

Lemma feed_controls role m p ctls fs : role_ p = role -> map shape fs = map ctl_shape ctls ->
  Forall (frame_wf role) fs -> Forall (fun c => is_control_frame c.1 = true) ctls ->
  feeds (inside m p) fs (inside m (push_events (map inr ctls) p)).
Proof.
  intros Hr E Hwf Hc. revert ctls E Hc p Hr. induction Hwf as [|f fs Hf Hwf IH]; intros [|[o pl] ctls] E Hc p Hr; try done.
  { simpl. rewrite push_events_nil. constructor. }
  simpl in E. unfold shape, ctl_shape in E. simpl in E. injection E as Efin Eop Epl E. inversion Hc as [|? ? Ho Hc']; subst. simpl in Ho.
  econstructor.
  - rewrite (header_error_mask (role_ p)) by (by destruct m). by rewrite Ho.
  - unfold process_frame. cbn [op hdr_out parsed_header hdr_in]. rewrite Ho. reflexivity.
  - assert (push_control (w_op f) (w_payload f) (inside m p) = inside m (push_events [inr (w_op f, w_payload f)] p)) as ->
      by (destruct m; unfold push_events, push_control, with_queues, with_current; simpl; by rewrite app_nil_r).
    cbn [map]. change (inr (w_op f, w_payload f) :: map inr ctls) with ([inr (w_op f, w_payload f) : event] ++ map inr ctls).
    rewrite <-push_events_app. by apply IH.
Qed.

(** The state [m] of the message in progress and the opcode [oo] its next part is sent with. *)
Definition progress_of (o : Z) (acc : list byte) (m : option message) (oo : Z) : Prop :=
  (m = None /\ oo = o /\ acc = []) \/ (m = Some (Message o acc) /\ oo = op_continuation).

Lemma data_opcode max o d : message_ok max (Message o d) -> is_control_frame o = false /\ o <> op_continuation.
Proof. intros [[Ht|Ht] _]; simpl in Ht; subst; done. Qed.

(** One part of a message. *)
Lemma feed_part role p o acc m oo f more : role_ p = role -> idle p -> frame_wf role f -> w_op f = oo ->
  progress_of o acc m oo -> message_ok (max_message_size_ p) (Message o (acc ++ w_payload f ++ more)) ->
  (w_fin f = true -> more = []) ->
  header_error (inside m p) (hdr_out f) = None /\
  process_frame (inside m p) (hdr_out f) (w_payload f) =
    inl (if w_fin f then push_events [inl (Message o (acc ++ w_payload f))] p
         else inside (Some (Message o (acc ++ w_payload f))) p).
Proof.
  intros Hr [Hi Hcur] Hf Eop Hprog Hok Hlast. pose proof (data_opcode _ _ _ Hok) as [Hnc Hnk].
  assert (is_control_frame oo = false) as Hcf by (destruct Hprog as [(_ & -> & _)|[_ ->]]; done).
  assert (header_error (inside m p) (hdr_out f) = None) as He.
  { rewrite (header_error_mask role) by (done || by destruct m). rewrite Eop, Hcf.
    assert (has_initial_frame_ (inside m p) = (oo =? op_continuation) /\ zlen (data (current_message_ (inside m p))) = zlen acc)
      as [-> ->].
    { destruct Hprog as [(-> & -> & ->)|[-> ->]]; simpl; [|done]. rewrite Hcur, Hi, (proj2 (Z.eqb_neq o _)) by done. done. }
    destruct (oo =? op_continuation); simpl;
      (destruct (0 <? max_message_size_ (inside m p)) eqn:E0; [|done]); zbool;
      destruct Hok as (_ & _ & Hmax); simpl in Hmax; rewrite !zlen_app in Hmax;
      assert (max_message_size_ (inside m p) = max_message_size_ p) as Em by (by destruct m);
      rewrite Em in *; specialize (Hmax E0); pose proof (zlen_nonneg more); pose proof (zlen_nonneg (w_payload f));
      rewrite !(proj2 (Z.ltb_ge _ _)) by lia; done. }
  split; [done|]. rewrite process_frame_data by (done || (cbn [op hdr_out parsed_header hdr_in]; by rewrite Eop)). cbv zeta.
  assert (started (inside m p) (hdr_out f) (w_payload f) = Message o (acc ++ w_payload f)) as ->.
  { unfold started. cbn [op hdr_out parsed_header hdr_in]. rewrite Eop.
    destruct Hprog as [(-> & -> & ->)|[-> ->]]; [|done]. by rewrite (proj2 (Z.eqb_neq o _)). }
  cbn [fin hdr_out parsed_header hdr_in]. destruct (w_fin f); [|by destruct m].
  rewrite (Hlast eq_refl), app_nil_r in Hok. destruct Hok as (_ & Hutf & _). simpl in *.
  destruct (o =? op_text) eqn:Et; zbool; [rewrite (Hutf Et)|]; simpl; f_equal;
    unfold push_message, push_events, with_queues; simpl; rewrite !app_nil_r; destruct m; simpl; by rewrite Hi, Hcur.
Qed.

Lemma idle_push evs p : idle p -> idle (push_events evs p).
Proof. done. Qed.

Lemma feed_parts role p o acc m oo parts fs : role_ p = role -> idle p -> parts <> [] ->
  map shape fs = part_frames oo parts -> Forall (frame_wf role) fs -> progress_of o acc m oo ->
  Forall (fun c => is_control_frame c.1 = true) (concat (map fst parts)) ->
  message_ok (max_message_size_ p) (Message o (acc ++ concat (map snd parts))) ->
  feeds (inside m p) fs
    (push_events (map inr (concat (map fst parts)) ++ [inl (Message o (acc ++ concat (map snd parts)))]) p).
Proof.
  revert p acc m oo fs. induction parts as [|[ctls pl] parts IH]; intros p acc m oo fs Hr Hi Hne E Hwf Hprog Hc Hok; [done|].
  cbn [part_frames map concat fst snd] in *. apply map_eq_app in E as (fs1 & fs2 & -> & E1 & E2).
  destruct fs2 as [|f fs2]; [done|]. cbn [map] in E2. unfold shape at 1 in E2. injection E2 as Efin Eop Epl E2.
  apply Forall_app in Hwf as [Hwf1 Hwf2]. inversion Hwf2 as [|? ? Hf Hwf3]; subst. apply Forall_app in Hc as [Hc1 Hc2].
  eapply feeds_app; [by apply (feed_controls (role_ p) m p ctls)|].
  set (p1 := push_events (map inr ctls) p).
  destruct (feed_part (role_ p) p1 o acc m (w_op f) f (concat (map snd parts))) as [He Ep]; try done.
  { intros Hfin. rewrite Hfin in Efin. by destruct parts. }
  rewrite map_app, <-app_assoc, <-push_events_app. fold p1.
  econstructor; [exact He|exact Ep|]. rewrite Efin. destruct parts as [|part parts].
  - destruct fs2; [|done]. cbn [map concat]. rewrite app_nil_r. constructor.
  - rewrite app_assoc. apply (IH p1 (acc ++ w_payload f) (Some (Message o (acc ++ w_payload f))) op_continuation); try done.
    + by right.
    + by rewrite <-app_assoc.
Qed.

Lemma feed_items role p items fs : role_ p = role -> idle p ->
  map shape fs = concat (map item_frames items) -> Forall (frame_wf role) fs ->
  Forall (item_ok (max_message_size_ p)) items ->
  feeds p fs (push_events (concat (map item_events items)) p).
Proof.
  intros Hr Hi E Hwf Hok. revert fs p Hr Hi E Hwf Hok.
  induction items as [|i items IH]; intros fs p Hr Hi E Hwf Hok; cbn [map concat] in *.
  { destruct fs; [|done]. rewrite push_events_nil. constructor. }
  apply map_eq_app in E as (fs1 & fs2 & -> & E1 & E2). apply Forall_app in Hwf as [Hwf1 Hwf2].
  inversion Hok as [|? ? Hi0 Hok']; subst. rewrite <-push_events_app.
  apply (feeds_app _ _ (push_events (item_events i) p)); [|by apply IH].
  destruct i as [o pl|o parts]; cbn [item_frames item_events] in *.
  - apply (feed_controls (role_ p) None p [(o, pl)]); [done|done|done|by constructor].
  - destruct Hi0 as (Hne & Hc & Hm). apply (feed_parts (role_ p) p o [] None o); try done. by left.
Qed.

(** ** Calls *)

Lemma new_parser_ok max role : 0 <= max -> parser_ok (new_parser max role).
Proof. intros. split; simpl; try done. exists []. split; [by split|done]. Qed.

Lemma parser_ok_queues evs ms cs qs p : parser_ok p -> queued evs (with_queues ms cs qs p) ->
  Forall (event_ok (max_message_size_ p)) evs -> parser_ok (with_queues ms cs qs p).
Proof. intros [] Hq Hf. split; try done. by exists evs. Qed.

Lemma Forall_remove {A} (P : A -> Prop) e1 x e2 : Forall P (e1 ++ x :: e2) -> Forall P (e1 ++ e2).
Proof. rewrite !Forall_app, Forall_cons. tauto. Qed.

Lemma run_call_ok c p : parser_ok p -> exists p', run_call c p = Some p' /\ parser_ok p'.
Proof.
  intros Hp. pose proof (queues_ok p Hp) as (evs & Hq & Hf). destruct c as [i| | | | |]; simpl.
  - destruct i as [|b i]; [by exists p|]. destruct (parse_runs (b :: i) p ltac:(done)) as (p' & r & Hr & ->).
    exists p'. split; [done|]. by apply (runs_ok _ _ _ Hr), parser_ok_buffer.
  - eexists. split; [done|]. pose proof (get_message_ok evs p Hq) as H. unfold get_message in *.
    destruct (messages_ p); [done|]. destruct H as (e1 & e2 & -> & _ & H).
    eapply parser_ok_queues; [done|exact H|by eapply Forall_remove].
  - eexists. split; [done|]. pose proof (get_control_ok evs p Hq) as H. unfold get_control_frame in *.
    destruct (control_frames_ p); [done|]. destruct H as (e1 & e2 & -> & _ & H).
    eapply parser_ok_queues; [done|exact H|by eapply Forall_remove].
  - eexists. split; [done|]. pose proof (get_next_message_ok evs p Hq) as H.
    destruct evs as [|[m|c] evs]; [by rewrite H| |by rewrite H]. destruct H as (p' & E & H). rewrite E. simpl.
    unfold get_next_message in E. case_if; [done|]. destruct (messages_ p); [done|]. injection E as <- <-.
    eapply parser_ok_queues; [done|exact H|by eapply Forall_inv_tail].
  - eexists. split; [done|]. pose proof (get_next_control_ok evs p Hq) as H.
    destruct evs as [|[m|c] evs]; [by rewrite H|by rewrite H|]. destruct H as (p' & E & H). rewrite E. simpl.
    unfold get_next_control_frame in E. case_if; [done|]. destruct (control_frames_ p); [done|]. injection E as <- <-.
    eapply parser_ok_queues; [done|exact H|by eapply Forall_inv_tail].
  - eexists. split; [done|]. apply new_parser_ok, Hp.
Qed.

Lemma parse_total c p : exists p' n, parse c p = Some (p', n).
Proof.
  destruct c as [|b c]; [by exists p, 0|]. destruct (parse_runs (b :: c) p ltac:(done)) as (p' & r & _ & ->). by eexists _, _.
Qed.

Lemma parse_all_total cs p : exists p' n, parse_all cs p = Some (p', n).
Proof.
  revert p. induction cs as [|c cs IH]; intros p; simpl; [by exists p, 0|].
  destruct (parse_total c p) as (p1 & n & ->). case_if; [by eexists _, _|].
  destruct (IH p1) as (p2 & m & ->). by eexists _, _.
Qed.

(** A failing sequence of reads leaves what follows unread, nothing else. *)
Lemma parse_all_whole cs p p' n : parse_all cs p = Some (p', n) ->
  if n <? 0 then exists e, parse (concat cs) p = Some (ext e p', n) else parse (concat cs) p = Some (p', n).
Proof.
  revert p p' n. induction cs as [|c cs IH]; intros p p' n; cbn [parse_all concat]; [by intros [= <- <-]|].
  destruct (parse c p) as [[p1 n1]|] eqn:E1; [|done].
  destruct (parse_app c (concat cs) p p1 n1 E1) as (p2 & n2 & E2 & Happ).
  destruct (n1 <? 0) eqn:En1.
  - intros [= <- <-]. rewrite En1. exists (concat cs).
    assert (n1 = -1) as ->; [|done]. zbool. destruct c as [|b c]; [rewrite parse_nil in E1; simplify_eq; lia|].
    destruct (parse_runs (b :: c) p ltac:(done)) as (q & r & Hr & E). rewrite E1 in E. injection E as <- ->.
    destruct r as [k|]; [|done]. pose proof (runs_nonneg _ _ _ Hr). lia.
  - destruct (parse_all cs p1) as [[p3 m]|] eqn:E3; [|done]. intros [= <- <-]. apply IH in E3.
    destruct (m <? 0) eqn:Em.
    + rewrite Em. destruct E3 as (e & E3). rewrite E2 in E3. injection E3 as -> ->. rewrite Em in Happ. by exists e.
    + rewrite E2 in E3. injection E3 as -> ->. rewrite Em in Happ. zbool.
      rewrite (proj2 (Z.ltb_ge _ 0)) by lia. done.
Qed.

(** A parser reads what a conforming peer writes. *)
Lemma parse_items max role items frames : map shape frames = concat (map item_frames items) -> Forall (frame_wf role) frames -> Forall (item_ok max) items ->
  parse (concat (map enc frames)) (new_parser max role) =
    Some (push_events (concat (map item_events items)) (new_parser max role), zlen (concat (map enc frames))).
Proof.
  intros E Hwf Hok. set (p := new_parser max role).
  pose proof (feed_items role p items frames eq_refl (conj eq_refl eq_refl) E Hwf Hok) as Hfeed.
  pose proof (runs_feeds role frames p _ Hfeed Hwf) as Hr.
  destruct (concat (map enc frames)) as [|b l] eqn:Eb.
  - destruct frames as [|f frames].
    + assert (p = push_events (concat (map item_events items)) p) as E0 by (symmetry; by apply feeds_nil_inv).
      rewrite parse_nil. change (zlen (@nil byte)) with 0. congruence.
    + inversion Hwf; subst. cbn [map concat] in Eb. apply app_eq_nil in Eb as [Eb _]. by destruct (enc_nonempty role f).
  - destruct (parse_runs (b :: l) p ltac:(done)) as (p' & r & Hr' & ->). change (ext (b :: l) p) with (with_buffer (b :: l) p) in Hr'.
    by destruct (runs_deterministic _ _ _ _ _ Hr' Hr) as [-> ->].
Qed.

(** Only a failing call raises the error. *)
Lemma runs_no_error p p' n : runs p p' (Some n) -> has_error_ p' = has_error_ p.
Proof.
  intros H. remember (Some n) as r eqn:Er. revert n Er. induction H as [| |p p' Hb Hi|p q k q' rq Hb Hi Hr IH]; intros n Er; try done.
  destruct rq as [m|]; [|done]. rewrite (IH m eq_refl). apply iterate_went_on in Hi as (h & hs & p1 & _ & _ & _ & _ & Ep & ->). cbn [has_error_ with_buffer].
  unfold process_frame in Ep. cbv zeta in Ep. repeat case_match; simplify_eq; done.
Qed.

(** What has arrived of it is accepted, and the rest completes it. *)
Lemma parse_items_split max role items frames c1 c2 : map shape frames = concat (map item_frames items) -> Forall (frame_wf role) frames -> Forall (item_ok max) items ->
  c1 ++ c2 = concat (map enc frames) ->
  exists p n m, parse c1 (new_parser max role) = Some (p, n) /\ 0 <= n /\ has_error_ p = false /\
    parse c2 p = Some (push_events (concat (map item_events items)) (new_parser max role), m) /\ 0 <= m.
Proof.
  intros E Hwf Hok Hc. pose proof (parse_items max role items frames E Hwf Hok) as Ep. pose proof (zlen_nonneg (concat (map enc frames))) as Hz. rewrite <-Hc in Ep, Hz.
  destruct (parse_total c1 (new_parser max role)) as (p & n & E1). exists p, n. destruct (parse_app c1 c2 _ p n E1) as (p2 & m & E2 & Happ). exists m.
  destruct (n <? 0) eqn:En; zbool; rewrite Ep in Happ.
  { injection Happ as _ Hn. lia. }
  destruct (m <? 0) eqn:Em; zbool; injection Happ as <- Hn; [lia|]. split; [done|]. split; [done|]. split; [|done].
  destruct c1 as [|b c1]; [rewrite parse_nil in E1; by injection E1 as <- _|]. destruct (parse_runs (b :: c1) (new_parser max role) ltac:(done)) as (q & r & Hr & E').
  rewrite E1 in E'. injection E' as <- ->. destruct r as [k|]; [|lia]. by rewrite (runs_no_error _ _ _ Hr).
Qed.

(** ** Properties *)

(** Encoding and parsing a frame: for every header with valid opcode and no reserved bits and every
    payload, [encode_frame] either rejects it, exactly when it is a fragmented or oversized control
    frame, or produces bytes from which [parse_frame_header], whatever follows them, reads the same
    FIN bit, opcode and mask flag, the payload's length and a frame size equal to the number of
    bytes, and from which unmasking recovers the payload (7-, 16- and 64-bit lengths). *)
Theorem frame_round_trip fresh h payload tl :
  opcode_ok (op h) -> rsv1 h = false -> rsv2 h = false -> rsv3 h = false ->
  length (mask_key h) = 4%nat -> length fresh = 4%nat -> zlen payload < 2 ^ 63 ->
  match encode_frame fresh h payload with
  | Throw e => is_control_frame (op h) = true /\ (fin h = false \/ 125 < zlen payload)
  | Ok bytes =>
      exists h' hs, parse_frame_header (bytes ++ tl) = complete h' hs (zlen bytes) /\
        fin h' = fin h /\ op h' = op h /\ masked h' = masked h /\ payload_len h' = zlen payload /\
        extract_payload h' hs (bytes ++ tl) = payload
  end.
Proof.
  intros Ho H1 H2 H3 Hk Hfr Hl. destruct (encode_frame fresh h payload) as [bytes|e] eqn:E.
  - set (f := WFrame (fin h) (op h) payload (masked h) (mask_key h) fresh).
    assert (frame_wf unspecified f) as Hf.
    { split; try done. simpl. intros Hc. unfold encode_frame in E. rewrite Hc in E.
      destruct (fin h); [|done]. simpl in E. case_if; [done|]. by zbool. }
    assert (enc f = bytes) as Ee.
    { unfold enc. simpl. unfold encode_frame, byte1 in *. unfold hdr_in, used_key in *. simpl in *.
      rewrite H1, H2, H3 in E. by rewrite E. }
    pose proof (enc_bytes unspecified f Hf) as Eb. rewrite Ee in Eb.
    assert (length (hdr_key f) = 4%nat) as Hk' by (by apply length_used_key).
    exists (hdr_out f), (zlen (header_bytes (hdr_in f) (hdr_key f) (zlen payload))).
    rewrite Eb, <-app_assoc.
    rewrite (parse_encoded_header (hdr_in f) (hdr_key f) (zlen payload))
      by (done || (split; [apply zlen_nonneg|done]) || apply Hf).
    assert (zlen (if w_mask f then apply_mask (w_payload f) (hdr_key f) 0 else w_payload f) = zlen payload) as Hb
      by (unfold zlen; case_if; by rewrite ?length_apply_mask).
    split; [by rewrite zlen_app, Hb|]. do 4 (split; [done|]).
    unfold extract_payload. cbn [payload_len masked mask_key hdr_out parsed_header hdr_in w_mask w_payload f].
    change (w_payload f) with payload in *. change (w_mask f) with (masked h) in *. rewrite <-Hb.
    unfold zlen. rewrite !Nat2Z.id, drop_app_length, take_app_length.
    destruct (masked h); [apply apply_mask_involutive|done].
  - unfold encode_frame in E. destruct (is_control_frame (op h)); [|done]. split; [done|].
    destruct (fin h); [|by left]. simpl in E. case_if; [|done]. zbool. by right.
Qed.

(** [C20] Reads are cut anywhere: feeding a byte stream to [parse] in any sequence of pieces gives the
    same parser (queues, reassembly state, buffered bytes) and consumes the same number of bytes
    as feeding it at once; and when a piece makes the parser fail, so does the whole, with
    the same error, queues and state (only the bytes not fed yet differ). *)
Theorem parse_chunk_independent chunks p :
  exists p' n, parse_all chunks p = Some (p', n) /\
    if n <? 0 then exists unread, parse (concat chunks) p = Some (ext unread p', n)
    else parse (concat chunks) p = Some (p', n).
Proof. destruct (parse_all_total chunks p) as (p' & n & E). exists p', n. split; [done|]. by apply parse_all_whole. Qed.

(** What the application may rely on, whatever bytes arrive and however the calls are
    interleaved: every call returns (the loop ends), every message queued is a text or binary message
    within the size limit, text is valid UTF-8, every control frame has at most 125 bytes, the
    message being assembled is within the limit, and the three queues agree. *)
Theorem parser_invariant max role calls :
  0 <= max -> exists p, run_calls calls (new_parser max role) = Some p /\ parser_ok p.
Proof.
  intros Hm. pose proof (new_parser_ok max role Hm) as Hp. revert Hp. generalize (new_parser max role).
  induction calls as [|c calls IH]; intros p Hp; simpl; [by exists p|].
  destruct (run_call_ok c p Hp) as (p' & -> & Hp'). by apply IH.
Qed.

(** Memory: after a successful [parse] of any input the parser holds back fewer bytes than a frame
    header and the largest payload it accepts, so a peer cannot make its buffer grow beyond the
    configured limit. *)
Theorem buffered_bytes_bounded input p p' n :
  parser_ok p -> 0 < max_message_size_ p -> input <> [] ->
  parse input p = Some (p', n) -> 0 <= n -> zlen (buffer_ p') < max_buffered p.
Proof.
  intros Hp Hm Hi E Hn. destruct (parse_runs input p Hi) as (p1 & r & Hr & E1). rewrite E in E1. injection E1 as <- ->.
  destruct r as [k|]; [|done].
  destruct (runs_bounded _ _ _ Hr (parser_ok_buffer _ _ Hp) Hm) as [Em Hb].
  unfold max_buffered in *. rewrite Em in Hb. simpl in Hb. done.
Qed.

(** The three queues implement one queue in wire order: [get_next_message] and
    [get_next_control_frame] take the oldest event when it is of their kind and leave the
    queue alone otherwise; [get_message] and [get_control_frame] take the oldest
    event of their kind out of the middle without reordering the rest. *)
Theorem queues_in_wire_order evs p :
  queued evs p ->
  match evs with
  | inl m :: evs' => exists p', get_next_message p = (Some m, p') /\ queued evs' p' /\ get_next_control_frame p = (None, p)
  | inr c :: evs' => exists p', get_next_control_frame p = (Some c, p') /\ queued evs' p' /\ get_next_message p = (None, p)
  | [] => get_next_message p = (None, p) /\ get_next_control_frame p = (None, p)
  end /\
  match get_message p with
  | (Some m, p') => exists e1 e2, evs = e1 ++ inl m :: e2 /\ Forall (fun e => as_message e = None) e1 /\ queued (e1 ++ e2) p'
  | (None, p') => p' = p /\ Forall (fun e => as_message e = None) evs
  end /\
  match get_control_frame p with
  | (Some c, p') => exists e1 e2, evs = e1 ++ inr c :: e2 /\ Forall (fun e => as_control e = None) e1 /\ queued (e1 ++ e2) p'
  | (None, p') => p' = p /\ Forall (fun e => as_control e = None) evs
  end.
Proof.
  intros Hq. split; [|split; [by apply get_message_ok|by apply get_control_ok]].
  pose proof (get_next_message_ok evs p Hq) as Hm. pose proof (get_next_control_ok evs p Hq) as Hc.
  destruct evs as [|[m|c] evs]; [done| |].
  - destruct Hm as (p' & E & H). by exists p'.
  - destruct Hc as (p' & E & H). by exists p'.
Qed.

(** [C1] Delivery: whatever a conforming peer sends (text and binary messages cut into any number of
    fragments, control frames between messages and between fragments, masked as the receiver's
    role demands with any keys), encoded by [encode_frame] and arriving in reads cut anywhere, ends up in
    the queues complete, unmasked, reassembled and in order, with no byte left over. *)
Theorem messages_delivered max role items frames chunks :
  0 <= max -> map shape frames = concat (map item_frames items) -> Forall (frame_wf role) frames ->
  Forall (item_ok max) items -> concat chunks = concat (map enc frames) ->
  parse_all chunks (new_parser max role) =
    Some (push_events (concat (map item_events items)) (new_parser max role), zlen (concat (map enc frames))).
Proof.
  intros Hm E Hwf Hok Hch. set (p := new_parser max role).
  pose proof (parse_items max role items frames E Hwf Hok) as Ep. rewrite <-Hch in Ep. fold p in Ep. rewrite Hch in Ep at 2.
  destruct (parse_all_total chunks p) as (p' & n & E'). rewrite E'. apply parse_all_whole in E'.
  pose proof (zlen_nonneg (concat (map enc frames))).
  destruct (n <? 0) eqn:En; zbool.
  - destruct E' as (e & E'). rewrite Ep in E'.
    assert (zlen (concat (map enc frames)) = n) by congruence. lia.
  - by rewrite <-E', Ep.
Qed.

(** Close payloads: the code and reason given to [encode_close_frame] are read back by the peer's
    [parse_close_payload], except that codes that must not be sent (1005, 1006, 1015) arrive as
    a protocol error, and an invalid code or a reason that is not UTF-8 is reported as one. *)
Theorem close_round_trip code reason :
  0 <= code < 2 ^ 16 ->
  let sent := if (code =? 1005) || (code =? 1006) || (code =? 1015) then close_protocol_error else code in
  parse_close_payload (close_payload code reason) =
    if is_valid_close_code sent && is_valid_utf8 reason then (sent, reason) else (close_protocol_error, []).
Proof.
  intros Hc sent. assert (0 <= sent < 2 ^ 16) as Hs by (unfold sent, close_protocol_error; case_if; lia).
  unfold close_payload. fold sent. unfold parse_close_payload. rewrite zlen_app.
  change (zlen [z2b (Z.shiftr sent 8); z2b sent]) with 2. pose proof (zlen_nonneg reason).
  rewrite !(proj2 (Z.eqb_neq (2 + zlen reason) _)) by lia. cbv zeta. cbn [app]. rewrite at_cons_S, !at_cons_0, !b2z_z2b.
  rewrite lor_shiftl_add by (lia || by apply Z.mod_pos_bound). rewrite Z.shiftr_div_pow2 by lia.
  change (2 ^ 8) with 256. change (2 ^ 16) with 65536 in *.
  replace (256 * ((sent / 256) mod 256) + sent mod 256) with sent by (Z.div_mod_to_equations; lia).
  unfold u16. rewrite uwrap_small by lia. cbn [drop].
  destruct (is_valid_close_code sent); [|done]. cbn [negb andb]. destruct reason as [|b reason]; [done|].
  rewrite zlen_cons, (proj2 (Z.ltb_lt _ _)) by (pose proof (zlen_nonneg reason); lia). simpl.
  by destruct (is_valid_utf8 (b :: reason)).
Qed.

(** ** Witnesses *)

Definition demo_key : list byte := map z2b [1; 2; 3; 4].

Lemma frame_round_trip_witness :
  exists bytes h' hs,
    encode_frame demo_key (Header false false false false op_binary true 0 demo_key) (replicate 300 (z2b 7)) = Ok bytes /\
    parse_frame_header bytes = complete h' hs 308.
Proof.
  pose proof (frame_round_trip demo_key (Header false false false false op_binary true 0 demo_key) (replicate 300 (z2b 7)) []
    ltac:(done) eq_refl eq_refl eq_refl eq_refl eq_refl ltac:(by vm_compute)) as H.
  destruct (encode_frame _ _ _) as [bytes|] eqn:E; [|by vm_compute in E].
  destruct H as (h' & hs & H & _). rewrite app_nil_r in H. exists bytes, h', hs. split; [done|].
  rewrite H. f_equal. vm_compute in E. by injection E as <-.
Defined.

Lemma parser_invariant_witness : exists p, run_calls [Feed [z2b 129; z2b 1]; GetMessage; Feed [z2b 255]] (new_parser 10 client) = Some p.
Proof.
  destruct (parser_invariant 10 client [Feed [z2b 129; z2b 1]; GetMessage; Feed [z2b 255]] ltac:(lia)) as (p & E & _).
  by exists p.
Defined.

Lemma buffered_bytes_bounded_witness :
  exists p' n, parse [z2b 130; z2b 9; z2b 1] (new_parser 10 client) = Some (p', n) /\ zlen (buffer_ p') < 139.
Proof.
  destruct (parse [z2b 130; z2b 9; z2b 1] (new_parser 10 client)) as [[p' n]|] eqn:E; [|by vm_compute in E].
  exists p', n. split; [done|].
  apply (buffered_bytes_bounded [z2b 130; z2b 9; z2b 1] (new_parser 10 client) p' n); try done.
  - by apply new_parser_ok.
  - vm_compute in E. injection E as _ <-. done.
Defined.

(** Two fragments of a text message with a ping between them, then a close frame. *)
Definition demo_items : list item :=
  [IMsg op_text [([], map z2b [226; 130]); ([(op_ping, [z2b 5])], [z2b 172])]; ICtl op_close (close_payload 1000 [])].

Definition demo_frames : list wframe :=
  [WFrame false op_text (map z2b [226; 130]) true demo_key demo_key;
   WFrame true op_ping [z2b 5] true (replicate 4 (z2b 0)) demo_key;
   WFrame true op_continuation [z2b 172] true demo_key demo_key;
   WFrame true op_close (close_payload 1000 []) true demo_key demo_key].

Lemma queues_in_wire_order_witness :
  exists p', get_next_control_frame (push_events (concat (map item_events demo_items)) (new_parser 10 server)) =
             (Some (op_ping, [z2b 5]), p').
Proof.
  destruct (queues_in_wire_order (concat (map item_events demo_items))
    (push_events (concat (map item_events demo_items)) (new_parser 10 server)) ltac:(done)) as [H _].
  simpl in H. destruct H as (p' & H & _). by exists p'.
Defined.

Lemma demo_frames_wf : Forall (frame_wf server) demo_frames.
Proof. repeat constructor; try done; by vm_compute. Qed.

Lemma demo_items_ok : Forall (item_ok 10) demo_items.
Proof.
  constructor; [|by repeat constructor]. split; [done|]. split; [by repeat constructor|].
  split; [by left|]. split; by vm_compute.
Qed.

Lemma messages_delivered_witness :
  parse_all (map (fun b => [b]) (concat (map enc demo_frames))) (new_parser 10 server) =
    Some (push_events (concat (map item_events demo_items)) (new_parser 10 server), 30).
Proof.
  rewrite (messages_delivered 10 server demo_items demo_frames (map (fun b => [b]) (concat (map enc demo_frames)))
    ltac:(lia) eq_refl demo_frames_wf demo_items_ok ltac:(vm_compute; reflexivity)).
  vm_compute. reflexivity.
Defined.

Lemma close_round_trip_witness :
  parse_close_payload (close_payload 1005 (map z2b [104; 105])) = (1002, map z2b [104; 105]).
Proof. rewrite (close_round_trip 1005 (map z2b [104; 105]) ltac:(lia)). reflexivity. Defined.

End WsP.
