(* ===== verification/Str.v ===== *)
(** * Byte strings

    What the HTTP code uses of [std::string] and [std::string_view], on lists of bytes: searching,
    cutting, ASCII case, and the numeric conversions [std::from_chars], [std::to_chars] and
    [std::to_string].  Positions are natural numbers and [npos] is [None].  The character
    classes are those of the C locale, in which a C++ program starts. *)

From Stdlib Require Import Strings.Byte Strings.String ZifyBool.
From S2P Require Import Prelude.

(** A string literal. *)
Definition str (s : string) : list byte := list_byte_of_string s.

Definition ch_tab : byte := x09.
Definition ch_lf : byte := x0a.
Definition ch_cr : byte := x0d.
Definition ch_space : byte := x20.

Definition crlf : list byte := [ch_cr; ch_lf].

(** ** Searching and cutting *)

Definition find (c : byte) (s : list byte) : option nat := fst <$> list_find (eq c) s.
Definition find_from (c : byte) (s : list byte) (pos : nat) : option nat := (fun i => pos + i)%nat <$> find c (drop pos s).

Definition rfind (c : byte) (s : list byte) : option nat := (fun i => length s - 1 - i)%nat <$> find c (reverse s).

Definition starts_with (p s : list byte) : bool := bool_decide (take (length p) s = p).
Definition ends_with (p s : list byte) : bool := bool_decide (drop (length s - length p) s = p).

Fixpoint find_sub (p s : list byte) : option nat :=
  if starts_with p s then Some 0%nat
  else match s with
       | [] => None
       | _ :: s => S <$> find_sub p s
       end.

Definition substr (s : list byte) (pos n : nat) : list byte := take n (drop pos s).

(** [!s.empty() && s.front() == c]. *)
Definition front_is (c : byte) (s : list byte) : bool := match s with d :: _ => Byte.eqb d c | [] => false end.

(** The parts of a string between the occurrences of a separator. *)
Fixpoint split_on (c : byte) (s : list byte) : list (list byte) :=
  match s with
  | [] => [[]]
  | d :: s => if Byte.eqb d c then [] :: split_on c s
              else match split_on c s with t :: ts => (d :: t) :: ts | [] => [[d]] end
  end.

Definition streq (a b : list byte) : bool := bool_decide (a = b).

(** The longest prefix whose bytes satisfy [p], and the rest: a loop that advances a position. *)
Fixpoint span (p : byte -> bool) (s : list byte) : list byte * list byte :=
  match s with
  | c :: s' => if p c then let '(a, b) := span p s' in (c :: a, b) else ([], s)
  | [] => ([], [])
  end.

Fixpoint join (sep : list byte) (l : list (list byte)) : list byte :=
  match l with
  | [] => []
  | [x] => x
  | x :: l => x ++ sep ++ join sep l
  end.

(** ** Character classes *)

Definition between (lo hi : Z) (c : byte) : bool := (lo <=? b2z c) && (b2z c <=? hi).
Definition is_digit : byte -> bool := between 48 57.
Definition is_upper : byte -> bool := between 65 90.
Definition is_lower : byte -> bool := between 97 122.
Definition isalpha (c : byte) : bool := is_upper c || is_lower c.
Definition isalnum (c : byte) : bool := isalpha c || is_digit c.

Definition tolower (c : byte) : byte := if is_upper c then z2b (b2z c + 32) else c.
Definition lowercase (s : list byte) : list byte := map tolower s.

(** ** Numbers *)

(** The value of a digit in a base up to 16, or [None]. *)
Definition digit_value (base : Z) (c : byte) : option Z :=
  let v := if is_digit c then b2z c - 48
           else if between 97 102 c then b2z c - 87
           else if between 65 70 c then b2z c - 55
           else base in
  if v <? base then Some v else None.

(** The digits at the front of a string. *)
Fixpoint scan_digits (base : Z) (s : list byte) (acc : Z) : Z * list byte :=
  match s with
  | c :: s' => match digit_value base c with
               | Some d => scan_digits base s' (acc * base + d)
               | None => (acc, s)
               end
  | [] => (acc, [])
  end.

(** [std::from_chars] into an unsigned type whose largest value is [max]: the value and the rest, or
    [None] when there is no digit or the value does not fit. *)
Definition from_chars (base max : Z) (s : list byte) : option (Z * list byte) :=
  match s with
  | c :: _ => match digit_value base c with
              | Some _ => let '(v, rest) := scan_digits base s 0 in if v <=? max then Some (v, rest) else None
              | None => None
              end
  | [] => None
  end.

Definition digit_char (d : Z) : byte := z2b (if d <? 10 then 48 + d else 87 + d).

Fixpoint to_digits (fuel : nat) (base n : Z) (acc : list byte) : list byte :=
  match fuel with
  | O => acc
  | S fuel =>
      let acc := digit_char (n mod base) :: acc in
      if n / base =? 0 then acc else to_digits fuel base (n / base) acc
  end.

(** [std::to_chars] of a 64-bit value; 64 digits are enough in any base. *)
Definition to_chars (base n : Z) : list byte := to_digits 64 base n [].
Definition to_string (n : Z) : list byte := to_chars 10 n.

(** ** Facts *)

Lemma byte_eqb_true a b : Byte.eqb a b = true <-> a = b.
Proof. split; [apply Byte.byte_dec_bl|apply Byte.byte_dec_lb]. Qed.

Lemma byte_eqb_refl a : Byte.eqb a a = true.
Proof. by apply byte_eqb_true. Qed.

Lemma byte_eqb_false a b : Byte.eqb a b = false <-> a <> b.
Proof. rewrite <-not_true_iff_false. by rewrite byte_eqb_true. Qed.

Lemma streq_true a b : streq a b = true <-> a = b.
Proof. apply bool_decide_eq_true. Qed.

Lemma streq_false a b : streq a b = false <-> a <> b.
Proof. apply bool_decide_eq_false. Qed.

Lemma streq_refl a : streq a a = true.
Proof. by apply streq_true. Qed.

Lemma join_snoc sep x l v : join sep ((x :: l) ++ [v]) = join sep (x :: l) ++ sep ++ v.
Proof.
  revert x. induction l as [|y l IH]; intros x; [done|]. specialize (IH y). cbn [app join] in *.
  destruct (l ++ [v]) as [|z k] eqn:El; [by destruct l|]. rewrite IH. by rewrite <-!app_assoc.
Qed.

Lemma split_on_app c a b : c ∉ a -> split_on c (a ++ b) = match split_on c b with t :: ts => (a ++ t) :: ts | [] => [a] end.
Proof.
  intros Ha. induction a as [|d a IH]; cbn [app].
  - destruct b as [|d b]; [done|]. cbn [split_on]. case_if; [done|]. by destruct (split_on c b).
  - apply not_elem_of_cons in Ha as [Hd Ha]. cbn [split_on]. rewrite (proj2 (byte_eqb_false _ _)) by done. rewrite IH by done.
    by destruct (split_on c b).
Qed.

Lemma split_on_here c a b : c ∉ a -> split_on c (a ++ c :: b) = a :: split_on c b.
Proof. intros Ha. rewrite split_on_app by done. cbn [split_on]. by rewrite byte_eqb_refl, app_nil_r. Qed.

Lemma split_on_none c a : c ∉ a -> split_on c a = [a].
Proof. intros Ha. rewrite <-(app_nil_r a) at 1. rewrite split_on_app by done. cbn. by rewrite app_nil_r. Qed.

Lemma split_on_join c l : l <> [] -> Forall (fun s => c ∉ s) l -> split_on c (join [c] l) = l.
Proof.
  intros Hl HF. induction l as [|x l IH]; [done|]. apply Forall_cons in HF as [Hx HF]. destruct l as [|y l]; [by apply split_on_none|].
  change (join [c] (x :: y :: l)) with (x ++ c :: join [c] (y :: l)). by rewrite split_on_here, IH.
Qed.

Lemma split_on_no_sep c s : Forall (fun t => c ∉ t) (split_on c s).
Proof.
  induction s as [|d s IH]; cbn [split_on]; [repeat constructor; apply not_elem_of_nil|]. destruct (Byte.eqb d c) eqn:E.
  - constructor; [apply not_elem_of_nil|done].
  - apply byte_eqb_false in E. destruct (split_on c s) as [|t ts]; [repeat constructor; by rewrite list_elem_of_singleton|].
    apply Forall_cons in IH as [Ht Hts]. constructor; [|done]. by rewrite not_elem_of_cons.
Qed.

Lemma join_split_on c s : join [c] (split_on c s) = s.
Proof.
  induction s as [|d s IH]; [done|]. cbn [split_on]. destruct (Byte.eqb d c) eqn:E.
  - apply byte_eqb_true in E as ->. destruct (split_on c s) as [|t ts] eqn:Es; [by destruct s; cbn in Es; repeat case_match|].
    cbn [join app] in *. by rewrite IH.
  - destruct (split_on c s) as [|t ts]; cbn [join] in *; [by subst|]. destruct ts; cbn [join app] in *; by rewrite IH.
Qed.

Lemma find_None c s : find c s = None <-> c ∉ s.
Proof.
  unfold find. rewrite fmap_None, list_find_None, Forall_forall. split.
  - intros H Hin. by apply (H c).
  - intros H x Hx <-. done.
Qed.

Lemma find_Some c s i : find c s = Some i <-> s !! i = Some c /\ c ∉ take i s.
Proof.
  unfold find. rewrite fmap_Some. split.
  - intros ([j y] & Hf & ->). apply list_find_Some in Hf as (Hl & -> & Hn). split; [done|]. cbn.
    intros (k & Hk)%list_elem_of_lookup. apply lookup_take_Some in Hk as [Hk ?]. by apply (Hn k y).
  - intros [Hl Hn]. exists (i, c). split; [|done]. apply list_find_Some. split_and!; [done..|].
    intros j y Hj Hlt <-. apply Hn. apply list_elem_of_lookup. exists j. by apply lookup_take_Some.
Qed.

Lemma find_app_here c a b : c ∉ a -> find c (a ++ c :: b) = Some (length a).
Proof.
  intros Ha. apply find_Some. split.
  - rewrite lookup_app_r by lia. by rewrite Nat.sub_diag.
  - by rewrite take_app_length.
Qed.

Lemma find_app_l c a b i : find c a = Some i -> find c (a ++ b) = Some i.
Proof.
  intros [Hl Hn]%find_Some. apply find_Some. pose proof (lookup_lt_Some _ _ _ Hl).
  rewrite lookup_app_l, take_app_le by lia. done.
Qed.

Lemma find_lt c s i : find c s = Some i -> (i < length s)%nat.
Proof. intros [Hl _]%find_Some. by apply lookup_lt_Some in Hl. Qed.

(** What a search cuts the string into. *)
Lemma find_split c s i : find c s = Some i -> s = take i s ++ c :: drop (S i) s /\ c ∉ take i s.
Proof. intros [Hl Hn]%find_Some. split; [|done]. by rewrite take_drop_middle. Qed.

Lemma rfind_app_here c a b : c ∉ b -> rfind c (a ++ c :: b) = Some (length a).
Proof.
  intros Hb. unfold rfind. rewrite reverse_app, reverse_cons, <-app_assoc. cbn [app].
  rewrite find_app_here by (by rewrite elem_of_reverse). cbn. rewrite length_reverse, length_app. cbn. f_equal. lia.
Qed.

Lemma rfind_None c s : rfind c s = None <-> c ∉ s.
Proof. unfold rfind. by rewrite fmap_None, find_None, elem_of_reverse. Qed.

Lemma starts_with_prefix p s : starts_with p s = true <-> p `prefix_of` s.
Proof.
  unfold starts_with. rewrite bool_decide_eq_true. split.
  - intros <-. apply prefix_take.
  - intros [k ->]. by rewrite take_app_length.
Qed.

Lemma find_sub_cons p c s : find_sub p (c :: s) = if starts_with p (c :: s) then Some 0%nat else S <$> find_sub p s.
Proof. done. Qed.

Lemma find_sub_Some p s i : find_sub p s = Some i <->
  p `prefix_of` drop i s /\ (i <= length s)%nat /\ (forall j, (j < i)%nat -> ~ p `prefix_of` drop j s).
Proof.
  revert i. induction s as [|c s IH]; intros i.
  - cbn [find_sub]. destruct (starts_with p []) eqn:E; [apply starts_with_prefix in E|apply not_true_iff_false in E; rewrite starts_with_prefix in E].
    + split; [intros [= <-]; split_and!; [done|done|lia]|]. intros (_ & Hi & Hj). cbn in Hi. f_equal. lia.
    + split; [done|]. intros (Hp & Hi & _). cbn in Hi. by replace i with 0%nat in Hp by lia.
  - rewrite find_sub_cons.
    destruct (starts_with p (c :: s)) eqn:E; [apply starts_with_prefix in E|apply not_true_iff_false in E; rewrite starts_with_prefix in E].
    + split; [intros [= <-]; split_and!; [done|cbn; lia|lia]|]. intros (_ & Hi & Hj). destruct i as [|i]; [done|].
      by destruct (Hj 0%nat); [lia|].
    + rewrite fmap_Some. setoid_rewrite IH. split.
      * intros (k & (Hk & Hl & Hj) & ->). split_and!; [done|cbn; lia|]. intros [|j] Hlt; [done|]. apply Hj. lia.
      * intros (Hk & Hl & Hj). destruct i as [|i]; [done|]. exists i. split_and!; [done|cbn in Hl; lia| |done].
        intros j Hlt. apply (Hj (S j)). lia.
Qed.

Lemma find_sub_None p s : find_sub p s = None <-> (forall j, (j <= length s)%nat -> ~ p `prefix_of` drop j s).
Proof.
  split.
  - induction s as [|c s IH]; intros H j Hj.
    + cbn in H, Hj. replace j with 0%nat by lia. cbn. destruct (starts_with p []) eqn:E; [done|]. intros ?%starts_with_prefix. congruence.
    + rewrite find_sub_cons in H. destruct (starts_with p (c :: s)) eqn:E; [done|]. apply fmap_None in H. destruct j as [|j].
      * intros ?%starts_with_prefix. cbn [drop] in *. congruence.
      * apply IH; [done|cbn in Hj; lia].
  - intros H. destruct (find_sub p s) as [i|] eqn:E; [|done]. apply find_sub_Some in E as (Hp & Hi & _). by destruct (H i).
Qed.

Lemma find_sub_app_l p a b i : find_sub p a = Some i -> find_sub p (a ++ b) = Some i.
Proof.
  rewrite !find_sub_Some. intros (Hp & Hi & Hj). split_and!.
  - rewrite drop_app_le by lia. by apply prefix_app_r.
  - rewrite length_app. lia.
  - intros j Hlt Hp'. rewrite drop_app_le in Hp' by lia. apply (Hj j Hlt).
    assert (length p <= length (drop i a))%nat by (destruct Hp as [k ->]; rewrite length_app; lia).
    destruct Hp' as [k Hk]. apply (f_equal (take (length p))) in Hk.
    rewrite take_app_le in Hk by (rewrite !length_drop in *; lia). rewrite take_app_length in Hk. rewrite <-Hk. apply prefix_take.
Qed.

Lemma find_sub_app_here p a b : (forall j, (j < length a)%nat -> ~ p `prefix_of` drop j (a ++ p ++ b)) -> find_sub p (a ++ p ++ b) = Some (length a).
Proof.
  intros H. apply find_sub_Some. split_and!; [|rewrite length_app; lia|done].
  rewrite drop_app_length. by apply prefix_app_r.
Qed.

(** Without a carriage return, a line ends at the first CRLF. *)
Lemma find_crlf_here a b : ch_cr ∉ a -> find_sub crlf (a ++ crlf ++ b) = Some (length a).
Proof.
  intros Ha. apply find_sub_app_here. intros j Hj [k Hk]. apply Ha.
  rewrite drop_app_le in Hk by lia. destruct (drop j a) as [|c r] eqn:E; [apply (f_equal length) in E; rewrite length_drop in E; simpl in E; lia|].
  cbn in Hk. injection Hk as -> _. apply list_elem_of_lookup. exists j. rewrite <-(Nat.add_0_r j), <-lookup_drop, E. done.
Qed.

(** More bytes after an unfinished line do not end it before what was buffered, the last byte
    excepted when it is a carriage return. *)
Lemma find_crlf_late a b i : find_sub crlf a = None -> find_sub crlf (a ++ b) = Some i ->
  (length a <= i)%nat \/ (S i = length a /\ last a = Some ch_cr).
Proof.
  intros Ha Hi. apply find_sub_Some in Hi as (Hp & _ & _). destruct (decide (length a <= i)%nat); [by left|right].
  rewrite drop_app_le in Hp by lia. destruct (drop i a) as [|c [|d r]] eqn:E.
  - apply (f_equal length) in E. rewrite length_drop in E. simpl in E. lia.
  - assert (length a = S i) as El by (apply (f_equal length) in E; rewrite length_drop in E; simpl in E; lia).
    split; [done|]. destruct Hp as [k Hk]. injection Hk as -> _.
    rewrite <-(take_drop i a), E, last_snoc. done.
  - exfalso. rewrite find_sub_None in Ha. apply (Ha i); [lia|]. rewrite E.
    destruct Hp as [k Hk]. injection Hk as -> -> _. by exists r.
Qed.

(** ** Numbers and their digits *)

Lemma digit_value_range base c d : digit_value base c = Some d -> 0 <= d < base.
Proof.
  unfold digit_value, is_digit, between. intros H. repeat case_if; zbool; simplify_eq; try lia.
Qed.

Lemma digit_value_char base d : base <= 16 -> 0 <= d < base -> digit_value base (digit_char d) = Some d.
Proof.
  intros Hb Hd.
  assert (Forall (fun d => (let c := digit_char d in if is_digit c then b2z c - 48 else if between 97 102 c then b2z c - 87
    else if between 65 70 c then b2z c - 55 else base) = d) (seqZ 0 16)) as HF by (repeat constructor).
  rewrite Forall_forall in HF. unfold digit_value. cbv zeta in *. rewrite HF by (apply elem_of_seqZ; lia).
  by rewrite (proj2 (Z.ltb_lt _ _)) by lia.
Qed.

Lemma scan_digits_nonneg base s acc v r : 0 <= base -> scan_digits base s acc = (v, r) -> 0 <= acc -> 0 <= v.
Proof.
  intros Hb. revert acc. induction s as [|c s IH]; intros acc Hs Ha; cbn [scan_digits] in Hs; [by simplify_eq|].
  destruct (digit_value base c) as [d|] eqn:Ed; [|by simplify_eq]. apply digit_value_range in Ed. eapply IH; [done|nia].
Qed.

Lemma from_chars_range base max s v r : 0 <= base -> from_chars base max s = Some (v, r) -> 0 <= v <= max.
Proof.
  intros Hb H. destruct s as [|c s]; [done|]. cbn [from_chars] in H. destruct (digit_value base c); [|done].
  destruct (scan_digits base (c :: s) 0) as [w r'] eqn:E. case_if; [|done]. zbool. simplify_eq.
  split; [|done]. by eapply scan_digits_nonneg.
Qed.

Section Digits.
Context (base : Z) (Hbase : 2 <= base <= 16).

Lemma to_digits_app fuel n acc l : to_digits fuel base n (acc ++ l) = to_digits fuel base n acc ++ l.
Proof. revert n acc. induction fuel as [|fuel IH]; intros n acc; [done|]. cbn [to_digits]. case_if; [done|]. by rewrite <-IH. Qed.

Lemma scan_to_digits fuel n acc : 0 <= n < base ^ Z.of_nat fuel -> (0 < fuel)%nat ->
  scan_digits base (to_digits fuel base n acc) 0 = scan_digits base acc n.
Proof.
  revert n acc. induction fuel as [|fuel IH]; intros n acc Hn Hf; [lia|]. cbn [to_digits].
  pose proof (Z.mod_pos_bound n base ltac:(lia)) as Hm. pose proof (Z.div_mod n base ltac:(lia)) as Hd.
  destruct (Z.eqb_spec (n / base) 0) as [E|E].
  - cbn [scan_digits]. rewrite digit_value_char by lia. f_equal. lia.
  - rewrite Nat2Z.inj_succ, Z.pow_succ_r in Hn by lia.
    assert (0 <= n / base < base ^ Z.of_nat fuel) as Hq by (split; [apply Z.div_pos; lia|apply Z.div_lt_upper_bound; lia]).
    rewrite IH; [|done|destruct fuel; [simpl in Hq; lia|lia]]. cbn [scan_digits]. rewrite digit_value_char by lia. f_equal. lia.
Qed.

Lemma to_digits_digits fuel n acc (P : byte -> Prop) : 0 <= n -> (forall d, 0 <= d < base -> P (digit_char d)) ->
  Forall P acc -> Forall P (to_digits fuel base n acc).
Proof.
  intros Hn HP. revert n acc Hn. induction fuel as [|fuel IH]; intros n acc Hn Ha; [done|]. cbn [to_digits].
  pose proof (Z.mod_pos_bound n base ltac:(lia)). case_if; [by constructor; auto|]. apply IH; [apply Z.div_pos; lia|by constructor; auto].
Qed.

Lemma to_chars_digits n (P : byte -> Prop) : 0 <= n -> (forall d, 0 <= d < base -> P (digit_char d)) -> Forall P (to_chars base n).
Proof. intros. by apply to_digits_digits. Qed.

Lemma to_chars_nonempty n : to_chars base n <> [].
Proof.
  assert (forall fuel n acc, acc <> [] -> to_digits fuel base n acc <> []) as H.
  { induction fuel as [|fuel IH]; intros m acc Ha; [done|]. cbn [to_digits]. case_if; [done|]. by apply IH. }
  unfold to_chars. assert (exists k, 64 = S k)%nat as [k ->] by (by exists 63%nat). cbn [to_digits]. case_if; [done|]. by apply H.
Qed.

(** Reading back what was printed, up to the first byte that is no digit. *)
Lemma from_chars_to_chars max n rest : 0 <= n <= max -> n < 2 ^ 64 ->
  match rest with c :: _ => digit_value base c = None | [] => True end ->
  from_chars base max (to_chars base n ++ rest) = Some (n, rest).
Proof.
  intros Hn Hmax Hr.
  assert (scan_digits base (to_chars base n ++ rest) 0 = (n, rest)) as Hs.
  { unfold to_chars. rewrite <-to_digits_app. rewrite scan_to_digits; [|split; [lia|]|lia].
    - destruct rest as [|c rest]; [done|]. cbn [app scan_digits]. by rewrite Hr.
    - apply Z.lt_le_trans with (2 ^ 64); [done|]. apply Z.pow_le_mono_l. lia. }
  assert (Forall (fun c => is_Some (digit_value base c)) (to_chars base n)) as HF.
  { apply to_chars_digits; [lia|]. intros d Hd. rewrite digit_value_char by lia. eauto. }
  destruct (to_chars base n) as [|c l] eqn:E; [by destruct (to_chars_nonempty n)|].
  apply Forall_cons in HF as [[d Hd] _]. cbn [app from_chars] in *. rewrite Hd, Hs, (proj2 (Z.leb_le _ _)) by lia. done.
Qed.

Lemma to_digits_length fuel n acc k : 0 <= n < base ^ Z.of_nat (S k) -> (length (to_digits fuel base n acc) <= S k + length acc)%nat.
Proof.
  revert n acc k. induction fuel as [|fuel IH]; intros n acc k Hn; cbn [to_digits]; [lia|]. case_if; [cbn; lia|].
  destruct k as [|k].
  - exfalso. rewrite Z.pow_1_r in Hn. rewrite (Z.div_small n base) in * by lia. done.
  - etransitivity; [apply (IH _ _ k)|cbn; lia]. rewrite Nat2Z.inj_succ, Z.pow_succ_r in Hn by lia.
    split; [apply Z.div_pos; lia|]. apply Z.div_lt_upper_bound; lia.
Qed.

End Digits.

(** ** Prefixes *)

(** [s] does not start with a byte of [p]. *)
Definition stops (p : byte -> bool) (s : list byte) : Prop := match s with c :: _ => p c = false | [] => True end.

Lemma span_app p a b : Forall (fun c => p c = true) a -> stops p b -> span p (a ++ b) = (a, b).
Proof.
  intros Ha Hb. induction Ha as [|c a Hc _ IH]; cbn [app span].
  - destruct b as [|c b]; [done|]. cbn in Hb. cbn. by rewrite Hb.
  - by rewrite Hc, IH.
Qed.

Lemma span_spec p s a b : span p s = (a, b) -> s = a ++ b /\ Forall (fun c => p c = true) a /\ stops p b.
Proof.
  revert a b. induction s as [|c s IH]; intros a b H; cbn in H; [by simplify_eq|].
  destruct (p c) eqn:Hc; [|by simplify_eq].
  destruct (span p s) as [a' b']; simplify_eq. destruct (IH a' b) as (-> & ? & ?); [done|]. auto.
Qed.
