(* ===== verification/HttpCommon.v ===== *)
(** * HTTP syntax: tokens, targets, authorities, methods and status codes

    Models the free functions and enumerations of [src/include/elio/http/http_common.hpp] (the [headers]
    and [url] classes are in [HttpHeaders] and [HttpUrl]).  [inet_pton], which decides whether a bracketed
    host is an IPv6 address, is an argument of the functions that call it. *)

From Stdlib Require Import Strings.Byte Strings.String ZifyBool.
From S2P Require Import Prelude Str.

Module Http.

(** ** Characters, tokens, field values *)

Definition is_tchar (c : byte) : bool :=
  is_digit c || is_lower c || is_upper c || existsb (Byte.eqb c) (str "!#$%&'*+-.^_`|~").

Definition is_valid_token (value : list byte) : bool :=
  match value with [] => false | _ => forallb is_tchar value end.

Definition is_valid_header_name (name : list byte) : bool := is_valid_token name.

Definition is_valid_header_value (value : list byte) : bool :=
  forallb (fun c => negb (((b2z c <? 0x20) && negb (Byte.eqb c ch_tab)) || (b2z c =? 0x7F))) value.

Definition has_request_target_forbidden_char (value : list byte) : bool :=
  existsb (fun c => (b2z c <=? 0x20) || (b2z c =? 0x7F)) value.

Definition is_valid_request_target (target : list byte) : bool :=
  match target with [] => false | _ => negb (has_request_target_forbidden_char target) end.

Definition is_valid_request_target_component (component : list byte) : bool := negb (has_request_target_forbidden_char component).

Definition is_valid_url_input (value : list byte) : bool :=
  match value with [] => false | _ => negb (has_request_target_forbidden_char value) end.

(** ** Authorities of CONNECT requests *)

Definition connect_host_char (c : byte) : bool :=
  is_lower c || is_upper c || is_digit c || existsb (Byte.eqb c) (str "-._~!$&'()*+,;=").

Definition connect_hex_digit (c : byte) : bool := is_digit c || between 97 102 c || between 65 70 c.

(** The loop over a registered name. *)
Fixpoint valid_reg_name (host : list byte) : bool :=
  match host with
  | [] => true
  | c :: rest =>
      if Byte.eqb c "%" then
        match rest with
        | h1 :: h2 :: rest => connect_hex_digit h1 && connect_hex_digit h2 && valid_reg_name rest
        | _ => false
        end
      else connect_host_char c && valid_reg_name rest
  end.

(** An IP literal of a future version: "v" 1*HEXDIG "." 1*( unreserved / sub-delims / ":" ). *)
Definition valid_ip_future (after_v : list byte) : bool :=
  let '(hex, rest) := span connect_hex_digit after_v in
  match hex, rest with
  | _ :: _, d :: c :: cs => Byte.eqb d "." && forallb (fun c => connect_host_char c || Byte.eqb c ":") (c :: cs)
  | _, _ => false
  end.

Definition INET6_ADDRSTRLEN : nat := 46.

(** A zero-terminated copy, as C functions read it. *)
Definition c_string (s : list byte) : list byte := (span (fun c => negb (Byte.eqb c x00)) s).1.

(** [std::from_chars] on a whole string, into a [uint16_t] other than zero. *)
Definition parse_port (text : list byte) : option Z :=
  match from_chars 10 65535 text with
  | Some (port, []) => if port =? 0 then None else Some port
  | _ => None
  end.

Definition is_valid_connect_authority (inet_pton : list byte -> bool) (target : list byte) : bool :=
  match rfind ":" target with
  | None | Some 0%nat => false
  | Some separator =>
      let host := take separator target in
      let port_text := drop (S separator) target in
      match parse_port port_text with
      | None => false
      | Some _ =>
          if front_is "[" host then
            if (length host <? 3)%nat || negb (bool_decide (last host = Some "]"%byte)) then false
            else
              let literal := substr host 1 (length host - 2) in
              if front_is "v" literal || front_is "V" literal then valid_ip_future (drop 1 literal)
              else if (INET6_ADDRSTRLEN <=? length literal)%nat then false
              else inet_pton (c_string literal)
          else valid_reg_name host
      end
  end.

Record connect_authority_view := ConnectAuthority { raw : list byte; authority_host : list byte; authority_port : Z }.

Definition parse_connect_authority (inet_pton : list byte -> bool) (target : list byte) : option connect_authority_view :=
  if negb (is_valid_connect_authority inet_pton target) then None
  else match rfind ":" target with
       | Some colon =>
           let host := take colon target in
           let host := if front_is "[" host then substr host 1 (length host - 2) else host in
           match from_chars 10 65535 (drop (S colon) target) with
           | Some (port, _) => Some (ConnectAuthority target host port)
           | None => Some (ConnectAuthority target host 0)
           end
       | None => None
       end.

(** ** Versions and schemes *)

Definition is_valid_http_version (version : list byte) : bool :=
  match version with
  | [] => true
  | _ => if negb (starts_with (str "HTTP/") version) then false
         else match drop 5 version with
              | [a; d; b] => Byte.eqb d "." && is_digit a && is_digit b
              | _ => false
              end
  end.

Definition is_supported_http_url_scheme (scheme : list byte) : bool := streq scheme (str "http") || streq scheme (str "https").

Fixpoint scheme_ahead (value : list byte) : bool :=
  match value with
  | [] => false
  | c :: rest =>
      if Byte.eqb c ":" then true
      else if existsb (Byte.eqb c) (str "/?#") then false
      else (isalnum c || existsb (Byte.eqb c) (str "+-.")) && scheme_ahead rest
  end.

Definition has_uri_scheme (value : list byte) : bool :=
  match value with
  | c :: _ => isalpha c && scheme_ahead value
  | [] => false
  end.

(** ** White space and case *)

Definition is_ows (c : byte) : bool := Byte.eqb c ch_space || Byte.eqb c ch_tab.

Definition skip_ows (s : list byte) : list byte := (span is_ows s).2.

Definition trim_ows (s : list byte) : list byte := reverse (skip_ows (reverse (skip_ows s))).

Definition ascii_iequals (a b : list byte) : bool := streq (lowercase a) (lowercase b).

(** ** Methods *)

Inductive method := GET | HEAD | POST | PUT | DELETE_ | CONNECT | OPTIONS | TRACE | PATCH.

#[global] Instance method_eq_dec : EqDecision method.
Proof. solve_decision. Defined.

Definition method_to_string (m : method) : list byte :=
  match m with
  | GET => str "GET"
  | HEAD => str "HEAD"
  | POST => str "POST"
  | PUT => str "PUT"
  | DELETE_ => str "DELETE"
  | CONNECT => str "CONNECT"
  | OPTIONS => str "OPTIONS"
  | TRACE => str "TRACE"
  | PATCH => str "PATCH"
  end.

Definition string_to_method (s : list byte) : option method :=
  if streq s (str "GET") then Some GET
  else if streq s (str "HEAD") then Some HEAD
  else if streq s (str "POST") then Some POST
  else if streq s (str "PUT") then Some PUT
  else if streq s (str "DELETE") then Some DELETE_
  else if streq s (str "CONNECT") then Some CONNECT
  else if streq s (str "OPTIONS") then Some OPTIONS
  else if streq s (str "TRACE") then Some TRACE
  else if streq s (str "PATCH") then Some PATCH
  else None.

(** ** Status codes: a [status] is any 16-bit number *)

Definition status_reasons : list (Z * list byte) := [
  (100, str "Continue"); (101, str "Switching Protocols"); (102, str "Processing");
  (103, str "Early Hints"); (200, str "OK"); (201, str "Created");
  (202, str "Accepted"); (203, str "Non-Authoritative Information"); (204, str "No Content");
  (205, str "Reset Content"); (206, str "Partial Content"); (207, str "Multi-Status");
  (208, str "Already Reported"); (226, str "IM Used"); (300, str "Multiple Choices");
  (301, str "Moved Permanently"); (302, str "Found"); (303, str "See Other");
  (304, str "Not Modified"); (305, str "Use Proxy"); (307, str "Temporary Redirect");
  (308, str "Permanent Redirect"); (400, str "Bad Request"); (401, str "Unauthorized");
  (402, str "Payment Required"); (403, str "Forbidden"); (404, str "Not Found");
  (405, str "Method Not Allowed"); (406, str "Not Acceptable"); (407, str "Proxy Authentication Required");
  (408, str "Request Timeout"); (409, str "Conflict"); (410, str "Gone");
  (411, str "Length Required"); (412, str "Precondition Failed"); (413, str "Payload Too Large");
  (414, str "URI Too Long"); (415, str "Unsupported Media Type"); (416, str "Range Not Satisfiable");
  (417, str "Expectation Failed"); (418, str "I'm a teapot"); (421, str "Misdirected Request");
  (422, str "Unprocessable Entity"); (423, str "Locked"); (424, str "Failed Dependency");
  (425, str "Too Early"); (426, str "Upgrade Required"); (428, str "Precondition Required");
  (429, str "Too Many Requests"); (431, str "Request Header Fields Too Large"); (451, str "Unavailable For Legal Reasons");
  (500, str "Internal Server Error"); (501, str "Not Implemented"); (502, str "Bad Gateway");
  (503, str "Service Unavailable"); (504, str "Gateway Timeout"); (505, str "HTTP Version Not Supported");
  (506, str "Variant Also Negotiates"); (507, str "Insufficient Storage"); (508, str "Loop Detected");
  (510, str "Not Extended"); (511, str "Network Authentication Required")
  ].

Definition status_reason (s : Z) : list byte :=
  match list_find (fun e => e.1 = s) status_reasons with
  | Some (_, (_, reason)) => reason
  | None => str "Unknown"
  end.

Definition status_forbids_response_body (code : Z) : bool :=
  ((100 <=? code) && (code <? 200)) || (code =? 204) || (code =? 205) || (code =? 304).

Definition response_body_forbidden (request_method : method) (code : Z) : bool :=
  bool_decide (request_method = HEAD) || status_forbids_response_body code.

Definition response_framing_forbidden (request_method : method) (code : Z) : bool :=
  status_forbids_response_body code || (bool_decide (request_method = CONNECT) && (200 <=? code) && (code <? 300)).

(** ** Trimming *)

Definition ows (w : list byte) : Prop := Forall (fun c => is_ows c = true) w.

(** The second half of [trim_ows]. *)
Definition trim_right (s : list byte) : list byte := reverse (skip_ows (reverse s)).

Lemma skip_ows_stops s : stops is_ows s -> skip_ows s = s.
Proof. intros H. unfold skip_ows. assert (span is_ows s = ([], s)) as -> by (by apply (span_app is_ows [])). done. Qed.

Lemma skip_ows_app w s : ows w -> skip_ows (w ++ s) = skip_ows s.
Proof. intros Hw. induction Hw as [|c w Hc _ IH]; [done|]. unfold skip_ows in *. cbn. rewrite Hc. by destruct (span is_ows (w ++ s)). Qed.

Lemma skip_ows_spec s : exists w, s = w ++ skip_ows s /\ ows w /\ stops is_ows (skip_ows s).
Proof. unfold skip_ows. destruct (span is_ows s) as [w r] eqn:H. apply span_spec in H. exists w. tauto. Qed.

Lemma skip_ows_all w : ows w -> skip_ows w = [].
Proof. intros Hw. rewrite <-(app_nil_r w), skip_ows_app; done. Qed.

Lemma ows_reverse w : ows w -> ows (reverse w).
Proof. intros H. unfold ows. rewrite reverse_Permutation. done. Qed.

Lemma trim_right_ows s w : ows w -> trim_right (s ++ w) = trim_right s.
Proof. intros Hw. unfold trim_right. rewrite reverse_app, skip_ows_app by auto using ows_reverse. done. Qed.

Lemma trim_right_end s c : is_ows c = false -> trim_right (s ++ [c]) = s ++ [c].
Proof. intros Hc. unfold trim_right. rewrite reverse_app, skip_ows_stops by done. by rewrite <-reverse_app, reverse_involutive. Qed.

Lemma trim_right_spec s : exists w, s = trim_right s ++ w /\ ows w.
Proof.
  destruct (skip_ows_spec (reverse s)) as (w & H & Hw & _). exists (reverse w). split; [|by apply ows_reverse].
  unfold trim_right. rewrite <-reverse_app, <-H. by rewrite reverse_involutive.
Qed.

Lemma trim_right_app s t : trim_right t <> [] -> trim_right (s ++ t) = s ++ trim_right t.
Proof.
  intros H. unfold trim_right in *. rewrite reverse_app. destruct (skip_ows_spec (reverse t)) as (w & E & Hw & Hs).
  remember (skip_ows (reverse t)) as r eqn:Er. rewrite E, <-app_assoc, skip_ows_app by done. destruct r as [|c r]; [done|].
  rewrite skip_ows_stops by done. by rewrite reverse_app, reverse_involutive.
Qed.

Lemma trim_ows_right s : trim_ows s = trim_right (skip_ows s).
Proof. done. Qed.

Lemma trim_ows_spec s : exists w w', s = w ++ trim_ows s ++ w' /\ ows w /\ ows w'.
Proof.
  destruct (skip_ows_spec s) as (w & H & Hw & _), (trim_right_spec (skip_ows s)) as (w' & H' & Hw').
  exists w, w'. by rewrite trim_ows_right, <-H', <-H.
Qed.

Lemma stops_trim_right s : stops is_ows s -> stops is_ows (trim_right s).
Proof. intros H. destruct (trim_right_spec s) as (w & E & _). destruct (trim_right s); [done|]. rewrite E in H. exact H. Qed.

Lemma trim_right_idemp s : trim_right (trim_right s) = trim_right s.
Proof. destruct (trim_right_spec s) as (w & E & Hw). rewrite E at 2. by rewrite trim_right_ows. Qed.

Lemma trim_ows_idemp s : trim_ows (trim_ows s) = trim_ows s.
Proof.
  rewrite !trim_ows_right. destruct (skip_ows_spec s) as (w & _ & _ & Hs).
  rewrite skip_ows_stops by (by apply stops_trim_right). by rewrite trim_right_idemp.
Qed.

Lemma trim_ows_around w s w' : ows w -> ows w' -> trim_ows (w ++ s ++ w') = trim_ows s.
Proof.
  intros Hw Hw'. rewrite !trim_ows_right, skip_ows_app by done. destruct (skip_ows_spec s) as (v & E & Hv & Hs).
  rewrite E at 1. rewrite <-app_assoc, skip_ows_app by done. destruct (skip_ows s) as [|c r].
  - cbn [app]. by rewrite skip_ows_all.
  - rewrite skip_ows_stops by done. by rewrite trim_right_ows.
Qed.

(** ** Bytes that cannot occur *)

Lemma is_tchar_not_ows c : is_tchar c = true -> is_ows c = false.
Proof. by destruct c. Qed.

Lemma token_excludes c s : is_tchar c = false -> is_valid_token s = true -> c ∉ s.
Proof. intros Hc Hs Hin. destruct s as [|d s]; [done|]. cbn [is_valid_token] in Hs. rewrite forallb_forall in Hs. apply list_elem_of_In, Hs in Hin. congruence. Qed.

Lemma value_excludes c s : b2z c < 0x20 -> c <> ch_tab -> is_valid_header_value s = true -> c ∉ s.
Proof.
  intros Hc Ht Hs Hin. unfold is_valid_header_value in Hs. rewrite forallb_forall in Hs.
  apply list_elem_of_In, Hs in Hin. apply byte_eqb_false in Ht. rewrite Ht in Hin. lia.
Qed.

Lemma target_excludes c s : b2z c <= 0x20 -> is_valid_request_target s = true -> c ∉ s.
Proof.
  intros Hc Hs Hin. unfold is_valid_request_target, has_request_target_forbidden_char in Hs. destruct s as [|d s]; [done|].
  apply negb_true_iff in Hs. apply not_true_iff_false in Hs. apply Hs, existsb_exists. exists c.
  rewrite list_elem_of_In in Hin. split; [done|]. lia.
Qed.

Lemma string_to_method_to_string m : string_to_method (method_to_string m) = Some m.
Proof. by destruct m. Qed.

Lemma string_to_method_inv s m : string_to_method s = Some m -> s = method_to_string m.
Proof. unfold string_to_method. intros H. repeat case_match; simplify_eq; by apply streq_true. Qed.

End Http.
