(* ===== verification/HttpHeaders.v ===== *)
(** * The header collection

    Models the class [headers] of [src/include/elio/http/http_common.hpp]: two maps keyed by field name
    without regard to case, [headers_] with the combined value of each field and [header_values_] with
    its field lines.  The maps are association lists; the order in which a hash table enumerates
    its entries is unspecified, so [serialize] takes the enumeration as an argument.

    The specification is a function from lower-case names to field lines; [headers_refine_fields]
    shows that every sequence of operations gives the answers of the specification. *)

From Stdlib Require Import Strings.Byte Strings.String.
From S2P Require Import Prelude Str HttpCommon.

Module Headers.
Export Http.

(** ** Maps keyed without regard to case *)

Section CiMap.
Context {A : Type}.

Definition ci_find (name : list byte) (m : list (list byte * A)) : option (list byte * A) :=
  snd <$> list_find (fun e => ascii_iequals name e.1 = true) m.

(** [m[name] = v]: an existing key keeps its spelling. *)
Fixpoint ci_assign (name : list byte) (v : A) (m : list (list byte * A)) : list (list byte * A) :=
  match m with
  | [] => [(name, v)]
  | (k, w) :: m => if ascii_iequals name k then (k, v) :: m else (k, w) :: ci_assign name v m
  end.

Definition ci_erase (name : list byte) (m : list (list byte * A)) : list (list byte * A) :=
  filter (fun e => ascii_iequals name e.1 = false) m.

End CiMap.

(** ** The class *)

Record headers := MkHeaders { headers_ : list (list byte * list byte); header_values_ : list (list byte * list (list byte)) }.

Definition no_headers : headers := MkHeaders [] [].

Inductive header_error := Invalid_header_name | Invalid_header_value | Conflicting_Content_Length.

Definition set (name value : list byte) (h : headers) : result header_error headers :=
  if negb (is_valid_header_name name) then Throw Invalid_header_name
  else if negb (is_valid_header_value value) then Throw Invalid_header_value
  else Ok (MkHeaders (ci_assign name value (headers_ h)) (ci_assign name [value] (header_values_ h))).

Definition add (name value : list byte) (h : headers) : result header_error headers :=
  if negb (is_valid_header_name name) then Throw Invalid_header_name
  else if negb (is_valid_header_value value) then Throw Invalid_header_value
  else match ci_find name (headers_ h) with
       | Some (key, old) =>
           if ascii_iequals name (str "Content-Length") then
             if streq (trim_ows old) (trim_ows value) then Ok h else Throw Conflicting_Content_Length
           else
             let lines := match ci_find name (header_values_ h) with Some (_, l) => l | None => [old] end in
             let values := ci_assign (match ci_find name (header_values_ h) with Some (k, _) => k | None => key end)
                                     (lines ++ [value]) (header_values_ h) in
             if ascii_iequals name (str "Set-Cookie") then Ok (MkHeaders (headers_ h) values)
             else Ok (MkHeaders (ci_assign name (old ++ str ", " ++ value) (headers_ h)) values)
       | None => Ok (MkHeaders (headers_ h ++ [(name, value)])
                               (match ci_find name (header_values_ h) with
                                | Some _ => header_values_ h
                                | None => header_values_ h ++ [(name, [value])]
                                end))
       end.

Definition get (name : list byte) (h : headers) : list byte :=
  match ci_find name (headers_ h) with Some (_, v) => v | None => [] end.

Definition get_all (name : list byte) (h : headers) : list (list byte) :=
  match ci_find name (header_values_ h) with
  | Some (_, l) => l
  | None => match ci_find name (headers_ h) with Some (_, v) => [v] | None => [] end
  end.

Definition contains (name : list byte) (h : headers) : bool := bool_decide (is_Some (ci_find name (headers_ h))).

Definition remove (name : list byte) (h : headers) : headers :=
  MkHeaders (ci_erase name (headers_ h)) (ci_erase name (header_values_ h)).

Definition clear (h : headers) : headers := no_headers.

Definition content_length (h : headers) : option Z :=
  let val := trim_ows (get (str "Content-Length") h) in
  if streq val [] then None
  else if front_is "+" val || front_is "-" val then None
  else match from_chars 10 SIZE_MAX val with
       | Some (len, []) => Some len
       | _ => None
       end.

Definition set_content_length (len : Z) (h : headers) : result header_error headers := set (str "Content-Length") (to_string len) h.
Definition content_type (h : headers) : list byte := get (str "Content-Type") h.
Definition set_content_type (type : list byte) (h : headers) : result header_error headers := set (str "Content-Type") type h.

Definition is_chunked (h : headers) : bool :=
  let te := get (str "Transfer-Encoding") h in
  match te with
  | [] => false
  | _ => let last := match rfind "," te with None => te | Some i => drop (S i) te end in
         ascii_iequals (trim_ows last) (str "chunked")
  end.

(** The loop over the elements of a comma-separated list. *)
Fixpoint keep_alive_loop (tokens : list (list byte)) : option bool :=
  match tokens with
  | [] => None
  | token :: rest =>
      if ascii_iequals (trim_ows token) (str "close") then Some false
      else if ascii_iequals (trim_ows token) (str "keep-alive") then Some true
      else keep_alive_loop rest
  end.

Definition keep_alive (http_version : list byte) (h : headers) : bool :=
  let conn := get (str "Connection") h in
  match (match conn with [] => None | _ => keep_alive_loop (split_on "," conn) end) with
  | Some b => b
  | None => streq http_version (str "1.1") || streq http_version (str "HTTP/1.1")
  end.

Definition size (h : headers) : nat := length (headers_ h).
Definition empty (h : headers) : bool := bool_decide (headers_ h = []).

Definition append_serialized_header (name value : list byte) : list byte := name ++ str ": " ++ value ++ crlf.

(** [order] is the enumeration of [headers_] the hash table gives. *)
Definition serialize (order : list (list byte * list byte)) (h : headers) : list byte :=
  flat_map (fun '(name, value) =>
    match ci_find name (header_values_ h) with
    | Some (_, cookies) =>
        if ascii_iequals name (str "Set-Cookie")
        then flat_map (fun cookie => append_serialized_header name cookie) cookies
        else append_serialized_header name value
    | None => append_serialized_header name value
    end) order.

(** ** Specification *)

(** The field lines of every field, by lower-case name; a field that is absent has none. *)
Definition fields : Type := list byte -> list (list byte).

Definition no_fields : fields := fun _ => [].

Definition update_field (name : list byte) (lines : list (list byte)) (f : fields) : fields :=
  fun k => if streq k (lowercase name) then lines else f k.

(** The combined value of a field (RFC 9110, 5.3); Set-Cookie is not combined. *)
Definition combined (f : fields) (name : list byte) : list byte :=
  match f (lowercase name) with
  | [] => []
  | x :: l => if ascii_iequals name (str "Set-Cookie") then x else join (str ", ") (x :: l)
  end.

Inductive op := Set_ (name value : list byte) | Add (name value : list byte) | Remove (name : list byte) | Clear.

Definition exec (o : op) (h : headers) : result header_error headers :=
  match o with
  | Set_ name value => set name value h
  | Add name value => add name value h
  | Remove name => Ok (remove name h)
  | Clear => Ok (clear h)
  end.

Definition spec_exec (o : op) (f : fields) : result header_error fields :=
  match o with
  | Set_ name value =>
      if negb (is_valid_token name) then Throw Invalid_header_name
      else if negb (is_valid_header_value value) then Throw Invalid_header_value
      else Ok (update_field name [value] f)
  | Add name value =>
      if negb (is_valid_token name) then Throw Invalid_header_name
      else if negb (is_valid_header_value value) then Throw Invalid_header_value
      else if ascii_iequals name (str "Content-Length") && bool_decide (f (lowercase name) <> []) then
        if streq (trim_ows (combined f name)) (trim_ows value) then Ok f else Throw Conflicting_Content_Length
      else Ok (update_field name (f (lowercase name) ++ [value]) f)
  | Remove name => Ok (update_field name [] f)
  | Clear => Ok no_fields
  end.

(** An exception leaves the collection as it was. *)
Definition run {S} (exec : op -> S -> result header_error S) (ops : list op) (s : S) : S * list (option header_error) :=
  fold_left (fun '(s, out) o => match exec o s with Ok s' => (s', out ++ [None]) | Throw e => (s, out ++ [Some e]) end) ops (s, []).

(** ** Lookups *)

Lemma iequals_true a b : ascii_iequals a b = true <-> lowercase a = lowercase b.
Proof. apply streq_true. Qed.

Lemma iequals_sym a b : ascii_iequals a b = ascii_iequals b a.
Proof. unfold ascii_iequals, streq. by apply bool_decide_ext. Qed.

Section CiMapFacts.
Context {A : Type}.
Implicit Types m : list (list byte * A).

Lemma ci_find_cons n k v m : ci_find n ((k, v) :: m) = if ascii_iequals n k then Some (k, v) else ci_find n m.
Proof.
  unfold ci_find. cbn [list_find]. case_decide as H; cbn [fst] in H.
  - by rewrite H.
  - apply not_true_iff_false in H. rewrite H. by destruct (list_find _ m) as [[]|].
Qed.

Lemma ci_find_ext n n' m : lowercase n = lowercase n' -> ci_find n m = ci_find n' m.
Proof.
  intros E. induction m as [|[k v] m IH]; [done|]. rewrite !ci_find_cons, IH. unfold ascii_iequals. by rewrite E.
Qed.

Lemma ci_find_key n m k v : ci_find n m = Some (k, v) -> lowercase n = lowercase k /\ (k, v) ∈ m.
Proof.
  induction m as [|[k' v'] m IH]; [done|]. rewrite ci_find_cons. case_if; [|intros [? ?]%IH; split; [done|by right]].
  intros [= -> ->]. split; [by apply iequals_true|left].
Qed.

Lemma ci_find_app n m m' : ci_find n (m ++ m') = match ci_find n m with Some e => Some e | None => ci_find n m' end.
Proof. induction m as [|[k v] m IH]; [done|]. cbn [app]. rewrite !ci_find_cons, IH. by case_if. Qed.

Lemma ci_find_assign n n' v m :
  ci_find n (ci_assign n' v m) =
  if ascii_iequals n n' then Some (match ci_find n' m with Some (k, _) => k | None => n' end, v) else ci_find n m.
Proof.
  induction m as [|[k w] m IH]; [cbn [ci_assign]; rewrite ci_find_cons; by case_if|].
  cbn [ci_assign]. destruct (ascii_iequals n' k) eqn:E'; rewrite !ci_find_cons, E'.
  - apply iequals_true in E'. unfold ascii_iequals. rewrite E'. by case_if.
  - rewrite IH. destruct (ascii_iequals n k) eqn:E; [|done]. apply iequals_true in E. unfold ascii_iequals in *. rewrite E.
    destruct (streq (lowercase k) (lowercase n')) eqn:E2; [|done]. apply streq_true in E2. rewrite E2, streq_refl in E'. done.
Qed.

Lemma ci_find_erase n n' m : ci_find n (ci_erase n' m) = if ascii_iequals n n' then None else ci_find n m.
Proof.
  unfold ci_erase. induction m as [|[k w] m IH]; [by case_if|]. rewrite filter_cons. cbn [fst].
  destruct (ascii_iequals n' k) eqn:E'; cbn [decide decide_rel].
  - rewrite decide_False by done. rewrite IH, ci_find_cons. apply iequals_true in E'. unfold ascii_iequals. rewrite E'.
    by case_if.
  - rewrite decide_True by done. rewrite !ci_find_cons, IH. destruct (ascii_iequals n k) eqn:E; [|done].
    apply iequals_true in E. unfold ascii_iequals in *. rewrite E.
    destruct (streq (lowercase k) (lowercase n')) eqn:E2; [|done]. apply streq_true in E2. rewrite E2, streq_refl in E'. done.
Qed.

End CiMapFacts.

(** ** Refinement *)

Definition represents (h : headers) (f : fields) : Prop := forall name,
  match f (lowercase name) with
  | [] => ci_find name (headers_ h) = None /\ ci_find name (header_values_ h) = None
  | lines => (exists k, ci_find name (headers_ h) = Some (k, combined f name)) /\
             (exists k, ci_find name (header_values_ h) = Some (k, lines))
  end.

Lemma tolower_idemp c : tolower (tolower c) = tolower c.
Proof. by destruct c. Qed.

Lemma lowercase_idemp s : lowercase (lowercase s) = lowercase s.
Proof. unfold lowercase. rewrite map_map. apply map_ext, tolower_idemp. Qed.

Lemma update_field_eq name lines f name' : lowercase name' = lowercase name -> update_field name lines f (lowercase name') = lines.
Proof. intros E. unfold update_field. by rewrite E, streq_refl. Qed.

Lemma update_field_ne name lines f name' : ascii_iequals name' name = false -> update_field name lines f (lowercase name') = f (lowercase name').
Proof. intros E. unfold ascii_iequals in E. unfold update_field. by rewrite E. Qed.

Lemma combined_ne name lines f name' : ascii_iequals name' name = false -> combined (update_field name lines f) name' = combined f name'.
Proof. intros E. unfold combined. by rewrite update_field_ne. Qed.

Lemma iequals_ext a a' b : lowercase a = lowercase a' -> ascii_iequals a b = ascii_iequals a' b.
Proof. intros E. unfold ascii_iequals. by rewrite E. Qed.

Lemma combined_single name v f name' : lowercase name' = lowercase name -> combined (update_field name [v] f) name' = v.
Proof. intros E. unfold combined. rewrite update_field_eq by done. by case_if. Qed.

Lemma combined_add name v f name' : lowercase name' = lowercase name -> f (lowercase name) <> [] ->
  combined (update_field name (f (lowercase name) ++ [v]) f) name' =
  if ascii_iequals name (str "Set-Cookie") then combined f name else combined f name ++ str ", " ++ v.
Proof.
  intros E Hf. unfold combined. rewrite update_field_eq by done. rewrite (iequals_ext name' name) by done.
  destruct (f (lowercase name)) as [|x l] eqn:El; [done|]. cbn [app]. case_if; [done|]. apply (join_snoc (str ", ") x l v).
Qed.

(** One field changes, the others do not. *)
Lemma represents_update h h' f name lines :
  represents h f -> lines <> [] ->
  (exists k, forall n, ci_find n (headers_ h') =
     if ascii_iequals n name then Some (k, combined (update_field name lines f) name) else ci_find n (headers_ h)) ->
  (exists k, forall n, ci_find n (header_values_ h') = if ascii_iequals n name then Some (k, lines) else ci_find n (header_values_ h)) ->
  represents h' (update_field name lines f).
Proof.
  intros Hr Hl [k Hk] [k' Hk'] n. specialize (Hr n). rewrite Hk, Hk'. destruct (ascii_iequals n name) eqn:E.
  - pose proof (proj1 (iequals_true _ _) E) as El. rewrite update_field_eq by done. destruct lines as [|x lines]; [done|].
    split; [exists k; do 2 f_equal|by exists k'].
    unfold combined. rewrite !update_field_eq by done. by rewrite (iequals_ext n name).
  - rewrite update_field_ne, combined_ne by done. done.
Qed.

Lemma represents_set h f name value h' : represents h f -> set name value h = Ok h' -> represents h' (update_field name [value] f).
Proof.
  intros Hr Hs. unfold set in Hs. case_if; [done|]. case_if; [done|]. simplify_eq/=. apply (represents_update h); [done..| |].
  - eexists. intros n. cbn [headers_]. rewrite ci_find_assign, combined_single by done. reflexivity.
  - eexists. intros n. cbn [header_values_]. rewrite ci_find_assign. reflexivity.
Qed.

Lemma ci_find_snoc {A} n name (v : A) m : ci_find name m = None ->
  ci_find n (m ++ [(name, v)]) = if ascii_iequals n name then Some (name, v) else ci_find n m.
Proof.
  intros Hn. rewrite ci_find_app, ci_find_cons. destruct (ascii_iequals n name) eqn:E.
  - apply iequals_true in E. by rewrite (ci_find_ext n name), Hn.
  - by destruct (ci_find n m).
Qed.

Lemma represents_add h f name value : represents h f -> match add name value h with
  | Ok h' => exists f', spec_exec (Add name value) f = Ok f' /\ represents h' f'
  | Throw e => spec_exec (Add name value) f = Throw e
  end.
Proof.
  intros Hr. unfold add, spec_exec, is_valid_header_name. case_if; [done|]. case_if; [done|].
  pose proof (Hr name) as Hn. destruct (f (lowercase name)) as [|x lines] eqn:Ef.
  - destruct Hn as [Hn1 Hn2]. rewrite Hn1, Hn2, bool_decide_false, andb_false_r by (intros Hx; by apply Hx). eexists. split; [done|].
    apply (represents_update h); [done..| |]; cbn [headers_ header_values_ app].
    + eexists. intros n. rewrite ci_find_snoc by done.
      rewrite combined_single by done. reflexivity.
    + eexists. intros n. rewrite ci_find_snoc by done. reflexivity.
  - destruct Hn as [[k Hk] [k' Hk']]. rewrite Hk, Hk'. rewrite bool_decide_true, andb_true_r by done.
    case_if; [case_if; [by exists f|done]|]. rewrite <-Ef.
    assert (f (lowercase name) <> []) as Hne by (by rewrite Ef).
    assert (f (lowercase name) ++ [value] <> []) by (by rewrite Ef).
    pose proof (combined_add name value f name eq_refl Hne) as Hc. pose proof (ci_find_key _ _ _ _ Hk') as [Ek' _].
    case_if; (eexists; split; [done|]; apply (represents_update h); [done..| |]; cbn [headers_ header_values_]).
    + exists k. intros n. rewrite Hc. destruct (ascii_iequals n name) eqn:E; [|done]. apply iequals_true in E. by rewrite (ci_find_ext n name).
    + exists k'. intros n. rewrite ci_find_assign. unfold ascii_iequals. rewrite <-Ek'. by rewrite <-(ci_find_ext name k'), Hk' by done.
    + exists k. intros n. by rewrite Hc, ci_find_assign, Hk.
    + exists k'. intros n. rewrite ci_find_assign. unfold ascii_iequals. rewrite <-Ek'. by rewrite <-(ci_find_ext name k'), Hk' by done.
Qed.

Lemma header_exec_refines o h f : represents h f -> match exec o h with
  | Ok h' => exists f', spec_exec o f = Ok f' /\ represents h' f'
  | Throw e => spec_exec o f = Throw e
  end.
Proof.
  intros Hr. destruct o as [name value|name value|name|]; cbn [exec].
  - destruct (set name value h) as [h'|e] eqn:Es; [|unfold set, spec_exec, is_valid_header_name in *; by repeat case_if; simplify_eq].
    exists (update_field name [value] f). split; [|by eapply represents_set].
    unfold set, spec_exec, is_valid_header_name in *. by repeat case_if; simplify_eq.
  - by apply represents_add.
  - eexists. split; [done|]. intros n. cbn [headers_ header_values_ remove]. rewrite !ci_find_erase.
    destruct (ascii_iequals n name) eqn:E.
    + apply iequals_true in E. by rewrite update_field_eq.
    + rewrite update_field_ne, combined_ne by done. apply Hr.
  - by exists no_fields.
Qed.

Lemma run_refines ops : exists h f out, run exec ops no_headers = (h, out) /\ run spec_exec ops no_fields = (f, out) /\ represents h f.
Proof.
  induction ops as [|o ops (h & f & out & Eh & Ef & Hr)] using rev_ind; [by exists no_headers, no_fields, []|].
  unfold run in *. rewrite !fold_left_app, Eh, Ef. cbn [fold_left]. pose proof (header_exec_refines o h f Hr) as Ho.
  destruct (exec o h) as [h'|e]; [destruct Ho as (f' & -> & Hr')|rewrite Ho]; eauto 10.
Qed.

Lemma represents_get h f name : represents h f ->
  get name h = combined f name /\ get_all name h = f (lowercase name) /\ contains name h = bool_decide (f (lowercase name) <> []).
Proof.
  intros Hr. specialize (Hr name). unfold get, get_all, contains, combined in *. destruct (f (lowercase name)) as [|x l].
  - destruct Hr as [-> ->]. split_and!; [done|done|]. rewrite (bool_decide_false ([] <> [])) by (intros Hx; by apply Hx).
    apply bool_decide_false. by intros [? ?].
  - destruct Hr as [[k ->] [k' ->]]. by rewrite !bool_decide_true.
Qed.

(** [C38] The header collection answers as a table of field lines without regard to case: after any
    sequence of [set], [add], [remove] and [clear] calls, the same calls have thrown (invalid names,
    values with control characters, conflicting Content-Length lines), [get_all] gives the lines of a
    field in the order they were added (a Content-Length line that repeats the value is dropped), [get] their comma-separated combination (the first line for
    Set-Cookie), and [contains] tells whether there are any. *)
Theorem headers_refine_fields ops name :
  let '(h, out) := run exec ops no_headers in
  let '(f, expected) := run spec_exec ops no_fields in
  out = expected /\ get name h = combined f name /\ get_all name h = f (lowercase name) /\
  contains name h = bool_decide (f (lowercase name) <> []).
Proof. destruct (run_refines ops) as (h & f & out & -> & -> & Hr). split; [done|]. by apply represents_get. Qed.

(** ** What a collection holds *)

Definition value_ok (v : list byte) : Prop := is_valid_header_value v = true.

Record headers_ok (h : headers) : Prop := {
  ok_keys : NoDup (map (fun e => lowercase e.1) (headers_ h));
  ok_fields : Forall (fun e => is_valid_token e.1 = true /\ value_ok e.2) (headers_ h);
  ok_lines : Forall (fun e => Forall value_ok e.2) (header_values_ h)
}.

Lemma value_ok_app v w : value_ok v -> value_ok w -> value_ok (v ++ w).
Proof. unfold value_ok, is_valid_header_value. rewrite forallb_app. by intros -> ->. Qed.

Lemma ci_assign_keys {A} name (v : A) m : NoDup (map (fun e => lowercase e.1) m) ->
  NoDup (map (fun e => lowercase e.1) (ci_assign name v m)) /\
  (forall k, k ∈ map (fun e => lowercase e.1) (ci_assign name v m) -> k = lowercase name \/ k ∈ map (fun e => lowercase e.1) m).
Proof.
  induction m as [|[k w] m IH]; intros Hm; cbn [ci_assign map fst] in *.
  - split; [apply NoDup_singleton|]. intros k ->%list_elem_of_singleton. by left.
  - apply NoDup_cons in Hm as [Hk Hm]. destruct (IH Hm) as [H1 H2]. destruct (ascii_iequals name k) eqn:E; cbn [map fst].
    + split; [by apply NoDup_cons|]. intros x Hx. by right.
    + split.
      * apply NoDup_cons. split; [|done]. intros [Hx|Hx]%H2; [|done]. unfold ascii_iequals in E. rewrite Hx, streq_refl in E. done.
      * intros x [->|Hx]%elem_of_cons; [right; left|]. destruct (H2 x Hx); [by left|right; by right].
Qed.

Lemma ci_assign_Forall {A} (P : list byte * A -> Prop) name v m :
  Forall P m -> P (name, v) -> (forall k w, (k, w) ∈ m -> lowercase k = lowercase name -> P (k, v)) -> Forall P (ci_assign name v m).
Proof.
  intros Hm Hv Hk. induction m as [|[k w] m IH]; cbn [ci_assign]; [by constructor|]. apply Forall_cons in Hm as [Hp Hm].
  destruct (ascii_iequals name k) eqn:E; constructor; try done.
  - eapply Hk; [left|]. symmetry. by apply iequals_true.
  - apply IH; [done|]. intros k' w' Hin. eapply Hk. by right.
Qed.

Lemma headers_ok_empty : headers_ok no_headers.
Proof. by split; constructor. Qed.

Lemma set_ok name value h h' : headers_ok h -> set name value h = Ok h' -> headers_ok h'.
Proof.
  intros [Hk Hf Hl] Hs. unfold set in Hs. case_if; [done|]. case_if; [done|]. injection Hs as <-. zbool.
  split; cbn [headers_ header_values_].
  - by apply ci_assign_keys.
  - apply ci_assign_Forall; [done..|]. intros k w Hin _. split; [|done]. rewrite Forall_forall in Hf. by apply (Hf (k, w)).
  - apply ci_assign_Forall; [done| |]; intros; by repeat constructor.
Qed.

Lemma add_ok name value h h' : headers_ok h -> add name value h = Ok h' -> headers_ok h'.
Proof.
  intros [Hk Hf Hl] Ha. unfold add in Ha. case_if; [done|]. case_if; [done|]. zbool.
  assert (forall k l, ci_find name (header_values_ h) = Some (k, l) -> Forall value_ok l) as Hlines.
  { intros k l [_ Hin]%ci_find_key. rewrite Forall_forall in Hl. by apply (Hl (k, l)). }
  destruct (ci_find name (headers_ h)) as [[key old]|] eqn:Ef.
  - pose proof (ci_find_key _ _ _ _ Ef) as [_ Hin]. rewrite Forall_forall in Hf. destruct (Hf _ Hin) as [Hkey Hold]. rewrite <-Forall_forall in Hf.
    case_if; [case_if; by simplify_eq|].
    assert (Forall value_ok (match ci_find name (header_values_ h) with Some (_, l) => l | None => [old] end ++ [value])) as Hnew.
    { apply Forall_app. split; [|by repeat constructor]. destruct (ci_find name (header_values_ h)) as [[k l]|]; [by eapply Hlines|by repeat constructor]. }
    assert (value_ok (old ++ str ", " ++ value)) as Hc by (apply value_ok_app; [done|]; apply value_ok_app; done).
    case_if; injection Ha as <-; split; cbn [headers_ header_values_]; try done; try (by apply ci_assign_Forall).
    + by apply ci_assign_keys.
    + apply ci_assign_Forall; [done..|]. intros k w Hin' _. split; [|done]. rewrite Forall_forall in Hf. by apply (Hf (k, w)).
  - injection Ha as <-. split; cbn [headers_ header_values_].
    + rewrite map_app. apply NoDup_app. split_and!; [done| |apply NoDup_singleton].
      intros x Hx ->%list_elem_of_singleton. cbn [fst] in *. apply list_elem_of_fmap in Hx as ([k v] & E & Hin).
      clear -Ef E Hin. induction (headers_ h) as [|[k' v'] m IH]; [by apply elem_of_nil in Hin|]. rewrite ci_find_cons in Ef.
      case_if; [done|]. apply elem_of_cons in Hin as [[= -> ->]|Hin]; [|by apply IH].
      cbn [fst] in E. unfold ascii_iequals in *. rewrite E, streq_refl in *. done.
    + apply Forall_app. split; [done|]. by repeat constructor.
    + destruct (ci_find name (header_values_ h)) as [e|]; [done|]. apply Forall_app. split; [done|]. by repeat constructor.
Qed.

Lemma remove_ok name h : headers_ok h -> headers_ok (remove name h).
Proof.
  intros [Hk Hf Hl]. split; cbn [headers_ header_values_ remove]; unfold ci_erase.
  - clear Hf. induction (headers_ h) as [|e m IH]; [constructor|]. apply NoDup_cons in Hk as [Hn Hk]. rewrite filter_cons.
    case_decide; [|by apply IH]. cbn [map]. apply NoDup_cons. split; [|by apply IH]. intros Hin. apply Hn.
    apply list_elem_of_fmap in Hin as (x & -> & Hx%list_elem_of_filter). apply list_elem_of_fmap. exists x. split; [done|apply Hx].
  - rewrite Forall_forall in *. intros e [_ He]%list_elem_of_filter. by apply Hf.
  - rewrite Forall_forall in *. intros e [_ He]%list_elem_of_filter. by apply Hl.
Qed.

Lemma header_exec_ok o h h' : headers_ok h -> exec o h = Ok h' -> headers_ok h'.
Proof.
  intros Hh. destruct o; cbn [exec]; intros He; simplify_eq; eauto using set_ok, add_ok, remove_ok, headers_ok_empty.
Qed.

(** A parser that has checked the line and looked for another Content-Length can add it. *)
Lemma add_checked name value h : is_valid_header_name name = true -> is_valid_header_value value = true -> trim_ows value = value ->
  (ascii_iequals name (str "Content-Length") = true -> contains (str "Content-Length") h = true -> trim_ows (get (str "Content-Length") h) = value) ->
  exists h', add name value h = Ok h'.
Proof.
  intros Hn Hv Ht Hcl. unfold add. rewrite Hn, Hv. cbn [negb]. destruct (ci_find name (headers_ h)) as [[key old]|] eqn:Hf; [|eauto].
  destruct (ascii_iequals name (str "Content-Length")) eqn:Hl; [|case_match; eauto]. specialize (Hcl eq_refl).
  apply iequals_true in Hl. unfold contains, get in Hcl. rewrite <-(ci_find_ext _ _ _ Hl), Hf in Hcl. rewrite Hcl, Ht, streq_refl; [eauto|].
  by apply bool_decide_true.
Qed.

(** ** The lines of a serialized collection *)

(** The field lines [serialize] writes, in the order of the table. *)
Definition lines (order : list (list byte * list byte)) (h : headers) : list (list byte * list byte) :=
  flat_map (fun '(name, value) =>
    match ci_find name (header_values_ h) with
    | Some (_, cookies) => if ascii_iequals name (str "Set-Cookie") then map (pair name) cookies else [(name, value)]
    | None => [(name, value)]
    end) order.

Definition write_lines (l : list (list byte * list byte)) : list byte := flat_map (fun '(n, v) => append_serialized_header n v) l.

Lemma serialize_lines order h : serialize order h = write_lines (lines order h).
Proof.
  unfold serialize, write_lines, lines. induction order as [|[n v] order IH]; [done|]. cbn [flat_map]. rewrite flat_map_app, IH. f_equal.
  destruct (ci_find n (header_values_ h)) as [[k l]|]; cbn [flat_map]; rewrite ?app_nil_r; [|done]. case_if; cbn [flat_map]; rewrite ?app_nil_r; [|done].
  clear. induction l as [|c l IH]; [done|]. cbn [flat_map map]. by rewrite IH.
Qed.

(** The values of the lines of one field. *)
Definition fields_of (l : list (list byte * list byte)) (k : list byte) : list (list byte) :=
  map snd (filter (fun e => lowercase e.1 = k) l).

Lemma fields_of_app l l' k : fields_of (l ++ l') k = fields_of l k ++ fields_of l' k.
Proof. unfold fields_of. by rewrite filter_app, map_app. Qed.

Lemma fields_of_cons n v l k : fields_of ((n, v) :: l) k = (if streq (lowercase n) k then [v] else []) ++ fields_of l k.
Proof. unfold fields_of. rewrite filter_cons. cbn [fst]. unfold streq. by case_decide; case_bool_decide. Qed.

Lemma fields_of_map g l k : fields_of (map (fun e => (e.1, g e.2)) l) k = map g (fields_of l k).
Proof.
  induction l as [|[n v] l IH]; [done|]. cbn [map fst snd]. rewrite !fields_of_cons, map_app, IH. by destruct (streq (lowercase n) k).
Qed.

Lemma unique_key name (m : list (list byte * list byte)) : NoDup (map (fun e => lowercase e.1) m) ->
  filter (fun e => lowercase e.1 = lowercase name) m = match ci_find name m with Some e => [e] | None => [] end.
Proof.
  induction m as [|[k v] m IH]; intros Hm; [done|]. cbn [map fst] in Hm. apply NoDup_cons in Hm as [Hk Hm].
  rewrite filter_cons, ci_find_cons. cbn [fst]. unfold ascii_iequals. rewrite IH by done. case_decide as E.
  - rewrite E, streq_refl. f_equal. destruct (ci_find name m) as [[k' v']|] eqn:Ef; [|done]. exfalso. apply Hk.
    apply ci_find_key in Ef as [E' Hin]. apply list_elem_of_fmap. exists (k', v'). split; [by rewrite E, E'|done].
  - rewrite (proj2 (streq_false _ _)); [done|]. congruence.
Qed.

Lemma enumerated_key name (order m : list (list byte * list byte)) : order ≡ₚ m -> NoDup (map (fun e => lowercase e.1) m) ->
  filter (fun e => lowercase e.1 = lowercase name) order = match ci_find name m with Some e => [e] | None => [] end.
Proof.
  intros Ho Hm. pose proof (unique_key name m Hm) as Hu. assert (filter (fun e => lowercase e.1 = lowercase name) order ≡ₚ filter (fun e => lowercase e.1 = lowercase name) m) as Hp by (by rewrite Ho).
  rewrite Hu in Hp. destruct (ci_find name m); [by apply Permutation_singleton_r in Hp|by apply Permutation_nil_r in Hp].
Qed.

(** One line for a field, of all its values; one line for every cookie. *)
Lemma fields_of_lines order h f name : headers_ok h -> represents h f -> order ≡ₚ headers_ h ->
  fields_of (lines order h) (lowercase name) =
  match f (lowercase name) with
  | [] => []
  | l => if ascii_iequals name (str "Set-Cookie") then l else [combined f name]
  end.
Proof.
  intros Hok Hr Ho. pose proof (enumerated_key name order _ Ho (ok_keys h Hok)) as Hk.
  assert (fields_of (lines order h) (lowercase name) =
    flat_map (fun e => fields_of (lines [e] h) (lowercase name)) (filter (fun e => lowercase e.1 = lowercase name) order)) as ->.
  { clear Hk Ho. induction order as [|[n v] order IH]; [done|]. change ((n, v) :: order) with ([(n, v)] ++ order) at 1.
    unfold lines. rewrite flat_map_app. fold (lines [(n, v)] h). fold (lines order h). rewrite fields_of_app, IH, filter_cons.
    case_decide as E; [done|]. cbn [fst] in E. replace (fields_of (lines [(n, v)] h) (lowercase name)) with (@nil (list byte)); [done|].
    assert (forall l, fields_of (map (pair n) l) (lowercase name) = []) as Hm.
    { intros l. unfold fields_of. induction l as [|c l IHl]; [done|]. cbn [map]. rewrite filter_cons. by case_decide. }
    unfold lines. cbn [flat_map]. rewrite app_nil_r. destruct (ci_find n (header_values_ h)) as [[k l]|]; [case_if|]; symmetry; [apply Hm|apply (Hm [v])..]. }
  rewrite Hk. specialize (Hr name). destruct (f (lowercase name)) as [|x l] eqn:Ef; [by destruct Hr as [-> _]|].
  destruct Hr as [[k E1] [k' E2]]. rewrite E1. cbn [flat_map]. rewrite app_nil_r. unfold lines. cbn [flat_map]. rewrite app_nil_r.
  pose proof (ci_find_key _ _ _ _ E1) as [Ek _]. rewrite <-(ci_find_ext name k), E2 by done. rewrite <-(iequals_ext name k) by done.
  assert (forall l, fields_of (map (pair k) l) (lowercase name) = l) as Hm.
  { intros l'. unfold fields_of. induction l' as [|c l' IHl]; [done|]. cbn [map]. rewrite filter_cons. case_decide as Hx; [|by destruct Hx]. cbn. by rewrite IHl. }
  case_if; [apply Hm|apply (Hm [_])].
Qed.

(** ** Lines on the wire *)

Lemma crlf_free_line n v : is_valid_token n = true -> is_valid_header_value v = true -> ch_cr ∉ n ++ str ": " ++ v.
Proof.
  intros Hn Hv [Hin|[Hin|Hin]%elem_of_app]%elem_of_app.
  - by apply (token_excludes ch_cr n).
  - change (str ": ") with [":"%byte; ch_space] in Hin. apply elem_of_cons in Hin as [?|?%list_elem_of_singleton]; done.
  - revert Hin. by apply value_excludes.
Qed.

Lemma value_ok_trim v : is_valid_header_value v = true -> is_valid_header_value (trim_ows v) = true.
Proof.
  destruct (trim_ows_spec v) as (w & w' & E & _ & _). unfold is_valid_header_value. rewrite E at 1. rewrite !forallb_app.
  by intros [_ [? _]%andb_true_iff]%andb_true_iff.
Qed.

(** A written line, taken apart: the value loses the white space around it. *)
Lemma written_line n v : is_valid_token n = true ->
  find ":" (n ++ str ": " ++ v) = Some (length n) /\ trim_ows (drop (S (length n)) (n ++ str ": " ++ v)) = trim_ows v.
Proof.
  intros Hn. change (str ": " ++ v) with (":"%byte :: ch_space :: v). split; [apply find_app_here; by apply token_excludes|].
  rewrite <-Nat.add_1_r, <-drop_drop, drop_app_length. cbn [drop]. rewrite <-(app_nil_r v) at 1. apply (trim_ows_around [ch_space] v []); repeat constructor.
Qed.

Definition trim_line (e : list byte * list byte) : list byte * list byte := (e.1, trim_ows e.2).

(** Lines that can be written and read: tokens, values without control characters, within the limit. *)
Definition line_ok (max : Z) (e : list byte * list byte) : Prop :=
  is_valid_token e.1 = true /\ is_valid_header_value e.2 = true /\ zlen (e.1 ++ str ": " ++ e.2) <= max.

Definition one_length (l : list (list byte * list byte)) : Prop := (length (fields_of l (lowercase (str "Content-Length"))) <= 1)%nat.

(** A reader that has the lines [read] sees a first Content-Length, and adds the line to what it has. *)
Lemma first_length h f read n v l : represents h f -> (forall k, f k = fields_of read k) -> one_length (read ++ (n, v) :: l) ->
  ascii_iequals n (str "Content-Length") = true -> f (lowercase (str "Content-Length")) = [] /\ contains (str "Content-Length") h = false.
Proof.
  intros Hf Hk Ho Hcl%iequals_true. assert (f (lowercase (str "Content-Length")) = []) as Hnil.
  { rewrite Hk. unfold one_length in Ho. rewrite fields_of_app, fields_of_cons, length_app, Hcl, streq_refl in Ho.
    cbn [app length] in Ho. destruct (fields_of read _); [done|]. cbn in Ho. lia. }
  split; [done|]. destruct (represents_get _ _ (str "Content-Length") Hf) as (_ & _ & ->). rewrite Hnil. done.
Qed.

Lemma read_one_line h f read n v l h' : represents h f -> (forall k, f k = fields_of read k) -> one_length (read ++ (n, v) :: l) ->
  is_valid_token n = true -> is_valid_header_value v = true -> add n (trim_ows v) h = Ok h' ->
  exists f', represents h' f' /\ (forall k, f' k = fields_of (read ++ [trim_line (n, v)]) k) /\ one_length ((read ++ [trim_line (n, v)]) ++ l).
Proof.
  intros Hf Hk Ho Hn Hv Ha. pose proof (represents_add h f n (trim_ows v) Hf) as Hadd. rewrite Ha in Hadd. destruct Hadd as (f' & Hf' & Hrep).
  exists f'. split; [done|]. split.
  - intros k. cbn [spec_exec] in Hf'. rewrite Hn, (value_ok_trim v Hv) in Hf'. cbn [negb] in Hf'.
    destruct (ascii_iequals n (str "Content-Length") && _) eqn:Hd.
    + apply andb_true_iff in Hd as [Hcl Hd]. destruct (first_length h f read n v l Hf Hk Ho Hcl) as [Hnil _]. apply iequals_true in Hcl.
      rewrite bool_decide_eq_true, Hcl in Hd. by destruct (Hd Hnil).
    + injection Hf' as <-. rewrite fields_of_app. unfold trim_line. rewrite fields_of_cons. cbn [fst snd]. unfold update_field, streq.
      destruct (decide (k = lowercase n)) as [->|Hne]; [by rewrite !bool_decide_true, Hk|]. rewrite !bool_decide_false by congruence. by rewrite Hk, app_nil_r.
  - unfold one_length in *. rewrite !fields_of_app, !length_app in *. unfold trim_line. rewrite fields_of_cons in *. cbn [fst snd] in *.
    rewrite length_app in *. destruct (streq (lowercase n) _); cbn in *; lia.
Qed.

End Headers.
