(* ===== verification/HttpUrl.v ===== *)
(** * URLs, percent-encoding and query strings

    Models the struct [url], [remove_dot_segments], [merge_url_paths] and the functions [url_encode],
    [url_decode] and [parse_query_string] of [src/include/elio/http/http_common.hpp].  Loops over
    the rest of a string take its length as fuel. *)

From Stdlib Require Import Strings.Byte Strings.String ZifyBool.
From S2P Require Import Prelude Str HttpCommon.

Module Url.
Export Http.

(** ** Paths *)

Definition dot : list byte := str ".".
Definition dot_dot : list byte := str "..".

(** One segment of the loop; [segments] is the vector, the last element first. *)
Definition push_segment (absolute : bool) (segments : list (list byte)) (segment : list byte) : list (list byte) :=
  if streq segment [] || streq segment dot then segments
  else if streq segment dot_dot then
    match segments with
    | back :: rest => if negb (streq back dot_dot) then rest
                      else if negb absolute then segment :: segments else segments
    | [] => if negb absolute then [segment] else []
    end
  else segment :: segments.

Definition append_segment (absolute : bool) (result segment : list byte) (first : bool) : list byte :=
  (if negb first || (absolute && (1 <? length result)%nat) then result ++ ["/"%byte] else result) ++ segment.

Fixpoint join_segments (absolute : bool) (result : list byte) (segments : list (list byte)) (first : bool) : list byte :=
  match segments with
  | [] => result
  | s :: rest => join_segments absolute (append_segment absolute result s first) rest false
  end.

Definition remove_dot_segments (path : list byte) : list byte :=
  match path with
  | [] => []
  | front :: _ =>
      let absolute := Byte.eqb front "/" in
      let trailing_separator := bool_decide (last path = Some "/"%byte) in
      let trailing_dot := streq path dot || ends_with (str "/.") path in
      let trailing_dot_dot := streq path dot_dot || ends_with (str "/..") path in
      let segments := fold_left (push_segment absolute) (split_on "/" path) [] in
      let result := join_segments absolute (if absolute then ["/"%byte] else []) (reverse segments) true in
      let result := if (trailing_separator || trailing_dot || trailing_dot_dot) &&
                       negb (streq result []) && negb (bool_decide (last result = Some "/"%byte))
                    then result ++ ["/"%byte] else result in
      if streq result [] && absolute then ["/"%byte] else result
  end.

Definition merge_url_paths (base_path reference_path : list byte) : list byte :=
  match base_path with
  | [] => "/"%byte :: reference_path
  | _ => match rfind "/" base_path with
         | None => "/"%byte :: reference_path
         | Some last_slash => take (S last_slash) base_path ++ reference_path
         end
  end.

Definition parse_url_port (value : list byte) : option Z := parse_port value.

(** ** URLs *)

Record url := Url {
  scheme : list byte;
  host : list byte;
  port : Z;
  path : list byte;
  query : list byte;
  fragment : list byte;
  userinfo : list byte
}.

(** An optional part, printed with its delimiter only when it is not empty. *)
Definition optional_part (c : byte) (s : list byte) : list byte := match s with [] => [] | _ => c :: s end.

Definition path_with_query (u : url) : list byte :=
  let p := match path u with [] => ["/"%byte] | p => p end in
  match query u with [] => p | q => p ++ "?"%byte :: q end.

Definition default_port (u : url) : Z :=
  if streq (scheme u) (str "https") then 443 else if streq (scheme u) (str "http") then 80 else 80.

Definition effective_port (u : url) : Z := if negb (port u =? 0) then port u else default_port u.

Definition is_secure (u : url) : bool := streq (scheme u) (str "https").

Definition host_authority (u : url) : list byte :=
  let result := match find ":" (host u) with Some _ => "["%byte :: host u ++ ["]"%byte] | None => host u end in
  if negb (port u =? 0) && negb (port u =? default_port u) then result ++ ":"%byte :: to_string (port u) else result.

Definition authority (u : url) : list byte :=
  match userinfo u with [] => host_authority u | i => i ++ "@"%byte :: host_authority u end.

Definition to_string (u : url) : list byte :=
  scheme u ++ str "://" ++ authority u ++ path_with_query u ++ optional_part "#" (fragment u).

(** [str.find(c)], then what is before and after it; all of the string when it is not there. *)
Definition cut (c : byte) (s : list byte) : list byte * option (list byte) :=
  match find c s with
  | Some i => (take i s, Some (drop (S i) s))
  | None => (s, None)
  end.

Definition parse_host_port (s : list byte) : option (list byte * Z) :=
  if front_is "[" s then
    match find "]" s with
    | None => None
    | Some bracket_end =>
        let host := substr s 1 (bracket_end - 1) in
        match drop (S bracket_end) s with
        | [] => Some (host, 0)
        | c :: rest =>
            if Byte.eqb c ":" then match parse_url_port rest with Some p => Some (host, p) | None => None end
            else None
        end
    end
  else
    match rfind ":" s with
    | Some colon_pos =>
        let host := take colon_pos s in
        match parse_url_port (drop (S colon_pos) s) with
        | None => None
        | Some p => match find ":" host with Some _ => None | None => Some (host, p) end
        end
    | None => Some (s, 0)
    end.

Definition parse (s : list byte) : option url :=
  if negb (is_valid_url_input s) then None
  else
    let '(scheme, s) := match find_sub (str "://") s with
                        | None => (str "http", s)
                        | Some i => (take i s, drop (i + 3) s)
                        end in
    let scheme := lowercase scheme in
    let '(s, fragment) := cut "#" s in
    let '(s, query) := cut "?" s in
    let '(s, path) := match find "/" s with Some i => (take i s, drop i s) | None => (s, ["/"%byte]) end in
    let '(userinfo, s) := match cut "@" s with (a, Some b) => (a, b) | (a, None) => ([], a) end in
    match parse_host_port s with
    | None => None
    | Some (h, p) =>
        match h with
        | [] => None
        | _ => Some (Url scheme h p path (default [] query) (default [] fragment) userinfo)
        end
    end.

Definition with_path (p : list byte) (u : url) : url :=
  Url (scheme u) (host u) (port u) p (query u) (fragment u) (userinfo u).

Definition resolve_reference (base : url) (reference : list byte) : option url :=
  if negb (is_valid_url_input reference) then None
  else if has_uri_scheme reference then (fun u => with_path (remove_dot_segments (path u)) u) <$> parse reference
  else if starts_with (str "//") reference then
    (fun u => with_path (remove_dot_segments (path u)) u) <$> parse (scheme base ++ ":"%byte :: reference)
  else
    let '(path_and_query, reference_fragment) := cut "#" reference in
    let '(reference_path, reference_query) := cut "?" path_and_query in
    let '(p, q) :=
      if streq reference_path [] then (path base, default (query base) reference_query)
      else if front_is "/" reference_path then (remove_dot_segments reference_path, default [] reference_query)
      else (remove_dot_segments (merge_url_paths (path base) reference_path), default [] reference_query) in
    Some (Url (scheme base) (host base) (port base) (match p with [] => ["/"%byte] | _ => p end) q
              (default [] reference_fragment) (userinfo base)).

(** ** Percent-encoding *)

Definition hex_upper (d : Z) : byte := z2b (if d <? 10 then 48 + d else 55 + d).

Definition is_unreserved (c : byte) : bool := is_upper c || is_lower c || is_digit c || existsb (Byte.eqb c) (str "-_.~").

Definition url_encode (s : list byte) : list byte :=
  flat_map (fun c => if is_unreserved c then [c]
                     else [x25; hex_upper (Z.shiftr (b2z c) 4); hex_upper (Z.land (b2z c) 0x0F)]) s.

Fixpoint url_decode (s : list byte) : list byte :=
  match s with
  | [] => []
  | c :: rest =>
      if Byte.eqb c "%" then
        match rest with
        | h :: l :: rest' =>
            match digit_value 16 h, digit_value 16 l with
            | Some hi, Some lo => z2b (Z.lor (Z.shiftl hi 4) lo) :: url_decode rest'
            | _, _ => c :: url_decode rest
            end
        | _ => c :: url_decode rest
        end
      else if Byte.eqb c "+" then ch_space :: url_decode rest
      else c :: url_decode rest
  end.

(** [result[key] = value] on the map of the parameters. *)
Definition add_param (pair : list byte) (result : list (list byte * list byte)) : list (list byte * list byte) :=
  let put k v := (k, v) :: filter (fun e => e.1 <> k) result in
  match cut "=" pair with
  | (key, Some value) => put (url_decode key) (url_decode value)
  | (key, None) => if streq key [] then result else put (url_decode key) []
  end.

(** The map, its entries in no particular order. *)
Definition parse_query_string (query : list byte) : list (list byte * list byte) :=
  if streq query [] then [] else fold_left (fun result pair => add_param pair result) (split_on "&" query) [].

(** ** Percent-encoding: facts *)

Definition encode_byte (c : byte) : list byte :=
  if is_unreserved c then [c] else [x25; hex_upper (Z.shiftr (b2z c) 4); hex_upper (Z.land (b2z c) 0x0F)].

Lemma url_decode_byte c rest : url_decode (encode_byte c ++ rest) = c :: url_decode rest.
Proof. by destruct c. Qed.

(** The bytes of an encoding are unreserved characters and percent signs. *)
Lemma encode_byte_chars c : forallb (fun d => is_unreserved d || Byte.eqb d "%") (encode_byte c) = true.
Proof. by destruct c. Qed.

Lemma url_encode_chars s : Forall (fun d => is_unreserved d || Byte.eqb d "%" = true) (url_encode s).
Proof.
  induction s as [|c s IH]; [constructor|]. change (url_encode (c :: s)) with (encode_byte c ++ url_encode s).
  apply Forall_app. split; [|done]. apply List.Forall_forall, forallb_forall, encode_byte_chars.
Qed.

Lemma url_decode_encode_app s rest : url_decode (url_encode s ++ rest) = s ++ url_decode rest.
Proof.
  induction s as [|c s IH]; [done|]. change (url_encode (c :: s)) with (encode_byte c ++ url_encode s).
  by rewrite <-app_assoc, url_decode_byte, IH.
Qed.

Lemma url_decode_encode s : url_decode (url_encode s) = s.
Proof. rewrite <-(app_nil_r (url_encode s)), url_decode_encode_app. apply app_nil_r. Qed.

Lemma url_encode_not_in c s : is_unreserved c || Byte.eqb c "%" = false -> c ∉ url_encode s.
Proof. intros Hc Hin. pose proof (url_encode_chars s) as HF. rewrite Forall_forall in HF. apply HF in Hin. congruence. Qed.

(** ** Query strings *)

(** A query string for a list of parameters. *)
Definition encode_param (p : list byte * list byte) : list byte := url_encode p.1 ++ "="%byte :: url_encode p.2.

Fixpoint encode_params (ps : list (list byte * list byte)) : list byte :=
  match ps with
  | [] => []
  | [p] => encode_param p
  | p :: ps => encode_param p ++ "&"%byte :: encode_params ps
  end.

(** The last value given to a key. *)
Definition lookup_param (k : list byte) (l : list (list byte * list byte)) : option (list byte) :=
  snd <$> (snd <$> list_find (fun e => e.1 = k) l).

Lemma encode_param_no_amp p : "&"%byte ∉ encode_param p.
Proof.
  unfold encode_param. rewrite not_elem_of_app, not_elem_of_cons. split_and!; [by apply url_encode_not_in|done|by apply url_encode_not_in].
Qed.

Lemma add_param_encode p l : add_param (encode_param p) l = p :: filter (fun e => e.1 <> p.1) l.
Proof.
  destruct p as [k v]. unfold add_param, encode_param, cut. cbn [fst snd]. rewrite find_app_here by (by apply url_encode_not_in).
  rewrite take_app_length, (drop_app_ge (url_encode k)) by lia.
  replace (S (length (url_encode k)) - length (url_encode k))%nat with 1%nat by lia. cbn [drop]. by rewrite drop_0, !url_decode_encode.
Qed.

Lemma parse_encode_params ps : parse_query_string (encode_params ps) = fold_left (fun l p => p :: filter (fun e => e.1 <> p.1) l) ps [].
Proof.
  unfold parse_query_string. destruct ps as [|p ps]; [done|].
  assert (forall q qs, split_on "&" (encode_params (q :: qs)) = map encode_param (q :: qs)) as Hs.
  { intros q qs. revert q. induction qs as [|q' qs IH]; intros q; [apply split_on_none, encode_param_no_amp|].
    change (encode_params (q :: q' :: qs)) with (encode_param q ++ "&"%byte :: encode_params (q' :: qs)).
    rewrite split_on_here by apply encode_param_no_amp. by rewrite IH. }
  assert (streq (encode_params (p :: ps)) [] = false) as ->.
  { apply bool_decide_false. destruct ps; cbn [encode_params]; unfold encode_param; intros E;
      apply (f_equal length) in E; rewrite ?length_app in E; cbn in E; rewrite ?length_app in E; cbn in E; lia. }
  rewrite Hs. generalize (p :: ps). intros l. generalize (@nil (list byte * list byte)). induction l as [|q l IH]; intros acc; [done|].
  cbn [map fold_left]. by rewrite add_param_encode.
Qed.

Lemma lookup_param_cons k e l : lookup_param k (e :: l) = if decide (e.1 = k) then Some e.2 else lookup_param k l.
Proof. unfold lookup_param. cbn [list_find]. case_decide; [done|]. by destruct (list_find _ l) as [[]|]. Qed.

(** Query parameters survive the trip: when keys and values, arbitrary bytes, are encoded with
    [url_encode] and joined with equals signs and ampersands, [parse_query_string] gives every key the
    last value it was given, and gives no other keys a value. *)
Theorem query_round_trip ps k : lookup_param k (parse_query_string (encode_params ps)) = lookup_param k (reverse ps).
Proof.
  rewrite parse_encode_params. induction ps as [|p ps IH] using rev_ind; [done|].
  rewrite fold_left_app, reverse_app. cbn [fold_left reverse app]. change (reverse [p] ++ reverse ps) with (p :: reverse ps).
  rewrite !lookup_param_cons. case_decide as Hk; [done|]. rewrite <-IH. generalize (fold_left (fun l p => p :: filter (fun e => e.1 <> p.1) l) ps []).
  intros l. induction l as [|e l IHl]; [done|]. rewrite filter_cons. case_decide as He; rewrite !lookup_param_cons; case_decide; try done.
  all: rewrite ?IHl; congruence.
Qed.

(** ** Printing and parsing URLs *)

(** Neither a space nor a control character. *)
Definition clean (c : byte) : Prop := (b2z c <=? 0x20) || (b2z c =? 0x7F) = false.

(** What can be printed and read back. *)
Record printable (u : url) : Prop := {
  pr_scheme : lowercase (scheme u) = scheme u;
  pr_scheme_end rest : find_sub (str "://") (scheme u ++ str "://" ++ rest) = Some (length (scheme u));
  pr_chars : Forall clean (scheme u ++ host u ++ path u ++ query u ++ fragment u ++ userinfo u);
  pr_userinfo : "/"%byte ∉ userinfo u /\ "?"%byte ∉ userinfo u /\ "#"%byte ∉ userinfo u /\ "@"%byte ∉ userinfo u;
  pr_host : "/"%byte ∉ host u /\ "?"%byte ∉ host u /\ "#"%byte ∉ host u;
  pr_host_nonempty : host u <> [];
  pr_host_at : "@"%byte ∈ host u -> userinfo u <> [];
  pr_host_bracket : front_is "[" (host u) = false;
  pr_host_colon : ":"%byte ∈ host u -> "]"%byte ∉ host u;
  pr_port : 0 <= port u <= 65535;
  pr_path : exists p, path u = "/"%byte :: p;
  pr_path_chars : "?"%byte ∉ path u /\ "#"%byte ∉ path u;
  pr_query : "#"%byte ∉ query u
}.

(** A port that is the scheme's own is not printed. *)
Definition normalized (u : url) : url :=
  Url (scheme u) (host u) (if port u =? default_port u then 0 else port u) (path u) (query u) (fragment u) (userinfo u).

Lemma cut_none c s : c ∉ s -> cut c s = (s, None).
Proof. intros H. unfold cut. by rewrite (proj2 (find_None _ _)). Qed.

Lemma cut_here c a b : c ∉ a -> cut c (a ++ c :: b) = (a, Some b).
Proof.
  intros H. unfold cut. rewrite find_app_here by done. rewrite take_app_length, drop_app_ge by lia.
  by replace (S (length a) - length a)%nat with 1%nat by lia.
Qed.

Lemma cut_optional c a s : c ∉ a -> exists o, cut c (a ++ optional_part c s) = (a, o) /\ default [] o = s.
Proof.
  intros Ha. destruct s as [|d s]; cbn [optional_part].
  - exists None. by rewrite app_nil_r, cut_none.
  - exists (Some (d :: s)). by rewrite cut_here.
Qed.

Lemma to_string_digits n : 0 <= n -> Forall (fun c => is_digit c = true) (Str.to_string n).
Proof.
  intros Hn. apply to_chars_digits; [lia..|]. intros d Hd. unfold digit_char. rewrite (proj2 (Z.ltb_lt _ _)) by lia.
  unfold is_digit, between. rewrite b2z_z2b_small by lia. lia.
Qed.

Lemma digits_not_in c n : is_digit c = false -> 0 <= n -> c ∉ Str.to_string n.
Proof. intros Hc Hn Hin. pose proof (to_string_digits n Hn) as HF. rewrite Forall_forall in HF. apply HF in Hin. congruence. Qed.

Lemma parse_port_print n : 0 < n <= 65535 -> parse_port (Str.to_string n) = Some n.
Proof.
  intros Hn. unfold parse_port, Str.to_string. rewrite <-(app_nil_r (to_chars 10 n)), from_chars_to_chars by (done || lia).
  by rewrite (proj2 (Z.eqb_neq _ _)) by lia.
Qed.

Section Print.
Context (u : url) (Hu : printable u).

Let shown_port : list byte := if negb (port u =? 0) && negb (port u =? default_port u) then ":"%byte :: Str.to_string (port u) else [].

Lemma host_authority_shown : host_authority u =
  match find ":" (host u) with Some _ => "["%byte :: host u ++ ["]"%byte] | None => host u end ++ shown_port.
Proof. unfold host_authority, shown_port. case_if; [done|]. by rewrite app_nil_r. Qed.

Lemma host_authority_chars c : is_digit c = false -> c <> ":"%byte -> c <> "["%byte -> c <> "]"%byte -> c ∉ host u -> c ∉ host_authority u.
Proof.
  intros Hd H1 H2 H3 Hc. rewrite host_authority_shown, not_elem_of_app. split.
  - destruct (find ":" (host u)); [|done]. rewrite not_elem_of_cons, not_elem_of_app, list_elem_of_singleton. done.
  - unfold shown_port. case_if; [|apply not_elem_of_nil]. rewrite not_elem_of_cons. split; [done|]. apply digits_not_in; [done|]. apply Hu.
Qed.

Lemma parse_host_authority : parse_host_port (host_authority u) = Some (host u, if port u =? default_port u then 0 else port u).
Proof.
  rewrite host_authority_shown. pose proof (pr_port u Hu) as Hp. unfold parse_host_port.
  assert (shown_port = [] /\ (if port u =? default_port u then 0 else port u) = 0 \/
          shown_port = ":"%byte :: Str.to_string (port u) /\ (if port u =? default_port u then 0 else port u) = port u /\ 0 < port u <= 65535) as Hs.
  { unfold shown_port. destruct (Z.eqb_spec (port u) (default_port u)); [left; by rewrite andb_false_r|].
    destruct (Z.eqb_spec (port u) 0); [by left|right]. split_and!; [done|done|lia..]. }
  destruct (find ":" (host u)) as [i|] eqn:Ef.
  - cbn [app front_is]. rewrite byte_eqb_refl. rewrite <-app_assoc. cbn [app].
    assert ("]"%byte ∉ host u) as Hb by (apply (pr_host_colon u Hu); apply find_Some in Ef as [Hl _]; by eapply list_elem_of_lookup_2).
    change ("["%byte :: host u ++ "]"%byte :: shown_port) with (("["%byte :: host u) ++ "]"%byte :: shown_port).
    rewrite find_app_here by (by rewrite not_elem_of_cons). rewrite drop_app_ge by (cbn; lia).
    replace (S (length ("["%byte :: host u)) - length ("["%byte :: host u))%nat with 1%nat by lia. cbn [drop].
    assert (substr (("["%byte :: host u) ++ "]"%byte :: shown_port) 1 (length ("["%byte :: host u) - 1) = host u) as ->.
    { unfold substr. cbn [app drop]. rewrite drop_0. cbn [length]. rewrite Nat.sub_succ, Nat.sub_0_r. by rewrite take_app_length. }
    rewrite drop_0. destruct Hs as [[-> ->]|(-> & -> & Hr)]; [done|]. rewrite byte_eqb_refl. unfold parse_url_port. by rewrite parse_port_print.
  - pose proof (proj1 (find_None _ _) Ef) as Hc. pose proof (pr_host_nonempty u Hu) as Hne. pose proof (pr_host_bracket u Hu) as Hbr.
    assert (front_is "[" (host u ++ shown_port) = false) as -> by (by destruct (host u)).
    destruct Hs as [[-> ->]|(-> & -> & Hr)].
    + rewrite app_nil_r. by rewrite (proj2 (rfind_None _ _)).
    + rewrite rfind_app_here by (apply digits_not_in; [done|lia]). rewrite take_app_length, drop_app_ge by lia.
      replace (S (length (host u)) - length (host u))%nat with 1%nat by lia. cbn [drop]. unfold parse_url_port.
      rewrite drop_0, parse_port_print by done. by rewrite Ef.
Qed.

Lemma host_authority_clean : Forall clean (host_authority u).
Proof.
  pose proof (pr_chars u Hu) as Hc. rewrite !Forall_app in Hc. rewrite host_authority_shown. apply Forall_app. split.
  - destruct (find ":" (host u)); [|apply Hc]. apply Forall_cons_2; [done|]. apply Forall_app. split; [apply Hc|by repeat constructor].
  - unfold shown_port. case_if; [|constructor]. apply Forall_cons_2; [done|].
    eapply Forall_impl; [apply to_string_digits, Hu|]. intros c Hd. unfold is_digit, between, clean in *. lia.
Qed.

Lemma path_with_query_shown : path_with_query u = path u ++ optional_part "?" (query u).
Proof. unfold path_with_query. destruct (pr_path u Hu) as [p ->]. destruct (query u); [by rewrite app_nil_r|done]. Qed.

Lemma to_string_clean : Forall clean (to_string u).
Proof.
  pose proof (pr_chars u Hu) as Hc. rewrite !Forall_app in Hc. pose proof host_authority_clean. destruct Hc as (? & ? & ? & ? & ? & ?).
  unfold to_string. rewrite path_with_query_shown, !Forall_app. split_and!; [done|by repeat constructor| |done| |].
  - unfold authority. destruct (userinfo u) as [|i is_]; [done|]. apply Forall_app. split; [done|]. by apply Forall_cons_2.
  - unfold optional_part. destruct (query u); [constructor|]. by apply Forall_cons_2.
  - unfold optional_part. destruct (fragment u); [constructor|]. by apply Forall_cons_2.
Qed.

Lemma authority_chars c : is_digit c = false -> c <> ":"%byte -> c <> "["%byte -> c <> "]"%byte -> c <> "@"%byte ->
  c ∉ userinfo u -> c ∉ host u -> c ∉ authority u.
Proof.
  intros Hd H1 H2 H3 H4 Hi Hh. assert (c ∉ host_authority u) by (by apply host_authority_chars).
  unfold authority. destruct (userinfo u); [done|]. rewrite not_elem_of_app. split; [done|]. by rewrite not_elem_of_cons.
Qed.

Lemma parse_print : parse (to_string u) = Some (normalized u).
Proof.
  assert (is_valid_url_input (to_string u) = true) as Hv.
  { unfold is_valid_url_input. pose proof to_string_clean as HF. destruct (to_string u) as [|c s] eqn:E.
    - unfold to_string in E. apply (f_equal length) in E. rewrite !length_app in E. cbn in E. lia.
    - rewrite <-E in *. apply negb_true_iff. unfold has_request_target_forbidden_char. apply not_true_iff_false.
      intros (x & Hin & Hx)%existsb_exists. rewrite List.Forall_forall in HF. apply HF in Hin. unfold clean in Hin. congruence. }
  unfold parse. rewrite Hv. cbn [negb].
  pose proof (pr_userinfo u Hu) as Hi. pose proof (pr_host u Hu) as Hh. pose proof (pr_path_chars u Hu) as Hp.
  destruct Hi as (Hi1 & Hi2 & Hi3 & Hi4), Hh as (Hh1 & Hh2 & Hh3), Hp as [Hp2 Hp3].
  unfold to_string. rewrite pr_scheme_end by done. rewrite take_app_length.
  rewrite drop_app_ge by lia. replace (length (scheme u) + 3 - length (scheme u))%nat with 3%nat by lia.
  change (drop 3 (str "://" ++ ?x)) with x. rewrite pr_scheme by done. rewrite path_with_query_shown, app_assoc.
  assert ("/"%byte ∉ authority u /\ "?"%byte ∉ authority u /\ "#"%byte ∉ authority u) as (Ha1 & Ha2 & Ha3)
    by (split_and!; by apply authority_chars).
  assert ("#"%byte ∉ authority u ++ path u ++ optional_part "?" (query u)) as H1.
  { rewrite !not_elem_of_app. split_and!; [done..|]. unfold optional_part. pose proof (pr_query u Hu).
    destruct (query u); [apply not_elem_of_nil|]. by rewrite not_elem_of_cons. }
  destruct (cut_optional "#" _ (fragment u) H1) as (o1 & -> & E1). rewrite app_assoc.
  assert ("?"%byte ∉ authority u ++ path u) as H2 by (by rewrite not_elem_of_app).
  destruct (cut_optional "?" _ (query u) H2) as (o2 & -> & E2). destruct (pr_path u Hu) as [p Ep].
  rewrite Ep at 1. rewrite find_app_here, take_app_length, drop_app_length by done. rewrite E1, E2.
  assert (match cut "@" (authority u) with (a, Some b) => (a, b) | (a, None) => ([], a) end = (userinfo u, host_authority u)) as ->.
  { unfold authority. destruct (userinfo u) as [|i is_] eqn:Ei; [|by rewrite cut_here].
    rewrite cut_none; [done|]. apply host_authority_chars; try done. intros Hin. by apply (pr_host_at u Hu). }
  rewrite parse_host_authority. pose proof (pr_host_nonempty u Hu). unfold normalized. by destruct (host u).
Qed.

End Print.

(** ** What [parse] returns can be printed *)

Lemma prefix3 (a b c : byte) (j : nat) (s : list byte) : [a; b; c] `prefix_of` drop j s <-> s !! j = Some a /\ s !! S j = Some b /\ s !! S (S j) = Some c.
Proof.
  assert (s !! j = drop j s !! 0%nat /\ s !! S j = drop j s !! 1%nat /\ s !! S (S j) = drop j s !! 2%nat) as (-> & -> & ->)
    by (rewrite !lookup_drop; rewrite ?Nat.add_0_r, ?Nat.add_1_r; do 2 (split; [done|]); f_equal; lia).
  destruct (drop j s) as [|x [|y [|z l]]]; cbn; split; try (by intros [k Hk]); try (by intros (? & ? & ?)).
  - intros [k Hk]. by simplify_eq/=.
  - intros (? & ? & ?). simplify_eq. by exists l.
Qed.

Lemma tolower_fix d c : tolower c = d -> isalpha d = false -> c = d.
Proof.
  unfold tolower, isalpha, is_upper, is_lower, between. intros <- H. case_if; [|done].
  zbool. rewrite b2z_z2b_small in * by lia. lia.
Qed.

Lemma scheme_end s i rest : find_sub (str "://") s = Some i ->
  find_sub (str "://") (lowercase (take i s) ++ str "://" ++ rest) = Some (length (lowercase (take i s))).
Proof.
  intros (Hp & Hi & Hj)%find_sub_Some. apply find_sub_app_here. unfold lowercase. rewrite length_map, length_take_le by done.
  intros j Hlt (H0 & H1 & H2)%(prefix3 ":" "/" "/"). apply (Hj j Hlt). apply (prefix3 ":" "/" "/").
  assert (forall k, (k < i)%nat -> (map tolower (take i s) ++ str "://" ++ rest) !! k = tolower <$> s !! k) as Hk.
  { intros k Hk. rewrite lookup_app_l by (rewrite length_map, length_take_le by done; lia).
    rewrite list_lookup_fmap, lookup_take_lt by done. done. }
  assert ((map tolower (take i s) ++ str "://" ++ rest) !! i = Some ":"%byte) as Hi'.
  { rewrite lookup_app_r by (rewrite length_map, length_take_le by done; lia). by rewrite length_map, length_take_le, Nat.sub_diag by done. }
  destruct (decide (S j = i)) as [E|]; [rewrite E, Hi' in H1; done|]. destruct (decide (S (S j) = i)) as [E|]; [rewrite E, Hi' in H2; done|].
  rewrite !Hk in H0, H1, H2 by lia. apply fmap_Some in H0 as (c0 & -> & E0), H1 as (c1 & -> & E1), H2 as (c2 & -> & E2).
  symmetry in E0, E1, E2. apply tolower_fix in E0 as ->, E1 as ->, E2 as ->; done.
Qed.

Lemma cut_spec c s a o : cut c s = (a, o) -> c ∉ a /\ s = a ++ match o with Some b => c :: b | None => [] end.
Proof.
  unfold cut. destruct (find c s) as [i|] eqn:E; intros [= <- <-].
  - by apply find_split in E as [? ?].
  - apply find_None in E. by rewrite app_nil_r.
Qed.

Lemma elem_of_take_in i (c : byte) s : c ∈ take i s -> c ∈ s.
Proof. intros (k & ? & ?)%elem_of_take. by eapply list_elem_of_lookup_2. Qed.

Lemma parse_host_port_spec s h p : parse_host_port s = Some (h, p) ->
  0 <= p <= 65535 /\ (forall c, c ∈ h -> c ∈ s) /\ (":"%byte ∈ h -> "]"%byte ∉ h).
Proof.
  assert (forall t q, parse_url_port t = Some q -> 0 <= q <= 65535) as Hport.
  { intros t q. unfold parse_url_port, parse_port. destruct (from_chars 10 65535 t) as [[v [|]]|] eqn:E; [|done..].
    case_if; [done|]. intros [= <-]. eapply (from_chars_range 10); [lia|done]. }
  unfold parse_host_port. case_if.
  - destruct (find "]" s) as [i|] eqn:E; [|done]. pose proof (find_split _ _ _ E) as [_ Hn].
    assert (forall c, c ∈ substr s 1 (i - 1) -> c ∈ take i s) as Hsub.
    { intros c Hc. unfold substr in Hc. destruct s as [|x s]; [by rewrite drop_nil, take_nil in Hc|]. cbn [drop] in Hc. rewrite drop_0 in Hc.
      destruct i as [|i]; [cbn in Hc; by apply elem_of_nil in Hc|]. cbn [take]. rewrite Nat.sub_succ, Nat.sub_0_r in Hc. by right. }
    assert (forall c, c ∈ substr s 1 (i - 1) -> c ∈ s) as Hs by (intros c Hc%Hsub; by apply (elem_of_take_in i)).
    destruct (drop (S i) s) as [|c rest]; [|case_if; [|done]; destruct (parse_url_port rest) eqn:Ep; [|done]]; intros [= <- <-].
    + split_and!; [lia..|done|]. intros _ Hc. apply Hn. by apply Hsub.
    + split_and!; [by eapply Hport..|done|]. intros _ Hc. apply Hn. by apply Hsub.
  - destruct (rfind ":" s) as [i|] eqn:E.
    + destruct (parse_url_port _) eqn:Ep; [|done]. destruct (find ":" (take i s)) eqn:Ef; [done|]. intros [= <- <-]. apply find_None in Ef.
      split_and!; [by eapply Hport..| |done]. intros c Hc. by apply (elem_of_take_in i).
    + intros [= <- <-]. apply rfind_None in E. split_and!; [lia..|done|done].
Qed.

Lemma tolower_clean c : clean c -> clean (tolower c).
Proof. by destruct c. Qed.

Lemma optional_in c (a : list byte) (o : option (list byte)) x :
  x ∈ default [] o -> x ∈ a ++ match o with Some b => c :: b | None => [] end.
Proof. destruct o; cbn; intros Hx; [apply elem_of_app; right; by right|by apply elem_of_nil in Hx]. Qed.

(** The part of [parse] after the scheme. *)
Lemma parse_parts s u : parse s = Some u -> exists sch rest,
  is_valid_url_input s = true /\
  ((sch = str "http" /\ rest = s) \/ exists i, find_sub (str "://") s = Some i /\ sch = lowercase (take i s) /\ rest = drop (i + 3) s) /\
  scheme u = sch /\ (forall c, c ∈ host u ++ query u ++ fragment u ++ userinfo u -> c ∈ rest) /\
  (forall c, c ∈ path u -> c ∈ rest \/ c = "/"%byte) /\
  (exists p, path u = "/"%byte :: p) /\ ("?"%byte ∉ path u /\ "#"%byte ∉ path u) /\ "#"%byte ∉ query u /\
  ("/"%byte ∉ userinfo u /\ "?"%byte ∉ userinfo u /\ "#"%byte ∉ userinfo u /\ "@"%byte ∉ userinfo u) /\
  ("/"%byte ∉ host u /\ "?"%byte ∉ host u /\ "#"%byte ∉ host u) /\ host u <> [] /\
  0 <= port u <= 65535 /\ (":"%byte ∈ host u -> "]"%byte ∉ host u).
Proof.
  unfold parse. destruct (is_valid_url_input s) eqn:Hv; [cbn [negb]|done].
  destruct (match find_sub (str "://") s with None => (str "http", s) | Some i => (take i s, drop (i + 3) s) end) as [sch rest] eqn:Es.
  destruct (cut "#" rest) as [s1 fr] eqn:E1. destruct (cut "?" s1) as [s2 qu] eqn:E2.
  destruct (match find "/" s2 with Some i => (take i s2, drop i s2) | None => (s2, ["/"%byte]) end) as [s3 pa] eqn:E3.
  destruct (match cut "@" s3 with (a, Some b) => (a, b) | (a, None) => ([], a) end) as [ui s4] eqn:E4.
  destruct (parse_host_port s4) as [[h p]|] eqn:E5; [|done]. destruct h as [|h0 h1]; [done|]. intros [= <-].
  cbn [scheme host port path query fragment userinfo]. set (h := h0 :: h1) in *. assert (h <> []) as Hne by done. clearbody h.
  apply cut_spec in E1 as [Hf1 E1], E2 as [Hf2 E2]. apply parse_host_port_spec in E5 as (Hp & Hin & Hbr).
  exists (lowercase sch), rest.
  assert (s2 = s3 ++ drop (length s3) s2 /\ "/"%byte ∉ s3 /\ ((exists p, pa = "/"%byte :: p) /\ (forall c, c ∈ pa -> c ∈ s2 \/ c = "/"%byte))) as (E3' & Hs3 & Hpa1 & Hpa2).
  { destruct (find "/" s2) as [i|] eqn:Ef; injection E3 as <- <-.
    - pose proof (find_lt _ _ _ Ef). apply find_split in Ef as [Ed Hn]. rewrite length_take_le by lia. rewrite take_drop. split_and!; try done.
      + exists (drop (S i) s2). rewrite Ed at 1. rewrite drop_app_ge by (rewrite length_take; lia). rewrite length_take_le by lia. by rewrite Nat.sub_diag.
      + intros c Hc. left. rewrite <-(take_drop i s2). apply elem_of_app. by right.
    - apply find_None in Ef. rewrite drop_all, app_nil_r. split_and!; [done..|by eexists|]. intros c ->%list_elem_of_singleton. by right. }
  assert ((forall c, c ∈ ui -> c ∈ s3) /\ (forall c, c ∈ s4 -> c ∈ s3) /\ "@"%byte ∉ ui) as (Hui & Hs4 & Hat).
  { destruct (cut "@" s3) as [a [b|]] eqn:Ec; apply cut_spec in Ec as [Ha Ec]; injection E4 as <- <-; rewrite Ec; split_and!; try done; try apply not_elem_of_nil.
    - intros c Hc. apply elem_of_app. by left.
    - intros c Hc. apply elem_of_app. right. by right.
    - intros c Hc. by apply elem_of_nil in Hc.
    - intros c Hc. by rewrite app_nil_r. }
  assert (forall c, c ∈ s3 -> c ∈ s2) as H32 by (intros c Hc; rewrite E3'; apply elem_of_app; by left).
  assert (forall c, c ∈ s2 -> c ∈ s1) as H21 by (intros c Hc; rewrite E2; apply elem_of_app; by left).
  assert (forall c, c ∈ s1 -> c ∈ rest) as H1r by (intros c Hc; rewrite E1; apply elem_of_app; by left).
  assert (forall c, c ∈ default [] qu -> c ∈ s1) as Hqu by (intros c Hc; rewrite E2; by apply optional_in).
  split_and!; try done; eauto 10.
  - destruct (find_sub (str "://") s) as [i|]; injection Es as <- <-; [right; by exists i|by left].
  - intros c. rewrite !elem_of_app. intros [?|[?|[?|?]]]; [by eauto 10..| |by eauto 10]. rewrite E1. by apply optional_in.
  - intros c [?|?]%Hpa2; eauto 10.
  - by intros [?|?]%Hpa2.
  - intros [?|?]%Hpa2; [|done]. by apply Hf1, H21.
  - lia.
  - lia.
Qed.

(** The characters of the host and the user information can be divided anew. *)
Definition split_host (i h : list byte) (u : url) : url := Url (scheme u) h (port u) (path u) (query u) (fragment u) i.

Lemma parse_split_printable s u i h : parse s = Some u -> (forall c, c ∈ h ++ i -> c ∈ host u ++ userinfo u) -> "@"%byte ∉ i -> h <> [] -> ("@"%byte ∈ h -> i <> []) ->
  front_is "[" h = false -> (":"%byte ∈ h -> "]"%byte ∉ h) -> printable (split_host i h u).
Proof.
  intros Hp Hsub Hi Hne' Hat Hbr Hco'. apply parse_parts in Hp as (sch & rest & Hv & Hs & Es & Hin & Hpa & Hpath & Hpc & Hq & Hui & Hh & Hne & Hpo & Hco).
  assert (forall c, c ∈ s -> clean c) as Hclean.
  { intros c Hc. unfold is_valid_url_input in Hv. destruct s as [|x s]; [done|]. apply negb_true_iff in Hv. unfold clean.
    apply not_true_iff_false. intros Hx. apply not_true_iff_false in Hv. apply Hv. unfold has_request_target_forbidden_char.
    apply existsb_exists. exists c. split; [by apply list_elem_of_In|done]. }
  assert (forall c, c ∈ rest -> clean c) as Hrest.
  { intros c Hc. apply Hclean. destruct Hs as [[_ ->]|(j & _ & _ & ->)]; [done|].
    rewrite <-(take_drop (j + 3) s). apply elem_of_app. by right. }
  assert (forall c, c ∉ userinfo u -> c ∉ host u -> c ∉ h /\ c ∉ i) as Hnot.
  { intros c H1 H2. rewrite <-not_elem_of_app. intros Hc%Hsub%elem_of_app. by destruct Hc. }
  destruct Hui as (Hi1 & Hi2 & Hi3 & _), Hh as (Hh1 & Hh2 & Hh3). destruct (Hnot _ Hi1 Hh1), (Hnot _ Hi2 Hh2), (Hnot _ Hi3 Hh3).
  split; cbn [split_host scheme host port path query fragment userinfo]; try done.
  - rewrite Es. destruct Hs as [[-> _]|(j & _ & -> & _)]; [done|]. unfold lowercase. rewrite map_map. apply map_ext. by intros [].
  - intros r. rewrite Es. destruct Hs as [[-> _]|(j & Hj & -> & _)]; [done|]. by apply scheme_end.
  - assert (Forall clean (h ++ i ++ query u ++ fragment u)) as Hf.
    { apply Forall_forall. intros c Hc. apply Hrest, Hin. rewrite app_assoc, elem_of_app in Hc. destruct Hc as [Hc%Hsub|Hc]; set_solver. }
    rewrite !Forall_app in *. destruct Hf as (? & ? & ? & ?). split_and!; try done.
    + rewrite Es. destruct Hs as [[-> _]|(j & Hj & -> & _)]; [by repeat constructor|]. apply Forall_forall. intros c (d & -> & Hd)%list_elem_of_fmap.
      apply tolower_clean, Hclean. by eapply elem_of_take_in.
    + apply Forall_forall. intros c Hc. apply Hpa in Hc as [Hc| ->]; [by apply Hrest|done].
Qed.

Lemma parse_printable s u : parse s = Some u -> ("@"%byte ∈ host u -> userinfo u <> []) -> front_is "[" (host u) = false -> printable u.
Proof.
  intros Hp Hat Hbr. pose proof (parse_parts s u Hp) as (_ & _ & _ & _ & _ & _ & _ & _ & _ & _ & (_ & _ & _ & Hi) & _ & Hne & _ & Hco).
  assert (split_host (userinfo u) (host u) u = u) as E by (by destruct u). rewrite <-E. by apply (parse_split_printable s).
Qed.

(** An at sign in the host reads as the end of user information. *)
Lemma split_host_string u a b : userinfo u = [] -> host u = a ++ "@"%byte :: b -> a <> [] -> ":"%byte ∉ host u -> to_string (split_host a b u) = to_string u.
Proof.
  intros Hi Hh Ha Hc. assert (":"%byte ∉ b) as Hb by (rewrite Hh in Hc; set_solver). unfold to_string, authority, host_authority, path_with_query, effective_port, default_port, is_secure.
  cbn [split_host scheme host port path query fragment userinfo]. rewrite Hi. apply find_None in Hc, Hb. rewrite Hc, Hb, Hh. destruct a as [|a0 a]; [done|].
  cbv zeta. cbn match. destruct (negb (port u =? 0) && _); rewrite <-!app_assoc; cbn [app]; rewrite <-?app_assoc; reflexivity.
Qed.



(** ** Dot segments *)

(** What may remain of an absolute path. *)
Definition proper (s : list byte) : Prop := s <> [] /\ s <> dot /\ s <> dot_dot /\ "/"%byte ∉ s.

Lemma push_segment_proper st s : Forall proper st -> "/"%byte ∉ s -> Forall proper (push_segment true st s).
Proof.
  intros Hst Hs. unfold push_segment. destruct (streq s [] || streq s dot) eqn:E1; [done|]. apply orb_false_iff in E1 as [E0 E1].
  apply streq_false in E0, E1. destruct (streq s dot_dot) eqn:E2.
  - destruct st as [|b st]; [constructor|]. apply Forall_cons in Hst as [(? & ? & Hb & ?) ?]. by rewrite (proj2 (streq_false b dot_dot)).
  - apply streq_false in E2. by constructor.
Qed.

Lemma segments_proper l st : Forall proper st -> Forall (fun s => "/"%byte ∉ s) l -> Forall proper (fold_left (push_segment true) l st).
Proof. revert st. induction l as [|s l IH]; intros st Hst Hl; [done|]. apply Forall_cons in Hl as [? ?]. cbn [fold_left]. apply IH; [by apply push_segment_proper|done]. Qed.

Lemma join_flat c x l : join [c] (x :: l) = x ++ flat_map (fun s => c :: s) l.
Proof.
  revert x. induction l as [|y l IH]; intros x; [by rewrite app_nil_r|].
  change (join [c] (x :: y :: l)) with (x ++ c :: join [c] (y :: l)). by rewrite IH.
Qed.

Lemma join_segments_later result l : join_segments true result l false = result ++ flat_map (fun s => "/"%byte :: s) l.
Proof.
  revert result. induction l as [|s l IH]; intros result; cbn [join_segments]; [by rewrite app_nil_r|]. rewrite IH. unfold append_segment. cbn.
  by rewrite <-!app_assoc.
Qed.

Lemma join_segments_absolute l : join_segments true ["/"%byte] l true = "/"%byte :: join ["/"%byte] l.
Proof. destruct l as [|s l]; [done|]. cbn [join_segments]. by rewrite join_segments_later, join_flat. Qed.

(** The segments [remove_dot_segments] keeps, first to last, and whether it ends the path with a slash. *)
Definition kept (path : list byte) : list (list byte) := reverse (fold_left (push_segment true) (split_on "/" path) []).
Definition ends_open (path : list byte) : bool :=
  bool_decide (last path = Some "/"%byte) || (streq path dot || ends_with (str "/.") path) || (streq path dot_dot || ends_with (str "/..") path).

Lemma kept_proper path : Forall proper (kept path).
Proof. unfold kept. apply Forall_reverse, segments_proper; [constructor|apply split_on_no_sep]. Qed.

Lemma last_join l : l <> [] -> Forall proper l -> last ("/"%byte :: join ["/"%byte] l) <> Some "/"%byte.
Proof.
  intros Hl HF. destruct l as [|s l] using rev_ind; [done|]. apply Forall_app in HF as [_ [(Hne & _ & _ & Hs) _]%Forall_cons].
  assert (exists p, "/"%byte :: join ["/"%byte] (l ++ [s]) = p ++ s) as [p ->].
  { destruct l as [|y l]; [by exists ["/"%byte]|]. cbn [app]. rewrite join_flat, flat_map_app. cbn [flat_map]. rewrite app_nil_r.
    exists ("/"%byte :: y ++ flat_map (fun s => "/"%byte :: s) l ++ ["/"%byte]). cbn. by rewrite <-!app_assoc. }
  rewrite last_app. destruct (last s) as [x|] eqn:E; [|by apply last_None in E]. intros [= ->].
  apply last_Some in E as [s' ->]. apply Hs, elem_of_app. right. left.
Qed.

Lemma remove_dot_absolute path p : path = "/"%byte :: p ->
  remove_dot_segments path =
  "/"%byte :: join ["/"%byte] (kept path) ++ (if ends_open path && negb (bool_decide (kept path = [])) then ["/"%byte] else []).
Proof.
  intros Ep. unfold remove_dot_segments. rewrite Ep at 1. rewrite byte_eqb_refl. fold (kept path). rewrite join_segments_absolute.
  pose proof (kept_proper path) as HF. pose proof (last_join (kept path)) as Hl. fold (ends_open path).
  assert (streq ("/"%byte :: join ["/"%byte] (kept path)) [] = false) as -> by (by apply streq_false). rewrite andb_true_r.
  destruct (ends_open path); cbn [andb].
  - destruct (decide (kept path = [])) as [E|E].
    + rewrite E. done.
    + rewrite (bool_decide_false (last _ = _)) by auto. rewrite (bool_decide_false (kept path = [])) by done. done.
  - by rewrite app_nil_r.
Qed.

Definition no_dots (path : list byte) : Prop := Forall (fun s => s <> dot /\ s <> dot_dot) (split_on "/" path).

Lemma split_kept path tail : (tail = [] \/ tail = ["/"%byte] /\ kept path <> []) ->
  split_on "/" ("/"%byte :: join ["/"%byte] (kept path) ++ tail) =
  [] :: (if decide (kept path = []) then [[]] else kept path ++ if decide (tail = []) then [] else [[]]).
Proof.
  intros Ht. cbn [split_on]. rewrite byte_eqb_refl. f_equal. pose proof (kept_proper path) as HF.
  assert (Forall (fun s => "/"%byte ∉ s) (kept path)) as HF' by (eapply Forall_impl; [done|]; by intros ? (? & ? & ? & ?)).
  destruct Ht as [->|[-> Hne]].
  - rewrite app_nil_r. case_decide as E; [by rewrite E|]. rewrite decide_True, app_nil_r by done. by apply split_on_join.
  - rewrite decide_False by done. rewrite decide_False by done.
    assert (join ["/"%byte] (kept path) ++ ["/"%byte] = join ["/"%byte] (kept path ++ [[]])) as ->.
    { destruct (kept path) as [|x l]; [done|]. by rewrite join_snoc. }
    apply split_on_join; [by destruct (kept path)|]. apply Forall_app. split; [done|]. repeat constructor. apply not_elem_of_nil.
Qed.

Lemma remove_dot_no_dots path p : path = "/"%byte :: p -> no_dots (remove_dot_segments path).
Proof.
  intros Ep. rewrite (remove_dot_absolute _ _ Ep). unfold no_dots. pose proof (kept_proper path) as HF.
  rewrite split_kept; [|destruct (ends_open path), (decide (kept path = [])); cbn; rewrite ?bool_decide_true, ?bool_decide_false by done; auto].
  constructor; [done|]. case_decide; [by repeat constructor|]. apply Forall_app. split.
  - eapply Forall_impl; [done|]. by intros ? (? & ? & ? & ?).
  - case_decide; by repeat constructor.
Qed.

Lemma merge_absolute base p ref : base = "/"%byte :: p -> exists q, merge_url_paths base ref = "/"%byte :: q.
Proof.
  intros ->. unfold merge_url_paths. destruct (rfind "/" ("/"%byte :: p)) as [i|] eqn:E; [by eexists|by eexists].
Qed.

Lemma remove_dot_front path p : path = "/"%byte :: p -> exists q, remove_dot_segments path = "/"%byte :: q.
Proof. intros E. rewrite (remove_dot_absolute _ _ E). by eexists. Qed.

(** Resolving a reference never leaves a dot segment to climb with: against a base whose path
    is absolute, as every parsed URL's is, [resolve_reference] gives an absolute path without "." and ".."
    segments, or the base's own path when the reference has none. *)
Theorem resolved_path_has_no_dots base reference u : resolve_reference base reference = Some u ->
  front_is "/" (path base) = true -> front_is "/" (path u) = true /\ (no_dots (path u) \/ path u = path base).
Proof.
  intros Hr Hb. destruct (path base) as [|b0 p0] eqn:Eb; [done|]. apply byte_eqb_true in Hb as ->.
  assert (forall q, front_is "/" (remove_dot_segments ("/"%byte :: q)) = true /\ no_dots (remove_dot_segments ("/"%byte :: q))) as Hd.
  { intros q. split; [|by eapply remove_dot_no_dots]. by destruct (remove_dot_front ("/"%byte :: q) q eq_refl) as [q' ->]. }
  assert (forall s v, parse s = Some v -> front_is "/" (remove_dot_segments (path v)) = true /\ no_dots (remove_dot_segments (path v))) as Hparse.
  { intros s v Hv. apply parse_parts in Hv as (? & ? & _ & _ & _ & _ & _ & [q ->] & _). apply Hd. }
  unfold resolve_reference in Hr. case_if; [done|]. case_if; [|case_if].
  - apply fmap_Some in Hr as (v & Hv & ->). cbn [path with_path]. apply Hparse in Hv as []. auto.
  - apply fmap_Some in Hr as (v & Hv & ->). cbn [path with_path]. apply Hparse in Hv as []. auto.
  - destruct (cut "#" reference) as [pq fr]. destruct (cut "?" pq) as [rp rq].
    assert (forall x, front_is "/" x = true -> match x with [] => ["/"%byte] | _ => x end = x) as Hx by (by intros []).
    destruct (streq rp []); [|destruct (front_is "/" rp) eqn:Ef]; injection Hr as <-; cbn [path].
    + rewrite Hx by (by rewrite Eb). rewrite Eb. auto.
    + destruct rp as [|c rp]; [done|]. apply byte_eqb_true in Ef as ->. destruct (Hd rp). rewrite Hx by done. auto.
    + destruct (merge_absolute (path base) p0 rp Eb) as [q ->]. destruct (Hd q). rewrite Hx by done. auto.
Qed.

Lemma resolved_path_has_no_dots_witness : let base := Url (str "http") (str "h") 0 (str "/a/b") [] [] [] in
  exists u, resolve_reference base (str "../../c/./d") = Some u /\ path u = str "/c/d" /\
            front_is "/" (path u) = true /\ (no_dots (path u) \/ path u = path base).
Proof.
  eexists. split_and!; [vm_compute; reflexivity|reflexivity|..];
    eapply (resolved_path_has_no_dots (Url (str "http") (str "h") 0 (str "/a/b") [] [] []) (str "../../c/./d")); vm_compute; reflexivity.
Defined.

(** ** RFC 3986, 5.2.4 *)

Definition drop_last_segment (output : list byte) : list byte :=
  match rfind "/" output with Some i => take i output | None => [] end.

Definition first_segment (input : list byte) : list byte * list byte :=
  let until_slash := span (fun c => negb (Byte.eqb c "/")) in
  match input with
  | c :: rest => if Byte.eqb c "/" then let '(a, b) := until_slash rest in (c :: a, b) else until_slash input
  | [] => ([], [])
  end.

Fixpoint rfc_loop (fuel : nat) (input output : list byte) : list byte :=
  match fuel, input with
  | O, _ | _, [] => output
  | S fuel, _ =>
      if starts_with (str "../") input then rfc_loop fuel (drop 3 input) output
      else if starts_with (str "./") input then rfc_loop fuel (drop 2 input) output
      else if starts_with (str "/./") input then rfc_loop fuel (drop 2 input) output
      else if streq input (str "/.") then rfc_loop fuel (str "/") output
      else if starts_with (str "/../") input then rfc_loop fuel (drop 3 input) (drop_last_segment output)
      else if streq input (str "/..") then rfc_loop fuel (str "/") (drop_last_segment output)
      else if streq input dot || streq input dot_dot then output
      else let '(segment, rest) := first_segment input in rfc_loop fuel rest (output ++ segment)
  end.

Definition rfc_remove_dot_segments (path : list byte) : list byte := rfc_loop (S (length path)) path [].

(** A path as its segments, each after a slash. *)
Definition slashed (l : list (list byte)) : list byte := flat_map (fun s => "/"%byte :: s) l.

Lemma slashed_cons s l : slashed (s :: l) = "/"%byte :: s ++ slashed l.
Proof. done. Qed.

Lemma slashed_snoc l s : slashed (l ++ [s]) = slashed l ++ "/"%byte :: s.
Proof. unfold slashed. rewrite flat_map_app. cbn. by rewrite app_nil_r. Qed.

Lemma span_stop (p : byte -> bool) a b : Forall (fun c => p c = true) a -> match b with c :: _ => p c = false | [] => True end -> span p (a ++ b) = (a, b).
Proof.
  intros Ha Hb. induction a as [|c a IH]; cbn [app span].
  - destruct b as [|c b]; [done|]. cbn [span]. by rewrite Hb.
  - apply Forall_cons in Ha as [-> Ha]. by rewrite IH.
Qed.

Lemma first_segment_slashed s l : "/"%byte ∉ s -> first_segment (slashed (s :: l)) = ("/"%byte :: s, slashed l).
Proof.
  intros Hs. rewrite slashed_cons. unfold first_segment. rewrite byte_eqb_refl. rewrite span_stop; [done| |].
  - apply Forall_forall. intros c Hc. apply negb_true_iff, byte_eqb_false. by intros ->.
  - destruct l; [done|]. cbn. done.
Qed.

Lemma drop_last_slashed l s : "/"%byte ∉ s -> drop_last_segment (slashed (l ++ [s])) = slashed l.
Proof. intros Hs. unfold drop_last_segment. rewrite slashed_snoc, rfind_app_here by done. by rewrite take_app_length. Qed.

(** Where the first slash of a path is. *)
Lemma slash_unique a b s l : "/"%byte ∉ a -> "/"%byte ∉ s -> a ++ "/"%byte :: b = s ++ slashed l -> a = s.
Proof.
  intros Ha Hs E. destruct l as [|t l].
  - cbn in E. rewrite app_nil_r in E. exfalso. apply Hs. rewrite <-E. apply elem_of_app. right. left.
  - rewrite slashed_cons in E. pose proof (f_equal (find "/") E) as Ef. rewrite !find_app_here in Ef by done. injection Ef as El.
    by apply app_inj_1 in E as [-> _].
Qed.

Lemma starts_with_slashed d s l : "/"%byte ∉ d -> "/"%byte ∉ s -> starts_with ("/"%byte :: d ++ ["/"%byte]) (slashed (s :: l)) = true -> s = d.
Proof.
  intros Hd Hs [k Hk]%starts_with_prefix. rewrite slashed_cons in Hk. cbn in Hk. injection Hk as Hk. rewrite <-app_assoc in Hk.
  symmetry. symmetry in Hk. by eapply slash_unique.
Qed.

Lemma slashed_eq d s l : "/"%byte ∉ d -> slashed (s :: l) = "/"%byte :: d -> s = d /\ l = [].
Proof.
  intros Hd E. rewrite slashed_cons in E. injection E as E. destruct l as [|t l]; [by rewrite app_nil_r in E|].
  exfalso. apply Hd. rewrite <-E, slashed_cons. apply elem_of_app. right. left.
Qed.

(** The tests that fail for a segment that is no dot segment. *)
Lemma rfc_tests s l : "/"%byte ∉ s ->
  starts_with (str "../") (slashed (s :: l)) = false /\ starts_with (str "./") (slashed (s :: l)) = false /\
  (s <> dot -> starts_with (str "/./") (slashed (s :: l)) = false /\ streq (slashed (s :: l)) (str "/.") = false) /\
  (s <> dot_dot -> starts_with (str "/../") (slashed (s :: l)) = false /\ streq (slashed (s :: l)) (str "/..") = false) /\
  streq (slashed (s :: l)) dot || streq (slashed (s :: l)) dot_dot = false.
Proof.
  intros Hs.
  assert ("/"%byte ∉ dot /\ "/"%byte ∉ dot_dot) as [Hd Hdd] by (split; intros Hc; repeat (apply elem_of_cons in Hc as [?|Hc]; [done|]); by apply elem_of_nil in Hc).
  assert (forall p, starts_with (x2e :: p) (slashed (s :: l)) = false) as H0.
  { intros p. apply not_true_iff_false. intros [k Hk]%starts_with_prefix. done. }
  split_and!; [apply (H0 (str "./"))|apply (H0 (str "/"))|..].
  - intros Hn. split; [apply not_true_iff_false; intros Hp; apply Hn; by apply (starts_with_slashed dot s l)|].
    apply streq_false. intros E. apply Hn. by apply (slashed_eq dot s l).
  - intros Hn. split; [apply not_true_iff_false; intros Hp; apply Hn; by apply (starts_with_slashed dot_dot s l)|].
    apply streq_false. intros E. apply Hn. by apply (slashed_eq dot_dot s l).
  - apply orb_false_iff. split; by apply streq_false.
Qed.

Lemma rfc_tail fuel out : (0 < fuel)%nat -> rfc_loop fuel (str "/") out = out ++ str "/".
Proof. intros Hf. destruct fuel as [|fuel]; [lia|]. cbn. by destruct fuel. Qed.

Lemma rfc_loop_S fuel c input output : rfc_loop (S fuel) (c :: input) output =
  let input := c :: input in
  if starts_with (str "../") input then rfc_loop fuel (drop 3 input) output
  else if starts_with (str "./") input then rfc_loop fuel (drop 2 input) output
  else if starts_with (str "/./") input then rfc_loop fuel (drop 2 input) output
  else if streq input (str "/.") then rfc_loop fuel (str "/") output
  else if starts_with (str "/../") input then rfc_loop fuel (drop 3 input) (drop_last_segment output)
  else if streq input (str "/..") then rfc_loop fuel (str "/") (drop_last_segment output)
  else if streq input dot || streq input dot_dot then output
  else let '(segment, rest) := first_segment input in rfc_loop fuel rest (output ++ segment).
Proof. done. Qed.

Definition open_segment (s : list byte) : bool := streq s [] || streq s dot || streq s dot_dot.

Lemma rfc_dot_dot st : Forall proper st -> drop_last_segment (slashed (reverse st)) = slashed (reverse (push_segment true st dot_dot)).
Proof.
  intros Hst. destruct st as [|b st]; [done|]. apply Forall_cons in Hst as [(_ & _ & Hb & Hsl) _].
  unfold push_segment. cbn [orb]. rewrite (proj2 (streq_false b dot_dot)) by done. rewrite reverse_cons. by apply drop_last_slashed.
Qed.

Lemma rfc_segments segs st fuel : segs <> [] -> Forall (fun s => "/"%byte ∉ s) segs -> Forall (fun s => s <> []) (removelast segs) ->
  Forall proper st -> (length (slashed segs) < fuel)%nat ->
  rfc_loop fuel (slashed segs) (slashed (reverse st)) =
  slashed (reverse (fold_left (push_segment true) segs st)) ++ if open_segment (List.last segs []) then str "/" else [].
Proof.
  revert st fuel. induction segs as [|s segs IH]; intros st fuel Hne Hsl Hemp Hst Hf; [done|]. apply Forall_cons in Hsl as [Hs Hsl].
  destruct fuel as [|fuel]; [lia|]. destruct (rfc_tests s segs Hs) as (T1 & T2 & T3 & T4 & T5).
  rewrite slashed_cons, rfc_loop_S. cbv zeta. change ("/"%byte :: s ++ slashed segs) with (slashed (s :: segs)). rewrite T1, T2.
  rewrite slashed_cons in Hf. cbn [length] in Hf. rewrite length_app in Hf. cbn [fold_left].
  assert (segs = [] \/ segs <> [] /\ s <> [] /\ Forall (fun s => s <> []) (removelast segs) /\ List.last (s :: segs) [] = List.last segs []) as Hcase.
  { destruct segs as [|t segs]; [by left|right]. cbn [removelast] in Hemp. apply Forall_cons in Hemp as [? ?]. done. }
  pose proof (push_segment_proper st s Hst Hs) as Hst'.
  destruct (decide (s = dot)) as [->|Hd]; [|destruct (decide (s = dot_dot)) as [->|Hdd]].
  - destruct Hcase as [->|(Hn & _ & Hr & ->)]; [by apply rfc_tail; cbn in Hf; lia|].
    assert (starts_with (str "/./") (slashed (dot :: segs)) = true) as ->.
    { apply starts_with_prefix. destruct segs as [|t l]; [done|]. by eexists. }
    apply IH; try done. cbn in Hf. lia.
  - destruct (T3 ltac:(done)) as [-> ->]. rewrite rfc_dot_dot by done. destruct Hcase as [->|(Hn & _ & Hr & ->)]; [by apply rfc_tail; cbn in Hf; lia|].
    assert (starts_with (str "/../") (slashed (dot_dot :: segs)) = true) as ->.
    { apply starts_with_prefix. destruct segs as [|t l]; [done|]. by eexists. }
    apply IH; try done. cbn in Hf. lia.
  - destruct (T3 Hd) as [-> ->], (T4 Hdd) as [-> ->]. rewrite T5, first_segment_slashed by done.
    destruct (decide (s = [])) as [->|Hne'].
    + destruct Hcase as [->|(_ & ? & _)]; [|done]. cbn. by destruct fuel.
    + assert (push_segment true st s = s :: st) as Ep.
      { unfold push_segment. by rewrite !(proj2 (streq_false _ _)) by done. }
      rewrite Ep in *. rewrite <-slashed_snoc, <-reverse_cons. destruct Hcase as [->|(Hn & _ & Hr & ->)].
      * cbn [fold_left List.last]. unfold open_segment. rewrite !(proj2 (streq_false _ _)) by done. cbn. rewrite app_nil_r. by destruct fuel.
      * apply IH; try done. lia.
Qed.

Lemma slashed_join s l : slashed (s :: l) = "/"%byte :: join ["/"%byte] (s :: l).
Proof. by rewrite join_flat. Qed.

Lemma ends_with_suffix p s : ends_with p s = true -> exists k, s = k ++ p.
Proof. unfold ends_with. intros <-%bool_decide_eq_true. exists (take (length s - length p) s). by rewrite take_drop. Qed.

Lemma ends_with_app p k : ends_with p (k ++ p) = true.
Proof. unfold ends_with. apply bool_decide_eq_true. rewrite length_app. replace (length k + length p - length p)%nat with (length k) by lia. apply drop_app_length. Qed.

Lemma last_slash_unique a b s t : "/"%byte ∉ s -> "/"%byte ∉ t -> a ++ "/"%byte :: s = b ++ "/"%byte :: t -> s = t.
Proof.
  intros Hs Ht E. pose proof (f_equal (rfind "/") E) as Er. rewrite !rfind_app_here in Er by done. injection Er as El.
  apply app_inj_1 in E as [_ E]; [|done]. by injection E.
Qed.

Lemma ends_open_slashed l s : "/"%byte ∉ s -> ends_open (slashed (l ++ [s])) = open_segment s.
Proof.
  intros Hs. rewrite slashed_snoc.
  assert ("/"%byte ∉ dot /\ "/"%byte ∉ dot_dot) as [Hd Hdd] by (split; intros Hc; repeat (apply elem_of_cons in Hc as [?|Hc]; [done|]); by apply elem_of_nil in Hc).
  assert (forall d, "/"%byte ∉ d -> d <> [] -> streq (slashed l ++ "/"%byte :: s) d || ends_with ("/"%byte :: d) (slashed l ++ "/"%byte :: s) = streq s d) as H.
  { intros d Hd' Hne. rewrite (proj2 (streq_false _ d)); [cbn [orb]|intros E; apply Hd'; rewrite <-E; apply elem_of_app; right; left].
    destruct (decide (s = d)) as [->|Hsd]; [by rewrite streq_refl, ends_with_app|]. rewrite (proj2 (streq_false s d)) by done.
    apply not_true_iff_false. intros [k Hk]%ends_with_suffix. apply Hsd. by eapply last_slash_unique. }
  unfold ends_open, open_segment. change (str "/.") with ("/"%byte :: dot). change (str "/..") with ("/"%byte :: dot_dot).
  rewrite (H dot), (H dot_dot) by done. f_equal. f_equal.
  rewrite last_app. cbn [last]. destruct (last s) as [c|] eqn:E.
  - rewrite (proj2 (streq_false s [])) by (by intros ->). destruct s as [|c0 s0]; [done|]. rewrite last_cons_cons, E.
    apply bool_decide_false. intros [= ->]. apply last_Some in E as [s' E]. apply Hs. rewrite E. apply elem_of_app. right. left.
  - apply last_None in E as ->. by rewrite streq_refl, bool_decide_true.
Qed.

Lemma kept_slashed segs : segs <> [] -> Forall (fun s => "/"%byte ∉ s) segs -> kept (slashed segs) = reverse (fold_left (push_segment true) segs []).
Proof.
  intros Hne Hsl. unfold kept. destruct segs as [|s segs]; [done|]. rewrite slashed_join. cbn [split_on]. rewrite byte_eqb_refl.
  by rewrite split_on_join by done.
Qed.

(** Removing dot segments is what RFC 3986 prescribes: on an absolute path without empty segments,
    a final one excepted, [remove_dot_segments] agrees with the algorithm of section 5.2.4. *)
Theorem dot_segments_rfc segs : segs <> [] -> Forall (fun s => "/"%byte ∉ s) segs -> Forall (fun s => s <> []) (removelast segs) ->
  remove_dot_segments (slashed segs) = rfc_remove_dot_segments (slashed segs).
Proof.
  intros Hne Hsl Hemp. unfold rfc_remove_dot_segments.
  pose proof (rfc_segments segs [] (S (length (slashed segs))) Hne Hsl Hemp ltac:(constructor) ltac:(lia)) as E.
  change (slashed (reverse [])) with (@nil byte) in E. rewrite E.
  assert (exists p, slashed segs = "/"%byte :: p) as [p Ep] by (destruct segs; [done|by eexists]).
  rewrite (remove_dot_absolute _ _ Ep), (kept_slashed segs) by done.
  destruct segs as [|s l _] using rev_ind; [done|]. apply Forall_app in Hsl as [_ [Hs _]%Forall_cons].
  rewrite ends_open_slashed, List.last_last, fold_left_app by done. cbn [fold_left].
  set (st := fold_left (push_segment true) l []). destruct (open_segment s) eqn:Eo.
  - destruct (reverse (push_segment true st s)) as [|x k]; [by rewrite bool_decide_true|]. rewrite bool_decide_false by done.
    by rewrite slashed_join.
  - unfold open_segment in Eo. rewrite !orb_false_iff, !streq_false in Eo. destruct Eo as [[? ?] ?].
    assert (push_segment true st s = s :: st) as -> by (unfold push_segment; by rewrite !(proj2 (streq_false _ _)) by done).
    rewrite reverse_cons. cbn [andb]. rewrite !app_nil_r. destruct (reverse st) as [|x k]; cbn [app]; by rewrite slashed_join.
Qed.

Lemma dot_segments_rfc_witness : remove_dot_segments (str "/a/b/../c/./d/..") = rfc_remove_dot_segments (str "/a/b/../c/./d/..") /\
  remove_dot_segments (str "/a/b/../c/./d/..") = str "/a/c/".
Proof.
  split; [|vm_compute; reflexivity].
  apply (dot_segments_rfc [str "a"; str "b"; str ".."; str "c"; str "."; str "d"; str ".."]); [done| |].
  - repeat (apply Forall_cons_2; [refine (bool_decide_unpack _ _); vm_compute; exact I|]). apply Forall_nil_2.
  - repeat (apply Forall_cons_2; [done|]). apply Forall_nil_2.
Defined.

(** On a path with an empty segment inside it does not: the segment is dropped, where the RFC
    keeps it, so a reference is resolved to another resource. *)
Theorem empty_segments_dropped :
  remove_dot_segments (str "/a//b") = str "/a/b" /\ rfc_remove_dot_segments (str "/a//b") = str "/a//b".
Proof. split; vm_compute; reflexivity. Qed.

End Url.
