(* ===== verification/HttpChunk.v ===== *)
(** * Chunk framing lines

    Models the helpers of [src/include/elio/http/http_parser.hpp] that the request parser and the response
    decoder share: the errors they report, chunk-size lines with their extensions, and trailer lines.
    Positions in a line are the rest of the line; the loop over extensions takes its length as fuel
    and consumes a byte or more in each round. *)

From Stdlib Require Import Strings.Byte Strings.String ZifyBool.
From S2P Require Import Prelude Str HttpCommon.

Module Chunk.
Export Http.

Definition kMaxChunkSize : Z := 2 ^ 30.

(** The messages of [set_error] and [fail]. *)
Inductive parse_error :=
| No_method | Unknown_method | No_version | Bad_request_target | Bad_CONNECT_authority | Bad_target_character | Bad_HTTP_version
| Header_line_too_long | Both_framing_headers | Host_required | CONNECT_with_transfer_encoding | CONNECT_with_content
| Unsupported_transfer_encoding | Bad_Content_Length | Bad_header_line | Bad_header_name | Bad_header_value
| Conflicting_lengths | Too_many_headers | Chunk_size_line_too_long | Chunk_size_overflow | Empty_chunk_size
| Chunk_size_exceeds_maximum | Bad_chunk_extension | Missing_CRLF_after_chunk | Trailer_line_too_long | Bad_trailer
| No_status_version | Bad_status_code | Bad_line_ending | Status_line_too_long | Connection_closed_early.

Definition is_hex_digit (c : byte) : bool := is_digit c || between 97 102 c || between 65 70 c.

Definition hex_digit_value (c : byte) : Z :=
  if is_digit c then b2z c - 48 else if between 97 102 c then b2z c - 97 + 10 else b2z c - 65 + 10.

Definition is_quoted_chunk_ext_char (c : byte) : bool :=
  Byte.eqb c ch_tab || Byte.eqb c ch_space || between 0x21 0x7E c || (0x80 <=? b2z c).

(** The rest of a quoted string after its opening quote; [None] when it is not well formed. *)
Fixpoint quoted_string_rest (s : list byte) : option (list byte) :=
  match s with
  | [] => None
  | c :: s =>
      if Byte.eqb c x22 then Some s
      else if Byte.eqb c "\" then
        match s with
        | [] => None
        | d :: s => if is_quoted_chunk_ext_char d then quoted_string_rest s else None
        end
      else if is_quoted_chunk_ext_char c then quoted_string_rest s
      else None
  end.

Definition parse_chunk_ext_quoted_string (s : list byte) : option (list byte) :=
  match s with
  | c :: s => if Byte.eqb c x22 then quoted_string_rest s else None
  | [] => None
  end.

(** [=value], when there is one: the rest after it. *)
Definition chunk_ext_value (s : list byte) : option (list byte) :=
  match s with
  | c :: s' =>
      if Byte.eqb c "=" then
        let s := skip_ows s' in
        match s with
        | [] => None
        | _ => if front_is x22 s then parse_chunk_ext_quoted_string s
               else match span is_tchar s with
                    | ([], _) => None
                    | (_, rest) => Some rest
                    end
        end
      else Some s
  | [] => Some s
  end.

Fixpoint chunk_ext_loop (fuel : nat) (s : list byte) : bool :=
  match fuel with
  | O => false
  | S fuel =>
      match skip_ows s with
      | [] => true
      | c :: s =>
          if negb (Byte.eqb c ";") then false
          else match span is_tchar (skip_ows s) with
               | ([], _) => false
               | (_, s) => match chunk_ext_value (skip_ows s) with
                           | Some s => chunk_ext_loop fuel s
                           | None => false
                           end
               end
      end
  end.

Definition validate_chunk_extensions (value : list byte) : bool := chunk_ext_loop (S (length value)) value.

(** The digits of a chunk size; [inr] is an overflow of [size_t], with what the variable holds then. *)
Fixpoint chunk_size_digits (line : list byte) (chunk_size : Z) : Z * list byte + Z :=
  match line with
  | c :: rest =>
      if is_hex_digit c then
        let d := hex_digit_value c in
        if (SIZE_MAX - d) / 16 <? chunk_size then inr chunk_size
        else chunk_size_digits rest (u64 (chunk_size * 16 + d))
      else inl (chunk_size, line)
  | [] => inl (chunk_size, [])
  end.

(** The size, or the error and what has been stored in the variable of the caller. *)
Definition parse_chunk_size_line (line : list byte) : Z + parse_error * Z :=
  match chunk_size_digits line 0 with
  | inr chunk_size => inr (Chunk_size_overflow, chunk_size)
  | inl (chunk_size, rest) =>
      if (length rest =? length line)%nat then inr (Empty_chunk_size, chunk_size)
      else if kMaxChunkSize <? chunk_size then inr (Chunk_size_exceeds_maximum, chunk_size)
      else
        let rest := trim_ows rest in
        if negb (streq rest []) && negb (validate_chunk_extensions rest) then inr (Bad_chunk_extension, chunk_size)
        else inl chunk_size
  end.

Definition validate_chunk_trailer_line (line : list byte) : bool :=
  match find ":" line with
  | None => false
  | Some colon => is_valid_header_name (take colon line) && is_valid_header_value (trim_ows (drop (S colon) line))
  end.

Definition buffered_line_size (buffer : list byte) : Z :=
  if bool_decide (last buffer = Some ch_cr) then zlen buffer - 1 else zlen buffer.

(** ** What a chunk-size line is (RFC 9112, 7.1) *)

Definition token (s : list byte) : Prop := is_valid_token s = true.

Definition hex_digits (s : list byte) : Prop := Forall (fun c => is_hex_digit c = true) s.

Definition hex_value_from (v : Z) (s : list byte) : Z := fold_left (fun v c => 16 * v + hex_digit_value c) s v.
Definition hex_value : list byte -> Z := hex_value_from 0.

Inductive quoted_body : list byte -> Prop :=
| qb_end : quoted_body []
| qb_text c s : is_quoted_chunk_ext_char c = true -> c <> x22 -> c <> "\"%byte -> quoted_body s -> quoted_body (c :: s)
| qb_pair d s : is_quoted_chunk_ext_char d = true -> quoted_body s -> quoted_body ("\"%byte :: d :: s).

Inductive ext_val : list byte -> Prop :=
| val_token s : token s -> ext_val s
| val_quoted s : quoted_body s -> ext_val (x22 :: s ++ [x22]).

Inductive chunk_ext : list byte -> Prop :=
| ext_end w : ows w -> chunk_ext w
| ext_name w1 w2 name rest : ows w1 -> ows w2 -> token name -> chunk_ext rest -> chunk_ext (w1 ++ ";"%byte :: w2 ++ name ++ rest)
| ext_value w1 w2 name w3 w4 v rest : ows w1 -> ows w2 -> token name -> ows w3 -> ows w4 -> ext_val v -> chunk_ext rest ->
    chunk_ext (w1 ++ ";"%byte :: w2 ++ name ++ w3 ++ "="%byte :: w4 ++ v ++ rest).

Lemma token_tchars s : token s <-> s <> [] /\ Forall (fun c => is_tchar c = true) s.
Proof.
  unfold token. destruct s as [|c s]; [split; [done|by intros [? _]]|]. cbn [is_valid_token].
  rewrite forallb_forall, Forall_forall. setoid_rewrite list_elem_of_In. naive_solver.
Qed.

Lemma quoted_string_rest_spec s r : quoted_string_rest s = Some r <-> exists b, s = b ++ x22 :: r /\ quoted_body b.
Proof.
  split.
  - remember (length s) as n eqn:Hn. revert s Hn. induction (lt_wf n) as [n _ IH]. intros [|c s] -> H; [done|]. cbn [quoted_string_rest] in H.
    destruct (Byte.eqb c x22) eqn:Eq.
    { apply byte_eqb_true in Eq as ->. injection H as ->. exists []. split; [done|constructor]. }
    destruct (Byte.eqb c "\") eqn:Eb.
    + apply byte_eqb_true in Eb as ->. destruct s as [|d s]; [done|]. destruct (is_quoted_chunk_ext_char d) eqn:Ed; [|done].
      destruct (IH (length s)) with (s := s) as (b & -> & Hb); [cbn; lia|done|done|]. eexists (_ :: _ :: b). split; [done|by constructor].
    + destruct (is_quoted_chunk_ext_char c) eqn:Ec; [|done]. apply byte_eqb_false in Eq, Eb.
      destruct (IH (length s)) with (s := s) as (b & -> & Hb); [cbn; lia|done|done|]. exists (c :: b). split; [done|by constructor].
  - intros (b & -> & Hb). induction Hb as [|c b Hc Hq Hs _ IH|d b Hd _ IH].
    + done.
    + cbn [app quoted_string_rest]. apply byte_eqb_false in Hq, Hs. by rewrite Hq, Hs, Hc.
    + cbn [app quoted_string_rest]. by rewrite Hd.
Qed.

Lemma chunk_ext_front r : chunk_ext r -> stops is_tchar r /\ front_is "=" (skip_ows r) = false.
Proof.
  assert (forall w s, ows w -> front_is ";" s = true -> stops is_tchar (w ++ s) /\ front_is "=" (skip_ows (w ++ s)) = false) as Hsemi.
  { intros w [|c s] Hw Hc; [done|]. cbn in Hc. apply byte_eqb_true in Hc as ->. rewrite skip_ows_app by done.
    split; [|done]. destruct Hw as [|d w Hd _]; [done|]. cbn. destruct (is_tchar d) eqn:E; [|done]. apply is_tchar_not_ows in E. congruence. }
  intros [w Hw| |]; [|by apply Hsemi..]. rewrite skip_ows_all by done. split; [|done].
  destruct Hw as [|d w Hd _]; [done|]. cbn. destruct (is_tchar d) eqn:E; [|done]. apply is_tchar_not_ows in E. congruence.
Qed.

Lemma ext_val_front v r : ext_val v -> skip_ows (v ++ r) = v ++ r.
Proof.
  intros [s Hs|s _]; [|by apply skip_ows_stops]. apply token_tchars in Hs as [Hn Hs]. destruct Hs as [|c s Hc _]; [done|].
  apply skip_ows_stops. cbn. by apply is_tchar_not_ows.
Qed.

(** The value after [=] is read exactly. *)
Lemma chunk_ext_value_spec w v r : ows w -> ext_val v -> stops is_tchar r -> chunk_ext_value ("="%byte :: w ++ v ++ r) = Some r.
Proof.
  intros Hw Hv Hr. unfold chunk_ext_value. cbn [Byte.eqb]. rewrite skip_ows_app, ext_val_front by done.
  change (Byte.eqb "="%byte "="%byte) with true. cbn match. destruct Hv as [s Hs|s Hs].
  - apply token_tchars in Hs as [Hn Hs]. rewrite (span_app is_tchar s r) by done. destruct Hs as [|c s Hc _]; [done|]. cbn [app front_is].
    destruct (Byte.eqb c x22) eqn:E; [|done]. by apply byte_eqb_true in E as ->.
  - cbn [app front_is parse_chunk_ext_quoted_string]. change (Byte.eqb x22 x22) with true. cbn match.
    apply quoted_string_rest_spec. exists s. split; [|done]. by rewrite <-app_assoc.
Qed.

Lemma chunk_ext_value_inv s r : chunk_ext_value s = Some r ->
  (s = r /\ front_is "=" s = false) \/ exists w v, s = "="%byte :: w ++ v ++ r /\ ows w /\ ext_val v.
Proof.
  unfold chunk_ext_value. destruct s as [|c s]; [intros [= <-]; auto|]. cbn [front_is].
  destruct (Byte.eqb c "=") eqn:Ec; [|intros [= <-]; auto]. apply byte_eqb_true in Ec as ->.
  destruct (skip_ows_spec s) as (w & E & Hw & _). destruct (skip_ows s) as [|d t]; [done|]. cbn [front_is parse_chunk_ext_quoted_string].
  intros H. right. destruct (Byte.eqb d x22) eqn:Ed.
  - apply byte_eqb_true in Ed as ->. apply quoted_string_rest_spec in H as (b & -> & Hb).
    exists w, (x22 :: b ++ [x22]). split; [|split; [done|by constructor]]. rewrite E. cbn [app]. by rewrite <-app_assoc.
  - destruct (span is_tchar (d :: t)) as [v r'] eqn:Es. destruct v as [|c v]; simplify_eq.
    apply span_spec in Es as (Es & Hv & _). exists w, (c :: v). rewrite Es. split; [done|split; [done|]].
    apply val_token, token_tchars. split; [done|exact Hv].
Qed.

Lemma chunk_ext_ows w s : ows w -> chunk_ext s -> chunk_ext (w ++ s).
Proof.
  intros Hw [w1 H|w1 w2 n r H|w1 w2 n w3 w4 v r H]; intros; [apply ext_end; by apply Forall_app|..];
    rewrite app_assoc; constructor; try done; by apply Forall_app.
Qed.

Lemma chunk_ext_loop_skip fuel s : chunk_ext_loop fuel (skip_ows s) = chunk_ext_loop fuel s.
Proof. destruct fuel; [done|]. cbn. destruct (skip_ows_spec s) as (w & _ & _ & Hs). by rewrite (skip_ows_stops (skip_ows s)). Qed.

Lemma chunk_ext_loop_sound fuel s : chunk_ext_loop fuel s = true -> chunk_ext s.
Proof.
  revert s. induction fuel as [|fuel IH]; intros s H; [done|]. cbn [chunk_ext_loop] in H.
  destruct (skip_ows_spec s) as (w1 & E & Hw1 & _). rewrite E. apply chunk_ext_ows; [done|]. clear E.
  destruct (skip_ows s) as [|c t]; [apply ext_end; constructor|]. destruct (Byte.eqb c ";") eqn:Ec; [|done]. cbn in H. apply byte_eqb_true in Ec as ->.
  destruct (skip_ows_spec t) as (w2 & -> & Hw2 & _). destruct (span is_tchar (skip_ows t)) as [name r] eqn:Es.
  apply span_spec in Es as (Es & Hn & _). rewrite Es. destruct name as [|a name]; [done|].
  assert (token (a :: name)) as Ht by (by apply token_tchars).
  destruct (chunk_ext_value (skip_ows r)) as [r'|] eqn:Ev; [|done]. apply IH in H.
  destruct (skip_ows_spec r) as (w3 & Er & Hw3 & _). rewrite Er. apply chunk_ext_value_inv in Ev as [[-> _]|(w4 & v & -> & Hw4 & Hv)].
  - apply (ext_name []); auto using chunk_ext_ows. constructor.
  - apply (ext_value []); auto. constructor.
Qed.

Lemma chunk_ext_loop_complete fuel s : (length s < fuel)%nat -> chunk_ext s -> chunk_ext_loop fuel s = true.
Proof.
  intros Hf H. revert fuel Hf. induction H as [w Hw|w1 w2 name rest Hw1 Hw2 Hn Hr IH|w1 w2 name w3 w4 v rest Hw1 Hw2 Hn Hw3 Hw4 Hv Hr IH];
    intros [|fuel] Hf; try lia; cbn [chunk_ext_loop].
  - by rewrite skip_ows_all.
  - rewrite skip_ows_app, skip_ows_stops by done. cbn match. change (negb (Byte.eqb ";" ";")) with false. cbn match.
    apply chunk_ext_front in Hr as [Hr1 Hr2]. rewrite skip_ows_app, ext_val_front by (done || by constructor).
    apply token_tchars in Hn as [Hn0 Hn]. rewrite span_app by done. destruct name as [|a name]; [done|].
    assert (chunk_ext_value (skip_ows rest) = Some (skip_ows rest)) as ->.
    { destruct (skip_ows rest) as [|c t]; [done|]. cbn in Hr2. cbn. by rewrite Hr2. }
    rewrite chunk_ext_loop_skip. apply IH. rewrite !length_app in Hf. cbn [length] in Hf. rewrite !length_app in Hf. cbn in Hf. lia.
  - rewrite skip_ows_app, skip_ows_stops by done. cbn match. change (negb (Byte.eqb ";" ";")) with false. cbn match.
    apply chunk_ext_front in Hr as [Hr1 _]. rewrite skip_ows_app, ext_val_front by (done || by constructor).
    apply token_tchars in Hn as [Hn0 Hn]. rewrite span_app; [|done|].
    2:{ destruct Hw3 as [|c w3 Hc _]; [done|]. cbn. destruct (is_tchar c) eqn:E; [|done]. apply is_tchar_not_ows in E. congruence. }
    destruct name as [|a name]; [done|]. rewrite skip_ows_app, (skip_ows_stops ("="%byte :: _)) by done. rewrite chunk_ext_value_spec by done.
    apply IH. rewrite !length_app in Hf. cbn [length] in Hf. rewrite !length_app in Hf. cbn [length] in Hf. rewrite !length_app in Hf. lia.
Qed.

(** Trailing white space makes no difference, so trimming the line first is harmless. *)
Lemma chunk_ext_trim_right s : chunk_ext s -> chunk_ext (trim_right s).
Proof.
  assert (forall a c r, is_ows c = false -> (forall r', chunk_ext r' -> chunk_ext (a ++ [c] ++ r')) -> chunk_ext (trim_right r) ->
    chunk_ext (trim_right (a ++ [c] ++ r))) as Hgo.
  { intros a c r Hc Hx Hr. destruct (trim_right r) as [|d t] eqn:E.
    - destruct (trim_right_spec r) as (w & Ew & Hw). rewrite E in Ew. rewrite Ew. cbn [app]. rewrite (app_assoc a [c] w : a ++ c :: w = _).
      rewrite trim_right_ows, trim_right_end by done. rewrite <-(app_nil_r (a ++ [c])), <-app_assoc. by apply Hx.
    - rewrite app_assoc, trim_right_app by (by rewrite E). rewrite E, <-app_assoc. by apply Hx. }
  assert (forall n, token n -> exists n' c, n = n' ++ [c] /\ is_ows c = false) as Hlast.
  { intros n [Hn Ht]%token_tchars. destruct (exists_last Hn) as (n' & c & ->). exists n', c. split; [done|].
    apply Forall_app in Ht as [_ Ht]. apply Forall_cons in Ht as [Ht _]. by apply is_tchar_not_ows. }
  induction 1 as [w Hw|w1 w2 name rest Hw1 Hw2 Hn Hr IH|w1 w2 name w3 w4 v rest Hw1 Hw2 Hn Hw3 Hw4 Hv Hr IH].
  - replace (trim_right w) with (@nil byte); [apply ext_end; constructor|]. symmetry. apply (trim_right_ows [] w Hw).
  - destruct (Hlast name Hn) as (n & c & E & Hc).
    replace (w1 ++ _) with ((w1 ++ ";"%byte :: w2 ++ n) ++ [c] ++ rest) by (rewrite E, <-!app_assoc; cbn; by rewrite <-!app_assoc).
    apply Hgo; [done| |done]. intros r' Hr'.
    replace (_ ++ _) with (w1 ++ ";"%byte :: w2 ++ name ++ r') by (rewrite E, <-!app_assoc; cbn; by rewrite <-!app_assoc). by constructor.
  - assert (exists v' c, v = v' ++ [c] /\ is_ows c = false) as (v' & c & E & Hc).
    { destruct Hv as [s Hs|s _]; [by apply Hlast|]. by exists (x22 :: s), x22. }
    replace (w1 ++ _) with ((w1 ++ ";"%byte :: w2 ++ name ++ w3 ++ "="%byte :: w4 ++ v') ++ [c] ++ rest)
      by (rewrite E, <-!app_assoc; cbn; rewrite <-!app_assoc; cbn; by rewrite <-!app_assoc).
    apply Hgo; [done| |done]. intros r' Hr'. replace (_ ++ _) with (w1 ++ ";"%byte :: w2 ++ name ++ w3 ++ "="%byte :: w4 ++ v ++ r')
      by (rewrite E, <-!app_assoc; cbn; rewrite <-!app_assoc; cbn; by rewrite <-!app_assoc). by constructor.
Qed.

Lemma chunk_ext_append s w : ows w -> chunk_ext s -> chunk_ext (s ++ w).
Proof.
  intros Hw. induction 1; [apply ext_end; by apply Forall_app|..]; rewrite <-app_assoc; cbn [app]; rewrite <-!app_assoc.
  - by constructor.
  - cbn [app]. rewrite <-!app_assoc. by constructor.
Qed.

Lemma chunk_ext_skip s : chunk_ext s -> chunk_ext (skip_ows s).
Proof.
  intros H. apply (chunk_ext_loop_complete (S (length s))) in H; [|lia]. rewrite <-chunk_ext_loop_skip in H. by apply chunk_ext_loop_sound in H.
Qed.

Lemma validate_chunk_extensions_exact s : validate_chunk_extensions s = true <-> chunk_ext s.
Proof. unfold validate_chunk_extensions. split; [apply chunk_ext_loop_sound|]. intros H. apply chunk_ext_loop_complete; [lia|done]. Qed.

Lemma trimmed_extensions_exact s :
  negb (streq (trim_ows s) []) && negb (validate_chunk_extensions (trim_ows s)) = false <-> chunk_ext s.
Proof.
  split.
  - intros H. destruct (trim_ows_spec s) as (w & w' & E & Hw & Hw'). rewrite E. apply chunk_ext_ows, chunk_ext_append; try done.
    destruct (streq (trim_ows s) []) eqn:Es.
    + apply streq_true in Es as ->. apply ext_end. constructor.
    + apply validate_chunk_extensions_exact. by destruct (validate_chunk_extensions _).
  - intros H%chunk_ext_skip%chunk_ext_trim_right%validate_chunk_extensions_exact. rewrite trim_ows_right, H. apply andb_false_r.
Qed.

(** ** The number *)

Lemma hex_digit_value_range c : is_hex_digit c = true -> 0 <= hex_digit_value c < 16.
Proof. unfold is_hex_digit, hex_digit_value, is_digit, between. intros. repeat case_if; lia. Qed.

Lemma hex_value_from_mono ds v : hex_digits ds -> 0 <= v -> v <= hex_value_from v ds.
Proof.
  intros H. revert v. induction H as [|c ds Hc _ IH]; intros v Hv; cbn; [lia|]. apply hex_digit_value_range in Hc.
  specialize (IH (16 * v + hex_digit_value c)). unfold hex_value_from in IH. lia.
Qed.

Lemma chunk_size_digits_spec line v ds rest : 0 <= v <= SIZE_MAX -> span is_hex_digit line = (ds, rest) ->
  exists w, 0 <= w <= SIZE_MAX /\ chunk_size_digits line v = if hex_value_from v ds <=? SIZE_MAX then inl (hex_value_from v ds, rest) else inr w.
Proof.
  revert v ds. induction line as [|c line IH]; intros v ds Hv E; cbn in E.
  { simplify_eq. exists v. split; [done|]. cbn. by rewrite (proj2 (Z.leb_le _ _)) by lia. }
  cbn [chunk_size_digits]. destruct (is_hex_digit c) eqn:Hc.
  - destruct (span is_hex_digit line) as [ds' rest'] eqn:Es. simplify_eq. pose proof (hex_digit_value_range c Hc) as Hd.
    cbn [hex_value_from fold_left]. fold (hex_value_from (16 * v + hex_digit_value c) ds').
    assert (hex_digits ds') as Hds by (by apply span_spec in Es as (_ & ? & _)).
    pose proof (hex_value_from_mono ds' (16 * v + hex_digit_value c) Hds) as Hm. unfold SIZE_MAX in *.
    pose proof (Z.div_mod (2 ^ 64 - 1 - hex_digit_value c) 16 ltac:(done)). pose proof (Z.mod_pos_bound (2 ^ 64 - 1 - hex_digit_value c) 16 ltac:(done)).
    destruct (Z.ltb_spec ((2 ^ 64 - 1 - hex_digit_value c) / 16) v) as [Hov|Hok].
    + exists v. split; [done|]. destruct (Z.leb_spec (hex_value_from (16 * v + hex_digit_value c) ds') (2 ^ 64 - 1)); [lia|done].
    + rewrite u64_small by lia. replace (v * 16) with (16 * v) by lia. apply IH; [lia|done].
  - simplify_eq. exists v. split; [done|]. cbn. by rewrite (proj2 (Z.leb_le _ _)) by lia.
Qed.

(** A chunk-size line is accepted exactly when it is a hexadecimal number of at most 1 GiB followed
    by extensions in the grammar of RFC 9112, section 7.1 (white space allowed at the end), and the
    size stored is that number: digits that would overflow [size_t] never wrap to a small size. *)
Theorem chunk_size_line_exact line n : parse_chunk_size_line line = inl n <->
  exists ds ext, line = ds ++ ext /\ ds <> [] /\ hex_digits ds /\ hex_value ds = n /\ n <= kMaxChunkSize /\ chunk_ext ext.
Proof.
  unfold parse_chunk_size_line. split.
  - destruct (span is_hex_digit line) as [ds ext] eqn:Es. destruct (chunk_size_digits_spec line 0 ds ext) as (w & _ & ->); [done..|].
    apply span_spec in Es as (-> & Hds & _). fold (hex_value ds). destruct (_ <=? SIZE_MAX); [|done].
    destruct (length ext =? length (ds ++ ext))%nat eqn:El; [done|]. destruct (Z.ltb_spec kMaxChunkSize (hex_value ds)); [done|].
    destruct (_ && _) eqn:Ex; [done|]. intros [= <-]. exists ds, ext. apply trimmed_extensions_exact in Ex.
    repeat split; try done. intros ->. by rewrite Nat.eqb_refl in El.
  - intros (ds & ext & -> & Hne & Hds & <- & Hmax & Hext).
    assert (stops is_hex_digit ext) as Hst.
    { apply chunk_ext_front in Hext as [Hst _]. destruct ext as [|c ext]; [done|]. cbn in *. destruct (is_hex_digit c) eqn:E; [|done].
      by destruct c. }
    destruct (chunk_size_digits_spec (ds ++ ext) 0 ds ext) as (w & _ & ->); [done|by apply span_app|]. fold (hex_value ds). unfold kMaxChunkSize, SIZE_MAX in *.
    rewrite (proj2 (Z.leb_le _ _)) by lia. rewrite (proj2 (Nat.eqb_neq _ _)).
    2:{ rewrite length_app. destruct ds; [done|]. cbn. lia. }
    rewrite (proj2 (Z.ltb_ge _ _)) by lia. apply trimmed_extensions_exact in Hext. by rewrite Hext.
Qed.

Lemma chunk_size_bounds line n : parse_chunk_size_line line = inl n -> 0 <= n <= kMaxChunkSize.
Proof.
  unfold parse_chunk_size_line. destruct (span is_hex_digit line) as [ds rest] eqn:Es. destruct (chunk_size_digits_spec line 0 ds rest) as (w & _ & ->); [done..|].
  apply span_spec in Es as (_ & Hds & _). pose proof (hex_value_from_mono ds 0 Hds ltac:(lia)) as Hm. 
  repeat case_match; intros; simplify_eq. lia.
Qed.

Lemma chunk_size_stored line e n : parse_chunk_size_line line = inr (e, n) -> 0 <= n <= SIZE_MAX.
Proof.
  unfold parse_chunk_size_line. destruct (span is_hex_digit line) as [ds rest] eqn:Es. destruct (chunk_size_digits_spec line 0 ds rest) as (w & Hw & ->); [done..|].
  apply span_spec in Es as (_ & Hds & _). pose proof (hex_value_from_mono ds 0 Hds ltac:(lia)) as Hm.
  destruct (Z.leb_spec (hex_value_from 0 ds) SIZE_MAX); repeat case_match; intros; simplify_eq; lia.
Qed.

(** ** Sizes as [std::to_chars] writes them *)

Lemma scan_hex s v w : scan_digits 16 s v = (w, []) -> hex_digits s /\ hex_value_from v s = w.
Proof.
  revert v. induction s as [|c s IH]; intros v H; cbn in H; [simplify_eq; split; [constructor|done]|].
  unfold digit_value in H. destruct (_ <? 16) eqn:E; [|done]. apply IH in H as [Hs Hv].
  assert (is_hex_digit c = true /\ hex_digit_value c = if is_digit c then b2z c - 48 else if between 97 102 c then b2z c - 87 else if between 65 70 c then b2z c - 55 else 16) as [Hc Ed].
  { unfold is_hex_digit, hex_digit_value. destruct (is_digit c); [done|]. destruct (between 97 102 c); [split; [done|lia]|]. destruct (between 65 70 c); [split; [done|lia]|].
    cbn in E. lia. }
  split; [by constructor|]. cbn [hex_value_from fold_left]. rewrite Ed. rewrite <-Hv. unfold hex_value_from. f_equal. lia.
Qed.

(** The size line of a chunk reads back, and is one line. *)
Lemma chunk_size_written n : 0 <= n <= kMaxChunkSize ->
  parse_chunk_size_line (to_chars 16 n) = inl n /\ ch_cr ∉ to_chars 16 n /\ ch_lf ∉ to_chars 16 n.
Proof.
  intros Hn. unfold kMaxChunkSize in Hn. pose proof (from_chars_to_chars 16 ltac:(lia) SIZE_MAX n [] ltac:(unfold SIZE_MAX; lia) ltac:(lia) I) as Hf.
  rewrite app_nil_r in Hf. unfold from_chars in Hf. destruct (to_chars 16 n) as [|c s] eqn:E; [done|]. rewrite <-E in *. clear E.
  destruct (digit_value 16 c); [|done]. destruct (scan_digits 16 (to_chars 16 n) 0) as [w r] eqn:Es. case_if; [|done]. simplify_eq.
  apply scan_hex in Es as [Hd Hv]. split; [|split; intros Hin; unfold hex_digits in Hd; rewrite Forall_forall in Hd; by apply Hd in Hin].
  unfold parse_chunk_size_line. pose proof (span_app is_hex_digit (to_chars 16 n) [] Hd I) as Hspan. rewrite app_nil_r in Hspan.
  destruct (chunk_size_digits_spec (to_chars 16 n) 0 (to_chars 16 n) []) as (w & _ & ->); [done..|]. rewrite Hv. rewrite (proj2 (Z.leb_le n SIZE_MAX)) by (unfold SIZE_MAX; lia).
  pose proof (to_chars_nonempty 16 n) as Hne. destruct (to_chars 16 n); [done|]. cbn [length Nat.eqb]. unfold kMaxChunkSize. by rewrite (proj2 (Z.ltb_ge _ n)) by lia.
Qed.

End Chunk.
