(* ===== verification/HttpRequest.v ===== *)
(** * The incremental request parser

    Models [request_parser] of [src/include/elio/http/http_parser.hpp].  A member function that reads and
    changes the parser is a function from the parser to its result and the parser after it.  The loops of
    [parse] and [parse_headers] take fuel; every round removes bytes from the buffer or ends the message,
    so one more than the bytes buffered is enough ([request_parse_runs]).

    The functions are related to a small step relation whose steps do not change when more input is appended;
    it follows that the parser computes the same message however the input is cut. *)

From Stdlib Require Import Strings.Byte Strings.String ZifyBool.
From S2P Require Import Prelude Str HttpCommon HttpHeaders HttpChunk.

Module Request.
Export Chunk.

#[local] Arguments str : simpl never.

Inductive parse_state := start | request_line | status_line | headers | body | chunk_size | chunk_data | chunk_trailer | complete | error.

#[global] Instance parse_state_eq_dec : EqDecision parse_state.
Proof. solve_decision. Defined.

Inductive parse_result := Need_more | Complete | Error.

Record request_parser := RequestParser {
  state_ : parse_state;
  method_ : method;
  path_ : list byte;
  query_ : list byte;
  version_ : list byte;
  headers_ : Headers.headers;
  body_ : list byte;
  buffer_ : list byte;
  content_length_ : Z;
  body_received_ : Z;
  chunked_ : bool;
  chunk_size_ : Z;
  error_message_ : option parse_error;
  max_headers_ : Z;
  max_header_size_ : Z;
  header_count_ : Z
}.

(** A parser as its constructor leaves it. *)
Definition new_parser : request_parser :=
  RequestParser request_line GET [] [] [] Headers.no_headers [] [] 0 0 false 0 None 100 8192 0.

(** ** Assignments to members *)

Definition with_state s p := RequestParser s (method_ p) (path_ p) (query_ p) (version_ p) (headers_ p) (body_ p) (buffer_ p)
  (content_length_ p) (body_received_ p) (chunked_ p) (chunk_size_ p) (error_message_ p) (max_headers_ p) (max_header_size_ p) (header_count_ p).
Definition with_method m p := RequestParser (state_ p) m (path_ p) (query_ p) (version_ p) (headers_ p) (body_ p) (buffer_ p)
  (content_length_ p) (body_received_ p) (chunked_ p) (chunk_size_ p) (error_message_ p) (max_headers_ p) (max_header_size_ p) (header_count_ p).
Definition with_target path query p := RequestParser (state_ p) (method_ p) path query (version_ p) (headers_ p) (body_ p) (buffer_ p)
  (content_length_ p) (body_received_ p) (chunked_ p) (chunk_size_ p) (error_message_ p) (max_headers_ p) (max_header_size_ p) (header_count_ p).
Definition with_version v p := RequestParser (state_ p) (method_ p) (path_ p) (query_ p) v (headers_ p) (body_ p) (buffer_ p)
  (content_length_ p) (body_received_ p) (chunked_ p) (chunk_size_ p) (error_message_ p) (max_headers_ p) (max_header_size_ p) (header_count_ p).
Definition with_header h count p := RequestParser (state_ p) (method_ p) (path_ p) (query_ p) (version_ p) h (body_ p) (buffer_ p)
  (content_length_ p) (body_received_ p) (chunked_ p) (chunk_size_ p) (error_message_ p) (max_headers_ p) (max_header_size_ p) count.
Definition with_body b received p := RequestParser (state_ p) (method_ p) (path_ p) (query_ p) (version_ p) (headers_ p) b (buffer_ p)
  (content_length_ p) received (chunked_ p) (chunk_size_ p) (error_message_ p) (max_headers_ p) (max_header_size_ p) (header_count_ p).
Definition with_buffer b p := RequestParser (state_ p) (method_ p) (path_ p) (query_ p) (version_ p) (headers_ p) (body_ p) b
  (content_length_ p) (body_received_ p) (chunked_ p) (chunk_size_ p) (error_message_ p) (max_headers_ p) (max_header_size_ p) (header_count_ p).
Definition with_framing len chunked p := RequestParser (state_ p) (method_ p) (path_ p) (query_ p) (version_ p) (headers_ p) (body_ p) (buffer_ p)
  len (body_received_ p) chunked (chunk_size_ p) (error_message_ p) (max_headers_ p) (max_header_size_ p) (header_count_ p).
Definition with_chunk_size n p := RequestParser (state_ p) (method_ p) (path_ p) (query_ p) (version_ p) (headers_ p) (body_ p) (buffer_ p)
  (content_length_ p) (body_received_ p) (chunked_ p) n (error_message_ p) (max_headers_ p) (max_header_size_ p) (header_count_ p).

Definition set_error (e : parse_error) p := RequestParser error (method_ p) (path_ p) (query_ p) (version_ p) (headers_ p) (body_ p) (buffer_ p)
  (content_length_ p) (body_received_ p) (chunked_ p) (chunk_size_ p) (Some e) (max_headers_ p) (max_header_size_ p) (header_count_ p).

Definition set_max_headers max p := RequestParser (state_ p) (method_ p) (path_ p) (query_ p) (version_ p) (headers_ p) (body_ p) (buffer_ p)
  (content_length_ p) (body_received_ p) (chunked_ p) (chunk_size_ p) (error_message_ p) max (max_header_size_ p) (header_count_ p).
Definition set_max_header_size max p := RequestParser (state_ p) (method_ p) (path_ p) (query_ p) (version_ p) (headers_ p) (body_ p) (buffer_ p)
  (content_length_ p) (body_received_ p) (chunked_ p) (chunk_size_ p) (error_message_ p) (max_headers_ p) max (header_count_ p).

(** The buffer is kept: it may hold the start of a pipelined request. *)
Definition reset p : request_parser :=
  RequestParser request_line GET [] [] [] Headers.no_headers [] (buffer_ p) 0 0 false 0 None (max_headers_ p) (max_header_size_ p) 0.

(** ** Observers *)

Definition is_complete p : bool := bool_decide (state_ p = complete).
Definition has_error p : bool := bool_decide (state_ p = error).
Definition take_remaining p : list byte * request_parser := (buffer_ p, with_buffer [] p).
Definition buffered_input_size p : Z := zlen (buffer_ p).
Definition bytes_buffered p : Z := zlen (buffer_ p) + zlen (body_ p).
Definition declared_content_length p : option Z :=
  if chunked_ p then None
  else match state_ p with body | complete => Some (content_length_ p) | _ => None end.

(** ** The request line *)

Section Parser.
Context (inet_pton : list byte -> bool).

(** The fields of a request line, and the bytes after it. *)
Definition request_fields (line rest : list byte) p : bool * request_parser :=
  match find " " line with
  | None => (false, set_error No_method p)
  | Some space1 =>
      match string_to_method (take space1 line) with
      | None => (false, set_error Unknown_method p)
      | Some m =>
          let p := with_method m p in
          match find_from " " line (S space1) with
          | None => (false, set_error No_version p)
          | Some space2 =>
              let uri := substr line (S space1) (space2 - S space1) in
              if negb (is_valid_request_target uri) then (false, set_error Bad_request_target p)
              else if bool_decide (m = CONNECT) && negb (is_valid_connect_authority inet_pton uri)
              then (false, set_error Bad_CONNECT_authority p)
              else if existsb (fun c => (b2z c =? 0) || between 1 0x1F c || (b2z c =? 0x7F)) uri
              then (false, set_error Bad_target_character p)
              else
                let p := match find "?" uri with
                         | Some query_pos => with_target (take query_pos uri) (drop (S query_pos) uri) p
                         | None => with_target uri (query_ p) p
                         end in
                let version := drop (S space2) line in
                let p := with_version version p in
                if streq version [] || negb (is_valid_http_version version) then (false, set_error Bad_HTTP_version p)
                else (true, with_state headers (with_buffer rest p))
          end
      end
  end.

Definition parse_request_line p : bool * request_parser :=
  match find_sub crlf (buffer_ p) with
  | None => (false, p)
  | Some line_end => request_fields (take line_end (buffer_ p)) (drop (line_end + 2) (buffer_ p)) p
  end.

(** ** The header section *)

(** The empty line: the framing of the body is decided. *)
Definition finish_headers p : bool * request_parser :=
  let has_te := Headers.contains (str "Transfer-Encoding") (headers_ p) in
  let has_cl := Headers.contains (str "Content-Length") (headers_ p) in
  if has_te && has_cl then (false, set_error Both_framing_headers p)
  else if streq (version_ p) (str "HTTP/1.1") && negb (length (Headers.get_all (str "Host") (headers_ p)) =? 1)%nat
  then (false, set_error Host_required p)
  else if bool_decide (method_ p = CONNECT) then
    if has_te then (false, set_error CONNECT_with_transfer_encoding p)
    else if has_cl && negb (bool_decide (Headers.content_length (headers_ p) = Some 0)) then (false, set_error CONNECT_with_content p)
    else (true, with_state complete p)
  else if has_te then
    if negb (Headers.is_chunked (headers_ p)) then (false, set_error Unsupported_transfer_encoding p)
    else (true, with_state chunk_size (with_framing (content_length_ p) true p))
  else if has_cl then
    match Headers.content_length (headers_ p) with
    | None => (false, set_error Bad_Content_Length p)
    | Some len =>
        let p := with_framing len (chunked_ p) p in
        (true, with_state (if 0 <? len then body else complete) p)
    end
  else (true, with_state complete p).

(** One header line: [None] when the loop goes on, the error otherwise. *)
Definition header_line (line rest : list byte) p : result Headers.header_error (option parse_error * request_parser) :=
  if max_header_size_ p <? zlen line then Ok (Some Header_line_too_long, p)
  else match find ":" line with
       | None => Ok (Some Bad_header_line, p)
       | Some colon =>
           let name := take colon line in
           let value := trim_ows (drop (S colon) line) in
           if negb (is_valid_header_name name) then Ok (Some Bad_header_name, p)
           else if negb (is_valid_header_value value) then Ok (Some Bad_header_value, p)
           else if ascii_iequals name (str "Content-Length") &&
                   (Headers.contains (str "Content-Length") (headers_ p) &&
                    negb (streq (trim_ows (Headers.get (str "Content-Length") (headers_ p))) value))
           then Ok (Some Conflicting_lengths, p)
           else if max_headers_ p <=? header_count_ p then Ok (Some Too_many_headers, p)
           else match Headers.add name value (headers_ p) with
                | Throw e => Throw e
                | Ok h => Ok (None, with_buffer rest (with_header h (u64 (header_count_ p + 1)) p))
                end
       end.

(** A round of the loop of [parse_headers]: [None] when the loop goes on. *)
Definition header_round p : result Headers.header_error (option bool * request_parser) :=
  match find_sub crlf (buffer_ p) with
  | None => Ok (Some false, if max_header_size_ p <? buffered_line_size (buffer_ p) then set_error Header_line_too_long p else p)
  | Some 0%nat => let '(ok, p) := finish_headers (with_buffer (drop 2 (buffer_ p)) p) in Ok (Some ok, p)
  | Some line_end =>
      match header_line (take line_end (buffer_ p)) (drop (line_end + 2) (buffer_ p)) p with
      | Throw e => Throw e
      | Ok (Some e, p) => Ok (Some false, set_error e p)
      | Ok (None, p) => Ok (None, p)
      end
  end.

Fixpoint parse_headers_loop (fuel : nat) p : result Headers.header_error (bool * request_parser) :=
  match fuel with
  | O => Ok (false, p)
  | S fuel =>
      match header_round p with
      | Throw e => Throw e
      | Ok (Some ok, p) => Ok (ok, p)
      | Ok (None, p) => parse_headers_loop fuel p
      end
  end.

Definition parse_headers p := parse_headers_loop (S (length (buffer_ p))) p.

(** ** The body *)

Definition parse_body p : bool * request_parser :=
  let remaining := u64 (content_length_ p - body_received_ p) in
  let available := Z.min remaining (zlen (buffer_ p)) in
  let p := with_body (body_ p ++ take (Z.to_nat available) (buffer_ p)) (u64 (body_received_ p + available))
                     (with_buffer (drop (Z.to_nat available) (buffer_ p)) p) in
  if content_length_ p <=? body_received_ p then (true, with_state complete p) else (false, p).

(** A bad size line leaves what has been read of the size. *)
Definition parse_chunk_size p : bool * request_parser :=
  match find_sub crlf (buffer_ p) with
  | None => if max_header_size_ p <? buffered_line_size (buffer_ p) then (true, set_error Chunk_size_line_too_long p) else (false, p)
  | Some line_end =>
      if max_header_size_ p <? Z.of_nat line_end then (true, set_error Chunk_size_line_too_long p)
      else match parse_chunk_size_line (take line_end (buffer_ p)) with
           | inr (e, stored) => (true, set_error e (with_chunk_size stored p))
           | inl size =>
               let p := with_buffer (drop (line_end + 2) (buffer_ p)) (with_chunk_size size p) in
               (true, with_state (if size =? 0 then chunk_trailer else chunk_data) p)
           end
  end.

Definition parse_chunk_data p : bool * request_parser :=
  let size := Z.to_nat (chunk_size_ p) in
  if zlen (buffer_ p) <? u64 (chunk_size_ p + 2) then (false, p)
  else if negb (bool_decide (buffer_ p !! size = Some ch_cr)) || negb (bool_decide (buffer_ p !! S size = Some ch_lf))
  then (true, set_error Missing_CRLF_after_chunk p)
  else (true, with_state chunk_size (with_buffer (drop (size + 2) (buffer_ p)) (with_body (body_ p ++ take size (buffer_ p)) (body_received_ p) p))).

Definition parse_chunk_trailer p : bool * request_parser :=
  match find_sub crlf (buffer_ p) with
  | None => if max_header_size_ p <? buffered_line_size (buffer_ p) then (true, set_error Trailer_line_too_long p) else (false, p)
  | Some 0%nat => (true, with_state complete (with_buffer (drop 2 (buffer_ p)) p))
  | Some line_end =>
      if max_header_size_ p <? Z.of_nat line_end then (true, set_error Trailer_line_too_long p)
      else if max_headers_ p <=? header_count_ p then (true, set_error Too_many_headers p)
      else if negb (validate_chunk_trailer_line (take line_end (buffer_ p))) then (true, set_error Bad_trailer p)
      else (true, with_buffer (drop (line_end + 2) (buffer_ p)) (with_header (headers_ p) (u64 (header_count_ p + 1)) p))
  end.

(** ** The loop *)

(** The sub-parser of a state. *)
Definition dispatch p : result Headers.header_error (bool * request_parser) :=
  match state_ p with
  | request_line => Ok (parse_request_line p)
  | headers => parse_headers p
  | body => Ok (parse_body p)
  | chunk_size => Ok (parse_chunk_size p)
  | chunk_data => Ok (parse_chunk_data p)
  | chunk_trailer => Ok (parse_chunk_trailer p)
  | _ => Ok (true, p)
  end.

(** What is returned for the state the loop ends in. *)
Definition outcome p : parse_result := match state_ p with error => Error | complete => Complete | _ => Need_more end.

(** What is returned when a sub-parser gives up: only those of the request line and of the headers look at the state. *)
Definition gave_up (before after : request_parser) : parse_result :=
  match state_ before with
  | request_line | headers => if bool_decide (state_ after = error) then Error else Need_more
  | _ => Need_more
  end.

Fixpoint parse_loop (fuel : nat) p (consumed : Z) : result Headers.header_error (parse_result * Z * request_parser) :=
  match fuel with
  | O => Ok (Need_more, consumed, p)
  | S fuel =>
      if streq (buffer_ p) [] || is_complete p || has_error p then Ok (outcome p, consumed, p)
      else match dispatch p with
           | Throw e => Throw e
           | Ok (ok, p') =>
               let consumed := consumed + (zlen (buffer_ p) - zlen (buffer_ p')) in
               if ok then parse_loop fuel p' consumed else Ok (gave_up p p', consumed, p')
           end
  end.

(** The parse result, the number of bytes consumed and the parser afterwards. *)
Definition parse (data : list byte) p : result Headers.header_error (parse_result * Z * request_parser) :=
  let p := with_buffer (buffer_ p ++ data) p in
  parse_loop (2 + length (buffer_ p)) p 0.

(** ** Steps that more input does not change *)

Definition body_byte (c : byte) (rest : list byte) p : request_parser :=
  let p := with_body (body_ p ++ [c]) (body_received_ p + 1) (with_buffer rest p) in
  if content_length_ p <=? body_received_ p then with_state complete p else p.

(** A sub-parser that returns false without an error waits for input. *)
Definition progress (r : bool * request_parser) : option request_parser :=
  let '(ok, p) := r in if ok || has_error p then Some p else None.

(** One line, one byte of a body or one chunk; [None] when there is nothing to do with what is buffered. *)
Definition step p : option request_parser :=
  match state_ p with
  | request_line => progress (parse_request_line p)
  | headers => match header_round p with
               | Throw _ => None
               | Ok (None, p) => Some p
               | Ok (Some ok, p) => progress (ok, p)
               end
  | body => match buffer_ p with c :: rest => Some (body_byte c rest p) | [] => None end
  | chunk_size => progress (parse_chunk_size p)
  | chunk_data => progress (parse_chunk_data p)
  | chunk_trailer => progress (parse_chunk_trailer p)
  | start | status_line | complete | error => None
  end.

Definition steps : relation request_parser := rtc (fun p q => step p = Some q).

(** The parser has done all it can. *)
Definition runs p q : Prop := steps p q /\ step q = None.

Definition feed (data : list byte) p := with_buffer (buffer_ p ++ data) p.

(** What every call relies on and re-establishes. *)
Record wf p : Prop := {
  wf_state : state_ p <> start /\ state_ p <> status_line;
  wf_body : state_ p = body -> 0 <= body_received_ p < content_length_ p /\ content_length_ p <= SIZE_MAX;
  wf_received : state_ p = request_line \/ state_ p = headers -> body_received_ p = 0;
  wf_chunk : state_ p <> error -> 0 <= chunk_size_ p <= kMaxChunkSize;
  wf_limit : 0 <= max_header_size_ p
}.

Lemma runs_unique p q q' : runs p q -> runs p q' -> q = q'.
Proof.
  intros [H Hq] [H' Hq']. induction H as [p|p r q Hr _ IH]; destruct H' as [|p' r' q' Hr' H']; try congruence; [].
  apply IH; [done|]. by replace r with r' by congruence.
Qed.

Lemma feed_feed d d' p : feed d' (feed d p) = feed (d ++ d') p.
Proof. unfold feed, with_buffer. cbn. by rewrite app_assoc. Qed.

Lemma take_line (b d : list byte) i : find_sub crlf b = Some i -> take i (b ++ d) = take i b /\ drop (i + 2) (b ++ d) = drop (i + 2) b ++ d.
Proof.
  intros H. apply find_sub_Some in H as ([k Hk] & Hi & _). apply (f_equal length) in Hk. rewrite length_drop, length_app in Hk.
  assert (length crlf = 2)%nat by done. rewrite take_app_le, drop_app_le by lia. done.
Qed.

(** A line that is already too long stays too long. *)
Lemma too_long_feed (b d : list byte) (max : Z) : 0 <= max -> find_sub crlf b = None -> max < buffered_line_size b ->
  match find_sub crlf (b ++ d) with None => max < buffered_line_size (b ++ d) | Some i => max < Z.of_nat i end.
Proof.
  intros Hm Hb Hl. destruct (find_sub crlf (b ++ d)) as [i|] eqn:E.
  - destruct (find_crlf_late b d i Hb E) as [Hi|[Hi Hc]]; unfold buffered_line_size, zlen in Hl.
    + case_bool_decide; lia.
    + rewrite bool_decide_true in Hl by done. lia.
  - destruct d as [|c d]; [by rewrite app_nil_r|]. unfold buffered_line_size, zlen in *. rewrite length_app. cbn [length].
    repeat case_bool_decide; lia.
Qed.

Lemma request_fields_feed line rest d p :
  request_fields line (rest ++ d) (feed d p) = prod_map id (feed d) (request_fields line rest p).
Proof. unfold request_fields. repeat (case_match; [|done]). repeat case_match; try done. Qed.

Lemma finish_headers_feed d p : finish_headers (feed d p) = prod_map id (feed d) (finish_headers p).
Proof.
  unfold finish_headers. cbn [feed with_buffer headers_ version_ method_ content_length_ chunked_ with_framing].
  repeat (case_match; try done).
Qed.

Lemma header_line_feed line rest d p : header_line line (rest ++ d) (feed d p) =
  match header_line line rest p with Throw e => Throw e | Ok (e, q) => Ok (e, feed d q) end.
Proof. unfold header_line. cbn [feed with_buffer headers_ max_header_size_ max_headers_ header_count_]. repeat (case_match; try done). Qed.

Lemma progress_feed d r : progress (prod_map id (feed d) r) = feed d <$> progress r.
Proof. destruct r as [ok p]. cbn. change (has_error (feed d p)) with (has_error p). by destruct (ok || has_error p). Qed.

Lemma has_error_set_error e p : has_error (set_error e p) = true.
Proof. done. Qed.

Lemma request_line_feed d p q : has_error p = false ->
  progress (parse_request_line p) = Some q -> progress (parse_request_line (feed d p)) = Some (feed d q).
Proof.
  intros He. unfold parse_request_line. cbn [feed with_buffer buffer_]. destruct (find_sub crlf (buffer_ p)) as [i|] eqn:E.
  - rewrite (find_sub_app_l _ _ d i E). destruct (take_line (buffer_ p) d i E) as [-> ->]. fold (feed d p).
    rewrite request_fields_feed, progress_feed. by intros ->.
  - cbn. by rewrite He.
Qed.

Lemma chunk_size_feed d p q : has_error p = false -> 0 <= max_header_size_ p ->
  progress (parse_chunk_size p) = Some q -> progress (parse_chunk_size (feed d p)) = Some (feed d q).
Proof.
  intros He Hm. unfold parse_chunk_size. cbn [feed with_buffer buffer_ max_header_size_]. destruct (find_sub crlf (buffer_ p)) as [i|] eqn:E.
  - rewrite (find_sub_app_l _ _ d i E). destruct (take_line (buffer_ p) d i E) as [-> ->].
    case_match; [by intros [= <-]|]. destruct (parse_chunk_size_line _) as [size|[e stored]]; by intros [= <-].
  - destruct (Z.ltb_spec (max_header_size_ p) (buffered_line_size (buffer_ p))) as [Hl|Hl]; [|cbn; by rewrite He].
    intros [= <-]. pose proof (too_long_feed _ d _ Hm E Hl) as Hf. destruct (find_sub crlf (buffer_ p ++ d)); by rewrite (proj2 (Z.ltb_lt _ _) Hf).
Qed.

Lemma chunk_trailer_feed d p q : has_error p = false -> 0 <= max_header_size_ p ->
  progress (parse_chunk_trailer p) = Some q -> progress (parse_chunk_trailer (feed d p)) = Some (feed d q).
Proof.
  intros He Hm. unfold parse_chunk_trailer. cbn [feed with_buffer buffer_ max_header_size_ max_headers_ header_count_].
  destruct (find_sub crlf (buffer_ p)) as [i|] eqn:E.
  - rewrite (find_sub_app_l _ _ d i E). destruct (take_line (buffer_ p) d i E) as [-> Hd]. destruct i as [|i].
    + intros [= <-]. cbn [Nat.add] in Hd. by rewrite Hd.
    + rewrite Hd. repeat (case_match; [by intros [= <-]|]). by intros [= <-].
  - destruct (Z.ltb_spec (max_header_size_ p) (buffered_line_size (buffer_ p))) as [Hl|Hl]; [|cbn; by rewrite He].
    intros [= <-]. pose proof (too_long_feed _ d _ Hm E Hl) as Hf. destruct (find_sub crlf (buffer_ p ++ d)) as [[|i]|]; [lia|..];
      by rewrite (proj2 (Z.ltb_lt _ _) Hf).
Qed.

Lemma chunk_data_feed d p q : has_error p = false -> 0 <= chunk_size_ p <= kMaxChunkSize ->
  progress (parse_chunk_data p) = Some q -> progress (parse_chunk_data (feed d p)) = Some (feed d q).
Proof.
  intros He Hc. unfold parse_chunk_data, kMaxChunkSize in *. cbn [feed with_buffer buffer_ chunk_size_].
  rewrite u64_small by lia. destruct (Z.ltb_spec (zlen (buffer_ p)) (chunk_size_ p + 2)) as [Hl|Hl]; [cbn; by rewrite He|].
  unfold zlen in *. rewrite length_app. rewrite (proj2 (Z.ltb_ge _ _)) by lia.
  rewrite !lookup_app_l, take_app_le, drop_app_le by lia. case_match; by intros [= <-].
Qed.

Lemma header_round_feed d p : has_error p = false -> 0 <= max_header_size_ p ->
  match header_round p with
  | Throw e => header_round (feed d p) = Throw e
  | Ok (Some false, q) => has_error q = true -> header_round (feed d p) = Ok (Some false, feed d q)
  | Ok (r, q) => header_round (feed d p) = Ok (r, feed d q)
  end.
Proof.
  intros He Hm. unfold header_round. cbn [feed with_buffer buffer_ max_header_size_].
  destruct (find_sub crlf (buffer_ p)) as [i|] eqn:E.
  - rewrite (find_sub_app_l _ _ d i E). destruct (take_line (buffer_ p) d i E) as [-> Hd]. destruct i as [|i].
    + cbn [Nat.add] in Hd. rewrite Hd. change (with_buffer (drop 2 (buffer_ p) ++ d) _) with (feed d (with_buffer (drop 2 (buffer_ p)) p)).
      rewrite finish_headers_feed. destruct (finish_headers _) as [[] q]; done.
    + rewrite Hd. fold (feed d p). rewrite header_line_feed. destruct (header_line _ _ p) as [[[e|] q]|e]; done.
  - destruct (Z.ltb_spec (max_header_size_ p) (buffered_line_size (buffer_ p))) as [Hl|Hl]; [|cbn; by rewrite He].
    intros _. pose proof (too_long_feed _ d _ Hm E Hl) as Hf. destruct (find_sub crlf (buffer_ p ++ d)) as [[|i]|] eqn:E'; [lia|..].
    + apply find_sub_Some in E' as (_ & Hi & _). unfold header_line. cbn [max_header_size_ with_buffer feed]. unfold zlen. rewrite length_take_le by done.
      by rewrite (proj2 (Z.ltb_lt _ _) Hf).
    + by rewrite (proj2 (Z.ltb_lt _ _) Hf).
Qed.

Lemma step_feed d p q : wf p -> step p = Some q -> step (feed d p) = Some (feed d q).
Proof.
  intros [Hs _ _ Hc Hm] H. assert (has_error p = false) as He by (unfold step, has_error in *; by destruct (state_ p)).
  unfold step in *. cbn [feed with_buffer state_]. fold (feed d p). destruct (state_ p) eqn:Es; try done.
  - by apply request_line_feed.
  - pose proof (header_round_feed d p He Hm) as Hr. destruct (header_round p) as [[[[]|] q']|e]; try (rewrite Hr; cbn in H; simplify_eq; done); [].
    cbn [progress] in *. destruct (has_error q') eqn:Eq; [|done]. rewrite Hr by done. cbn. change (has_error (feed d q')) with (has_error q').
    rewrite Eq. cbn in H. by simplify_eq.
  - cbn [buffer_ feed with_buffer]. destruct (buffer_ p) as [|c b]; [done|]. cbn. simplify_eq. unfold body_byte. cbn.
    by destruct (_ <=? _).
  - by apply chunk_size_feed.
  - apply chunk_data_feed; [done|by apply Hc|done].
  - by apply chunk_trailer_feed.
Qed.

(** ** Every sub-parser is a run of steps *)

(** The checks before [headers::add] leave it nothing to reject. *)
Lemma header_line_ok line rest p : exists r, header_line line rest p = Ok r.
Proof.
  unfold header_line. case_if; [eauto|]. destruct (find ":" line) as [colon|]; [|eauto].
  set (name := take colon line). set (value := trim_ows (drop (S colon) line)).
  destruct (is_valid_header_name name) eqn:Hn; [|cbn; eauto]. destruct (is_valid_header_value value) eqn:Hv; [|cbn; eauto]. cbn [negb].
  destruct (ascii_iequals name (str "Content-Length") && _) eqn:Hc; [eauto|]. case_if; [eauto|].
  assert (exists h, Headers.add name value (headers_ p) = Ok h) as [h ->]; [|eauto].
  apply Headers.add_checked; [done|done|apply trim_ows_idemp|]. intros E1 E2. rewrite E1, E2 in Hc. by apply negb_false_iff, streq_true in Hc.
Qed.

Lemma header_round_ok p : exists r, header_round p = Ok r.
Proof.
  unfold header_round. destruct (find_sub crlf (buffer_ p)) as [[|i]|]; [destruct (finish_headers _); eauto| |eauto].
  destruct (header_line_ok (take (S i) (buffer_ p)) (drop (S i + 2) (buffer_ p)) p) as [[[e|] q] ->]; eauto.
Qed.

Definition past_headers s : bool := match s with chunk_size | chunk_data | chunk_trailer | complete | error => true | _ => false end.

Lemma wf_moved p q : wf p -> past_headers (state_ q) = true -> 0 <= chunk_size_ q <= kMaxChunkSize -> max_header_size_ q = max_header_size_ p -> wf q.
Proof.
  intros [_ _ _ _ Hl] Hs Hc Hm. constructor; [|intros E|intros [E|E]|done|lia]; [|by rewrite E in Hs..]. split; intros E; by rewrite E in Hs.
Qed.

Lemma wf_error p q : wf p -> state_ q = error -> max_header_size_ q = max_header_size_ p -> wf q.
Proof. intros [_ _ _ _ Hl] Hs Hm. constructor; rewrite ?Hs; try done; [by intros [?|?]|lia]. Qed.

Lemma wf_buffer b p : wf p -> wf (with_buffer b p).
Proof. intros []. by constructor. Qed.

(** Bytes left to look at; a message that has ended needs none. *)
Definition measure p : nat := if is_complete p || has_error p then 0%nat else S (length (buffer_ p)).

(** [q] comes from [p] by an error, or by reading some bytes. *)
Record advances p q : Prop := {
  adv_wf : wf q;
  adv_buffer : exists k, buffer_ q = drop k (buffer_ p);
  adv_measure : (measure q < measure p)%nat
}.

Definition running p : Prop := state_ p <> complete /\ state_ p <> error.

Lemma wf_chunk_running p : wf p -> running p -> 0 <= chunk_size_ p <= kMaxChunkSize.
Proof. intros Hp [_ He]. by apply wf_chunk. Qed.

Lemma measure_running p : running p -> measure p = S (length (buffer_ p)).
Proof. intros [H1 H2]. unfold measure, is_complete, has_error. by rewrite !bool_decide_false. Qed.

Lemma advances_error p q : wf p -> running p -> state_ q = error -> buffer_ q = buffer_ p ->
  max_header_size_ q = max_header_size_ p -> advances p q.
Proof.
  intros Hp Hr Hs Hb Hm. constructor; [by apply (wf_error p)|exists 0%nat; by rewrite drop_0|].
  rewrite (measure_running p Hr). unfold measure, is_complete, has_error. rewrite Hs. rewrite (bool_decide_true (error = error)), orb_true_r by done. lia.
Qed.

Lemma advances_read k p q : running p -> wf q -> (0 < k <= length (buffer_ p))%nat -> buffer_ q = drop k (buffer_ p) -> advances p q.
Proof.
  intros Hr Hq Hk Hb. constructor; [done|by exists k|]. rewrite (measure_running p Hr). unfold measure.
  case_if; [lia|]. rewrite Hb, length_drop. lia.
Qed.

Lemma line_bounds (b : list byte) i : find_sub crlf b = Some i -> (i + 2 <= length b)%nat.
Proof. intros H. apply find_sub_Some in H as ([k Hk] & Hi & _). apply (f_equal length) in Hk. rewrite length_drop, length_app in Hk. assert (length crlf = 2)%nat by done. lia. Qed.

(** A round that fails leaves an error; one that reads a line leaves the rest of the buffer. *)
Ltac advance Hp Hr E :=
  first [ by apply advances_error
        | eapply advances_read; [exact Hr| |apply line_bounds in E; split; [|exact E]; lia|done]; 
          first [by apply (wf_moved _ _ Hp); [|apply (wf_chunk_running _ Hp Hr)|] | by apply (wf_moved _ _ Hp) | pose proof (wf_chunk_running _ Hp Hr); destruct Hp as [? ? Hreceived ? ?]; constructor; cbn; try done; intros; apply Hreceived; auto ] ].

Lemma request_line_advances p q : wf p -> state_ p = request_line -> progress (parse_request_line p) = Some q -> advances p q.
Proof.
  intros Hp Hs. assert (running p) as Hr by (unfold running; by rewrite Hs). unfold parse_request_line.
  destruct (find_sub crlf (buffer_ p)) as [i|] eqn:E.
  - unfold request_fields. repeat case_match; intros [= <-]; advance Hp Hr E.
  - cbn. unfold has_error. rewrite Hs. by rewrite bool_decide_false.
Qed.

Lemma content_length_range h n : Headers.content_length h = Some n -> 0 <= n <= SIZE_MAX.
Proof.
  unfold Headers.content_length. repeat (case_match; try done). intros [= <-]. eapply from_chars_range; [|done]. lia.
Qed.

Lemma finish_headers_wf p ok q : wf p -> state_ p = headers -> finish_headers p = (ok, q) -> wf q /\ buffer_ q = buffer_ p /\ ok = negb (has_error q).
Proof.
  intros Hp Hs. assert (0 <= chunk_size_ p <= kMaxChunkSize) by (apply wf_chunk; [done|by rewrite Hs]).
  unfold finish_headers. repeat case_match; intros [= <- <-]; (split; [|done]); try (by apply (wf_moved p)); try (by apply (wf_error p)); [].
  destruct Hp as [Hw1 _ Hw3 Hw4 Hw5]. specialize (Hw3 (or_intror Hs)). constructor; cbn; try done; [].
  intros _. match goal with H : Headers.content_length _ = Some _ |- _ => apply content_length_range in H end.
  match goal with H : (0 <? _) = true |- _ => apply Z.ltb_lt in H end. lia.
Qed.

Lemma header_round_advances p r q : wf p -> state_ p = headers -> header_round p = Ok (r, q) ->
  advances p q /\ match r with None => state_ q = headers | Some ok => ok = negb (has_error q) end \/ (r = Some false /\ q = p).
Proof.
  intros Hp Hs. assert (running p) as Hr by (unfold running; by rewrite Hs). unfold header_round.
  destruct (find_sub crlf (buffer_ p)) as [[|i]|] eqn:E.
  - destruct (finish_headers _) as [ok q'] eqn:Ef. intros [= <- <-]. left. apply finish_headers_wf in Ef as (Hq & Hb & Ho); [|by apply wf_buffer|done].
    split; [|done]. apply line_bounds in E. eapply advances_read; [done..| |by rewrite Hb]. lia.
  - unfold header_line. repeat case_match; intros; simplify_eq; left; (split; [|done]); advance Hp Hr E.
  - intros [= <- <-]. case_if; [left|by right]. split; [|done]. by apply advances_error.
Qed.

Lemma chunk_size_advances p q : wf p -> state_ p = chunk_size -> progress (parse_chunk_size p) = Some q -> advances p q.
Proof.
  intros Hp Hs. assert (running p) as Hr by (unfold running; by rewrite Hs). unfold parse_chunk_size.
  destruct (find_sub crlf (buffer_ p)) as [i|] eqn:E.
  - repeat case_match; intros [= <-]; try by apply advances_error.
    all: match goal with H : parse_chunk_size_line _ = inl _ |- _ => apply chunk_size_bounds in H end; advance Hp Hr E.
  - case_if; [intros [= <-]; by apply advances_error|]. cbn. unfold has_error. rewrite Hs. by rewrite bool_decide_false.
Qed.

Lemma chunk_data_advances p q : wf p -> state_ p = chunk_data -> progress (parse_chunk_data p) = Some q -> advances p q.
Proof.
  intros Hp Hs. assert (running p) as Hr by (unfold running; by rewrite Hs). unfold parse_chunk_data.
  pose proof (wf_chunk_running p Hp Hr) as Hc. unfold kMaxChunkSize in Hc. rewrite u64_small by lia. destruct (Z.ltb_spec (zlen (buffer_ p)) (chunk_size_ p + 2)) as [Hl|Hl].
  { cbn. unfold has_error. rewrite Hs. by rewrite bool_decide_false. }
  case_if; intros [= <-]; [by apply advances_error|]. unfold zlen in Hl.
  apply (advances_read (Z.to_nat (chunk_size_ p) + 2)); [done| |lia|done]. by apply (wf_moved p).
Qed.

Lemma chunk_trailer_advances p q : wf p -> state_ p = chunk_trailer -> progress (parse_chunk_trailer p) = Some q -> advances p q.
Proof.
  intros Hp Hs. assert (running p) as Hr by (unfold running; by rewrite Hs). unfold parse_chunk_trailer.
  destruct (find_sub crlf (buffer_ p)) as [[|i]|] eqn:E.
  - intros [= <-]. advance Hp Hr E.
  - repeat case_match; intros [= <-]; advance Hp Hr E.
  - case_if; [intros [= <-]; by apply advances_error|]. cbn. unfold has_error. rewrite Hs. by rewrite bool_decide_false.
Qed.

Lemma body_byte_advances c rest p : wf p -> state_ p = body -> buffer_ p = c :: rest -> advances p (body_byte c rest p).
Proof.
  intros Hp Hs Hb. assert (running p) as Hr by (unfold running; by rewrite Hs).
  assert (buffer_ (body_byte c rest p) = drop 1 (buffer_ p)) as Hd by (unfold body_byte; rewrite Hb; by case_if).
  apply (advances_read 1); [done| |rewrite Hb; cbn; lia|done]. unfold body_byte. pose proof (wf_chunk_running p Hp Hr). destruct Hp as [H1 H2 H3 _ H5]. specialize (H2 Hs).
  cbn. destruct (Z.leb_spec (content_length_ p) (body_received_ p + 1)); constructor; cbn; rewrite ?Hs; try done; try (intros _; lia); by intros [?|?].
Qed.

Lemma step_advances p q : wf p -> step p = Some q -> advances p q.
Proof.
  intros Hp H. unfold step in H. destruct (state_ p) eqn:Hs; try done; eauto using request_line_advances, chunk_size_advances, chunk_data_advances, chunk_trailer_advances.
  - destruct (header_round p) as [[[ok|] r]|] eqn:Hh; [|simplify_eq|done].
    + cbn in H. destruct (ok || has_error r) eqn:Eo; [|done]. injection H as <-.
      destruct (header_round_advances p (Some ok) r Hp Hs Hh) as [[? _]|[[= ->] ->]]; [done|]. unfold has_error in Eo. rewrite Hs in Eo. by rewrite bool_decide_false in Eo.
    + by destruct (header_round_advances p None q Hp Hs Hh) as [[? _]|[? _]].
  - destruct (buffer_ p) as [|c b] eqn:Hb; [done|]. injection H as <-. by apply body_byte_advances.
Qed.

Lemma steps_wf p q : wf p -> steps p q -> wf q.
Proof. intros Hp H. induction H as [|p r q Hr _ IH]; [done|]. by apply IH, (step_advances p r). Qed.

Lemma steps_feed d p q : wf p -> steps p q -> steps (feed d p) (feed d q).
Proof.
  intros Hp H. induction H as [|p r q Hr _ IH]; [constructor|]. econstructor; [by apply step_feed|]. by apply IH, (step_advances p r).
Qed.

(** Reading a body at once is reading it byte by byte. *)
Lemma parse_body_cons c rest p : wf p -> state_ p = body -> buffer_ p = c :: rest ->
  parse_body p = if is_complete (body_byte c rest p) then (true, body_byte c rest p) else parse_body (body_byte c rest p).
Proof.
  intros Hp Hs Hb. destruct (wf_body p Hp Hs) as [Hr Hm]. unfold SIZE_MAX in Hm. unfold parse_body at 1, body_byte. cbn. rewrite Hb.
  unfold zlen. cbn [length]. rewrite (u64_small (content_length_ p - _)) by lia.
  destruct (Z.leb_spec (content_length_ p) (body_received_ p + 1)) as [Hlast|Hmore].
  - replace (content_length_ p - body_received_ p) with 1 by lia. rewrite Z.min_l by lia. change (Z.to_nat 1) with 1%nat.
    rewrite u64_small by lia. rewrite (proj2 (Z.leb_le _ _)) by lia. unfold is_complete. cbn. by rewrite bool_decide_true.
  - unfold is_complete. cbn. rewrite Hs, bool_decide_false by done. unfold parse_body. cbn. unfold zlen.
    rewrite !u64_small by lia. remember (Z.min (content_length_ p - (body_received_ p + 1)) (Z.of_nat (length rest))) as m eqn:Em.
    replace (Z.min (content_length_ p - body_received_ p) (Z.of_nat (S (length rest)))) with (m + 1) by lia.
    replace (Z.to_nat (m + 1)) with (S (Z.to_nat m)) by lia. rewrite (u64_small (content_length_ p - (_ + 1))), <-Em, u64_small by lia.
    cbn [take drop]. rewrite <-app_assoc. cbn.
    replace (body_received_ p + (m + 1)) with (body_received_ p + 1 + m) by lia. done.
Qed.

Lemma parse_body_runs p ok q : wf p -> state_ p = body -> parse_body p = (ok, q) ->
  steps p q /\ (ok = true -> is_complete q = true) /\ (ok = false -> state_ q = body /\ buffer_ q = []).
Proof.
  remember (buffer_ p) as b eqn:Hb. revert p Hb. induction b as [|c b IH]; intros p Hb Hp Hs H.
  - destruct (wf_body p Hp Hs) as [Hr Hm]. unfold SIZE_MAX in Hm. unfold parse_body in H. rewrite <-Hb in H. change (zlen (A := byte) []) with 0 in H.
    rewrite (u64_small (content_length_ p - _)) in H by lia. rewrite Z.min_r in H by lia. rewrite Z.add_0_r, (u64_small (body_received_ p)) in H by lia.
    cbn in H. rewrite app_nil_r in H.
    rewrite (proj2 (Z.leb_gt _ _)) in H by lia. injection H as <- <-. cbn. split; [|done]. destruct p; cbn in *; subst. constructor.
  - symmetry in Hb. rewrite (parse_body_cons c b p) in H by done. pose proof (body_byte_advances c b p Hp Hs Hb) as Ha.
    assert (step p = Some (body_byte c b p)) as Hst by (unfold step; by rewrite Hs, Hb).
    destruct (is_complete (body_byte c b p)) eqn:Hc.
    + injection H as <- <-. split; [by apply rtc_once|done].
    + destruct (IH (body_byte c b p)) as (Hq & ? & ?); [unfold body_byte; by case_if|apply Ha| |done|].
      * unfold body_byte in *. by case_if.
      * split; [|done]. by econstructor.
Qed.

Lemma parse_headers_loop_runs fuel p : wf p -> state_ p = headers -> (length (buffer_ p) < fuel)%nat ->
  exists ok q, parse_headers_loop fuel p = Ok (ok, q) /\ steps p q /\
    (if ok then (measure q < measure p)%nat else step q = None /\ (state_ q = error \/ state_ q = headers)).
Proof.
  revert p. induction fuel as [|fuel IH]; intros p Hp Hs Hf; [lia|]. cbn [parse_headers_loop].
  destruct (header_round_ok p) as [[r q] Hh]. rewrite Hh. pose proof (header_round_advances p r q Hp Hs Hh) as Ha.
  assert (forall q', step p = Some q' -> steps p q') as Hone by (intros; by apply rtc_once).
  unfold step in Hone. rewrite Hs, Hh in Hone. destruct r as [ok|].
  - destruct Ha as [[Ha Ho]|[[= ->] ->]].
    + exists ok, q. split; [done|]. cbn in Hone. rewrite Ho in Hone. split; [apply Hone; by destruct (has_error q)|]. rewrite Ho.
      unfold has_error. case_bool_decide as He; [|apply Ha]. split; [unfold step; by rewrite He|by left].
    + exists false, p. split; [done|]. split; [apply rtc_refl|]. split; [|by right]. unfold step. rewrite Hs, Hh. cbn. unfold has_error. rewrite Hs.
      by rewrite bool_decide_false.
  - destruct Ha as [[Ha Hq]|[? _]]; [|done]. destruct Ha as [Hwf _ Hm]. rewrite !measure_running in Hm by (unfold running; by rewrite ?Hs, ?Hq).
    destruct (IH q) as (ok & q' & -> & Hst & Hr); [done..|lia|]. exists ok, q'. split; [done|]. split.
    + transitivity q; [by apply Hone|done].
    + destruct ok; [|done]. rewrite (measure_running p), (measure_running q) in * by (unfold running; by rewrite ?Hs, ?Hq). lia.
Qed.

(** A call of a sub-parser takes some steps; it returns true when it made progress. *)
Lemma dispatch_runs p : wf p -> running p -> buffer_ p <> [] -> exists ok q, dispatch p = Ok (ok, q) /\ steps p q /\
  (if ok then (measure q < measure p)%nat else step q = None /\ gave_up p q = outcome q).
Proof.
  intros Hp Hr Hne.
  assert (forall r, step p = progress r -> has_error p = false -> (r.1 = false -> r.2 = p \/ (state_ r.2 = error /\ gave_up p r.2 = Error)) ->
    gave_up p p = outcome p ->
    exists ok q, Ok r = Ok (E := Headers.header_error) (ok, q) /\ steps p q /\
      (if ok then (measure q < measure p)%nat else step q = None /\ gave_up p q = outcome q)) as Hgo.
  { intros [ok q] Hst He Hf Hgp. exists ok, q. split; [done|]. cbn in *. destruct ok.
    - split; [by apply rtc_once|]. by apply (step_advances p q Hp Hst).
    - destruct (Hf eq_refl) as [->|[Hq Hgu]]; [rewrite He in Hst; split; [apply rtc_refl|done]|].
      unfold has_error in Hst. rewrite Hq, bool_decide_true in Hst by done. split; [by apply rtc_once|]. split; [unfold step; by rewrite Hq|].
      rewrite Hgu. unfold outcome. by rewrite Hq. }
  assert (has_error p = false) as He by (unfold has_error; apply bool_decide_false, Hr).
  pose proof (wf_state p Hp) as Hws. unfold dispatch. destruct (state_ p) eqn:Hs; try by (destruct Hr, Hws).
  - apply Hgo; [unfold step; by rewrite Hs|done| |unfold gave_up, outcome; by rewrite Hs].
    intros Hf. unfold parse_request_line in *. case_match; [right|by left]. unfold gave_up. rewrite Hs.
    unfold request_fields in *. repeat case_match; try done; cbn; by rewrite bool_decide_true.
  - destruct (parse_headers_loop_runs (S (length (buffer_ p))) p) as (ok & q & Hq & Hst & H); [done..|lia|]. exists ok, q. split_and!; [done..|].
    destruct ok; [done|]. destruct H as [Hn [Hq'|Hq']]; (split; [done|]); unfold gave_up, outcome; rewrite Hs, Hq'; by case_bool_decide.
  - destruct (parse_body p) as [ok q] eqn:Eb. exists ok, q. split; [done|]. destruct (parse_body_runs p ok q Hp Hs Eb) as (Hst & Ht & Hf). split; [done|].
    destruct ok.
    + rewrite (measure_running p) by done. unfold measure. rewrite (Ht eq_refl). cbn. lia.
    + destruct (Hf eq_refl) as [Hq Hb]. unfold step, gave_up, outcome. by rewrite Hs, Hq, Hb.
  - apply Hgo; [unfold step; by rewrite Hs|done| |unfold gave_up, outcome; by rewrite Hs]. unfold parse_chunk_size. repeat case_match; auto; done.
  - apply Hgo; [unfold step; by rewrite Hs|done| |unfold gave_up, outcome; by rewrite Hs]. unfold parse_chunk_data. repeat case_match; auto; done.
  - apply Hgo; [unfold step; by rewrite Hs|done| |unfold gave_up, outcome; by rewrite Hs]. unfold parse_chunk_trailer. repeat case_match; auto; done.
Qed.

Lemma step_stops p : wf p -> streq (buffer_ p) [] || is_complete p || has_error p = true -> step p = None.
Proof.
  intros Hp H. destruct (step p) as [q|] eqn:E; [|done]. exfalso. pose proof (adv_measure p q (step_advances p q Hp E)) as Hm.
  destruct (is_complete p || has_error p) eqn:Ec; [unfold measure in Hm; rewrite Ec in Hm; lia|]. rewrite <-orb_assoc, Ec, orb_false_r in H.
  apply streq_true in H. revert E. unfold step, progress, parse_request_line, header_round, parse_chunk_size, parse_chunk_data, parse_chunk_trailer.
  apply orb_false_iff in Ec as [_ Ec]. rewrite H. assert (0 <= chunk_size_ p <= kMaxChunkSize) as Hck by (apply wf_chunk; [done|]; unfold has_error in Ec; by apply bool_decide_eq_false in Ec). unfold kMaxChunkSize in Hck. pose proof (wf_limit p Hp) as Hl.
  change (buffered_line_size []) with 0. change (find_sub crlf []) with (@None nat). rewrite (proj2 (Z.ltb_ge _ _)) by lia.
  rewrite u64_small by lia. change (zlen (A := byte) []) with 0. rewrite (proj2 (Z.ltb_lt 0 _)) by lia. rewrite Ec. by destruct (state_ p).
Qed.

Lemma parse_loop_runs fuel p consumed : wf p -> (measure p < fuel)%nat -> exists q,
  parse_loop fuel p consumed = Ok (outcome q, consumed + (zlen (buffer_ p) - zlen (buffer_ q)), q) /\ runs p q.
Proof.
  revert p consumed. induction fuel as [|fuel IH]; intros p consumed Hp Hf; [lia|]. cbn [parse_loop].
  destruct (streq (buffer_ p) [] || is_complete p || has_error p) eqn:Hstop.
  - exists p. split; [f_equal; f_equal; f_equal; lia|]. split; [apply rtc_refl|by apply step_stops].
  - apply orb_false_iff in Hstop as [Hstop He]. apply orb_false_iff in Hstop as [Hb Hc]. unfold is_complete, has_error in *.
    apply bool_decide_eq_false in He, Hc. apply streq_false in Hb.
    destruct (dispatch_runs p) as (ok & q & -> & Hst & Hr); [done..|]. pose proof (steps_wf p q Hp Hst) as Hq. destruct ok.
    + destruct (IH q (consumed + (zlen (buffer_ p) - zlen (buffer_ q)))) as (q' & -> & Hq' & Hn); [done|lia|]. exists q'.
      split; [f_equal; f_equal; f_equal; lia|]. split; [by etrans|done].
    + destruct Hr as [Hn ->]. exists q. split; [done|]. by split.
Qed.

(** [parse] never throws, always returns, and does all the steps there are. *)
Lemma request_parse_runs data p : wf p -> exists q, runs (feed data p) q /\
  parse data p = Ok (outcome q, zlen (buffer_ p) + zlen data - zlen (buffer_ q), q).
Proof.
  intros Hp. unfold parse. destruct (parse_loop_runs (2 + length (buffer_ (feed data p))) (feed data p) 0) as (q & H & Hq); [by apply wf_buffer| |].
  { unfold measure. case_if; lia. }
  exists q. split; [done|]. unfold feed in H at 1 2. rewrite H. cbn [buffer_ with_buffer feed]. unfold zlen. rewrite length_app, Nat2Z.inj_add.
  do 3 f_equal.
Qed.

(** ** Histories *)

(** The parsers a caller can have: made by the constructor and changed by the member functions. *)
Inductive reachable : request_parser -> Prop :=
| reach_new : reachable new_parser
| reach_max_headers n p : reachable p -> 0 <= n <= SIZE_MAX -> reachable (set_max_headers n p)
| reach_max_header_size n p : reachable p -> 0 <= n <= SIZE_MAX -> reachable (set_max_header_size n p)
| reach_reset p : reachable p -> reachable (reset p)
| reach_take_remaining p : reachable p -> reachable (take_remaining p).2
| reach_parse data p r n q : reachable p -> parse data p = Ok (r, n, q) -> reachable q.

Lemma reachable_wf p : reachable p -> wf p.
Proof.
  induction 1 as [|n p _ [] ?|n p _ [] ?|p _ []|p _ IH|data p r n q _ IH H]; try by constructor.
  - constructor; cbn; try done. lia.
  - by apply wf_buffer.
  - destruct (request_parse_runs data p IH) as (q' & [Hq _] & E). rewrite E in H. simplify_eq. eapply steps_wf; [|done]. by apply wf_buffer.
Qed.

(** [C36] However a byte stream is cut into reads, the parser ends in the same state: parsing the first
    part and then the second never throws, and gives the result, the total number of bytes consumed
    and the parser (message, unread bytes, error) that parsing them together gives. *)
Theorem request_parse_split data1 data2 p : reachable p -> exists r1 n1 p1 r2 n2 p2,
  parse data1 p = Ok (r1, n1, p1) /\ parse data2 p1 = Ok (r2, n2, p2) /\ parse (data1 ++ data2) p = Ok (r2, n1 + n2, p2).
Proof.
  intros Hp%reachable_wf. destruct (request_parse_runs data1 p Hp) as (p1 & [H1 H1'] & E1).
  assert (wf p1) as Hp1 by (eapply steps_wf; [|done]; by apply wf_buffer).
  destruct (request_parse_runs data2 p1 Hp1) as (p2 & [H2 H2'] & E2). destruct (request_parse_runs (data1 ++ data2) p Hp) as (q & Hq & E).
  assert (q = p2) as ->.
  { eapply runs_unique; [done|]. split; [|done]. rewrite <-feed_feed. transitivity (feed data2 p1); [|done]. apply steps_feed; [by apply wf_buffer|done]. }
  do 6 eexists. split; [exact E1|]. split; [exact E2|]. rewrite E. do 3 f_equal. unfold zlen. rewrite length_app. lia.
Qed.

(** ** Framing *)

(** What the end of the headers has checked. *)
Record checked p : Prop := {
  one_framing : ~ (Headers.contains (str "Transfer-Encoding") (headers_ p) = true /\ Headers.contains (str "Content-Length") (headers_ p) = true);
  one_host : version_ p = str "HTTP/1.1" -> length (Headers.get_all (str "Host") (headers_ p)) = 1%nat
}.

(** The body has the length the headers declare; a CONNECT request has none. *)
Record framed p : Prop := {
  framed_checked : checked p;
  framed_connect : method_ p = CONNECT -> body_ p = [] /\ Headers.contains (str "Transfer-Encoding") (headers_ p) = false;
  framed_chunked : chunked_ p = Headers.contains (str "Transfer-Encoding") (headers_ p);
  framed_final_coding : chunked_ p = true -> Headers.is_chunked (headers_ p) = true;
  framed_length : chunked_ p = false ->
    if Headers.contains (str "Content-Length") (headers_ p) then Headers.content_length (headers_ p) = Some (zlen (body_ p)) else body_ p = []
}.

Definition fresh_body p : Prop := body_ p = [] /\ chunked_ p = false /\ body_received_ p = 0.

Definition framing p : Prop :=
  Headers.headers_ok (headers_ p) /\
  match state_ p with
  | start | status_line | error => True
  | request_line | headers => fresh_body p
  | body => checked p /\ method_ p <> CONNECT /\ chunked_ p = false /\ Headers.contains (str "Transfer-Encoding") (headers_ p) = false /\
            Headers.contains (str "Content-Length") (headers_ p) = true /\
            Headers.content_length (headers_ p) = Some (content_length_ p) /\ body_received_ p = zlen (body_ p)
  | chunk_size | chunk_data | chunk_trailer =>
      checked p /\ method_ p <> CONNECT /\ chunked_ p = true /\ Headers.contains (str "Transfer-Encoding") (headers_ p) = true /\
      Headers.is_chunked (headers_ p) = true
  | complete => framed p
  end.

Lemma framing_error e p : framing p -> framing (set_error e p).
Proof. by intros [H _]. Qed.

Lemma checked_same p q : version_ q = version_ p -> headers_ q = headers_ p -> checked p -> checked q.
Proof. intros Hv Hh []. by constructor; rewrite ?Hv, ?Hh. Qed.

Lemma finish_headers_framing p ok q : fresh_body p -> Headers.headers_ok (headers_ p) -> finish_headers p = (ok, q) -> framing q.
Proof.
  intros (Hb & Hc & Hr) Hok. unfold finish_headers.
  destruct (Headers.contains (str "Transfer-Encoding") (headers_ p) && _) eqn:Hboth; [by intros [= <- <-]|].
  destruct (streq (version_ p) (str "HTTP/1.1") && _) eqn:Hh; [by intros [= <- <-]|].
  assert (checked p) as Hck.
  { split; [intros [Hte Hcl]; by rewrite Hte, Hcl in Hboth|]. intros Hv. rewrite Hv, streq_refl in Hh. by apply negb_false_iff, Nat.eqb_eq in Hh. }
  clear Hh. destruct (Headers.contains (str "Transfer-Encoding") (headers_ p)) eqn:Hte; cbn [andb] in Hboth; rewrite ?Hboth;
    case_bool_decide as Hm; try (by intros [= <- <-]).
  - destruct (Headers.is_chunked (headers_ p)) eqn:Hi; intros [= <- <-]; [|done]. split; [done|]. cbn. split_and!; try done. by apply (checked_same p).
  - destruct (_ && negb _) eqn:Hz; intros [= <- <-]; [done|]. split; [done|]. constructor; cbn; [by apply (checked_same p)|naive_solver|congruence|congruence|].
    intros _. destruct (Headers.contains (str "Content-Length") (headers_ p)); [|done]. cbn in Hz. apply negb_false_iff, bool_decide_eq_true in Hz.
    by rewrite Hb.
  - destruct (Headers.contains (str "Content-Length") (headers_ p)) eqn:Hcl.
    + destruct (Headers.content_length (headers_ p)) as [len|] eqn:El; [|by intros [= <- <-]]. intros [= <- <-]. pose proof (content_length_range _ _ El) as Hrange.
      split; [done|]. cbn [state_ with_state]. destruct (Z.ltb_spec 0 len).
      * cbn. split_and!; try done; [by apply (checked_same p)|]. by rewrite Hr, Hb.
      * constructor; cbn; [by apply (checked_same p)|naive_solver|congruence|congruence|]. intros _. rewrite Hcl, El, Hb. f_equal. change (len = 0). lia.
    + intros [= <- <-]. split; [done|]. constructor; cbn; [by apply (checked_same p)|naive_solver|congruence|congruence|]. intros _. by rewrite Hcl.
Qed.

Lemma request_fields_framing line rest p ok q : state_ p = request_line -> framing p -> request_fields line rest p = (ok, q) -> framing q.
Proof.
  intros Hs [Hok Hf]. rewrite Hs in Hf. unfold request_fields. repeat case_match; intros [= <- <-]; by split.
Qed.

Lemma header_round_framing p r q : state_ p = headers -> framing p -> header_round p = Ok (r, q) -> framing q.
Proof.
  intros Hs Hp. pose proof Hp as [Hok Hf]. rewrite Hs in Hf. unfold header_round. destruct (find_sub crlf (buffer_ p)) as [[|i]|].
  - destruct (finish_headers _) as [ok q'] eqn:E. intros [= <- <-]. by eapply finish_headers_framing in E.
  - unfold header_line. repeat case_match; intros; simplify_eq; try by apply framing_error.
    split; cbn; [|by rewrite Hs]. by eapply Headers.add_ok.
  - intros [= <- <-]. by case_if.
Qed.

Lemma body_byte_framing c rest p : wf p -> state_ p = body -> framing p -> framing (body_byte c rest p).
Proof.
  intros Hp Hs [Hok Hf]. rewrite Hs in Hf. destruct Hf as (Hck & Hm & Hc & Hte & Hcl & Hlen & Hrec). destruct (wf_body p Hp Hs) as [Hr _].
  assert (zlen (body_ p ++ [c]) = body_received_ p + 1) as Hz by (rewrite Hrec; unfold zlen; rewrite length_app; cbn; lia).
  unfold body_byte. split; [by case_if|]. cbn. destruct (Z.leb_spec (content_length_ p) (body_received_ p + 1)).
  - cbn. constructor; cbn; [by apply (checked_same p)|naive_solver|congruence|congruence|]. intros _. rewrite Hcl, Hlen, Hz. f_equal. lia.
  - cbn. rewrite Hs. split_and!; try done. by apply (checked_same p).
Qed.

Lemma step_framing p q : wf p -> framing p -> step p = Some q -> framing q.
Proof.
  intros Hp Hf H. unfold step in H. destruct (state_ p) eqn:Hs; try done.
  - unfold parse_request_line in H. destruct (find_sub crlf (buffer_ p)).
    + destruct (request_fields _ _ p) as [ok r] eqn:E. cbn in H. case_if; simplify_eq. by eapply request_fields_framing.
    + cbn in H. by case_if; simplify_eq.
  - destruct (header_round p) as [[[ok|] r]|] eqn:Hh; [cbn in H; case_if|..]; simplify_eq; by eapply header_round_framing.
  - destruct (buffer_ p); simplify_eq. by apply body_byte_framing.
  - pose proof Hf as [Hok Hc]. rewrite Hs in Hc. unfold parse_chunk_size in H. repeat case_match; cbn in H; try case_if; simplify_eq;
      try done; try (by apply framing_error); (split; [done|]; destruct Hc as (? & ? & ? & ? & ?); cbn; split_and!; try done; by apply (checked_same p)).
  - pose proof Hf as [Hok Hc]. rewrite Hs in Hc. unfold parse_chunk_data in H. repeat case_match; cbn in H; try case_if; simplify_eq;
      try done; try (by apply framing_error); (split; [done|]; destruct Hc as (? & ? & ? & ? & ?); cbn; split_and!; try done; by apply (checked_same p)).
  - pose proof Hf as [Hok Hc]. rewrite Hs in Hc. destruct Hc as (Hck & Hm & Hch & Hte & Hi). unfold parse_chunk_trailer in H.
    repeat case_match; cbn in H; try case_if; simplify_eq; try done; try (by apply framing_error).
    + split; [done|]. constructor; cbn; [by apply (checked_same p)|done|congruence|done|congruence].
    + split; [done|]. cbn. rewrite Hs. split_and!; try done. by apply (checked_same p).
Qed.

Lemma framing_limits m n b p : framing p -> framing (set_max_headers m (set_max_header_size n (with_buffer b p))).
Proof.
  intros [Hok Hf]. split; [done|]. cbn. destruct (state_ p); try done.
  1-4: (destruct Hf as [Hc Hf]; split; [|exact Hf]; by apply (checked_same p)).
  destruct Hf as [Hc H1 H2 H3 H4]. constructor; try done. by apply (checked_same p).
Qed.

Lemma reachable_framing p : reachable p -> framing p.
Proof.
  induction 1 as [|n p _ IH _|n p _ IH _|p _ IH|p _ IH|data p r n q Hp IH H].
  - split; [apply Headers.headers_ok_empty|done].
  - apply (framing_limits n (max_header_size_ p) (buffer_ p)) in IH. by destruct p.
  - apply (framing_limits (max_headers_ p) n (buffer_ p)) in IH. by destruct p.
  - split; [apply Headers.headers_ok_empty|done].
  - apply (framing_limits (max_headers_ p) (max_header_size_ p) []) in IH. by destruct p.
  - apply reachable_wf in Hp. destruct (request_parse_runs data p Hp) as (q' & [Hq _] & E). rewrite E in H. simplify_eq.
    assert (wf (feed data p)) as Hw by (by apply wf_buffer).
    assert (framing (feed data p)) as Hf by (apply (framing_limits (max_headers_ p) (max_header_size_ p) (buffer_ p ++ data)) in IH; by destruct p).
    clear -Hq Hw Hf. induction Hq as [|p' r q Hr _ IH]; [done|]. apply IH; [by apply (step_advances p' r)|by eapply step_framing].
Qed.

(** [C37] No request is completed with ambiguous framing: a complete message never has both a Transfer-Encoding
    and a Content-Length, an HTTP/1.1 message has exactly one Host line, a transfer coding is only
    accepted when chunked is the last one, without one the body has exactly the declared length (none when no
    length is declared), a CONNECT request has no body, and every field name is a token and every
    value free of control characters. *)
Theorem complete_request_framed p : reachable p -> is_complete p = true -> framed p /\ Headers.headers_ok (headers_ p).
Proof. intros [Hok Hf]%reachable_framing Hc. apply bool_decide_eq_true in Hc. by rewrite Hc in Hf. Qed.

(** ** Reading what a sender writes *)

(** One written line, read back: the value without the white space around it. *)
Lemma header_round_line n v rest p : buffer_ p = Headers.append_serialized_header n v ++ rest ->
  is_valid_token n = true -> is_valid_header_value v = true -> zlen (n ++ str ": " ++ v) <= max_header_size_ p -> header_count_ p < max_headers_ p ->
  (ascii_iequals n (str "Content-Length") = true -> Headers.contains (str "Content-Length") (headers_ p) = false) ->
  exists h, Headers.add n (trim_ows v) (headers_ p) = Ok h /\ header_round p = Ok (None, with_buffer rest (with_header h (u64 (header_count_ p + 1)) p)).
Proof.
  intros Hb Hn Hv Hl Hc Hcl. pose proof (Headers.crlf_free_line n v Hn Hv) as Hcr. unfold Headers.append_serialized_header in Hb.
  assert (buffer_ p = (n ++ str ": " ++ v) ++ crlf ++ rest) as Hb' by (rewrite Hb, <-!app_assoc; done). clear Hb.
  destruct (Headers.written_line n v Hn) as [Hf Ht].
  assert (header_line (n ++ str ": " ++ v) rest p = match Headers.add n (trim_ows v) (headers_ p) with
    | Throw e => Throw e | Ok h => Ok (None, with_buffer rest (with_header h (u64 (header_count_ p + 1)) p)) end) as Hline.
  { unfold header_line. rewrite Hf, Ht, take_app_length. unfold is_valid_header_name. rewrite Hn, (Headers.value_ok_trim v Hv). cbn [negb].
    rewrite (proj2 (Z.ltb_ge _ _)), (proj2 (Z.leb_gt (max_headers_ p) _)) by done.
    destruct (ascii_iequals n (str "Content-Length")); [by rewrite Hcl|done]. }
  destruct (header_line_ok (n ++ str ": " ++ v) rest p) as [[e q] Hr]. rewrite Hline in Hr.
  destruct (Headers.add n (trim_ows v) (headers_ p)) as [h|] eqn:Ha; [|done]. exists h. split; [done|].
  assert (exists k, length (n ++ str ": " ++ v) = S k) as [k Hk] by (destruct n; [done|by eexists]).
  unfold header_round. rewrite Hb', find_crlf_here, Hk by done. rewrite <-Hk, take_app_length, <-drop_drop, drop_app_length. change (drop 2 (crlf ++ rest)) with rest.
  by rewrite Hline.
Qed.

(** A block of lines, read back: the collection has the lines, in order. *)
Lemma header_block_steps l rest p f read :
  state_ p = headers -> buffer_ p = Headers.write_lines l ++ rest -> 0 <= header_count_ p -> header_count_ p + zlen l <= max_headers_ p -> max_headers_ p <= SIZE_MAX ->
  Forall (Headers.line_ok (max_header_size_ p)) l -> Headers.one_length (read ++ l) ->
  Headers.represents (headers_ p) f -> (forall k, f k = Headers.fields_of read k) ->
  exists h f', steps p (with_buffer rest (with_header h (header_count_ p + zlen l) p)) /\
    Headers.represents h f' /\ forall k, f' k = Headers.fields_of (read ++ map Headers.trim_line l) k.
Proof.
  revert p f read. induction l as [|[n v] l IH]; intros p f read Hs Hb Hc0 Hc Hm Hl Ho Hf Hk.
  { exists (headers_ p), f. cbn in Hb. unfold zlen. cbn [length]. rewrite Z.add_0_r. split_and!; [|done|].
    - replace (with_buffer _ _) with p by (destruct p; cbn in *; by subst). apply rtc_refl.
    - intros k. by rewrite app_nil_r. }
  apply Forall_cons in Hl as [(Hn & Hv & Hlen) Hl]. cbn [fst snd] in *. unfold zlen in Hc. cbn [length] in Hc.
  destruct (header_round_line n v (Headers.write_lines l ++ rest) p) as (h & Ha & Hr); [|done..|lia| |].
  { rewrite Hb. cbn [Headers.write_lines flat_map]. by rewrite <-app_assoc. }
  { intros Hcl. by eapply Headers.first_length. }
  destruct (Headers.read_one_line (headers_ p) f read n v l h) as (f' & Hrep & Hk' & Ho'); [done..|].
  set (p' := with_buffer (Headers.write_lines l ++ rest) (with_header h (u64 (header_count_ p + 1)) p)) in *.
  assert (header_count_ p' = header_count_ p + 1) as Hcount by (cbn; apply u64_small; unfold SIZE_MAX in *; lia).
  destruct (IH p' f' (read ++ [Headers.trim_line (n, v)])) as (h' & g & Hst & Hg & Hgk); try done; rewrite ?Hcount; unfold zlen; try (cbn; lia).
  exists h', g. split_and!; [|done|intros k; rewrite Hgk, <-app_assoc; done].
  eapply rtc_l; [unfold step; rewrite Hs, Hr; done|]. rewrite Hcount in Hst. unfold zlen in *. cbn [length].
  replace (header_count_ p + Z.of_nat (S (length l))) with (header_count_ p + 1 + Z.of_nat (length l)) by lia. exact Hst.
Qed.

Lemma version_shape v : v <> [] -> is_valid_http_version v = true ->
  exists a b, v = str "HTTP/" ++ [a; "."%byte; b] /\ is_digit a = true /\ is_digit b = true.
Proof.
  intros Hne H. unfold is_valid_http_version in H. destruct v as [|c0 v0]; [done|]. remember (c0 :: v0) as v eqn:E. clear E c0 v0 Hne.
  destruct (starts_with (str "HTTP/") v) eqn:Hp; [|done]. cbn [negb] in H. apply starts_with_prefix in Hp as [k ->].
  change (drop 5 (str "HTTP/" ++ k)) with k in H. destruct k as [|a [|d [|b [|]]]]; try done.
  apply andb_true_iff in H as [[Hd Ha]%andb_true_iff Hb]. apply byte_eqb_true in Hd as ->. eauto.
Qed.

Lemma version_no_cr v : v <> [] -> is_valid_http_version v = true -> ch_cr ∉ v.
Proof.
  intros Hne H. destruct (version_shape v Hne H) as (a & b & -> & Ha & Hb). rewrite list_elem_of_In. cbn. intros Hin.
  repeat destruct Hin as [Hin|Hin]; try done; by rewrite Hin in *.
Qed.

Lemma method_no c m : is_upper c = false -> c ∉ method_to_string m.
Proof. intros Hc Hin. rewrite list_elem_of_In in Hin. destruct m; cbn in Hin; repeat destruct Hin as [Hin|Hin]; try done; by rewrite <-Hin in Hc. Qed.

Lemma target_no_controls t : is_valid_request_target t = true -> existsb (fun c => (b2z c =? 0) || between 1 0x1F c || (b2z c =? 0x7F)) t = false.
Proof.
  unfold is_valid_request_target, has_request_target_forbidden_char. destruct t as [|c t]; [done|]. intros H%negb_true_iff.
  apply not_true_iff_false. intros (x & Hx & Hc)%existsb_exists. apply not_true_iff_false in H. apply H, existsb_exists. exists x. split; [done|].
  unfold between in Hc. lia.
Qed.

(** The target a path and a query make. *)
Definition target_of (path query : list byte) : list byte := path ++ match query with [] => [] | _ => "?"%byte :: query end.

Lemma request_line_step m path query version rest p :
  state_ p = request_line -> query_ p = [] ->
  buffer_ p = method_to_string m ++ str " " ++ target_of path query ++ str " " ++ version ++ crlf ++ rest ->
  is_valid_request_target (target_of path query) = true -> "?"%byte ∉ path -> (m = CONNECT -> is_valid_connect_authority inet_pton (target_of path query) = true) ->
  version <> [] -> is_valid_http_version version = true ->
  step p = Some (with_state headers (with_buffer rest (with_version version (with_target path query (with_method m p))))).
Proof.
  intros Hs Hq0 Hb Ht Hpath Hconn Hv Hv'. set (target := target_of path query) in *.
  set (line := method_to_string m ++ ch_space :: target ++ ch_space :: version).
  assert (buffer_ p = line ++ crlf ++ rest) as Hb' by (rewrite Hb; unfold line; rewrite <-!app_assoc; cbn; by rewrite <-!app_assoc).
  assert (ch_cr ∉ line) as Hcr.
  { unfold line. rewrite elem_of_app, elem_of_cons, elem_of_app, elem_of_cons. intros [H|[H|[H|[H|H]]]]; try done.
    - by apply (method_no ch_cr m).
    - by apply (target_excludes ch_cr target).
    - by apply (version_no_cr version). }
  assert (find " " line = Some (length (method_to_string m))) as Hf1 by (apply find_app_here; by apply method_no).
  assert (drop (S (length (method_to_string m))) line = target ++ ch_space :: version) as Hd.
  { unfold line. rewrite <-Nat.add_1_r, <-drop_drop, drop_app_length. done. }
  assert (find_from " " line (S (length (method_to_string m))) = Some (S (length (method_to_string m)) + length target)%nat) as Hf2.
  { unfold find_from. rewrite Hd. by rewrite (find_app_here " " target) by (by apply target_excludes). }
  assert (substr line (S (length (method_to_string m))) (S (length (method_to_string m)) + length target - S (length (method_to_string m))) = target) as Hsub.
  { unfold substr. rewrite Hd, Nat.add_comm, Nat.add_sub. apply take_app_length. }
  assert (drop (S (S (length (method_to_string m)) + length target)) line = version) as Hver.
  { replace (S (S (length (method_to_string m)) + length target)) with (S (length (method_to_string m)) + S (length target))%nat by lia.
    rewrite <-drop_drop, Hd, <-Nat.add_1_r, <-drop_drop, drop_app_length. done. }
  unfold step. rewrite Hs. unfold parse_request_line. rewrite Hb', find_crlf_here by done.
  rewrite take_app_length, <-drop_drop, drop_app_length. change (drop 2 (crlf ++ rest)) with rest.
  unfold request_fields. rewrite Hf1. unfold line at 1. rewrite take_app_length, string_to_method_to_string, Hf2. cbv zeta. rewrite Hsub, Hver, Ht. cbn [negb].
  replace (bool_decide (m = CONNECT) && _) with false by (case_bool_decide; [by rewrite Hconn|done]).
  rewrite target_no_controls by done. rewrite (proj2 (streq_false version [])), Hv' by done. cbn [negb orb].
  destruct query as [|c query].
  - replace (find "?" target) with (@None nat); [|symmetry; apply find_None; unfold target, target_of; by rewrite app_nil_r].
    cbn. rewrite Hq0. unfold target, target_of. by rewrite app_nil_r.
  - replace (find "?" target) with (Some (length path)); [|symmetry; by apply find_app_here]. cbn.
    unfold target, target_of. rewrite take_app_length, <-Nat.add_1_r, <-drop_drop, drop_app_length. done.
Qed.

(** The bytes of a body, read one by one. *)
Lemma body_steps bytes rest p : state_ p = body -> buffer_ p = bytes ++ rest -> bytes <> [] ->
  content_length_ p = body_received_ p + zlen bytes ->
  steps p (with_state complete (with_body (body_ p ++ bytes) (content_length_ p) (with_buffer rest p))).
Proof.
  revert p. induction bytes as [|c bytes IH]; intros p Hs Hb Hne Hlen; [done|]. unfold zlen in Hlen. cbn [length] in Hlen.
  eapply rtc_l; [unfold step; rewrite Hs, Hb; done|]. cbn [app] in *. unfold body_byte. cbn [content_length_ with_body with_buffer body_received_].
  destruct bytes as [|d bytes].
  - rewrite (proj2 (Z.leb_le _ _)) by (cbn in Hlen; lia). replace (body_received_ p + 1) with (content_length_ p) by (cbn in Hlen; lia). apply rtc_refl.
  - rewrite (proj2 (Z.leb_gt _ _)) by (cbn in Hlen; lia).
    set (q := with_body (body_ p ++ [c]) (body_received_ p + 1) (with_buffer ((d :: bytes) ++ rest) p)).
    specialize (IH q). cbn in IH. rewrite <-app_assoc in IH. apply IH; try done. unfold zlen. cbn [length] in *. lia.
Qed.

(** A run from the constructor is what [parse] computes. *)
Lemma parse_steps data p q : wf p -> steps (feed data p) q -> step q = None ->
  parse data p = Ok (outcome q, zlen (buffer_ p) + zlen data - zlen (buffer_ q), q).
Proof. intros Hp Hst Hq. destruct (request_parse_runs data p Hp) as (q' & Hr & ->). by rewrite (runs_unique _ q' q Hr (conj Hst Hq)). Qed.

End Parser.

(** Two reads of one request, cut in a header line. *)
Lemma request_parse_split_witness : let inet_pton := fun _ : list byte => false in
  reachable inet_pton new_parser /\ exists r1 n1 p1 r2 n2 p2,
  parse inet_pton (str "GET / HTTP/1.1" ++ crlf ++ str "Ho") new_parser = Ok (r1, n1, p1) /\
  parse inet_pton (str "st: a" ++ crlf ++ crlf) p1 = Ok (r2, n2, p2) /\
  parse inet_pton ((str "GET / HTTP/1.1" ++ crlf ++ str "Ho") ++ str "st: a" ++ crlf ++ crlf) new_parser = Ok (r2, n1 + n2, p2).
Proof. split; [constructor|]. apply request_parse_split. constructor. Defined.

(** A request with a body of four bytes. *)
Lemma complete_request_framed_witness : let inet_pton := fun _ : list byte => false in
  exists p, reachable inet_pton p /\ is_complete p = true /\ body_ p = str "abcd" /\ framed p /\ Headers.headers_ok (headers_ p).
Proof.
  intros inet_pton.
  assert (exists r n p, parse inet_pton (str "POST / HTTP/1.0" ++ crlf ++ str "Content-Length: 4" ++ crlf ++ crlf ++ str "abcd") new_parser = Ok (r, n, p) /\
    is_complete p = true /\ body_ p = str "abcd") as (r & n & p & H & Hc & Hb) by (vm_compute; eauto 10).
  assert (reachable inet_pton p) as Hp by (eapply reach_parse; [apply reach_new|exact H]).
  exists p. split; [done|]. split; [done|]. split; [done|]. exact (complete_request_framed inet_pton p Hp Hc).
Defined.

End Request.
