(* ===== verification/HttpMessage.v ===== *)
(** * Requests

    Models the class [request] of [src/include/elio/http/http_message.hpp]: its setters, its
    serialization, and its construction from a parser.  The order in which a hash table enumerates header fields is an
    argument of the functions that depend on it. The main theorem composes this file with the request parser. *)

From Stdlib Require Import Strings.Byte Strings.String ZifyBool.
From S2P Require Import Prelude Str HttpCommon HttpHeaders HttpChunk HttpRequest.

Module Message.
Export Http.

#[local] Arguments str : simpl never.

Inductive message_error :=
| Invalid_path | Invalid_query | Invalid_version | Invalid_target
| Header (e : Headers.header_error).

Record request := Request {
  method_ : method;
  path_ : list byte;
  query_ : list byte;
  version_ : list byte;
  headers_ : Headers.headers;
  body_ : list byte;
  expect_continue_ : bool
}.

Definition new_request : request := Request GET (str "/") [] (str "HTTP/1.1") Headers.no_headers [] false.

Definition set_method m r := Request m (path_ r) (query_ r) (version_ r) (headers_ r) (body_ r) (expect_continue_ r).

Definition set_path (p : list byte) r : result message_error request :=
  if negb (is_valid_request_target_component p) then Throw Invalid_path
  else Ok (Request (method_ r) p (query_ r) (version_ r) (headers_ r) (body_ r) (expect_continue_ r)).

Definition make_request (m : method) (path : list byte) : result message_error request := set_path path (set_method m new_request).

Definition set_query (q : list byte) r : result message_error request :=
  if negb (is_valid_request_target_component q) then Throw Invalid_query
  else Ok (Request (method_ r) (path_ r) q (version_ r) (headers_ r) (body_ r) (expect_continue_ r)).

Definition set_version (v : list byte) r : result message_error request :=
  if negb (is_valid_http_version v) then Throw Invalid_version
  else Ok (Request (method_ r) (path_ r) (query_ r) v (headers_ r) (body_ r) (expect_continue_ r)).

(** A call on the header collection, through [get_headers] or a setter. *)
Definition on_headers (f : Headers.headers -> result Headers.header_error Headers.headers) r : result message_error request :=
  match f (headers_ r) with
  | Throw e => Throw (Header e)
  | Ok h => Ok (Request (method_ r) (path_ r) (query_ r) (version_ r) h (body_ r) (expect_continue_ r))
  end.

Definition set_header (name value : list byte) : request -> result message_error request := on_headers (Headers.set name value).
Definition set_host (h : list byte) : request -> result message_error request := on_headers (Headers.set (str "Host") h).
Definition set_content_type (type : list byte) : request -> result message_error request := on_headers (Headers.set_content_type type).

Definition set_body (b : list byte) r : result message_error request :=
  on_headers (Headers.set_content_length (zlen b))
    (Request (method_ r) (path_ r) (query_ r) (version_ r) (headers_ r) b (expect_continue_ r)).

Definition set_expect_continue (on : bool) r : result message_error request :=
  on_headers (fun h => if on then Headers.set (str "Expect") (str "100-continue") h else Ok (Headers.remove (str "Expect") h))
    (Request (method_ r) (path_ r) (query_ r) (version_ r) (headers_ r) (body_ r) on).

Definition path_with_query r : list byte :=
  let path := match path_ r with [] => str "/" | p => p end in
  match query_ r with [] => path | q => path ++ str "?" ++ q end.

Section Serialize.
Context (order : Headers.headers -> list (list byte * list byte)).

Definition serialize_headers_for (target : list byte) (fields : Headers.headers) r : result message_error (list byte) :=
  if negb (is_valid_request_target target) then Throw Invalid_target
  else
    let version := match version_ r with [] => str "HTTP/1.1" | v => v end in
    if negb (is_valid_http_version version) then Throw Invalid_version
    else
      let sent := if expect_continue_ r && streq (body_ r) [] then Headers.remove (str "Expect") fields else fields in
      Ok (method_to_string (method_ r) ++ str " " ++ target ++ str " " ++ version ++ crlf ++
          Headers.serialize (order sent) sent ++ crlf).

Definition serialize_headers r : result message_error (list byte) := serialize_headers_for (path_with_query r) (headers_ r) r.

Definition serialize r : result message_error (list byte) :=
  match serialize_headers r with Throw e => Throw e | Ok text => Ok (text ++ body_ r) end.

End Serialize.

Definition from_parser (p : Request.request_parser) : request :=
  Request (Request.method_ p) (Request.path_ p) (Request.query_ p) (Request.version_ p) (Request.headers_ p) (Request.body_ p) false.

(** ** The requests a program can build *)

Inductive built : request -> Prop :=
| built_new : built new_request
| built_method m r : built r -> built (set_method m r)
| built_path p r r' : built r -> set_path p r = Ok r' -> built r'
| built_query q r r' : built r -> set_query q r = Ok r' -> built r'
| built_version v r r' : built r -> set_version v r = Ok r' -> built r'
| built_headers o r r' : built r -> on_headers (Headers.exec o) r = Ok r' -> built r'
| built_body b r r' : built r -> set_body b r = Ok r' -> built r'
| built_expect on r r' : built r -> set_expect_continue on r = Ok r' -> built r'.

(** What the setters check and what the header operations keep. *)
Record request_ok r : Prop := {
  rq_path : is_valid_request_target_component (path_ r) = true;
  rq_query : is_valid_request_target_component (query_ r) = true;
  rq_version : is_valid_http_version (version_ r) = true;
  rq_headers : Headers.headers_ok (headers_ r);
  rq_fields : exists f, Headers.represents (headers_ r) f
}.

Lemma on_headers_ok o r r' : request_ok r -> on_headers (Headers.exec o) r = Ok r' -> request_ok r'.
Proof.
  intros [H1 H2 H3 H4 [f H5]]. unfold on_headers. destruct (Headers.exec o (headers_ r)) as [h|e] eqn:E; [|done]. intros [= <-].
  pose proof (Headers.header_exec_refines o _ _ H5) as Hr. rewrite E in Hr. destruct Hr as (f' & _ & Hf').
  constructor; cbn; try done; [by eapply Headers.header_exec_ok|by exists f'].
Qed.

Lemma built_ok r : built r -> request_ok r.
Proof.
  induction 1 as [|m r _ IH|p r r' _ IH H|q r r' _ IH H|v r r' _ IH H|o r r' _ IH H|b r r' _ IH H|on r r' _ IH H].
  - constructor; try done; [apply Headers.headers_ok_empty|by exists Headers.no_fields].
  - by destruct IH.
  - unfold set_path in H. destruct (is_valid_request_target_component p) eqn:Hc; [|done]. injection H as <-. destruct IH. by constructor.
  - unfold set_query in H. destruct (is_valid_request_target_component q) eqn:Hc; [|done]. injection H as <-. destruct IH. by constructor.
  - unfold set_version in H. destruct (is_valid_http_version v) eqn:Hc; [|done]. injection H as <-. destruct IH. by constructor.
  - by eapply on_headers_ok.
  - apply (on_headers_ok (Headers.Set_ (str "Content-Length") (to_string (zlen b)))) in H; [done|]. by destruct IH.
  - destruct on.
    + apply (on_headers_ok (Headers.Set_ (str "Expect") (str "100-continue"))) in H; [done|]. by destruct IH.
    + apply (on_headers_ok (Headers.Remove (str "Expect"))) in H; [done|]. by destruct IH.
Qed.

(** The header collection that goes on the wire, and the path and version. *)
Definition sent_headers r : Headers.headers :=
  if expect_continue_ r && streq (body_ r) [] then Headers.remove (str "Expect") (headers_ r) else headers_ r.
Definition sent_path r : list byte := match path_ r with [] => str "/" | p => p end.
Definition sent_version r : list byte := match version_ r with [] => str "HTTP/1.1" | v => v end.

(** What the sender must have arranged: a Content-Length that is the length of the body (as [set_body] does)
    and no transfer coding, a Host for HTTP/1.1, no question mark in the path, an authority as the target
    of CONNECT, and header lines within the default limits of the parser. *)
Record sendable (inet_pton : list byte -> bool) (order : Headers.headers -> list (list byte * list byte)) r : Prop := {
  sd_path : "?"%byte ∉ path_ r;
  sd_connect : method_ r = CONNECT -> is_valid_connect_authority inet_pton (path_with_query r) = true /\ body_ r = [];
  sd_host : sent_version r = str "HTTP/1.1" -> Headers.contains (str "Host") (headers_ r) = true;
  sd_coding : Headers.contains (str "Transfer-Encoding") (headers_ r) = false;
  sd_length : if Headers.contains (str "Content-Length") (headers_ r)
              then Headers.content_length (headers_ r) = Some (zlen (body_ r)) else body_ r = [];
  sd_count : zlen (Headers.lines (order (sent_headers r)) (sent_headers r)) <= 100;
  sd_lines : Forall (fun e => zlen (e.1 ++ str ": " ++ e.2) <= 8192) (Headers.lines (order (sent_headers r)) (sent_headers r))
}.

Lemma lines_valid order h : Headers.headers_ok h -> order ≡ₚ Headers.headers_ h ->
  Forall (fun e => is_valid_token e.1 = true /\ is_valid_header_value e.2 = true) (Headers.lines order h).
Proof.
  intros [_ Hf Hl] Ho. rewrite <-Ho in Hf. clear Ho. unfold Headers.lines. induction Hf as [|[n v] order [Hn Hv] _ IH]; cbn [flat_map fst snd] in *; [done|].
  apply Forall_app. split; [|done]. destruct (Headers.ci_find n (Headers.header_values_ h)) as [[k l]|] eqn:E; [|by repeat constructor].
  case_if; [|by repeat constructor]. apply Headers.ci_find_key in E as [_ Hin]. rewrite Forall_forall in Hl. specialize (Hl _ Hin). cbn in Hl.
  apply Forall_map. eapply Forall_impl; [exact Hl|]. intros c Hc. by split.
Qed.

(** A field after a trip over the wire. *)
Lemma received_field order h f h' f' name : Headers.headers_ok h -> Headers.represents h f -> order ≡ₚ Headers.headers_ h ->
  Headers.represents h' f' -> (forall k, f' k = Headers.fields_of (map Headers.trim_line (Headers.lines order h)) k) ->
  Headers.get name h' = trim_ows (Headers.get name h) /\ Headers.contains name h' = Headers.contains name h /\
  Headers.get_all name h' = map trim_ows (if ascii_iequals name (str "Set-Cookie") then Headers.get_all name h
                                          else if Headers.contains name h then [Headers.get name h] else []).
Proof.
  intros Hok Hr Ho Hr' Hf'. destruct (Headers.represents_get _ _ name Hr) as (-> & -> & ->), (Headers.represents_get _ _ name Hr') as (-> & -> & ->).
  specialize (Hf' (lowercase name)). unfold Headers.trim_line in Hf'. rewrite (Headers.fields_of_map trim_ows), (Headers.fields_of_lines order h f name) in Hf' by done.
  unfold Headers.combined in *. rewrite Hf'. destruct (f (lowercase name)) as [|x l].
  - cbn. split_and!; try done. by destruct (ascii_iequals name (str "Set-Cookie")).
  - destruct (ascii_iequals name (str "Set-Cookie")); cbn; rewrite ?bool_decide_true by done; done.
Qed.

(** ** The end of a message without a transfer coding *)

Section Wire.
Context (inet_pton : list byte -> bool).

(** The message of [p] is that of [q], but for the body. *)
Definition same_head (p q : Request.request_parser) : Prop :=
  Request.method_ q = Request.method_ p /\ Request.path_ q = Request.path_ p /\ Request.query_ q = Request.query_ p /\
  Request.version_ q = Request.version_ p /\ Request.headers_ q = Request.headers_ p.

Lemma finish_steps p bytes : Request.state_ p = Request.headers -> Request.buffer_ p = crlf ++ bytes ->
  Request.body_ p = [] -> Request.body_received_ p = 0 ->
  Headers.contains (str "Transfer-Encoding") (Request.headers_ p) = false ->
  (Request.version_ p = str "HTTP/1.1" -> length (Headers.get_all (str "Host") (Request.headers_ p)) = 1%nat) ->
  (Request.method_ p = CONNECT -> bytes = []) ->
  (if Headers.contains (str "Content-Length") (Request.headers_ p)
   then Headers.content_length (Request.headers_ p) = Some (zlen bytes) else bytes = []) ->
  exists q, Request.steps inet_pton p q /\ Request.state_ q = Request.complete /\ same_head p q /\ Request.body_ q = bytes /\ Request.buffer_ q = [].
Proof.
  intros Hs Hb Hbody Hrec Hte Hhost Hconn Hlen. set (p1 := Request.with_buffer bytes p).
  assert (Request.header_round p = let '(ok, q) := Request.finish_headers p1 in Ok (Some ok, q)) as Hround.
  { unfold Request.header_round. rewrite Hb. rewrite (find_crlf_here [] bytes (not_elem_of_nil ch_cr) : find_sub crlf (crlf ++ bytes) = _). done. }
  assert (forall q, Request.finish_headers p1 = (true, q) -> Request.steps inet_pton p q) as Hone.
  { intros q Hq. apply rtc_once. unfold Request.step. rewrite Hs, Hround, Hq. done. }
  revert Hone. unfold Request.finish_headers. cbn [Request.headers_ Request.with_buffer Request.version_ Request.method_ p1]. rewrite Hte. cbn [andb].
  replace (streq (Request.version_ p) (str "HTTP/1.1") && _) with false.
  2:{ symmetry. apply andb_false_iff. destruct (streq (Request.version_ p) (str "HTTP/1.1")) eqn:E; [right|by left]. apply streq_true in E.
      by rewrite Hhost. }
  destruct (Headers.contains (str "Content-Length") (Request.headers_ p)) eqn:Hcl; case_bool_decide as Hm; cbn [andb].
  - pose proof (Hconn Hm) as ->. rewrite Hlen, (bool_decide_true (Some (zlen []) = Some 0)) by done. cbn [negb]. intros Hone.
    eexists. split; [by apply Hone|]. repeat split; done.
  - rewrite Hlen. intros Hone. destruct bytes as [|c bytes].
    + eexists. split; [by apply Hone|]. repeat split; done.
    + rewrite (proj2 (Z.ltb_lt 0 _)) in Hone by (unfold zlen; cbn; lia). eexists. split.
      * etransitivity; [apply Hone; reflexivity|]. apply (Request.body_steps inet_pton (c :: bytes) []); try done; cbn; [by rewrite app_nil_r|]. rewrite Hrec. lia.
      * repeat split; try done. cbn. by rewrite Hbody.
  - subst bytes. intros Hone. eexists. split; [by apply Hone|]. repeat split; done.
  - subst bytes. intros Hone. eexists. split; [by apply Hone|]. repeat split; done.
Qed.

End Wire.

Lemma sent_target r : request_ok r -> is_valid_request_target (path_with_query r) = true /\ path_with_query r = Request.target_of (sent_path r) (query_ r).
Proof.
  intros [Hp Hq _ _ _].
  assert (path_with_query r = Request.target_of (sent_path r) (query_ r)) as E.
  { unfold path_with_query, Request.target_of, sent_path. destruct (query_ r); [by rewrite app_nil_r|done]. }
  split; [|done]. rewrite E. unfold is_valid_request_target_component in *. apply negb_true_iff in Hp, Hq.
  assert (has_request_target_forbidden_char (sent_path r) = false /\ sent_path r <> []) as [Hp' Hne] by (unfold sent_path; by destruct (path_ r)).
  unfold is_valid_request_target, Request.target_of. destruct (sent_path r) as [|c p]; [done|]. cbn [app]. apply negb_true_iff.
  unfold has_request_target_forbidden_char in *. change (c :: p ++ ?x) with ((c :: p) ++ x). rewrite existsb_app, Hp'. cbn [orb].
  destruct (query_ r) as [|d q]; [done|]. cbn [existsb] in *. done.
Qed.

Lemma sent_headers_ok r : request_ok r -> Headers.headers_ok (sent_headers r) /\ exists f, Headers.represents (sent_headers r) f.
Proof.
  intros [_ _ _ Hh [f Hf]]. unfold sent_headers. case_if; [|eauto]. split; [by apply Headers.remove_ok|].
  pose proof (Headers.header_exec_refines (Headers.Remove (str "Expect")) _ _ Hf) as (f' & _ & Hf'). by exists f'.
Qed.

Lemma sent_headers_other r name : ascii_iequals name (str "Expect") = false ->
  Headers.get name (sent_headers r) = Headers.get name (headers_ r) /\ Headers.contains name (sent_headers r) = Headers.contains name (headers_ r).
Proof.
  intros Hn. unfold sent_headers. case_if; [|done]. unfold Headers.get, Headers.contains, Headers.remove. cbn [Headers.headers_]. by rewrite Headers.ci_find_erase, Hn.
Qed.

Definition wire_head (order : Headers.headers -> list (list byte * list byte)) r : list byte :=
  method_to_string (method_ r) ++ str " " ++ path_with_query r ++ str " " ++ sent_version r ++ crlf ++
  Headers.write_lines (Headers.lines (order (sent_headers r)) (sent_headers r)) ++ crlf.

Lemma serialize_wire order r : request_ok r ->
  serialize order r = Ok (wire_head order r ++ body_ r) /\ is_valid_http_version (sent_version r) = true /\ sent_version r <> [].
Proof.
  intros Hb. assert (is_valid_http_version (sent_version r) = true /\ sent_version r <> []) as [Hv Hne]
    by (pose proof (rq_version r Hb); unfold sent_version; by destruct (version_ r)).
  split; [|done]. unfold serialize, serialize_headers, serialize_headers_for. rewrite (proj1 (sent_target r Hb)). cbn [negb].
  fold (sent_version r). rewrite Hv. cbn [negb]. fold (sent_headers r). by rewrite Headers.serialize_lines.
Qed.

(** [C22] A request that is built with the setters, serialized and parsed arrives as it was sent.  The conditions of [sendable]: no question mark in the path, for CONNECT an authority as the target and no body, a Host field for HTTP/1.1,
    no Transfer-Encoding, a Content-Length that is the length of the body (none without a body), and at most 100 field lines of at most 8192 bytes, the default limits of the parser.
    Then the parser consumes exactly the bytes written and reports a complete message with the same method,
    path, query, version and body, and with the same header fields, without the white space around their
    values and without the Expect field of a request that has no body (a request whose path is empty arrives with the path that was written for it, one slash). *)
Theorem request_round_trip inet_pton order r :
  (forall h, order h ≡ₚ Headers.headers_ h) -> built r -> sendable inet_pton order r ->
  exists wire p, serialize order r = Ok wire /\
    Request.parse inet_pton wire Request.new_parser = Ok (Request.Complete, zlen wire, p) /\
    let r' := from_parser p in
    method_ r' = method_ r /\ path_ r' = sent_path r /\ query_ r' = query_ r /\ version_ r' = sent_version r /\ body_ r' = body_ r /\
    forall name, Headers.get name (headers_ r') = trim_ows (Headers.get name (sent_headers r)) /\
                 Headers.contains name (headers_ r') = Headers.contains name (sent_headers r).
Proof.
  intros Ho Hb [Hq Hconn Hhost Hte Hlen Hcount Hlines]. apply built_ok in Hb. destruct (sent_target r Hb) as [Htv Ht].
  destruct (sent_headers_ok r Hb) as [Hok [f Hf]]. set (h := sent_headers r) in *. set (l := Headers.lines (order h) h) in *.
  destruct (serialize_wire order r Hb) as (Hser & Hv & Hvne). set (head := wire_head order r) in *. exists (head ++ body_ r).
  set (p0 := Request.feed (head ++ body_ r) Request.new_parser).
  set (p1 := Request.with_state Request.headers (Request.with_buffer (Headers.write_lines l ++ crlf ++ body_ r)
               (Request.with_version (sent_version r) (Request.with_target (sent_path r) (query_ r) (Request.with_method (method_ r) p0))))).
  assert (Request.step inet_pton p0 = Some p1) as H01.
  { apply Request.request_line_step; try done; [|by rewrite <-Ht| |by rewrite <-Ht; intros ?%Hconn; tauto].
    - cbn. unfold head, wire_head. rewrite Ht, <-!app_assoc. done.
    - unfold sent_path. destruct (path_ r); [|done]. change (str "/") with ["/"%byte]. by intros ?%list_elem_of_singleton. }
  destruct (Request.header_block_steps inet_pton l (crlf ++ body_ r) p1 Headers.no_fields []) as (h2 & f2 & H12 & Hr2 & Hf2); try done.
  { pose proof (lines_valid (order h) h Hok (Ho h)) as Hval. rewrite Forall_forall in Hval, Hlines |- *. intros e He. destruct (Hval e He) as [Hn Hv']. by split_and!; [..|exact (Hlines e He)]. }
  { unfold Headers.one_length. cbn [app]. unfold l. rewrite (Headers.fields_of_lines (order h) h f) by done.
    change (ascii_iequals (str "Content-Length") (str "Set-Cookie")) with false. destruct (f _); cbn; lia. }
  pose proof (fun name => received_field (order h) h f h2 f2 name Hok Hf (Ho h) Hr2 Hf2) as Hfield.
  assert (forall name, ascii_iequals name (str "Expect") = false -> Headers.get name h2 = trim_ows (Headers.get name (headers_ r)) /\
    Headers.contains name h2 = Headers.contains name (headers_ r)) as Hmain.
  { intros name Hn. destruct (Hfield name) as (-> & -> & _), (sent_headers_other r name Hn) as [E1 E2]. unfold h. by rewrite E1, E2. }
  set (p2 := Request.with_buffer (crlf ++ body_ r) (Request.with_header h2 (Request.header_count_ p1 + zlen l) p1)) in *.
  destruct (finish_steps inet_pton p2 (body_ r)) as (p3 & H23 & Hc & (E1 & E2 & E3 & E4 & E5) & Hbody & Hbuf); try done.
  { change (Request.headers_ p2) with h2. by rewrite (proj2 (Hmain (str "Transfer-Encoding") eq_refl)). }
  { intros Hv1. destruct (Hfield (str "Host")) as (_ & _ & Hall). change (Request.headers_ p2) with h2. rewrite Hall.
    change (ascii_iequals (str "Host") (str "Set-Cookie")) with false. cbn match. destruct (sent_headers_other r (str "Host") eq_refl) as [_ E]. fold h in E.
    rewrite E, Hhost by done. done. }
  { intros Hm. by apply Hconn. }
  { destruct (Hmain (str "Content-Length") eq_refl) as [Eg Ec]. change (Request.headers_ p2) with h2. rewrite Ec.
    destruct (Headers.contains (str "Content-Length") (headers_ r)); [|done]. rewrite <-Hlen. unfold Headers.content_length. by rewrite Eg, trim_ows_idemp. }
  exists p3. split; [done|]. split.
  - rewrite (Request.parse_steps inet_pton (head ++ body_ r) Request.new_parser p3); [|by constructor|by eapply rtc_l; [exact H01|]; transitivity p2|unfold Request.step; by rewrite Hc].
    unfold Request.outcome. rewrite Hc, Hbuf. do 3 f_equal. unfold zlen. cbn. lia.
  - cbn. rewrite E1, E2, E3, E4, E5. split_and!; try done. intros name. destruct (Hfield name) as (? & ? & _). done.
Qed.

(** A POST request with a body of two bytes. *)
Definition sample_headers : Headers.headers :=
  Headers.MkHeaders [(str "Host", str "a"); (str "Content-Length", str "2")] [(str "Host", [str "a"]); (str "Content-Length", [str "2"])].
Definition sample : request := Request POST (str "/a") (str "x=1") (str "HTTP/1.1") sample_headers (str "hi") false.

Lemma sample_built : built sample.
Proof.
  apply built_body with (str "hi") (Request POST (str "/a") (str "x=1") (str "HTTP/1.1")
    (Headers.MkHeaders [(str "Host", str "a")] [(str "Host", [str "a"])]) [] false); [|vm_compute; reflexivity].
  apply built_headers with (Headers.Set_ (str "Host") (str "a")) (Request POST (str "/a") (str "x=1") (str "HTTP/1.1") Headers.no_headers [] false); [|vm_compute; reflexivity].
  apply built_query with (str "x=1") (Request POST (str "/a") [] (str "HTTP/1.1") Headers.no_headers [] false); [|vm_compute; reflexivity].
  apply built_path with (str "/a") (set_method POST new_request); [|vm_compute; reflexivity].
  apply built_method, built_new.
Qed.

Lemma request_round_trip_witness : let inet_pton := fun _ : list byte => false in let order := Headers.headers_ in
  sendable inet_pton order sample /\ exists wire p, serialize order sample = Ok wire /\
    Request.parse inet_pton wire Request.new_parser = Ok (Request.Complete, zlen wire, p) /\
    let r' := from_parser p in
    method_ r' = POST /\ path_ r' = str "/a" /\ query_ r' = str "x=1" /\ version_ r' = str "HTTP/1.1" /\ body_ r' = str "hi" /\
    forall name, Headers.get name (headers_ r') = trim_ows (Headers.get name (sent_headers sample)) /\
                 Headers.contains name (headers_ r') = Headers.contains name (sent_headers sample).
Proof.
  intros inet_pton order. assert (sendable inet_pton order sample) as Hs.
  { constructor; try (vm_compute; done).
    - change (path_ sample) with ["/"%byte; "a"%byte]. by intros [?|?%list_elem_of_singleton]%elem_of_cons.
    - repeat constructor; vm_compute; done. }
  split; [exact Hs|]. apply (request_round_trip inet_pton order sample); [done|apply sample_built|exact Hs].
Defined.

End Message.
