(* ===== verification/HttpDecoder.v ===== *)
(** * The incremental response decoder

    Models [response_decoder] and [response_parser] of [src/include/elio/http/http_parser.hpp].  The decoder
    takes its input byte by byte, except for payload, which it passes on in slices; [decode] is structural in the
    input.  [response_parser::parse] drains events with fuel, two more than the bytes buffered
    ([drain_run]).  Both are related to a fold over bytes, which does not depend on where the input is cut. *)

From Stdlib Require Import Strings.Byte Strings.String ZifyBool.
From S2P Require Import Prelude Str HttpCommon HttpHeaders HttpChunk HttpRequest.

Module Response.
Export Chunk.

#[local] Arguments str : simpl never.

Inductive response_event := Need_more | Headers_complete | Body | Message_complete | Protocol_handoff | Error_event.

Record response_decode_result := DecodeResult { event : response_event; consumed : Z; payload : list byte }.

Inductive state := status_line | headers | fixed_body | close_body | chunk_size | chunk_body | chunk_cr | chunk_lf | trailers | complete | error.

#[global] Instance state_eq_dec : EqDecision state.
Proof. solve_decision. Defined.

Record response_decoder := Decoder {
  state_ : state;
  status_ : Z;
  version_ : list byte;
  reason_ : list byte;
  headers_ : Headers.headers;
  line_ : list byte;
  error_message_ : option parse_error;
  request_method_ : option method;
  remaining_ : Z;
  max_headers_ : Z;
  max_header_size_ : Z;
  header_count_ : Z;
  headers_complete_ : bool;
  close_delimited_ : bool;
  handoff_ : bool;
  limit_exceeded_ : bool
}.

Definition new_decoder : response_decoder :=
  Decoder status_line 200 [] [] Headers.no_headers [] None None 0 100 8192 0 false false false false.

(** ** Assignments to members *)

Definition with_state s d := Decoder s (status_ d) (version_ d) (reason_ d) (headers_ d) (line_ d) (error_message_ d) (request_method_ d)
  (remaining_ d) (max_headers_ d) (max_header_size_ d) (header_count_ d) (headers_complete_ d) (close_delimited_ d) (handoff_ d) (limit_exceeded_ d).
Definition with_status version status reason d := Decoder (state_ d) status version reason (headers_ d) (line_ d) (error_message_ d) (request_method_ d)
  (remaining_ d) (max_headers_ d) (max_header_size_ d) (header_count_ d) (headers_complete_ d) (close_delimited_ d) (handoff_ d) (limit_exceeded_ d).
Definition with_header h count d := Decoder (state_ d) (status_ d) (version_ d) (reason_ d) h (line_ d) (error_message_ d) (request_method_ d)
  (remaining_ d) (max_headers_ d) (max_header_size_ d) count (headers_complete_ d) (close_delimited_ d) (handoff_ d) (limit_exceeded_ d).
Definition with_line l d := Decoder (state_ d) (status_ d) (version_ d) (reason_ d) (headers_ d) l (error_message_ d) (request_method_ d)
  (remaining_ d) (max_headers_ d) (max_header_size_ d) (header_count_ d) (headers_complete_ d) (close_delimited_ d) (handoff_ d) (limit_exceeded_ d).
Definition with_remaining n d := Decoder (state_ d) (status_ d) (version_ d) (reason_ d) (headers_ d) (line_ d) (error_message_ d) (request_method_ d)
  n (max_headers_ d) (max_header_size_ d) (header_count_ d) (headers_complete_ d) (close_delimited_ d) (handoff_ d) (limit_exceeded_ d).
Definition with_flags complete close handoff d := Decoder (state_ d) (status_ d) (version_ d) (reason_ d) (headers_ d) (line_ d) (error_message_ d)
  (request_method_ d) (remaining_ d) (max_headers_ d) (max_header_size_ d) (header_count_ d) complete close handoff (limit_exceeded_ d).

Definition set_max_headers max d := Decoder (state_ d) (status_ d) (version_ d) (reason_ d) (headers_ d) (line_ d) (error_message_ d) (request_method_ d)
  (remaining_ d) max (max_header_size_ d) (header_count_ d) (headers_complete_ d) (close_delimited_ d) (handoff_ d) (limit_exceeded_ d).
Definition set_max_header_size max d := Decoder (state_ d) (status_ d) (version_ d) (reason_ d) (headers_ d) (line_ d) (error_message_ d) (request_method_ d)
  (remaining_ d) (max_headers_ d) max (header_count_ d) (headers_complete_ d) (close_delimited_ d) (handoff_ d) (limit_exceeded_ d).
Definition set_request_method m d := Decoder (state_ d) (status_ d) (version_ d) (reason_ d) (headers_ d) (line_ d) (error_message_ d) (Some m)
  (remaining_ d) (max_headers_ d) (max_header_size_ d) (header_count_ d) (headers_complete_ d) (close_delimited_ d) (handoff_ d) (limit_exceeded_ d).

Definition reset d : response_decoder :=
  Decoder status_line 200 [] [] Headers.no_headers [] None None 0 (max_headers_ d) (max_header_size_ d) 0 false false false false.

Definition fail (e : parse_error) d := Decoder error (status_ d) (version_ d) (reason_ d) (headers_ d) (line_ d) (Some e) (request_method_ d)
  (remaining_ d) (max_headers_ d) (max_header_size_ d) (header_count_ d) (headers_complete_ d) (close_delimited_ d) (handoff_ d) (limit_exceeded_ d).

Definition fail_limit (e : parse_error) d := fail e (Decoder (state_ d) (status_ d) (version_ d) (reason_ d) (headers_ d) (line_ d) (error_message_ d)
  (request_method_ d) (remaining_ d) (max_headers_ d) (max_header_size_ d) (header_count_ d) (headers_complete_ d) (close_delimited_ d) (handoff_ d) true).

Definition is_complete d : bool := bool_decide (state_ d = complete).
Definition has_error d : bool := bool_decide (state_ d = error).
Definition bytes_buffered d : Z := zlen (line_ d).

(** ** Lines *)

Definition status_line_fields (line : list byte) d : response_decoder :=
  match find " " line with
  | None => fail No_status_version d
  | Some first =>
      if negb (is_valid_http_version (take first line)) then fail Bad_HTTP_version d
      else
        let rest := drop (S first) line in
        let space := find " " rest in
        let code := match space with Some i => take i rest | None => rest end in
        let d := with_status (take first line) (status_ d) (reason_ d) d in
        match from_chars 10 65535 code with
        | Some (number, []) =>
            if negb (length code =? 3)%nat then fail Bad_status_code d
            else
              let reason := match space with Some i => drop (S i) rest | None => reason_ d end in
              with_state headers (with_status (version_ d) number reason d)
        | _ => fail Bad_status_code d
        end
  end.

Definition is_method (m : method) d : bool := bool_decide (request_method_ d = Some m).

Definition select_framing d : response_decoder :=
  let code := status_ d in
  let handoff := (code =? 101) || (is_method CONNECT d && (200 <=? code) && (code <? 300)) in
  let d := with_flags (headers_complete_ d) (close_delimited_ d) handoff d in
  if handoff || is_method HEAD d || status_forbids_response_body (status_ d) then with_state complete d
  else
    let has_te := Headers.contains (str "Transfer-Encoding") (headers_ d) in
    let has_cl := Headers.contains (str "Content-Length") (headers_ d) in
    if has_te && has_cl then fail Both_framing_headers d
    else if has_te then
      if negb (ascii_iequals (trim_ows (Headers.get (str "Transfer-Encoding") (headers_ d))) (str "chunked"))
      then fail Unsupported_transfer_encoding d
      else with_state chunk_size d
    else if has_cl then
      match Headers.content_length (headers_ d) with
      | None => fail Bad_Content_Length d
      | Some length => with_state (if length =? 0 then complete else fixed_body) (with_remaining length d)
      end
    else with_state close_body (with_flags (headers_complete_ d) true (handoff_ d) d).

Definition header_line (line : list byte) d : result Headers.header_error response_decoder :=
  match find ":" line with
  | None => Ok (fail Bad_header_line d)
  | Some colon =>
      let name := take colon line in
      let value := trim_ows (drop (S colon) line) in
      if negb (is_valid_header_name name) then Ok (fail Bad_header_name d)
      else if negb (is_valid_header_value value) then Ok (fail Bad_header_value d)
      else
        let tunnel_length := is_method CONNECT d && (200 <=? status_ d) && (status_ d <? 300) && ascii_iequals name (str "Content-Length") in
        if negb tunnel_length && ascii_iequals name (str "Content-Length") && Headers.contains (str "Content-Length") (headers_ d) &&
           negb (streq (trim_ows (Headers.get (str "Content-Length") (headers_ d))) value)
        then Ok (fail Conflicting_lengths d)
        else if max_headers_ d <=? header_count_ d then Ok (fail_limit Too_many_headers d)
        else
          match (if tunnel_length then Headers.set name value (headers_ d) else Headers.add name value (headers_ d)) with
          | Throw e => Throw e
          | Ok h => Ok (with_header h (u64 (header_count_ d + 1)) d)
          end
  end.

(** A bad size line leaves what has been read of the size. *)
Definition process_line (line : list byte) d : result Headers.header_error response_decoder :=
  match state_ d with
  | status_line => Ok (status_line_fields line d)
  | chunk_size =>
      match parse_chunk_size_line line with
      | inr (e, stored) => Ok (fail e (with_remaining stored d))
      | inl size => Ok (with_state (if size =? 0 then trailers else chunk_body) (with_remaining size d))
      end
  | trailers =>
      if streq line [] then Ok (with_state complete d)
      else if max_headers_ d <=? header_count_ d then Ok (fail_limit Too_many_headers d)
      else if negb (validate_chunk_trailer_line line) then Ok (fail Bad_trailer d)
      else Ok (with_header (headers_ d) (u64 (header_count_ d + 1)) d)
  | _ => if streq line [] then Ok (select_framing d) else header_line line d
  end.

(** ** Bytes *)

Definition too_long (s : state) : parse_error :=
  match s with
  | status_line => Status_line_too_long
  | chunk_size => Chunk_size_line_too_long
  | trailers => Trailer_line_too_long
  | _ => Header_line_too_long
  end.

(** A byte of a framing line: the decoder, and whether the header section has ended. *)
Definition line_byte (ch : byte) d : result Headers.header_error (response_decoder * bool) :=
  if bool_decide (last (line_ d) = Some ch_cr) && negb (Byte.eqb ch ch_lf) then Ok (fail Bad_line_ending d, false)
  else if Byte.eqb ch ch_lf then
    if negb (bool_decide (last (line_ d) = Some ch_cr)) then Ok (fail Bad_line_ending d, false)
    else
      let line := removelast (line_ d) in
      let header_boundary := bool_decide (state_ d = headers) && streq line [] in
      match process_line line d with
      | Throw e => Throw e
      | Ok d =>
          let d := with_line [] d in
          if has_error d then Ok (d, false)
          else if header_boundary then Ok (with_flags true (close_delimited_ d) (handoff_ d) d, true)
          else Ok (d, false)
      end
  else if negb (Byte.eqb ch ch_cr) && (max_header_size_ d <=? zlen (line_ d)) then Ok (fail_limit (too_long (state_ d)) d, false)
  else Ok (with_line (line_ d ++ [ch]) d, false).

(** A slice of payload: its length, and the decoder after it. *)
Definition take_payload (available : Z) d : Z * response_decoder :=
  match state_ d with
  | close_body => (available, d)
  | _ =>
      let count := Z.min (remaining_ d) available in
      let d := with_remaining (u64 (remaining_ d - count)) d in
      (count, if remaining_ d =? 0 then with_state (if bool_decide (state_ d = fixed_body) then complete else chunk_cr) d else d)
  end.

(** The event of a decoder that takes no more input. *)
Definition terminal d : option response_event :=
  match state_ d with
  | error => Some Error_event
  | complete => Some (if handoff_ d then Protocol_handoff else Message_complete)
  | _ => None
  end.

Fixpoint decode_from (used : Z) (input : list byte) d : result Headers.header_error (response_decode_result * response_decoder) :=
  match terminal d with
  | Some e => Ok (DecodeResult e used [], d)
  | None =>
      match input with
      | [] => Ok (DecodeResult Need_more used [], d)
      | ch :: rest =>
          match state_ d with
          | fixed_body | close_body | chunk_body =>
              let '(count, d) := take_payload (zlen input) d in
              Ok (DecodeResult Body (used + count) (take (Z.to_nat count) input), d)
          | chunk_cr =>
              if negb (Byte.eqb ch ch_cr) then Ok (DecodeResult Error_event used [], fail Missing_CRLF_after_chunk d)
              else decode_from (used + 1) rest (with_state chunk_lf d)
          | chunk_lf =>
              if negb (Byte.eqb ch ch_lf) then Ok (DecodeResult Error_event used [], fail Missing_CRLF_after_chunk d)
              else decode_from (used + 1) rest (with_state chunk_size d)
          | _ =>
              match line_byte ch d with
              | Throw e => Throw e
              | Ok (d, true) => Ok (DecodeResult Headers_complete (used + 1) [], d)
              | Ok (d, false) => decode_from (used + 1) rest d
              end
          end
      end
  end.

Definition decode (input : list byte) d := decode_from 0 input d.

Definition finish_eof d : result Headers.header_error (response_decode_result * response_decoder) :=
  let d := match state_ d with close_body => with_state complete d | _ => d end in
  let d := if negb (is_complete d) && negb (has_error d) then fail Connection_closed_early d else d in
  decode [] d.

(** ** The accumulating parser *)

Record response_parser := Parser { decoder_ : response_decoder; body_ : list byte; buffer_ : list byte }.

Definition new_parser : response_parser := Parser new_decoder [] [].

Definition on_decoder (f : response_decoder -> response_decoder) p := Parser (f (decoder_ p)) (body_ p) (buffer_ p).
Definition parser_set_max_headers max := on_decoder (set_max_headers max).
Definition parser_set_max_header_size max := on_decoder (set_max_header_size max).
Definition parser_set_request_method m := on_decoder (set_request_method m).

Definition parser_reset p : response_parser := Parser (reset (decoder_ p)) [] (line_ (decoder_ p) ++ buffer_ p).

Definition result_kind d : Request.parse_result :=
  if has_error d then Request.Error else if is_complete d then Request.Complete else Request.Need_more.

(** The loop of [parse]: the body collected, the offset reached and the decoder. *)
Fixpoint drain (fuel : nat) (buffer : list byte) (offset : Z) (body : list byte) d : result Headers.header_error (list byte * Z * response_decoder) :=
  match fuel with
  | O => Ok (body, offset, d)
  | S fuel =>
      match decode (drop (Z.to_nat offset) buffer) d with
      | Throw e => Throw e
      | Ok (r, d) =>
          let offset := offset + consumed r in
          let body := match event r with Body => body ++ payload r | _ => body end in
          match event r with
          | Need_more | Error_event | Message_complete | Protocol_handoff => Ok (body, offset, d)
          | Headers_complete | Body => drain fuel buffer offset body d
          end
      end
  end.

Definition parse (data : list byte) p : result Headers.header_error (Request.parse_result * Z * response_parser) :=
  let old_pending := bytes_buffered (decoder_ p) in
  let buffer := buffer_ p ++ data in
  match drain (2 + length buffer) buffer 0 (body_ p) (decoder_ p) with
  | Throw e => Throw e
  | Ok (body, offset, d) =>
      Ok (result_kind d, old_pending + offset - bytes_buffered d, Parser d body (drop (Z.to_nat offset) buffer))
  end.

Definition parser_finish_eof p : result Headers.header_error (Request.parse_result * Z * response_parser) :=
  match finish_eof (decoder_ p) with
  | Throw e => Throw e
  | Ok (_, d) => Ok (result_kind d, 0, Parser d (body_ p) (buffer_ p))
  end.

Definition take_body p : list byte * response_parser := (body_ p, Parser (decoder_ p) [] (buffer_ p)).

Definition take_remaining p : list byte * response_parser :=
  (line_ (decoder_ p) ++ buffer_ p, Parser (with_line [] (decoder_ p)) (body_ p) []).

Definition bytes_remaining p : Z := bytes_buffered (decoder_ p) + zlen (buffer_ p).
Definition parser_bytes_buffered p : Z := zlen (body_ p) + bytes_remaining p.

(** ** Byte by byte *)

Lemma response_header_line_ok line d : exists d', header_line line d = Ok d'.
Proof.
  unfold header_line. destruct (find ":" line) as [colon|]; [|eauto]. set (name := take colon line). set (value := trim_ows (drop (S colon) line)).
  destruct (is_valid_header_name name) eqn:Hn; [|cbn; eauto]. destruct (is_valid_header_value value) eqn:Hv; [|cbn; eauto]. cbn [negb].
  destruct (is_method CONNECT d && (200 <=? status_ d) && (status_ d <? 300) && ascii_iequals name (str "Content-Length")); cbn [negb andb].
  - case_if; [eauto|]. unfold Headers.set. rewrite Hn, Hv. cbn. eauto.
  - destruct (_ && negb _) eqn:Hc; [eauto|]. case_if; [eauto|].
    destruct (Headers.add_checked name value (headers_ d)) as [h ->]; [done|done|apply trim_ows_idemp| |eauto].
    intros E1 E2. rewrite E1, E2 in Hc. by apply negb_false_iff, streq_true in Hc.
Qed.

Lemma process_line_ok line d : exists d', process_line line d = Ok d'.
Proof. unfold process_line. destruct (state_ d); repeat case_match; eauto using response_header_line_ok. Qed.

Lemma line_byte_ok c d : exists r, line_byte c d = Ok r.
Proof.
  unfold line_byte. case_if; [eauto|]. case_if; [|case_if; eauto]. case_if; [eauto|].
  destruct (process_line_ok (removelast (line_ d)) d) as [d' ->]. repeat case_if; eauto.
Qed.

(** What one byte does: it is taken, with the payload it is, or it is refused and left in the input. *)
Inductive taken := Taken (d : response_decoder) (payload : list byte) | Refused (d : response_decoder).

Definition take_byte (c : byte) d : taken :=
  match state_ d with
  | fixed_body | close_body | chunk_body => Taken (take_payload 1 d).2 [c]
  | chunk_cr => if Byte.eqb c ch_cr then Taken (with_state chunk_lf d) [] else Refused (fail Missing_CRLF_after_chunk d)
  | chunk_lf => if Byte.eqb c ch_lf then Taken (with_state chunk_size d) [] else Refused (fail Missing_CRLF_after_chunk d)
  | _ => match line_byte c d with Ok (d', _) => Taken d' [] | Throw _ => Refused d end
  end.

(** The decoder after all it can take, the payload, and the rest of the input. *)
Fixpoint run (input : list byte) d : response_decoder * list byte * list byte :=
  match terminal d with
  | Some _ => (d, [], input)
  | None =>
      match input with
      | [] => (d, [], [])
      | c :: rest =>
          match take_byte c d with
          | Refused d' => (d', [], input)
          | Taken d' p => let '(d2, p2, rest2) := run rest d' in (d2, p ++ p2, rest2)
          end
      end
  end.

(** Bodies that are counted have bytes left. *)
Definition wf d : Prop := state_ d = fixed_body \/ state_ d = chunk_body -> 0 < remaining_ d <= SIZE_MAX.

Lemma run_terminal input d e : terminal d = Some e -> run input d = (d, [], input).
Proof. intros H. destruct input; cbn [run]; by rewrite H. Qed.

Lemma run_split a b d :
  run (a ++ b) d = let '(d1, p1, r1) := run a d in let '(d2, p2, r2) := run (r1 ++ b) d1 in (d2, p1 ++ p2, r2).
Proof.
  revert d. induction a as [|c a IH]; intros d; cbn [app run].
  - destruct (terminal d) eqn:E; cbn; [by rewrite (run_terminal b d _ E)|]. by destruct (run b d) as [[d2 p2] r2].
  - destruct (terminal d) eqn:E; [rewrite (run_terminal ((c :: a) ++ b) d _ E); done|]. destruct (take_byte c d) as [d' p|d'] eqn:Et.
    + rewrite IH. destruct (run a d') as [[d1 p1] r1]. destruct (run (r1 ++ b) d1) as [[d2 p2] r2]. by rewrite app_assoc.
    + assert (exists e, terminal d' = Some e) as [e He]; [|by rewrite (run_terminal ((c :: a) ++ b) d' e He)].
      unfold take_byte in Et. destruct (line_byte_ok c d) as [[d0 t] El]. rewrite El in Et. destruct (state_ d); try done; case_if; simplify_eq; by eexists.
Qed.

Definition in_body s : Prop := s = fixed_body \/ s = close_body \/ s = chunk_body.

Definition after_count (k : Z) d : response_decoder :=
  if k =? 0 then with_state (if bool_decide (state_ d = fixed_body) then complete else chunk_cr) (with_remaining k d) else with_remaining k d.

Lemma take_payload_counted n d : wf d -> in_body (state_ d) -> state_ d <> close_body -> 0 < n ->
  take_payload n d = (Z.min (remaining_ d) n, after_count (remaining_ d - Z.min (remaining_ d) n) d) /\ 0 < remaining_ d <= SIZE_MAX.
Proof.
  intros Hw Hb Hc Hn. assert (0 < remaining_ d <= SIZE_MAX) as Hr by (apply Hw; destruct Hb as [?|[?|?]]; auto; done).
  split; [|done]. unfold SIZE_MAX in Hr. unfold take_payload, after_count.
  destruct Hb as [Hs|[Hs|Hs]]; [|done|]; rewrite Hs; cbn [remaining_ with_remaining state_]; rewrite u64_small, Hs by lia; done.
Qed.

Lemma take_payload_wf n d : 0 < n -> wf d -> in_body (state_ d) -> wf (take_payload n d).2.
Proof.
  intros Hn Hw Hb. destruct (decide (state_ d = close_body)) as [E|E]; [unfold take_payload; by rewrite E|].
  destruct (take_payload_counted n d Hw Hb E Hn) as [-> Hr]. cbn [snd]. unfold after_count.
  destruct (Z.eqb_spec (remaining_ d - Z.min (remaining_ d) n) 0).
  - intros [Hs|Hs]; cbn in Hs; by case_bool_decide.
  - intros _. cbn. lia.
Qed.

(** A slice of payload is its bytes, one by one. *)
Lemma run_payload input d : wf d -> in_body (state_ d) -> input <> [] ->
  let '(count, d') := take_payload (zlen input) d in
  0 < count <= zlen input /\
  run input d = let '(d2, p2, r2) := run (drop (Z.to_nat count) input) d' in (d2, take (Z.to_nat count) input ++ p2, r2).
Proof.
  revert d. induction input as [|c input IH]; intros d Hw Hb Hne; [done|]. clear Hne. cbn [run].
  assert (terminal d = None) as -> by (unfold terminal; by destruct Hb as [->|[->| ->]]).
  assert (take_byte c d = Taken (take_payload 1 d).2 [c]) as -> by (unfold take_byte; by destruct Hb as [->|[->| ->]]).
  destruct (decide (state_ d = close_body)) as [Ec|Ec].
  - assert (forall n, take_payload n d = (n, d)) as Hp by (intros n; unfold take_payload; by rewrite Ec). rewrite !Hp in *. cbn [snd].
    split; [unfold zlen; cbn; lia|]. unfold zlen. rewrite Nat2Z.id. cbn [length drop take]. rewrite firstn_all. destruct input as [|c' input]; [done|].
    specialize (IH d Hw Hb ltac:(done)). rewrite Hp in IH. destruct IH as [_ ->]. unfold zlen. rewrite !Nat2Z.id, !drop_all, !firstn_all.
    by destruct (run [] d) as [[d2 p2] r2].
  - assert (zlen (c :: input) = 1 + zlen input) as Hz by (unfold zlen; cbn; lia). pose proof (zlen_nonneg input).
    destruct (take_payload_counted 1 d Hw Hb Ec) as [E1 Hr]; [lia|]. destruct (take_payload_counted (zlen (c :: input)) d Hw Hb Ec) as [En _]; [lia|].
    pose proof (take_payload_wf 1 d ltac:(lia) Hw Hb) as Hw1. rewrite E1, En in *. cbn [snd] in *. split; [lia|].
    rewrite (Z.min_r _ 1) in * by lia. destruct (Z.eqb_spec (remaining_ d) 1) as [Elast|Emore].
    + rewrite Z.min_l by lia. rewrite !Elast. cbn [drop take Z.to_nat]. change (Pos.to_nat 1) with 1%nat. done.
    + set (d1 := after_count (remaining_ d - 1) d) in *.
      assert (d1 = with_remaining (remaining_ d - 1) d) as Ed1 by (unfold d1, after_count; by rewrite (proj2 (Z.eqb_neq _ _)) by lia).
      destruct input as [|c' input].
      * rewrite Hz. cbn [length]. change (zlen (A := byte) []) with 0. rewrite Z.min_r by lia. fold d1. done.
      * specialize (IH d1 Hw1). rewrite Ed1 in IH at 1 2. specialize (IH Hb ltac:(done)).
        destruct (take_payload_counted (zlen (c' :: input)) d1 Hw1) as [En' _]; [by rewrite Ed1|by rewrite Ed1|unfold zlen; cbn; lia|].
        rewrite <-Ed1 in IH. rewrite En' in IH. destruct IH as [Hcount ->]. rewrite Ed1 in *. cbn [remaining_ with_remaining] in *.
        set (k := Z.min (remaining_ d - 1) (zlen (c' :: input))) in *. replace (Z.min (remaining_ d) (zlen (c :: c' :: input))) with (k + 1) by lia.
        replace (Z.to_nat (k + 1)) with (S (Z.to_nat k)) by lia. cbn [drop take app].
        replace (remaining_ d - 1 - k) with (remaining_ d - (k + 1)) by lia.
        change (after_count (remaining_ d - (k + 1)) (with_remaining (remaining_ d - 1) d)) with (after_count (remaining_ d - (k + 1)) d).
        by destruct (run (drop (Z.to_nat k) (c' :: input)) _) as [[d2 p2] r2].
Qed.

Lemma process_line_wf line d d' : ~ in_body (state_ d) -> process_line line d = Ok d' -> wf d'.
Proof.
  intros Hb. assert (wf d) as Hw by (intros [?|?]; exfalso; apply Hb; unfold in_body; auto).
  assert (forall s, ~ in_body s -> wf (with_state s d)) as Hst by (intros s Hs [E|E]; exfalso; apply Hs; unfold in_body; cbn in E; auto).
  assert (wf (select_framing d)) as Hsel.
  { unfold select_framing. repeat case_match; try by intros [?|?].
    match goal with H : Headers.content_length _ = Some _ |- _ => apply Request.content_length_range in H end. intros _. cbn.
    match goal with H : (_ =? 0) = false |- _ => apply Z.eqb_neq in H end. lia. }
  assert (forall e, header_line line d = Ok e -> wf e) as Hh.
  { intros e. unfold header_line. repeat case_match; intros; simplify_eq; try (by intros [?|?]); exact Hw. }
  unfold process_line. destruct (state_ d) eqn:Es; try (case_if; [by intros [= <-]|apply Hh]).
  - intros [= <-]. unfold status_line_fields. repeat case_match; by intros [?|?].
  - destruct (parse_chunk_size_line line) as [n|[e stored]] eqn:En; intros [= <-]; [|by intros [?|?]]. apply chunk_size_bounds in En.
    unfold kMaxChunkSize in En. destruct (Z.eqb_spec n 0); intros [?|?]; try done; cbn; unfold SIZE_MAX; lia.
  - repeat case_if; intros [= <-]; try by intros [?|?]. exact Hw.
Qed.

Lemma take_byte_wf c d d' p : wf d -> take_byte c d = Taken d' p -> wf d'.
Proof.
  intros Hw. unfold take_byte. destruct (decide (in_body (state_ d))) as [Hb|Hb].
  - assert (take_byte c d = Taken (take_payload 1 d).2 [c]) as E by (unfold take_byte; by destruct Hb as [->|[->| ->]]). unfold take_byte in E.
    rewrite E. intros [= <- <-]. by apply take_payload_wf.
  - assert (forall d0 t, line_byte c d = Ok (d0, t) -> wf d0) as Hl.
    { intros d0 t. unfold line_byte. case_if; [by intros [= <- <-] [?|?]|]. case_if; [|case_if; [by intros [= <- <-] [?|?]|intros [= <- <-]; exact Hw]].
      case_if; [by intros [= <- <-] [?|?]|].
      destruct (process_line (removelast (line_ d)) d) as [e|] eqn:Ep; [|done]. apply process_line_wf in Ep; [|done].
      repeat case_if; intros [= <- <-]; exact Ep. }
    destruct (line_byte_ok c d) as [[d0 t] El]. specialize (Hl d0 t El). rewrite El. 
    destruct (state_ d); try (intros [= <- <-]; done); try case_if; try (intros [= <- <-]; by intros [?|?]); by destruct Hb; unfold in_body; auto.
Qed.

(** A call of [decode] from [d]: the bytes it takes are those of a run. *)
Record decoded (input : list byte) (d : response_decoder) (n : nat) (r : response_decode_result) (d' : response_decoder) : Prop := {
  dc_count : (n <= length input)%nat;
  dc_wf : wf d';
  dc_run : run input d = let '(d2, p2, r2) := run (drop n input) d' in (d2, payload r ++ p2, r2);
  dc_event : match event r with
             | Need_more => drop n input = [] /\ terminal d' = None
             | Headers_complete => (0 < n)%nat
             | Body => (0 < n)%nat /\ payload r <> []
             | _ => terminal d' = Some (event r)
             end;
  dc_payload : event r <> Body -> payload r = []
}.

Lemma decoded_terminal input d e used : wf d -> terminal d = Some e -> decoded input d 0 (DecodeResult e used []) d.
Proof.
  intros Hw Ht. constructor; cbn [payload event]; [lia|done|by rewrite drop_0, (run_terminal input d e Ht)| |done].
  rewrite Ht. unfold terminal in Ht. by destruct (state_ d), (handoff_ d); simplify_eq.
Qed.

Lemma decoded_empty d used : wf d -> terminal d = None -> decoded [] d 0 (DecodeResult Need_more used []) d.
Proof. intros Hw Ht. constructor; cbn; rewrite ?Ht; done. Qed.

Lemma decoded_refused c input d d' used : wf d' -> terminal d = None -> take_byte c d = Refused d' -> terminal d' = Some Error_event ->
  decoded (c :: input) d 0 (DecodeResult Error_event used []) d'.
Proof.
  intros Hw Ht Hb He. constructor; cbn [payload event]; [lia|done| |done|done]. cbn [run drop]. by rewrite Ht, Hb, He.
Qed.

Lemma decoded_more c input d n r d' d1 : terminal d = None -> take_byte c d = Taken d1 [] ->
  decoded input d1 n r d' -> decoded (c :: input) d (S n) r d'.
Proof.
  intros Ht Hb [H1 H2 H3 H4 H5]. constructor; cbn [length drop]; [lia|done| |destruct (event r); try lia; try done; (split; [lia|apply H4])|done].
  cbn [run]. rewrite Ht, Hb, H3. by destruct (run (drop n input) d') as [[d2 p2] r2].
Qed.

Lemma decoded_boundary c input d d1 used : wf d1 -> terminal d = None -> take_byte c d = Taken d1 [] ->
  decoded (c :: input) d 1 (DecodeResult Headers_complete used []) d1.
Proof. intros Hw Ht Hb. constructor; cbn [payload event length drop]; [lia|done| |lia|done]. cbn [run]. by rewrite Ht, Hb, drop_0. Qed.

Lemma decoded_slice c input d count d' used : wf d -> in_body (state_ d) -> take_payload (zlen (c :: input)) d = (count, d') ->
  0 < count /\ decoded (c :: input) d (Z.to_nat count) (DecodeResult Body used (take (Z.to_nat count) (c :: input))) d'.
Proof.
  intros Hw Hb E. pose proof (run_payload (c :: input) d Hw Hb ltac:(done)) as Hp.
  pose proof (take_payload_wf (zlen (c :: input)) d ltac:(unfold zlen; cbn; lia) Hw Hb) as Hw'.
  rewrite E in *. destruct Hp as [Hcount Hrun]. unfold zlen in Hcount. split; [lia|]. constructor; cbn [payload event]; try done; [unfold zlen in *; lia|].
  split; [lia|]. destruct (Z.to_nat count) eqn:En; [lia|done].
Qed.

Lemma decode_run input : forall used d, wf d -> exists r d' n,
  decode_from used input d = Ok (r, d') /\ consumed r = used + Z.of_nat n /\ decoded input d n r d'.
Proof.
  induction input as [|c rest IH]; intros used d Hw; cbn [decode_from]; (destruct (terminal d) as [e|] eqn:Ht;
    [eexists _, _, 0%nat; split_and!; [reflexivity|cbn; lia|by apply decoded_terminal]|]).
  { eexists _, _, 0%nat. split_and!; [reflexivity|cbn; lia|by apply decoded_empty]. }
  assert (forall d1, take_byte c d = Taken d1 [] -> exists r d' n,
    decode_from (used + 1) rest d1 = Ok (r, d') /\ consumed r = used + Z.of_nat n /\ decoded (c :: rest) d n r d') as Hgo.
  { intros d1 Hb. destruct (IH (used + 1) d1) as (r & d' & n & E & Hc & Hd); [by eapply take_byte_wf|]. exists r, d', (S n).
    split_and!; [done|lia|by eapply decoded_more]. }
  destruct (decide (in_body (state_ d))) as [Hb|Hb].
  - destruct (take_payload (zlen (c :: rest)) d) as [count d'] eqn:Ep. destruct (decoded_slice c rest d count d' (used + count) Hw Hb Ep) as [Hcount Hd].
    destruct Hb as [-> | [-> | ->]]; (eexists _, _, (Z.to_nat count); split_and!; [reflexivity|cbn [consumed]; lia|exact Hd]).
  - destruct (line_byte_ok c d) as [[d1 t] El].
    assert (take_byte c d = Taken d1 [] -> exists r d' n,
      match line_byte c d with Throw e => Throw e | Ok (d, true) => Ok (DecodeResult Headers_complete (used + 1) [], d)
      | Ok (d, false) => decode_from (used + 1) rest d end = Ok (r, d') /\ consumed r = used + Z.of_nat n /\ decoded (c :: rest) d n r d') as Hline.
    { rewrite El. intros Hb'. destruct t; [|by apply Hgo]. eexists _, _, 1%nat. split_and!; [reflexivity|cbn; lia|].
      apply decoded_boundary; [by eapply take_byte_wf|done|done]. }
    assert (forall e, take_byte c d = Refused (fail e d) -> exists r d' n, Ok (DecodeResult Error_event used [], fail e d) = Ok (E := Headers.header_error) (r, d') /\
      consumed r = used + Z.of_nat n /\ decoded (c :: rest) d n r d') as Hrefuse.
    { intros e He. eexists _, _, 0%nat. split_and!; [reflexivity|cbn; lia|]. apply decoded_refused; try done. by intros [?|?]. }
    unfold take_byte, terminal in *. rewrite El in *. unfold in_body in Hb. destruct (state_ d); try done; try (by apply Hline); try (destruct Hb; by auto);
      (destruct (Byte.eqb c _) eqn:Ec; cbn [negb]; [by apply Hgo|by apply Hrefuse]).
Qed.

Lemma drain_run fuel buffer offset body d : wf d -> 0 <= offset <= zlen buffer -> (length buffer - Z.to_nat offset + 1 < fuel)%nat ->
  exists n d' p, drain fuel buffer offset body d = Ok (body ++ p, offset + Z.of_nat n, d') /\
    (Z.to_nat offset + n <= length buffer)%nat /\ run (drop (Z.to_nat offset) buffer) d = (d', p, drop (Z.to_nat offset + n) buffer).
Proof.
  revert offset body d. induction fuel as [|fuel IH]; intros offset body d Hw Ho Hf; [lia|]. cbn [drain]. unfold decode, zlen in *.
  destruct (decode_run (drop (Z.to_nat offset) buffer) 0 d Hw) as (r & d' & n & -> & Hc & [H1 H2 H3 H4 H5]). rewrite Hc, Z.add_0_l. rewrite length_drop in H1.
  rewrite drop_drop in H3. assert (forall p, event r <> Body -> body ++ payload r ++ p = body ++ p) as Hp by (intros p He; by rewrite (H5 He)).
  assert (terminal d' = Some (event r) -> event r <> Body -> exists n0 d0 p, Ok (body, offset + Z.of_nat n, d') = Ok (E := Headers.header_error) (body ++ p, offset + Z.of_nat n0, d0) /\
    (Z.to_nat offset + n0 <= length buffer)%nat /\ run (drop (Z.to_nat offset) buffer) d = (d0, p, drop (Z.to_nat offset + n0) buffer)) as Hstop.
  { intros He Hb. exists n, d', []. split; [by rewrite app_nil_r|]. split; [lia|]. rewrite H3, (run_terminal _ d' _ He), (H5 Hb). done. }
  assert (forall body', body' = body ++ payload r -> (0 < n)%nat -> exists n0 d0 p, drain fuel buffer (offset + Z.of_nat n) body' d' = Ok (body ++ p, offset + Z.of_nat n0, d0) /\
    (Z.to_nat offset + n0 <= length buffer)%nat /\ run (drop (Z.to_nat offset) buffer) d = (d0, p, drop (Z.to_nat offset + n0) buffer)) as Hmore.
  { intros body' -> Hn. destruct (IH (offset + Z.of_nat n) (body ++ payload r) d' H2) as (n1 & d1 & p1 & -> & Hle & Hr); [lia..|].
    replace (Z.to_nat (offset + Z.of_nat n)) with (Z.to_nat offset + n)%nat in * by lia. exists (n + n1)%nat, d1, (payload r ++ p1).
    split; [rewrite <-app_assoc; do 3 f_equal; lia|]. split; [lia|]. rewrite H3, Hr. by rewrite Nat.add_assoc. }
  destruct (event r) eqn:Ee; try (by apply Hstop); try (by apply Hmore; [|apply H4]).
  - destruct H4 as [Hend Ht]. exists n, d', []. split; [by rewrite app_nil_r|]. split; [lia|]. rewrite H3. rewrite drop_drop in Hend. rewrite Hend. cbn [run]. rewrite Ht, H5 by done. done.
  - apply Hmore; [|done]. rewrite H5 by done. by rewrite app_nil_r.
Qed.

(** [parse] takes from the buffered and the new bytes what a run takes. *)
Lemma response_parse_runs data p : wf (decoder_ p) -> let '(d, b, rest) := run (buffer_ p ++ data) (decoder_ p) in
  parse data p = Ok (result_kind d, bytes_remaining p + zlen data - bytes_remaining (Parser d (body_ p ++ b) rest), Parser d (body_ p ++ b) rest).
Proof.
  intros Hw. unfold parse. destruct (drain_run (2 + length (buffer_ p ++ data)) (buffer_ p ++ data) 0 (body_ p) (decoder_ p) Hw) as (n & d & b & -> & Hn & Hr);
    [unfold zlen; lia|cbn; lia|]. cbn [Z.to_nat] in *. rewrite drop_0 in Hr. rewrite Hr. cbn [Nat.add]. rewrite Z.add_0_l, Nat2Z.id. do 3 f_equal.
  unfold bytes_remaining, zlen. cbn [decoder_ buffer_]. rewrite length_drop. rewrite length_app in *. cbn in Hn. lia.
Qed.

Lemma run_wf input d d' p rest : wf d -> run input d = (d', p, rest) -> wf d'.
Proof.
  revert d d' p rest. induction input as [|c input IH]; intros d d' p rest Hw H; cbn [run] in H; destruct (terminal d); simplify_eq; try done.
  destruct (take_byte c d) as [d1 q|d1] eqn:Et.
  - destruct (run input d1) as [[d2 p2] r2] eqn:E. simplify_eq. eapply IH; [|done]. by eapply take_byte_wf.
  - simplify_eq. unfold take_byte in Et. destruct (line_byte_ok c d) as [[d0 t] El]. rewrite El in Et. destruct (state_ d); try done; case_if; simplify_eq; by intros [?|?].
Qed.

(** ** Histories *)

Inductive reachable : response_parser -> Prop :=
| reach_new : reachable new_parser
| reach_max_headers n p : reachable p -> 0 <= n <= SIZE_MAX -> reachable (parser_set_max_headers n p)
| reach_max_header_size n p : reachable p -> 0 <= n <= SIZE_MAX -> reachable (parser_set_max_header_size n p)
| reach_method m p : reachable p -> reachable (parser_set_request_method m p)
| reach_reset p : reachable p -> reachable (parser_reset p)
| reach_take_body p : reachable p -> reachable (take_body p).2
| reach_take_remaining p : reachable p -> reachable (take_remaining p).2
| reach_parse data p r n q : reachable p -> parse data p = Ok (r, n, q) -> reachable q
| reach_finish p r n q : reachable p -> parser_finish_eof p = Ok (r, n, q) -> reachable q.

Lemma reachable_decoder_wf p : reachable p -> wf (decoder_ p).
Proof.
  induction 1 as [| | | | | | |data p r n q _ IH H|p r n q _ IH H]; try done; try by intros [?|?].
  - pose proof (response_parse_runs data p IH) as Hp. destruct (run (buffer_ p ++ data) (decoder_ p)) as [[d b] rest] eqn:E. rewrite Hp in H. simplify_eq.
    by eapply run_wf.
  - unfold parser_finish_eof, finish_eof, decode in H. set (d0 := match state_ (decoder_ p) with close_body => _ | _ => _ end) in H.
    set (d1 := if _ && _ then _ else d0) in H.
    assert (wf d1) as Hw1. { unfold d1. case_if; [by intros [?|?]|]. unfold d0. destruct (state_ (decoder_ p)) eqn:Es; try exact IH. by intros [?|?]. }
    destruct (decode_run [] 0 d1 Hw1) as (r' & d' & n' & E & _ & Hd). rewrite E in H. simplify_eq. apply Hd.
Qed.

(** [C33] However the bytes of a response are cut into reads, the parser ends in the same state: parsing the
    first part and then the second never throws, and gives the result, the total number of bytes
    retired and the parser (status, fields, body, unread bytes, error) that parsing them together gives. *)
Theorem response_parse_split data1 data2 p : reachable p -> exists r1 n1 p1 r2 n2 p2,
  parse data1 p = Ok (r1, n1, p1) /\ parse data2 p1 = Ok (r2, n2, p2) /\ parse (data1 ++ data2) p = Ok (r2, n1 + n2, p2).
Proof.
  intros Hw%reachable_decoder_wf. pose proof (response_parse_runs data1 p Hw) as E1. destruct (run (buffer_ p ++ data1) (decoder_ p)) as [[d1 b1] rest1] eqn:R1.
  set (p1 := Parser d1 (body_ p ++ b1) rest1) in *. pose proof (response_parse_runs data2 p1 (run_wf _ _ _ _ _ Hw R1)) as E2.
  pose proof (response_parse_runs (data1 ++ data2) p Hw) as E. rewrite app_assoc, run_split, R1 in E. cbn [buffer_ decoder_ p1] in E2.
  destruct (run (rest1 ++ data2) d1) as [[d2 b2] rest2]. do 6 eexists. split; [exact E1|]. split; [exact E2|]. rewrite E. cbn [body_ p1]. rewrite app_assoc.
  do 3 f_equal. unfold zlen. rewrite length_app. lia.
Qed.

(** ** Types of the members *)

(** Every member has a value of its C++ type, and the members fit together. *)
Record typed d : Prop := {
  ty_status : 0 <= status_ d <= 65535;
  ty_remaining : 0 <= remaining_ d <= SIZE_MAX;
  ty_max_headers : 0 <= max_headers_ d <= SIZE_MAX;
  ty_max_header_size : 0 <= max_header_size_ d <= SIZE_MAX;
  ty_count : 0 <= header_count_ d <= SIZE_MAX;
  ty_version : is_valid_http_version (version_ d) = true;
  ty_headers : Headers.headers_ok (headers_ d);
  ty_error : state_ d = error <-> is_Some (error_message_ d);
  ty_body : wf d
}.

Lemma u64_range n : 0 <= u64 n <= SIZE_MAX.
Proof. unfold SIZE_MAX. pose proof (Z.mod_pos_bound n (2 ^ 64)). unfold u64, uwrap. lia. Qed.

Lemma typed_fail e d : typed d -> typed (fail e d).
Proof. intros []. split; cbn; try done. by intros [?|?]. Qed.

Lemma typed_moved s d : typed d -> state_ d <> error -> s <> error -> ~ in_body s -> typed (with_state s d).
Proof.
  intros [] Hd Hs Hb. split; cbn; try done.
  - split; [done|]. by intros ?%ty_error0.
  - intros [E|E]; cbn in E; exfalso; apply Hb; unfold in_body; auto.
Qed.

Lemma typed_flags a b c d : typed d -> typed (with_flags a b c d).
Proof. by intros []. Qed.

Lemma typed_line l d : typed d -> typed (with_line l d).
Proof. by intros []. Qed.

Lemma typed_header h n d : typed d -> Headers.headers_ok h -> 0 <= n <= SIZE_MAX -> typed (with_header h n d).
Proof. by intros [] ? ?. Qed.

Lemma typed_counted s n d : typed d -> state_ d <> error -> s <> error -> (in_body s -> 0 < n) -> 0 <= n <= SIZE_MAX -> typed (with_state s (with_remaining n d)).
Proof.
  intros [] Hd Hs Hb Hn. split; cbn; try done.
  - split; [done|]. by intros ?%ty_error0.
  - intros [E|E]; cbn in *; (split; [apply Hb; rewrite E; unfold in_body; auto|lia]).
Qed.

Lemma typed_select d : typed d -> state_ d <> error -> typed (select_framing d).
Proof.
  intros Ht He. assert (forall s, s = complete \/ s = chunk_size -> ~ in_body s) as Hn by (by intros s [->| ->] [?|[?|?]]).
  pose proof (typed_flags (headers_complete_ d) (close_delimited_ d) ((status_ d =? 101) || (is_method CONNECT d && (200 <=? status_ d) && (status_ d <? 300))) d Ht) as Hf.
  unfold select_framing. case_if; [apply typed_moved; auto; done|]. case_if; [by apply typed_fail|].
  case_if; [case_if; [by apply typed_fail|apply typed_moved; auto; done]|]. case_if.
  - destruct (Headers.content_length _) as [n|] eqn:En; [|by apply typed_fail]. apply Request.content_length_range in En. destruct (Z.eqb_spec n 0).
    + apply typed_counted; auto; try done. by intros [?|[?|?]].
    + apply typed_counted; auto; try done. lia.
  - destruct Ht. split; try done.
    + cbn. split; [done|]. intros ?. exfalso. by apply He, ty_error0.
    + by intros [?|?].
Qed.

Lemma typed_status_line line d : typed d -> state_ d <> error -> typed (status_line_fields line d).
Proof.
  intros Ht He. unfold status_line_fields. destruct (find _ line) as [i|]; [|by apply typed_fail].
  destruct (is_valid_http_version (take i line)) eqn:Ev; [|by apply typed_fail]. cbn [negb].
  assert (forall r, typed (with_status (take i line) (status_ d) r d)) as Hv by (intros r; destruct Ht; by split).
  destruct (from_chars 10 65535 _) as [[n [|]]|] eqn:En; try by apply typed_fail. apply from_chars_range in En; [|lia].
  case_if; [by apply typed_fail|]. apply typed_moved; try done; [|by intros [?|[?|?]]]. by destruct Ht.
Qed.

Lemma typed_header_line line d d' : typed d -> header_line line d = Ok d' -> typed d'.
Proof.
  intros Ht. unfold header_line. destruct (find ":" line) as [colon|]; [|intros [= <-]; by apply typed_fail].
  do 3 (case_if; [intros [= <-]; by apply typed_fail|]). case_if; [intros [= <-]; apply typed_fail; by destruct Ht|].
  set (h := if _ && ascii_iequals _ _ then _ else _). destruct h as [h'|] eqn:Eh; [|done]. intros [= <-]. apply typed_header; [done| |apply u64_range].
  unfold h in Eh. case_if; [by eapply Headers.set_ok; [apply Ht|]|by eapply Headers.add_ok; [apply Ht|]].
Qed.

Lemma typed_process_line line d d' : typed d -> state_ d <> error -> process_line line d = Ok d' -> typed d'.
Proof.
  intros Ht He. unfold process_line. destruct (state_ d) eqn:Es; try done;
    try (case_if; [intros [= <-]; apply typed_select; congruence|by apply typed_header_line]).
  - intros [= <-]. apply typed_status_line; congruence.
  - destruct (parse_chunk_size_line line) as [n|[e stored]] eqn:En; intros [= <-]; [|apply chunk_size_stored in En; destruct Ht; split; cbn; try done; by intros [?|?]]. apply chunk_size_bounds in En. unfold kMaxChunkSize in En.
    destruct (Z.eqb_spec n 0); apply typed_counted; try done; try congruence; try (unfold SIZE_MAX; lia). by intros [?|[?|?]].
  - case_if; [intros [= <-]; apply typed_moved; try done; [congruence|by intros [?|[?|?]]]|]. case_if; [intros [= <-]; apply typed_fail; by destruct Ht|].
    case_if; intros [= <-]; [by apply typed_fail|]. apply typed_header; [done|apply Ht|apply u64_range].
Qed.

Lemma typed_line_byte c d d' t : typed d -> state_ d <> error -> line_byte c d = Ok (d', t) -> typed d'.
Proof.
  intros Ht He. unfold line_byte. case_if; [intros [= <- <-]; by apply typed_fail|]. case_if.
  - case_if; [intros [= <- <-]; by apply typed_fail|]. destruct (process_line _ d) as [e|] eqn:Ep; [|done]. apply typed_process_line in Ep; [|done|done].
    repeat case_if; intros [= <- <-]; auto using typed_line, typed_flags.
  - case_if; intros [= <- <-]; [apply typed_fail; by destruct Ht|by apply typed_line].
Qed.

Lemma typed_take_byte c d : typed d -> terminal d = None -> match take_byte c d with Taken d' _ | Refused d' => typed d' end.
Proof.
  intros Ht Hn. assert (state_ d <> error) as He by (unfold terminal in Hn; by destruct (state_ d)). unfold take_byte.
  assert (in_body (state_ d) -> state_ d <> close_body -> typed (take_payload 1 d).2) as Hp.
  { intros Hb Hc. destruct (take_payload_counted 1 d (ty_body _ Ht) Hb Hc) as [-> Hr]; [lia|]. cbn [snd]. unfold after_count. destruct (Z.eqb_spec (remaining_ d - Z.min (remaining_ d) 1) 0) as [E|E].
    - apply typed_counted; try done; [by case_if| |lia]. case_if; by intros [?|[?|?]].
    - destruct Ht. split; try done; cbn; [lia|]. intros _. cbn. lia. }
  destruct (line_byte_ok c d) as [[d0 t] El]. pose proof (typed_line_byte c d d0 t Ht He El) as Hl. rewrite El.
  destruct (state_ d) eqn:Es; try done; try (apply Hp; [unfold in_body; auto|congruence]); try (case_if; [apply typed_moved; try done; [congruence|by intros [?|[?|?]]]|by apply typed_fail]).
  unfold take_payload. by rewrite Es.
Qed.

Lemma typed_run input d d' p rest : typed d -> run input d = (d', p, rest) -> typed d'.
Proof.
  revert d d' p rest. induction input as [|c input IH]; intros d d' p rest Ht H; cbn [run] in H; destruct (terminal d) eqn:En; simplify_eq; try done.
  pose proof (typed_take_byte c d Ht En) as Hc. destruct (take_byte c d) as [d1 q|d1]; [|by simplify_eq]. destruct (run input d1) as [[d2 p2] r2] eqn:E. simplify_eq. by eapply IH.
Qed.

Lemma typed_fresh m n : 0 <= m <= SIZE_MAX -> 0 <= n <= SIZE_MAX ->
  typed (Decoder status_line 200 [] [] Headers.no_headers [] None None 0 m n 0 false false false false).
Proof.
  assert (status_line = error <-> is_Some (A := parse_error) None) as Hn by (split; [done|by intros [? ?]]).
  intros Hm Hs. split; cbn; try done; try (unfold SIZE_MAX; lia); try apply Headers.headers_ok_empty; by intros [?|?].
Qed.

(** [C34] Whatever the history of a response parser (limits set, requests named, bytes parsed, the connection
    closed, bodies taken, resets), the members of its decoder have values of their types: the status fits
    16 bits, counters and limits 64 bits, the version is one the grammar has (or is empty), the header fields
    have token names and values without control characters, a counted body has bytes left, and there is an error
    message exactly in the error state. *)
Theorem reachable_typed p : reachable p -> typed (decoder_ p).
Proof.
  induction 1 as [|n p _ IH Hn|n p _ IH Hn|m p _ IH|p _ IH|p _ IH|p _ IH|data p r n q _ IH H|p r n q _ IH H]; try done; try (by destruct IH).
  - apply typed_fresh; unfold SIZE_MAX; lia.
  - apply typed_fresh; apply IH.
  - pose proof (response_parse_runs data p (ty_body _ IH)) as Hp. destruct (run (buffer_ p ++ data) (decoder_ p)) as [[d b] rest] eqn:E. rewrite Hp in H. simplify_eq.
    by eapply typed_run.
  - unfold parser_finish_eof, finish_eof, decode in H. set (d0 := match state_ (decoder_ p) with close_body => _ | _ => _ end) in H.
    set (d1 := if _ && _ then _ else d0) in H.
    assert (typed d0) as H0 by (unfold d0; destruct (state_ (decoder_ p)) eqn:Es; try exact IH; apply typed_moved; try done; [congruence|by intros [?|[?|?]]]).
    assert (typed d1) as H1 by (unfold d1; case_if; [by apply typed_fail|done]).
    destruct (decode_run [] 0 d1 (ty_body _ H1)) as (r' & d' & n' & E & _ & Hd). rewrite E in H. simplify_eq. cbn [decoder_].
    pose proof (dc_run _ _ _ _ _ Hd) as Hr. rewrite drop_nil in Hr. assert (forall d, run [] d = (d, [], [])) as Hnil by (intros d; cbn [run]; by destruct (terminal d)).
    rewrite !Hnil in Hr. by injection Hr as <- _.
Qed.

(** ** What is buffered *)

(** A line within the limit, or one byte over it when that byte is a carriage return. *)
Definition line_bounded d : Prop :=
  zlen (line_ d) <= max_header_size_ d + 1 /\ (zlen (line_ d) = max_header_size_ d + 1 -> last (line_ d) = Some ch_cr).

Lemma process_line_limit line d d' : process_line line d = Ok d' -> max_header_size_ d' = max_header_size_ d.
Proof.
  unfold process_line, status_line_fields, select_framing, header_line, fail_limit. intros H. repeat case_match; by simplify_eq.
Qed.

Lemma line_byte_bounded c d d' t : 0 <= max_header_size_ d -> line_bounded d -> line_byte c d = Ok (d', t) ->
  line_bounded d' /\ max_header_size_ d' = max_header_size_ d.
Proof.
  intros Hm [Hl Hc]. unfold line_byte. destruct (bool_decide (last (line_ d) = Some ch_cr)) eqn:El; cbn [andb].
  - destruct (Byte.eqb c ch_lf); cbn [negb]; [|by intros [= <- <-]]. destruct (process_line _ d) as [e|] eqn:Ep; [|done]. apply process_line_limit in Ep.
    assert (line_bounded (with_line [] e)) as He by (split; cbn; rewrite Ep; unfold zlen; cbn; lia). repeat case_if; intros [= <- <-]; by split.
  - destruct (Byte.eqb c ch_lf); cbn [negb]; [by intros [= <- <-]|]. apply bool_decide_eq_false in El. destruct (Byte.eqb c ch_cr) eqn:Ecr; cbn [negb andb].
    + intros [= <- <-]. split; [|done]. apply byte_eqb_true in Ecr as ->. split; cbn; [|intros _; by rewrite last_snoc].
      assert (zlen (line_ d) <> max_header_size_ d + 1) by (intros ?; by apply El, Hc). unfold zlen in *. rewrite length_app. cbn. lia.
    + destruct (Z.leb_spec (max_header_size_ d) (zlen (line_ d))); intros [= <- <-]; [by split|]. split; [|done].
      split; cbn; unfold zlen in *; rewrite length_app; cbn; lia.
Qed.

Lemma run_bounded input d d' p rest : 0 <= max_header_size_ d -> line_bounded d -> run input d = (d', p, rest) ->
  line_bounded d' /\ max_header_size_ d' = max_header_size_ d.
Proof.
  revert d d' p rest. induction input as [|c input IH]; intros d d' p rest Hm Hb H; cbn [run] in H; destruct (terminal d); simplify_eq; try done.
  assert (forall d1, (exists q, take_byte c d = Taken d1 q) \/ take_byte c d = Refused d1 -> line_bounded d1 /\ max_header_size_ d1 = max_header_size_ d) as Hone.
  { intros d1 Ht. unfold take_byte in Ht. destruct (line_byte_ok c d) as [[d0 t] El]. pose proof (line_byte_bounded c d d0 t Hm Hb El) as Hd0. rewrite El in Ht.
    unfold take_payload in Ht. destruct (state_ d); repeat case_if; destruct Ht as [[q Ht]|Ht]; simplify_eq; try done; cbn [snd]; by case_if. }
  destruct (take_byte c d) as [d1 q|d1].
  - destruct (Hone d1) as [Hb1 Hm1]; [eauto|]. destruct (run input d1) as [[d2 p2] r2] eqn:E. simplify_eq. rewrite <-Hm1. eapply IH; [lia|done|done].
  - simplify_eq. by apply Hone; right.
Qed.

(** ** What the events leave alone *)

(** A property that every byte and every slice of payload keeps. *)
Record kept (Q : response_decoder -> Prop) : Prop := {
  kp_byte : forall c d, Q d -> terminal d = None -> match take_byte c d with Taken d' _ | Refused d' => Q d' end;
  kp_slice : forall n d, Q d -> in_body (state_ d) -> Q (take_payload n d).2;
}.

Lemma decode_keeps Q input used d r d' : kept Q -> Q d -> decode_from used input d = Ok (r, d') -> Q d'.
Proof.
  intros [Hb Hs]. revert used d. induction input as [|c rest IH]; intros used d Hq H; cbn [decode_from] in H; (destruct (terminal d) eqn:Et; [by simplify_eq|]); [by simplify_eq|].
  pose proof (Hb c d Hq Et) as Hc. unfold take_byte in Hc. destruct (line_byte_ok c d) as [[d1 t] El]. rewrite El in *. unfold in_body in Hs.
  destruct (state_ d) eqn:Es; try (destruct t; [by simplify_eq|by eapply IH]);
    try (specialize (Hs (zlen (c :: rest)) d Hq); rewrite Es in Hs; destruct (take_payload _ d) as [count d2]; simplify_eq; apply Hs; by auto).
  all: destruct (Byte.eqb c _); cbn [negb] in H; [by eapply IH|by simplify_eq].
Qed.

Lemma run_keeps Q input d d' p rest : kept Q -> Q d -> run input d = (d', p, rest) -> Q d'.
Proof.
  intros Hk. revert d d' p rest. induction input as [|c input IH]; intros d d' p rest Hq H; cbn [run] in H; (destruct (terminal d) eqn:Et; [by simplify_eq|]); [by simplify_eq|].
  pose proof (kp_byte Q Hk c d Hq Et) as Hc. destruct (take_byte c d) as [d1 q|d1]; [|by simplify_eq]. destruct (run input d1) as [[d2 p2] r2] eqn:E. simplify_eq. by eapply IH.
Qed.

(** The limits and the method of the request. *)
Definition origin (o : response_decoder * option method) d : Prop := (reset d, request_method_ d) = o.

Lemma process_line_origin o line d d' : origin o d -> process_line line d = Ok d' -> origin o d'.
Proof. unfold process_line, status_line_fields, select_framing, header_line, fail_limit. intros <- H. repeat case_match; by simplify_eq. Qed.

Lemma line_byte_origin o c d d' t : origin o d -> line_byte c d = Ok (d', t) -> origin o d'.
Proof.
  intros Ho H. unfold line_byte in H. repeat (case_if; [by simplify_eq; rewrite <-Ho|]). case_if.
  - case_if; [by simplify_eq|]. destruct (process_line _ d) as [e|] eqn:E; [|done]. apply (process_line_origin o) in E; [|done]. repeat case_if; simplify_eq; by rewrite <-E.
  - repeat case_if; simplify_eq; by rewrite <-Ho.
Qed.

Lemma origin_kept o : kept (origin o).
Proof.
  split.
  - intros c d Ho _. unfold take_byte, take_payload. destruct (line_byte_ok c d) as [[d1 t] El]. pose proof (line_byte_origin o c d d1 t Ho El). rewrite El.
    destruct (state_ d); repeat case_if; try done; by rewrite <-Ho.
  - intros n d <- _. unfold take_payload. destruct (state_ d); repeat case_if; done.
Qed.

(** Past the header section, the head of the response is settled. *)
Definition before_body d : bool := match state_ d with status_line | headers => true | _ => false end.

Definition head_of d := (status_ d, version_ d, headers_ d, headers_complete_ d, handoff_ d, close_delimited_ d).

Definition settled h d : Prop := before_body d = false /\ head_of d = h.

Lemma process_line_settled h line d d' : settled h d -> state_ d = chunk_size \/ state_ d = trailers -> process_line line d = Ok d' -> settled h d'.
Proof.
  unfold settled, before_body, process_line, fail_limit. intros [Hs Hh] Ht H. destruct (state_ d) eqn:Es; try (by destruct Ht); repeat case_match; simplify_eq; cbn in *; rewrite ?Es; try done; congruence.
Qed.

Lemma line_byte_settled h c d d' t : settled h d -> state_ d = chunk_size \/ state_ d = trailers -> line_byte c d = Ok (d', t) -> settled h d'.
Proof.
  intros Hq Ht H. pose proof Hq as [Hs Hh]. unfold line_byte in H. repeat (case_if; [by simplify_eq|]). case_if.
  - case_if; [by simplify_eq|]. rewrite bool_decide_false in H by (destruct Ht; congruence). cbn [andb] in H.
    destruct (process_line _ d) as [e|] eqn:E; [|done]. apply (process_line_settled h) in E; [|done..]. case_if; by simplify_eq.
  - case_if; by simplify_eq.
Qed.

Lemma settled_kept h : kept (settled h).
Proof.
  split.
  - intros c d Hq Ht. pose proof Hq as [Hs Hh]. unfold take_byte. destruct (line_byte_ok c d) as [[d1 t] El]. pose proof (fun Hl => line_byte_settled h c d d1 t Hq Hl El) as Hl. rewrite El.
    unfold terminal, before_body, take_payload in *. destruct (state_ d) eqn:Es; try done; repeat case_if; try done; auto.
  - intros n d [Hs Hh] _. unfold take_payload. destruct (state_ d) eqn:Es; repeat case_if; done.
Qed.

Lemma process_line_heads line d e : before_body d = true -> bool_decide (state_ d = headers) && streq line [] = false -> process_line line d = Ok e -> before_body e = true \/ state_ e = error.
Proof.
  intros Hb Eb E. assert (state_ e = headers \/ state_ e = error) as [He|He]; [|unfold before_body; rewrite He; auto|auto].
  unfold process_line, before_body in *. destruct (state_ d) eqn:Es; try done.
  - unfold status_line_fields in E. repeat case_match; simplify_eq; auto.
  - rewrite bool_decide_true in Eb by done. cbn [andb] in Eb. rewrite Eb in E. unfold header_line, fail_limit in E. clear Hb Eb. repeat case_match; simplify_eq; auto.
Qed.

(** The decoder at the end of the header section: an interim response ends there, and only a switch of protocols or a tunnel is handed over. *)
Record headed d : Prop := {
  hd_past : before_body d = false;
  hd_complete : headers_complete_ d = true;
  hd_open : state_ d <> error;
  hd_interim : 100 <= status_ d < 200 -> state_ d = complete;
  hd_handoff : handoff_ d = (status_ d =? 101) || (is_method CONNECT d && (200 <=? status_ d) && (status_ d <? 300));
}.

Lemma select_framing_headed d : state_ (select_framing d) <> error -> headed (with_flags true (close_delimited_ (select_framing d)) (handoff_ (select_framing d)) (with_line [] (select_framing d))).
Proof.
  intros He. assert (forall x : response_decoder, x = select_framing d -> before_body x = false /\ status_ x = status_ d /\ request_method_ x = request_method_ d /\ (100 <= status_ d < 200 -> state_ x = complete) /\
    handoff_ x = (status_ d =? 101) || (is_method CONNECT d && (200 <=? status_ d) && (status_ d <? 300))) as Hx.
  { intros x ->. revert He. unfold select_framing, before_body, is_method, status_forbids_response_body. cbn [request_method_ with_flags status_]. repeat case_match; cbn; intros; split_and!; try done; lia. }
  destruct (Hx _ eq_refl) as (H1 & H2 & H3 & H4 & H5). constructor; cbn; try done; [by rewrite H2|]. rewrite H2, H5. unfold is_method. cbn. by rewrite H3.
Qed.

Lemma line_byte_heads c d d' t : before_body d = true -> line_byte c d = Ok (d', t) -> if t then headed d' else before_body d' = true \/ state_ d' = error.
Proof.
  intros Hb H. unfold line_byte in H. destruct (bool_decide (last (line_ d) = Some ch_cr)), (Byte.eqb c ch_lf); cbn [andb negb] in H;
    [|by injection H as <- <-; auto|by injection H as <- <-; auto|destruct (negb _ && _) in H; injection H as <- <-; auto].
  destruct (process_line _ d) as [e|] eqn:E; [|done]. destruct (bool_decide (state_ d = headers) && streq (removelast (line_ d)) []) eqn:Eb.
  - apply andb_true_iff in Eb as [Es%bool_decide_eq_true Eb]. unfold process_line in E. rewrite Es, Eb in E. injection E as <-.
    destruct (has_error _) eqn:Ee in H; injection H as <- <-; unfold has_error in Ee.
    + right. by apply bool_decide_eq_true in Ee.
    + apply bool_decide_eq_false in Ee. by apply select_framing_headed.
  - apply process_line_heads in E; [|done..]. destruct (has_error _) in H; injection H as <- <-; exact E.
Qed.

(** Before the end of the header section there is no other event but an error. *)
Lemma decode_heads input used d r d' : before_body d = true -> decode_from used input d = Ok (r, d') ->
  match event r with
  | Need_more => before_body d' = true
  | Headers_complete => headed d'
  | Error_event => True
  | _ => False
  end.
Proof.
  revert used d. induction input as [|c rest IH]; intros used d Hb H; pose proof Hb as Hb'; unfold before_body in Hb'; cbn [decode_from] in H;
    assert (terminal d = None) as Ht by (unfold terminal; by destruct (state_ d)); rewrite Ht in H; [by simplify_eq|].
  destruct (line_byte_ok c d) as [[d1 t] El]. pose proof (line_byte_heads c d d1 t Hb El) as Hd1. rewrite El in H.
  assert (match t with true => Ok (DecodeResult Headers_complete (used + 1) [], d1) | false => decode_from (used + 1) rest d1 end = Ok (E := Headers.header_error) (r, d')) as H' by (destruct (state_ d), t; done).
  clear H. destruct t; [by simplify_eq|]. destruct Hd1 as [Hd1|Hd1]; [by eapply IH|].
  assert (terminal d1 = Some Error_event) as Ht1 by (unfold terminal; by rewrite Hd1). destruct rest; cbn [decode_from] in H'; rewrite Ht1 in H'; by simplify_eq.
Qed.

Lemma decode_past_head h input used d r d' : settled h d -> decode_from used input d = Ok (r, d') -> event r <> Headers_complete.
Proof.
  revert used d. induction input as [|c rest IH]; intros used d Hb H; cbn [decode_from] in H;
    (destruct (terminal d) as [e|] eqn:Et; [injection H as <- _; cbn; intros ->; unfold terminal in Et; by destruct (state_ d), (handoff_ d)|]); [by simplify_eq|].
  pose proof (kp_byte _ (settled_kept h) c d Hb Et) as Hc. unfold take_byte in Hc. destruct (line_byte_ok c d) as [[d1 t] El]. rewrite El in *.
  assert (t = false) as ->.
  { destruct Hb as [Hb _]. unfold before_body in Hb. unfold line_byte in El. rewrite (bool_decide_false (state_ d = headers)) in El by (destruct (state_ d); done). cbn [andb] in El.
    repeat case_match; by simplify_eq. }
  destruct (state_ d) eqn:Es; try (by eapply IH); try (destruct (take_payload _ d); by simplify_eq).
  all: destruct (Byte.eqb c _); cbn [negb] in H; [by eapply IH|by simplify_eq].
Qed.

(** The reads of one message. *)
Fixpoint parse_all (chunks : list (list byte)) p : result Headers.header_error response_parser :=
  match chunks with
  | [] => Ok p
  | data :: chunks => match parse data p with Ok (_, _, q) => parse_all chunks q | Throw e => Throw e end
  end.

(** Whatever a peer sends, in however many reads, the decoder holds at most one framing line of the
    configured length (and the carriage return after it): payload is never buffered by it. *)
Theorem buffered_line_bounded max chunks : 0 <= max <= SIZE_MAX ->
  exists p, parse_all chunks (parser_set_max_header_size max new_parser) = Ok p /\ bytes_buffered (decoder_ p) <= max + 1.
Proof.
  intros Hmax. set (p0 := parser_set_max_header_size max new_parser).
  assert (wf (decoder_ p0) /\ line_bounded (decoder_ p0) /\ max_header_size_ (decoder_ p0) = max) as H0.
  { split; [by intros [?|?]|]. split; [|done]. split; cbn; unfold zlen; cbn; [lia|]. intros; lia. }
  clearbody p0. revert p0 H0. induction chunks as [|data chunks IH]; intros p (Hw & Hb & Hm).
  - exists p. split; [done|]. destruct Hb as [Hb _]. unfold bytes_buffered. lia.
  - cbn [parse_all]. pose proof (response_parse_runs data p Hw) as E. destruct (run (buffer_ p ++ data) (decoder_ p)) as [[d b] rest] eqn:R. rewrite E.
    apply IH. cbn [decoder_]. destruct (run_bounded (buffer_ p ++ data) (decoder_ p) d b rest) as [Hb' Hm']; [lia|done|done|]. split; [by eapply run_wf|]. split; [done|lia].
Qed.

(** ** Reading what a sender writes *)

Definition reads_lines s : bool := match s with status_line | headers | chunk_size | trailers => true | _ => false end.

Lemma take_byte_line c d : reads_lines (state_ d) = true -> terminal d = None /\ take_byte c d = match line_byte c d with Ok (d', _) => Taken d' [] | Throw _ => Refused d end.
Proof. unfold terminal, take_byte. by destruct (state_ d). Qed.

(** The bytes of a line before its end. *)
Lemma run_text text rest d : reads_lines (state_ d) = true -> ch_cr ∉ text -> ch_lf ∉ text -> last (line_ d) <> Some ch_cr ->
  zlen (line_ d) + zlen text <= max_header_size_ d -> run (text ++ rest) d = run rest (with_line (line_ d ++ text) d).
Proof.
  revert d. induction text as [|c text IH]; intros d Hs Hcr Hlf Hlast Hlen.
  - rewrite app_nil_r. by destruct d.
  - apply not_elem_of_cons in Hcr as [Hcr Hcr'], Hlf as [Hlf Hlf']. unfold zlen in Hlen. cbn [length] in Hlen. cbn [app run].
    destruct (take_byte_line c d Hs) as [-> ->]. unfold line_byte. rewrite bool_decide_false by done. cbn [andb].
    rewrite (proj2 (byte_eqb_false c ch_lf)), (proj2 (byte_eqb_false c ch_cr)) by congruence. cbn [negb andb].
    rewrite (proj2 (Z.leb_gt _ _)) by (unfold zlen; lia). rewrite IH; try done.
    + cbn [line_ with_line]. rewrite <-app_assoc. cbn [app]. change (with_line ?l (with_line _ d)) with (with_line l d). by destruct (run rest _) as [[d2 p2] r2].
    + cbn. rewrite last_snoc. congruence.
    + cbn. unfold zlen. rewrite length_app. cbn. lia.
Qed.

(** The decoder after a complete line. *)
Definition after_line (boundary : bool) d : response_decoder :=
  let d := with_line [] d in
  if has_error d then d else if boundary then with_flags true (close_delimited_ d) (handoff_ d) d else d.

Lemma run_line line rest d d' : reads_lines (state_ d) = true -> line_ d = [] -> ch_cr ∉ line -> ch_lf ∉ line -> zlen line <= max_header_size_ d ->
  process_line line (with_line (line ++ [ch_cr]) d) = Ok d' ->
  run (line ++ crlf ++ rest) d = run rest (after_line (bool_decide (state_ d = headers) && streq line []) d').
Proof.
  intros Hs Hl Hcr Hlf Hlen Hp. rewrite run_text by (rewrite ?Hl; try done; unfold zlen in *; cbn; lia). rewrite Hl. cbn [app].
  unfold crlf. cbn [app run]. set (d1 := with_line line d). destruct (take_byte_line ch_cr d1 Hs) as [-> ->].
  assert (last line <> Some ch_cr) as Hlast by (intros E; apply Hcr; by apply last_Some_elem_of).
  unfold line_byte at 1. cbn [line_ with_line d1]. rewrite bool_decide_false by done. cbn [andb]. change (Byte.eqb ch_cr ch_lf) with false. change (Byte.eqb ch_cr ch_cr) with true.
  cbn [negb andb run]. change (with_line ?l d1) with (with_line l d). set (d2 := with_line (line ++ [ch_cr]) d) in *.
  destruct (take_byte_line ch_lf d2 Hs) as [-> ->]. unfold line_byte. cbn [line_ with_line d2]. rewrite last_snoc, removelast_last, bool_decide_true by done.
  change (Byte.eqb ch_lf ch_lf) with true. cbn [negb andb]. rewrite Hp. change (state_ d2) with (state_ d).
  unfold after_line. repeat case_if; by destruct (run rest _) as [[d3 p3] r3].
Qed.

Lemma process_line_with_line x line d : process_line line (with_line x d) =
  match process_line line d with Ok d' => Ok (with_line x d') | Throw e => Throw e end.
Proof.
  unfold process_line. cbn [state_ with_line]. destruct (state_ d).
  all: try (unfold select_framing, header_line, is_method; cbn [with_line status_ headers_ request_method_ headers_complete_ close_delimited_ handoff_ with_flags
       header_count_ max_headers_]; repeat (case_match; try done)).
  unfold status_line_fields. cbn [with_line status_ reason_ with_status version_]. repeat (case_match; try done).
Qed.

Lemma after_line_with_line x b d : after_line b (with_line x d) = after_line b d.
Proof. done. Qed.

(** One header line. *)
Lemma run_header_line n v rest d : state_ d = headers -> line_ d = [] -> is_valid_token n = true -> is_valid_header_value v = true ->
  zlen (n ++ str ": " ++ v) <= max_header_size_ d -> header_count_ d < max_headers_ d ->
  is_method CONNECT d && (200 <=? status_ d) && (status_ d <? 300) = false ->
  (ascii_iequals n (str "Content-Length") = true -> Headers.contains (str "Content-Length") (headers_ d) = false) ->
  exists h, Headers.add n (trim_ows v) (headers_ d) = Ok h /\
    run (Headers.append_serialized_header n v ++ rest) d = run rest (with_header h (u64 (header_count_ d + 1)) d).
Proof.
  intros Hs Hl Hn Hv Hlen Hc Ht Hcl.
  destruct (Headers.written_line n v Hn) as [Hf Htrim].
  destruct (Headers.add_checked n (trim_ows v) (headers_ d)) as [h Ha]; [done|by apply Headers.value_ok_trim|apply trim_ows_idemp| |].
  { intros E1 E2. by rewrite Hcl in E2. }
  exists h. split; [done|].
  replace (Headers.append_serialized_header n v ++ rest) with ((n ++ str ": " ++ v) ++ crlf ++ rest)
    by (unfold Headers.append_serialized_header; by rewrite <-!app_assoc).
  rewrite (run_line (n ++ str ": " ++ v) rest d (with_line ((n ++ str ": " ++ v) ++ [ch_cr]) (with_header h (u64 (header_count_ d + 1)) d))); try done.
  - rewrite (proj2 (streq_false _ [])) by (by destruct n). rewrite andb_false_r, after_line_with_line. unfold after_line.
    replace (has_error _) with false by (unfold has_error; cbn; rewrite Hs; done). destruct d; cbn in *; by subst.
  - by rewrite Hs.
  - by apply Headers.crlf_free_line.
  - intros [Hin|[Hin|Hin]%elem_of_app]%elem_of_app.
    + by apply (token_excludes ch_lf n).
    + change (str ": ") with [":"%byte; ch_space] in Hin. apply elem_of_cons in Hin as [?|?%list_elem_of_singleton]; done.
    + revert Hin. by apply value_excludes.
  - rewrite process_line_with_line. unfold process_line. rewrite Hs, (proj2 (streq_false _ [])) by (by destruct n). unfold header_line.
    rewrite Hf, Htrim, take_app_length, Ht. unfold is_valid_header_name. rewrite Hn, Headers.value_ok_trim by done. cbn [negb andb].
    rewrite (proj2 (Z.leb_gt (max_headers_ d) _)), Ha by done. destruct (ascii_iequals n (str "Content-Length")); [by rewrite Hcl|done].
Qed.

Lemma run_header_block l rest d f read :
  state_ d = headers -> line_ d = [] -> is_method CONNECT d && (200 <=? status_ d) && (status_ d <? 300) = false ->
  0 <= header_count_ d -> header_count_ d + zlen l <= max_headers_ d -> max_headers_ d <= SIZE_MAX ->
  Forall (Headers.line_ok (max_header_size_ d)) l -> Headers.one_length (read ++ l) ->
  Headers.represents (headers_ d) f -> (forall k, f k = Headers.fields_of read k) ->
  exists h f', run (Headers.write_lines l ++ rest) d = run rest (with_header h (header_count_ d + zlen l) d) /\
    Headers.represents h f' /\ forall k, f' k = Headers.fields_of (read ++ map Headers.trim_line l) k.
Proof.
  revert d f read. induction l as [|[n v] l IH]; intros d f read Hs Hline Ht Hc0 Hc Hm Hl Ho Hf Hk.
  { exists (headers_ d), f. unfold zlen. cbn. rewrite Z.add_0_r, app_nil_r. split_and!; [|done|done]. by destruct d. }
  apply Forall_cons in Hl as [(Hn & Hv & Hlen) Hl]. cbn [fst snd] in *. unfold zlen in Hc. cbn [length] in Hc.
  destruct (run_header_line n v (Headers.write_lines l ++ rest) d) as (h & Ha & Hr); [done..|lia|done| |].
  { intros Hcl. by eapply Headers.first_length. }
  destruct (Headers.read_one_line (headers_ d) f read n v l h) as (f' & Hrep & Hk' & Ho'); [done..|].
  assert (u64 (header_count_ d + 1) = header_count_ d + 1) as Hcount by (apply u64_small; unfold SIZE_MAX in *; lia).
  destruct (IH (with_header h (u64 (header_count_ d + 1)) d) f' (read ++ [Headers.trim_line (n, v)])) as (h' & g & Hst & Hg & Hgk);
    [done|done|done|cbn; lia|cbn; rewrite Hcount; unfold zlen; lia|done..|].
  exists h', g. split_and!; [|done|intros k; rewrite Hgk, <-app_assoc; done].
  change (Headers.write_lines ((n, v) :: l)) with (Headers.append_serialized_header n v ++ Headers.write_lines l).
  rewrite <-(app_assoc (Headers.append_serialized_header n v)), Hr, Hst. cbn [header_count_ with_header]. rewrite Hcount.
  replace (header_count_ d + 1 + zlen l) with (header_count_ d + zlen ((n, v) :: l)) by (unfold zlen; cbn [length]; lia). done.
Qed.

(** ** Bodies *)

Lemma run_fixed bytes rest d : state_ d = fixed_body -> remaining_ d = zlen bytes -> bytes <> [] -> zlen bytes <= SIZE_MAX ->
  run (bytes ++ rest) d = (with_state complete (with_remaining 0 d), bytes, rest).
Proof.
  intros Hs Hr Hne Hmax. assert (wf d) as Hw by (intros _; rewrite Hr; destruct bytes; [done|unfold zlen in *; cbn in *; lia]).
  assert (bytes ++ rest <> []) as Hne' by (by destruct bytes). assert (0 < zlen bytes) as Hpos by (destruct bytes; [done|unfold zlen; cbn; lia]).
  pose proof (run_payload (bytes ++ rest) d Hw (or_introl Hs) Hne') as Hp.
  destruct (take_payload_counted (zlen (bytes ++ rest)) d Hw (or_introl Hs)) as [E _]; [by rewrite Hs|rewrite zlen_app; pose proof (zlen_nonneg rest); lia|].
  rewrite E in Hp. destruct Hp as [_ ->]. rewrite Hr, zlen_app, Z.min_l by (pose proof (zlen_nonneg rest); lia).
  rewrite Z.sub_diag. unfold after_count, zlen. cbn [Z.eqb]. rewrite Hs, bool_decide_true by done. rewrite Nat2Z.id, drop_app_length, take_app_length.
  rewrite (run_terminal rest _ (if handoff_ d then Protocol_handoff else Message_complete)) by done. by rewrite app_nil_r.
Qed.

Lemma run_close bytes d : state_ d = close_body -> run bytes d = (d, bytes, []).
Proof.
  intros Hs. induction bytes as [|c bytes IH]; cbn [run]; unfold terminal, take_byte, take_payload; rewrite Hs; [done|]. cbn [snd]. by rewrite IH.
Qed.

(** A chunk, and the end of a chunked body. *)
Definition chunk (data : list byte) : list byte := to_chars 16 (zlen data) ++ crlf ++ data ++ crlf.
Definition last_chunk : list byte := str "0" ++ crlf ++ crlf.

(** The line in front of a chunk. *)
Lemma run_chunk_line (data rest : list byte) d : state_ d = chunk_size -> line_ d = [] -> data <> [] -> zlen data <= kMaxChunkSize -> zlen (to_chars 16 (zlen data)) <= max_header_size_ d ->
  run (to_chars 16 (zlen data) ++ crlf ++ rest) d = run rest (with_state chunk_body (with_remaining (zlen data) d)).
Proof.
  intros Hs Hl Hne Hmax Hlim. assert (0 < zlen data) as Hpos by (destruct data; [done|unfold zlen; cbn; lia]).
  destruct (chunk_size_written (zlen data)) as (Hp & Hcr & Hlf); [lia|].
  rewrite (run_line _ _ d (with_line (to_chars 16 (zlen data) ++ [ch_cr]) (with_state chunk_body (with_remaining (zlen data) d)))); try done; [|by rewrite Hs|].
  2:{ rewrite process_line_with_line. unfold process_line. rewrite Hs, Hp, (proj2 (Z.eqb_neq _ _)) by lia. done. }
  rewrite Hs, bool_decide_false by done. cbn [andb]. rewrite after_line_with_line. unfold after_line.
  replace (has_error _) with false by (unfold has_error; cbn; by rewrite bool_decide_false). destruct d; cbn in *; by subst.
Qed.

(** The bytes of a chunk. *)
Lemma run_chunk_data (data rest : list byte) d : state_ d = chunk_body -> remaining_ d = zlen data -> data <> [] -> zlen data <= kMaxChunkSize ->
  run (data ++ rest) d = let '(d2, p2, r2) := run rest (with_state chunk_cr (with_remaining 0 d)) in (d2, data ++ p2, r2).
Proof.
  intros Hs Hr Hne Hmax. assert (0 < zlen data) as Hpos by (destruct data; [done|unfold zlen; cbn; lia]).
  assert (wf d) as Hw by (intros _; unfold kMaxChunkSize, SIZE_MAX in *; lia). assert (in_body (state_ d)) as Hb by (unfold in_body; auto).
  assert (data ++ rest <> []) as Hne' by (by destruct data). pose proof (run_payload (data ++ rest) d Hw Hb Hne') as Hrun. pose proof (zlen_nonneg rest) as Hr0.
  destruct (take_payload_counted (zlen (data ++ rest)) d Hw Hb) as [E _]; [by rewrite Hs|rewrite zlen_app; lia|].
  rewrite E in Hrun. destruct Hrun as [_ ->]. rewrite Hr, zlen_app, Z.min_l, Z.sub_diag by lia. unfold after_count, zlen. cbn [Z.eqb].
  rewrite Hs, bool_decide_false, Nat2Z.id, drop_app_length, take_app_length by done. done.
Qed.

Lemma run_chunk data rest d : state_ d = chunk_size -> line_ d = [] -> data <> [] -> zlen data <= kMaxChunkSize -> zlen (to_chars 16 (zlen data)) <= max_header_size_ d ->
  run (chunk data ++ rest) d = let '(d2, p2, r2) := run rest (with_remaining 0 d) in (d2, data ++ p2, r2).
Proof.
  intros Hs Hl Hne Hmax Hlim. unfold chunk. rewrite <-!app_assoc, run_chunk_line, run_chunk_data by done.
  unfold crlf. cbn [app run terminal take_byte with_state state_]. rewrite byte_eqb_refl. cbn [app run terminal take_byte with_state state_]. rewrite byte_eqb_refl.
  replace (with_state chunk_size _) with (with_remaining 0 d) by (destruct d; cbn in *; by subst).
  by destruct (run rest (with_remaining 0 d)) as [[d2 p2] r2].
Qed.

(** ** Part of the input *)

(** A run that is not over has taken all of its input. *)
Lemma run_takes_all input d d' p rest : run input d = (d', p, rest) -> terminal d' = None -> rest = [].
Proof.
  revert d d' p rest. induction input as [|c input IH]; intros d d' p rest H Ht; cbn [run] in H; destruct (terminal d) eqn:E; simplify_eq; try done; try congruence.
  destruct (take_byte c d) as [d1 q|d1] eqn:Et; [destruct (run input d1) as [[d2 p2] r2] eqn:Er; simplify_eq; by eapply IH|]. simplify_eq. exfalso.
  unfold take_byte in Et. destruct (line_byte_ok c d) as [[dl t] El]. rewrite El in Et. destruct (state_ d); try done; case_if; simplify_eq; by destruct d.
Qed.

(** What a run takes completely it takes part by part. *)
Lemma run_prefix x y d d' b : run (x ++ y) d = (d', b, []) -> exists dx bx by_, run x d = (dx, bx, []) /\ run y dx = (d', by_, []) /\ b = bx ++ by_.
Proof.
  intros H. rewrite run_split in H. destruct (run x d) as [[dx bx] rx] eqn:Ex. destruct (terminal dx) as [e|] eqn:Et.
  - rewrite (run_terminal _ _ _ Et) in H. injection H as -> <- Hr. apply app_eq_nil in Hr as [-> ->]. exists d', bx, []. split_and!; [done|by apply (run_terminal _ _ e)|done].
  - pose proof (run_takes_all _ _ _ _ _ Ex Et) as ->. cbn [app] in H. destruct (run y dx) as [[d2 b2] r2] eqn:Ey. simplify_eq. by exists dx, bx, b2.
Qed.

Lemma run_payload_le x d d' b r : run x d = (d', b, r) -> (length b <= length x)%nat.
Proof.
  revert d d' b r. induction x as [|c x IH]; intros d d' b r H; cbn [run] in H; destruct (terminal d); simplify_eq; try (cbn; lia).
  destruct (take_byte c d) as [d1 q|d1] eqn:Et; [|simplify_eq; cbn; lia]. destruct (run x d1) as [[d2 p2] r2] eqn:Er. simplify_eq. apply IH in Er. rewrite length_app.
  assert (length q <= 1)%nat; [|cbn; lia]. unfold take_byte in Et. destruct (line_byte_ok c d) as [[dl t] El]. rewrite El in Et. destruct (state_ d); try case_if; simplify_eq; cbn; lia.
Qed.

(** The first bytes of a chunk: the payload among them. *)
Lemma run_chunk_part (data : list byte) n d : state_ d = chunk_size -> line_ d = [] -> data <> [] -> zlen data <= kMaxChunkSize -> zlen (to_chars 16 (zlen data)) <= max_header_size_ d ->
  (n <= length (chunk data))%nat -> exists d', run (take n (chunk data)) d = (d', take (n - length (to_chars 16 (zlen data) ++ crlf)) data, []).
Proof.
  intros Hs Hl Hne Hmax Hlim Hn. set (line := to_chars 16 (zlen data) ++ crlf). set (d1 := with_state chunk_body (with_remaining (zlen data) d)).
  assert (forall z, run (line ++ z) d = run z d1) as Hline by (intros z; unfold line; rewrite <-app_assoc; by apply run_chunk_line).
  assert (chunk data = line ++ data ++ crlf) as Ec by (unfold chunk, line; by rewrite <-app_assoc). rewrite Ec in *. destruct (decide (n <= length line)%nat) as [H1|H1].
  { rewrite take_app_le by done. replace (n - length line)%nat with 0%nat by lia. pose proof (Hline []) as Hr. rewrite app_nil_r, <-(take_drop n line) in Hr. cbn [run d1 terminal with_state state_] in Hr.
    apply run_prefix in Hr as (dx & bx & by_ & Hx & _ & Hb). exists dx. rewrite Hx. by destruct bx. }
  rewrite take_app_ge, Hline by lia. set (k := (n - length line)%nat) in *. rewrite !length_app in Hn.
  assert (exists d2, run data d1 = (d2, data, [])) as [d2 Hd].
  { pose proof (run_chunk_data data [] d1 eq_refl eq_refl Hne Hmax) as Hr. cbn [run terminal with_state state_] in Hr. rewrite !app_nil_r in Hr. eauto. }
  destruct (decide (k <= length data)%nat) as [H2|H2].
  - rewrite take_app_le by done. pose proof Hd as Hd'. rewrite <-(take_drop k data) in Hd' at 1. apply run_prefix in Hd' as (dx & bx & by_ & Hx & Hy & Hb).
    exists dx. rewrite Hx. f_equal. f_equal. apply run_payload_le in Hx, Hy. rewrite length_take in Hx. rewrite length_drop in Hy. pose proof (f_equal length Hb) as Hlen. rewrite length_app in Hlen.
    rewrite Hb, take_app_le, firstn_all2 by lia. done.
  - rewrite take_app_ge by lia. pose proof (run_chunk data [] d Hs Hl Hne Hmax Hlim) as Hr. assert (terminal (with_remaining 0 d) = None) as Et by (unfold terminal; cbn; by rewrite Hs).
    cbn [run] in Hr. rewrite Et in Hr. rewrite Ec, !app_nil_r, Hline, <-(take_drop (k - length data) crlf), app_assoc in Hr. apply run_prefix in Hr as (dx & bx & by_ & Hx & _ & Hb).
    exists dx. rewrite Hx. pose proof Hx as Hx'. rewrite run_split, Hd in Hx'. cbn [app] in Hx'. destruct (run (take (k - length data) crlf) d2) as [[d3 b3] r3]. injection Hx' as _ <- _.
    rewrite <-app_assoc in Hb. assert (b3 ++ by_ = []) as Hnil by (apply (app_inv_head data); by rewrite app_nil_r, <-Hb). apply app_eq_nil in Hnil as [-> _]. by rewrite app_nil_r, firstn_all2 by lia.
Qed.

Lemma run_empty_line rest d d' : reads_lines (state_ d) = true -> line_ d = [] -> 0 <= max_header_size_ d -> process_line [] d = Ok d' ->
  run (crlf ++ rest) d = run rest (after_line (bool_decide (state_ d = headers)) d').
Proof.
  intros Hs Hl Hm Hp. change (crlf ++ rest) with ([] ++ crlf ++ rest).
  rewrite (run_line [] rest d (with_line ([] ++ [ch_cr]) d')); try done; [by rewrite streq_refl, andb_true_r|apply not_elem_of_nil..|].
  by rewrite process_line_with_line, Hp.
Qed.

Lemma run_last_chunk rest d : state_ d = chunk_size -> line_ d = [] -> 1 <= max_header_size_ d ->
  run (last_chunk ++ rest) d = (with_state complete (with_remaining 0 d), [], rest).
Proof.
  intros Hs Hl Hlim. unfold last_chunk. rewrite <-!app_assoc.
  rewrite (run_line (str "0") _ d (with_line (str "0" ++ [ch_cr]) (with_state trailers (with_remaining 0 d)))); try done; [|by rewrite Hs|..].
  - rewrite Hs, bool_decide_false by done. cbn [andb]. rewrite after_line_with_line. unfold after_line.
    replace (has_error _) with false by (unfold has_error; cbn; by rewrite bool_decide_false).
    rewrite (run_empty_line rest _ (with_line [] (with_state complete (with_remaining 0 d)))) by (done || (cbn; lia)).
    rewrite bool_decide_false by done. unfold after_line. replace (has_error _) with false by (unfold has_error; cbn; by rewrite bool_decide_false).
    rewrite (run_terminal rest _ (if handoff_ d then Protocol_handoff else Message_complete)) by done. destruct d; cbn in *; by subst.
  - change (str "0") with ["0"%byte]. by intros ?%list_elem_of_singleton.
  - change (str "0") with ["0"%byte]. by intros ?%list_elem_of_singleton.
  - rewrite process_line_with_line. unfold process_line. by rewrite Hs.
Qed.

(** A whole chunked body. *)
Lemma run_chunks pieces rest d : state_ d = chunk_size -> line_ d = [] -> 8 <= max_header_size_ d ->
  Forall (fun data => data <> [] /\ zlen data <= kMaxChunkSize) pieces ->
  run (flat_map chunk pieces ++ last_chunk ++ rest) d = (with_state complete (with_remaining 0 d), concat pieces, rest).
Proof.
  intros Hs Hl Hlim Hp. revert d Hs Hl Hlim. induction Hp as [|data pieces [Hne Hmax] _ IH]; intros d Hs Hl Hlim; cbn [flat_map concat app].
  - apply run_last_chunk; [done|done|lia].
  - rewrite <-app_assoc, run_chunk; try done.
    + rewrite IH by done. done.
    + pose proof (to_digits_length 16 ltac:(lia) 64 (zlen data) [] 7) as Hd. unfold kMaxChunkSize in Hmax. change (16 ^ Z.of_nat 8) with (2 ^ 32) in Hd.
      specialize (Hd ltac:(unfold zlen in *; lia)). cbn [length] in Hd. unfold to_chars, zlen in *. lia.
Qed.

(** A status line: a version that is empty or of the form HTTP/d.d, a space, three digits, and, after a second space, a reason. *)
Record status_text (line version : list byte) (x y z : Z) (reason : option (list byte)) : Prop := {
  sx_version : version = [] \/ exists a b, version = str "HTTP/" ++ [a; "."%byte; b] /\ is_digit a = true /\ is_digit b = true;
  sx_digits : (0 <= x < 10) /\ (0 <= y < 10) /\ (0 <= z < 10);
  sx_line : line = version ++ " "%byte :: map digit_char [x; y; z] ++ match reason with Some r => " "%byte :: r | None => [] end;
}.

Lemma digit_value_inv c v : digit_value 10 c = Some v -> 0 <= v < 10 /\ c = digit_char v.
Proof. intros H. pose proof (digit_value_range _ _ _ H). split; [done|]. revert H. destruct c; vm_compute; intros [= <-]; reflexivity. Qed.

Lemma from_chars_three code number : length code = 3%nat ->
  from_chars 10 65535 code = Some (number, []) <-> exists x y z, (0 <= x < 10) /\ (0 <= y < 10) /\ (0 <= z < 10) /\ code = map digit_char [x; y; z] /\ number = 100 * x + 10 * y + z.
Proof.
  destruct code as [|a [|b [|c [|]]]]; try done. intros _. split.
  - unfold from_chars. cbn [scan_digits]. destruct (digit_value 10 a) as [x|] eqn:Ea; [|done]. destruct (digit_value 10 b) as [y|] eqn:Eb; [|by case_if].
    destruct (digit_value 10 c) as [z|] eqn:Ec; [|by case_if]. case_if; [|done]. intros [= <-].
    apply digit_value_inv in Ea as [Hx ->], Eb as [Hy ->], Ec as [Hz ->]. exists x, y, z. do 4 (split; [done|]). lia.
  - intros (x & y & z & Hx & Hy & Hz & [= -> -> ->] & ->). unfold from_chars. cbn [scan_digits]. rewrite !digit_value_char by lia.
    rewrite (proj2 (Z.leb_le _ _)) by lia. do 2 f_equal. lia.
Qed.

Lemma version_no_space v : v = [] \/ (exists a b, v = str "HTTP/" ++ [a; "."%byte; b] /\ is_digit a = true /\ is_digit b = true) ->
  is_valid_http_version v = true /\ " "%byte ∉ v.
Proof.
  intros [->|(a & b & -> & Ha & Hb)]; [split; [done|set_solver]|]. change (str "HTTP/") with ["H"; "T"; "T"; "P"; "/"]%byte. split.
  { change (is_digit a && is_digit b = true). by rewrite Ha, Hb. }
  rewrite list_elem_of_In. cbn. intros Hin. repeat destruct Hin as [Hin|Hin]; try done; by rewrite Hin in *.
Qed.

Lemma digits_no_space x y z : (0 <= x < 10) /\ (0 <= y < 10) /\ (0 <= z < 10) -> " "%byte ∉ map digit_char [x; y; z].
Proof.
  intros (Hx & Hy & Hz) Hin. assert (exists v, 0 <= v < 10 /\ digit_char v = " "%byte) as (v & Hv & E) 
    by (rewrite list_elem_of_In in Hin; cbn [map In] in Hin; destruct Hin as [E|[E|[E|[]]]]; eauto).
  pose proof (digit_value_char 10 v ltac:(lia) Hv) as H. by rewrite E in H.
Qed.

Lemma status_text_accepted line version x y z reason d : status_text line version x y z reason ->
  status_line_fields line d = with_state headers (with_status version (100 * x + 10 * y + z) (match reason with Some r => r | None => reason_ d end) d).
Proof.
  intros [Hv Hd ->]. destruct (version_no_space _ Hv) as [Hok Hns]. pose proof (digits_no_space x y z Hd) as Hds.
  unfold status_line_fields. rewrite find_app_here, take_app_length, Hok by done. cbn [negb]. rewrite <-Nat.add_1_r, <-drop_drop, drop_app_length. cbn [drop]. rewrite drop_0. cbv zeta.
  set (code := map digit_char [x; y; z]) in *. assert (from_chars 10 65535 code = Some (100 * x + 10 * y + z, [])) as Hc by (apply from_chars_three; [done|by exists x, y, z; destruct Hd as (? & ? & ?)]).
  destruct reason as [r|].
  - rewrite find_app_here by done. rewrite take_app_length, Hc. cbn [length map Nat.eqb negb code]. done.
  - rewrite app_nil_r, (proj2 (find_None _ _) Hds), Hc. done.
Qed.

(** [C35] Which status lines are accepted, and what they yield: a version, a space, three digits and an optional reason after a second space, and nothing
    else; the version is of the form HTTP/d.d or, unlike the version of a request, empty.  The decoder records exactly the version, the number and the reason. *)
Theorem status_line_exact line d : state_ d <> error ->
  (state_ (status_line_fields line d) <> error <-> exists version x y z reason, status_text line version x y z reason) /\
  (forall version x y z reason, status_text line version x y z reason ->
    status_line_fields line d = with_state headers (with_status version (100 * x + 10 * y + z) (match reason with Some r => r | None => reason_ d end) d)).
Proof.
  intros Hd. split.
  - split; [|intros (version & x & y & z & reason & Ht); by rewrite (status_text_accepted _ _ _ _ _ _ d Ht)].
    unfold status_line_fields. destruct (find " " line) as [first|] eqn:Ef; [|done]. apply find_split in Ef as [El Hns]. set (version := take first line) in *. set (rest := drop (S first) line) in *.
    destruct (is_valid_http_version version) eqn:Ev; [|done]. cbn [negb]. cbv zeta. set (code := match find " " rest with Some i => take i rest | None => rest end).
    destruct (from_chars 10 65535 code) as [[number [|]]|] eqn:En; [|done|done]. destruct (length code =? 3)%nat eqn:E3; [|done]. cbn [negb]. intros _. apply Nat.eqb_eq in E3.
    apply from_chars_three in En as (x & y & z & Hx & Hy & Hz & Ec & ->); [|done]. exists version, x, y, z, (i ← find " " rest; Some (drop (S i) rest)). split; [|done|].
    + destruct version as [|c0 v0] eqn:Ev0; [by left|]. right. by apply Request.version_shape.
    + rewrite El, <-Ec. do 2 f_equal. unfold code. destruct (find " " rest) as [i|] eqn:Ei; cbn; [by apply find_split in Ei as [? _]|by rewrite app_nil_r].
  - intros *. apply status_text_accepted.
Qed.

Lemma status_line_exact_witness : state_ new_decoder <> error /\
  status_line_fields (str " 200 OK") new_decoder = with_state headers (with_status [] 200 (str "OK") new_decoder) /\
  state_ (status_line_fields (str "HTTP/1.1 20 OK") new_decoder) = error.
Proof.
  split; [discriminate|]. destruct (status_line_exact (str " 200 OK") new_decoder) as [_ H]; [discriminate|].
  split; [|vm_compute; reflexivity]. apply (H [] 2 0 0 (Some (str "OK"))). split; [by left|lia|reflexivity].
Defined.

(** Two reads of one response, cut in the payload. *)
Lemma response_parse_split_witness : reachable new_parser /\ exists r1 n1 p1 r2 n2 p2,
  parse (str "HTTP/1.1 200 OK" ++ crlf ++ str "Content-Length: 4" ++ crlf ++ crlf ++ str "ab") new_parser = Ok (r1, n1, p1) /\
  parse (str "cd") p1 = Ok (r2, n2, p2) /\
  parse ((str "HTTP/1.1 200 OK" ++ crlf ++ str "Content-Length: 4" ++ crlf ++ crlf ++ str "ab") ++ str "cd") new_parser = Ok (r2, n1 + n2, p2).
Proof. split; [constructor|]. apply response_parse_split. constructor. Defined.

(** A parser in the middle of a chunked body. *)
Lemma reachable_typed_witness : exists n p, parse (str "HTTP/1.1 200 OK" ++ crlf ++ str "Transfer-Encoding: chunked" ++ crlf ++ crlf ++ str "1f" ++ crlf ++ str "ab") (parser_set_max_headers 5 new_parser) = Ok (Request.Need_more, n, p) /\
  remaining_ (decoder_ p) = 29 /\ typed (decoder_ p).
Proof.
  assert (reachable (parser_set_max_headers 5 new_parser)) as Hr by (constructor; [constructor|unfold SIZE_MAX; lia]).
  destruct (parse _ _) as [[[r n] p]|] eqn:E; [|by vm_compute in E]. exists n, p. pose proof (reachable_typed p (reach_parse _ _ r n p Hr E)) as Ht.
  split; [|split; [|exact Ht]]; vm_compute in E; injection E as <- <- <-; reflexivity.
Defined.

Lemma buffered_line_bounded_witness :
  exists p, parse_all [str "HTTP/1.1 2"; str "00 OK"] (parser_set_max_header_size 16 new_parser) = Ok p /\ bytes_buffered (decoder_ p) <= 17.
Proof. apply (buffered_line_bounded 16). unfold SIZE_MAX. lia. Defined.

End Response.
