(* ===== verification/HttpPlan.v ===== *)
(** * Framing a response

    Models [response_head] of [src/include/elio/http/http_response_head.hpp], [prepare_response] of
    [src/include/elio/http/http_response_plan.hpp] and the class [response] of [src/include/elio/http/http_message.hpp].
    The main theorem composes the plan with the decoder: what the plan announces is what a client reads. *)

From Stdlib Require Import Strings.Byte Strings.String ZifyBool.
From S2P Require Import Prelude Str HttpCommon HttpHeaders HttpChunk HttpRequest HttpMessage HttpDecoder.

Module Plan.
Export Http.

#[local] Arguments str : simpl never.

(** ** Response heads *)

Record response_head := Head {
  status_ : Z;
  version_ : list byte;
  headers_ : Headers.headers;
  representation_length_ : option Z
}.

Definition new_head (s : Z) : response_head := Head s (str "HTTP/1.1") Headers.no_headers None.
Definition set_status s h := Head s (version_ h) (headers_ h) (representation_length_ h).
Definition set_version (v : list byte) h : result Message.message_error response_head :=
  if negb (is_valid_http_version v) then Throw Message.Invalid_version else Ok (Head (status_ h) v (headers_ h) (representation_length_ h)).
Definition on_headers (f : Headers.headers -> result Headers.header_error Headers.headers) h : result Message.message_error response_head :=
  match f (headers_ h) with
  | Throw e => Throw (Message.Header e)
  | Ok hs => Ok (Head (status_ h) (version_ h) hs (representation_length_ h))
  end.
Definition set_header (name value : list byte) := on_headers (Headers.set name value).
Definition set_content_type (type : list byte) := on_headers (Headers.set_content_type type).
Definition set_representation_length (n : option Z) h := Head (status_ h) (version_ h) (headers_ h) n.
Definition is_success h : bool := (200 <=? status_ h) && (status_ h <? 300).
Definition is_redirect h : bool := (300 <=? status_ h) && (status_ h <? 400).
Definition is_client_error h : bool := (400 <=? status_ h) && (status_ h <? 500).
Definition is_server_error h : bool := (500 <=? status_ h) && (status_ h <? 600).

(** ** Plans *)

Inductive response_body_kind := complete | streaming.
Inductive response_transfer := automatic | transfer_close_delimited.
Inductive response_framing := none | content_length | chunked | close_delimited.

#[global] Instance response_framing_eq_dec : EqDecision response_framing.
Proof. solve_decision. Defined.

Record body_description := BodyDescription { kind : response_body_kind; length_ : option Z; transfer : response_transfer }.

Record response_plan := ResponsePlan {
  header_block : list byte;
  framing : response_framing;
  expected_body_bytes : option Z;
  invoke_producer : bool;
  reusable : bool
}.

(** The digits of a Content-Length given by the caller. *)
Fixpoint plan_digits (text : list byte) (value : Z) : option Z :=
  match text with
  | [] => Some value
  | c :: text =>
      if negb (is_digit c) then None
      else
        let digit := b2z c - 48 in
        if (SIZE_MAX - digit) / 10 <? value then None else plan_digits text (u64 (value * 10 + digit))
  end.

Definition response_plan_length (text : list byte) : option Z :=
  match trim_ows text with [] => None | text => plan_digits text 0 end.

(** The loop consumes the value up to a comma; the elements are those of the list. *)
Definition response_plan_connection_close (value : list byte) : bool :=
  existsb (fun token => ascii_iequals (trim_ows token) (str "close")) (split_on "," value).

Section Prepare.
Context (order : Headers.headers -> list (list byte * list byte)).

(** [set] on the headers of the plan: the names are tokens and the values digits or words. *)
Definition put (name value : list byte) (h : Headers.headers) : Headers.headers :=
  match Headers.set name value h with Ok h' => h' | Throw _ => h end.

(** The length and framing of the body: [None] when the description is invalid. *)
Definition select_body (head : response_head) (body : body_description) (request_method : method) (version : list byte) (manual_length : option Z)
    : option (option Z * response_framing * option Z * bool) :=
  let code := status_ head in
  if bool_decide (request_method = HEAD) || (code =? 204) || (code =? 205) || (code =? 304) then
    let wire_length :=
      if code =? 205 then Some 0
      else if code =? 304 then match representation_length_ head with Some n => Some n | None => manual_length end
      else if negb (code =? 204) then match representation_length_ head with Some n => Some n | None => length_ body end
      else None in
    if negb (code =? 204) && bool_decide (is_Some manual_length) && negb (bool_decide (manual_length = wire_length)) then None
    else Some (wire_length, none, Some 0, false)
  else
    let producer := match kind body with streaming => true | complete => false end in
    match transfer body with
    | transfer_close_delimited =>
        if bool_decide (is_Some (length_ body)) || bool_decide (is_Some manual_length) then None
        else Some (None, close_delimited, length_ body, producer)
    | automatic =>
        match length_ body with
        | Some n =>
            if bool_decide (is_Some manual_length) && negb (bool_decide (manual_length = Some n)) then None
            else Some (Some n, content_length, Some n, producer)
        | None =>
            if bool_decide (is_Some manual_length) then None
            else Some (None, if streq version (str "HTTP/1.1") then chunked else close_delimited, None, producer)
        end
    end.

Definition status_text (version : list byte) (code : Z) : list byte := version ++ str " " ++ to_string code ++ str " " ++ status_reason code.

(** The header fields of the final response. *)
Definition wire_headers (source : Headers.headers) (wire_length : option Z) (framing : response_framing) (reusable : bool) (version : list byte) : Headers.headers :=
  let wire := Headers.remove (str "Content-Length") source in
  let wire := match wire_length with Some n => put (str "Content-Length") (to_string n) wire | None => wire end in
  let wire := if bool_decide (framing = chunked) then put (str "Transfer-Encoding") (str "chunked") wire else wire in
  if negb reusable then put (str "Connection") (str "close") wire
  else if streq version (str "HTTP/1.0") then put (str "Connection") (str "keep-alive") wire
  else wire.

(** What a plan decides: the version, the header fields, the framing, the body bytes expected, whether
    the producer runs and whether the connection can be used again; [None] when the error is EINVAL. *)
Record decision := Decision {
  out_version : list byte;
  out_headers : Headers.headers;
  out_framing : response_framing;
  out_expected : option Z;
  out_producer : bool;
  out_reusable : bool
}.

Definition decide_response (head : response_head) (body : body_description) (request_method : method) (request_version : list byte)
    (allow_reuse : bool) : option decision :=
  if negb (streq request_version (str "HTTP/1.0")) && negb (streq request_version (str "HTTP/1.1")) then None
  else
    let version := match version_ head with [] => request_version | v => v end in
    if negb (streq version (str "HTTP/1.0")) && negb (streq version (str "HTTP/1.1")) then None
    else
      let version := if streq request_version (str "HTTP/1.0") then str "HTTP/1.0" else version in
      if (match kind body with complete => true | streaming => false end) && negb (bool_decide (is_Some (length_ body))) then None
      else
        let code := status_ head in
        if (code <? 200) || (599 <? code) || (bool_decide (request_method = CONNECT) && (code <? 300)) then None
        else
          let source := headers_ head in
          if Headers.contains (str "Transfer-Encoding") source then None
          else
            let has_length := Headers.contains (str "Content-Length") source in
            let manual_length := response_plan_length (Headers.get (str "Content-Length") source) in
            if has_length && (negb (length (Headers.get_all (str "Content-Length") source) =? 1)%nat || negb (bool_decide (is_Some manual_length))) then None
            else
              let manual_length := if has_length then manual_length else None in
              match select_body head body request_method version manual_length with
              | None => None
              | Some (wire_length, framing, expected, producer) =>
                  let reusable := allow_reuse && negb (bool_decide (framing = close_delimited)) &&
                                  negb (response_plan_connection_close (Headers.get (str "Connection") source)) in
                  Some (Decision version (wire_headers source wire_length framing reusable version) framing expected producer reusable)
              end.

Definition prepare_response head body request_method request_version allow_reuse : option response_plan :=
  match decide_response head body request_method request_version allow_reuse with
  | None => None
  | Some c => Some (ResponsePlan (status_text (out_version c) (status_ head) ++ crlf ++ Headers.serialize (order (out_headers c)) (out_headers c) ++ crlf)
                                 (out_framing c) (out_expected c) (out_producer c) (out_reusable c))
  end.

(** ** Responses with a body *)

Record response := Response { head_ : response_head; body_ : list byte }.

Definition make_response (s : Z) (body content_type : list byte) : result Message.message_error response :=
  match set_content_type content_type (new_head s) with Throw e => Throw e | Ok h => Ok (Response h body) end.

Definition text_plain : list byte := str "text/plain".
Definition ok body content_type := make_response 200 body content_type.
Definition json body := make_response 200 body (str "application/json").
Definition html body := make_response 200 body (str "text/html").
Definition not_found body := make_response 404 body text_plain.
Definition bad_request body := make_response 400 body text_plain.
Definition internal_error body := make_response 500 body text_plain.
Definition redirect (location : list byte) (s : Z) : result Message.message_error response :=
  match set_header (str "Location") location (new_head s) with Throw e => Throw e | Ok h => Ok (Response h []) end.

Definition set_body (b : list byte) (r : response) : response := Response (head_ r) b.

Definition wire_version (h : response_head) : list byte := match version_ h with [] => str "HTTP/1.1" | v => v end.

(** Informational responses and tunnels carry no framing. *)
Definition serialize_protocol_headers (r : response) : option (list byte) :=
  let h := head_ r in
  if negb (streq (wire_version h) (str "HTTP/1.0")) && negb (streq (wire_version h) (str "HTTP/1.1")) then None
  else
    let wire := Headers.remove (str "Transfer-Encoding") (Headers.remove (str "Content-Length") (headers_ h)) in
    Some (status_text (wire_version h) (status_ h) ++ crlf ++ Headers.serialize (order wire) wire ++ crlf).

(** [None] is an exception: the framing is invalid. *)
Definition serialize (request_method : method) (r : response) : option (list byte) :=
  let h := head_ r in
  let code := status_ h in
  if ((100 <=? code) && (code <? 200)) || (bool_decide (request_method = CONNECT) && (200 <=? code) && (code <? 300))
  then serialize_protocol_headers r
  else
    match prepare_response h (BodyDescription complete (Some (zlen (body_ r))) automatic) request_method (wire_version h)
                           (Headers.keep_alive (wire_version h) (headers_ h)) with
    | None => None
    | Some plan => Some (if bool_decide (framing plan = none) then header_block plan else header_block plan ++ body_ r)
    end.

Definition from_parser (p : Response.response_parser) : result Message.message_error response :=
  let d := Response.decoder_ p in
  match set_version (Response.version_ d) (new_head (Response.status_ d)) with
  | Throw e => Throw e
  | Ok h => Ok (Response (Head (status_ h) (version_ h) (Response.headers_ d) (representation_length_ h)) (Response.body_ p))
  end.

Definition from_decoder (d : Response.response_decoder) (body : list byte) : result Message.message_error response :=
  match set_version (Response.version_ d) (new_head (Response.status_ d)) with
  | Throw e => Throw e
  | Ok h => Ok (Response (Head (status_ h) (version_ h) (Response.headers_ d) (representation_length_ h)) body)
  end.

End Prepare.

(** ** The header fields of a plan *)

(** A head whose header fields were set through the collection. *)
Definition proper_head (h : response_head) : Prop :=
  Headers.headers_ok (headers_ h) /\ exists f, Headers.represents (headers_ h) f.

Lemma put_fields name value h f : is_valid_token name = true -> is_valid_header_value value = true -> Headers.headers_ok h -> Headers.represents h f ->
  Headers.headers_ok (put name value h) /\ Headers.represents (put name value h) (Headers.update_field name [value] f).
Proof.
  intros Hn Hv Hok Hr. unfold put. destruct (Headers.set name value h) as [h'|e] eqn:E.
  - split; [by eapply Headers.set_ok|by eapply Headers.represents_set].
  - unfold Headers.set, is_valid_header_name in E. by rewrite Hn, Hv in E.
Qed.

Lemma digits_value n : 0 <= n -> is_valid_header_value (to_string n) = true /\ trim_ows (to_string n) = to_string n /\
  front_is "+" (to_string n) || front_is "-" (to_string n) = false /\ ch_cr ∉ to_string n /\ ch_lf ∉ to_string n /\ " "%byte ∉ to_string n.
Proof.
  intros Hn. assert (Forall (fun c => is_digit c = true) (to_string n)) as Hd.
  { apply to_chars_digits; [lia|done|]. intros d Hd. unfold digit_char. rewrite (proj2 (Z.ltb_lt d 10)) by lia. unfold is_digit, between. rewrite b2z_z2b_small by lia. lia. }
  pose proof (to_chars_nonempty 10 n) as Hne. fold (to_string n) in Hne.
  assert (forall c, is_digit c = false -> c ∉ to_string n) as Hex by (intros c Hc Hin; rewrite Forall_forall in Hd; apply Hd in Hin; congruence).
  split_and!; [| | |by apply Hex..].
  - unfold is_valid_header_value. apply forallb_forall. intros c Hin. rewrite Forall_forall in Hd. apply list_elem_of_In, Hd in Hin. unfold is_digit, between in Hin. lia.
  - assert (forall c, is_digit c = true -> is_ows c = false) as Hows by (by intros []).
    rewrite trim_ows_right, skip_ows_stops.
    + destruct (exists_last Hne) as (l & c & E). rewrite E. apply trim_right_end, Hows. rewrite E in Hd. apply Forall_app in Hd as [_ Hd]. by apply Forall_cons in Hd as [? _].
    + destruct (to_string n) as [|c l]; [done|]. cbn. apply Forall_cons in Hd as [Hc _]. by apply Hows.
  - destruct (to_string n) as [|c l]; [done|]. apply Forall_cons in Hd as [Hc _]. cbn. by destruct c.
Qed.

Lemma content_length_written h n : Headers.get (str "Content-Length") h = to_string n -> 0 <= n <= SIZE_MAX -> Headers.content_length h = Some n.
Proof.
  intros Hg Hn. destruct (digits_value n) as (_ & Ht & Hf & _); [lia|]. unfold Headers.content_length. rewrite Hg, Ht, Hf, (proj2 (streq_false _ [])) by apply to_chars_nonempty.
  pose proof (from_chars_to_chars 10 ltac:(lia) SIZE_MAX n [] Hn ltac:(unfold SIZE_MAX in Hn; lia) I) as Hc. rewrite app_nil_r in Hc. unfold to_string. by rewrite Hc.
Qed.

(** The field lines of [wire_headers]. *)
Definition wire_fields (f : Headers.fields) (wire_length : option Z) (framing : response_framing) (reusable : bool) (version : list byte) : Headers.fields :=
  let f := Headers.update_field (str "Content-Length") [] f in
  let f := match wire_length with Some n => Headers.update_field (str "Content-Length") [to_string n] f | None => f end in
  let f := if bool_decide (framing = chunked) then Headers.update_field (str "Transfer-Encoding") [str "chunked"] f else f in
  if negb reusable then Headers.update_field (str "Connection") [str "close"] f
  else if streq version (str "HTTP/1.0") then Headers.update_field (str "Connection") [str "keep-alive"] f
  else f.

Lemma wire_headers_fields h f wire_length framing reusable version : Headers.headers_ok h -> Headers.represents h f ->
  match wire_length with Some n => 0 <= n | None => True end ->
  Headers.headers_ok (wire_headers h wire_length framing reusable version) /\
  Headers.represents (wire_headers h wire_length framing reusable version) (wire_fields f wire_length framing reusable version).
Proof.
  intros Hok Hr Hlen. unfold wire_headers, wire_fields.
  assert (forall b name value h f, is_valid_token name = true -> is_valid_header_value value = true -> Headers.headers_ok h /\ Headers.represents h f ->
    Headers.headers_ok (if b : bool then put name value h else h) /\ Headers.represents (if b then put name value h else h) (if b then Headers.update_field name [value] f else f)) as Hput
    by (intros [] name value h0 f0 Hn Hv [H1 H2]; [by apply put_fields|done]).
  assert (Headers.headers_ok (Headers.remove (str "Content-Length") h) /\
    Headers.represents (Headers.remove (str "Content-Length") h) (Headers.update_field (str "Content-Length") [] f)) as H1.
  { split; [by apply Headers.remove_ok|]. pose proof (Headers.header_exec_refines (Headers.Remove (str "Content-Length")) h f Hr) as (f' & Hf' & Hr').
    by injection Hf' as <-. }
  set (h1 := Headers.remove (str "Content-Length") h) in *. set (f1 := Headers.update_field (str "Content-Length") [] f) in *.
  assert (Headers.headers_ok (match wire_length with Some n => put (str "Content-Length") (to_string n) h1 | None => h1 end) /\
    Headers.represents (match wire_length with Some n => put (str "Content-Length") (to_string n) h1 | None => h1 end)
      (match wire_length with Some n => Headers.update_field (str "Content-Length") [to_string n] f1 | None => f1 end)) as H2.
  { destruct wire_length as [n|]; [|done]. destruct H1. apply put_fields; try done. by apply digits_value. }
  apply (Hput (bool_decide (framing = chunked)) (str "Transfer-Encoding") (str "chunked")) in H2; [|done..].
  destruct reusable; cbn [negb]; [by apply Hput|]. destruct H2. by apply put_fields.
Qed.

(** The framing fields on the wire are those of the plan. *)
Lemma wire_headers_framing h f wire_length framing reusable version :
  Headers.headers_ok h -> Headers.represents h f -> Headers.contains (str "Transfer-Encoding") h = false ->
  match wire_length with Some n => 0 <= n | None => True end ->
  let w := wire_headers h wire_length framing reusable version in
  Headers.contains (str "Content-Length") w = bool_decide (is_Some wire_length) /\
  (forall n, wire_length = Some n -> Headers.get (str "Content-Length") w = to_string n) /\
  Headers.contains (str "Transfer-Encoding") w = bool_decide (framing = chunked) /\
  (framing = chunked -> Headers.get (str "Transfer-Encoding") w = str "chunked").
Proof.
  intros Hok Hr Hte Hlen w. destruct (wire_headers_fields h f wire_length framing reusable version Hok Hr Hlen) as [_ Hw]. fold w in Hw.
  destruct (Headers.represents_get _ _ (str "Transfer-Encoding") Hr) as (_ & _ & E). rewrite E in Hte. apply bool_decide_eq_false in Hte.
  destruct (Headers.represents_get _ _ (str "Content-Length") Hw) as (-> & _ & ->), (Headers.represents_get _ _ (str "Transfer-Encoding") Hw) as (-> & _ & ->).
  set (te := lowercase (str "Transfer-Encoding")) in *. set (cl := lowercase (str "Content-Length")).
  assert (wire_fields f wire_length framing reusable version cl = match wire_length with Some n => [to_string n] | None => [] end) as Ecl.
  { unfold wire_fields, Headers.update_field. destruct reusable, wire_length, (streq version (str "HTTP/1.0")), (bool_decide (framing = chunked)); reflexivity. }
  assert (wire_fields f wire_length framing reusable version te = if bool_decide (framing = chunked) then [str "chunked"] else f te) as Ete.
  { unfold wire_fields, Headers.update_field. destruct reusable, wire_length, (streq version (str "HTTP/1.0")), (bool_decide (framing = chunked)); reflexivity. }
  assert (f te = []) as Hnil by (destruct (f te); [done|by destruct Hte]).
  unfold Headers.combined. fold te cl. rewrite Ecl, Ete, Hnil. split_and!.
  - destruct wire_length; [by rewrite !bool_decide_true by eauto|done].
  - by intros n ->.
  - case_bool_decide; done.
  - intros ->. rewrite bool_decide_true by done. reflexivity.
Qed.

(** ** The status line *)

(** Every code of a response, checked by evaluation. *)
Definition status_ok (code : Z) : bool :=
  (length (to_string code) =? 3)%nat && forallb (fun c => negb (Byte.eqb c ch_cr) && negb (Byte.eqb c ch_lf)) (status_reason code) &&
  (length (status_reason code) <=? 100)%nat.

Lemma any_status_ok code : 100 <= code <= 599 -> status_ok code = true.
Proof.
  intros Hc. assert (forallb status_ok (map Z.of_nat (seq 100 500)) = true) as H by (vm_compute; reflexivity).
  rewrite forallb_forall in H. apply H, in_map_iff. exists (Z.to_nat code). split; [lia|]. apply in_seq. lia.
Qed.

Lemma run_status_line version code rest d :
  Response.state_ d = Response.status_line -> Response.line_ d = [] -> 200 <= Response.max_header_size_ d ->
  version = str "HTTP/1.0" \/ version = str "HTTP/1.1" -> 100 <= code <= 599 ->
  Response.run (status_text version code ++ crlf ++ rest) d =
  Response.run rest (Response.with_state Response.headers (Response.with_status version code (status_reason code) d)).
Proof.
  intros Hs Hl Hm Hv Hc. pose proof (any_status_ok code Hc) as Hok. unfold status_ok in Hok. rewrite !andb_true_iff in Hok. destruct Hok as [[H3 Hr] Hlen].
  apply Nat.eqb_eq in H3. apply Nat.leb_le in Hlen. rewrite forallb_forall in Hr. destruct (digits_value code) as (_ & _ & _ & Hd1 & Hd2 & Hd3); [lia|].
  assert (forall c, c = ch_cr \/ c = ch_lf -> c ∉ status_text version code) as Hnl.
  { intros c Hc' Hin. unfold status_text in Hin. rewrite !elem_of_app in Hin. change (str " ") with [" "%byte] in Hin. rewrite !list_elem_of_singleton in Hin.
    destruct Hin as [Hin|[Hin|[Hin|[Hin|Hin]]]]; [|by destruct Hc'; subst|by destruct Hc'; subst|by destruct Hc'; subst|].
    - rewrite list_elem_of_In in Hin. destruct Hv as [-> | ->], Hc' as [-> | ->]; cbn in Hin; by repeat destruct Hin as [Hin|Hin].
    - rewrite list_elem_of_In in Hin. apply Hr in Hin. by destruct Hc' as [-> | ->]. }
  assert (forall d', Response.process_line (status_text version code) d = Ok d' -> Response.run (status_text version code ++ crlf ++ rest) d =
    Response.run rest (Response.after_line false d')) as Hline.
  { intros d' Hp. rewrite (Response.run_line _ rest d (Response.with_line (status_text version code ++ [ch_cr]) d')).
    - by rewrite Hs, bool_decide_false.
    - by rewrite Hs.
    - done.
    - by apply Hnl; left.
    - by apply Hnl; right.
    - unfold status_text, zlen. rewrite !length_app. change (length (str " ")) with 1%nat.
      assert (length version = 8%nat) by (by destruct Hv as [-> | ->]). lia.
    - by rewrite Response.process_line_with_line, Hp. }
  rewrite (Hline (Response.with_state Response.headers (Response.with_status version code (status_reason code) d))).
  - unfold Response.after_line. replace (Response.has_error _) with false by (unfold Response.has_error; cbn; by rewrite bool_decide_false).
    destruct d; cbn in *; by subst.
  - unfold Response.process_line. rewrite Hs. unfold Response.status_line_fields, status_text. change (str " ") with [" "%byte]. cbn [app].
    assert (" "%byte ∉ version /\ is_valid_http_version version = true) as [Hns Hvv].
    { destruct Hv as [-> | ->]; (split; [|reflexivity]); rewrite list_elem_of_In; cbn; intros Hin; by repeat destruct Hin as [Hin|Hin]. }
    rewrite find_app_here by done. rewrite take_app_length, Hvv. cbn [negb]. rewrite <-Nat.add_1_r, <-drop_drop, drop_app_length. cbn [drop]. rewrite drop_0.
    rewrite find_app_here by done. cbv zeta. rewrite take_app_length, <-(Nat.add_1_r (length (to_string code))), <-drop_drop, drop_app_length. cbn [drop]. rewrite drop_0.
    pose proof (from_chars_to_chars 10 ltac:(lia) 65535 code [] ltac:(lia) ltac:(lia) I) as Hf. rewrite app_nil_r in Hf. unfold to_string in *. rewrite Hf, H3. done.
Qed.

(** ** What a plan decides *)

Definition bodyless (m : method) (code : Z) : bool := bool_decide (m = HEAD) || (code =? 204) || (code =? 205) || (code =? 304).

Definition in_range (n : option Z) : Prop := match n with Some n => 0 <= n <= SIZE_MAX | None => True end.

(** The framing, and the length that is announced. *)
Record decided (head : response_head) (body : body_description) (m : method) (c : decision) (wire_length : option Z) : Prop := {
  dc_version : out_version c = str "HTTP/1.0" \/ out_version c = str "HTTP/1.1";
  dc_status : 200 <= status_ head <= 599;
  dc_tunnel : bool_decide (m = CONNECT) && (status_ head <? 300) = false;
  dc_source : Headers.contains (str "Transfer-Encoding") (headers_ head) = false;
  dc_headers : out_headers c = wire_headers (headers_ head) wire_length (out_framing c) (out_reusable c) (out_version c);
  dc_length : in_range wire_length;
  dc_bodyless : bodyless m (status_ head) = bool_decide (out_framing c = none);
  dc_framing : match out_framing c with
               | none => True
               | content_length => is_Some wire_length /\ out_expected c = wire_length
               | chunked | close_delimited => wire_length = None
               end
}.

Lemma plan_digits_range text v n : 0 <= v <= SIZE_MAX -> plan_digits text v = Some n -> 0 <= n <= SIZE_MAX.
Proof.
  revert v. induction text as [|c text IH]; intros v Hv H; cbn in H; [by simplify_eq|]. case_match; [done|]. case_match; [done|].
  eapply IH; [|done]. unfold u64, uwrap, SIZE_MAX. pose proof (Z.mod_pos_bound (v * 10 + (b2z c - 48)) (2 ^ 64) ltac:(done)). lia.
Qed.

Lemma select_body_decided head body m version manual wl framing expected producer :
  in_range (representation_length_ head) -> in_range (length_ body) -> in_range manual ->
  select_body head body m version manual = Some (wl, framing, expected, producer) ->
  in_range wl /\ bodyless m (status_ head) = bool_decide (framing = none) /\
  match framing with none => True | content_length => is_Some wl /\ expected = wl | chunked | close_delimited => wl = None end.
Proof.
  intros Hr Hl Hm. unfold select_body. fold (bodyless m (status_ head)). destruct (bodyless m (status_ head)).
  - case_match; [done|]. intros [= <- <- <- <-]. split; [|done]. repeat case_match; try done; subst; try (unfold SIZE_MAX; cbn; lia).
  - destruct (transfer body).
    + destruct (length_ body) as [n|]; (case_match; [done|]); intros [= <- <- <- <-].
      * split_and!; eauto.
      * split; [done|]. by destruct (streq version (str "HTTP/1.1")).
    + case_match; [done|]. by intros [= <- <- <- <-].
Qed.

Lemma decide_response_decided head body m reqv reuse c :
  in_range (representation_length_ head) -> in_range (length_ body) ->
  decide_response head body m reqv reuse = Some c -> exists wl, decided head body m c wl.
Proof.
  intros Hr Hl. unfold decide_response. destruct (negb (streq reqv (str "HTTP/1.0")) && _) eqn:E1; [done|]. cbv zeta.
  set (v := match version_ head with [] => reqv | _ => _ end). destruct (negb (streq v (str "HTTP/1.0")) && _) eqn:E2; [done|]. case_match; [done|].
  destruct ((status_ head <? 200) || (599 <? status_ head) || _) eqn:E3; [done|]. destruct (Headers.contains (str "Transfer-Encoding") (headers_ head)) eqn:E4; [done|].
  destruct (Headers.contains (str "Content-Length") (headers_ head) && _); [done|]. set (manual := if Headers.contains (str "Content-Length") (headers_ head) then _ else None).
  destruct (select_body _ _ _ _ manual) as [[[[wl framing] expected] producer]|] eqn:E5; [|done]. intros [= <-]. exists wl.
  assert (in_range manual) as Hman.
  { unfold manual. case_if; [|done]. unfold response_plan_length. destruct (trim_ows _); [done|]. destruct (plan_digits _ 0) eqn:E; [|done].
    apply plan_digits_range in E; [done|unfold SIZE_MAX; lia]. }
  destruct (select_body_decided _ _ _ _ _ _ _ _ _ Hr Hl Hman E5) as (Hwl & Hb & Hf).
  apply orb_false_iff in E3 as [[E3 E3']%orb_false_iff E3'']. constructor; cbn [out_version out_headers out_framing out_reusable out_expected]; try done.
  - destruct (streq reqv (str "HTTP/1.0")); [by left|]. apply andb_false_iff in E2 as [E2|E2]; apply negb_false_iff, streq_true in E2; auto.
  - clear -E3 E3'. lia.
Qed.

(** ** From the plan to the client *)

(** The bytes of a body, in the pieces the producer writes. *)
Definition wire_body (f : response_framing) (pieces : list (list byte)) : list byte :=
  match f with
  | none => []
  | content_length | close_delimited => concat pieces
  | chunked => flat_map Response.chunk pieces ++ Response.last_chunk
  end.

(** Pieces that agree with the plan: the announced length, or chunks that are neither empty nor too large. *)
Definition agreeing (c : decision) (pieces : list (list byte)) : Prop :=
  match out_framing c with
  | none | close_delimited => True
  | content_length => out_expected c = Some (zlen (concat pieces))
  | chunked => Forall (fun data => data <> [] /\ zlen data <= Chunk.kMaxChunkSize) pieces
  end.

(** The header lines are within the default limits of the client. *)
Definition within_limits (order : Headers.headers -> list (list byte * list byte)) (h : Headers.headers) : Prop :=
  zlen (Headers.lines (order h) h) <= 100 /\ Forall (fun e => zlen (e.1 ++ str ": " ++ e.2) <= 8192) (Headers.lines (order h) h).

(** The response as the decoder has it. *)
Record received (code : Z) (version : list byte) (h : Headers.headers) (d : Response.response_decoder) : Prop := {
  rc_status : Response.status_ d = code;
  rc_version : Response.version_ d = version;
  rc_handoff : Response.handoff_ d = false;
  rc_fields : forall name, Headers.get name (Response.headers_ d) = trim_ows (Headers.get name h) /\
                           Headers.contains name (Response.headers_ d) = Headers.contains name h
}.

Definition client (m : method) : Response.response_decoder := Response.set_request_method m Response.new_decoder.

(** No final response is a hand-over of the protocol; the responses without a body are those of the plan. *)
Lemma select_framing_final m d : Response.request_method_ d = Some m -> 200 <= Response.status_ d <= 599 ->
  bool_decide (m = CONNECT) && (Response.status_ d <? 300) = false ->
  let e := Response.with_flags (Response.headers_complete_ d) (Response.close_delimited_ d) false d in
  let has_te := Headers.contains (str "Transfer-Encoding") (Response.headers_ d) in
  let has_cl := Headers.contains (str "Content-Length") (Response.headers_ d) in
  Response.select_framing d =
    if bodyless m (Response.status_ d) then Response.with_state Response.complete e
    else if has_te && has_cl then Response.fail Chunk.Both_framing_headers e
    else if has_te then
      if negb (ascii_iequals (trim_ows (Headers.get (str "Transfer-Encoding") (Response.headers_ d))) (str "chunked"))
      then Response.fail Chunk.Unsupported_transfer_encoding e else Response.with_state Response.chunk_size e
    else if has_cl then
      match Headers.content_length (Response.headers_ d) with
      | None => Response.fail Chunk.Bad_Content_Length e
      | Some n => Response.with_state (if n =? 0 then Response.complete else Response.fixed_body) (Response.with_remaining n e)
      end
    else Response.with_state Response.close_body (Response.with_flags (Response.headers_complete_ d) true false e).
Proof.
  intros Hm Hs Ht. cbv zeta. unfold Response.select_framing, Response.is_method. cbv zeta.
  assert (bool_decide (Response.request_method_ d = Some CONNECT) && (200 <=? Response.status_ d) && (Response.status_ d <? 300) = false) as Hc.
  { rewrite Hm. rewrite (bool_decide_ext (Some m = Some CONNECT) (m = CONNECT)) by (split; congruence). rewrite <-andb_assoc, (andb_comm (200 <=? _)), andb_assoc, Ht. done. }
  rewrite Hc, (proj2 (Z.eqb_neq (Response.status_ d) 101)) by lia. cbn [orb Response.request_method_ Response.with_flags Response.status_ Response.headers_].
  replace (bool_decide (Response.request_method_ d = Some HEAD) || status_forbids_response_body (Response.status_ d)) with (bodyless m (Response.status_ d)); [done|].
  rewrite Hm. rewrite (bool_decide_ext (Some m = Some HEAD) (m = HEAD)) by (split; congruence). unfold bodyless, status_forbids_response_body.
  rewrite <-!orb_assoc. f_equal. rewrite (proj2 (Z.ltb_ge _ 200)), andb_false_r by lia. done.
Qed.

(** The decoder after the header block: the framing it selects is that of the plan. *)
Lemma run_head order head body m c wl rest :
  (forall h, order h ≡ₚ Headers.headers_ h) -> proper_head head -> decided head body m c wl -> within_limits order (out_headers c) ->
  exists d, Response.run (status_text (out_version c) (status_ head) ++ crlf ++ Headers.serialize (order (out_headers c)) (out_headers c) ++ crlf ++ rest) (client m) =
            Response.run rest d /\
    received (status_ head) (out_version c) (out_headers c) d /\ Response.line_ d = [] /\ Response.max_header_size_ d = 8192 /\
    match out_framing c with
    | none => Response.state_ d = Response.complete
    | content_length => exists n, wl = Some n /\ Response.state_ d = (if n =? 0 then Response.complete else Response.fixed_body) /\ Response.remaining_ d = n
    | chunked => Response.state_ d = Response.chunk_size
    | close_delimited => Response.state_ d = Response.close_body
    end.
Proof.
  intros Ho [Hok [f Hf]] [Hv Hst Htun Hte Hh Hlen Hbl Hfr] [Hcount Hlines].
  rewrite run_status_line by (done || (cbn; lia) || lia). set (d1 := Response.with_state _ _).
  assert (match wl with Some n => 0 <= n | None => True end) as Hpos by (destruct wl; [apply Hlen|done]).
  destruct (wire_headers_fields (headers_ head) f wl (out_framing c) (out_reusable c) (out_version c) Hok Hf Hpos) as [Hok' Hf'].
  destruct (wire_headers_framing (headers_ head) f wl (out_framing c) (out_reusable c) (out_version c) Hok Hf Hte Hpos) as (Hcl & Hget & Htew & Hgete).
  rewrite <-Hh in *. set (w := out_headers c) in *. set (g := wire_fields _ _ _ _ _) in *. rewrite Headers.serialize_lines. set (l := Headers.lines (order w) w) in *.
  destruct (Response.run_header_block l (crlf ++ rest) d1 Headers.no_fields []) as (h2 & f2 & -> & Hr2 & Hf2); try done.
  { cbn. unfold Response.is_method. cbn. apply andb_false_iff in Htun. rewrite <-andb_assoc. apply andb_false_iff.
    destruct Htun as [E|E]; [left; apply bool_decide_eq_false in E; apply bool_decide_false; congruence|right; lia]. }
  { pose proof (Message.lines_valid (order w) w Hok' (Ho w)) as Hval. rewrite Forall_forall in Hval, Hlines |- *. intros e He. destruct (Hval e He). split_and!; try done. by apply Hlines. }
  { unfold Headers.one_length. cbn [app]. unfold l. rewrite (Headers.fields_of_lines (order w) w g) by done.
    change (ascii_iequals (str "Content-Length") (str "Set-Cookie")) with false. clear. destruct (g _); cbn; lia. }
  pose proof (fun name => Message.received_field (order w) w g h2 f2 name Hok' Hf' (Ho w) Hr2 Hf2) as Hfield.
  set (d2 := Response.with_header h2 _ d1).
  assert (Response.process_line [] d2 = Ok (Response.select_framing d2)) as Hp by done. assert (0 <= Response.max_header_size_ d2) as Hlim by done.
  rewrite (Response.run_empty_line rest d2 _ eq_refl eq_refl Hlim Hp). rewrite bool_decide_true by done.
  assert (exists s r cd, Response.select_framing d2 = Response.with_state s (Response.with_remaining r (Response.with_flags false cd false d2)) /\ s <> Response.error /\
    match out_framing c with
    | none => s = Response.complete
    | content_length => exists n, wl = Some n /\ s = (if n =? 0 then Response.complete else Response.fixed_body) /\ r = n
    | chunked => s = Response.chunk_size
    | close_delimited => s = Response.close_body
    end) as (s & r & cd & -> & Hs & Hfs).
  { rewrite (select_framing_final m d2 eq_refl Hst Htun). cbv zeta. change (Response.headers_ d2) with h2. change (Response.status_ d2) with (status_ head).
    rewrite Hbl. destruct (Hfield (str "Transfer-Encoding")) as (Eg1 & -> & _), (Hfield (str "Content-Length")) as (Eg2 & -> & _). rewrite Htew, Hcl, Eg1.
    clear -Hfr Hget Hgete Hlen Eg2. destruct (out_framing c).
    - rewrite (bool_decide_true (none = none)) by done. by exists Response.complete, 0, false.
    - destruct Hfr as [[n ->] _]. rewrite (bool_decide_false (content_length = none)), (bool_decide_false (content_length = chunked)), (bool_decide_true (is_Some (Some n))) by (done || eauto).
      cbn [andb]. rewrite (content_length_written h2 n) by (apply Hlen || (rewrite Eg2, (Hget n eq_refl); apply digits_value, Hlen)).
      exists (if n =? 0 then Response.complete else Response.fixed_body), n, false. split; [done|]. split; [by case_if|]. by exists n.
    - subst wl. rewrite (bool_decide_false (chunked = none)), (bool_decide_true (chunked = chunked)), Hgete by done. by exists Response.chunk_size, 0, false.
    - subst wl. rewrite (bool_decide_false (close_delimited = none)), (bool_decide_false (close_delimited = chunked)) by done. by exists Response.close_body, 0, true. }
  eexists. split; [reflexivity|]. unfold Response.after_line.
  replace (Response.has_error _) with false by (unfold Response.has_error; cbn; by rewrite bool_decide_false).
  split; [constructor; [done..|]; intros name; destruct (Hfield name) as (? & ? & _); done|]. split; [done|]. split; [done|].
  destruct (out_framing c); done.
Qed.

(** A response read to its end: nothing is pending, the rest of the input is left. *)
Definition delivered (head : response_head) (c : decision) (pieces : list (list byte)) (rest : list byte) (p : Response.response_parser) : Prop :=
  received (status_ head) (out_version c) (out_headers c) (Response.decoder_ p) /\
  Response.body_ p = (if bool_decide (out_framing c = none) then [] else concat pieces) /\ Response.buffer_ p = rest /\ Response.line_ (Response.decoder_ p) = [].

(** The run of the decoder over the whole response. *)
Lemma run_response order head body m c wl pieces rest :
  (forall h, order h ≡ₚ Headers.headers_ h) -> proper_head head -> decided head body m c wl -> within_limits order (out_headers c) ->
  agreeing c pieces -> (out_framing c = close_delimited -> rest = []) ->
  let block := status_text (out_version c) (status_ head) ++ crlf ++ Headers.serialize (order (out_headers c)) (out_headers c) ++ crlf in
  exists d, Response.run ((block ++ wire_body (out_framing c) pieces) ++ rest) (client m) =
      (d, if bool_decide (out_framing c = none) then [] else concat pieces, rest) /\
    Response.state_ d = (if bool_decide (out_framing c = close_delimited) then Response.close_body else Response.complete) /\
    received (status_ head) (out_version c) (out_headers c) d /\ Response.line_ d = [].
Proof.
  intros Ho Hh Hd Hlim Hag Hrest block. destruct (run_head order head body m c wl (wire_body (out_framing c) pieces ++ rest) Ho Hh Hd Hlim) as (d & Hrun & Hrec & Hl & Hmax & Hst).
  unfold block. rewrite <-!app_assoc, Hrun. clear Hrun block. unfold agreeing, wire_body in *. pose proof (dc_length _ _ _ _ _ Hd) as Hrange. pose proof (dc_framing _ _ _ _ _ Hd) as Hfr.
  destruct (out_framing c).
  - exists d. rewrite (bool_decide_true (none = none)), (bool_decide_false (none = close_delimited)) by done. split; [|done]. cbn [app].
    apply (Response.run_terminal rest d (if Response.handoff_ d then Response.Protocol_handoff else Response.Message_complete)). unfold Response.terminal. by rewrite Hst.
  - rewrite (bool_decide_false (content_length = none)), (bool_decide_false (content_length = close_delimited)) by done.
    destruct Hst as (n & -> & Hst & Hrem). destruct Hfr as [_ Hexp]. rewrite Hexp in Hag. injection Hag as ->. cbn in Hrange.
    destruct (concat pieces) as [|b bytes] eqn:Eb.
    + exists d. split; [|by rewrite Hst]. cbn [app]. apply (Response.run_terminal rest d (if Response.handoff_ d then Response.Protocol_handoff else Response.Message_complete)).
      unfold Response.terminal. by rewrite Hst.
    + rewrite (proj2 (Z.eqb_neq _ _)) in Hst by (unfold zlen; cbn; lia). rewrite Response.run_fixed by (done || apply Hrange). eexists. split; [done|]. split; [done|].
      split; [|done]. by destruct Hrec.
  - rewrite (bool_decide_false (chunked = none)), (bool_decide_false (chunked = close_delimited)) by done.
    rewrite <-app_assoc, Response.run_chunks by (done || lia). eexists. split; [done|]. split; [done|]. split; [|done]. by destruct Hrec.
  - rewrite (bool_decide_false (close_delimited = none)), (bool_decide_true (close_delimited = close_delimited)) by done.
    rewrite (Hrest eq_refl), app_nil_r, Response.run_close by done. exists d. done.
Qed.

(** A client reads [wire], and what follows it, as one complete response. *)
Definition client_reads (m : method) (f : response_framing) (wire rest : list byte) (p : Response.response_parser) : Prop :=
  match f with
  | close_delimited => exists n q, Response.parse wire (Response.parser_set_request_method m Response.new_parser) = Ok (Request.Need_more, n, q) /\
                                   Response.parser_finish_eof q = Ok (Request.Complete, 0, p)
  | _ => Response.parse (wire ++ rest) (Response.parser_set_request_method m Response.new_parser) = Ok (Request.Complete, zlen wire, p)
  end.

Lemma response_read order head body m c wl pieces rest :
  (forall h, order h ≡ₚ Headers.headers_ h) -> proper_head head -> decided head body m c wl -> within_limits order (out_headers c) -> agreeing c pieces ->
  (out_framing c = close_delimited -> rest = []) ->
  let block := status_text (out_version c) (status_ head) ++ crlf ++ Headers.serialize (order (out_headers c)) (out_headers c) ++ crlf in
  exists p, delivered head c pieces rest p /\ client_reads m (out_framing c) (block ++ wire_body (out_framing c) pieces) rest p.
Proof.
  intros Ho Hh Hd Hlim Hag Hrest block.
  destruct (run_response order head body m c wl pieces rest Ho Hh Hd Hlim Hag Hrest) as (d & Hrun & Hst & Hrec & Hline). fold block in Hrun.
  set (wire := block ++ wire_body (out_framing c) pieces) in *.
  pose proof (Response.response_parse_runs (wire ++ rest) (Response.parser_set_request_method m Response.new_parser)) as Hp.
  cbn [Response.buffer_ Response.decoder_ Response.parser_set_request_method Response.on_decoder Response.new_parser app Response.body_] in Hp.
  fold (client m) in Hp. rewrite Hrun in Hp. specialize (Hp ltac:(by intros [?|?])).
  set (bytes := if bool_decide (out_framing c = none) then [] else concat pieces) in *.
  assert (Response.bytes_remaining (Response.parser_set_request_method m Response.new_parser) + zlen (wire ++ rest) - Response.bytes_remaining (Response.Parser d bytes rest) = zlen wire) as Hz.
  { unfold Response.bytes_remaining, Response.bytes_buffered. cbn. rewrite Hline. unfold zlen. rewrite length_app. cbn. lia. }
  destruct (decide (out_framing c = close_delimited)) as [Ef|Ef].
  - rewrite bool_decide_true in Hst by done. exists (Response.Parser (Response.with_state Response.complete d) bytes rest).
    split; [split; [by destruct Hrec|done]|].
    assert (exists n q, Response.parse wire (Response.parser_set_request_method m Response.new_parser) = Ok (Request.Need_more, n, q) /\
      Response.parser_finish_eof q = Ok (Request.Complete, 0, Response.Parser (Response.with_state Response.complete d) bytes rest)) as Hok.
    { rewrite (Hrest Ef), app_nil_r in Hp. do 2 eexists. split.
      - rewrite Hp. unfold Response.result_kind, Response.has_error, Response.is_complete. rewrite Hst. reflexivity.
      - unfold Response.parser_finish_eof, Response.finish_eof. cbn. rewrite Hst, (Hrest Ef). reflexivity. }
    unfold client_reads. by destruct (out_framing c).
  - rewrite bool_decide_false in Hst by done. exists (Response.Parser d bytes rest). split; [done|].
    assert (Response.parse (wire ++ rest) (Response.parser_set_request_method m Response.new_parser) = Ok (Request.Complete, zlen wire, Response.Parser d bytes rest)) as Hok.
    { rewrite Hp, Hz. unfold Response.result_kind, Response.has_error, Response.is_complete. rewrite Hst. reflexivity. }
    unfold client_reads. destruct (out_framing c); done.
Qed.

(** [C23] What a server prepares is what a client reads.  For every description that is accepted, of a head built through the collection whose field lines are within the default limits of the client (at most 100, of at most 8192
    bytes each), and every body that agrees with the plan (of the announced length, or in chunks of 1 byte to 1 GiB), the header block of the
    plan followed by the body in the framing of the plan (the exact bytes, chunks, bytes until the connection closes, or
    nothing for HEAD and the statuses without a body) is decoded as a complete response with the same status, version and
    header fields and the body that was produced, and what follows on the connection is left untouched. *)
Theorem response_end_to_end order head body m reqv reuse c pieces rest :
  (forall h, order h ≡ₚ Headers.headers_ h) -> proper_head head -> in_range (representation_length_ head) -> in_range (length_ body) ->
  decide_response head body m reqv reuse = Some c -> within_limits order (out_headers c) -> agreeing c pieces ->
  (out_framing c = close_delimited -> rest = []) ->
  exists plan p, prepare_response order head body m reqv reuse = Some plan /\ framing plan = out_framing c /\
    let wire := header_block plan ++ wire_body (framing plan) pieces in
    delivered head c pieces rest p /\
    match framing plan with
    | close_delimited => exists n q, Response.parse wire (Response.parser_set_request_method m Response.new_parser) = Ok (Request.Need_more, n, q) /\
                                     Response.parser_finish_eof q = Ok (Request.Complete, 0, p)
    | _ => Response.parse (wire ++ rest) (Response.parser_set_request_method m Response.new_parser) = Ok (Request.Complete, zlen wire, p)
    end.
Proof.
  intros Ho Hh Hr Hl Hc Hlim Hag Hrest. destruct (decide_response_decided _ _ _ _ _ _ Hr Hl Hc) as [wl Hd]. unfold prepare_response. rewrite Hc.
  destruct (response_read order head body m c wl pieces rest Ho Hh Hd Hlim Hag Hrest) as (p & Hdel & Hreads). eexists _, p. split; [reflexivity|]. done.
Qed.

(** A page with a text body of unknown length, sent to an HTTP/1.1 client. *)
Definition page : response_head := Eval vm_compute in match set_content_type text_plain (new_head 200) with Ok h => h | Throw _ => new_head 200 end.
Definition page_body : body_description := BodyDescription streaming None automatic.
Definition page_decision : decision :=
  Eval vm_compute in match decide_response page page_body GET (str "HTTP/1.1") true with Some c => c | None => Decision [] Headers.no_headers none None false false end.

Lemma page_proper : proper_head page.
Proof.
  assert (Headers.set (str "Content-Type") text_plain Headers.no_headers = Ok (headers_ page)) as E by (vm_compute; reflexivity).
  split; [apply (Headers.set_ok _ _ _ _ Headers.headers_ok_empty E)|]. eexists. eapply (Headers.represents_set Headers.no_headers Headers.no_fields); [by intros name|exact E].
Qed.

Lemma response_end_to_end_witness :
  decide_response page page_body GET (str "HTTP/1.1") true = Some page_decision /\ out_framing page_decision = chunked /\
  exists plan p, prepare_response Headers.headers_ page page_body GET (str "HTTP/1.1") true = Some plan /\ framing plan = chunked /\
    let wire := header_block plan ++ wire_body (framing plan) [str "hello "; str "world"] in
    delivered page page_decision [str "hello "; str "world"] (str "HTTP") p /\
    match framing plan with
    | close_delimited => exists n q, Response.parse wire (Response.parser_set_request_method GET Response.new_parser) = Ok (Request.Need_more, n, q) /\
                                     Response.parser_finish_eof q = Ok (Request.Complete, 0, p)
    | _ => Response.parse (wire ++ str "HTTP") (Response.parser_set_request_method GET Response.new_parser) = Ok (Request.Complete, zlen wire, p)
    end.
Proof.
  split; [vm_compute; reflexivity|]. split; [reflexivity|].
  apply (response_end_to_end Headers.headers_ page page_body GET (str "HTTP/1.1") true page_decision [str "hello "; str "world"] (str "HTTP")).
  - done.
  - apply page_proper.
  - exact I.
  - exact I.
  - vm_compute; reflexivity.
  - split; [vm_compute; done|]. vm_compute. repeat constructor; done.
  - repeat constructor; vm_compute; done.
  - done.
Defined.

End Plan.
