(* ===== verification/Base64.v ===== *)
(** * Base64, as the WebSocket handshake uses it

    Models the encoder and the two decoders of [src/include/elio/http/websocket_handshake.hpp], and the test of
    Sec-WebSocket-Key.  The strict decoder accepts exactly what the encoder writes. *)

From Stdlib Require Import Strings.Byte Strings.String ZifyBool.
From S2P Require Import Prelude Str.

Module Base64.

(** ** Encoding *)

Definition table : list byte := str "ABCDEFGHIJKLMNOPQRSTUVWXYZabcdefghijklmnopqrstuvwxyz0123456789+/".

(** [table[v]]. *)
Definition letter (v : Z) : byte := nth (Z.to_nat v) table x00.

(** One round of the encoder: the first octet, and the next two if they are there. *)
Definition encode_round (a : byte) (b c : option byte) : list byte :=
  let octet_a := b2z a in
  let octet_b := from_option b2z 0 b in
  let octet_c := from_option b2z 0 c in
  let triple := Z.lor (Z.lor (u32 (Z.shiftl octet_a 16)) (u32 (Z.shiftl octet_b 8))) octet_c in
  [ letter (Z.land (Z.shiftr triple 18) 0x3F);
    letter (Z.land (Z.shiftr triple 12) 0x3F);
    match b with Some _ => letter (Z.land (Z.shiftr triple 6) 0x3F) | None => "="%byte end;
    match c with Some _ => letter (Z.land triple 0x3F) | None => "="%byte end ].

Fixpoint base64_encode (data : list byte) : list byte :=
  match data with
  | [] => []
  | [a] => encode_round a None None
  | [a; b] => encode_round a (Some b) None
  | a :: b :: c :: rest => encode_round a (Some b) (Some c) ++ base64_encode rest
  end.

(** ** Lenient decoding *)

Definition decode_table : list Z := [
  -1; -1; -1; -1; -1; -1; -1; -1; -1; -1; -1; -1; -1; -1; -1; -1;
  -1; -1; -1; -1; -1; -1; -1; -1; -1; -1; -1; -1; -1; -1; -1; -1;
  -1; -1; -1; -1; -1; -1; -1; -1; -1; -1; -1; 62; -1; -1; -1; 63;
  52; 53; 54; 55; 56; 57; 58; 59; 60; 61; -1; -1; -1; -1; -1; -1;
  -1;  0;  1;  2;  3;  4;  5;  6;  7;  8;  9; 10; 11; 12; 13; 14;
  15; 16; 17; 18; 19; 20; 21; 22; 23; 24; 25; -1; -1; -1; -1; -1;
  -1; 26; 27; 28; 29; 30; 31; 32; 33; 34; 35; 36; 37; 38; 39; 40;
  41; 42; 43; 44; 45; 46; 47; 48; 49; 50; 51; -1; -1; -1; -1; -1 ].

(** The loop over the characters, with [buffer] and [bits_collected]. *)
Fixpoint decode_loop (encoded : list byte) (buffer bits_collected : Z) : list byte :=
  match encoded with
  | [] => []
  | c :: encoded =>
      if Byte.eqb c "=" then []
      else if 128 <=? b2z c then decode_loop encoded buffer bits_collected
      else
        let value := nth (Z.to_nat (b2z c)) decode_table (-1) in
        if value <? 0 then decode_loop encoded buffer bits_collected
        else
          let buffer := Z.lor (u32 (Z.shiftl buffer 6)) value in
          let bits_collected := bits_collected + 6 in
          if 8 <=? bits_collected then
            let bits_collected := bits_collected - 8 in
            z2b (Z.land (Z.shiftr buffer bits_collected) 0xFF) :: decode_loop encoded buffer bits_collected
          else decode_loop encoded buffer bits_collected
  end.

Definition base64_decode (encoded : list byte) : list byte := decode_loop encoded 0 0.

(** ** Strict decoding *)

Definition base64_value (c : byte) : Z :=
  if between 65 90 c then b2z c - 65
  else if between 97 122 c then b2z c - 97 + 26
  else if between 48 57 c then b2z c - 48 + 52
  else if Byte.eqb c "+" then 62
  else if Byte.eqb c "/" then 63
  else -1.

(** The three bytes that four characters carry. *)
Definition octet1 (v0 v1 : Z) : byte := z2b (Z.lor (Z.shiftl v0 2) (Z.shiftr v1 4)).
Definition octet2 (v1 v2 : Z) : byte := z2b (Z.lor (Z.shiftl (Z.land v1 0x0F) 4) (Z.shiftr v2 2)).
Definition octet3 (v2 v3 : Z) : byte := z2b (Z.lor (Z.shiftl (Z.land v2 0x03) 6) v3).

(** The loop over blocks of four; the second component is what was appended to [decoded]. *)
Fixpoint strict_loop (encoded decoded : list byte) : bool * list byte :=
  match encoded with
  | c0 :: c1 :: c2 :: c3 :: rest =>
      let final_block := bool_decide (rest = []) in
      let v0 := base64_value c0 in
      let v1 := base64_value c1 in
      if (v0 <? 0) || (v1 <? 0) then (false, decoded)
      else if Byte.eqb c2 "=" then
        if negb final_block || negb (Byte.eqb c3 "=") then (false, decoded)
        else if negb (Z.land v1 0x0F =? 0) then (false, decoded)
        else strict_loop rest (decoded ++ [octet1 v0 v1])
      else
        let v2 := base64_value c2 in
        if v2 <? 0 then (false, decoded)
        else if Byte.eqb c3 "=" then
          if negb final_block then (false, decoded)
          else if negb (Z.land v2 0x03 =? 0) then (false, decoded)
          else strict_loop rest (decoded ++ [octet1 v0 v1; octet2 v1 v2])
        else
          let v3 := base64_value c3 in
          if v3 <? 0 then (false, decoded)
          else strict_loop rest (decoded ++ [octet1 v0 v1; octet2 v1 v2; octet3 v2 v3])
  | _ => (true, decoded)
  end.

(** What it returns, and [decoded] afterwards. *)
Definition base64_decode_strict (encoded : list byte) : bool * list byte :=
  if bool_decide (encoded = []) || negb (zlen encoded mod 4 =? 0) then (false, []) else strict_loop encoded [].

Definition is_valid_websocket_key (key : list byte) : bool :=
  if negb (zlen key =? 24) then false
  else let (ok, decoded) := base64_decode_strict key in ok && (zlen decoded =? 16).

(** ** Letters *)

Lemma letter_value v : 0 <= v < 64 -> base64_value (letter v) = v.
Proof.
  intros Hv. assert (forallb (fun n => base64_value (letter (Z.of_nat n)) =? Z.of_nat n) (seq 0 64) = true) as H by (vm_compute; reflexivity).
  rewrite forallb_forall in H. specialize (H (Z.to_nat v) ltac:(apply in_seq; lia)). rewrite Z2Nat.id in H by lia. lia.
Qed.

Lemma value_letter c : 0 <= base64_value c -> base64_value c < 64 /\ letter (base64_value c) = c.
Proof. destruct c; vm_compute; intros H; try (by destruct H); done. Qed.

(** The table of the lenient decoder agrees with the function of the strict one. *)
Lemma table_value c : nth (Z.to_nat (b2z c)) decode_table (-1) = base64_value c.
Proof. destruct c; vm_compute; reflexivity. Qed.

Lemma letter_plain v : 0 <= v < 64 -> Byte.eqb (letter v) "=" = false /\ (128 <=? b2z (letter v)) = false.
Proof.
  intros Hv. assert (forallb (fun n => negb (Byte.eqb (letter (Z.of_nat n)) "=") && negb (128 <=? b2z (letter (Z.of_nat n)))) (seq 0 64) = true) as H by (vm_compute; reflexivity).
  rewrite forallb_forall in H. specialize (H (Z.to_nat v) ltac:(apply in_seq; lia)). rewrite Z2Nat.id in H by lia.
  by apply andb_true_iff in H as [H1%negb_true_iff H2%negb_true_iff].
Qed.

(** ** Octets and sextets as numbers *)

Lemma land_low n x : 0 <= n -> Z.land x (Z.ones n) = x mod 2 ^ n.
Proof. intros. by apply Z.land_ones. Qed.

Lemma encode_round_letters a b c : let A := b2z a in let B := from_option b2z 0 b in let C := from_option b2z 0 c in
  encode_round a b c = [ letter (A / 4); letter (A mod 4 * 16 + B / 16);
    match b with Some _ => letter (B mod 16 * 4 + C / 64) | None => "="%byte end; match c with Some _ => letter (C mod 64) | None => "="%byte end ].
Proof.
  intros A B C. unfold encode_round. fold A B C.
  assert (0 <= A < 256) by apply b2z_range. assert (0 <= B < 256) by (destruct b; cbn; [apply b2z_range|lia]). assert (0 <= C < 256) by (destruct c; cbn; [apply b2z_range|lia]).
  assert (Z.lor (Z.lor (u32 (Z.shiftl A 16)) (u32 (Z.shiftl B 8))) C = 65536 * A + 256 * B + C) as ->.
  { rewrite !Z.shiftl_mul_pow2, !u32_small by lia. replace (A * 2 ^ 16) with (2 ^ 16 * A) by lia. rewrite (lor_add 16) by lia.
    replace (2 ^ 16 * A + B * 2 ^ 8) with (2 ^ 8 * (256 * A + B)) by lia. rewrite (lor_add 8) by lia. lia. }
  change 0x3F with (Z.ones 6). rewrite !land_low, !Z.shiftr_div_pow2 by lia. clearbody A B C.
  repeat f_equal; try destruct b; try destruct c; try done; f_equal; Z.div_mod_to_equations; lia.
Qed.

Lemma octets_numbers v0 v1 v2 v3 : 0 <= v0 < 64 -> 0 <= v1 < 64 -> 0 <= v2 < 64 -> 0 <= v3 < 64 ->
  octet1 v0 v1 = z2b (v0 * 4 + v1 / 16) /\ octet2 v1 v2 = z2b (v1 mod 16 * 16 + v2 / 4) /\ octet3 v2 v3 = z2b (v2 mod 4 * 64 + v3).
Proof.
  intros. unfold octet1, octet2, octet3. change 0x0F with (Z.ones 4). change 0x03 with (Z.ones 2). rewrite !land_low, !Z.shiftr_div_pow2 by lia.
  rewrite !lor_shiftl_add by (change (2 ^ 4) with 16; change (2 ^ 2) with 4; Z.div_mod_to_equations; lia). split_and!; f_equal; change (2 ^ 4) with 16; change (2 ^ 2) with 4; lia.
Qed.

(** ** Three octets in four letters and back *)

Lemma round_values a b c : let A := b2z a in let B := b2z b in let C := b2z c in
  let v0 := A / 4 in let v1 := A mod 4 * 16 + B / 16 in let v2 := B mod 16 * 4 + C / 64 in let v3 := C mod 64 in
  (0 <= v0 < 64 /\ 0 <= v1 < 64 /\ 0 <= v2 < 64 /\ 0 <= v3 < 64) /\ octet1 v0 v1 = a /\ octet2 v1 v2 = b /\ octet3 v2 v3 = c.
Proof.
  intros A B C v0 v1 v2 v3. assert (0 <= A < 256) by apply b2z_range. assert (0 <= B < 256) by apply b2z_range. assert (0 <= C < 256) by apply b2z_range.
  assert (0 <= v0 < 64 /\ 0 <= v1 < 64 /\ 0 <= v2 < 64 /\ 0 <= v3 < 64) as (Hv0 & Hv1 & Hv2 & Hv3) by (subst v0 v1 v2 v3; clearbody A B C; Z.div_mod_to_equations; lia).
  destruct (octets_numbers v0 v1 v2 v3) as (-> & -> & ->); [done..|]. split; [done|].
  split_and!; [rewrite <- (z2b_b2z a)|rewrite <- (z2b_b2z b)|rewrite <- (z2b_b2z c)]; f_equal; fold A B C; subst v0 v1 v2 v3; clearbody A B C; Z.div_mod_to_equations; lia.
Qed.

Lemma values_round v0 v1 v2 v3 : 0 <= v0 < 64 -> 0 <= v1 < 64 -> 0 <= v2 < 64 -> 0 <= v3 < 64 ->
  let A := b2z (octet1 v0 v1) in let B := b2z (octet2 v1 v2) in let C := b2z (octet3 v2 v3) in
  A / 4 = v0 /\ A mod 4 * 16 + B / 16 = v1 /\ B mod 16 * 4 + C / 64 = v2 /\ C mod 64 = v3.
Proof.
  intros H0 H1 H2 H3. destruct (octets_numbers v0 v1 v2 v3) as (-> & -> & ->); [done..|]. cbn zeta.
  rewrite !b2z_z2b_small by (Z.div_mod_to_equations; lia). Z.div_mod_to_equations; lia.
Qed.

(** ** The strict decoder *)

Lemma strict_block c0 c1 c2 c3 rest d : strict_loop (c0 :: c1 :: c2 :: c3 :: rest) d =
  let v0 := base64_value c0 in let v1 := base64_value c1 in let v2 := base64_value c2 in let v3 := base64_value c3 in
  if (v0 <? 0) || (v1 <? 0) then (false, d)
  else if Byte.eqb c2 "=" then
    if negb (bool_decide (rest = [])) || negb (Byte.eqb c3 "=") then (false, d) else if negb (Z.land v1 0x0F =? 0) then (false, d) else strict_loop rest (d ++ [octet1 v0 v1])
  else if v2 <? 0 then (false, d)
  else if Byte.eqb c3 "=" then
    if negb (bool_decide (rest = [])) then (false, d) else if negb (Z.land v2 0x03 =? 0) then (false, d) else strict_loop rest (d ++ [octet1 v0 v1; octet2 v1 v2])
  else if v3 <? 0 then (false, d) else strict_loop rest (d ++ [octet1 v0 v1; octet2 v1 v2; octet3 v2 v3]).
Proof. done. Qed.

Lemma encode_cons3 a b c rest : base64_encode (a :: b :: c :: rest) = encode_round a (Some b) (Some c) ++ base64_encode rest.
Proof. done. Qed.

(** Induction three octets, or four characters, at a time. *)
Lemma triple_ind (P : list byte -> Prop) : P [] -> (forall a, P [a]) -> (forall a b, P [a; b]) -> (forall a b c l, P l -> P (a :: b :: c :: l)) -> forall l, P l.
Proof.
  intros H0 H1 H2 H3. fix IH 1. intros [|a [|b [|c l]]]; [done|done|done|]. apply H3, IH.
Qed.

Lemma quad_ind (P : list byte -> Prop) : P [] -> (forall a b c d l, zlen l mod 4 = 0 -> P l -> P (a :: b :: c :: d :: l)) -> forall l, zlen l mod 4 = 0 -> P l.
Proof.
  intros H0 H4. fix IH 1. intros [|a [|b [|c [|d l]]]]; [done|done|done|done|]. intros Hl.
  assert (zlen l mod 4 = 0) as Hl' by (rewrite !zlen_cons in Hl; Z.div_mod_to_equations; lia). by apply H4; [|apply IH].
Qed.

Lemma letter_values v : 0 <= v < 64 -> Byte.eqb (letter v) "=" = false /\ (base64_value (letter v) <? 0) = false /\ base64_value (letter v) = v.
Proof. intros Hv. rewrite letter_value by done. destruct (letter_plain v Hv). split_and!; [done|lia|done]. Qed.

Lemma strict_encode l d : strict_loop (base64_encode l) d = (true, d ++ l).
Proof.
  revert d. induction l as [|a|a b|a b c l IH] using triple_ind; intros d; [by rewrite app_nil_r|..].
  - cbn [base64_encode]. rewrite encode_round_letters. cbn [from_option]. destruct (round_values a x00 x00) as ((H0 & H1 & _) & Ha & _).
    change (b2z x00) with 0 in *. destruct (letter_values _ H0) as (_ & E0 & V0), (letter_values _ H1) as (_ & E1 & V1).
    rewrite strict_block. cbn zeta. rewrite E0, E1, V0, V1. cbn [orb]. rewrite byte_eqb_refl, bool_decide_true by done. cbn [negb orb].
    change 0x0F with (Z.ones 4). rewrite land_low by lia. replace ((b2z a mod 4 * 16 + 0 / 16) mod 2 ^ 4) with 0 by (pose proof (b2z_range a); change (2 ^ 4) with 16; Z.div_mod_to_equations; lia).
    cbn [negb Z.eqb strict_loop]. by rewrite Ha.
  - cbn [base64_encode]. rewrite encode_round_letters. cbn [from_option]. destruct (round_values a b x00) as ((H0 & H1 & H2 & _) & Ha & Hb & _).
    change (b2z x00) with 0 in *. destruct (letter_values _ H0) as (_ & E0 & V0), (letter_values _ H1) as (_ & E1 & V1), (letter_values _ H2) as (P2 & E2 & V2).
    rewrite strict_block. cbn zeta. rewrite E0, E1, P2, E2, V0, V1, V2. cbn [orb]. rewrite byte_eqb_refl, bool_decide_true by done. cbn [negb orb].
    change 0x03 with (Z.ones 2). rewrite land_low by lia. replace ((b2z b mod 16 * 4 + 0 / 64) mod 2 ^ 2) with 0 by (pose proof (b2z_range b); change (2 ^ 2) with 4; Z.div_mod_to_equations; lia).
    cbn [negb Z.eqb strict_loop]. by rewrite Ha, Hb.
  - rewrite encode_cons3, encode_round_letters. cbn [from_option app]. destruct (round_values a b c) as ((H0 & H1 & H2 & H3) & Ha & Hb & Hc).
    destruct (letter_values _ H0) as (_ & E0 & V0), (letter_values _ H1) as (_ & E1 & V1), (letter_values _ H2) as (P2 & E2 & V2), (letter_values _ H3) as (P3 & E3 & V3).
    rewrite strict_block. cbn zeta. rewrite E0, E1, P2, E2, P3, E3, V0, V1, V2, V3. cbn [orb]. rewrite IH, Ha, Hb, Hc, <- app_assoc. done.
Qed.

(** What the strict decoder accepts is what the encoder wrote. *)
Lemma strict_decoded s d d' : zlen s mod 4 = 0 -> strict_loop s d = (true, d') -> exists l, d' = d ++ l /\ s = base64_encode l.
Proof.
  intros Hs. revert s Hs d. refine (quad_ind _ _ _).
  - intros d [= <-]. exists []. by rewrite app_nil_r.
  - intros c0 c1 c2 c3 rest Hr IH d. rewrite strict_block. cbn zeta.
    destruct (base64_value c0 <? 0) eqn:E0; [done|]. destruct (base64_value c1 <? 0) eqn:E1; [done|]. cbn [orb].
    destruct (value_letter c0) as [H0 L0]; [lia|]. destruct (value_letter c1) as [H1 L1]; [lia|].
    set (v0 := base64_value c0) in *. set (v1 := base64_value c1) in *.
    destruct (Byte.eqb c2 "=") eqn:P2; [|destruct (base64_value c2 <? 0) eqn:E2; [done|]; destruct (Byte.eqb c3 "=") eqn:P3].
    + apply byte_eqb_true in P2 as ->. case_bool_decide as Er; [|done]. destruct (Byte.eqb c3 "=") eqn:P3; [|done]. apply byte_eqb_true in P3 as ->. subst rest. cbn [negb orb].
      change 0x0F with (Z.ones 4). rewrite land_low by lia. destruct (Z.eqb_spec (v1 mod 2 ^ 4) 0) as [Hz|]; [|done]. cbn [negb strict_loop]. intros [= <-].
      exists [octet1 v0 v1]. split; [done|]. cbn [base64_encode]. rewrite encode_round_letters. cbn [from_option].
      destruct (octets_numbers v0 v1 0 0) as (-> & _ & _); [lia..|]. rewrite b2z_z2b_small by (Z.div_mod_to_equations; lia). rewrite <- L0, <- L1.
      repeat f_equal; change (2 ^ 4) with 16 in Hz; Z.div_mod_to_equations; lia.
    + apply byte_eqb_true in P3 as ->. case_bool_decide as Er; [|done]. subst rest. cbn [negb]. destruct (value_letter c2) as [H2 L2]; [lia|]. set (v2 := base64_value c2) in *.
      change 0x03 with (Z.ones 2). rewrite land_low by lia. destruct (Z.eqb_spec (v2 mod 2 ^ 2) 0) as [Hz|]; [|done]. cbn [negb strict_loop]. intros [= <-].
      exists [octet1 v0 v1; octet2 v1 v2]. split; [done|]. cbn [base64_encode]. rewrite encode_round_letters. cbn [from_option].
      destruct (octets_numbers v0 v1 v2 0) as (-> & -> & _); [lia..|]. rewrite !b2z_z2b_small by (Z.div_mod_to_equations; lia). rewrite <- L0, <- L1, <- L2.
      repeat f_equal; change (2 ^ 2) with 4 in Hz; Z.div_mod_to_equations; lia.
    + destruct (base64_value c3 <? 0) eqn:E3; [done|]. destruct (value_letter c2) as [H2 L2]; [lia|]. destruct (value_letter c3) as [H3 L3]; [lia|]. intros Hd.
      apply IH in Hd as (l & -> & ->). exists (octet1 v0 v1 :: octet2 v1 (base64_value c2) :: octet3 (base64_value c2) (base64_value c3) :: l). rewrite <- app_assoc. split; [done|].
      rewrite encode_cons3, encode_round_letters. cbn [from_option]. destruct (values_round v0 v1 (base64_value c2) (base64_value c3)) as (-> & -> & -> & ->); [lia..|].
      by rewrite L0, L1, L2, L3.
Qed.

Lemma length_encode l : zlen (base64_encode l) = (zlen l + 2) / 3 * 4.
Proof.
  induction l as [|a|a b|a b c l IH] using triple_ind; [done..|]. rewrite encode_cons3, zlen_app, IH, encode_round_letters, !zlen_cons. change (zlen []) with 0.
  Z.div_mod_to_equations; lia.
Qed.

(** The strict decoder accepts exactly the encodings of nonempty strings, each with the string it encodes: it rejects stray characters,
    misplaced padding and encodings whose unused bits are not zero. *)
Lemma strict_decoder_exact s d : base64_decode_strict s = (true, d) <-> d <> [] /\ s = base64_encode d.
Proof.
  unfold base64_decode_strict. split.
  - case_bool_decide as Es; [done|]. destruct (Z.eqb_spec (zlen s mod 4) 0) as [Hm|]; [|done]. cbn [negb orb]. intros H.
    destruct (strict_decoded _ _ _ Hm H) as (l & -> & ->). split; [|done]. intros E. cbn in E. by subst l.
  - intros [Hd ->]. rewrite bool_decide_false by (destruct d as [|a [|b [|c d]]]; [done|done|done|]; by rewrite encode_cons3). rewrite length_encode, Z_mod_mult. apply strict_encode.
Qed.

(** ** The lenient decoder *)

Lemma decode_push B v : 0 <= v < 64 -> Z.lor (u32 (Z.shiftl B 6)) v = B mod 2 ^ 26 * 64 + v.
Proof.
  intros Hv. rewrite Z.shiftl_mul_pow2 by lia. unfold u32, uwrap. replace (B * 2 ^ 6) with (2 ^ 6 * B) by lia. change (2 ^ 32) with (2 ^ 6 * 2 ^ 26).
  rewrite Z.mul_mod_distr_l by lia. rewrite lor_add by lia. lia.
Qed.

(** One letter after [bits] bits that are left over: the buffer ends with the value of the last letter. *)
Lemma decode_letter v s B bits : 0 <= v < 64 -> decode_loop (letter v :: s) B bits =
  let B' := B mod 2 ^ 26 * 64 + v in
  if 8 <=? bits + 6 then z2b (B' / 2 ^ (bits + 6 - 8) mod 256) :: decode_loop s B' (bits + 6 - 8) else decode_loop s B' (bits + 6).
Proof.
  intros Hv. destruct (letter_plain v Hv) as [E1 E2]. cbn [decode_loop]. rewrite E1, E2, table_value. destruct (letter_values v Hv) as (_ & -> & ->). cbn zeta.
  rewrite !decode_push by done. destruct (8 <=? bits + 6) eqn:E; [|done]. change 0xFF with (Z.ones 8). by rewrite land_low, Z.shiftr_div_pow2 by lia.
Qed.

Lemma decode_first v0 B : 0 <= v0 < 64 -> exists B', B' mod 64 = v0 /\ forall s, decode_loop (letter v0 :: s) B 0 = decode_loop s B' 6.
Proof. intros H0. eexists. split; [|intros s; by rewrite decode_letter]. Z.div_mod_to_equations; lia. Qed.

Lemma decode_second v0 v1 B : 0 <= v0 < 64 -> 0 <= v1 < 64 -> B mod 64 = v0 -> exists B', B' mod 64 = v1 /\ forall s, decode_loop (letter v1 :: s) B 6 = octet1 v0 v1 :: decode_loop s B' 4.
Proof.
  intros H H' E. eexists. split; [|intros s; rewrite decode_letter by done; cbn zeta; change (8 <=? 6 + 6) with true; cbv iota; change (6 + 6 - 8) with 4; f_equal].
  - Z.div_mod_to_equations; lia.
  - destruct (octets_numbers v0 v1 0 0) as (-> & _); [lia..|]. f_equal. change (2 ^ 4) with 16. change (2 ^ 26) with 67108864. Z.div_mod_to_equations; lia.
Qed.

Lemma decode_third v1 v2 B : 0 <= v1 < 64 -> 0 <= v2 < 64 -> B mod 64 = v1 -> exists B', B' mod 64 = v2 /\ forall s, decode_loop (letter v2 :: s) B 4 = octet2 v1 v2 :: decode_loop s B' 2.
Proof.
  intros H H' E. eexists. split; [|intros s; rewrite decode_letter by done; cbn zeta; change (8 <=? 4 + 6) with true; cbv iota; change (4 + 6 - 8) with 2; f_equal].
  - Z.div_mod_to_equations; lia.
  - destruct (octets_numbers 0 v1 v2 0) as (_ & -> & _); [lia..|]. f_equal. change (2 ^ 2) with 4. change (2 ^ 26) with 67108864. Z.div_mod_to_equations; lia.
Qed.

Lemma decode_fourth v2 v3 B : 0 <= v2 < 64 -> 0 <= v3 < 64 -> B mod 64 = v2 -> exists B', forall s, decode_loop (letter v3 :: s) B 2 = octet3 v2 v3 :: decode_loop s B' 0.
Proof.
  intros H H' E. eexists. intros s. rewrite decode_letter by done; cbn zeta; change (8 <=? 2 + 6) with true; cbv iota; change (2 + 6 - 8) with 0; f_equal.
  destruct (octets_numbers 0 0 v2 v3) as (_ & _ & ->); [lia..|]. f_equal. change (2 ^ 0) with 1. change (2 ^ 26) with 67108864. Z.div_mod_to_equations; lia.
Qed.

Lemma decode_encode l B : decode_loop (base64_encode l) B 0 = l.
Proof.
  revert B. induction l as [|a|a b|a b c l IH] using triple_ind; intros B; [done|..].
  - cbn [base64_encode]. rewrite encode_round_letters. cbn [from_option]. destruct (round_values a x00 x00) as ((H0 & H1 & _) & Ha & _). change (b2z x00) with 0 in *.
    destruct (decode_first _ B H0) as (B1 & E1 & R1). destruct (decode_second _ _ B1 H0 H1 E1) as (B2 & E2 & R2). by rewrite R1, R2, Ha.
  - cbn [base64_encode]. rewrite encode_round_letters. cbn [from_option]. destruct (round_values a b x00) as ((H0 & H1 & H2 & _) & Ha & Hb & _). change (b2z x00) with 0 in *.
    destruct (decode_first _ B H0) as (B1 & E1 & R1). destruct (decode_second _ _ B1 H0 H1 E1) as (B2 & E2 & R2). destruct (decode_third _ _ B2 H1 H2 E2) as (B3 & E3 & R3).
    by rewrite R1, R2, R3, Ha, Hb.
  - rewrite encode_cons3, encode_round_letters. cbn [from_option app]. destruct (round_values a b c) as ((H0 & H1 & H2 & H3) & Ha & Hb & Hc).
    destruct (decode_first _ B H0) as (B1 & E1 & R1). destruct (decode_second _ _ B1 H0 H1 E1) as (B2 & E2 & R2). destruct (decode_third _ _ B2 H1 H2 E2) as (B3 & E3 & R3).
    destruct (decode_fourth _ _ B3 H2 H3 E3) as (B4 & R4). by rewrite R1, R2, R3, R4, Ha, Hb, Hc, IH.
Qed.

Lemma websocket_key_exact key : is_valid_websocket_key key = true <-> exists nonce, length nonce = 16%nat /\ key = base64_encode nonce.
Proof.
  unfold is_valid_websocket_key. split.
  - destruct (Z.eqb_spec (zlen key) 24); [|done]. cbn [negb]. destruct (base64_decode_strict key) as [[|] d] eqn:E; [|done]. intros Hd%Z.eqb_eq.
    apply strict_decoder_exact in E as [_ ->]. exists d. split; [unfold zlen in Hd; lia|done].
  - intros (nonce & Hn & ->). assert (zlen nonce = 16) as Hz by (unfold zlen; lia). rewrite length_encode, Hz.
    rewrite (proj2 (strict_decoder_exact (base64_encode nonce) nonce)) by (split; [by intros ->|done]). by rewrite Hz.
Qed.

(** The alphabet, and the padding. *)
Definition base64_char (c : byte) : bool := Byte.eqb c "=" || (0 <=? base64_value c).

Lemma letter_char v : 0 <= v < 64 -> base64_char (letter v) = true.
Proof. intros Hv. unfold base64_char. destruct (letter_values v Hv) as (_ & _ & ->). lia. Qed.

Lemma encode_chars l : Forall (fun c => base64_char c = true) (base64_encode l).
Proof.
  assert (base64_char "=" = true) as Hpad by done.
  assert (forall a b c, Forall (fun c => base64_char c = true) (encode_round a b c)) as Hround.
  { intros a b c. rewrite encode_round_letters. cbn zeta. pose proof (b2z_range a). assert (0 <= from_option b2z 0 b < 256) by (destruct b as [b|]; [apply b2z_range|done]).
    assert (0 <= from_option b2z 0 c < 256) by (destruct c as [c|]; [apply b2z_range|done]).
    repeat constructor; [..|destruct b; [|done]|destruct c; [|done]]; apply letter_char; cbn in *; Z.div_mod_to_equations; lia. }
  induction l as [|a|a b|a b c l IH] using triple_ind; [constructor|apply Hround..|]. rewrite encode_cons3. by apply Forall_app.
Qed.

(** Base64 round trips: both decoders give back every string that was encoded, and the strict decoder, which guards the handshake, accepts nothing else:
    a string is accepted with the result [d] exactly when it is the encoding of the nonempty [d], so that stray characters, misplaced padding and unused bits that are not zero
    are rejected.  A Sec-WebSocket-Key is accepted exactly when it encodes sixteen bytes. *)
Theorem base64_exact : (forall d, base64_decode (base64_encode d) = d) /\
  (forall s d, base64_decode_strict s = (true, d) <-> d <> [] /\ s = base64_encode d) /\
  (forall key, is_valid_websocket_key key = true <-> exists nonce, length nonce = 16%nat /\ key = base64_encode nonce).
Proof.
  split_and!; [intros d; apply decode_encode|apply strict_decoder_exact|apply websocket_key_exact].
Qed.

End Base64.
