(* ===== verification/WsHandshake.v ===== *)
(** * The WebSocket handshake

    Models [src/include/elio/http/websocket_handshake.hpp] (base64 is in [Base64]), the upgrade of a request in
    [src/include/elio/http/websocket_server.hpp] and the handshake of a client in
    [src/include/elio/http/websocket_client.hpp].  [SHA1] is OpenSSL's and an argument; so are the bytes of the random number
    generator and what the reads of the client return.

    What a client sends, a server parses and validates; what the server answers, the client reads from whatever pieces it arrives in, and both
    sides end with the same subprotocol ([handshake_end_to_end]). *)

From Stdlib Require Import Strings.Byte Strings.String ZifyBool.
From S2P Require Import Prelude WebSocket WsParser Str HttpCommon HttpHeaders HttpChunk HttpRequest HttpMessage HttpDecoder HttpPlan Base64 Sha1.

Module Handshake.
Import Http Base64.

#[local] Arguments str : simpl never.

Definition WS_GUID : list byte := str "258EAFA5-E914-47DA-95CA-C5AB0DC85B11".

(** ** Keys *)

Inductive key_error := No_urandom | No_entropy.

(** [random] is what getrandom(2) wrote; [urandom] what was read from /dev/urandom, if it could be opened. *)
Definition generate_websocket_key (random : list byte) (urandom : option (list byte)) : result key_error (list byte) :=
  if zlen random <? 16 then
    match urandom with
    | None => Throw No_urandom
    | Some key => if negb (zlen key =? 16) then Throw No_entropy else Ok (base64_encode key)
    end
  else Ok (base64_encode (take 16 random)).

Section Accept.
Context (SHA1 : list byte -> list byte).

Definition compute_websocket_accept (key : list byte) : list byte := base64_encode (SHA1 (key ++ WS_GUID)).

Definition verify_websocket_accept (accept key : list byte) : bool := streq accept (compute_websocket_accept key).

End Accept.

(** ** Subprotocols and tokens *)

Definition not_comma (c : byte) : bool := negb (Byte.eqb c ",").

(** The loop over the list; every round passes a comma or ends. *)
Fixpoint parse_protocols_loop (fuel : nat) (protocols : list byte) : list (list byte) :=
  match fuel, protocols with
  | S fuel, _ :: _ =>
      let s := skip_ows protocols in
      let '(token, rest) := span not_comma s in
      let token := trim_right token in
      let more := match rest with [] => [] | _ :: rest => parse_protocols_loop fuel rest end in
      match token with [] => more | _ => token :: more end
  | _, _ => []
  end.

Definition parse_protocols (protocols : list byte) : list (list byte) := parse_protocols_loop (S (length protocols)) protocols.

Fixpoint negotiate_protocol (client_protocols server_protocols : list (list byte)) : list byte :=
  match client_protocols with
  | [] => []
  | client_proto :: rest => if existsb (streq client_proto) server_protocols then client_proto else negotiate_protocol rest server_protocols
  end.

Definition header_has_token (value token : list byte) : bool :=
  existsb (fun part => ascii_iequals (trim_ows part) token) (split_on "," value).

Definition is_websocket_upgrade (method upgrade connection version : list byte) : bool :=
  if negb (streq method (str "GET")) then false
  else if negb (header_has_token upgrade (str "websocket")) then false
  else if negb (header_has_token connection (str "upgrade")) then false
  else streq version (str "13").

(** ** The request of a client *)

Inductive handshake_field := Host | Path | Key | Origin | Subprotocol | User_agent.

Definition build_client_handshake (host path key : list byte) (protocols : list (list byte)) (origin : list byte) : result handshake_field (list byte) :=
  if negb (is_valid_url_input host) then Throw Host
  else if negb (streq path [] || is_valid_request_target path) then Throw Path
  else if negb (is_valid_header_value key) then Throw Key
  else if negb (streq origin [] || is_valid_header_value origin) then Throw Origin
  else if negb (forallb is_valid_token protocols) then Throw Subprotocol
  else Ok (str "GET " ++ (match path with [] => str "/" | _ => path end) ++ str " HTTP/1.1" ++ crlf ++
           str "Host: " ++ host ++ crlf ++
           str "Upgrade: websocket" ++ crlf ++
           str "Connection: Upgrade" ++ crlf ++
           str "Sec-WebSocket-Key: " ++ key ++ crlf ++
           str "Sec-WebSocket-Version: 13" ++ crlf ++
           (match protocols with [] => [] | _ => str "Sec-WebSocket-Protocol: " ++ join (str ", ") protocols ++ crlf end) ++
           (match origin with [] => [] | _ => str "Origin: " ++ origin ++ crlf end) ++
           crlf).

(** [s.rfind(p)]. *)
Definition rfind_sub (p s : list byte) : option nat := (fun i => length s - length p - i)%nat <$> find_sub (reverse p) (reverse s).

(** The first part of [perform_handshake]. *)
Definition client_request (host path key : list byte) (protocols : list (list byte)) (origin user_agent : list byte) : result handshake_field (list byte) :=
  match build_client_handshake host path key protocols origin with
  | Throw e => Throw e
  | Ok request =>
      match user_agent with
      | [] => Ok request
      | _ => if negb (is_valid_header_value user_agent) then Throw User_agent
             else match rfind_sub (crlf ++ crlf) request with
                  | Some pos => Ok (take pos request ++ crlf ++ str "User-Agent: " ++ user_agent ++ drop pos request)
                  | None => Ok request
                  end
      end
  end.

(** ** The server *)

Record upgrade_result := UpgradeResult { success : bool; error : list byte; accepted_protocol : list byte }.

Definition header (name : list byte) (req : Message.request) : list byte := Headers.get name (Message.headers_ req).

Definition validate_upgrade_request (req : Message.request) (subprotocols : list (list byte)) : upgrade_result :=
  if negb (is_websocket_upgrade (method_to_string (Message.method_ req)) (header (str "Upgrade") req) (header (str "Connection") req) (header (str "Sec-WebSocket-Version") req))
  then UpgradeResult false (str "Not a valid WebSocket upgrade request") []
  else
    let ws_key := header (str "Sec-WebSocket-Key") req in
    if streq ws_key [] then UpgradeResult false (str "Missing Sec-WebSocket-Key header") []
    else if negb (is_valid_websocket_key ws_key) then UpgradeResult false (str "Invalid Sec-WebSocket-Key") []
    else
      let client_protocols_header := header (str "Sec-WebSocket-Protocol") req in
      UpgradeResult true []
        (match client_protocols_header with [] => [] | _ => negotiate_protocol (parse_protocols client_protocols_header) subprotocols end).

Section Server.
Context (SHA1 : list byte -> list byte).

(** The fields of the 101 response, in the order they are set. *)
Definition build_upgrade_response (key protocol : list byte) : result Message.message_error Plan.response :=
  match Plan.set_header (str "Upgrade") (str "websocket") (Plan.new_head 101) with Throw e => Throw e | Ok h =>
  match Plan.set_header (str "Connection") (str "Upgrade") h with Throw e => Throw e | Ok h =>
  match Plan.set_header (str "Sec-WebSocket-Accept") (compute_websocket_accept SHA1 key) h with Throw e => Throw e | Ok h =>
  match protocol with
  | [] => Ok (Plan.Response h [])
  | _ => match Plan.set_header (str "Sec-WebSocket-Protocol") protocol h with Throw e => Throw e | Ok h => Ok (Plan.Response h []) end
  end end end end.

End Server.

Definition build_server_handshake (accept protocol : list byte) : list byte :=
  str "HTTP/1.1 101 Switching Protocols" ++ crlf ++
  str "Upgrade: websocket" ++ crlf ++
  str "Connection: Upgrade" ++ crlf ++
  str "Sec-WebSocket-Accept: " ++ accept ++ crlf ++
  (match protocol with [] => [] | _ => str "Sec-WebSocket-Protocol: " ++ protocol ++ crlf end) ++
  crlf.

Definition build_rejection_response (status_code : Z) (reason : list byte) : list byte :=
  str "HTTP/1.1 " ++ to_string status_code ++ str " " ++ reason ++ crlf ++ str "Connection: close" ++ crlf ++ crlf.

(** ** The client's side of the answer *)

(** [saturated_response_header_buffer_limit]. *)
Definition header_buffer_limit (max_headers max_header_size : Z) : Z :=
  if SIZE_MAX - 1 <? max_headers then SIZE_MAX
  else if SIZE_MAX - 2 <? max_header_size then SIZE_MAX
  else
    let line_count := max_headers + 1 in
    let max_line_with_ending := max_header_size + 2 in
    if (SIZE_MAX - 2) / max_line_with_ending <? line_count then SIZE_MAX
    else line_count * max_line_with_ending + 2.

(** [errno] when the handshake fails; [Io e] is the error of a read, ECONNRESET at the end of the stream, or ETIMEDOUT. *)
Inductive errno := EBADMSG | EMSGSIZE | ECANCELED | Io (e : Z).

(** What the next read returns. *)
Inductive read_event := Data (bytes : list byte) | Failure (e : Z).

(** The handshake failed; or the bytes behind the response are no frames, a close frame with [code] is sent and [errno] is
    EBADMSG; or the client is connected with a subprotocol, the frame parser holding what followed the response; or it waits for the next read. *)
Inductive outcome := Failed (e : errno) | Frame_error (code : Z) | Connected (subprotocol : list byte) (parser_ : Ws.parser) | Waiting.

Section Client.
Context (SHA1 : list byte -> list byte) (ws_key_ : list byte) (subprotocols : list (list byte)) (parser_ : Ws.parser).

(** The end of [perform_handshake]: the bytes that follow the response go to the frame parser.  ([Ws.parse] always answers.) *)
Definition accept_pipelined (subprotocol pipelined : list byte) : outcome :=
  match pipelined with
  | [] => Connected subprotocol parser_
  | _ =>
      match Ws.parse pipelined parser_ with
      | Some (frames, parsed) =>
          if (parsed <? 0) || Ws.has_error_ frames then Frame_error (Ws.error_close_code_ frames) else Connected subprotocol frames
      | None => Waiting
      end
  end.

(** The checks of the response. *)
Definition check_response (p : Response.response_parser) : outcome :=
  let d := Response.decoder_ p in
  let get name := Headers.get name (Response.headers_ d) in
  if Response.has_error d then Failed EBADMSG
  else if negb (Response.status_ d =? 101) then Failed EBADMSG
  else if negb (header_has_token (get (str "Upgrade")) (str "websocket")) then Failed EBADMSG
  else if negb (header_has_token (get (str "Connection")) (str "upgrade")) then Failed EBADMSG
  else if negb (verify_websocket_accept SHA1 (get (str "Sec-WebSocket-Accept")) ws_key_) then Failed EBADMSG
  else
    let protocol := get (str "Sec-WebSocket-Protocol") in
    let pipelined := (Response.take_remaining p).1 in
    match protocol with
    | [] => accept_pipelined [] pipelined
    | _ => let selected := trim_ows protocol in if existsb (streq selected) subprotocols then accept_pipelined selected pipelined else Failed EBADMSG
    end.

(** The local variables of the loop. *)
Record reading := Reading {
  parser : Response.response_parser;
  total_read : Z;
  current_message_bytes : Z;
  skipped_informational_bytes : Z;
  pending_handshake_bytes : list byte;
}.

Context (limit : Z) (cancelled : nat -> bool).

(** A complete response at the top of the loop: leave the loop, skip an interim response, or fail. *)
Definition skip_interim (r : reading) : (outcome + reading) :=
  let d := Response.decoder_ (parser r) in
  if Response.is_complete d then
    let code := Response.status_ d in
    if (code <? 100) || (200 <=? code) || (code =? 101) then inl (check_response (parser r))
    else if limit - skipped_informational_bytes r <? current_message_bytes r then inl (Failed EMSGSIZE)
    else
      let (rest, p) := Response.take_remaining (parser r) in
      inr (Reading (Response.parser_reset p) (total_read r) 0 (skipped_informational_bytes r + current_message_bytes r) rest)
  else inr r.

Definition is_error (r : Request.parse_result) : bool := match r with Request.Error => true | _ => false end.

(** The loop; [fuel] bounds the rounds, and [cancelled] is asked in each of them.  (The parser never
    throws, so that the branches for exceptions are never taken.) *)
Fixpoint read_response (fuel : nat) (reads : list read_event) (r : reading) : outcome :=
  match fuel with
  | O => Waiting
  | S fuel =>
      match skip_interim r with
      | inl o => o
      | inr r =>
          if Response.has_error (Response.decoder_ (parser r)) then check_response (parser r)
          else if cancelled fuel then Failed ECANCELED
          else
            match pending_handshake_bytes r with
            | _ :: _ =>
                match Response.parse (pending_handshake_bytes r) (parser r) with
                | Throw _ => Failed EBADMSG
                | Ok (res, consumed, p) =>
                    if is_error res then Failed EBADMSG
                    else read_response fuel reads (Reading p (total_read r) (current_message_bytes r + consumed) (skipped_informational_bytes r) [])
                end
            | [] =>
                match reads with
                | [] => Waiting
                | Failure e :: _ => Failed (Io e)
                | Data bytes :: reads =>
                    match Response.parse bytes (parser r) with
                    | Throw _ => Failed EBADMSG
                    | Ok (res, consumed, p) =>
                        let total := total_read r + zlen bytes in
                        if is_error res then Failed EBADMSG
                        else if (limit <? total) && negb (Response.is_complete (Response.decoder_ p)) then Failed EMSGSIZE
                        else read_response fuel reads (Reading p total (current_message_bytes r + consumed) (skipped_informational_bytes r) [])
                    end
                end
            end
      end
  end.

End Client.

(** The parser of the handshake. *)
Definition handshake_parser (max_headers max_header_size : Z) : Response.response_parser :=
  Response.parser_set_max_header_size max_header_size (Response.parser_set_max_headers max_headers Response.new_parser).

(** The frame parser is the client's, reset when [connect] starts. *)
Definition perform_handshake SHA1 ws_key_ subprotocols max_message_size max_headers max_header_size cancelled (fuel : nat) (reads : list read_event) : outcome :=
  read_response SHA1 ws_key_ subprotocols (Ws.new_parser max_message_size Ws.client) (header_buffer_limit max_headers max_header_size) cancelled fuel reads
    (Reading (handshake_parser max_headers max_header_size) 0 0 0 []).

(** ** Lists of tokens *)

Lemma not_comma_span s : exists token rest, span not_comma s = (token, rest) /\ "," %byte ∉ token /\ s = token ++ rest /\ (rest = [] \/ exists rest', rest = ","%byte :: rest').
Proof.
  destruct (span not_comma s) as [token rest] eqn:E. apply span_spec in E as (-> & Ht & Hs). exists token, rest. split_and!; [done| |done|].
  - intros Hin. rewrite Forall_forall in Ht. apply Ht in Hin. unfold not_comma in Hin. by rewrite byte_eqb_refl in Hin.
  - destruct rest as [|c rest]; [by left|]. right. cbn in Hs. unfold not_comma in Hs. apply negb_false_iff, byte_eqb_true in Hs as ->. by eexists.
Qed.

Lemma ows_no_comma w : ows w -> ","%byte ∉ w.
Proof. intros Hw Hin. unfold ows in Hw. rewrite Forall_forall in Hw. by apply Hw in Hin. Qed.

(** The list is the parts between commas, without white space around them and without the empty ones. *)
Lemma parse_protocols_parts s : parse_protocols s = filter (fun t => t <> []) (map trim_ows (split_on "," s)).
Proof.
  unfold parse_protocols. assert (forall fuel s, (length s < fuel)%nat -> parse_protocols_loop fuel s = filter (fun t => t <> []) (map trim_ows (split_on "," s))) as H; [|by apply H; lia].
  clear s. induction fuel as [|fuel IH]; intros s Hs; [lia|]. destruct s as [|c0 s0]; [done|]. cbn [parse_protocols_loop]. remember (c0 :: s0) as s eqn:E0. clear E0.
  destruct (skip_ows_spec s) as (w & Es & Hw & Hstop). destruct (not_comma_span (skip_ows s)) as (token & rest & Esp & Hno & Et & Hrest). rewrite Esp.
  assert (stops is_ows token) as Hst by (destruct token; [done|]; rewrite Et in Hstop; done).
  assert (forall u, trim_ows (w ++ u) = trim_ows u) as Htw by (intros u; pose proof (trim_ows_around w u [] Hw ltac:(constructor)) as H; by rewrite app_nil_r in H).
  assert (trim_ows token = trim_right token) as Htt by (by rewrite trim_ows_right, skip_ows_stops).
  assert (split_on "," s = (w ++ token) :: match rest with [] => [] | _ :: r => split_on "," r end) as ->.
  { rewrite Es, Et. rewrite split_on_app by (by apply ows_no_comma). destruct Hrest as [->|[r ->]]; [by rewrite app_nil_r, split_on_none|by rewrite split_on_here]. }
  cbn [map]. rewrite filter_cons, Htw, Htt. assert (match rest with [] => [] | _ :: r => parse_protocols_loop fuel r end = filter (fun t => t <> []) (map trim_ows match rest with [] => [] | _ :: r => split_on "," r end)) as ->.
  { destruct rest as [|x r]; [done|]. apply IH. assert (length s = length w + length token + S (length r))%nat by (rewrite Es, Et, !length_app; cbn; lia). lia. }
  case_decide as Hd; destruct (trim_right token); done.
Qed.

(** White space in front of a part does not matter. *)
Lemma trim_ows_space s : trim_ows (ch_space :: s) = trim_ows s.
Proof. pose proof (trim_ows_around [ch_space] s [] ltac:(by repeat constructor) ltac:(constructor)) as H. by rewrite app_nil_r in H. Qed.

Lemma trim_ows_ends c s d : is_ows c = false -> is_ows d = false -> trim_ows (c :: s ++ [d]) = c :: s ++ [d].
Proof. intros Hc Hd. rewrite trim_ows_right, skip_ows_stops by done. by apply (trim_right_end (c :: s)). Qed.

Lemma token_ends t : is_valid_token t = true -> (exists c s, t = c :: s /\ is_ows c = false) /\ (exists s d, t = s ++ [d] /\ is_ows d = false).
Proof.
  destruct t as [|c s]; [done|]. cbn [is_valid_token]. intros Ht. rewrite forallb_forall in Ht. split; [exists c, s; split; [done|]; apply is_tchar_not_ows, Ht; by left|].
  destruct (exists_last (l := c :: s)) as (s' & d & E); [done|]. exists s', d. split; [done|]. apply is_tchar_not_ows, Ht. rewrite E. apply in_app_iff. right. by left.
Qed.

Lemma trim_ows_token t : is_valid_token t = true -> trim_ows t = t.
Proof.
  intros Ht. destruct (token_ends t Ht) as [(c & s & -> & Hc) (s' & d & E & Hd)]. destruct s' as [|c' s']; cbn in E; simplify_eq; [|by apply trim_ows_ends].
  rewrite trim_ows_right, skip_ows_stops by done. by apply (trim_right_end []).
Qed.

Lemma parse_protocols_join l : Forall (fun t => is_valid_token t = true) l -> parse_protocols (join (str ", ") l) = l.
Proof.
  intros Hl. rewrite parse_protocols_parts. destruct Hl as [|t l Ht Hl]; [done|].
  assert (forall t l, is_valid_token t = true -> Forall (fun t => is_valid_token t = true) l -> map trim_ows (split_on "," (join (str ", ") (t :: l))) = t :: l) as Hparts.
  { clear. intros t l Ht Hl. revert t Ht. induction Hl as [|u l Hu Hl IH]; intros t Ht.
    - cbn [join]. rewrite split_on_none by (by apply (token_excludes ","%byte)). cbn [map]. by rewrite trim_ows_token.
    - change (join (str ", ") (t :: u :: l)) with (t ++ ","%byte :: ch_space :: join (str ", ") (u :: l)). rewrite split_on_here by (by apply (token_excludes ","%byte)). cbn [map]. rewrite trim_ows_token by done. f_equal.
      transitivity (map trim_ows (split_on "," (join (str ", ") (u :: l)))); [|by apply IH]. change (split_on "," (ch_space :: ?x)) with (split_on "," ([ch_space] ++ x)). rewrite split_on_app by (by intros ?%list_elem_of_singleton).
      destruct (split_on "," (join (str ", ") (u :: l))) as [|x xs] eqn:E; [by destruct (join (str ", ") (u :: l)); cbn in E; repeat case_match|]. cbn [map app]. by rewrite trim_ows_space. }
  rewrite Hparts by done.
  assert (Forall (fun t => t <> []) (t :: l)) as Hne by (constructor; [by intros ->|]; eapply Forall_impl; [exact Hl|]; by intros x Hx ->).
  clear -Hne. induction Hne as [|x xs Hx Hxs IH]; [done|]. rewrite filter_cons_True by done. by f_equal.
Qed.

Lemma negotiated client server : let p := negotiate_protocol client server in p = [] \/ (p ∈ client /\ p ∈ server).
Proof.
  induction client as [|c client IH]; cbn; [by left|]. destruct (existsb (streq c) server) eqn:E.
  - right. split; [by left|]. apply existsb_exists in E as (x & Hx & ->%streq_true). by apply list_elem_of_In.
  - destruct IH as [->|[H1 H2]]; [by left|]. right. split; [by right|done].
Qed.

(** ** Reading the answer in pieces *)

Section Loop.
Context (SHA1 : list byte -> list byte) (ws_key_ : list byte) (subprotocols : list (list byte)) (parser_ : Ws.parser) (limit : Z) (cancelled : nat -> bool).
Hypothesis not_cancelled : forall n, cancelled n = false.

#[local] Abbreviation check := (check_response SHA1 ws_key_ subprotocols parser_).
#[local] Abbreviation loop := (read_response SHA1 ws_key_ subprotocols parser_ limit cancelled).

(** A fresh decoder with the limits of the client. *)
Context (d0 : Response.response_decoder).
Hypothesis fresh : Response.reset d0 = d0.

(** The bytes of one message: the decoder that has read them. *)
Definition message (bytes : list byte) (d : Response.response_decoder) : Prop :=
  (exists body, Response.run bytes d0 = (d, body, [])) /\ Response.is_complete d = true /\ Response.line_ d = [] /\ Response.reset d = d0.

Lemma complete_terminal d : Response.is_complete d = true -> exists e, Response.terminal d = Some e.
Proof. unfold Response.is_complete, Response.terminal. intros H%bool_decide_eq_true. rewrite H. by eexists. Qed.

Lemma fresh_state : Response.state_ d0 = Response.status_line /\ Response.line_ d0 = [].
Proof. by rewrite <- fresh. Qed.

Lemma message_nonempty bytes d : message bytes d -> bytes <> [].
Proof.
  intros ((body & Hr) & Hc & _) ->. cbn in Hr. destruct fresh_state as [Hs _]. unfold Response.terminal in Hr. rewrite Hs in Hr. simplify_eq.
  unfold Response.is_complete in Hc. by rewrite Hs in Hc.
Qed.

(** In the middle of a message. *)
Lemma message_middle a m d : message (a ++ m) d -> m <> [] ->
  exists d1 b1 b2, Response.run a d0 = (d1, b1, []) /\ Response.terminal d1 = None /\ Response.run m d1 = (d, b2, []).
Proof.
  intros ((body & Hr) & Hc & _) Hm. rewrite Response.run_split in Hr. destruct (Response.run a d0) as [[d1 b1] r1] eqn:Ea. destruct (Response.terminal d1) as [e|] eqn:Et.
  - rewrite (Response.run_terminal _ _ _ Et) in Hr. simplify_eq. by destruct r1.
  - pose proof (Response.run_takes_all _ _ _ _ _ Ea Et) as ->. cbn [app] in Hr. destruct (Response.run m d1) as [[d2 b2] r2] eqn:Em. simplify_eq. by exists d1, b1, b2.
Qed.

Lemma middle_wf a d1 b1 : Response.run a d0 = (d1, b1, []) -> Response.wf d1.
Proof. intros H. eapply Response.run_wf; [|exact H]. intros Hs. destruct fresh_state as [E _]. rewrite E in Hs. by destruct Hs. Qed.

Lemma parse_more a data m d d1 b1 : message (a ++ data ++ m) d -> m <> [] -> Response.run a d0 = (d1, b1, []) ->
  exists d2 b2, Response.parse data (Response.Parser d1 b1 []) = Ok (Request.Need_more, zlen (Response.line_ d1) + zlen data - zlen (Response.line_ d2), Response.Parser d2 b2 []) /\
    Response.run (a ++ data) d0 = (d2, b2, []) /\ Response.terminal d2 = None.
Proof.
  intros HM Hm Ha. rewrite app_assoc in HM. destruct (message_middle _ _ _ HM Hm) as (d2 & b2 & _ & Hr & Ht & _).
  pose proof (Response.response_parse_runs data (Response.Parser d1 b1 []) (middle_wf _ _ _ Ha)) as Hp. cbn [Response.buffer_ Response.decoder_ Response.body_ app] in Hp.
  pose proof Hr as Hr'. rewrite Response.run_split, Ha in Hr'. cbn [app] in Hr'. destruct (Response.run data d1) as [[d2' b2'] r2]. simplify_eq.
  exists d2, (b1 ++ b2'). rewrite Hp. split_and!; [|done|done]. unfold Response.result_kind, Response.has_error, Response.is_complete, Response.bytes_remaining, Response.bytes_buffered.
  cbn [Response.decoder_ Response.buffer_]. unfold Response.terminal in Ht. change (zlen (@nil byte)) with 0. rewrite !Z.add_0_r. by destruct (Response.state_ d2).
Qed.

Lemma parse_end a m x d d1 b1 : message (a ++ m) d -> Response.run a d0 = (d1, b1, []) ->
  exists b2, Response.parse (m ++ x) (Response.Parser d1 b1 []) = Ok (Request.Complete, zlen (Response.line_ d1) + zlen m, Response.Parser d b2 x).
Proof.
  intros ((body & Hr) & Hc & Hl & _) Ha. pose proof (Response.response_parse_runs (m ++ x) (Response.Parser d1 b1 []) (middle_wf _ _ _ Ha)) as Hp.
  cbn [Response.buffer_ Response.decoder_ Response.body_ app] in Hp. rewrite Response.run_split, Ha in Hr. cbn [app] in Hr. destruct (Response.run m d1) as [[d' b'] r'] eqn:Em. simplify_eq.
  destruct (complete_terminal d Hc) as [e He]. rewrite Response.run_split, Em in Hp. cbn [app] in Hp. rewrite (Response.run_terminal x d e He) in Hp.
  exists (b1 ++ b' ++ []). rewrite Hp. do 2 f_equal. unfold Response.result_kind, Response.has_error, Response.bytes_remaining, Response.bytes_buffered. rewrite Hc.
  cbn [Response.decoder_ Response.buffer_]. rewrite Hl. unfold Response.is_complete in Hc. apply bool_decide_eq_true in Hc. rewrite Hc, zlen_app. change (zlen (@nil byte)) with 0. f_equal. lia.
Qed.

(** An interim response: a status between 100 and 199 other than 101. *)
Definition interim (d : Response.response_decoder) : Prop := 100 <= Response.status_ d < 200 /\ Response.status_ d <> 101.

Definition final (d : Response.response_decoder) : Prop := Response.status_ d = 101.

(** The bytes [a] of a message have been read and it is not over. *)
Record reading_ok (r : reading) (a : list byte) (d1 : Response.response_decoder) : Prop := {
  ro_parser : exists b1, parser r = Response.Parser d1 b1 [] /\ Response.run a d0 = (d1, b1, []);
  ro_open : Response.terminal d1 = None;
  ro_current : current_message_bytes r = zlen a - zlen (Response.line_ d1);
}.

Lemma reading_fresh total skipped pending : reading_ok (Reading (Response.Parser d0 [] []) total 0 skipped pending) [] d0.
Proof. destruct fresh_state as [Hs Hl]. split; [exists []; split; [done|]; cbn; unfold Response.terminal; by rewrite Hs|unfold Response.terminal; by rewrite Hs|cbn; by rewrite Hl]. Qed.

Lemma open_not_over d : Response.terminal d = None -> Response.is_complete d = false /\ Response.has_error d = false.
Proof. unfold Response.terminal, Response.is_complete, Response.has_error. by destruct (Response.state_ d). Qed.

(** Any number of interim responses and the final one, with the decoder that has read it. *)
Inductive answer (dF : Response.response_decoder) : list (list byte) -> Prop :=
| answer_final M : message M dF -> final dF -> answer dF [M]
| answer_interim M d L : message M d -> interim d -> answer dF L -> answer dF (M :: L).

(** The state of the loop between two reads: [chunks] are the reads to come, the last of which ends the answer [(a ++ m) :: L] and starts [tail]. *)
Record ahead (fuel : nat) (r : reading) (a m : list byte) (L chunks : list (list byte)) (tail : list byte) : Prop := {
  ah_more : m <> [];
  ah_bytes : pending_handshake_bytes r ++ concat chunks = m ++ concat L ++ tail;
  ah_chunks : Forall (fun c => c <> []) chunks;
  ah_last : chunks <> [] -> zlen (pending_handshake_bytes r ++ concat (removelast chunks)) < zlen (m ++ concat L);
  ah_total : total_read r + zlen (m ++ concat L) <= limit + zlen (pending_handshake_bytes r);
  ah_skipped : 0 <= skipped_informational_bytes r /\ skipped_informational_bytes r + zlen (a ++ m ++ concat L) <= limit;
  ah_fuel : (length chunks + S (length L) + (match pending_handshake_bytes r with [] => 0 | _ => 1 end) <= fuel)%nat;
}.

(** A complete interim response is skipped at the top of the loop. *)
Lemma loop_skips fuel reads r d b x : parser r = Response.Parser d b x -> Response.is_complete d = true -> Response.line_ d = [] -> Response.reset d = d0 -> interim d ->
  current_message_bytes r <= limit - skipped_informational_bytes r ->
  loop (S fuel) reads r = loop (S fuel) reads (Reading (Response.Parser d0 [] []) (total_read r) 0 (skipped_informational_bytes r + current_message_bytes r) x).
Proof.
  intros Hp Hc Hl Hr [Hi Hi'] Hlim. set (r' := Reading _ _ _ _ _).
  assert (skip_interim SHA1 ws_key_ subprotocols parser_ limit r = inr r') as E.
  { unfold skip_interim. rewrite Hp. cbn [Response.decoder_]. rewrite Hc. replace ((_ <? 100) || _ || _) with false by lia. rewrite (proj2 (Z.ltb_ge _ _)) by lia.
    unfold Response.take_remaining, Response.parser_reset. cbn. rewrite Hl. change (Response.reset (Response.with_line [] d)) with (Response.reset d). by rewrite Hr. }
  assert (skip_interim SHA1 ws_key_ subprotocols parser_ limit r' = inr r') as E'.
  { unfold skip_interim, Response.is_complete. cbn. destruct fresh_state as [-> _]. done. }
  cbn [read_response]. by rewrite E, E'.
Qed.

(** The final response ends the loop. *)
Lemma loop_ends fuel reads r d : Response.decoder_ (parser r) = d -> Response.is_complete d = true -> final d -> loop (S fuel) reads r = check (parser r).
Proof. intros <- Hc Hf. cbn [read_response]. unfold skip_interim. rewrite Hc, Hf. done. Qed.

Lemma app_cut (a b c d : list byte) : a ++ b = c ++ d -> (exists k, k <> [] /\ c = a ++ k /\ b = k ++ d) \/ (exists k, a = c ++ k /\ d = k ++ b).
Proof.
  intros H. destruct (decide (length a < length c)%nat) as [Hl|Hl].
  - left. exists (drop (length a) c). assert (c = a ++ drop (length a) c) as Hc by (rewrite <- (take_drop (length a) c) at 1; f_equal; apply (f_equal (take (length a))) in H; by rewrite take_app_length, take_app_le in H by lia).
    split_and!; [intros E; rewrite E, app_nil_r in Hc; rewrite Hc in Hl; lia|done|]. rewrite Hc, <- app_assoc in H. by apply app_inv_head in H.
  - right. exists (drop (length c) a). assert (a = c ++ drop (length c) a) as Ha by (rewrite <- (take_drop (length c) a) at 1; f_equal; apply (f_equal (take (length c))) in H; by rewrite take_app_length, take_app_le in H by lia).
    split; [done|]. rewrite Ha, <- app_assoc in H. by apply app_inv_head in H.
Qed.

(** One parse of [data] from the state [ahead], and the rest of the loop. *)
Lemma loop_continues fuel dF r a m L chunks more tail d1 b1 data T :
  (forall r a m L chunks d1, answer dF ((a ++ m) :: L) -> reading_ok r a d1 -> ahead fuel r a m L chunks tail -> exists b, loop fuel (map Data chunks ++ more) r = check (Response.Parser dF b tail)) ->
  answer dF ((a ++ m) :: L) -> m <> [] -> Response.run a d0 = (d1, b1, []) -> data <> [] -> data ++ concat chunks = m ++ concat L ++ tail -> Forall (fun c => c <> []) chunks ->
  (chunks <> [] -> zlen (data ++ concat (removelast chunks)) < zlen (m ++ concat L)) -> T + zlen (m ++ concat L) <= limit + zlen data ->
  0 <= skipped_informational_bytes r -> skipped_informational_bytes r + zlen (a ++ m ++ concat L) <= limit -> (length chunks + S (length L) <= fuel)%nat ->
  current_message_bytes r = zlen a - zlen (Response.line_ d1) ->
  exists res consumed p, Response.parse data (Response.Parser d1 b1 []) = Ok (res, consumed, p) /\ is_error res = false /\ (limit <? T) && negb (Response.is_complete (Response.decoder_ p)) = false /\
    exists b, loop fuel (map Data chunks ++ more) (Reading p T (current_message_bytes r + consumed) (skipped_informational_bytes r) []) = check (Response.Parser dF b tail).
Proof.
  intros IH HA Hm Ha Hdata Hbytes Hch Hlast HT Hs0 Hs Hfuel Hcur. destruct (app_cut _ _ _ _ Hbytes) as [(k & Hk & -> & Hrest)|(x & -> & Hrest)].
  - assert (exists d, message (a ++ data ++ k) d) as [d HM] by (inversion HA; eauto). destruct (parse_more _ _ _ _ _ _ HM Hk Ha) as (d2 & b2 & Hp & Hr & Ht).
    do 3 eexists. split; [exact Hp|]. split; [done|]. split; [apply andb_false_iff; left; rewrite !zlen_app in HT; pose proof (zlen_nonneg k); pose proof (zlen_nonneg (concat L)); lia|].
    rewrite app_assoc in HA. eapply (IH _ (a ++ data) k L chunks d2 HA); [split; cbn; [by exists b2|done|]|split; cbn; try done].
    + rewrite Hcur, zlen_app. lia.
    + intros Hc. specialize (Hlast Hc). rewrite !zlen_app in *. lia.
    + rewrite !zlen_app in *. change (zlen (@nil byte)) with 0. lia.
    + rewrite <- !app_assoc in *. done.
    + lia.
  - assert (exists d, message (a ++ m) d) as [d HM] by (inversion HA; eauto). destruct (parse_end _ _ x _ _ _ HM Ha) as [b2 Hp]. pose proof HM as (_ & Hc & Hl & Hres).
    do 3 eexists. split; [exact Hp|]. split; [done|]. split; [cbn [Response.decoder_]; by rewrite Hc, andb_false_r|].
    set (r' := Reading _ _ _ _ _). assert (current_message_bytes r' = zlen (a ++ m)) as Hcur' by (cbn; rewrite Hcur, zlen_app; lia).
    destruct fuel as [|fuel]; [lia|]. inversion HA as [M HM' Hf|M d' L' HM' Hi HL]; subst.
    + assert (chunks = []) as -> by (destruct chunks as [|c cs]; [done|]; specialize (Hlast ltac:(done)); rewrite !zlen_app in Hlast; pose proof (zlen_nonneg x); pose proof (zlen_nonneg (concat (removelast (c :: cs)))); change (zlen (concat [])) with 0 in Hlast; lia).
      cbn in Hrest. rewrite app_nil_r in Hrest. subst x. exists b2. assert (dF = d) as ->; [|by apply (loop_ends _ _ r' d)].
      destruct HM' as ((? & E1) & _), HM as ((? & E2) & _). congruence.
    + assert (d' = d) as -> by (destruct HM' as ((? & E1) & _), HM as ((? & E2) & _); congruence).
      rewrite (loop_skips fuel _ r' d b2 x eq_refl Hc Hl Hres Hi) by (rewrite Hcur'; cbn; rewrite !zlen_app in *; pose proof (zlen_nonneg (concat L)); lia).
      destruct L as [|M' L']; [by inversion HL|]. assert (M' <> []) as HM0 by (inversion HL; by eapply message_nonempty).
      eapply (IH _ [] M' L' chunks d0); [done|apply reading_fresh|]. split; cbn [pending_handshake_bytes total_read skipped_informational_bytes r' concat]; try done.
      * cbn in Hrest. by rewrite <- Hrest, <- app_assoc.
      * intros Hcs. specialize (Hlast Hcs). cbn in Hlast. rewrite !zlen_app in *. lia.
      * cbn in HT. rewrite !zlen_app in *. lia.
      * rewrite Hcur'. cbn in *. rewrite !zlen_app in *. pose proof (zlen_nonneg a). pose proof (zlen_nonneg m). lia.
      * cbn in Hfuel. destruct x; lia.
Qed.

(** The loop ends with the final response, whatever the pieces. *)
Lemma loop_reads fuel dF more tail r a m L chunks d1 : answer dF ((a ++ m) :: L) -> reading_ok r a d1 -> ahead fuel r a m L chunks tail ->
  exists b, loop fuel (map Data chunks ++ more) r = check (Response.Parser dF b tail).
Proof.
  revert r a m L chunks d1. induction fuel as [|fuel IH]; intros r a m L chunks d1 HA [(b1 & Hp & Hr) Ho Hcur] [Hm Hbytes Hch Hlast HT [Hs0 Hs] Hfuel]; [lia|].
  destruct (open_not_over d1 Ho) as [Hnc Hne]. cbn [read_response]. unfold skip_interim. rewrite Hp. cbn [Response.decoder_]. rewrite Hnc, Hp. cbn [Response.decoder_]. rewrite Hne, not_cancelled.
  destruct (pending_handshake_bytes r) as [|c pending] eqn:Epend.
  - destruct chunks as [|data chunks]; [by destruct m|]. apply Forall_cons in Hch as [Hd Hch]. cbn [map app].
    destruct (loop_continues fuel dF r a m L chunks more tail d1 b1 data (total_read r + zlen data) IH HA Hm Hr Hd) as (res & consumed & p & -> & He & Hl & Hb); try done.
    + intros Hc. destruct chunks; [done|]. by apply Hlast.
    + change (zlen (@nil byte)) with 0 in HT. lia.
    + cbn in Hfuel. lia.
    + rewrite He, Hl. exact Hb.
  - destruct (loop_continues fuel dF r a m L chunks more tail d1 b1 (c :: pending) (total_read r) IH HA Hm Hr) as (res & consumed & p & -> & He & Hl & Hb); try done.
    + lia.
    + rewrite He. exact Hb.
Qed.

End Loop.

(** ** What the client sends *)

Definition client_lines (host key : list byte) (protocols : list (list byte)) (origin user_agent : list byte) : list (list byte * list byte) :=
  [(str "Host", host); (str "Upgrade", str "websocket"); (str "Connection", str "Upgrade"); (str "Sec-WebSocket-Key", key); (str "Sec-WebSocket-Version", str "13")] ++
  (match protocols with [] => [] | _ => [(str "Sec-WebSocket-Protocol", join (str ", ") protocols)] end) ++
  (match origin with [] => [] | _ => [(str "Origin", origin)] end) ++
  (match user_agent with [] => [] | _ => [(str "User-Agent", user_agent)] end).

Definition client_target (path : list byte) : list byte := match path with [] => str "/" | _ => path end.

(** The values that are checked before they are written. *)
Record client_ok (host path key : list byte) (protocols : list (list byte)) (origin user_agent : list byte) : Prop := {
  co_host : is_valid_url_input host = true;
  co_path : is_valid_request_target (client_target path) = true;
  co_key : is_valid_header_value key = true;
  co_origin : is_valid_header_value origin = true;
  co_protocols : Forall (fun t => is_valid_token t = true) protocols;
  co_user_agent : is_valid_header_value user_agent = true;
}.

Lemma rfind_last p s : rfind_sub p (s ++ p) = Some (length s).
Proof.
  unfold rfind_sub. rewrite reverse_app. assert (find_sub (reverse p) (reverse p ++ reverse s) = Some 0%nat) as ->.
  { assert (starts_with (reverse p) (reverse p ++ reverse s) = true) as H by (apply starts_with_prefix; by eexists). destruct (reverse p ++ reverse s); cbn [find_sub]; by rewrite H. }
  cbn. f_equal. rewrite length_app. lia.
Qed.

Lemma write_lines_app l l' : Headers.write_lines (l ++ l') = Headers.write_lines l ++ Headers.write_lines l'.
Proof. apply flat_map_app. Qed.

Lemma write_lines_end l : l <> [] -> exists x, Headers.write_lines l = x ++ crlf.
Proof.
  intros Hl. destruct (exists_last Hl) as (k & [n v] & ->). rewrite write_lines_app. unfold Headers.write_lines at 2. cbn [flat_map]. rewrite app_nil_r.
  unfold Headers.append_serialized_header. exists (Headers.write_lines k ++ n ++ str ": " ++ v). by rewrite <-!app_assoc.
Qed.

Lemma client_request_wire host path key protocols origin user_agent request : client_request host path key protocols origin user_agent = Ok request ->
  client_ok host path key protocols origin user_agent /\
  request = str "GET" ++ str " " ++ client_target path ++ str " " ++ str "HTTP/1.1" ++ crlf ++ Headers.write_lines (client_lines host key protocols origin user_agent) ++ crlf.
Proof.
  unfold client_request, build_client_handshake. destruct (is_valid_url_input host) eqn:Hh; [|done]. cbn [negb].
  destruct (streq path [] || is_valid_request_target path) eqn:Hp; [|done]. destruct (is_valid_header_value key) eqn:Hk; [|done]. cbn [negb].
  destruct (streq origin [] || is_valid_header_value origin) eqn:Ho; [|done]. destruct (forallb is_valid_token protocols) eqn:Hps; [|done]. cbn [negb].
  assert (is_valid_request_target (client_target path) = true) as Hp' by (unfold client_target; destruct path; [done|exact Hp]).
  assert (is_valid_header_value origin = true) as Ho' by (destruct origin; [done|exact Ho]).
  assert (Forall (fun t => is_valid_token t = true) protocols) as Hps' by (apply Forall_forall; intros x Hx; rewrite forallb_forall in Hps; by apply Hps, list_elem_of_In).
  set (text := str "GET " ++ _).
  assert (text = (str "GET" ++ str " " ++ client_target path ++ str " " ++ str "HTTP/1.1" ++ crlf ++ Headers.write_lines (client_lines host key protocols origin [])) ++ crlf) as Et.
  { unfold text, client_lines, client_target. rewrite !write_lines_app. unfold Headers.write_lines. cbn [flat_map]. unfold Headers.append_serialized_header.
    change (str "GET ") with (str "GET" ++ str " "). change (str " HTTP/1.1") with (str " " ++ str "HTTP/1.1"). change (str "Host: ") with (str "Host" ++ str ": ").
    change (str "Upgrade: websocket") with (str "Upgrade" ++ str ": " ++ str "websocket"). change (str "Connection: Upgrade") with (str "Connection" ++ str ": " ++ str "Upgrade").
    change (str "Sec-WebSocket-Key: ") with (str "Sec-WebSocket-Key" ++ str ": "). change (str "Sec-WebSocket-Version: 13") with (str "Sec-WebSocket-Version" ++ str ": " ++ str "13").
    change (str "Sec-WebSocket-Protocol: ") with (str "Sec-WebSocket-Protocol" ++ str ": "). change (str "Origin: ") with (str "Origin" ++ str ": ").
    destruct protocols; destruct origin; cbn [flat_map]; rewrite ?app_nil_r, <-?app_assoc; reflexivity. }
  destruct user_agent as [|c ua] eqn:Eu.
  - intros [= <-]. split; [by split|]. rewrite Et, <-!app_assoc. done.
  - destruct (is_valid_header_value (c :: ua)) eqn:Hu; [|done]. cbn [negb].
    destruct (write_lines_end (client_lines host key protocols origin [])) as [x Ex]; [done|]. rewrite Ex in Et.
    set (front := str "GET" ++ str " " ++ client_target path ++ str " " ++ str "HTTP/1.1" ++ crlf ++ x).
    assert (text = front ++ crlf ++ crlf) as -> by (rewrite Et; unfold front; by rewrite <-!app_assoc).
    rewrite rfind_last, take_app_length, drop_app_length. intros [= <-]. split; [by split|].
    assert (client_lines host key protocols origin (c :: ua) = client_lines host key protocols origin [] ++ [(str "User-Agent", c :: ua)]) as ->
      by (unfold client_lines; by rewrite !app_nil_r, <-!app_assoc).
    rewrite write_lines_app, Ex. unfold front, Headers.write_lines, Headers.append_serialized_header. cbn [flat_map]. change (str "User-Agent: ") with (str "User-Agent" ++ str ": ").
    rewrite ?app_nil_r, <-!app_assoc. reflexivity.
Qed.

(** ** What the server reads *)

Lemma url_input_value s : is_valid_url_input s = true -> is_valid_header_value s = true.
Proof.
  unfold is_valid_url_input. destruct s as [|c s]; [done|]. intros H%negb_true_iff. apply forallb_forall. intros x Hx.
  apply negb_true_iff, not_true_iff_false. intros Hc. apply not_true_iff_false in H. apply H, existsb_exists. exists x. split; [done|]. lia.
Qed.

Lemma token_value t : is_valid_token t = true -> is_valid_header_value t = true.
Proof.
  intros Ht. apply forallb_forall. intros x Hx. unfold is_valid_token in Ht. destruct t as [|c t]; [done|]. rewrite forallb_forall in Ht. specialize (Ht x Hx).
  revert Ht. destruct x; vm_compute; done.
Qed.

Lemma value_app a b : is_valid_header_value (a ++ b) = is_valid_header_value a && is_valid_header_value b.
Proof. apply forallb_app. Qed.

Lemma join_value ps : Forall (fun t => is_valid_token t = true) ps -> is_valid_header_value (join (str ", ") ps) = true.
Proof.
  induction 1 as [|t ps Ht%token_value _ IH]; [done|]. destruct ps as [|u ps]; [done|].
  change (join (str ", ") (t :: u :: ps)) with (t ++ str ", " ++ join (str ", ") (u :: ps)). rewrite !value_app, Ht, IH. done.
Qed.

(** The limits of a parser with its default configuration. *)
Definition request_fits (l : list (list byte * list byte)) : Prop := Forall (fun e => zlen (e.1 ++ str ": " ++ e.2) <= 8192) l.

Lemma client_lines_ok host path key protocols origin user_agent : client_ok host path key protocols origin user_agent ->
  request_fits (client_lines host key protocols origin user_agent) -> Forall (Headers.line_ok 8192) (client_lines host key protocols origin user_agent).
Proof.
  intros [Hh _ Hk Ho Hp Hu] Hfit. apply url_input_value in Hh. apply join_value in Hp. unfold request_fits in Hfit.
  assert (Forall (fun e => is_valid_token e.1 = true /\ is_valid_header_value e.2 = true) (client_lines host key protocols origin user_agent)) as Hv.
  { unfold client_lines. rewrite !Forall_app. split_and!; [repeat constructor; done|destruct protocols|destruct origin|destruct user_agent]; repeat constructor; done. }
  rewrite Forall_forall in Hv, Hfit |- *. intros e He. destruct (Hv e He). split_and!; [done..|by apply Hfit].
Qed.

(** The values of the field [k] among the lines that are read. *)
Definition client_fields host key protocols origin user_agent : Headers.fields :=
  Headers.fields_of (map Headers.trim_line (client_lines host key protocols origin user_agent)).

Lemma client_fields_eq host key protocols origin user_agent k : client_fields host key protocols origin user_agent k =
  (if streq (str "host") k then [trim_ows host] else []) ++ (if streq (str "upgrade") k then [str "websocket"] else []) ++
  (if streq (str "connection") k then [str "Upgrade"] else []) ++ (if streq (str "sec-websocket-key") k then [trim_ows key] else []) ++
  (if streq (str "sec-websocket-version") k then [str "13"] else []) ++
  (if streq (str "sec-websocket-protocol") k then match protocols with [] => [] | _ => [trim_ows (join (str ", ") protocols)] end else []) ++
  (if streq (str "origin") k then match origin with [] => [] | _ => [trim_ows origin] end else []) ++
  (if streq (str "user-agent") k then match user_agent with [] => [] | _ => [trim_ows user_agent] end else []).
Proof.
  unfold client_fields, client_lines. rewrite !map_app, !Headers.fields_of_app. cbn [map]. unfold Headers.trim_line. cbn [fst snd]. rewrite !Headers.fields_of_cons.
  change (Headers.fields_of [] k) with (@nil (list byte)). rewrite app_nil_r, <-!app_assoc. repeat (apply f_equal2; [reflexivity|]).
  assert (forall n v, Headers.fields_of [(n, v)] k = if streq (lowercase n) k then [v] else []) as One by (intros; rewrite Headers.fields_of_cons; apply app_nil_r).
  apply f_equal2; [destruct protocols|apply f_equal2; [destruct origin|destruct user_agent]]; cbn [map fst snd]; rewrite ?One; try reflexivity; by case_match.
Qed.

Lemma client_request_parsed inet_pton host path query key protocols origin user_agent wire :
  client_request host (Request.target_of path query) key protocols origin user_agent = Ok wire -> path <> [] -> "?"%byte ∉ path ->
  request_fits (client_lines host key protocols origin user_agent) ->
  exists p, Request.parse inet_pton wire Request.new_parser = Ok (Request.Complete, zlen wire, p) /\
    Request.method_ p = GET /\ Request.path_ p = path /\ Request.query_ p = query /\
    Headers.represents (Request.headers_ p) (client_fields host key protocols origin user_agent).
Proof.
  intros [Hok ->]%client_request_wire Hne Hq Hfit. pose proof (client_lines_ok _ _ _ _ _ _ Hok Hfit) as Hl.
  assert (client_target (Request.target_of path query) = Request.target_of path query) as Et by (unfold client_target, Request.target_of; by destruct path).
  pose proof (co_path _ _ _ _ _ _ Hok) as Hp. rewrite Et in *. clear Et Hok Hfit.
  set (l := client_lines host key protocols origin user_agent) in *. set (wire := str "GET" ++ _).
  set (p0 := Request.feed wire Request.new_parser).
  set (p1 := Request.with_state Request.headers (Request.with_buffer (Headers.write_lines l ++ crlf)
               (Request.with_version (str "HTTP/1.1") (Request.with_target path query (Request.with_method GET p0))))).
  assert (Request.step inet_pton p0 = Some p1) as H01 by (apply (Request.request_line_step inet_pton GET); done).
  assert (forall k, Headers.fields_of (map Headers.trim_line l) k = client_fields host key protocols origin user_agent k) as Hk by done.
  assert (length l <= 8)%nat as Hlen by (unfold l, client_lines; destruct protocols, origin, user_agent; cbn; lia).
  destruct (Request.header_block_steps inet_pton l crlf p1 Headers.no_fields []) as (h & f & H12 & Hr & Hf); try done.
  { change (0 + zlen l <= 100). unfold zlen. lia. }
  { unfold Headers.one_length. cbn [app]. replace (Headers.fields_of l _) with (@nil (list byte)); [cbn; lia|].
    unfold l, client_lines. rewrite !Headers.fields_of_app, !Headers.fields_of_cons. by destruct protocols, origin, user_agent. }
  set (p2 := Request.with_buffer crlf (Request.with_header h (Request.header_count_ p1 + zlen l) p1)) in *.
  assert (Headers.represents h (client_fields host key protocols origin user_agent)) as Hrep.
  { intros name. specialize (Hr name). unfold Headers.combined in *. by rewrite (Hf (lowercase name) : _ = client_fields _ _ _ _ _ _) in Hr. }
  destruct (Message.finish_steps inet_pton p2 []) as (p3 & H23 & Hc & (E1 & E2 & E3 & E4 & E5) & Hbody & Hbuf); try done.
  { change (Request.headers_ p2) with h. destruct (Headers.represents_get _ _ (str "Transfer-Encoding") Hrep) as (_ & _ & ->). rewrite client_fields_eq. done. }
  { intros _. change (Request.headers_ p2) with h. destruct (Headers.represents_get _ _ (str "Host") Hrep) as (_ & -> & _). rewrite client_fields_eq. done. }
  { change (Request.headers_ p2) with h. destruct (Headers.represents_get _ _ (str "Content-Length") Hrep) as (_ & _ & ->). rewrite client_fields_eq. done. }
  exists p3. split; [|rewrite E1, E2, E3, E5; done].
  rewrite (Request.parse_steps inet_pton wire Request.new_parser p3); [|by constructor|by eapply rtc_l; [exact H01|]; transitivity p2|unfold Request.step; by rewrite Hc].
  unfold Request.outcome. rewrite Hc, Hbuf. by do 3 f_equal; rewrite ?Z.sub_0_r.
Qed.

Lemma trim_ows_clean s : Forall (fun c => is_ows c = false) s -> trim_ows s = s.
Proof.
  destruct s as [|c s]; [done|]. intros Hs. destruct (exists_last (l := c :: s)) as (s' & d & E); [done|]. pose proof Hs as Hs'. rewrite E in Hs'.
  apply Forall_app in Hs' as [_ [Hd _]%Forall_cons]. apply Forall_cons in Hs as [Hc _]. destruct s' as [|c' s']; cbn in E; simplify_eq; [|by apply trim_ows_ends].
  rewrite trim_ows_right, skip_ows_stops by done. by apply (trim_right_end []).
Qed.

(** What is encoded can be sent in a header field. *)
Lemma encoded_value l : is_valid_header_value (base64_encode l) = true /\ trim_ows (base64_encode l) = base64_encode l.
Proof.
  pose proof (encode_chars l) as H. split.
  - apply forallb_forall. intros c Hc. apply list_elem_of_In in Hc. rewrite Forall_forall in H. specialize (H c Hc). revert H. destruct c; vm_compute; done.
  - apply trim_ows_clean. eapply Forall_impl; [exact H|]. intros c. destruct c; vm_compute; done.
Qed.

Lemma join_ends t l : is_valid_token t = true -> Forall (fun t => is_valid_token t = true) l ->
  (exists c s, join (str ", ") (t :: l) = c :: s /\ is_ows c = false) /\ (exists s d, join (str ", ") (t :: l) = s ++ [d] /\ is_ows d = false).
Proof.
  intros Ht Hl. revert t Ht. induction Hl as [|u l Hu _ IH]; intros t Ht; [by apply token_ends|].
  change (join (str ", ") (t :: u :: l)) with (t ++ str ", " ++ join (str ", ") (u :: l)).
  destruct (token_ends t Ht) as [(c & s & -> & Hc) _]. destruct (IH u Hu) as [_ (s' & d & -> & Hd)]. split; [by eexists _, _|].
  exists ((c :: s) ++ str ", " ++ s'), d. by rewrite <-!app_assoc.
Qed.

Lemma trim_ows_join l : Forall (fun t => is_valid_token t = true) l -> trim_ows (join (str ", ") l) = join (str ", ") l.
Proof.
  intros [|t l' Ht Hl]; [done|]. destruct (join_ends t l' Ht Hl) as [(c & s & E & Hc) (s' & d & E' & Hd)]. rewrite E in E' |- *.
  destruct s' as [|c' s']; cbn in E'; simplify_eq; [|by apply trim_ows_ends]. by apply trim_ows_clean; constructor.
Qed.

(** The server accepts the request, and takes the first subprotocol of the client that it supports. *)
Lemma client_request_upgrades host nonce protocols origin user_agent supported req : length nonce = 16%nat ->
  Forall (fun t => is_valid_token t = true) protocols -> Message.method_ req = GET ->
  Headers.represents (Message.headers_ req) (client_fields host (base64_encode nonce) protocols origin user_agent) ->
  validate_upgrade_request req supported = UpgradeResult true [] (negotiate_protocol protocols supported) /\
  header (str "Sec-WebSocket-Key") req = base64_encode nonce.
Proof.
  intros Hn Hp Hm Hr. set (key := base64_encode nonce) in *.
  assert (is_valid_websocket_key key = true) as Hkey by (apply websocket_key_exact; eauto).
  assert (forall name, header name req = Headers.combined (client_fields host key protocols origin user_agent) name) as Hget.
  { intros name. unfold header. by destruct (Headers.represents_get _ _ name Hr) as (-> & _). }
  assert (header (str "Upgrade") req = str "websocket") as E1 by (rewrite Hget; unfold Headers.combined; rewrite client_fields_eq; done).
  assert (header (str "Connection") req = str "Upgrade") as E2 by (rewrite Hget; unfold Headers.combined; rewrite client_fields_eq; done).
  assert (header (str "Sec-WebSocket-Version") req = str "13") as E3 by (rewrite Hget; unfold Headers.combined; rewrite client_fields_eq; done).
  assert (header (str "Sec-WebSocket-Key") req = key) as E4 by (rewrite Hget; unfold Headers.combined; rewrite client_fields_eq; apply (encoded_value nonce)).
  assert (header (str "Sec-WebSocket-Protocol") req = join (str ", ") protocols) as E5.
  { rewrite Hget. unfold Headers.combined. rewrite client_fields_eq. destruct protocols; [done|]. by apply (trim_ows_join (l :: protocols)). }
  split; [|done]. unfold validate_upgrade_request. rewrite Hm, E1, E2, E3, E4, E5.
  change (is_websocket_upgrade _ _ _ _) with true. cbn [negb]. rewrite Hkey. cbn [negb].
  destruct (streq key []) eqn:Ek; [apply streq_true in Ek; by rewrite Ek in Hkey|]. f_equal.
  destruct protocols as [|t l]; [done|]. pose proof (parse_protocols_join (t :: l) Hp) as Hj.
  destruct (join_ends t l) as [(c & s & E & _) _]; [by apply Forall_cons in Hp as [? ?]..|]. rewrite E in *. by rewrite Hj.
Qed.

(** ** Informational responses on the wire *)

Definition protocol_headers (h : Plan.response_head) : Headers.headers :=
  Headers.remove (str "Transfer-Encoding") (Headers.remove (str "Content-Length") (Plan.headers_ h)).

(** The response can be written, and its lines are within the limits of the client. *)
Record informational (order : Headers.headers -> list (list byte * list byte)) (max_headers max_header_size : Z) (r : Plan.response) (wire : list byte) : Prop := {
  inf_wire : Plan.serialize order GET r = Some wire;
  inf_proper : Plan.proper_head (Plan.head_ r);
  inf_status : 100 <= Plan.status_ (Plan.head_ r) < 200;
  inf_count : let h := protocol_headers (Plan.head_ r) in zlen (Headers.lines (order h) h) <= max_headers;
  inf_lines : let h := protocol_headers (Plan.head_ r) in Forall (fun e => zlen (e.1 ++ str ": " ++ e.2) <= max_header_size) (Headers.lines (order h) h);
}.

Lemma protocol_headers_fields h f : Headers.headers_ok (Plan.headers_ h) -> Headers.represents (Plan.headers_ h) f ->
  Headers.headers_ok (protocol_headers h) /\
  Headers.represents (protocol_headers h) (Headers.update_field (str "Transfer-Encoding") [] (Headers.update_field (str "Content-Length") [] f)).
Proof.
  intros Hok Hr. unfold protocol_headers. split; [by do 2 apply Headers.remove_ok|].
  pose proof (Headers.header_exec_refines (Headers.Remove (str "Content-Length")) _ _ Hr) as (f1 & Hf1 & Hr1). injection Hf1 as <-.
  pose proof (Headers.header_exec_refines (Headers.Remove (str "Transfer-Encoding")) _ _ Hr1) as (f2 & Hf2 & Hr2). by injection Hf2 as <-.
Qed.

Section Limits.
Context (order : Headers.headers -> list (list byte * list byte)) (max_headers max_header_size : Z).

#[local] Abbreviation d0 := (Response.decoder_ (handshake_parser max_headers max_header_size)).

Lemma select_framing_informational d : Response.request_method_ d = None -> 100 <= Response.status_ d < 200 ->
  exists h, Response.select_framing d = Response.with_state Response.complete (Response.with_flags (Response.headers_complete_ d) (Response.close_delimited_ d) h d).
Proof.
  intros Hm Hs. exists ((Response.status_ d =? 101) || false). unfold Response.select_framing, Response.is_method. rewrite Hm. cbv zeta.
  rewrite (bool_decide_false (None = Some CONNECT)) by done. cbn [andb Response.status_ Response.with_flags].
  replace (status_forbids_response_body (Response.status_ d)) with true by (unfold status_forbids_response_body; lia). by rewrite orb_true_r.
Qed.

Lemma informational_message r wire : (forall h, order h ≡ₚ Headers.headers_ h) -> 200 <= max_header_size -> max_headers <= SIZE_MAX ->
  informational order max_headers max_header_size r wire ->
  exists d, message d0 wire d /\ Response.status_ d = Plan.status_ (Plan.head_ r) /\
    forall name, Headers.get name (Response.headers_ d) = trim_ows (Headers.get name (protocol_headers (Plan.head_ r))).
Proof.
  intros Ho Hmh Hmax [Hw [Hok [f Hf]] Hst Hcount Hlines]. destruct (protocol_headers_fields _ _ Hok Hf) as [Hok' Hf']. cbv zeta in *.
  set (h := protocol_headers (Plan.head_ r)) in *. set (l := Headers.lines (order h) h) in *. set (g := Headers.update_field _ _ _) in *.
  unfold Plan.serialize in Hw. rewrite (proj2 (Z.leb_le 100 _)), (proj2 (Z.ltb_lt _ 200)) in Hw by lia. cbn [andb orb] in Hw. unfold Plan.serialize_protocol_headers in Hw.
  fold (protocol_headers (Plan.head_ r)) in Hw. fold h in Hw. rewrite Headers.serialize_lines in Hw. fold l in Hw.
  assert (Plan.wire_version (Plan.head_ r) = str "HTTP/1.0" \/ Plan.wire_version (Plan.head_ r) = str "HTTP/1.1") as Hv.
  { destruct (negb _ && _) eqn:E in Hw; [done|]. apply andb_false_iff in E as [E|E]; apply negb_false_iff, streq_true in E; auto. }
  case_match; [done|]. injection Hw as <-. pose proof (Plan.run_status_line (Plan.wire_version (Plan.head_ r)) (Plan.status_ (Plan.head_ r)) (Headers.write_lines l ++ crlf) d0) as Hrun0.
  specialize (Hrun0 eq_refl eq_refl ltac:(cbn; lia) Hv ltac:(lia)). set (d1 := Response.with_state _ _) in Hrun0.
  destruct (Response.run_header_block l crlf d1 Headers.no_fields []) as (h2 & f2 & Hrun & Hr2 & Hf2); try done.
  { pose proof (Message.lines_valid (order h) h Hok' (Ho h)) as Hval. rewrite Forall_forall in Hval, Hlines |- *. intros e He. destruct (Hval e He). split_and!; try done. by apply Hlines. }
  { unfold Headers.one_length. cbn [app]. unfold l. rewrite (Headers.fields_of_lines (order h) h g) by done.
    change (ascii_iequals (str "Content-Length") (str "Set-Cookie")) with false. clear. destruct (g _); cbn; lia. }
  rewrite Hrun in Hrun0. set (d2 := Response.with_header h2 _ d1) in *. assert (0 <= Response.max_header_size_ d2) as Hlim by (cbn; lia).
  assert (Response.process_line [] d2 = Ok (Response.select_framing d2)) as Hp by done.
  pose proof (Response.run_empty_line [] d2 _ eq_refl eq_refl Hlim Hp) as Hend. rewrite app_nil_r, bool_decide_true in Hend by done. rewrite Hend in Hrun0.
  destruct (select_framing_informational d2 eq_refl Hst) as [ho Esel]. rewrite Esel in Hrun0.
  set (d := Response.after_line _ _) in Hrun0. assert (Response.state_ d = Response.complete) as Hs by done.
  exists d. split; [|split; [done|]].
  - split; [eexists; eapply eq_trans; [exact Hrun0|]; apply (Response.run_terminal [] d (if Response.handoff_ d then Response.Protocol_handoff else Response.Message_complete)); unfold Response.terminal; by rewrite Hs|].
    split; [unfold Response.is_complete; by rewrite Hs, bool_decide_true|done].
  - intros name. change (Headers.get name h2 = trim_ows (Headers.get name h)). by destruct (Message.received_field (order h) h g h2 f2 name Hok' Hf' (Ho h) Hr2 Hf2) as (-> & _).
Qed.

End Limits.

(** ** The answer of the server *)

Definition upgrade_lines (accept protocol : list byte) : list (list byte * list byte) :=
  [(str "Upgrade", str "websocket"); (str "Connection", str "Upgrade"); (str "Sec-WebSocket-Accept", accept)] ++
  match protocol with [] => [] | _ => [(str "Sec-WebSocket-Protocol", protocol)] end.

Definition upgrade_headers (accept protocol : list byte) : Headers.headers :=
  Headers.MkHeaders (upgrade_lines accept protocol) (map (fun e => (e.1, [e.2])) (upgrade_lines accept protocol)).

Lemma set_header_proper name value h h' : Plan.set_header name value h = Ok h' -> Plan.proper_head h -> Plan.proper_head h'.
Proof.
  unfold Plan.set_header, Plan.on_headers. destruct (Headers.set name value (Plan.headers_ h)) as [hs|] eqn:E; [|done]. intros [= <-] [Hok [f Hf]].
  split; cbn [Plan.headers_]; [by eapply Headers.set_ok|]. eexists. by eapply Headers.represents_set.
Qed.

Lemma new_head_proper code : Plan.proper_head (Plan.new_head code).
Proof. split; [apply Headers.headers_ok_empty|]. by exists Headers.no_fields. Qed.

Lemma upgrade_response_head SHA1 key protocol : is_valid_header_value protocol = true ->
  let head := Plan.Head 101 (str "HTTP/1.1") (upgrade_headers (compute_websocket_accept SHA1 key) protocol) None in
  build_upgrade_response SHA1 key protocol = Ok (Plan.Response head []) /\ Plan.proper_head head.
Proof.
  intros Hp. cbv zeta. set (accept := compute_websocket_accept SHA1 key). set (head := Plan.Head _ _ _ _).
  assert (is_valid_header_value accept = true) as Ha by apply encoded_value.
  assert (build_upgrade_response SHA1 key protocol = Ok (Plan.Response head [])) as E.
  { unfold build_upgrade_response, Plan.set_header, Plan.on_headers, Headers.set. fold accept. rewrite Ha, Hp. by destruct protocol. }
  split; [done|]. unfold build_upgrade_response in E. fold accept in E. pose proof (new_head_proper 101) as H0.
  repeat match type of E with context[Plan.set_header ?n ?v ?h] => let H := fresh "H" in destruct (Plan.set_header n v h) eqn:H; [apply set_header_proper in H; [|assumption]|done] end.
  destruct protocol; [by injection E as <-|].
  match type of E with context[Plan.set_header ?n ?v ?h] => let H := fresh "H" in destruct (Plan.set_header n v h) eqn:H; [apply set_header_proper in H; [|assumption]|done] end. by injection E as <-.
Qed.

Lemma lines_plain o h : Forall (fun e => ascii_iequals e.1 (str "Set-Cookie") = false) o -> Headers.lines o h = o.
Proof.
  unfold Headers.lines. induction 1 as [|[n v] o Hn _ IH]; [done|]. cbn [flat_map fst] in *. rewrite IH, Hn. by destruct (Headers.ci_find n (Headers.header_values_ h)) as [[? ?]|].
Qed.

(** The 101 response is written, within limits that have room for its four lines. *)
Lemma upgrade_response_wire SHA1 order max_headers max_header_size key protocol : (forall s, length (SHA1 s) = 20%nat) ->
  (forall h, order h ≡ₚ Headers.headers_ h) -> is_valid_header_value protocol = true -> 4 <= max_headers -> 200 <= max_header_size -> zlen protocol + 24 <= max_header_size ->
  exists r wire, build_upgrade_response SHA1 key protocol = Ok r /\ informational order max_headers max_header_size r wire /\ Plan.status_ (Plan.head_ r) = 101 /\
    protocol_headers (Plan.head_ r) = upgrade_headers (compute_websocket_accept SHA1 key) protocol.
Proof.
  intros Hsha Ho Hp Hmh Hms Hlen. destruct (upgrade_response_head SHA1 key protocol Hp) as [E Hproper]. cbv zeta in *. set (accept := compute_websocket_accept SHA1 key) in *.
  set (head := Plan.Head _ _ _ _) in *. assert (protocol_headers head = upgrade_headers accept protocol) as Eh by (by destruct protocol).
  set (h := upgrade_headers accept protocol) in *. assert (Headers.lines (order h) h = order h) as El.
  { apply lines_plain. rewrite Ho. cbn [h Headers.headers_ upgrade_headers]. unfold upgrade_lines. apply Forall_app. split; [by repeat constructor|]. destruct protocol; by repeat constructor. }
  assert (zlen accept = 28) as Hacc by (unfold accept, compute_websocket_accept; rewrite length_encode; unfold zlen; by rewrite Hsha).
  eexists (Plan.Response head []), _. split; [done|]. split; [|done]. split; cbn [Plan.head_]; rewrite ?Eh, ?El; try done.
  - unfold zlen. rewrite Ho. cbn [h Headers.headers_ upgrade_headers]. unfold upgrade_lines. destruct protocol; cbn; lia.
  - rewrite Ho. cbn [h Headers.headers_ upgrade_headers]. unfold upgrade_lines. apply Forall_app. split.
    + repeat constructor; cbn [fst snd]; rewrite !zlen_app, ?Hacc; (etransitivity; [|exact Hms]); by vm_compute.
    + destruct protocol as [|c protocol]; [constructor|]. repeat constructor. cbn [fst snd]. rewrite !zlen_app.
      change (zlen (str "Sec-WebSocket-Protocol")) with 22. change (zlen (str ": ")) with 2. lia.
Qed.

(** The two ways to write the 101 response agree when the fields are enumerated in the order they were set. *)
Lemma server_handshake_serialized SHA1 key protocol : is_valid_header_value protocol = true ->
  exists r, build_upgrade_response SHA1 key protocol = Ok r /\
    Plan.serialize Headers.headers_ GET r = Some (build_server_handshake (compute_websocket_accept SHA1 key) protocol).
Proof.
  intros Hp. destruct (upgrade_response_head SHA1 key protocol Hp) as [E _]. eexists. split; [exact E|]. unfold Plan.serialize, Plan.serialize_protocol_headers. cbn [Plan.head_].
  fold (protocol_headers (Plan.Head 101 (str "HTTP/1.1") (upgrade_headers (compute_websocket_accept SHA1 key) protocol) None)).
  set (accept := compute_websocket_accept SHA1 key).
  transitivity (Some (str "HTTP/1.1 101 Switching Protocols" ++ crlf ++ Headers.write_lines (upgrade_lines accept protocol) ++ crlf)); [by destruct protocol|].
  unfold build_server_handshake, Headers.write_lines, upgrade_lines, Headers.append_serialized_header. destruct protocol; cbn [app flat_map]; rewrite ?app_nil_r, <-!app_assoc; reflexivity.
Qed.

(** The client accepts what it has read. *)
Lemma check_accepts SHA1 key protocols parser_ supported dF b tail : let proto := negotiate_protocol protocols supported in
  Forall (fun t => is_valid_token t = true) protocols -> Response.is_complete dF = true -> Response.line_ dF = [] -> Response.status_ dF = 101 ->
  (forall name, Headers.get name (Response.headers_ dF) = trim_ows (Headers.get name (upgrade_headers (compute_websocket_accept SHA1 key) proto))) ->
  check_response SHA1 key protocols parser_ (Response.Parser dF b tail) = accept_pipelined parser_ proto tail.
Proof.
  intros proto Hp Hc Hl Hs Hget. unfold check_response. cbn [Response.decoder_]. rewrite Hs. unfold Response.has_error, Response.is_complete in *. apply bool_decide_eq_true in Hc.
  rewrite Hc, bool_decide_false by done. cbn [negb Z.eqb]. change (negb (101 =? 101)) with false. cbn match. rewrite !Hget. set (accept := compute_websocket_accept SHA1 key).
  change (header_has_token (trim_ows (Headers.get (str "Upgrade") _)) (str "websocket")) with true. cbn [negb].
  change (header_has_token (trim_ows (Headers.get (str "Connection") _)) (str "upgrade")) with true. cbn [negb].
  change (Headers.get (str "Sec-WebSocket-Accept") _) with accept. unfold accept at 1, compute_websocket_accept at 1. rewrite (proj2 (encoded_value _)). unfold verify_websocket_accept.
  fold (compute_websocket_accept SHA1 key). rewrite streq_refl. cbn [negb]. assert ((Response.take_remaining (Response.Parser dF b tail)).1 = tail) as Et by (cbn; by rewrite Hl).
  rewrite Et. assert (proto = [] \/ proto ∈ protocols) as Hn by (destruct (negotiated protocols supported) as [E|[Hin _]]; auto).
  clearbody proto. destruct Hn as [E|Hin].
  - by rewrite E.
  - pose proof Hp as Htok. rewrite Forall_forall in Htok. specialize (Htok proto Hin). destruct proto as [|c0 p0]; [done|]. change (Headers.get (str "Sec-WebSocket-Protocol") _) with (c0 :: p0).
    rewrite (trim_ows_token (c0 :: p0)) by done. rewrite (trim_ows_token (c0 :: p0)) by done. assert (existsb (streq (c0 :: p0)) protocols = true) as ->; [|done].
    apply existsb_exists. exists (c0 :: p0). split; [by apply list_elem_of_In|apply streq_refl].
Qed.

(** Interim responses and the bytes that are sent for them. *)
Definition interims_ok order max_headers max_header_size (l : list (Plan.response * list byte)) : Prop :=
  Forall (fun e => informational order max_headers max_header_size e.1 e.2 /\ Plan.status_ (Plan.head_ e.1) <> 101) l.

(** What the client reads, in [chunks] that are not empty: [sent], the last of its bytes with the last chunk, and then [tail]. *)
Record arrives (sent tail : list byte) (chunks : list (list byte)) : Prop := {
  ar_bytes : concat chunks = sent ++ tail;
  ar_chunks : Forall (fun c => c <> []) chunks;
  ar_last : zlen (concat (removelast chunks)) < zlen sent;
}.

Lemma handshake_read SHA1 order max_message_size max_headers max_header_size key protocols interims r wire tail chunks more fuel :
  (forall h, order h ≡ₚ Headers.headers_ h) -> 200 <= max_header_size -> max_headers <= SIZE_MAX ->
  informational order max_headers max_header_size r wire -> Plan.status_ (Plan.head_ r) = 101 -> interims_ok order max_headers max_header_size interims ->
  arrives (concat (map snd interims) ++ wire) tail chunks -> zlen (concat (map snd interims) ++ wire) <= header_buffer_limit max_headers max_header_size ->
  (length chunks + S (length interims) <= fuel)%nat ->
  exists dF b, perform_handshake SHA1 key protocols max_message_size max_headers max_header_size (fun _ => false) fuel (map Data chunks ++ more) =
      check_response SHA1 key protocols (Ws.new_parser max_message_size Ws.client) (Response.Parser dF b tail) /\
    Response.is_complete dF = true /\ Response.line_ dF = [] /\ Response.status_ dF = 101 /\
    forall name, Headers.get name (Response.headers_ dF) = trim_ows (Headers.get name (protocol_headers (Plan.head_ r))).
Proof.
  intros Ho Hms Hmh Hr H101 Hint [Hbytes Hch Hlast] Hlim Hfuel. set (d0 := Response.decoder_ (handshake_parser max_headers max_header_size)).
  destruct (informational_message order max_headers max_header_size r wire Ho Hms Hmh Hr) as (dF & HM & HsF & Hget). fold d0 in HM. rewrite H101 in HsF.
  assert (answer d0 dF (map snd interims ++ [wire])) as HA.
  { clear -Ho Hms Hmh Hint HM HsF. induction Hint as [|[q w] l [Hq Hne] _ IH]; [by apply answer_final|]. cbn [map app snd].
    destruct (informational_message order max_headers max_header_size q w Ho Hms Hmh Hq) as (d & Hm & Hs & _). apply answer_interim with d; [done| |done].
    pose proof (inf_status _ _ _ _ _ Hq) as Hst. cbn [fst] in Hst, Hne. unfold interim. rewrite Hs. lia. }
  assert (exists m L, map snd interims ++ [wire] = m :: L /\ length L = length interims) as (m & L & EL & HL).
  { destruct interims as [|[q w] l]; [by exists wire, []|]. exists w, (map snd l ++ [wire]). split; [done|]. rewrite length_app, length_map. cbn. lia. }
  assert (concat (map snd interims) ++ wire = m ++ concat L) as Ec.
  { change (m ++ concat L) with (concat (m :: L)). rewrite <-EL, concat_app. cbn. by rewrite app_nil_r. }
  rewrite EL in HA. rewrite Ec in *.
  destruct (loop_reads SHA1 key protocols (Ws.new_parser max_message_size Ws.client) (header_buffer_limit max_headers max_header_size) (fun _ => false) (fun _ => eq_refl) d0 eq_refl fuel dF more tail
    (Reading (handshake_parser max_headers max_header_size) 0 0 0 []) [] m L chunks d0 HA) as [b Hb].
  - apply (reading_fresh d0 eq_refl).
  - split; cbn [pending_handshake_bytes total_read skipped_informational_bytes app]; try done.
    + inversion HA; by eapply (message_nonempty d0 eq_refl).
    + by rewrite Hbytes, <-app_assoc.
    + change (zlen []) with 0. lia.
    + lia.
  - exists dF, b. split; [exact Hb|]. destruct HM as (_ & Hc & Hl & _). done.
Qed.

(** The bytes behind the response are what [Ws.parse] makes of them. *)
Lemma accept_pipelined_parse max proto tail : exists frames n, Ws.parse tail (Ws.new_parser max Ws.client) = Some (frames, n) /\
  accept_pipelined (Ws.new_parser max Ws.client) proto tail = if (n <? 0) || Ws.has_error_ frames then Frame_error (Ws.error_close_code_ frames) else Connected proto frames.
Proof.
  destruct (WsP.parse_total tail (Ws.new_parser max Ws.client)) as (frames & n & E). exists frames, n. split; [done|].
  unfold accept_pipelined. destruct tail as [|c tail]; [rewrite WsP.parse_nil in E; by injection E as <- <-|]. by rewrite E.
Qed.

(** [C24] The two sides of the WebSocket handshake agree.  The request that a client writes (its field lines within the 8192 bytes of the server's parser, the path
    without a question mark) is read by the server as one complete request with the path and query of the URL and accepted as an upgrade with
    the first subprotocol of the client that the server supports.  The 101 response that the server
    builds for it, after any interim responses, cut in any way into reads (all of it within the client's limits: at least four field lines of 200 bytes, room for every offered subprotocol,
    and the interim responses and the answer together within [saturated_response_header_buffer_limit]), ends the handshake: the bytes that followed the response go to the frame parser, the client
    is connected with the same subprotocol when they are accepted and reports EBADMSG with the parser's close code when they are not.  When they are the beginning of the frames of a conforming server, the client is connected and the
    rest of these frames completes every message, none lost.  The fuel only has to count the reads and the responses. *)
Theorem handshake_end_to_end inet_pton SHA1 order host path query nonce protocols origin user_agent request supported max_message_size max_headers max_header_size :
  (forall s, length (SHA1 s) = 20%nat) -> (forall h, order h ≡ₚ Headers.headers_ h) ->
  length nonce = 16%nat -> path <> [] -> "?"%byte ∉ path ->
  let key := base64_encode nonce in
  client_request host (Request.target_of path query) key protocols origin user_agent = Ok request -> request_fits (client_lines host key protocols origin user_agent) ->
  4 <= max_headers <= SIZE_MAX -> 200 <= max_header_size -> Forall (fun t => zlen t + 24 <= max_header_size) protocols ->
  exists p r wire, Request.parse inet_pton request Request.new_parser = Ok (Request.Complete, zlen request, p) /\ Request.path_ p = path /\ Request.query_ p = query /\
    let req := Message.from_parser p in
    let proto := negotiate_protocol protocols supported in
    validate_upgrade_request req supported = UpgradeResult true [] proto /\
    build_upgrade_response SHA1 (header (str "Sec-WebSocket-Key") req) proto = Ok r /\ Plan.serialize order GET r = Some wire /\
    forall interims tail chunks more fuel, interims_ok order max_headers max_header_size interims ->
      arrives (concat (map snd interims) ++ wire) tail chunks -> zlen (concat (map snd interims) ++ wire) <= header_buffer_limit max_headers max_header_size ->
      (length chunks + S (length interims) <= fuel)%nat ->
      let fresh := Ws.new_parser max_message_size Ws.client in
      let ended := perform_handshake SHA1 key protocols max_message_size max_headers max_header_size (fun _ => false) fuel (map Data chunks ++ more) in
      (exists frames n, Ws.parse tail fresh = Some (frames, n) /\
        ended = if (n <? 0) || Ws.has_error_ frames then Frame_error (Ws.error_close_code_ frames) else Connected proto frames) /\
      (forall items sent rest, map WsP.shape sent = concat (map WsP.item_frames items) -> Forall (WsP.frame_wf Ws.client) sent -> Forall (WsP.item_ok max_message_size) items ->
        tail ++ rest = concat (map WsP.enc sent) ->
        exists frames m, ended = Connected proto frames /\ Ws.parse rest frames = Some (WsP.push_events (concat (map WsP.item_events items)) fresh, m) /\ 0 <= m).
Proof.
  intros Hsha Ho Hn Hpath Hq key Hreq Hfit [Hmh Hmh'] Hms Hlen. set (proto := negotiate_protocol protocols supported).
  assert (Forall (fun t => is_valid_token t = true) protocols) as Htok by (apply client_request_wire in Hreq as [[] _]; done).
  destruct (client_request_parsed inet_pton _ _ _ _ _ _ _ _ Hreq Hpath Hq Hfit) as (p & Hparse & Hm & Hp & Hqq & Hrep).
  destruct (client_request_upgrades host nonce protocols origin user_agent supported (Message.from_parser p) Hn Htok Hm Hrep) as [Hval Hkey].
  assert (is_valid_header_value proto = true /\ zlen proto + 24 <= max_header_size) as [Hpv Hpl].
  { unfold proto. destruct (negotiated protocols supported) as [->|[Hin _]]; [split; [done|change (zlen []) with 0; lia]|]. rewrite Forall_forall in Htok, Hlen. split; [by apply token_value, Htok|by apply Hlen]. }
  destruct (upgrade_response_wire SHA1 order max_headers max_header_size key proto Hsha Ho Hpv Hmh Hms Hpl) as (r & wire & Hr & Hinf & H101 & Eh).
  exists p, r, wire. cbv zeta. split; [done|]. split; [done|]. split; [done|]. split; [done|]. split; [by rewrite Hkey|]. split; [apply Hinf|].
  intros interims tail chunks more fuel Hint Harr Hlim Hfuel.
  destruct (handshake_read SHA1 order max_message_size max_headers max_header_size key protocols interims r wire tail chunks more fuel Ho Hms Hmh' Hinf H101 Hint Harr Hlim Hfuel) as (dF & b & -> & Hc & Hl & Hs & Hget).
  rewrite Eh in Hget. rewrite (check_accepts SHA1 key protocols _ supported dF b tail Htok Hc Hl Hs Hget). fold proto.
  destruct (accept_pipelined_parse max_message_size proto tail) as (frames & n & Hp0 & ->). split; [by exists frames, n|].
  intros items sent rest Hsh Hwf Hok Hbytes. destruct (WsP.parse_items_split max_message_size Ws.client items sent tail rest Hsh Hwf Hok Hbytes) as (f & k & m & E & Hk & He & Hrest).
  rewrite E in Hp0. injection Hp0 as <- <-. exists f, m. rewrite He, (proj2 (Z.ltb_ge k 0) Hk). done.
Qed.

(** The example of RFC 6455, with the SHA-1 of the library. *)
Example rfc6455_accept : compute_websocket_accept Sha1.fips_sha1 (str "dGhlIHNhbXBsZSBub25jZQ==") = str "s3pPLMBiTxaQ9kYGzzhZRbK+xOo=".
Proof. vm_compute. reflexivity. Qed.

(** A client that offers two subprotocols to a server that supports the second; the answer arrives in one read
    with the first byte of a text frame, or with a byte that begins no frame. *)
Definition sample_nonce : list byte := str "the sample nonce".
Definition sample_protocols : list (list byte) := [str "mqtt"; str "chat"].
Definition sample_request : list byte :=
  Eval vm_compute in match client_request (str "a") (str "/b?c=1") (base64_encode sample_nonce) sample_protocols [] (str "elio") with Ok r => r | Throw _ => [] end.

Lemma handshake_end_to_end_witness : let SHA1 := fun _ : list byte => repeat x01 20 in let key := base64_encode sample_nonce in
  client_request (str "a") (str "/b?c=1") key sample_protocols [] (str "elio") = Ok sample_request /\
  exists p r wire, Request.parse (fun _ => false) sample_request Request.new_parser = Ok (Request.Complete, zlen sample_request, p) /\
    validate_upgrade_request (Message.from_parser p) [str "chat"] = UpgradeResult true [] (str "chat") /\
    build_upgrade_response SHA1 (header (str "Sec-WebSocket-Key") (Message.from_parser p)) (str "chat") = Ok r /\ Plan.serialize Headers.headers_ GET r = Some wire /\
    (exists frames m, perform_handshake SHA1 key sample_protocols 1024 100 8192 (fun _ => false) 2 [Data (wire ++ [x81])] = Connected (str "chat") frames /\
      Ws.parse (x02 :: str "hi") frames = Some (WsP.push_events [inl (Ws.Message Ws.op_text (str "hi"))] (Ws.new_parser 1024 Ws.client), m)) /\
    perform_handshake SHA1 key sample_protocols 1024 100 8192 (fun _ => false) 2 [Data (wire ++ [x85; x00])] = Frame_error 1002.
Proof.
  intros SHA1 key. assert (client_request (str "a") (str "/b?c=1") key sample_protocols [] (str "elio") = Ok sample_request) as Hreq by (vm_compute; reflexivity).
  split; [exact Hreq|].
  destruct (handshake_end_to_end (fun _ => false) SHA1 Headers.headers_ (str "a") (str "/b") (str "c=1") sample_nonce sample_protocols [] (str "elio") sample_request [str "chat"] 1024 100 8192)
    as (p & r & wire & Hparse & _ & _ & Hval & Hb & Hs & Hall);
    [reflexivity|reflexivity|reflexivity|discriminate| |exact Hreq| |split; [lia|by vm_compute]|lia| |].
  - intros Hin. apply list_elem_of_In in Hin. vm_compute in Hin. by repeat destruct Hin as [Hin|Hin].
  - repeat constructor; by vm_compute.
  - repeat constructor; by vm_compute.
  - exists p, r, wire. split; [exact Hparse|]. split; [exact Hval|]. split; [exact Hb|]. split; [exact Hs|].
    vm_compute in Hparse. injection Hparse as <-. vm_compute in Hb. injection Hb as <-. vm_compute in Hs. injection Hs as Ew.
    split.
    + destruct (Hall [] [x81] [wire ++ [x81]] [] 2%nat) as [_ H]; [constructor|rewrite <-Ew; split; [vm_compute; reflexivity|by repeat constructor|by vm_compute]|rewrite <-Ew; by vm_compute|vm_compute; lia|].
      destruct (H [WsP.IMsg Ws.op_text [([], str "hi")]] [WsP.WFrame true Ws.op_text (str "hi") false (repeat x00 4) (repeat x00 4)] (x02 :: str "hi")) as (frames & m & E & Em & _);
        [reflexivity|repeat constructor; by vm_compute| |reflexivity|by exists frames, m].
      constructor; [|constructor]. split; [done|]. split; [by constructor|]. split; [by left|]. split; [by intros _; vm_compute|by intros _; vm_compute].
    + destruct (Hall [] [x85; x00] [wire ++ [x85; x00]] [] 2%nat) as [(frames & n & Ef & E) _]; [constructor|rewrite <-Ew; split; [vm_compute; reflexivity|by repeat constructor|by vm_compute]|rewrite <-Ew; by vm_compute|vm_compute; lia|].
      vm_compute in Ef. injection Ef as <- <-. exact E.
Defined.

End Handshake.
