(* ===== verification/HttpWriter.v ===== *)
(** * Writing a response

    Models [src/include/elio/http/http_body_writer.hpp], [http_streaming_response.hpp] and [http_response_sender.hpp] of the same directory: the
    writer that frames the bytes of a producer, over a transport that accepts any part of what it is
    offered, and the coroutine that sends a whole response.  The transport, cancellation, the deadline and
    allocation failures are the environment: lists of what they answer, one entry for each time they are
    asked.  [sent] is what the transport has accepted.

    A response that was sent successfully is, byte for byte, the header block of its plan and the
    framed body of its producer, and a client decodes it ([response_delivered]); after any failure the wire holds a prefix of
    such a message and the writer stays failed. *)

From Stdlib Require Import Strings.Byte Strings.String ZifyBool.
From S2P Require Import Prelude Str HttpCommon HttpHeaders HttpChunk HttpRequest HttpMessage HttpDecoder HttpPlan.

Module Writer.
Import Http Plan.

#[local] Arguments str : simpl never.

(** ** Results *)

Definition EINTR : Z := 4.
Definition EIO : Z := 5.
Definition ENOMEM : Z := 12.
Definition EFAULT : Z := 14.
Definition EINVAL : Z := 22.
Definition EPIPE : Z := 32.
Definition EOVERFLOW : Z := 75.
Definition ETIMEDOUT : Z := 110.
Definition ECANCELED : Z := 125.

Inductive send_errc := none | invalid_response | length_mismatch | invalid_state | cancelled | timed_out | transport_error | producer_error.

#[global] Instance send_errc_eq_dec : EqDecision send_errc.
Proof. solve_decision. Defined.

Record send_result := SendResult { error : send_errc; transport_errno : Z; confirmed_body_bytes : Z }.

Definition success (r : send_result) : bool := bool_decide (error r = none).

(** [send_result{code, errno}]. *)
Definition failure (e : send_errc) (n : Z) : send_result := SendResult e n 0.

(** ** The environment *)

(** What can end an operation from outside: a token, the deadline, or the task that watches the deadline. *)
Inductive interruption := Cancel | Deadline | Watchdog (e : Z).

(** What a call of the transport returns, or throws, and what happens while it is awaited; the transport sees how many bytes it is offered. *)
Inductive answer := Sent (n : Z) | Error (e : Z) | Throws (e : Z).
Record reply_ := Reply { during : option interruption; answered : answer }.

(** At the start of an operation: the allocation of the coroutine frame may throw, a token may be cancelled already, and
    the preparation (shared state, registrations, the watchdog) may fail. *)
Record entry := Entry { frame_error : option Z; is_cancelled : bool; setup_error : option Z }.

Record world := World { sent : list byte; replies : list (Z -> reply_); polls : list (option interruption); entries : list entry }.

Definition poll (w : world) : option interruption * world :=
  match polls w with [] => (None, w) | i :: polls => (i, World (sent w) (replies w) polls (entries w)) end.

Definition enter (w : world) : entry * world :=
  match entries w with [] => (Entry None false None, w) | e :: entries => (e, World (sent w) (replies w) (polls w) entries) end.

(** ** Arbitration *)

Inductive winner := Pending | W_success | W_cancelled | W_timed_out | W_error.

(** [outcome] and [failure_errno] of the shared state, and the local [transport_error]. *)
Record arbitration := Arbitration { outcome : winner; failure_errno : Z; local_error : Z }.

Definition new_arbitration : arbitration := Arbitration Pending EIO 0.
Definition pending (a : arbitration) : bool := match outcome a with Pending => true | _ => false end.
Definition claim (w : winner) (a : arbitration) : arbitration := if pending a then Arbitration w (failure_errno a) (local_error a) else a.
Definition watchdog_failed (e : Z) (a : arbitration) : arbitration := claim W_error (Arbitration (outcome a) e (local_error a)).

Definition interrupt (i : option interruption) (a : arbitration) : arbitration :=
  match i with None => a | Some Cancel => claim W_cancelled a | Some Deadline => claim W_timed_out a | Some (Watchdog e) => watchdog_failed e a end.

(** [if (state->claim(winner::error)) transport_error = e]. *)
Definition claim_error (e : Z) (a : arbitration) : arbitration := if pending a then Arbitration W_error (failure_errno a) e else a.

(** ** One batch of vectors *)

(** A vector and whether it holds bytes of the body. *)
Definition vec : Type := bool * list byte.

(** The loop that advances over the vectors: the bytes of the body, what is left of the vectors and of [progress]. *)
Fixpoint consume (progress : Z) (vectors : list vec) : Z * list vec * Z :=
  match vectors with
  | [] => (0, [], progress)
  | (payload, bytes) :: rest =>
      if progress =? 0 then (0, vectors, 0)
      else
        let consumed := Z.min progress (zlen bytes) in
        let counted := if payload then consumed else 0 in
        match drop (Z.to_nat consumed) bytes with
        | [] => let '(c, v, p) := consume (progress - consumed) rest in (counted + c, v, p)
        | remainder => (counted, (payload, remainder) :: rest, 0)
        end
  end.

Definition vec_bytes (vectors : list vec) : list byte := concat (map snd vectors).

(** [None]: the transport has not answered yet. *)
Fixpoint send_vectors (answers : list (Z -> reply_)) (w : world) (vectors : list vec) (a : arbitration) (confirmed : Z) : option (arbitration * Z * world) :=
  match vectors with
  | [] => Some (a, confirmed, World (sent w) answers (polls w) (entries w))
  | _ =>
      let (i, w) := poll w in
      let a := interrupt i a in
      if negb (pending a) then Some (a, confirmed, World (sent w) answers (polls w) (entries w))
      else
        match answers with
        | [] => None
        | transport :: answers =>
            let r := transport (zlen (vec_bytes vectors)) in
            let a := interrupt (during r) a in
            let stop e := Some (claim_error e a, confirmed, World (sent w) answers (polls w) (entries w)) in
            match answered r with
            | Error e => if e =? EINTR then send_vectors answers w vectors a confirmed else stop e
            | Throws e => stop e
            | Sent n =>
                if n <=? 0 then stop EPIPE
                else
                  let w := World (sent w ++ take (Z.to_nat n) (vec_bytes vectors)) answers (polls w) (entries w) in
                  let '(counted, vectors, progress) := consume n vectors in
                  if negb (progress =? 0) then Some (claim_error EIO a, confirmed + counted, w)
                  else send_vectors answers w vectors a (confirmed + counted)
            end
        end
  end.

(** ** The writer *)

Inductive phase := headers | open | finished | failed.
Inductive operation := op_headers | op_body | op_finish.

#[global] Instance operation_eq_dec : EqDecision operation.
Proof. solve_decision. Defined.

Record body_writer := BodyWriter {
  framing_ : response_framing;
  expected_ : option Z;
  busy_ : bool;
  phase_ : phase;
  confirmed_ : Z;
  result_ : send_result
}.

Definition no_result : send_result := SendResult none 0 0.

(** A plan that is no success never gets here (prepare_response gives none); its writer would start failed. *)
Definition create (p : response_plan) : body_writer := BodyWriter (framing p) (expected_body_bytes p) false headers 0 no_result.

Definition with_phase ph w := BodyWriter (framing_ w) (expected_ w) (busy_ w) ph (confirmed_ w) (result_ w).
Definition with_confirmed n w := BodyWriter (framing_ w) (expected_ w) (busy_ w) (phase_ w) n (result_ w).
Definition with_result r w := BodyWriter (framing_ w) (expected_ w) (busy_ w) (phase_ w) (confirmed_ w) r.

Definition fail (f : send_result) (w : body_writer) : send_result * body_writer :=
  match phase_ w with
  | failed => (result_ w, w)
  | _ => let r := SendResult (error f) (transport_errno f) (confirmed_ w) in (r, with_phase failed (with_result r w))
  end.

Inductive body_buffer := Buffer (bytes : list byte) | Null (size : Z).

Definition buffer_size (b : body_buffer) : Z := match b with Buffer bytes => zlen bytes | Null n => n end.

(** The sum of the sizes, or the error of a null pointer or of an overflow. *)
Fixpoint total_size (buffers : list body_buffer) (total : Z) : Z + Z :=
  match buffers with
  | [] => inl total
  | b :: buffers =>
      if (match b with Null n => negb (n =? 0) | Buffer _ => false end) then inr EFAULT
      else if u64 (SIZE_MAX - total) <? buffer_size b then inr EOVERFLOW
      else total_size buffers (u64 (total + buffer_size b))
  end.

Definition max_batch : Z := 2 ^ 30.

(** The vectors of one batch; [rest] is what follows [cursor] and [offset]. *)
Fixpoint gather (count : nat) (space : Z) (rest : list (list byte)) : list (list byte) * list (list byte) :=
  match rest with
  | [] => ([], [])
  | b :: tail =>
      if (count =? 0)%nat || (space <=? 0) then ([], rest)
      else
        match b with
        | [] => gather count space tail
        | _ =>
            let size := Z.min (zlen b) space in
            let v := take (Z.to_nat size) b in
            match drop (Z.to_nat size) b with
            | [] => if (count =? 1)%nat || (space - size <=? 0) then ([v], [] :: tail)
                    else let (vs, rest) := gather (pred count) (space - size) tail in (v :: vs, rest)
            | remainder => ([v], remainder :: tail)
            end
        end
  end.

Definition batch_vectors (chunked body : bool) (pieces : list (list byte)) : list vec :=
  let payload := map (pair body) pieces in
  if chunked then (false, to_chars 16 (zlen (concat pieces)) ++ crlf) :: payload ++ [(false, crlf)] else payload.

(** The loop over the batches; every round takes at least one byte. *)
Fixpoint send_batches (fuel : nat) (is_chunked body : bool) (rest : list (list byte)) (remaining : Z) (a : arbitration) (confirmed : Z) (w : world)
    : option (arbitration * Z * world) :=
  match fuel with
  | O => Some (a, confirmed, w)
  | S fuel =>
      if remaining =? 0 then Some (a, confirmed, w)
      else
        let (i, w) := poll w in
        let a := interrupt i a in
        if negb (pending a) then Some (a, confirmed, w)
        else
          let (pieces, rest) := gather (if is_chunked then 62 else 64) max_batch rest in
          match send_vectors (replies w) w (batch_vectors is_chunked body pieces) a confirmed with
          | None => None
          | Some (a, confirmed, w) => send_batches fuel is_chunked body rest (remaining - zlen (concat pieces)) a confirmed w
          end
  end.

Definition buffer_bytes (b : body_buffer) : list byte := match b with Buffer bytes => bytes | Null _ => [] end.

(** An operation after the checks of its arguments: send, and read the outcome. *)
Definition transmit (buffers : list body_buffer) (op : operation) (total : Z) (setup : option Z) (bw : body_writer) (w : world)
    : option (send_result * body_writer * world) :=
  let (i, w) := poll w in
  let a := interrupt i new_arbitration in
  let a := match setup with Some e => claim_error e a | None => a end in
  let is_chunked := bool_decide (op = op_body) && bool_decide (framing_ bw = chunked) in
  match send_batches (S (Z.to_nat total)) is_chunked (bool_decide (op = op_body)) (map buffer_bytes buffers) total a (confirmed_ bw) w with
  | None => None
  | Some (a, confirmed, w) =>
      let (i, w) := poll w in
      let a := claim W_success (interrupt i a) in
      let bw := with_confirmed confirmed bw in
      let ended f := Some (fail f bw, w) in
      match outcome a with
      | W_cancelled => ended (failure cancelled ECANCELED)
      | W_timed_out => ended (failure timed_out ETIMEDOUT)
      | W_error => ended (failure transport_error (if local_error a =? 0 then failure_errno a else local_error a))
      | _ =>
          let bw := match op with op_headers => with_phase open bw | op_finish => with_phase finished bw | op_body => bw end in
          let r := SendResult (error (result_ bw)) (transport_errno (result_ bw)) confirmed in
          Some (r, with_result r bw, w)
      end
  end.

(** The guards of [perform], in their order. *)
Definition perform (buffers : list body_buffer) (op : operation) (is_cancelled : bool) (setup : option Z) (bw : body_writer) (w : world)
    : option (send_result * body_writer * world) :=
  if busy_ bw then Some (failure invalid_state 0, bw, w)
  else
    match phase_ bw with
    | failed => Some (result_ bw, bw, w)
    | ph =>
        let stop f := Some (fail f bw, w) in
        if negb (match op, ph with op_headers, headers => true | op_headers, _ => false | _, open => true | _, _ => false end) then stop (failure invalid_state 0)
        else if is_cancelled then stop (failure cancelled ECANCELED)
        else
          match total_size buffers 0 with
          | inr e => stop (failure invalid_response e)
          | inl total =>
              if bool_decide (op = op_body) && (match expected_ bw with Some e => u64 (e - confirmed_ bw) <? total | None => false end) then stop (failure length_mismatch 0)
              else if bool_decide (op = op_body) && (u64 (SIZE_MAX - confirmed_ bw) <? total) then stop (failure invalid_response EOVERFLOW)
              else if bool_decide (op = op_finish) && (match expected_ bw with Some e => negb (confirmed_ bw =? e) | None => false end) then stop (failure length_mismatch 0)
              else transmit buffers op total setup bw w
          end
    end.

(** The coroutine, or an exception when its frame cannot be allocated: the writer is failed in both cases. *)
Definition start_operation (buffers : list body_buffer) (op : operation) (bw : body_writer) (w : world)
    : option (result Z send_result * body_writer * world) :=
  let (e, w) := enter w in
  match frame_error e with
  | Some n => let (_, bw) := fail (failure transport_error n) bw in Some (Throw n, bw, w)
  | None => match perform buffers op (is_cancelled e) (setup_error e) bw w with None => None | Some (r, bw, w) => Some (Ok r, bw, w) end
  end.

Definition writev (buffers : list body_buffer) := start_operation buffers op_body.

(** [start_one] allocates a frame of its own before it starts the operation. *)
Definition start_one (bytes : list byte) (op : operation) (bw : body_writer) (w : world) : option (result Z send_result * body_writer * world) :=
  let (e, w) := enter w in
  match frame_error e with
  | Some n => let (_, bw) := fail (failure transport_error n) bw in Some (Throw n, bw, w)
  | None => start_operation [Buffer bytes] op bw w
  end.

Definition write (bytes : list byte) := start_one bytes op_body.
Definition send_headers (bytes : list byte) := start_one bytes op_headers.
Definition finish (bw : body_writer) := start_one (if bool_decide (framing_ bw = chunked) then Response.last_chunk else []) op_finish bw.

(** ** Sending a response *)

(** A producer: it writes, sees what the write returned or threw, and ends with a result or an exception. *)
Inductive producer :=
| Return (r : send_result)
| Raise
| Write (bytes : list byte) (next : result Z send_result -> producer)
| Writev (buffers : list body_buffer) (next : result Z send_result -> producer).

(** The result, or [None] for an exception. *)
Fixpoint invoke (p : producer) (bw : body_writer) (w : world) : option (option send_result * body_writer * world) :=
  match p with
  | Return r => Some (Some r, bw, w)
  | Raise => Some (None, bw, w)
  | Write bytes next => match write bytes bw w with None => None | Some (r, bw, w) => invoke (next r) bw w end
  | Writev buffers next => match writev buffers bw w with None => None | Some (r, bw, w) => invoke (next r) bw w end
  end.

Record streaming_response := StreamingResponse {
  streaming_head : response_head;
  producer_ : option producer;
  body_length : option Z;
  streaming_transfer : response_transfer;
  invoked_ : bool
}.

Definition can_produce (s : streaming_response) : bool := match producer_ s with Some _ => negb (invoked_ s) | None => false end.

Definition produce (s : streaming_response) (bw : body_writer) (w : world) : option (option send_result * streaming_response * body_writer * world) :=
  match producer_ s with
  | Some p =>
      if invoked_ s then Some (Some (failure invalid_state 0), s, bw, w)
      else
        let s := StreamingResponse (streaming_head s) (producer_ s) (body_length s) (streaming_transfer s) true in
        match invoke p bw w with None => None | Some (r, bw, w) => Some (r, s, bw, w) end
  | None => Some (Some (failure invalid_state 0), s, bw, w)
  end.

Inductive reply := Complete (r : response) | Streaming (s : streaming_response) | Tunnel.

Record response_send_result := ResponseSendResult { sent_result : send_result; sent_reusable : bool }.

Definition unsent (f : send_result) : response_send_result := ResponseSendResult f false.

(** The final step: the end of the body, and whether the connection can be used again. *)
Definition conclude (p : response_plan) (bw : body_writer) (w : world) : option (response_send_result * world) :=
  match finish bw w with
  | None => None
  | Some (Ok r, _, w) => Some (ResponseSendResult r (success r && reusable p), w)
  | Some (Throw e, bw, w) => Some (unsent (fail (failure transport_error e) bw).1, w)
  end.

(** The body of a complete response. *)
Definition send_complete (body : list byte) (p : response_plan) (bw : body_writer) (w : world) : option (response_send_result * world) :=
  if bool_decide (framing p = Plan.none) then conclude p bw w
  else
    match write body bw w with
    | None => None
    | Some (Ok r, bw, w) => if success r then conclude p bw w else Some (unsent r, w)
    | Some (Throw e, bw, w) => Some (unsent (fail (failure transport_error e) bw).1, w)
    end.

(** The body of a producer. *)
Definition send_streaming (s : streaming_response) (p : response_plan) (bw : body_writer) (w : world) : option (response_send_result * streaming_response * world) :=
  if invoke_producer p then
    match produce s bw w with
    | None => None
    | Some (produced, s, bw, w) =>
        let produced := match produced with Some r => r | None => failure producer_error 0 end in
        if success produced then match conclude p bw w with None => None | Some (r, w) => Some (r, s, w) end
        else Some (unsent (fail produced bw).1, s, w)
    end
  else match conclude p bw w with None => None | Some (r, w) => Some (r, s, w) end.

(** The header block; [inl] is the result of the whole response. *)
Definition send_head (p : response_plan) (w : world) : option ((response_send_result + body_writer) * world) :=
  match send_headers (header_block p) (create p) w with
  | None => None
  | Some (Ok r, bw, w) => Some (if success r then inr bw else inl (unsent r), w)
  | Some (Throw e, bw, w) => Some (inl (unsent (fail (failure transport_error e) bw).1), w)
  end.

Section Sender.
Context (order : Headers.headers -> list (list byte * list byte)).

(** [no_memory]: the plan could not be allocated. *)
Definition send_response (selected : reply) (request_method : method) (request_version : list byte) (allow_reuse no_memory : bool) (w : world)
    : option (response_send_result * reply * world) :=
  let refused f := Some (unsent f, selected, w) in
  let planned head description (continue : response_plan -> option (response_send_result * reply * world)) :=
    if no_memory then refused (failure invalid_response ENOMEM)
    else match prepare_response order head description request_method request_version allow_reuse with
         | None => refused (failure invalid_response EINVAL)
         | Some p => continue p
         end in
  match selected with
  | Tunnel => refused (failure invalid_response EINVAL)
  | Complete r =>
      planned (head_ r) (BodyDescription complete (Some (zlen (body_ r))) automatic) (fun p =>
        match send_head p w with
        | None => None
        | Some (inl f, w) => Some (f, selected, w)
        | Some (inr bw, w) => match send_complete (body_ r) p bw w with None => None | Some (res, w) => Some (res, selected, w) end
        end)
  | Streaming s =>
      if negb (can_produce s) then refused (failure invalid_state 0)
      else planned (streaming_head s) (BodyDescription streaming (body_length s) (streaming_transfer s)) (fun p =>
        match send_head p w with
        | None => None
        | Some (inl f, w) => Some (f, selected, w)
        | Some (inr bw, w) => match send_streaming s p bw w with None => None | Some (res, s, w) => Some (res, Streaming s, w) end
        end)
  end.

End Sender.

(** ** Bytes and counts *)

(** The bytes of the body among the first [n] bytes of the vectors. *)
Fixpoint payload_in (n : nat) (vectors : list vec) : Z :=
  match vectors with
  | [] => 0
  | (payload, bytes) :: rest => (if payload then Z.of_nat (Nat.min n (length bytes)) else 0) + payload_in (n - length bytes) rest
  end.

Definition full (vectors : list vec) : Prop := Forall (fun v => v.2 <> []) vectors.

Lemma vec_bytes_cons p b vs : vec_bytes ((p, b) :: vs) = b ++ vec_bytes vs.
Proof. done. Qed.

Lemma payload_in_0 vs : payload_in 0 vs = 0.
Proof. induction vs as [|[p b] vs IH]; [done|]. cbn [payload_in]. rewrite Nat.min_0_l, Nat.sub_0_l, IH. by destruct p. Qed.

(** What [consume] leaves. *)
Lemma consume_spec n vs : full vs -> let '(c, vs', p) := consume (Z.of_nat n) vs in
  c = payload_in n vs /\ vec_bytes vs' = drop n (vec_bytes vs) /\ full vs' /\ p = Z.of_nat (n - length (vec_bytes vs)) /\
  forall m, payload_in (n + m) vs = payload_in n vs + payload_in m vs'.
Proof.
  intros Hf. revert n. induction Hf as [|[pl b] vs Hb Hf IH]; intros n.
  { cbn. rewrite drop_nil. split_and!; try done; [constructor|lia]. }
  cbn [consume]. cbn [snd] in Hb. destruct (Z.eqb_spec (Z.of_nat n) 0) as [E|E].
  { assert (n = 0%nat) as -> by lia. rewrite payload_in_0. split_and!; try done. by constructor. }
  rewrite vec_bytes_cons. set (k := Nat.min n (length b)). assert (Z.to_nat (Z.min (Z.of_nat n) (zlen b)) = k) as -> by (unfold zlen, k; lia).
  assert (Z.min (Z.of_nat n) (zlen b) = Z.of_nat k) as -> by (unfold zlen, k; lia). destruct (drop k b) as [|x l] eqn:Ed.
  - assert (length b <= n)%nat as Hn by (apply (f_equal length) in Ed; rewrite length_drop in Ed; cbn in Ed; unfold k in Ed; lia).
    assert (k = length b) as Hk by (unfold k; lia). specialize (IH (n - length b)%nat). replace (Z.of_nat n - Z.of_nat k) with (Z.of_nat (n - length b)) by lia.
    destruct (consume (Z.of_nat (n - length b)) vs) as [[c v] p]. destruct IH as (-> & Hv & Hfull & -> & Hm). cbn [payload_in]. fold k. rewrite Hk in *.
    split_and!; [done|by rewrite Hv, drop_app_ge by lia|done|rewrite length_app; lia|]. intros m. replace (n + m - length b)%nat with (n - length b + m)%nat by lia. rewrite Hm.
    replace (Nat.min (n + m) (length b)) with (length b) by lia. destruct pl; lia.
  - assert (n < length b)%nat as Hn by (apply (f_equal length) in Ed; rewrite length_drop in Ed; cbn in Ed; unfold k in Ed; lia). assert (k = n) as Hk by (unfold k; lia).
    rewrite Hk in *. cbn [payload_in]. fold k. rewrite Hk. replace (n - length b)%nat with 0%nat by lia. rewrite payload_in_0.
    split_and!; [destruct pl; lia|rewrite vec_bytes_cons, drop_app_le by lia; by rewrite Ed|by constructor|rewrite length_app; lia|].
    intros m. cbn [payload_in]. assert (length (x :: l) = length b - n)%nat as Hlen by (rewrite <-Ed, length_drop; lia). rewrite Hlen.
    replace (n + m - length b)%nat with (m - (length b - n))%nat by lia. destruct pl; lia.
Qed.

Lemma payload_in_min n vs : payload_in n vs = payload_in (Nat.min n (length (vec_bytes vs))) vs.
Proof.
  revert n. induction vs as [|[p b] vs IH]; intros n; [done|]. rewrite vec_bytes_cons, length_app. cbn [payload_in]. rewrite (IH (n - length b)%nat).
  replace (Nat.min n (length b + length (vec_bytes vs)) - length b)%nat with (Nat.min (n - length b) (length (vec_bytes vs))) by lia.
  replace (Nat.min (Nat.min n (length b + length (vec_bytes vs))) (length b)) with (Nat.min n (length b)) by lia. done.
Qed.

Lemma full_nonempty vs : full vs -> vs <> [] -> vec_bytes vs <> [].
Proof. intros [|[p b] vs' Hb _]; [done|]. cbn [snd] in Hb. rewrite vec_bytes_cons. by destruct b. Qed.

Lemma claim_error_over e a : pending (claim_error e a) = false.
Proof. unfold claim_error. destruct (pending a) eqn:E; [done|exact E]. Qed.

Lemma interrupt_pending i a : pending (interrupt i a) = true -> pending a = true.
Proof. by destruct i as [[]|], a as [[] ? ?]. Qed.

Lemma claim_error_pending e a : pending (claim_error e a) = true -> pending a = true.
Proof. by destruct a as [[] ? ?]. Qed.

Lemma poll_sent w i w' : poll w = (i, w') -> sent w' = sent w /\ replies w' = replies w /\ entries w' = entries w.
Proof. unfold poll. destruct (polls w); intros [= <- <-]; done. Qed.

(** A batch: the transport has accepted the first [n] bytes, all of them if the operation goes on. *)
Lemma send_vectors_spec answers w vs a c a' c' w' : full vs -> send_vectors answers w vs a c = Some (a', c', w') ->
  exists n, (n <= length (vec_bytes vs))%nat /\ sent w' = sent w ++ take n (vec_bytes vs) /\ c' = c + payload_in n vs /\
    (pending a' = true -> n = length (vec_bytes vs)) /\ (pending a' = true -> pending a = true).
Proof.
  revert w vs a c. induction answers as [|r answers IH]; intros w vs a c Hf H.
  all: destruct vs as [|v vs]; [cbn in H; simplify_eq; exists 0%nat; rewrite app_nil_r; split_and!; (done || (cbn; lia))|].
  all: assert (forall (b : bool) (X Y : option (arbitration * Z * world)), (if b then X else Y) = Some (a', c', w') -> (b = true /\ X = Some (a', c', w')) \/ (b = false /\ Y = Some (a', c', w'))) as Hif by (intros []; auto).
  all: cbn [send_vectors] in H; destruct (poll w) as [i w1] eqn:Ep; apply poll_sent in Ep as (Es & _ & _);
       apply Hif in H as [[Hb H]|[Hb H]]; [simplify_eq; exists 0%nat; rewrite payload_in_0, app_nil_r; split_and!; try done; try lia; intros Hx; by rewrite Hx in Hb|].
  all: [> done |].
  apply negb_false_iff in Hb. pose proof (interrupt_pending _ _ Hb) as Ha. set (r' := r (zlen (vec_bytes (v :: vs)))) in *. set (a2 := interrupt (during r') (interrupt i a)) in *.
  assert (forall e, Some (claim_error e a2, c, World (sent w1) answers (polls w1) (entries w1)) = Some (a', c', w') ->
    exists n, (n <= length (vec_bytes (v :: vs)))%nat /\ sent w' = sent w ++ take n (vec_bytes (v :: vs)) /\ c' = c + payload_in n (v :: vs) /\
    (pending a' = true -> n = length (vec_bytes (v :: vs))) /\ (pending a' = true -> pending a = true)) as Hstop.
  { intros e Hx. simplify_eq. exists 0%nat. rewrite payload_in_0, app_nil_r. cbn [sent]. split_and!; try done; try lia; intros Hx; by rewrite claim_error_over in Hx. }
  destruct (answered r') as [n|e|e].
  - apply Hif in H as [[Hb2 H]|[Hb2 H]]; [by apply (Hstop EPIPE)|]. pose proof (consume_spec (Z.to_nat n) (v :: vs) Hf) as Hc. rewrite Z2Nat.id in Hc by lia.
    destruct (consume n (v :: vs)) as [[cnt vs'] p]. destruct Hc as (-> & Hv & Hf' & -> & Hm). apply Hif in H as [[Hb3 H]|[Hb3 H]].
    + simplify_eq. exists (Nat.min (Z.to_nat n) (length (vec_bytes (v :: vs)))). rewrite <-payload_in_min. cbn [sent]. rewrite Es. split_and!; try done; [lia| |..].
      * f_equal. destruct (Nat.min_spec (Z.to_nat n) (length (vec_bytes (v :: vs)))) as [[_ ->]|[Hl ->]]; [done|]. by rewrite !firstn_all2 by lia.
      * intros Hx. by rewrite claim_error_over in Hx.
    + apply IH in H as (k & Hk & Hs & -> & Hp & Hq); [|done]. exists (Z.to_nat n + k)%nat. cbn [sent] in Hs. rewrite Hv, length_drop in Hk. rewrite Hs, Es, <-app_assoc, Hm, Hv.
      split_and!; [lia|f_equal; by rewrite take_take_drop|lia|intros Hx; specialize (Hp Hx); rewrite Hv, length_drop in Hp; lia|done].
  - apply Hif in H as [[Hb2 H]|[Hb2 H]]; [|by apply (Hstop e)]. apply IH in H as (k & Hk & Hs & Hcc & Hp & _); [|done]. exists k. rewrite Es in Hs. done.
  - by apply (Hstop e).
Qed.

(** A batch takes its bytes from the front: some of them, and no more than there is space for. *)
Lemma gather_spec count space rest : let '(vs, rest') := gather count space rest in
  concat vs ++ concat rest' = concat rest /\ Forall (fun v => v <> []) vs /\ (0 <= space -> zlen (concat vs) <= space) /\
  ((0 < count)%nat -> 0 < space -> concat rest <> [] -> concat vs <> []).
Proof.
  revert count space. induction rest as [|b tail IH]; intros count space; cbn [gather]; [done|].
  destruct ((count =? 0)%nat || (space <=? 0)) eqn:E; [cbn; split_and!; try done; intros; lia|]. apply orb_false_iff in E as [E1 E2].
  destruct b as [|x b']; [apply IH|]. set (b := x :: b'). set (size := Z.min (zlen b) space). assert (0 < size) as Hsize by (unfold size, b, zlen; cbn; lia).
  pose proof (take_drop (Z.to_nat size) b) as Htd. assert (take (Z.to_nat size) b <> []) as Hne by (unfold b; destruct (Z.to_nat size) eqn:En; [lia|done]).
  assert (zlen (take (Z.to_nat size) b) = size) as Hlen by (unfold zlen; rewrite length_take; unfold size, zlen in *; lia).
  destruct (drop (Z.to_nat size) b) as [|y l] eqn:Ed.
  - rewrite app_nil_r in Htd. case_if.
    + cbn [concat]. rewrite !app_nil_r, Htd. split_and!; [done|by apply Forall_singleton|intros; rewrite Htd in Hlen; rewrite Hlen; unfold size; lia|done].
    + specialize (IH (pred count) (space - size)). destruct (gather (pred count) (space - size) tail) as [vs rest']. destruct IH as (Hc & Hf & Hl & _).
      cbn [concat]. rewrite <-app_assoc, Hc, Htd. split_and!; [done|by constructor|intros; rewrite zlen_app; unfold size, zlen in *; specialize (Hl ltac:(lia)); lia|].
      intros _ _ _. by apply app_cons_not_nil || (unfold b; done).
  - cbn [concat]. rewrite app_nil_r, app_assoc, Htd. split_and!; [done|by apply Forall_singleton|intros; rewrite Hlen; unfold size; lia|done].
Qed.

(** ** Framed pieces *)

Definition frame (is_chunked : bool) (piece : list byte) : list byte := if is_chunked then Response.chunk piece else piece.

(** The pieces that the batches of an operation make. *)
Fixpoint cut (fuel count : nat) (rest : list (list byte)) : list (list byte) :=
  match fuel with
  | O => []
  | S fuel => match concat rest with [] => [] | _ => let (vs, rest) := gather count max_batch rest in concat vs :: cut fuel count rest end
  end.

Definition piece_ok (p : list byte) : Prop := p <> [] /\ zlen p <= max_batch.

Lemma pieces_cut fuel count rest : (0 < count)%nat -> (length (concat rest) <= fuel)%nat -> concat (cut fuel count rest) = concat rest /\ Forall piece_ok (cut fuel count rest).
Proof.
  intros Hcount. revert rest. induction fuel as [|fuel IH]; intros rest Hf; cbn [cut].
  { destruct (concat rest); [done|cbn in Hf; lia]. }
  destruct (concat rest) as [|b l] eqn:E; [done|]. pose proof (gather_spec count max_batch rest) as Hg. destruct (gather count max_batch rest) as [vs rest'].
  destruct Hg as (Hc & _ & Hl & Hn). rewrite E in Hc, Hn. specialize (Hn Hcount ltac:(done) ltac:(done)).
  assert (length (concat vs) + length (concat rest') = S (length l))%nat as Hlen by (rewrite <-length_app, Hc; done).
  assert (0 < length (concat vs))%nat by (destruct (concat vs); [done|cbn; lia]). cbn [length] in Hf. destruct (IH rest') as [IH1 IH2]; [lia|].
  cbn [concat]. rewrite IH1, Hc. split; [done|]. constructor; [split; [done|by apply Hl]|done].
Qed.

Lemma payload_in_app n vs vs' : payload_in n (vs ++ vs') = payload_in n vs + payload_in (n - length (vec_bytes vs)) vs'.
Proof.
  revert n. induction vs as [|[p b] vs IH]; intros n; cbn [app payload_in]; [cbn; by rewrite Nat.sub_0_r|]. rewrite IH, vec_bytes_cons, length_app, Nat.sub_add_distr. lia.
Qed.

Lemma payload_in_pieces body pieces n : payload_in n (map (pair body) pieces) = if body then Z.of_nat (Nat.min n (length (concat pieces))) else 0.
Proof.
  revert n. induction pieces as [|b pieces IH]; intros n; [destruct body; cbn; lia|]. cbn [map payload_in concat]. rewrite length_app, IH. destruct body; lia.
Qed.

Lemma batch_bytes ch body pieces : vec_bytes (batch_vectors ch body pieces) = frame ch (concat pieces).
Proof.
  unfold batch_vectors, frame, vec_bytes. assert (concat (map snd (map (pair body) pieces)) = concat pieces) as E by (f_equal; induction pieces; cbn; congruence).
  destruct ch; [|done]. cbn [map concat]. rewrite map_app, concat_app, E. cbn [map concat snd]. rewrite app_nil_r. unfold Response.chunk. by rewrite <-!app_assoc.
Qed.

Lemma batch_full ch body pieces : Forall (fun v => v <> []) pieces -> full (batch_vectors ch body pieces).
Proof.
  intros Hp. assert (full (map (pair body) pieces)) as Hm by (apply Forall_map; exact Hp). unfold batch_vectors. destruct ch; [|done].
  constructor; [cbn [snd]; intros E; by apply app_eq_nil in E as [_ ?]|]. apply Forall_app. split; [done|]. by apply Forall_singleton.
Qed.

(** The bytes of the body among the first [n] bytes of the framed pieces. *)
Definition prefix_length (ch : bool) (p : list byte) : nat := if ch then length (to_chars 16 (zlen p) ++ crlf) else 0%nat.

Fixpoint payload_at (ch : bool) (n : nat) (pieces : list (list byte)) : Z :=
  match pieces with
  | [] => 0
  | p :: pieces => Z.of_nat (Nat.min (n - prefix_length ch p) (length p)) + payload_at ch (n - length (frame ch p)) pieces
  end.

Lemma batch_payload ch body pieces n : payload_in n (batch_vectors ch body pieces) =
  if body then Z.of_nat (Nat.min (n - prefix_length ch (concat pieces)) (length (concat pieces))) else 0.
Proof.
  unfold batch_vectors, prefix_length. destruct ch; [|by rewrite payload_in_pieces, Nat.sub_0_r]. cbn [payload_in]. rewrite payload_in_app, payload_in_pieces. cbn [payload_in]. destruct body; lia.
Qed.

Lemma frame_length ch p : length (frame ch p) = (prefix_length ch p + length p + if ch then 2 else 0)%nat.
Proof. unfold frame, prefix_length. destruct ch; [|lia]. unfold Response.chunk. rewrite !length_app. change (length crlf) with 2%nat. lia. Qed.

Lemma payload_at_all ch n pieces : (length (flat_map (frame ch) pieces) <= n)%nat -> payload_at ch n pieces = zlen (concat pieces).
Proof.
  revert n. induction pieces as [|p pieces IH]; intros n Hn; [done|]. cbn [payload_at flat_map concat] in *. rewrite length_app in Hn. rewrite IH by lia. rewrite frame_length in Hn.
  rewrite zlen_app. unfold zlen. lia.
Qed.

Lemma payload_at_range ch n pieces : 0 <= payload_at ch n pieces <= zlen (concat pieces).
Proof.
  revert n. induction pieces as [|p pieces IH]; intros n; [by split|]. cbn [payload_at concat]. specialize (IH (n - length (frame ch p))%nat). rewrite zlen_app. unfold zlen in *. lia.
Qed.

Lemma payload_at_0 ch pieces : payload_at ch 0 pieces = 0.
Proof. induction pieces as [|p pieces IH]; [done|]. cbn [payload_at]. rewrite !Nat.sub_0_l, Nat.min_0_l, IH. done. Qed.

Lemma send_batches_stopped fuel ch body rest remaining a c w a' c' w' : pending a = false ->
  send_batches fuel ch body rest remaining a c w = Some (a', c', w') -> pending a' = false /\ c' = c /\ sent w' = sent w.
Proof.
  intros Ha H. destruct fuel as [|fuel]; cbn [send_batches] in H; [by simplify_eq|]. case_if; [by simplify_eq|]. destruct (poll w) as [i w1] eqn:Ep. apply poll_sent in Ep as (Es & _ & _).
  destruct (pending (interrupt i a)) eqn:Hp; [apply interrupt_pending in Hp; congruence|]. cbn [negb] in H. by simplify_eq.
Qed.

(** An operation: a prefix of its framed pieces is on the wire, all of them if nothing went wrong, and the bytes of the body among them are counted. *)
Lemma send_batches_spec fuel ch body rest a c w a' c' w' : (length (concat rest) < fuel)%nat ->
  send_batches fuel ch body rest (zlen (concat rest)) a c w = Some (a', c', w') ->
  let pieces := cut fuel (if ch then 62 else 64) rest in
  exists x y, flat_map (frame ch) pieces = x ++ y /\ sent w' = sent w ++ x /\ c' = c + (if body then payload_at ch (length x) pieces else 0) /\
    (pending a' = true -> y = [] /\ pending a = true).
Proof.
  revert rest a c w. induction fuel as [|fuel IH]; intros rest a c w Hf H; [lia|]. cbn [send_batches] in H. cbn [cut].
  destruct (Z.eqb_spec (zlen (concat rest)) 0) as [E|E].
  { assert (concat rest = []) as -> by (unfold zlen in E; destruct (concat rest); [done|cbn in E; lia]). simplify_eq. exists [], []. cbn. split_and!; [done|by rewrite app_nil_r|destruct body; lia|done]. }
  set (count := if ch then 62%nat else 64%nat) in *. assert (0 < count)%nat as Hcount by (unfold count; destruct ch; lia).
  destruct (concat rest) as [|b l] eqn:Ec; [done|]. rewrite <-Ec in *. destruct (poll w) as [i w1] eqn:Ep. apply poll_sent in Ep as (Es & _ & _).
  pose proof (gather_spec count max_batch rest) as Hg. destruct (gather count max_batch rest) as [vs rest'] eqn:Eg. destruct Hg as (Hc & Hv & _ & Hn).
  destruct (pending (interrupt i a)) eqn:Hp; cbn [negb] in H.
  2:{ simplify_eq. exists [], (flat_map (frame ch) (concat vs :: cut fuel count rest')). rewrite app_nil_r. split_and!; try done; [|congruence].
      cbn [length]. rewrite payload_at_0. destruct body; lia. }
  destruct (send_vectors (replies w1) w1 (batch_vectors ch body vs) (interrupt i a) c) as [[[a2 c2] w2]|] eqn:Ev; [|done].
  apply send_vectors_spec in Ev as (n & Hle & Hs & -> & Hall & Hpend); [|by apply batch_full]. rewrite batch_bytes in Hle, Hs, Hall. rewrite batch_payload in H.
  assert (payload_at ch n (concat vs :: cut fuel count rest') = Z.of_nat (Nat.min (n - prefix_length ch (concat vs)) (length (concat vs)))) as Hpay.
  { cbn [payload_at]. replace (n - length (frame ch (concat vs)))%nat with 0%nat by lia. rewrite payload_at_0. lia. }
  rewrite Es in Hs. destruct (pending a2) eqn:Hp2.
  - specialize (Hall eq_refl). subst n. rewrite firstn_all2 in Hs by lia. assert (zlen (concat rest) - zlen (concat vs) = zlen (concat rest')) as Hrem by (rewrite <-Hc, zlen_app; lia).
    rewrite Hrem in H. assert (0 < length (concat vs))%nat by (assert (concat vs <> []) by (apply Hn; [done..|by rewrite Ec]); destruct (concat vs); [done|cbn; lia]).
    apply IH in H as (x & y & Hxy & Hs' & -> & Hp'); [|rewrite <-Hc, length_app in Hf; lia]. fold count in Hxy, Hp' |- *.
    exists (frame ch (concat vs) ++ x), y. cbn [flat_map]. rewrite Hxy, Hs', Hs, <-!app_assoc. split_and!; try done.
    + cbn [payload_at]. rewrite length_app, Nat.add_comm, Nat.add_sub. replace (length x + length (frame ch (concat vs)))%nat with (length (frame ch (concat vs)) + length x)%nat by lia.
      pose proof (frame_length ch (concat vs)). destruct body; [|lia]. lia.
    + intros Hx. destruct (Hp' Hx) as [-> _]. split; [done|]. by eapply interrupt_pending.
  - apply send_batches_stopped in H as (Hp' & -> & Hs'); [|done]. exists (take n (frame ch (concat vs))), (drop n (frame ch (concat vs)) ++ flat_map (frame ch) (cut fuel count rest')).
    cbn [flat_map]. rewrite app_assoc, take_drop, Hs', Hs. split_and!; try done; [|congruence]. rewrite length_take, (Nat.min_l n) by lia. rewrite Hpay. done.
Qed.

(** Nothing but the end of an operation claims its success. *)
Lemma interrupt_success i a : outcome (interrupt i a) = W_success -> outcome a = W_success.
Proof. by destruct i as [[]|], a as [[] ? ?]. Qed.

Lemma claim_error_success e a : outcome (claim_error e a) = W_success -> outcome a = W_success.
Proof. by destruct a as [[] ? ?]. Qed.

Lemma send_vectors_success answers w vs a c a' c' w' : send_vectors answers w vs a c = Some (a', c', w') -> outcome a' = W_success -> outcome a = W_success.
Proof.
  revert w vs a c. induction answers as [|r answers IH]; intros w vs a c H Ho; destruct vs as [|v vs]; cbn [send_vectors] in H; simplify_eq; try done; destruct (poll w) as [i w1].
  - case_if; simplify_eq. by eapply interrupt_success.
  - case_if; [simplify_eq; by eapply interrupt_success|]. set (r' := r _) in H. apply (interrupt_success i), (interrupt_success (during r')).
    destruct (answered r') as [n|e|e]; [case_if; [simplify_eq; by eapply claim_error_success|]|case_if|]; [destruct (consume n (v :: vs)) as [[cnt vs'] p]; case_if|..];
      simplify_eq; solve [by eapply claim_error_success | by eapply IH].
Qed.

Lemma send_batches_success fuel ch body rest remaining a c w a' c' w' : send_batches fuel ch body rest remaining a c w = Some (a', c', w') ->
  outcome a' = W_success -> outcome a = W_success.
Proof.
  revert rest remaining a c w. induction fuel as [|fuel IH]; intros rest remaining a c w H Ho; cbn [send_batches] in H; [by simplify_eq|]. case_if; [by simplify_eq|].
  destruct (poll w) as [i w1]. case_if; [simplify_eq; by eapply interrupt_success|]. destruct (gather _ _ _) as [vs rest'].
  destruct (send_vectors _ _ _ _ _) as [[[a2 c2] w2]|] eqn:Ev; [|done]. apply (interrupt_success i). eapply send_vectors_success; [done|]. by eapply IH.
Qed.

(** ** Operations *)

Lemma total_size_spec buffers t total : 0 <= t <= SIZE_MAX -> total_size buffers t = inl total ->
  total = t + zlen (concat (map buffer_bytes buffers)) /\ total <= SIZE_MAX.
Proof.
  revert t. induction buffers as [|b buffers IH]; intros t Ht H; cbn [total_size] in H.
  { simplify_eq. cbn. unfold zlen. cbn. lia. }
  cbn [map concat]. rewrite zlen_app. case_match eqn:E0; [done|]. case_match eqn:E; [done|]. assert (u64 (SIZE_MAX - t) = SIZE_MAX - t) as Eu by (apply u64_small; unfold SIZE_MAX in *; lia).
  rewrite Eu in E. assert (0 <= buffer_size b /\ buffer_size b = zlen (buffer_bytes b)) as [Hb Eb].
  { destruct b as [bytes|n]; cbn in *; [split; [apply zlen_nonneg|done]|]. apply negb_false_iff, Z.eqb_eq in E0. by subst n. }
  rewrite u64_small in H by (unfold SIZE_MAX in *; lia). apply IH in H as [-> H]; [|lia]. lia.
Qed.

Definition clean (r : send_result) : Prop := error r = none /\ transport_errno r = 0.

Definition done_phase (op : operation) (ph : phase) : phase := match op with op_headers => open | op_finish => finished | op_body => ph end.

Lemma transmit_spec buffers op setup bw w r bw' w' : let rest := map buffer_bytes buffers in
  phase_ bw <> failed -> clean (result_ bw) -> transmit buffers op (zlen (concat rest)) setup bw w = Some (r, bw', w') ->
  let ch := bool_decide (op = op_body) && bool_decide (framing_ bw = chunked) in
  let pieces := cut (S (length (concat rest))) (if ch then 62 else 64) rest in
  exists x y, flat_map (frame ch) pieces = x ++ y /\ sent w' = sent w ++ x /\
    confirmed_ bw' = confirmed_ bw + (if bool_decide (op = op_body) then payload_at ch (length x) pieces else 0) /\
    framing_ bw' = framing_ bw /\ expected_ bw' = expected_ bw /\ busy_ bw' = busy_ bw /\
    ((y = [] /\ clean r /\ confirmed_body_bytes r = confirmed_ bw' /\ phase_ bw' = done_phase op (phase_ bw) /\ clean (result_ bw')) \/
     (error r <> none /\ phase_ bw' = failed /\ result_ bw' = r /\ confirmed_body_bytes r = confirmed_ bw')).
Proof.
  intros rest Hph Hres H ch pieces. unfold transmit in H. destruct (poll w) as [i w1] eqn:Ep1. apply poll_sent in Ep1 as (Es1 & _ & _). fold rest ch in H.
  set (a0 := match setup with Some e => _ | None => _ end) in H. assert (Z.to_nat (zlen (concat rest)) = length (concat rest)) as Ez by (unfold zlen; lia). rewrite Ez in H.
  destruct (send_batches _ _ _ _ _ _ _ _) as [[[a c] w2]|] eqn:Eb; [|done]. pose proof (send_batches_success _ _ _ _ _ _ _ _ _ _ _ Eb) as Hsucc. apply send_batches_spec in Eb as (x & y & Hxy & Hs & -> & Hp); [|lia]. fold pieces in Hxy, Hp |- *.
  destruct (poll w2) as [i2 w3] eqn:Ep2. apply poll_sent in Ep2 as (Es2 & _ & _).
  set (a1 := claim W_success (interrupt i2 a)) in H. set (c := confirmed_ bw + _) in H. set (bw1 := with_confirmed c bw) in H. exists x, y.
  assert (forall f, error f <> none -> Some (fail f bw1, w3) = Some (r, bw', w') ->
    confirmed_ bw' = c /\ framing_ bw' = framing_ bw /\ expected_ bw' = expected_ bw /\ busy_ bw' = busy_ bw /\ error r <> none /\ phase_ bw' = failed /\ result_ bw' = r /\ confirmed_body_bytes r = confirmed_ bw' /\ w' = w3) as Hfail.
  { intros f Hf Hx. unfold fail in Hx. cbn [phase_ with_confirmed bw1] in Hx. destruct (phase_ bw); simplify_eq; by split_and!. }
  assert (sent w3 = sent w ++ x) as Es by (rewrite Es2, Hs, Es1; done). fold c.
  destruct (outcome a1) eqn:Eo; try (apply Hfail in H as (Hc' & -> & -> & -> & Hr & -> & Hr' & Hcr & ->); [|done]; split_and!; try done; by right).
  - unfold a1, claim in Eo. destruct (pending (interrupt i2 a)) eqn:E; [done|]. unfold pending in E. by rewrite Eo in E.
  - assert (pending a = true) as Hpend.
    { unfold a1, claim in Eo. destruct (pending (interrupt i2 a)) eqn:E; [by eapply interrupt_pending|]. apply interrupt_success, Hsucc in Eo.
      unfold a0 in Eo. destruct setup; [apply claim_error_success in Eo|]; by apply interrupt_success in Eo. }
    destruct (Hp Hpend) as [-> _]. injection H as <- <- <-. destruct op; cbn; split_and!; try done; left; done.
Qed.

(** ** The life of a writer *)

Definition so_far (fr : response_framing) (pieces : list (list byte)) : list byte := flat_map (frame (bool_decide (fr = chunked))) pieces.
Definition ending (fr : response_framing) : list byte := if bool_decide (fr = chunked) then Response.last_chunk else [].

Section Life.
Context (fr : response_framing) (expected : option Z) (base head : list byte).

Record configured (bw : body_writer) : Prop := { cf_framing : framing_ bw = fr; cf_expected : expected_ bw = expected; cf_busy : busy_ bw = false }.

(** The header block is on the wire, followed by framed pieces that are counted. *)
Record opened (pieces : list (list byte)) (bw : body_writer) (w : world) : Prop := {
  op_config : configured bw;
  op_phase : phase_ bw = open;
  op_result : clean (result_ bw);
  op_pieces : Forall piece_ok pieces;
  op_sent : sent w = base ++ head ++ so_far fr pieces;
  op_confirmed : confirmed_ bw = zlen (concat pieces);
  op_bound : confirmed_ bw <= SIZE_MAX /\ match expected with Some e => confirmed_ bw <= e <= SIZE_MAX | None => True end;
}.

(** Something went wrong: the wire has a prefix of a message with this header block and a prefix of [body], and the bytes of the body among them are counted. *)
Record broken (body : list byte) (bw : body_writer) (w : world) : Prop := {
  br_config : configured bw;
  br_phase : phase_ bw = failed;
  br_result : error (result_ bw) <> none;
  br_confirmed : confirmed_body_bytes (result_ bw) = confirmed_ bw;
  br_sent : exists pieces missing, Forall piece_ok pieces /\ sent w ++ missing = base ++ head ++ so_far fr pieces ++ ending fr /\
    confirmed_ bw = payload_at (bool_decide (fr = chunked)) (length (sent w) - length base - length head) pieces /\
    (length base <= length (sent w))%nat /\ concat pieces `prefix_of` body /\ match expected with Some e => zlen (concat pieces) <= e | None => True end;
}.

Lemma fail_spec f bw : error f <> none -> phase_ bw <> failed -> let (r, bw') := fail f bw in
  error r <> none /\ (configured bw -> configured bw') /\ phase_ bw' = failed /\ result_ bw' = r /\ confirmed_body_bytes r = confirmed_ bw' /\ confirmed_ bw' = confirmed_ bw.
Proof. intros Hf Hp. unfold fail. destruct bw as [? ? ? ph ? ?]. destruct ph; try done; cbn; (split_and!; try done; intros []; by split). Qed.

Lemma fail_failed f bw : phase_ bw = failed -> fail f bw = (result_ bw, bw).
Proof. intros Hp. unfold fail. by rewrite Hp. Qed.

Lemma so_far_app l l' : so_far fr (l ++ l') = so_far fr l ++ so_far fr l'.
Proof. apply flat_map_app. Qed.

Lemma payload_at_app ch n l l' : payload_at ch n (l ++ l') = payload_at ch n l + payload_at ch (n - length (flat_map (frame ch) l)) l'.
Proof.
  revert n. induction l as [|p l IH]; intros n; cbn [app payload_at flat_map]; [cbn; by rewrite Nat.sub_0_r|]. rewrite IH, length_app, Nat.sub_add_distr. lia.
Qed.

(** A writer that is open, or finished, and is failed by the caller or a guard. *)
Lemma opened_breaks pieces bw w f : opened pieces bw w -> error f <> none -> let (r, bw') := fail f bw in r = result_ bw' /\ broken (concat pieces) bw' w.
Proof.
  intros [Hc Hp Hr Hps Hs Hconf [_ Hbound]] Hf. pose proof (fail_spec f bw Hf ltac:(by rewrite Hp)) as Hfail. destruct (fail f bw) as [r bw'].
  destruct Hfail as (Her & Hc' & Hph & <- & Hcb & Hcc). split; [done|]. split; [by apply Hc'|done|done|done|]. exists pieces, (ending fr). rewrite Hs, Hcc, Hconf, !length_app, <-!app_assoc.
  split_and!; try done; [|lia|destruct expected; [lia|done]]. rewrite payload_at_all; [done|]. unfold so_far. lia.
Qed.

Lemma broken_more b b' bw w : broken b bw w -> b `prefix_of` b' -> broken b' bw w.
Proof. intros [? ? ? ? (ps & m & ? & ? & ? & ? & ? & ?)] Hp. split; try done. exists ps, m. split_and!; try done. by etransitivity. Qed.

(** What a failed writer is asked to do changes nothing. *)
Lemma broken_operation body buffers op bw w r bw' w' : broken body bw w -> start_operation buffers op bw w = Some (r, bw', w') ->
  bw' = bw /\ sent w' = sent w /\ forall res, r = Ok res -> res = result_ bw'.
Proof.
  intros [[_ _ Hb] Hp Hr _ _] H. unfold start_operation in H. destruct (enter w) as [e w1] eqn:Ee. assert (sent w1 = sent w) as Es by (unfold enter in Ee; destruct (entries w); by simplify_eq).
  destruct (frame_error e) as [n|].
  - rewrite fail_failed in H by done. simplify_eq. done.
  - unfold perform in H. rewrite Hb, Hp in H. simplify_eq. split_and!; try done. by intros res [= <-].
Qed.

Lemma broken_sent body bw w w' : sent w' = sent w -> broken body bw w -> broken body bw w'.
Proof. intros E [? ? ? ? (ps & m & ? & ? & ? & ? & ? & ?)]. split; try done. exists ps, m. by rewrite E. Qed.

Lemma enter_sent w e w' : enter w = (e, w') -> sent w' = sent w /\ replies w' = replies w /\ polls w' = polls w.
Proof. unfold enter. destruct (entries w); intros [= <- <-]; done. Qed.

Lemma opened_sent pieces bw w w' : sent w' = sent w -> opened pieces bw w -> opened pieces bw w'.
Proof. intros E [? ? ? ? Hs ? ?]. split; try done. by rewrite E. Qed.

(** A write adds its bytes, framed, or breaks the writer. *)
Lemma body_performed pieces buffers cn setup bw w res bw' w' : opened pieces bw w -> perform buffers op_body cn setup bw w = Some (res, bw', w') ->
  (exists new, clean res /\ confirmed_body_bytes res = confirmed_ bw' /\ opened (pieces ++ new) bw' w' /\ concat new = concat (map buffer_bytes buffers)) \/
  (broken (concat pieces ++ concat (map buffer_bytes buffers)) bw' w' /\ res = result_ bw').
Proof.
  intros Ho Ep. pose proof Ho as [[Hfr Hex Hb] Hph Hr Hps Hs Hconf [Hmax Hexp]].
  assert (forall f, error f <> none -> Some (fail f bw, w) = Some (res, bw', w') ->
    (exists new, clean res /\ confirmed_body_bytes res = confirmed_ bw' /\ opened (pieces ++ new) bw' w' /\ concat new = concat (map buffer_bytes buffers)) \/
    (broken (concat pieces ++ concat (map buffer_bytes buffers)) bw' w' /\ res = result_ bw')) as Hstop.
  { intros f Hf Hx. pose proof (opened_breaks _ _ _ f Ho Hf) as Hbreak. destruct (fail f bw) as [r2 bw2]. simplify_eq. right. destruct Hbreak. split; [|done]. eapply broken_more; [done|]. by apply prefix_app_r. }
  unfold perform in Ep. rewrite Hb, Hph in Ep. cbn [negb] in Ep. destruct cn; [(eapply Hstop; [|exact Ep]; done)|]. destruct (total_size buffers 0) as [total|e'] eqn:Et; [|(eapply Hstop; [|exact Ep]; done)].
  apply total_size_spec in Et as [Et Htot]; [|unfold SIZE_MAX; lia]. rewrite Z.add_0_l in Et. subst total. rewrite Hex in Ep. cbn [andb bool_decide] in Ep.
  rewrite (bool_decide_true (op_body = op_body)), (bool_decide_false (op_body = op_finish)) in Ep by done. cbn [andb] in Ep.
  destruct (match expected with Some e0 => u64 (e0 - confirmed_ bw) <? _ | None => false end) eqn:E1; [eapply Hstop; [|exact Ep]; done|].
  destruct (u64 (SIZE_MAX - confirmed_ bw) <? _) eqn:E2; [eapply Hstop; [|exact Ep]; done|].
  apply transmit_spec in Ep as (x & y & Hxy & Hsent & Hc' & Hf' & He' & Hb' & Hcase); [|by rewrite Hph|done].
  rewrite (bool_decide_true (op_body = op_body)) in * by done. cbn [andb] in *. rewrite Hfr in *. set (ch := bool_decide (fr = chunked)) in *.
  set (new := cut _ _ _) in *. destruct (pieces_cut (S (length (concat (map buffer_bytes buffers)))) (if ch then 62 else 64) (map buffer_bytes buffers)) as [Hnew Hok]; [destruct ch; lia|lia|].
  fold new in Hnew, Hok. assert (configured bw') as Hcfg by (split; congruence). assert (Forall piece_ok (pieces ++ new)) as Hall by (by apply Forall_app).
  destruct Hcase as [(-> & Her & Hcb & Hph' & Hr')|(Her & Hph' & <- & Hcb)].
  - left. exists new. split_and!; try done. rewrite app_nil_r in Hxy. rewrite payload_at_all in Hc' by (fold ch in Hxy; rewrite Hxy; lia).
    split; try done; [by rewrite Hph'|rewrite so_far_app, Hsent, Hs, <-!app_assoc; unfold so_far at 3; fold ch; by rewrite Hxy|rewrite concat_app, zlen_app; lia|].
    rewrite Hnew in Hc'. pose proof (zlen_nonneg (concat (map buffer_bytes buffers))). destruct expected as [e0|].
    + rewrite u64_small in E1 by (unfold SIZE_MAX in *; pose proof (zlen_nonneg (concat pieces)); lia). rewrite u64_small in E2 by (unfold SIZE_MAX in *; pose proof (zlen_nonneg (concat pieces)); lia). lia.
    + rewrite u64_small in E2 by (unfold SIZE_MAX in *; pose proof (zlen_nonneg (concat pieces)); lia). lia.
  - right. split; [|done]. split; try done. exists (pieces ++ new), (y ++ ending fr). split_and!; try done.
    + rewrite so_far_app, Hsent, Hs, <-!app_assoc. unfold so_far at 3. fold ch. rewrite Hxy. by rewrite <-!app_assoc.
    + rewrite payload_at_app, Hc', Hconf, Hsent, Hs, !length_app. fold ch. unfold so_far. fold ch. set (k := length (flat_map (frame ch) pieces)).
      replace (length base + (length head + k) + length x - length base - length head)%nat with (k + length x)%nat by lia. rewrite (payload_at_all ch (k + length x) pieces) by (unfold k; lia).
      replace (k + length x - k)%nat with (length x) by lia. done.
    + rewrite Hsent, Hs, !length_app. lia.
    + rewrite concat_app, Hnew. done.
    + rewrite concat_app, zlen_app, Hnew. destruct expected; [|done]. rewrite u64_small in E1 by (unfold SIZE_MAX in *; pose proof (zlen_nonneg (concat pieces)); lia). lia.
Qed.

Record fresh (bw : body_writer) (w : world) : Prop := {
  fs_config : configured bw;
  fs_phase : phase_ bw = headers;
  fs_result : clean (result_ bw);
  fs_sent : sent w = base;
  fs_confirmed : confirmed_ bw = 0;
  fs_expected : match expected with Some e => 0 <= e <= SIZE_MAX | None => True end;
}.

Lemma fresh_breaks bw w f : fresh bw w -> error f <> none -> let (r, bw') := fail f bw in r = result_ bw' /\ broken [] bw' w.
Proof.
  intros [Hc Hp Hr Hs Hconf Hexp] Hf. pose proof (fail_spec f bw Hf ltac:(by rewrite Hp)) as Hfail. destruct (fail f bw) as [r bw'].
  destruct Hfail as (Her & Hc' & Hph & <- & Hcb & Hcc). split; [done|]. split; [by apply Hc'|done|done|done|]. exists [], (head ++ ending fr). rewrite Hs, Hcc, Hconf.
  split_and!; try done. cbn. destruct expected; [|done]. change (zlen []) with 0. lia.
Qed.

Lemma frame_plain l : flat_map (frame false) l = concat l.
Proof. induction l as [|p l IH]; [done|]. cbn. by rewrite IH. Qed.

(** One buffer that is no body: a prefix of it is on the wire, all of it if nothing went wrong. *)
Lemma transmit_plain bytes op setup bw w r bw' w' : op <> op_body -> phase_ bw <> failed -> clean (result_ bw) ->
  transmit [Buffer bytes] op (zlen bytes) setup bw w = Some (r, bw', w') ->
  exists x y, bytes = x ++ y /\ sent w' = sent w ++ x /\ confirmed_ bw' = confirmed_ bw /\ (configured bw -> configured bw') /\
    ((y = [] /\ clean r /\ confirmed_body_bytes r = confirmed_ bw' /\ phase_ bw' = done_phase op (phase_ bw) /\ clean (result_ bw')) \/
     (error r <> none /\ phase_ bw' = failed /\ result_ bw' = r /\ confirmed_body_bytes r = confirmed_ bw')).
Proof.
  intros Hop Hph Hr H. assert (concat (map buffer_bytes [Buffer bytes]) = bytes) as Eb by (cbn; by rewrite app_nil_r). replace (zlen bytes) with (zlen (concat (map buffer_bytes [Buffer bytes]))) in H by (by rewrite Eb).
  apply transmit_spec in H as (x & y & Hxy & Hs & Hc & Hf & He & Hb & Hcase); [|done..]. rewrite (bool_decide_false (op = op_body)) in * by done. cbn [andb] in *.
  rewrite frame_plain in Hxy. rewrite Eb in Hxy. destruct (pieces_cut (S (length bytes)) 64 (map buffer_bytes [Buffer bytes])) as [Hcut _]; [lia|rewrite Eb; lia|]. rewrite Hcut, Eb in Hxy.
  exists x, y. split_and!; try done; [lia|]. intros []; split; congruence.
Qed.

Lemma total_size_one bytes : match total_size [Buffer bytes] 0 with inl total => total = zlen bytes | inr e => True end.
Proof. pose proof (total_size_spec [Buffer bytes] 0) as H. destruct (total_size [Buffer bytes] 0) as [t|]; [|done]. destruct (H t) as [-> _]; [unfold SIZE_MAX; lia|done|]. cbn. by rewrite app_nil_r. Qed.

(** The two frames of [start_one]. *)
Lemma start_one_cases bytes op bw w r bw' w' : start_one bytes op bw w = Some (r, bw', w') ->
  (exists n, r = Throw n /\ bw' = (fail (failure transport_error n) bw).2 /\ sent w' = sent w) \/
  (exists res w1 cancelled setup, r = Ok res /\ sent w1 = sent w /\ perform [Buffer bytes] op cancelled setup bw w1 = Some (res, bw', w')).
Proof.
  unfold start_one, start_operation. destruct (enter w) as [e w1] eqn:Ee. apply enter_sent in Ee as (Ew & _). destruct (frame_error e) as [n|].
  { destruct (fail (failure transport_error n) bw) as [r1 bw1] eqn:Ef. intros [= <- <- <-]. left. exists n. by rewrite Ef. }
  destruct (enter w1) as [e2 w2] eqn:Ee2. apply enter_sent in Ee2 as (Ew2 & _). destruct (frame_error e2) as [n|].
  { destruct (fail (failure transport_error n) bw) as [r1 bw1] eqn:Ef. intros [= <- <- <-]. left. exists n. rewrite Ef. split_and!; [done..|congruence]. }
  destruct (perform _ _ _ _ _ _) as [[[res bw1] w3]|] eqn:Ep; [|done]. intros [= <- <- <-]. right. exists res, w2, (is_cancelled e2), (setup_error e2). split_and!; [done|congruence|done].
Qed.

Lemma headers_operation bw w r bw' w' : fresh bw w -> send_headers head bw w = Some (r, bw', w') ->
  (exists res, r = Ok res /\ clean res /\ opened [] bw' w') \/ (broken [] bw' w' /\ forall res, r = Ok res -> res = result_ bw').
Proof.
  intros Hf H. pose proof (fun f => fresh_breaks bw w f Hf) as Hbreak. destruct Hf as [Hc Hph Hr Hs Hconf Hexp].
  apply start_one_cases in H as [(n & -> & -> & Ew)|(res & w1 & cn & setup & -> & Ew & Hp)].
  { right. specialize (Hbreak (failure transport_error n) ltac:(done)). destruct (fail (failure transport_error n) bw) as [r1 bw1]. split; [|done]. by eapply broken_sent; [|apply Hbreak]. }
  assert (forall f, error f <> none -> Some (fail f bw, w1) = Some (res, bw', w') -> broken [] bw' w' /\ forall res', @Ok Z _ res = Ok res' -> res' = result_ bw') as Hstop.
  { intros f He Hx. specialize (Hbreak f He). destruct (fail f bw) as [r1 bw1]. simplify_eq. destruct Hbreak. split; [by eapply broken_sent|]. by intros ? [= <-]. }
  unfold perform in Hp. rewrite (cf_busy _ Hc), Hph in Hp. cbn [negb] in Hp. case_if; [right; eapply Hstop; [|exact Hp]; done|].
  pose proof (total_size_one head) as Ht. destruct (total_size [Buffer head] 0) as [total|e]; [|right; eapply Hstop; [|exact Hp]; done]. subst total.
  rewrite (bool_decide_false (op_headers = op_body)), (bool_decide_false (op_headers = op_finish)) in Hp by done. cbn [andb] in Hp.
  apply transmit_plain in Hp as (x & y & Hxy & Hs' & Hc' & Hcfg & Hcase); [|done|by rewrite Hph|done]. destruct Hcase as [(-> & He & _ & Hph' & Hr')|(He & Hph' & <- & Hcb)].
  - left. exists res. split_and!; try done. rewrite app_nil_r in Hxy. subst x. split; [by apply Hcfg|done|done|done| | |].
    + rewrite Hs', Ew, Hs. cbn. by rewrite app_nil_r.
    + rewrite Hc', Hconf. done.
    + rewrite Hc', Hconf. destruct expected; [lia|]. split; [unfold SIZE_MAX; lia|done].
  - right. split; [|by intros ? [= <-]]. split; [by apply Hcfg|done..|]. exists [], (y ++ ending fr). rewrite Hs', Ew, Hs, Hc', Hconf, !length_app. split_and!; [done| |done|lia|done|destruct expected; [change (zlen (concat [])) with 0; lia|done]].
    rewrite Hxy, <-!app_assoc. done.
Qed.

(** The end of a message: complete, and of the length that was announced. *)
Lemma finish_operation pieces bw w r bw' w' : opened pieces bw w -> finish bw w = Some (r, bw', w') ->
  (exists res, r = Ok res /\ clean res /\ confirmed_body_bytes res = zlen (concat pieces) /\ sent w' = base ++ head ++ so_far fr pieces ++ ending fr /\
    match expected with Some e => zlen (concat pieces) = e | None => True end) \/ (broken (concat pieces) bw' w' /\ forall res, r = Ok res -> res = result_ bw').
Proof.
  intros Ho H. pose proof (fun f => opened_breaks pieces bw w f Ho) as Hbreak. destruct Ho as [Hc Hph Hr Hps Hs Hconf Hbound]. unfold finish in H. rewrite (cf_framing _ Hc) in H. fold (ending fr) in H.
  apply start_one_cases in H as [(n & -> & -> & Ew)|(res & w1 & cn & setup & -> & Ew & Hp)].
  { right. specialize (Hbreak (failure transport_error n) ltac:(done)). destruct (fail (failure transport_error n) bw) as [r1 bw1]. split; [|done]. by eapply broken_sent; [|apply Hbreak]. }
  assert (forall f, error f <> none -> Some (fail f bw, w1) = Some (res, bw', w') -> broken (concat pieces) bw' w' /\ forall res', @Ok Z _ res = Ok res' -> res' = result_ bw') as Hstop.
  { intros f He Hx. specialize (Hbreak f He). destruct (fail f bw) as [r1 bw1]. simplify_eq. destruct Hbreak. split; [by eapply broken_sent|]. by intros ? [= <-]. }
  unfold perform in Hp. rewrite (cf_busy _ Hc), Hph in Hp. cbn [negb] in Hp. case_if; [right; eapply Hstop; [|exact Hp]; done|].
  pose proof (total_size_one (ending fr)) as Ht. destruct (total_size [Buffer (ending fr)] 0) as [total|e]; [|right; eapply Hstop; [|exact Hp]; done]. subst total.
  rewrite (bool_decide_false (op_finish = op_body)), (bool_decide_true (op_finish = op_finish)), (cf_expected _ Hc) in Hp by done. cbn [andb] in Hp.
  destruct (match expected with Some e => negb (confirmed_ bw =? e) | None => false end) eqn:Ex; [right; eapply Hstop; [|exact Hp]; done|].
  apply transmit_plain in Hp as (x & y & Hxy & Hs' & Hc' & Hcfg & Hcase); [|done|by rewrite Hph|done]. destruct Hcase as [(-> & He & Hcb & Hph' & Hr')|(He & Hph' & <- & Hcb)].
  - left. exists res. rewrite app_nil_r in Hxy. subst x. split_and!; try done; [congruence|rewrite Hs', Ew, Hs, <-!app_assoc; done|]. destruct expected; [lia|done].
  - right. split; [|by intros ? [= <-]]. split; [by apply Hcfg|done..|]. exists pieces, y. rewrite Hs', Ew, Hs, Hc', Hconf, !length_app. split_and!; [done| | |lia|done|destruct expected; [lia|done]].
    + rewrite Hxy, <-!app_assoc. done.
    + rewrite payload_at_all; [done|]. unfold so_far. lia.
Qed.

(** ** Producers *)

Definition bytes_of (buffers : list body_buffer) : list byte := concat (map buffer_bytes buffers).

(** All the bytes a producer has written when none of its writes fails; it sees the number of bytes so far. *)
Fixpoint output (p : producer) (written : list byte) : list byte :=
  let ok b := Ok (SendResult none 0 (zlen (written ++ b))) in
  match p with
  | Return _ | Raise => written
  | Write b next => output (next (ok b)) (written ++ b)
  | Writev buffers next => output (next (ok (bytes_of buffers))) (written ++ bytes_of buffers)
  end.

(** The two ways to write: the bytes are framed and the producer is told, or the writer is broken. *)
Definition wrote (pieces : list (list byte)) (b : list byte) (r : result Z send_result) (bw' : body_writer) (w' : world) : Prop :=
  (exists new, r = Ok (SendResult none 0 (zlen (concat pieces ++ b))) /\ opened (pieces ++ new) bw' w' /\ concat new = b) \/
  (broken (concat pieces ++ b) bw' w' /\ forall res, r = Ok res -> res = result_ bw').

Lemma clean_confirmed pieces new res bw' w' : clean res -> confirmed_body_bytes res = confirmed_ bw' -> opened (pieces ++ new) bw' w' ->
  res = SendResult none 0 (zlen (concat pieces ++ concat new)).
Proof. intros [He Ht] Hc Ho. rewrite <-concat_app, <-(op_confirmed _ _ _ Ho). destruct res. cbn in *. congruence. Qed.

Lemma writev_wrote pieces buffers bw w r bw' w' : opened pieces bw w -> writev buffers bw w = Some (r, bw', w') -> wrote pieces (bytes_of buffers) r bw' w'.
Proof.
  intros Ho H. unfold writev, start_operation in H. destruct (enter w) as [e w1] eqn:Ee. apply enter_sent in Ee as (Ew & _). apply (opened_sent _ _ _ _ Ew) in Ho. destruct (frame_error e) as [n|].
  { right. pose proof (opened_breaks _ _ _ (failure transport_error n) Ho ltac:(done)) as Hb. destruct (fail (failure transport_error n) bw) as [r1 bw1]. simplify_eq. split; [|done]. eapply broken_more; [by destruct Hb|]. by apply prefix_app_r. }
  destruct (perform _ _ _ _ _ _) as [[[res bw1] w2]|] eqn:Ep; [|done]. simplify_eq. destruct (body_performed _ _ _ _ _ _ _ _ _ Ho Ep) as [(new & Hc & Hcb & Hop & Hn)|[Hb Hres]]; [|right; split; [done|]; by intros ? [= <-]].
  left. exists new. split_and!; try done. by rewrite (clean_confirmed _ _ _ _ _ Hc Hcb Hop), Hn.
Qed.

Lemma write_wrote pieces b bw w r bw' w' : opened pieces bw w -> write b bw w = Some (r, bw', w') -> wrote pieces b r bw' w'.
Proof.
  intros Ho H. apply start_one_cases in H as [(n & -> & -> & Ew)|(res & w1 & cn & setup & -> & Ew & Hp)].
  { right. pose proof (opened_breaks _ _ _ (failure transport_error n) Ho ltac:(done)) as Hb. destruct (fail (failure transport_error n) bw) as [r1 bw1]. split; [|done]. eapply broken_sent; [done|]. eapply broken_more; [by destruct Hb|]. by apply prefix_app_r. }
  apply (opened_sent _ _ _ _ Ew) in Ho. destruct (body_performed _ _ _ _ _ _ _ _ _ Ho Hp) as [(new & Hc & Hcb & Hop & Hn)|[Hb Hres]].
  2:{ cbn in Hb. rewrite app_nil_r in Hb. right. split; [done|]. by intros ? [= <-]. }
  cbn in Hn. rewrite app_nil_r in Hn. left. exists new. split_and!; try done. by rewrite (clean_confirmed _ _ _ _ _ Hc Hcb Hop), Hn.
Qed.

Lemma broken_one body b op bw w r bw' w' : broken body bw w -> start_one b op bw w = Some (r, bw', w') ->
  bw' = bw /\ broken body bw w' /\ forall res, r = Ok res -> res = result_ bw.
Proof.
  intros Hb H. pose proof Hb as [[_ _ Hbusy] Hp _ _ _]. apply start_one_cases in H as [(n & -> & -> & Ew)|(res & w1 & cn & setup & -> & Ew & H)].
  - rewrite fail_failed by done. split_and!; try done. by eapply broken_sent.
  - unfold perform in H. rewrite Hbusy, Hp in H. simplify_eq. split_and!; [done|by eapply broken_sent|by intros ? [= <-]].
Qed.

Lemma output_extends p b : b `prefix_of` output p b.
Proof. revert b. induction p as [r| |c next IH|buffers next IH]; intros b; cbn [output]; [done|done|etransitivity; [|apply IH]; by apply prefix_app_r..]. Qed.

(** A failed writer stays as it is. *)
Lemma invoke_broken p body bw w r bw' w' : broken body bw w -> invoke p bw w = Some (r, bw', w') -> broken body bw' w'.
Proof.
  revert bw w. induction p as [res| |b next IH|buffers next IH]; intros bw w Hb H; cbn [invoke] in H; simplify_eq; try done.
  - destruct (write b bw w) as [[[r1 bw1] w1]|] eqn:Ew; [|done]. apply (broken_one body) in Ew as (-> & Hb' & _); [|done]. by eapply IH.
  - destruct (writev buffers bw w) as [[[r1 bw1] w1]|] eqn:Ew; [|done]. apply (broken_operation body) in Ew as (-> & Es & _); [|done]. eapply IH; [|done]. by eapply broken_sent.
Qed.

(** Whatever a producer does, its bytes are on the wire, framed, or the writer is broken. *)
Lemma invoke_spec p pieces bw w r bw' w' : opened pieces bw w -> invoke p bw w = Some (r, bw', w') ->
  (exists pieces', opened pieces' bw' w' /\ concat pieces' = output p (concat pieces)) \/ broken (output p (concat pieces)) bw' w'.
Proof.
  revert pieces bw w. induction p as [res| |b next IH|buffers next IH]; intros pieces bw w Ho H; cbn [invoke output] in *; [simplify_eq; left; eauto..| |].
  - destruct (write b bw w) as [[[r1 bw1] w1]|] eqn:Ew; [|done]. destruct (write_wrote _ _ _ _ _ _ _ Ho Ew) as [(new & -> & Ho' & Hn)|[Hb _]].
    + apply (IH _ _ _ _ Ho') in H. by rewrite concat_app, Hn in H.
    + right. apply (invoke_broken _ _ _ _ _ _ _ Hb) in H. eapply broken_more; [done|]. apply output_extends.
  - destruct (writev buffers bw w) as [[[r1 bw1] w1]|] eqn:Ew; [|done]. destruct (writev_wrote _ _ _ _ _ _ _ Ho Ew) as [(new & -> & Ho' & Hn)|[Hb _]].
    + apply (IH _ _ _ _ Ho') in H. by rewrite concat_app, Hn in H.
    + right. apply (invoke_broken _ _ _ _ _ _ _ Hb) in H. eapply broken_more; [done|]. apply output_extends.
Qed.

End Life.

(** ** Whole responses *)

(** A response that ended: successfully, with [body] framed after the header block, or broken. *)
Definition ended fr expected base head (body : list byte) (res : send_result) (w : world) : Prop :=
  (clean res /\ exists pieces, concat pieces = body /\ Forall piece_ok pieces /\ confirmed_body_bytes res = zlen body /\
     sent w = base ++ head ++ so_far fr pieces ++ ending fr /\ match expected with Some e => zlen body = e | None => True end) \/
  (exists bw, broken fr expected base head body bw w /\ res = result_ bw).

Section Ended.
Context (p : response_plan) (base : list byte).

#[local] Abbreviation opened := (opened (framing p) (expected_body_bytes p) base (header_block p)).
#[local] Abbreviation broken := (broken (framing p) (expected_body_bytes p) base (header_block p)).
#[local] Abbreviation ended := (ended (framing p) (expected_body_bytes p) base (header_block p)).

Lemma broken_ended body bw w f : broken body bw w -> ended body (fail f bw).1 w.
Proof. intros Hb. right. exists bw. split; [done|]. by rewrite fail_failed by (by destruct Hb). Qed.

Lemma opened_ended pieces body bw w f : opened pieces bw w -> error f <> none -> concat pieces `prefix_of` body -> ended body (fail f bw).1 w.
Proof.
  intros Ho Hf Hp. pose proof (opened_breaks _ _ _ _ _ _ _ f Ho Hf) as Hb. destruct (fail f bw) as [r bw']. destruct Hb as [-> Hb]. right. exists bw'. split; [|done]. by eapply broken_more.
Qed.

Lemma conclude_ended pieces bw w res w' : opened pieces bw w -> conclude p bw w = Some (res, w') -> ended (concat pieces) (sent_result res) w'.
Proof.
  intros Ho H. unfold conclude in H. destruct (finish bw w) as [[[r bw'] w1]|] eqn:Ef; [|done].
  destruct (finish_operation _ _ _ _ _ _ _ _ _ _ Ho Ef) as [(r' & -> & Hc & Hcb & Hs & He)|[Hb Hr]].
  - simplify_eq. left. split; [done|]. exists pieces. split_and!; try done. apply Ho.
  - destruct r as [r|e]; simplify_eq; [right; exists bw'; split; [done|by apply Hr]|by apply broken_ended].
Qed.

Lemma conclude_broken body bw w res w' : broken body bw w -> conclude p bw w = Some (res, w') -> ended body (sent_result res) w'.
Proof.
  intros Hb H. unfold conclude in H. destruct (finish bw w) as [[[r bw1] w1]|] eqn:Ef; [|done]. pose proof (broken_one _ _ _ _ body _ _ _ _ _ _ _ Hb Ef) as (E1 & Hb1 & Hr). subst bw1.
  destruct r as [r|e]; simplify_eq; [right; exists bw; split; [done|by apply Hr]|by apply broken_ended].
Qed.

Lemma send_complete_ended body bw w res w' : opened [] bw w -> send_complete body p bw w = Some (res, w') ->
  ended (if bool_decide (framing p = Plan.none) then [] else body) (sent_result res) w'.
Proof.
  intros Ho H. unfold send_complete in H. case_bool_decide; [by apply (conclude_ended []) in H|]. destruct (write body bw w) as [[[r bw'] w1]|] eqn:Ew; [|done].
  destruct (write_wrote _ _ _ _ _ _ _ _ _ _ _ Ho Ew) as [(new & -> & Ho' & <-)|[Hb Hr]].
  - assert (success (SendResult none 0 (zlen (concat [] ++ concat new))) = true) as Es by done. rewrite Es in H. by apply (conclude_ended new) in H.
  - cbn [concat app] in Hb. destruct r as [r|e]; simplify_eq; [|by apply broken_ended].
    rewrite (Hr r eq_refl) in H. assert (success (result_ bw') = false) as Es by (apply bool_decide_eq_false; by destruct Hb). rewrite Es in H. simplify_eq. right. by exists bw'.
Qed.

Lemma send_streaming_ended s pr bw w res s' w' : producer_ s = Some pr -> invoked_ s = false -> opened [] bw w -> send_streaming s p bw w = Some (res, s', w') ->
  ended (if invoke_producer p then output pr [] else []) (sent_result res) w' /\ (invoke_producer p = true -> invoked_ s' = true).
Proof.
  intros Hpr Hinv Ho H. unfold send_streaming in H. destruct (invoke_producer p).
  2:{ destruct (conclude p bw w) as [[r w1]|] eqn:Ec; [|done]. simplify_eq. split; [|done]. by apply (conclude_ended []) in Ec. }
  unfold produce in H. rewrite Hpr, Hinv in H. destruct (invoke pr bw w) as [[[r bw1] w1]|] eqn:Ei; [|done].
  set (produced := match r with Some r => r | None => failure producer_error 0 end) in H.
  destruct (invoke_spec _ _ _ _ _ _ _ _ _ _ _ Ho Ei) as [(pieces & Ho' & Hout)|Hb]; cbn [concat] in *.
  - destruct (success produced) eqn:Es.
    + destruct (conclude p bw1 w1) as [[r2 w2]|] eqn:Ec; [|done]. simplify_eq. split; [|done]. apply (conclude_ended pieces) in Ec; [|done]. by rewrite Hout in Ec.
    + simplify_eq. split; [|done]. apply (opened_ended pieces); [done| |by rewrite Hout]. by apply bool_decide_eq_false in Es.
  - destruct (success produced) eqn:Es.
    + destruct (conclude p bw1 w1) as [[r2 w2]|] eqn:Ec; [|done]. simplify_eq. split; [|done]. by eapply conclude_broken.
    + simplify_eq. split; [|done]. by apply broken_ended.
Qed.

Lemma send_head_ended w f w' : sent w = base -> in_range (expected_body_bytes p) -> send_head p w = Some (f, w') ->
  match f with inl r => exists bw, broken [] bw w' /\ sent_result r = result_ bw | inr bw => opened [] bw w' end.
Proof.
  intros Hs Hr H. unfold send_head in H. destruct (send_headers (header_block p) (create p) w) as [[[r bw'] w1]|] eqn:Eh; [|done].
  apply (headers_operation (framing p) (expected_body_bytes p) base) in Eh as [(res & -> & Hc & Ho)|[Hb Hres]]; [| |by split].
  all: clear Hs.
  - assert (success res = true) as Es by (by apply bool_decide_eq_true, Hc). rewrite Es in H. by simplify_eq.
  - destruct r as [res|e]; [|simplify_eq; exists bw'; split; [done|]; cbn; by rewrite fail_failed by (by destruct Hb)]. rewrite (Hres res eq_refl) in H. assert (success (result_ bw') = false) as Es by (apply bool_decide_eq_false; by destruct Hb).
    rewrite Es in H. simplify_eq. by exists bw'.
Qed.

End Ended.

(** ** What a client has of an unfinished response *)

Lemma chunk_line_short (data : list byte) : zlen data <= Chunk.kMaxChunkSize -> zlen (to_chars 16 (zlen data)) <= 8.
Proof.
  intros Hmax. pose proof (to_digits_length 16 ltac:(lia) 64 (zlen data) [] 7) as Hd. unfold Chunk.kMaxChunkSize in Hmax. change (16 ^ Z.of_nat 8) with (2 ^ 32) in Hd.
  specialize (Hd ltac:(unfold zlen in *; lia)). cbn [length] in Hd. unfold to_chars, zlen in *. lia.
Qed.

(** The payload in part of a chunked body. *)
Lemma run_chunks_part pieces n d : Response.state_ d = Response.chunk_size -> Response.line_ d = [] -> 8 <= Response.max_header_size_ d -> Forall piece_ok pieces ->
  exists d' b, Response.run (take n (flat_map Response.chunk pieces ++ Response.last_chunk)) d = (d', b, []) /\ zlen b = payload_at true n pieces /\ b `prefix_of` concat pieces.
Proof.
  intros Hs Hl Hm Hp. revert n d Hs Hl Hm. induction Hp as [|p pieces [Hne Hmax] _ IH]; intros n d Hs Hl Hm.
  - cbn [flat_map app concat payload_at]. pose proof (Response.run_last_chunk [] d Hs Hl ltac:(lia)) as Hr. rewrite app_nil_r, <-(take_drop n Response.last_chunk) in Hr.
    apply Response.run_prefix in Hr as (dx & bx & by_ & Hx & _ & Hb). symmetry in Hb. apply app_eq_nil in Hb as [-> _]. exists dx, []. done.
  - cbn [flat_map concat payload_at]. rewrite <-app_assoc. pose proof (chunk_line_short p Hmax) as Hlim. unfold frame. destruct (decide (n <= length (Response.chunk p))%nat) as [Hn|Hn].
    + rewrite take_app_le by done. destruct (Response.run_chunk_part p n d Hs Hl Hne Hmax ltac:(lia) Hn) as [d' Hr]. exists d', (take (n - prefix_length true p) p). split; [done|].
      replace (n - length (Response.chunk p))%nat with 0%nat by lia. rewrite payload_at_0. split; [unfold zlen; rewrite length_take; lia|]. by apply prefix_app_r, prefix_take.
    + rewrite take_app_ge by lia. destruct (IH (n - length (Response.chunk p))%nat (Response.with_remaining 0 d)) as (d' & b & Hr & Hb & Hpre); [done..|].
      exists d', (p ++ b). rewrite Response.run_chunk, Hr by (done || lia). pose proof (frame_length true p) as Hfl. unfold frame in Hfl.
      split_and!; [done|rewrite zlen_app, Hb; unfold zlen; lia|by apply prefix_app].
Qed.

Lemma run_fixed_part bytes d : Response.state_ d = Response.fixed_body -> zlen bytes <= Response.remaining_ d <= SIZE_MAX -> 0 < Response.remaining_ d ->
  exists d', Response.run bytes d = (d', bytes, []).
Proof.
  intros Hs Hr Hpos. set (more := repeat "000"%byte (Z.to_nat (Response.remaining_ d - zlen bytes))).
  assert (zlen (bytes ++ more) = Response.remaining_ d) as Hlen by (rewrite zlen_app; unfold more, zlen at 2; rewrite repeat_length; lia).
  pose proof (Response.run_fixed (bytes ++ more) [] d Hs (eq_sym Hlen)) as Hrun. rewrite app_nil_r in Hrun.
  assert (bytes ++ more <> []) as Hne by (intros E; rewrite E in Hlen; change (zlen []) with 0 in Hlen; lia). specialize (Hrun Hne ltac:(lia)).
  apply Response.run_prefix in Hrun as (dx & bx & by_ & Hx & Hy & Hb). exists dx. rewrite Hx. f_equal. f_equal. apply Response.run_payload_le in Hx, Hy.
  pose proof (f_equal length Hb) as Hl. rewrite !length_app in Hl. apply app_inj_1 in Hb as [-> _]; [done|lia].
Qed.

Lemma so_far_plain fr pieces : fr <> chunked -> so_far fr pieces ++ ending fr = concat pieces.
Proof. intros Hf. unfold so_far, ending. rewrite bool_decide_false by done. by rewrite frame_plain, app_nil_r. Qed.

Lemma payload_plain n pieces : (n <= length (concat pieces))%nat -> payload_at false n pieces = Z.of_nat n.
Proof. revert n. induction pieces as [|p pieces IH]; intros n Hn; cbn [payload_at concat] in *; [cbn in Hn; lia|]. rewrite length_app in Hn. cbn [frame prefix_length]. rewrite IH by lia. lia. Qed.

(** The pieces are within what the plan announces. *)
Definition within_plan (c : decision) (pieces : list (list byte)) : Prop :=
  match out_expected c with Some e => zlen (concat pieces) <= e | None => True end.

Lemma decide_expected head body m reqv reuse c : in_range (length_ body) -> decide_response head body m reqv reuse = Some c ->
  match out_framing c with Plan.none => out_expected c = Some 0 | content_length => True | chunked | close_delimited => out_expected c = None end /\
  in_range (out_expected c) /\ out_producer c = negb (bool_decide (out_framing c = Plan.none)) && (match kind body with streaming => true | complete => false end).
Proof.
  intros Hl H. unfold decide_response in H. repeat (case_match; [done|]). destruct (select_body _ _ _ _ _) as [[[[wl f] e] prod]|] eqn:E; [|done]. simplify_eq. cbn [out_framing out_expected out_producer].
  clear -E Hl. unfold select_body in E. case_match; [case_match; [done|]; simplify_eq; split_and!; [done|cbn; unfold SIZE_MAX; lia|done]|].
  destruct (transfer body).
  - destruct (length_ body) as [n|]; (case_match; [done|]); simplify_eq; [done|]. destruct (streq _ _); done.
  - case_match eqn:E2; [done|]. simplify_eq. apply orb_false_iff in E2 as [E2 _]. apply bool_decide_eq_false in E2. destruct (length_ body); [by destruct E2; eauto|]. done.
Qed.

(** A prefix of the message gives a client the bytes of the body that are counted. *)
Lemma run_unfinished order head body m c wl pieces x missing :
  (forall h, order h ≡ₚ Headers.headers_ h) -> proper_head head -> decided head body m c wl -> within_limits order (out_headers c) ->
  (out_framing c = Plan.none -> out_expected c = Some 0) -> Forall piece_ok pieces -> within_plan c pieces ->
  let block := status_text (out_version c) (status_ head) ++ crlf ++ Headers.serialize (order (out_headers c)) (out_headers c) ++ crlf in
  x ++ missing = block ++ so_far (out_framing c) pieces ++ ending (out_framing c) ->
  exists d b, Response.run x (client m) = (d, b, []) /\ zlen b = payload_at (bool_decide (out_framing c = chunked)) (length x - length block) pieces /\ b `prefix_of` concat pieces.
Proof.
  intros Ho Hh Hd Hlim Hnone Hps Hw block Hx.
  destruct (run_head order head body m c wl [] Ho Hh Hd Hlim) as (d & Hrun & _ & Hl & Hmax & Hst).
  assert (forall rest, Response.run (block ++ rest) (client m) = Response.run rest d) as Hblock.
  { intros rest. rewrite !app_nil_r in Hrun. fold block in Hrun. rewrite Response.run_split, Hrun. cbn [Response.run]. destruct (Response.terminal d); cbn; by destruct (Response.run rest d) as [[? ?] ?]. }
  pose proof (Hblock []) as Hall. rewrite app_nil_r in Hall. assert (Response.run [] d = (d, [], [])) as Hnil by (cbn; by destruct (Response.terminal d)). rewrite Hnil in Hall.
  destruct (decide (length x <= length block)%nat) as [Hle|Hgt].
  { assert (exists y, block = x ++ y) as [y Ey].
    { exists (drop (length x) block). etransitivity; [symmetry; apply (take_drop (length x))|]. apply (f_equal (fun l => l ++ drop (length x) block)). apply (f_equal (take (length x))) in Hx. rewrite take_app_length, take_app_le in Hx by done. done. }
    rewrite Ey in Hall. apply Response.run_prefix in Hall as (dx & bx & by_ & Hr & _ & Hb). symmetry in Hb. apply app_eq_nil in Hb as [-> _]. exists dx, []. split; [done|].
    replace (length x - length block)%nat with 0%nat by lia. rewrite payload_at_0. split; [done|apply prefix_nil]. }
  assert (exists z, x = block ++ z) as [z ->].
  { exists (drop (length block) x). etransitivity; [symmetry; apply (take_drop (length block))|]. f_equal. apply (f_equal (take (length block))) in Hx. rewrite take_app_length, take_app_le in Hx by lia. done. }
  rewrite <-app_assoc in Hx. apply app_inv_head in Hx. rewrite Hblock, length_app. replace (length block + length z - length block)%nat with (length z) by lia.
  assert (z = take (length z) (so_far (out_framing c) pieces ++ ending (out_framing c))) as Hz by (rewrite <-Hx; by rewrite take_app_length).
  pose proof (f_equal length Hx) as Hlen. rewrite !length_app in Hlen. destruct (decide (out_framing c = chunked)) as [Ec|Ec].
  - rewrite Ec in *. rewrite bool_decide_true by done. destruct (run_chunks_part pieces (length z) d Hst Hl ltac:(lia) Hps) as (d' & b & Hr & Hb).
    unfold so_far, ending in Hz. rewrite bool_decide_true in Hz by done. change (flat_map (frame true) pieces) with (flat_map Response.chunk pieces) in Hz. rewrite <-Hz in Hr. by exists d', b.
  - rewrite bool_decide_false by done. rewrite so_far_plain in Hx, Hz by done. pose proof (f_equal length Hx) as Hlen'. rewrite length_app in Hlen'.
    assert (exists d', Response.run z d = (d', z, [])) as [d' Hr].
    { unfold within_plan in Hw. destruct (out_framing c) eqn:Ef; [| |done|].
      - rewrite (Hnone eq_refl) in Hw. assert (z = []) as -> by (destruct z; [done|unfold zlen in Hw; cbn in Hlen'; lia]). eauto.
      - destruct Hst as (n & -> & Hst & Hrem). pose proof (dc_framing _ _ _ _ _ Hd) as Hf. rewrite Ef in Hf. destruct Hf as [_ Hf]. rewrite Hf in Hw. pose proof (dc_length _ _ _ _ _ Hd) as Hn. cbn in Hn.
        destruct (Z.eqb_spec n 0) as [->|Hn0]; [assert (z = []) as -> by (destruct z; [done|unfold zlen in Hw; cbn in Hlen'; lia]); eauto|].
        apply run_fixed_part; [done|rewrite Hrem; unfold zlen in *; lia|rewrite Hrem; lia].
      - exists d. by apply Response.run_close. }
    exists d', z. split; [done|]. rewrite payload_plain by lia. split; [done|]. rewrite <-Hx. by apply prefix_app_r.
Qed.

(** ** The two ends of a response *)

Definition reply_head (selected : reply) : option (response_head * body_description) :=
  match selected with
  | Complete r => Some (head_ r, BodyDescription complete (Some (zlen (body_ r))) automatic)
  | Streaming s => Some (streaming_head s, BodyDescription streaming (body_length s) (streaming_transfer s))
  | Tunnel => None
  end.

(** The body: that of the response, or all that its producer writes. *)
Definition reply_body (selected : reply) : list byte :=
  match selected with
  | Complete r => body_ r
  | Streaming s => match producer_ s with Some p => output p [] | None => [] end
  | Tunnel => []
  end.

(** The head of the reply is built through the collection, its lengths are machine integers, and its lines are within the limits of the client. *)
Definition sendable order (selected : reply) (m : method) (reqv : list byte) (reuse : bool) : Prop :=
  forall head body, reply_head selected = Some (head, body) -> proper_head head /\ in_range (representation_length_ head) /\ in_range (length_ body) /\
    forall c, decide_response head body m reqv reuse = Some c -> within_limits order (out_headers c).

Lemma prepared order head body m reqv reuse p : prepare_response order head body m reqv reuse = Some p -> exists c, decide_response head body m reqv reuse = Some c /\
  header_block p = status_text (out_version c) (status_ head) ++ crlf ++ Headers.serialize (order (out_headers c)) (out_headers c) ++ crlf /\
  framing p = out_framing c /\ expected_body_bytes p = out_expected c /\ invoke_producer p = out_producer c /\ reusable p = out_reusable c.
Proof. unfold prepare_response. destruct (decide_response head body m reqv reuse) as [c|]; [|done]. intros [= <-]. by exists c. Qed.

(** What [send_response] does after the guards: a plan was made and the response ended. *)
Lemma send_response_ended order selected m reqv reuse no_memory w res selected' w' : 
  (forall head body, reply_head selected = Some (head, body) -> in_range (length_ body)) ->
  send_response order selected m reqv reuse no_memory w = Some (res, selected', w') ->
  (error (sent_result res) <> none /\ confirmed_body_bytes (sent_result res) = 0 /\ w' = w) \/
  exists head body c p, reply_head selected = Some (head, body) /\ decide_response head body m reqv reuse = Some c /\ prepare_response order head body m reqv reuse = Some p /\
    ended (out_framing c) (out_expected c) (sent w) (header_block p) (if bool_decide (out_framing c = Plan.none) then [] else reply_body selected) (sent_result res) w'.
Proof.
  intros Hrange H. unfold send_response in H. destruct selected as [r|s|].
  - destruct no_memory; [simplify_eq; left; by split_and!|]. destruct (prepare_response _ _ _ _ _ _) as [p|] eqn:Ep; [|simplify_eq; left; by split_and!]. right.
    destruct (prepared _ _ _ _ _ _ _ Ep) as (c & Hc & Hb & Hf & He & _). destruct (decide_expected _ _ _ _ _ _ (Hrange _ _ eq_refl) Hc) as (_ & Hin & _).
    eexists _, _, c, p. split; [reflexivity|]. split; [done|]. split; [done|]. rewrite <-Hf, <-He in *.
    destruct (send_head p w) as [[f w1]|] eqn:Eh; [|done]. apply (send_head_ended p (sent w)) in Eh; [|done..]. destruct f as [f|bw]; [destruct Eh as (bw & Hbr & Hres); simplify_eq; right; exists bw; split; [eapply broken_more; [done|apply prefix_nil]|done]|].
    destruct (send_complete (body_ r) p bw w1) as [[r2 w2]|] eqn:Es; [|done]. simplify_eq. by eapply send_complete_ended in Es.
  - destruct (can_produce s) eqn:Ecan; [|cbn [negb] in H; simplify_eq; left; by split_and!]. cbn [negb] in H. destruct no_memory; [simplify_eq; left; by split_and!|]. destruct (prepare_response _ _ _ _ _ _) as [p|] eqn:Ep; [|simplify_eq; left; by split_and!]. right.
    unfold can_produce in Ecan. destruct (producer_ s) as [pr|] eqn:Epr; [|done]. apply negb_true_iff in Ecan.
    destruct (prepared _ _ _ _ _ _ _ Ep) as (c & Hc & Hb & Hf & He & Hprod & _). destruct (decide_expected _ _ _ _ _ _ (Hrange _ _ eq_refl) Hc) as (_ & Hin & Hp2).
    eexists _, _, c, p. split; [reflexivity|]. split; [done|]. split; [done|]. rewrite <-Hf, <-He in *.
    destruct (send_head p w) as [[f w1]|] eqn:Eh; [|done]. apply (send_head_ended p (sent w)) in Eh; [|done..]. destruct f as [f|bw]; [destruct Eh as (bw & Hbr & Hres); simplify_eq; right; exists bw; split; [eapply broken_more; [done|apply prefix_nil]|done]|].
    destruct (send_streaming s p bw w1) as [[[r2 s2] w2]|] eqn:Es; [|done]. simplify_eq. eapply send_streaming_ended in Es as [Es _]; [|done..].
    cbn [reply_body]. rewrite Epr. rewrite Hprod, Hp2 in Es. by destruct (bool_decide (framing p = Plan.none)).
  - simplify_eq. left. by split_and!.
Qed.

Lemma wire_body_pieces c pieces : (out_framing c = Plan.none -> concat pieces = []) -> so_far (out_framing c) pieces ++ ending (out_framing c) = wire_body (out_framing c) pieces.
Proof.
  intros Hn. destruct (out_framing c) eqn:Ef; [rewrite so_far_plain by done; by apply Hn|by apply so_far_plain|done|by apply so_far_plain].
Qed.

(** The client that reads everything that was sent. *)
Definition read_sent (m : method) (wire : list byte) : result Headers.header_error (Request.parse_result * Z * Response.response_parser) :=
  Response.parse wire (Response.parser_set_request_method m Response.new_parser).

(** A response that was sent: its plan, and the message that is on the wire. *)
Record sent_as order (selected : reply) (m : method) (reqv : list byte) (reuse : bool) (wire : list byte) (head : response_head) (c : decision) (pieces : list (list byte)) : Prop := {
  sa_body : exists body wl, reply_head selected = Some (head, body) /\ decide_response head body m reqv reuse = Some c /\ decided head body m c wl;
  sa_head : proper_head head;
  sa_limits : within_limits order (out_headers c);
  sa_agreeing : agreeing c pieces;
  sa_pieces : concat pieces = if bool_decide (out_framing c = Plan.none) then [] else reply_body selected;
  sa_wire : wire = (status_text (out_version c) (status_ head) ++ crlf ++ Headers.serialize (order (out_headers c)) (out_headers c) ++ crlf) ++ wire_body (out_framing c) pieces;
}.

Lemma send_response_sent order selected m reqv reuse no_memory w res selected' w' :
  sendable order selected m reqv reuse -> send_response order selected m reqv reuse no_memory w = Some (res, selected', w') -> error (sent_result res) = none ->
  exists wire head c pieces, sent w' = sent w ++ wire /\ sent_as order selected m reqv reuse wire head c pieces /\ confirmed_body_bytes (sent_result res) = zlen (concat pieces).
Proof.
  intros Hsend H Hok. pose proof (send_response_ended _ _ _ _ _ _ _ _ _ _ (fun head body E => proj1 (proj2 (proj2 (Hsend head body E)))) H) as He. clear H.
  destruct He as [(Herr & _)|(head & body & c & p & Hhead & Hc & Hp & He)]; [done|].
  destruct (Hsend head body Hhead) as (Hproper & Hr & Hl & Hlim). specialize (Hlim c Hc). destruct (decide_response_decided _ _ _ _ _ _ Hr Hl Hc) as [wl Hd].
  destruct (prepared _ _ _ _ _ _ _ Hp) as (c' & Hc' & Hblock & _). rewrite Hc in Hc'. injection Hc' as <-. rewrite Hblock in He.
  destruct He as [[_ (pieces & Hb & Hps & Hconf & Hs & He)]|(bw & Hbr & Hres)]; [|by rewrite Hres in Hok; destruct (br_result _ _ _ _ _ _ _ Hbr)].
  eexists _, head, c, pieces. split; [exact Hs|]. split; [|by rewrite Hb]. split; try done; [by exists body, wl| |].
  - unfold agreeing. destruct (out_framing c) eqn:Ef; try done. pose proof (dc_framing _ _ _ _ _ Hd) as Hf. rewrite Ef in Hf. destruct Hf as [[n ->] Hf]. rewrite Hf in *. by rewrite Hb, He.
  - rewrite wire_body_pieces; [done|]. intros Hn. rewrite Hb. by rewrite bool_decide_true.
Qed.

(** [C25] A response reaches its client, for every reply whose head was built through the header collection, has lengths of 64 bits, and has field lines within the default limits of the client (at most 100, of at most 8192 bytes each).  Whatever the transport accepts, piece by piece, and whatever is cancelled, times out or runs out of memory:
    if [send_response] reports success, the bytes that were sent are a complete response to the client, with the status and header fields of the reply
    and with exactly the body of the reply, or what its producer wrote, and what follows on the connection is left; if it
    reports failure, the client that reads what was sent has the number of bytes of the body that is reported,
    and they are the first bytes of that body. *)
Theorem response_delivered order selected m reqv reuse no_memory w res selected' w' :
  (forall h, order h ≡ₚ Headers.headers_ h) -> sendable order selected m reqv reuse ->
  send_response order selected m reqv reuse no_memory w = Some (res, selected', w') ->
  exists wire, sent w' = sent w ++ wire /\
  if success (sent_result res) then
    exists head body c, reply_head selected = Some (head, body) /\ decide_response head body m reqv reuse = Some c /\
      confirmed_body_bytes (sent_result res) = zlen (if bool_decide (out_framing c = Plan.none) then [] else reply_body selected) /\
      forall rest, (out_framing c = close_delimited -> rest = []) -> exists p, delivered head c [reply_body selected] rest p /\ client_reads m (out_framing c) wire rest p
  else exists r n p, read_sent m wire = Ok (r, n, p) /\ zlen (Response.body_ p) = confirmed_body_bytes (sent_result res) /\ Response.body_ p `prefix_of` reply_body selected.
Proof.
  intros Ho Hsend H. unfold success. destruct (decide (error (sent_result res) = none)) as [Hok|Hfail].
  { destruct (send_response_sent _ _ _ _ _ _ _ _ _ _ Hsend H Hok) as (wire & head & c & pieces & Hs & [(body & wl & Hhead & Hc & Hd) Hproper Hlim Hag Hps Hwire] & Hconf).
    exists wire. split; [done|]. rewrite bool_decide_true by done. exists head, body, c. split_and!; try done; [by rewrite Hconf, Hps|]. intros rest Hrest.
    destruct (response_read order head body m c wl pieces rest Ho Hproper Hd Hlim Hag Hrest) as (p & (Hrec & Hbody & Hrest') & Hreads). exists p. split; [|by rewrite Hwire].
    split; [done|]. split; [|done]. rewrite Hbody, Hps. cbn [concat]. rewrite app_nil_r. by destruct (bool_decide (out_framing c = Plan.none)). }
  rewrite bool_decide_false by done. pose proof (send_response_ended _ _ _ _ _ _ _ _ _ _ (fun head body E => proj1 (proj2 (proj2 (Hsend head body E)))) H) as He. clear H.
  destruct He as [(Herr & Hz & ->)|(head & body & c & p & Hhead & Hc & Hp & He)].
  { exists []. rewrite app_nil_r. split; [done|]. eexists _, _, _. split; [reflexivity|]. cbn. rewrite Hz. split; [done|apply prefix_nil]. }
  destruct (Hsend head body Hhead) as (Hproper & Hr & Hl & Hlim). specialize (Hlim c Hc). destruct (decide_response_decided _ _ _ _ _ _ Hr Hl Hc) as [wl Hd].
  destruct (decide_expected _ _ _ _ _ _ Hl Hc) as (Hexp & Hin & _). destruct (prepared _ _ _ _ _ _ _ Hp) as (c' & Hc' & Hblock & _). rewrite Hc in Hc'. injection Hc' as <-. rewrite Hblock in He. clear Hp Hblock p.
  set (block := status_text _ _ ++ _) in *. set (b := if bool_decide (out_framing c = Plan.none) then [] else reply_body selected) in *.
  destruct He as [[[Hok _] _]|(bw & Hbr & Hres)]; [done|].
  pose proof Hbr as [_ _ Herr Hcb (pieces & missing & Hps & Hs & Hconf & Hlen & Hpre & Hbound)]. rewrite <-Hres in Herr, Hcb.
  exists (drop (length (sent w)) (sent w')). assert (sent w' = sent w ++ drop (length (sent w)) (sent w')) as Es.
  { etransitivity; [symmetry; apply (take_drop (length (sent w)))|]. f_equal. apply (f_equal (take (length (sent w)))) in Hs. by rewrite take_app_length, take_app_le in Hs by lia. }
  split; [done|]. set (x := drop _ _) in *. rewrite Es, <-app_assoc in Hs. apply app_inv_head in Hs.
  destruct (run_unfinished order head body m c wl pieces x missing Ho Hproper Hd Hlim) as (d & bytes & Hrun & Hz & Hpb); try done.
  { intros Hn. by rewrite Hn in Hexp. }
  pose proof (Response.response_parse_runs x (Response.parser_set_request_method m Response.new_parser)) as Hparse.
  cbn [Response.buffer_ Response.decoder_ Response.parser_set_request_method Response.on_decoder Response.new_parser app Response.body_] in Hparse.
  fold (client m) in Hparse. rewrite Hrun in Hparse. specialize (Hparse ltac:(by intros [?|?])). eexists _, _, _. split; [exact Hparse|]. cbn [Response.body_]. split.
  - rewrite Hz, Hcb, Hconf, Es. fold block. rewrite (length_app (sent w) x). f_equal. lia.
  - etransitivity; [exact Hpb|]. etransitivity; [exact Hpre|]. unfold b. destruct (bool_decide (out_framing c = Plan.none)); [apply prefix_nil|done].
Qed.

(** ** Progress *)

(** Nothing interrupts, and the transport accepts some of what it is offered, [n] more times. *)
Record obliging (n : nat) (w : world) : Prop := {
  ob_polls : Forall (eq None) (polls w);
  ob_entries : Forall (eq (Entry None false None)) (entries w);
  ob_replies : Forall (fun t => forall k, 0 < k -> exists j, 0 < j <= k /\ t k = Reply None (Sent j)) (replies w);
  ob_enough : (n <= length (replies w))%nat;
}.

Lemma obliging_poll n w : obliging n w -> exists w', poll w = (None, w') /\ obliging n w' /\ replies w' = replies w.
Proof. intros [Hp ? ? ?]. unfold poll. destruct (polls w) as [|i l] eqn:E; [by exists w; rewrite <-E in Hp|]. apply Forall_cons in Hp as [<- Hp]. by eexists. Qed.

Lemma obliging_enter n w : obliging n w -> exists w', enter w = (Entry None false None, w') /\ obliging n w'.
Proof. intros [? Hp ? ?]. unfold enter. destruct (entries w) as [|i l] eqn:E; [by exists w; rewrite <-E in Hp|]. apply Forall_cons in Hp as [<- Hp]. by eexists. Qed.

Lemma send_vectors_completes answers w vs a c n : full vs -> pending a = true -> obliging (length (vec_bytes vs) + n) (World (sent w) answers (polls w) (entries w)) ->
  exists c' w', send_vectors answers w vs a c = Some (a, c', w') /\ obliging n w'.
Proof.
  revert w vs a c. induction answers as [|t answers IH]; intros w vs a c Hf Ha Hob; (destruct vs as [|v vs]; [do 2 eexists; split; [done|]; exact Hob|]).
  all: pose proof (full_nonempty _ Hf ltac:(done)) as Hne; destruct Hob as [Hp He Hr Hn]; cbn [polls entries replies sent] in *.
  { destruct (vec_bytes (v :: vs)); [done|cbn in Hn; lia]. }
  apply Forall_cons in Hr as [Ht Hr]. cbn [send_vectors]. assert (exists w1, poll w = (None, w1) /\ Forall (eq None) (polls w1) /\ entries w1 = entries w) as (w1 & -> & Hp1 & He1).
  { unfold poll. destruct (polls w) as [|i l] eqn:E; [exists w; by rewrite E|]. apply Forall_cons in Hp as [<- Hp]. by eexists. }
  cbn [interrupt]. rewrite Ha. cbn [negb]. destruct (Ht (zlen (vec_bytes (v :: vs)))) as (j & Hj & ->); [destruct (vec_bytes (v :: vs)); [done|unfold zlen; cbn; lia]|].
  cbn [during answered interrupt]. rewrite (proj2 (Z.leb_gt j 0)) by lia. pose proof (consume_spec (Z.to_nat j) (v :: vs) Hf) as Hc. rewrite Z2Nat.id in Hc by lia.
  destruct (consume j (v :: vs)) as [[cnt vs'] p]. destruct Hc as (-> & Hv & Hf' & -> & _). replace (Z.to_nat j - length (vec_bytes (v :: vs)))%nat with 0%nat by (unfold zlen in Hj; lia). cbn [Z.of_nat Z.eqb negb].
  apply IH; [done|done|]. split; cbn [polls entries replies]; [done|by rewrite He1|done|]. rewrite Hv, length_drop. cbn [length] in Hn. unfold zlen in Hj. lia.
Qed.

Lemma send_batches_completes fuel ch body rest a c w n : (length (concat rest) < fuel)%nat -> pending a = true ->
  obliging (length (flat_map (frame ch) (cut fuel (if ch then 62 else 64) rest)) + n) w ->
  exists c' w', send_batches fuel ch body rest (zlen (concat rest)) a c w = Some (a, c', w') /\ obliging n w'.
Proof.
  set (count := if ch then 62%nat else 64%nat). assert (0 < count)%nat as Hcount by (unfold count; destruct ch; lia).
  revert rest c w. induction fuel as [|fuel IH]; intros rest c w Hf Ha Hob; [lia|]. cbn [send_batches cut] in *. fold count in IH, Hob |- *.
  destruct (Z.eqb_spec (zlen (concat rest)) 0) as [E|E].
  { exists c, w. split; [done|]. destruct (concat rest); [done|unfold zlen in E; cbn in E; lia]. }
  destruct (concat rest) as [|b l] eqn:Ec; [done|]. rewrite <-Ec in *. pose proof (gather_spec count max_batch rest) as Hg. destruct (gather count max_batch rest) as [vs rest'] eqn:Eg.
  destruct Hg as (Hc & Hv & _ & Hn). cbn [flat_map] in Hob. rewrite length_app in Hob. destruct (obliging_poll _ _ Hob) as (w1 & -> & Hob1 & _). cbn [interrupt]. rewrite Ha. cbn [negb].
  destruct (send_vectors_completes (replies w1) w1 (batch_vectors ch body vs) a c (length (flat_map (frame ch) (cut fuel count rest')) + n)) as (c2 & w2 & -> & Hob2); [by apply batch_full|done|..].
  { rewrite batch_bytes. destruct Hob1 as [? ? ? ?]. split; try done. cbn [replies]. lia. }
  assert (zlen (concat rest) - zlen (concat vs) = zlen (concat rest')) as -> by (rewrite <-Hc, zlen_app; lia).
  apply IH; [|done|done]. assert (0 < length (concat vs))%nat by (assert (concat vs <> []) by (apply Hn; [done..|by rewrite Ec]); destruct (concat vs); [done|cbn; lia]).
  rewrite <-Hc, length_app in Hf. lia.
Qed.

(** The bytes an operation sends. *)
Definition framed (ch : bool) (rest : list (list byte)) : list byte := flat_map (frame ch) (cut (S (length (concat rest))) (if ch then 62 else 64) rest).

Lemma transmit_completes buffers op bw w n : let rest := map buffer_bytes buffers in
  error (result_ bw) = none -> obliging (length (framed (bool_decide (op = op_body) && bool_decide (framing_ bw = chunked)) rest) + n) w ->
  exists r bw' w', transmit buffers op (zlen (concat rest)) None bw w = Some (r, bw', w') /\ error r = none /\ obliging n w'.
Proof.
  intros rest Hr Hob. unfold transmit. destruct (obliging_poll _ _ Hob) as (w1 & -> & Hob1 & _). cbn [interrupt]. fold rest.
  assert (Z.to_nat (zlen (concat rest)) = length (concat rest)) as -> by (unfold zlen; lia).
  destruct (send_batches_completes (S (length (concat rest))) (bool_decide (op = op_body) && bool_decide (framing_ bw = chunked)) (bool_decide (op = op_body)) rest new_arbitration (confirmed_ bw) w1 n)
    as (c' & w2 & -> & Hob2); [lia|done|exact Hob1|].
  destruct (obliging_poll _ _ Hob2) as (w3 & -> & Hob3 & _). cbn [interrupt new_arbitration claim pending outcome]. eexists _, _, _. split; [reflexivity|]. by destruct op.
Qed.

(** The guards let an operation through. *)
Record admitted (buffers : list body_buffer) (op : operation) (bw : body_writer) : Prop := {
  ad_busy : busy_ bw = false;
  ad_phase : match op with op_headers => phase_ bw = headers | _ => phase_ bw = open end;
  ad_result : error (result_ bw) = none;
  ad_total : total_size buffers 0 = inl (zlen (bytes_of buffers));
  ad_body : op = op_body -> match expected_ bw with Some e => zlen (bytes_of buffers) <= u64 (e - confirmed_ bw) | None => True end /\ zlen (bytes_of buffers) <= u64 (SIZE_MAX - confirmed_ bw);
  ad_finish : op = op_finish -> match expected_ bw with Some e => confirmed_ bw = e | None => True end;
}.

Lemma operation_completes buffers op bw w n : admitted buffers op bw ->
  obliging (length (framed (bool_decide (op = op_body) && bool_decide (framing_ bw = chunked)) (map buffer_bytes buffers)) + n) w ->
  exists r bw' w', start_operation buffers op bw w = Some (Ok r, bw', w') /\ error r = none /\ obliging n w'.
Proof.
  intros [Hb Hph Hr Ht Hbody Hfin] Hob. unfold start_operation. destruct (obliging_enter _ _ Hob) as (w1 & -> & Hob1). cbn [frame_error is_cancelled setup_error].
  destruct (transmit_completes buffers op bw w1 n Hr Hob1) as (r & bw' & w' & Htr & Hok & Hob'). exists r, bw', w'. split; [|done]. fold (bytes_of buffers) in Htr.
  unfold perform. rewrite Hb, Ht. destruct op.
  - rewrite Hph. cbn [negb]. rewrite (bool_decide_false (op_headers = op_body)), (bool_decide_false (op_headers = op_finish)) by done. cbn [andb]. by rewrite Htr.
  - rewrite Hph. cbn [negb]. rewrite (bool_decide_true (op_body = op_body)), (bool_decide_false (op_body = op_finish)) by done. cbn [andb]. destruct (Hbody eq_refl) as [H1 H2].
    replace (match expected_ bw with Some e => _ | None => false end) with false by (destruct (expected_ bw); [lia|done]). rewrite (proj2 (Z.ltb_ge _ _)) by lia. by rewrite Htr.
  - rewrite Hph. cbn [negb]. rewrite (bool_decide_false (op_finish = op_body)), (bool_decide_true (op_finish = op_finish)) by done. cbn [andb].
    replace (match expected_ bw with Some e => _ | None => false end) with false by (specialize (Hfin eq_refl); destruct (expected_ bw); [lia|done]). by rewrite Htr.
Qed.

Lemma one_completes bytes op bw w n : admitted [Buffer bytes] op bw -> obliging (length (framed (bool_decide (op = op_body) && bool_decide (framing_ bw = chunked)) [bytes]) + n) w ->
  exists r bw' w', start_one bytes op bw w = Some (Ok r, bw', w') /\ error r = none /\ obliging n w'.
Proof. intros Ha Hob. unfold start_one. destruct (obliging_enter _ _ Hob) as (w1 & -> & Hob1). cbn [frame_error]. by apply (operation_completes [Buffer bytes]). Qed.

(** A producer that passes real buffers and ends with success when its writes succeed, and the bytes its writes send. *)
Definition real_buffers (buffers : list body_buffer) : Prop := Forall (fun b => match b with Null n => n = 0 | Buffer _ => True end) buffers.

Fixpoint cooperative (p : producer) (written : list byte) : Prop :=
  let ok b := Ok (SendResult none 0 (zlen (written ++ b))) in
  match p with
  | Return r => error r = none
  | Raise => False
  | Write b next => cooperative (next (ok b)) (written ++ b)
  | Writev buffers next => real_buffers buffers /\ cooperative (next (ok (bytes_of buffers))) (written ++ bytes_of buffers)
  end.

Fixpoint cost (ch : bool) (p : producer) (written : list byte) : nat :=
  let ok b := Ok (SendResult none 0 (zlen (written ++ b))) in
  match p with
  | Return _ | Raise => 0
  | Write b next => length (framed ch [b]) + cost ch (next (ok b)) (written ++ b)
  | Writev buffers next => length (framed ch (map buffer_bytes buffers)) + cost ch (next (ok (bytes_of buffers))) (written ++ bytes_of buffers)
  end.

Lemma total_size_fits buffers t : real_buffers buffers -> 0 <= t -> t + zlen (bytes_of buffers) <= SIZE_MAX -> total_size buffers t = inl (t + zlen (bytes_of buffers)).
Proof.
  intros Hf. revert t. induction Hf as [|b buffers Hb Hf IH]; intros t Ht Hle; cbn [total_size]; [f_equal; change (zlen (bytes_of [])) with 0; lia|].
  unfold bytes_of in *. cbn [map concat] in *. rewrite zlen_app in *. pose proof (zlen_nonneg (concat (map buffer_bytes buffers))). pose proof (zlen_nonneg (buffer_bytes b)).
  assert (buffer_size b = zlen (buffer_bytes b) /\ (match b with Null n => negb (n =? 0) | Buffer _ => false end) = false) as [-> ->] by (destruct b; [done|subst; done]).
  rewrite !u64_small by (unfold SIZE_MAX in *; lia). rewrite (proj2 (Z.ltb_ge _ _)) by lia. rewrite IH by lia. f_equal. lia.
Qed.

Section Progress.
Context (fr : response_framing) (expected : option Z) (base head : list byte).

#[local] Abbreviation opened := (opened fr expected base head).

Definition room (b : list byte) : Prop := zlen b <= SIZE_MAX /\ match expected with Some e => zlen b <= e | None => True end.

Lemma room_prefix b b' : b `prefix_of` b' -> room b' -> room b.
Proof. intros [k ->] [H1 H2]. rewrite zlen_app in *. pose proof (zlen_nonneg k). split; [lia|]. destruct expected; [lia|done]. Qed.

Lemma opened_admits pieces buffers bw w : opened pieces bw w -> real_buffers buffers -> room (concat pieces ++ bytes_of buffers) -> admitted buffers op_body bw.
Proof.
  intros [[Hf He Hb] Hph [Hr _] _ _ Hc [Hmax Hex]] Hreal [Hroom Hexp]. rewrite zlen_app in *. pose proof (zlen_nonneg (concat pieces)). pose proof (zlen_nonneg (bytes_of buffers)).
  split; try done; [rewrite total_size_fits by (done || lia); f_equal; lia|]. intros _. rewrite He, Hc. split; [destruct expected; [|done]|]; rewrite u64_small by (unfold SIZE_MAX in *; lia); lia.
Qed.

Lemma not_broken body bw w r : broken fr expected base head body bw w -> error r = none -> r = result_ bw -> False.
Proof. intros [_ _ Hr _ _] He ->. done. Qed.

Lemma invoke_completes p pieces bw w n : opened pieces bw w -> cooperative p (concat pieces) -> room (output p (concat pieces)) ->
  obliging (cost (bool_decide (fr = chunked)) p (concat pieces) + n) w ->
  exists r bw' w', invoke p bw w = Some (Some r, bw', w') /\ error r = none /\ obliging n w' /\ exists pieces', opened pieces' bw' w' /\ concat pieces' = output p (concat pieces).
Proof.
  revert pieces bw w. induction p as [r| |b next IH|buffers next IH]; intros pieces bw w Ho Hcoop Hroom Hob; cbn [cooperative output cost invoke] in *; [eexists _, _, _; split_and!; eauto|done| |].
  - assert (admitted [Buffer b] op_body bw) as Ha.
    { eapply opened_admits; [done|by repeat constructor|]. unfold bytes_of. cbn. rewrite app_nil_r. eapply room_prefix; [apply output_extends|exact Hroom]. }
    destruct (one_completes b op_body bw w (cost (bool_decide (fr = chunked)) (next (Ok (SendResult none 0 (zlen (concat pieces ++ b))))) (concat pieces ++ b) + n) Ha) as (r & bw' & w' & Hw & Hr & Hob').
    { rewrite (cf_framing _ _ _ (op_config _ _ _ _ _ _ _ Ho)), (bool_decide_true (op_body = op_body)) by done. cbn [andb]. by rewrite Nat.add_assoc. }
    unfold write. rewrite Hw. destruct (write_wrote _ _ _ _ _ _ _ _ _ _ _ Ho Hw) as [(new & E & Ho' & <-)|[Hb Hres]]; [|by destruct (not_broken _ _ _ r Hb Hr (Hres r eq_refl))].
    injection E as ->. rewrite <-concat_app in *. by eapply IH.
  - destruct Hcoop as [Hreal Hcoop]. assert (admitted buffers op_body bw) as Ha by (eapply opened_admits; [done..|]; eapply room_prefix; [apply output_extends|exact Hroom]).
    destruct (operation_completes buffers op_body bw w (cost (bool_decide (fr = chunked)) (next (Ok (SendResult none 0 (zlen (concat pieces ++ bytes_of buffers))))) (concat pieces ++ bytes_of buffers) + n) Ha) as (r & bw' & w' & Hw & Hr & Hob').
    { rewrite (cf_framing _ _ _ (op_config _ _ _ _ _ _ _ Ho)), (bool_decide_true (op_body = op_body)) by done. cbn [andb]. by rewrite Nat.add_assoc. }
    unfold writev. rewrite Hw. destruct (writev_wrote _ _ _ _ _ _ _ _ _ _ _ Ho Hw) as [(new & E & Ho' & Hn)|[Hb Hres]]; [|by destruct (not_broken _ _ _ r Hb Hr (Hres r eq_refl))].
    injection E as ->. rewrite <-Hn, <-concat_app in *. by eapply IH.
Qed.

End Progress.

Lemma obliging_less n m w : obliging n w -> (m <= n)%nat -> obliging m w.
Proof. intros [? ? ? ?] H. split; try done. lia. Qed.

Section Sent.
Context (p : response_plan) (base : list byte).

#[local] Abbreviation opened := (opened (framing p) (expected_body_bytes p) base (header_block p)).

Lemma head_completes w n : sent w = base -> zlen (header_block p) <= SIZE_MAX -> in_range (expected_body_bytes p) -> obliging (length (framed false [header_block p]) + n) w ->
  exists bw w', send_head p w = Some (inr bw, w') /\ opened [] bw w' /\ obliging n w'.
Proof.
  intros Hs Hmax Hin Hob. destruct (one_completes (header_block p) op_headers (create p) w n) as (r & bw & w' & Hh & Hr & Hob').
  { split; try done. rewrite total_size_fits by (by repeat constructor || (unfold bytes_of; cbn; rewrite ?app_nil_r; lia)). done. }
  { by rewrite (bool_decide_false (op_headers = op_body)). }
  assert (send_head p w = Some (inr bw, w')) as E by (unfold send_head, send_headers; rewrite Hh; unfold success; by rewrite bool_decide_true).
  exists bw, w'. split; [done|]. split; [|done]. by apply (send_head_ended p base) in E.
Qed.

Lemma conclude_completes pieces bw w n : opened pieces bw w -> match expected_body_bytes p with Some e => zlen (concat pieces) = e | None => True end ->
  obliging (length (framed false [ending (framing p)]) + n) w -> exists r w', conclude p bw w = Some (ResponseSendResult r (reusable p), w') /\ success r = true /\ obliging n w'.
Proof.
  intros [[Hf He Hb] Hph [Hr _] _ _ Hc _] Hexp Hob. unfold conclude, finish. rewrite Hf. fold (ending (framing p)).
  destruct (one_completes (ending (framing p)) op_finish bw w n) as (r & bw' & w' & -> & Hok & Hob').
  { split; try done.
    - rewrite total_size_fits; [done|by repeat constructor|done|]. unfold ending. case_bool_decide; unfold bytes_of; vm_compute; done.
    - intros _. rewrite He. destruct (expected_body_bytes p); [congruence|done]. }
  { by rewrite (bool_decide_false (op_finish = op_body)). }
  assert (success r = true) as Es by (by apply bool_decide_eq_true). exists r, w'. by rewrite Es.
Qed.

(** The body of a complete response, and that of a producer. *)
Lemma complete_completes body bw w n : opened [] bw w -> in_range (expected_body_bytes p) -> (framing p = Plan.none -> expected_body_bytes p = Some 0) ->
  (framing p <> Plan.none -> room (expected_body_bytes p) body /\ match expected_body_bytes p with Some e => zlen body = e | None => True end) ->
  obliging (length (framed (bool_decide (framing p = chunked)) [body]) + (length (framed false [ending (framing p)]) + n)) w ->
  exists r w', send_complete body p bw w = Some (ResponseSendResult r (reusable p), w') /\ success r = true.
Proof.
  intros Ho Hin Hnone Hroom Hob. unfold send_complete. destruct (decide (framing p = Plan.none)) as [Hf|Hf]; [rewrite (bool_decide_true (framing p = Plan.none)) by done|rewrite (bool_decide_false (framing p = Plan.none)) by done].
  { destruct (conclude_completes [] bw w n Ho) as (r & w' & -> & Hs & _); [by rewrite (Hnone Hf)|eapply obliging_less; [exact Hob|lia]|eauto]. }
  destruct (Hroom Hf) as [Hrm Hexp]. assert (admitted [Buffer body] op_body bw) as Ha.
  { eapply (opened_admits _ _ _ _ []); [done|by repeat constructor|]. unfold bytes_of. cbn. by rewrite app_nil_r. }
  destruct (one_completes body op_body bw w (length (framed false [ending (framing p)]) + n) Ha) as (r & bw' & w' & Hw & Hr & Hob').
  { rewrite (cf_framing _ _ _ (op_config _ _ _ _ _ _ _ Ho)), (bool_decide_true (op_body = op_body)) by done. exact Hob. }
  unfold write. rewrite Hw. assert (success r = true) as -> by (by apply bool_decide_eq_true).
  destruct (write_wrote _ _ _ _ _ _ _ _ _ _ _ Ho Hw) as [(new & E & Ho' & Hn)|[Hb Hres]]; [|by destruct (not_broken _ _ _ _ _ _ _ r Hb Hr (Hres r eq_refl))].
  destruct (conclude_completes _ bw' w' n Ho') as (r2 & w2 & -> & Hs & _); [by rewrite concat_app, Hn|done|eauto].
Qed.

Lemma streaming_completes s pr bw w n : producer_ s = Some pr -> invoked_ s = false -> opened [] bw w -> (invoke_producer p = false -> expected_body_bytes p = Some 0) ->
  (invoke_producer p = true -> cooperative pr [] /\ room (expected_body_bytes p) (output pr []) /\ match expected_body_bytes p with Some e => zlen (output pr []) = e | None => True end) ->
  obliging (cost (bool_decide (framing p = chunked)) pr [] + (length (framed false [ending (framing p)]) + n)) w ->
  exists r s' w', send_streaming s p bw w = Some (ResponseSendResult r (reusable p), s', w') /\ success r = true.
Proof.
  intros Hpr Hinv Ho Hnone Hprod Hob. unfold send_streaming. destruct (invoke_producer p).
  2:{ destruct (conclude_completes [] bw w n Ho) as (r & w' & -> & Hs & _); [by rewrite Hnone|eapply obliging_less; [exact Hob|lia]|eauto]. }
  destruct (Hprod eq_refl) as (Hcoop & Hrm & Hexp). unfold produce. rewrite Hpr, Hinv.
  destruct (invoke_completes _ _ _ _ pr [] bw w (length (framed false [ending (framing p)]) + n) Ho Hcoop Hrm Hob) as (r & bw' & w' & -> & Hr & Hob' & pieces & Ho' & Hout).
  assert (success r = true) as -> by (by apply bool_decide_eq_true). destruct (conclude_completes pieces bw' w' n Ho') as (r2 & w2 & -> & Hs & _); [by rewrite Hout|done|eauto].
Qed.

End Sent.

(** The reply can be produced, and its body is what the plan announces. *)
Definition producible (selected : reply) (c : decision) : Prop :=
  out_framing c <> Plan.none -> room (out_expected c) (reply_body selected) /\ (match out_expected c with Some e => zlen (reply_body selected) = e | None => True end) /\
  match selected with Streaming s => match producer_ s with Some pr => cooperative pr [] | None => False end | _ => True end.

(** [C26] A response is sent: when nothing interrupts and the transport takes at least one byte of whatever it is offered, every reply that can be planned and produced
    is sent completely after a bounded number of calls of the transport, and the result says that the connection can be used again
    exactly if the plan does. *)
Theorem response_sent order selected m reqv reuse head body c p :
  reply_head selected = Some (head, body) -> in_range (length_ body) -> decide_response head body m reqv reuse = Some c -> prepare_response order head body m reqv reuse = Some p ->
  zlen (header_block p) <= SIZE_MAX -> producible selected c -> match selected with Streaming s => can_produce s = true | _ => True end ->
  exists n, forall w, obliging n w ->
    exists res selected' w', send_response order selected m reqv reuse false w = Some (res, selected', w') /\ success (sent_result res) = true /\ sent_reusable res = out_reusable c.
Proof.
  intros Hhead Hl Hc Hp Hmax Hprod Hcan. destruct (prepared _ _ _ _ _ _ _ Hp) as (c' & Hc' & Hb & Hf & He & Hinv & Hre). rewrite Hc in Hc'. injection Hc' as <-.
  destruct (decide_expected _ _ _ _ _ _ Hl Hc) as (Hexp & Hin & Hprod'). 
  set (ch := bool_decide (out_framing c = chunked)). set (nh := length (framed false [header_block p])). set (ne := length (framed false [ending (framing p)])).
  destruct selected as [r|s|]; [| |done]; cbn [reply_head] in Hhead; injection Hhead as <- <-.
  - exists (nh + (length (framed ch [body_ r]) + (ne + 0)))%nat. intros w Hob. destruct (head_completes p (sent w) w _ eq_refl Hmax ltac:(by rewrite He) Hob) as (bw & w1 & Eh & Ho & Hob1).
    unfold send_response. rewrite Hp, Eh. destruct (complete_completes p (sent w) (body_ r) bw w1 0 Ho) as (r2 & w2 & -> & Hs); [by rewrite He| | |unfold ch in Hob1; rewrite <-Hf in Hob1; exact Hob1|].
    + rewrite Hf, He. intros Hn. by rewrite Hn in Hexp.
    + rewrite Hf, He. intros Hn. by destruct (Hprod Hn) as (? & ? & _).
    + eexists _, _, _. split; [reflexivity|]. by rewrite <-Hre.
  - unfold can_produce in Hcan. destruct (producer_ s) as [pr|] eqn:Epr; [|done]. apply negb_true_iff in Hcan.
    exists (nh + (cost ch pr [] + (ne + 0)))%nat. intros w Hob. destruct (head_completes p (sent w) w _ eq_refl Hmax ltac:(by rewrite He) Hob) as (bw & w1 & Eh & Ho & Hob1).
    unfold send_response. unfold can_produce. rewrite Epr, Hcan. cbn [negb]. rewrite Hp, Eh. cbn [kind] in Hprod'. rewrite andb_true_r in Hprod'.
    destruct (streaming_completes p (sent w) s pr bw w1 0 Epr Hcan Ho) as (r2 & s2 & w2 & -> & Hs); [| |unfold ch in Hob1; rewrite <-Hf in Hob1; exact Hob1|].
    + rewrite Hinv, Hprod', He. intros Hn%negb_false_iff%bool_decide_eq_true. by rewrite Hn in Hexp.
    + rewrite Hinv, Hprod', He. intros Hn%negb_true_iff%bool_decide_eq_false. destruct (Hprod Hn) as (? & ? & Hco). cbn [reply_body] in *. rewrite Epr in *. done.
    + eexists _, _, _. split; [reflexivity|]. by rewrite <-Hre.
Qed.

(** A producer that writes eleven bytes in two operations, over a transport that accepts seven bytes at a time. *)
Definition hello : producer := Write (str "hello ") (fun _ => Writev [Buffer (str "wo"); Null 0; Buffer (str "rld")] (fun r => match r with Ok r => Return r | Throw _ => Raise end)).
Definition hello_reply : reply := Streaming (StreamingResponse page (Some hello) None automatic false).
Definition seven : Z -> reply_ := fun n => Reply None (Sent (Z.min n 7)).
Definition seven_world : world := World [] (repeat seven 60) [] [].

Lemma hello_sendable : sendable Headers.headers_ hello_reply GET (str "HTTP/1.1") true.
Proof.
  intros head body [= <- <-]. split; [apply page_proper|]. split; [done|]. split; [done|]. intros c Hc. change (decide_response _ _ _ _ _) with (Some page_decision) in Hc. injection Hc as <-.
  split; [by vm_compute|]. repeat constructor; by vm_compute.
Qed.

Lemma response_delivered_witness : exists res selected' w' wire, send_response Headers.headers_ hello_reply GET (str "HTTP/1.1") true false seven_world = Some (res, selected', w') /\
  success (sent_result res) = true /\ confirmed_body_bytes (sent_result res) = 11 /\ sent w' = wire /\
  exists p, delivered page page_decision [str "hello world"] (str "HTTP") p /\ client_reads GET chunked wire (str "HTTP") p.
Proof.
  assert ((fun x => (sent_result x.1.1, sent x.2)) <$> send_response Headers.headers_ hello_reply GET (str "HTTP/1.1") true false seven_world =
    Some (SendResult none 0 11, match send_response Headers.headers_ hello_reply GET (str "HTTP/1.1") true false seven_world with Some (_, _, w) => sent w | None => [] end)) as H by (vm_compute; reflexivity).
  destruct (send_response _ _ _ _ _ _ _) as [[[res selected'] w']|] eqn:E; [|discriminate H]. cbn in H. injection H as Hres. exists res, selected', w'.
  destruct (response_delivered Headers.headers_ hello_reply GET (str "HTTP/1.1") true false seven_world res selected' w') as (wire & Hs & Hd); [reflexivity|exact hello_sendable|exact E|].
  exists wire. split; [reflexivity|]. rewrite Hres in Hd |- *. split; [reflexivity|]. split; [reflexivity|]. split; [exact Hs|].
  destruct Hd as (head & body & c & Hh & Hc & _ & Hall). cbn [reply_head hello_reply streaming_head body_length streaming_transfer] in Hh. injection Hh as <- <-.
  change (decide_response _ _ _ _ _) with (Some page_decision) in Hc. injection Hc as <-. exact (Hall (str "HTTP") ltac:(discriminate)).
Defined.

Lemma response_sent_witness : exists n, forall w, obliging n w ->
  exists res selected' w', send_response Headers.headers_ hello_reply GET (str "HTTP/1.1") true false w = Some (res, selected', w') /\ success (sent_result res) = true /\ sent_reusable res = true.
Proof.
  destruct (prepare_response Headers.headers_ page (BodyDescription streaming None automatic) GET (str "HTTP/1.1") true) as [p|] eqn:Ep; [|vm_compute in Ep; discriminate Ep].
  refine (response_sent Headers.headers_ hello_reply GET (str "HTTP/1.1") true page (BodyDescription streaming None automatic) page_decision p _ _ _ Ep _ _ _); try reflexivity.
  - vm_compute in Ep. injection Ep as <-. by vm_compute.
  - intros _. split; [split; [by vm_compute|exact I]|]. split; [exact I|]. cbn. split; [by repeat constructor|reflexivity].
Defined.

End Writer.
