(* ===== verification/HttpReader.v ===== *)
(** * Reading a response

    Models [src/include/elio/http/http_response_reader.hpp], [http_response_body_reader.hpp] and [client_result.hpp] of the same directory, and from
    [http_client.hpp] the class [client::exchange_state]: the reader that pulls protocol events out of the pieces
    that arrive, the exchange that skips interim responses and uploads a deferred request body, and the
    reader that copies the body into the buffers of the application.  What arrives, cancellation, the clock and the writes are
    the environment, as in [HttpWriter]: lists of what they answer.  [arrived] is what the transport has delivered.

    Whatever is cancelled, fails or expires, the bytes handed to the application are the first bytes of the body that
    the server produced, and all of them when the end of the body is reported ([body_received]); when nothing
    fails, the end is reported ([body_completed]). *)

From Stdlib Require Import Strings.Byte Strings.String ZifyBool.
From S2P Require Import Prelude Str HttpCommon HttpHeaders HttpChunk HttpRequest HttpMessage HttpDecoder HttpPlan HttpWriter.

Module Reader.
Import Http.

#[local] Arguments str : simpl never.

Definition EBADMSG : Z := 74.
Definition EMSGSIZE : Z := 90.
Definition ECONNRESET : Z := 104.
Definition EALREADY : Z := 114.

(** ** Errors of a client *)

Inductive client_stage :=
| at_target | at_resolve | at_acquire | at_connect | at_tls | at_request | at_headers | at_body | at_framing | at_proxy_connect | at_proxy_tls.

Record client_error := ClientError { code : Z; stage : client_stage }.

Definition make_client_error (e : Z) (s : client_stage) : client_error := ClientError (if 0 <? e then e else Writer.EIO) s.

(** ** The reader of events *)

(** What a read of the transport gives: bytes (none at the end of the stream), an error (the result [-e]), or an exception. *)
Inductive received := Bytes (b : list byte) | Failed (e : positive) | Raises.

(** [-ETIMEDOUT]. *)
Definition expired : received := Failed 110.

Record response_read_result := Read { event : Response.response_event; fragment : list byte; read_error : Z }.

(** [window] is the part of the buffer between [begin_] and [end_]. *)
Record response_reader := Reader {
  decoder : Response.response_decoder;
  capacity : Z;
  window : list byte;
  message_bytes : Z;
  reached_eof : bool;
  handoff : bool;
  completed : bool
}.

Definition new_reader (buffer_size : Z) : response_reader := Reader Response.new_decoder (Z.max buffer_size 1) [] 0 false false false.

Definition on_decoder (f : Response.response_decoder -> Response.response_decoder) r :=
  Reader (f (decoder r)) (capacity r) (window r) (message_bytes r) (reached_eof r) (handoff r) (completed r).
Definition set_max_headers max := on_decoder (Response.set_max_headers max).
Definition set_max_header_size max := on_decoder (Response.set_max_header_size max).
Definition set_request_method m := on_decoder (Response.set_request_method m).

Definition reset r : response_reader := Reader (Response.reset (decoder r)) (capacity r) [] 0 false false false.

Definition with_window b r := Reader (decoder r) (capacity r) b (message_bytes r) (reached_eof r) (handoff r) (completed r).
Definition with_eof r := Reader (decoder r) (capacity r) (window r) (message_bytes r) true (handoff r) (completed r).
Definition with_flags h c r := Reader (decoder r) (capacity r) (window r) (message_bytes r) (reached_eof r) h c.

(** The decoder took [n] bytes of the window. *)
Definition advance (n : Z) (d : Response.response_decoder) r :=
  Reader d (capacity r) (drop (Z.to_nat n) (window r)) (message_bytes r + Z.min n (SIZE_MAX - message_bytes r)) (reached_eof r) (handoff r) (completed r).

Definition decode_error d : Z := if Response.limit_exceeded_ d then EMSGSIZE else EBADMSG.

Definition is_event (a b : Response.response_event) : bool :=
  match a, b with
  | Response.Need_more, Response.Need_more | Response.Headers_complete, Response.Headers_complete | Response.Body, Response.Body
  | Response.Message_complete, Response.Message_complete | Response.Protocol_handoff, Response.Protocol_handoff | Response.Error_event, Response.Error_event => true
  | _, _ => false
  end.

Definition event_result (e : Response.response_event) (b : list byte) d : response_read_result :=
  Read e b (if is_event e Response.Error_event then decode_error d else 0).

(** ** The environment *)

(** A write of request data: whether the deadline had passed before it, whether it throws, whether it expired, what [write_all] returned, and whether the token is cancelled. *)
Record write_outcome := Outcome { late : bool; throws : bool; timed_out : bool; io_result : Z; token_cancelled : bool }.

Inductive write_failure := Write_error (e : client_error) | Write_throws.

Record world (A : Type) := World { arrived : list byte; arrivals : list A; polls : list bool; uploads : list write_outcome }.
#[global] Arguments World {A}.
#[global] Arguments arrived {A}.
#[global] Arguments arrivals {A}.
#[global] Arguments polls {A}.
#[global] Arguments uploads {A}.

(** [token.is_cancelled()]. *)
Definition poll {A} (w : world A) : bool * world A :=
  match polls w with [] => (false, w) | c :: polls => (c, World (arrived w) (arrivals w) polls (uploads w)) end.

Section Reading.
Context {A C : Type} (receive : A -> C -> received * C).

(** [read_with]: [None] means that it still waits for the transport; [l] are the arrivals to come. *)
Fixpoint read_with (l : list A) (w : world A) (c : C) (r : response_reader) : option (result unit response_read_result * response_reader * C * world A) :=
  let here w := World (arrived w) l (polls w) (uploads w) in
  match Response.decode (window r) (decoder r) with
  | Throw _ => Some (Throw tt, r, c, here w)
  | Ok (res, d) =>
      let r := advance (Response.consumed res) d r in
      match Response.event res with
      | Response.Need_more =>
          let (cancelled, w) := poll w in
          if cancelled then Some (Ok (Read Response.Error_event [] Writer.ECANCELED), r, c, here w)
          else if reached_eof r then
            match Response.finish_eof (decoder r) with
            | Throw _ => Some (Throw tt, r, c, here w)
            | Ok (res, d) =>
                let r := with_flags (handoff r) (is_event (Response.event res) Response.Message_complete) (on_decoder (fun _ => d) r) in
                Some (Ok (event_result (Response.event res) (Response.payload res) d), r, c, here w)
            end
          else
            match l with
            | [] => None
            | a :: l =>
                let r := with_window [] r in
                let '(x, c) := receive a c in
                let stop res := Some (res, r, c, World (arrived w) l (polls w) (uploads w)) in
                match x with
                | Failed e => if Zpos e =? Writer.EINTR then read_with l w c r else stop (Ok (Read Response.Error_event [] (Zpos e)))
                | Raises => stop (Throw tt)
                | Bytes [] => read_with l w c (with_eof r)
                | Bytes b => read_with l (World (arrived w ++ b) l (polls w) (uploads w)) c (with_window b r)
                end
            end
      | e =>
          let r := with_flags (is_event e Response.Protocol_handoff) (is_event e Response.Message_complete) r in
          Some (Ok (event_result e (Response.payload res) d), r, c, here w)
      end
  end.

End Reading.

Definition next_response r : bool * response_reader :=
  if negb (completed r) || Response.has_error (decoder r) || handoff r then (false, r)
  else (true, Reader (Response.reset (decoder r)) (capacity r) (window r) 0 (reached_eof r) (handoff r) false).

Definition bytes_remaining r : Z := zlen (window r).

(** ** The exchange *)

Definition is_informational_status (c : Z) : bool := (100 <=? c) && (c <? 200).

Definition response_read_stage (d : Response.response_decoder) : client_stage :=
  if Response.headers_complete_ d && negb (is_informational_status (Response.status_ d)) then at_body else at_headers.

(** [write_request_data]: the outcome of [write_all], or of its deadline, or an exception. *)
Definition write_request_data (deadline_enforced : bool) (o : write_outcome) : option write_failure :=
  if throws o then Some Write_throws
  else if deadline_enforced && timed_out o then Some (Write_error (make_client_error Writer.ETIMEDOUT at_request))
  else if io_result o <=? 0 then
    if (io_result o =? - Writer.ECANCELED) && token_cancelled o then Some (Write_error (make_client_error Writer.ECANCELED at_request))
    else Some (Write_error (make_client_error (if io_result o =? 0 then ECONNRESET else - io_result o) at_request))
  else None.

(** The members of an exchange that its reads change, with the data that [write_request_data] was called with. *)
Record channel := Channel {
  request_body_ : list byte;
  body_pending_ : bool;
  deadline_enforced_ : bool;
  expect_bounded_ : bool;
  expect_expired_ : bool;
  fallback_error_ : option client_error;
  written : list (list byte)
}.

Definition with_pending b c := Channel (request_body_ c) b (deadline_enforced_ c) (expect_bounded_ c) (expect_expired_ c) (fallback_error_ c) (written c).
Definition with_expired b c := Channel (request_body_ c) (body_pending_ c) (deadline_enforced_ c) (expect_bounded_ c) b (fallback_error_ c) (written c).
Definition with_fallback e c := Channel (request_body_ c) (body_pending_ c) (deadline_enforced_ c) (expect_bounded_ c) (expect_expired_ c) (Some e) (written c).
Definition with_written b c := Channel (request_body_ c) (body_pending_ c) (deadline_enforced_ c) (expect_bounded_ c) (expect_expired_ c) (fallback_error_ c) (written c ++ [b]).

Definition send_pending_body (o : write_outcome) (c : channel) : option write_failure * channel :=
  if negb (body_pending_ c) then (None, c)
  else
    let c := with_pending false c in
    if deadline_enforced_ c && late o then (Some (Write_error (make_client_error Writer.ETIMEDOUT at_request)), c)
    else (write_request_data (deadline_enforced_ c) o, with_written (request_body_ c) c).

(** The watchdog of a read: it is stopped, or its time comes before the read has completed (with the outcome of its
    upload, whether the read had failed by then, and whether its second wait ended too), or it throws outside the upload. *)
Inductive watch := Quiet | Fires (o : write_outcome) (read_failed later : bool) | Breaks.

(** A call of [receive_data]: which deadlines have passed or come first, what the watchdog does, and what the connection reads. *)
Record moment := Moment { response_over : bool; expect_over : bool; expect_sooner : bool; watchdog : watch; reads : received }.

(** [response_watchdog_task]: whether it reports the read as expired; [None] when it throws. *)
Definition response_watchdog_task (v : watch) (expect_first : bool) (c : channel) : option bool * channel :=
  match v with
  | Quiet => (Some false, c)
  | Breaks => (None, c)
  | Fires o read_failed later =>
      if negb expect_first then (Some true, c)
      else
        match send_pending_body o c with
        | (Some Write_throws, c) => (None, c)
        | (Some (Write_error e), c) => (Some false, if (code e =? Writer.ETIMEDOUT) || negb read_failed then with_fallback e c else c)
        | (None, c) => (Some (deadline_enforced_ c && later), c)
        end
  end.

Definition receive_data (m : moment) (c : channel) : received * channel :=
  let c := with_expired false c in
  if deadline_enforced_ c && response_over m then (expired, c)
  else
    let waiting_expect := body_pending_ c && expect_bounded_ c in
    if waiting_expect && expect_over m then (expired, with_expired true c)
    else if negb (deadline_enforced_ c) && negb waiting_expect then (reads m, c)
    else
      let expect_first := waiting_expect && (negb (deadline_enforced_ c) || expect_sooner m) in
      match response_watchdog_task (watchdog m) expect_first c with
      | (None, c) => (Raises, c)
      | (Some true, c) => (match reads m with Raises => Raises | _ => expired end, c)
      | (Some false, c) => (reads m, c)
      end.

Inductive lease := Held | Returned | Retired.

Record exchange := Exchange {
  reader : response_reader;
  channel_ : channel;
  request_method : method;
  informational_limit : Z;
  skipped_informational_bytes : Z;
  lease_ : lease
}.

Definition with_reader r x := Exchange r (channel_ x) (request_method x) (informational_limit x) (skipped_informational_bytes x) (lease_ x).
Definition with_channel c x := Exchange (reader x) c (request_method x) (informational_limit x) (skipped_informational_bytes x) (lease_ x).
Definition with_skipped n x := Exchange (reader x) (channel_ x) (request_method x) (informational_limit x) n (lease_ x).
Definition with_lease l x := Exchange (reader x) (channel_ x) (request_method x) (informational_limit x) (skipped_informational_bytes x) l.

Definition new_exchange (read_buffer_size max_headers max_header_size : Z) (m : method) (body : list byte) (defer_body : bool) (limit : Z) (deadline_enforced expect_bounded : bool) : exchange :=
  Exchange (set_request_method m (set_max_header_size max_header_size (set_max_headers max_headers (new_reader read_buffer_size))))
    (Channel body defer_body deadline_enforced expect_bounded false None []) m limit 0 Held.

(** The request without a deferred body; the body at once when nothing bounds the wait for an interim response. *)
Definition send_initial (data : list byte) (o later : write_outcome) x : option write_failure * exchange :=
  let x := with_channel (with_written data (channel_ x)) x in
  match write_request_data (deadline_enforced_ (channel_ x)) o with
  | Some e => (Some e, x)
  | None =>
      if body_pending_ (channel_ x) && negb (expect_bounded_ (channel_ x))
      then let (e, c) := send_pending_body later (channel_ x) in (e, with_channel c x)
      else (None, x)
  end.

(** The end of an operation: done, waiting for the environment, or out of fuel. *)
Inductive outcome (T : Type) := Done (t : T) | Waiting | Spent.
#[global] Arguments Done {T}.
#[global] Arguments Waiting {T}.
#[global] Arguments Spent {T}.

Inductive answer := Part (p : response_read_result) | Failure (e : client_error) | Thrown.

Definition upload {A} (w : world A) : option (write_outcome * world A) :=
  match uploads w with [] => None | o :: uploads => Some (o, World (arrived w) (arrivals w) (polls w) uploads) end.

(** What follows when an interim response asks for the body, or the wait for it is over. *)
Definition uploading {T} (w : world moment) x (stop : answer -> exchange -> world moment -> T) (continue : exchange -> world moment -> T) (wait : T) : T :=
  if negb (body_pending_ (channel_ x)) then continue x w
  else
    match upload w with
    | None => wait
    | Some (o, w) =>
        let '(e, c) := send_pending_body o (channel_ x) in
        let x := with_channel c x in
        match e with Some (Write_error e) => stop (Failure e) x w | Some Write_throws => stop Thrown x w | None => continue x w end
    end.

(** The part of [next] that looks at an event. *)
Definition on_event {T} (part : response_read_result) (w : world moment) x (stop : answer -> exchange -> world moment -> T) (continue : exchange -> world moment -> T) (wait : T) : T :=
  let r := reader x in
  let code := Response.status_ (decoder r) in
  match event part with
  | Response.Headers_complete =>
      if (code =? 101) || (bool_decide (request_method x = CONNECT) && (200 <=? code) && (code <? 300)) then stop (Failure (make_client_error EBADMSG at_framing)) x w
      else if negb (is_informational_status code) then stop (Part part) (with_channel (with_pending false (channel_ x)) x) w
      else if code =? 100 then uploading w x stop continue wait
      else continue x w
  | Response.Protocol_handoff => stop (Failure (make_client_error EBADMSG at_framing)) x w
  | Response.Message_complete =>
      if negb (is_informational_status code) then stop (Part part) x w
      else if u64 (informational_limit x - skipped_informational_bytes x) <? message_bytes r then stop (Failure (make_client_error EMSGSIZE at_framing)) x w
      else
        let x := with_skipped (u64 (skipped_informational_bytes x + message_bytes r)) x in
        let (ok, r) := next_response r in
        let x := with_reader r x in
        if negb ok then stop (Failure (make_client_error EBADMSG at_framing)) x w
        else continue (with_reader (set_request_method (request_method x) r) x) w
  | Response.Body => stop (Part part) x w
  | _ => continue x w
  end.

Fixpoint next_loop (fuel : nat) (w : world moment) x : outcome (answer * exchange * world moment) :=
  match fuel with
  | O => Spent
  | S fuel =>
      let stop a x w := Done (a, x, w) in
      let continue x w := next_loop fuel w x in
      let (cancelled, w) := poll w in
      if cancelled then stop (Failure (make_client_error Writer.ECANCELED (response_read_stage (decoder (reader x))))) x w
      else
        match read_with receive_data (arrivals w) w (channel_ x) (reader x) with
        | None => Waiting
        | Some (Throw _, r, c, w) => stop Thrown (with_reader r (with_channel c x)) w
        | Some (Ok part, r, c, w) =>
            let x := with_reader r (with_channel c x) in
            match fallback_error_ c with
            | Some e => stop (Failure e) x w
            | None =>
                if negb (read_error part =? 0) then
                  let (cancelled, w) := if expect_expired_ c && body_pending_ c then poll w else (true, w) in
                  if negb cancelled then uploading w x stop continue Waiting
                  else stop (Failure (make_client_error (read_error part) (if Response.has_error (decoder r) then at_framing else response_read_stage (decoder r)))) x w
                else on_event part w x stop continue Waiting
            end
        end
  end.

(** The bytes that the environment still holds. *)
Definition arriving (l : list moment) : nat := list_sum (map (fun m => match reads m with Bytes b => length b | _ => 0%nat end) l).
Definition to_come (w : world moment) : nat := arriving (arrivals w).

(** Two rounds for each byte in the window or to come, and one for each of: the state of the decoder, the upload, and the end. *)
Definition budget (w : world moment) x : nat := 2 * (length (window (reader x)) + to_come w) + 4.

Definition next (w : world moment) x := next_loop (budget w x) w x.

Definition reusable x : bool :=
  let d := decoder (reader x) in
  Response.is_complete d && negb (Response.close_delimited_ d) && negb (reached_eof (reader x)) && (bytes_remaining (reader x) =? 0) &&
  Headers.keep_alive (Response.version_ d) (Response.headers_ d).

(** The lease is settled once. *)
Definition settle_lease (l : lease) x : exchange := match lease_ x with Held => with_lease l x | _ => x end.

Definition finish (w : world moment) x : exchange * world moment :=
  let (cancelled, w) := poll w in (settle_lease (if negb cancelled && reusable x then Returned else Retired) x, w).

Definition abort x : exchange := settle_lease Retired x.

(** ** The reader of the body *)

Record response_body_reader := BodyReader {
  body_limit_ : Z;
  body_bytes_ : Z;
  pending_ : list byte;
  error_ : option client_error;
  complete_ : bool;
  reading_ : bool
}.

Definition new_body_reader (limit : Z) : response_body_reader := BodyReader limit 0 [] None false false.

Definition with_error e b := BodyReader (body_limit_ b) (body_bytes_ b) (pending_ b) (Some e) (complete_ b) (reading_ b).
Definition with_complete b := BodyReader (body_limit_ b) (body_bytes_ b) (pending_ b) (error_ b) true (reading_ b).
Definition with_pending_body n p b := BodyReader (body_limit_ b) n p (error_ b) (complete_ b) (reading_ b).

(** The bytes copied and whether the body is complete, an error, or an exception. *)
Inductive read_answer := Progress (transferred : list byte) (complete : bool) | Read_failure (e : client_error) | Read_thrown.

(** The loop over the parts, until one of them is a fragment of the body. *)
Fixpoint await_fragment (fuel : nat) (w : world moment) x b : outcome (option read_answer * response_body_reader * exchange * world moment) :=
  match pending_ b with
  | _ :: _ => Done (None, b, x, w)
  | [] =>
      match fuel with
      | O => Spent
      | S fuel =>
          match next w x with
          | Waiting => Waiting
          | Spent => Spent
          | Done (Thrown, x, w) => Done (Some Read_thrown, with_error (make_client_error Writer.EIO at_body) b, x, w)
          | Done (Failure e, x, w) => Done (Some (Read_failure e), with_error e b, x, w)
          | Done (Part part, x, w) =>
              match event part with
              | Response.Message_complete => Done (Some (Progress [] true), with_complete b, x, w)
              | Response.Body =>
                  if u64 (body_limit_ b - body_bytes_ b) <? zlen (fragment part) then
                    let e := make_client_error EMSGSIZE at_body in Done (Some (Read_failure e), with_error e b, x, w)
                  else await_fragment fuel w x (with_pending_body (u64 (body_bytes_ b + zlen (fragment part))) (fragment part) b)
              | _ => await_fragment fuel w x b
              end
          end
      end
  end.

Definition read_into (capacity : Z) (w : world moment) x b : outcome (read_answer * response_body_reader * exchange * world moment) :=
  if reading_ b then Done (Read_failure (make_client_error EALREADY at_body), b, x, w)
  else
    match error_ b with
    | Some e => Done (Read_failure e, b, x, w)
    | None =>
        if complete_ b then Done (Progress [] true, b, x, w)
        else
          let (cancelled, w) := poll w in
          if cancelled then let e := make_client_error Writer.ECANCELED at_body in Done (Read_failure e, with_error e b, x, w)
          else if capacity =? 0 then Done (Progress [] false, b, x, w)
          else
            match await_fragment (budget w x) w x b with
            | Waiting => Waiting
            | Spent => Spent
            | Done (Some a, b, x, w) => Done (a, b, x, w)
            | Done (None, b, x, w) =>
                let count := Z.to_nat (Z.min capacity (zlen (pending_ b))) in
                Done (Progress (take count (pending_ b)) false, with_pending_body (body_bytes_ b) (drop count (pending_ b)) b, x, w)
            end
    end.

(** ** A response and its handler *)

(** A handler of a streamed response: it reads, sees what the read returned or threw, and returns or throws. *)
Inductive handler := Return | Raise | Ask (capacity : Z) (continue : read_answer -> handler).

(** Whether it threw, and the bytes it was given. *)
Fixpoint handle (p : handler) (w : world moment) x b (taken : list byte) : outcome (bool * list byte * response_body_reader * exchange * world moment) :=
  match p with
  | Return => Done (false, taken, b, x, w)
  | Raise => Done (true, taken, b, x, w)
  | Ask capacity continue =>
      match read_into capacity w x b with
      | Waiting => Waiting
      | Spent => Spent
      | Done (a, b, x, w) => handle (continue a) w x b (taken ++ match a with Progress t _ => t | _ => [] end)
      end
  end.

(** The result of [with_response_impl] for one exchange. *)
Inductive scope_result := Completed | Stopped (e : client_error) | Rethrown.

Fixpoint await_head (fuel : nat) (w : world moment) x : outcome (option scope_result * exchange * world moment) :=
  match fuel with
  | O => Spent
  | S fuel =>
      match next w x with
      | Waiting => Waiting
      | Spent => Spent
      | Done (Failure e, x, w) => Done (Some (Stopped e), abort x, w)
      | Done (Thrown, x, w) => Done (Some Rethrown, abort x, w)
      | Done (Part part, x, w) => if is_event (event part) Response.Headers_complete then Done (None, x, w) else await_head fuel w x
      end
  end.

(** After the head, when it is no redirection that is followed: the handler, and what becomes of the connection. *)
Definition serve (p : handler) (max_body_size : Z) (w : world moment) x : outcome (scope_result * list byte * bool * exchange * world moment) :=
  match handle p w x (new_body_reader max_body_size) [] with
  | Waiting => Waiting
  | Spent => Spent
  | Done (true, taken, b, x, w) => Done (Rethrown, taken, complete_ b, abort x, w)
  | Done (false, taken, b, x, w) =>
      match error_ b with
      | Some e => Done (Stopped e, taken, complete_ b, abort x, w)
      | None =>
          let (cancelled, w) := poll w in
          if cancelled then Done (Stopped (make_client_error Writer.ECANCELED at_body), taken, complete_ b, abort x, w)
          else if complete_ b then let (x, w) := finish w x in Done (Completed, taken, true, x, w)
          else Done (Completed, taken, false, abort x, w)
      end
  end.

(** ** Reading follows the run of the decoder *)

Lemma run_taken input d d' p rest : Response.run input d = (d', p, rest) -> Response.state_ d' <> Response.error ->
  exists taken, input = taken ++ rest /\ Response.run taken d = (d', p, []).
Proof.
  revert d p. induction input as [|c input IH]; intros d p H He; cbn [Response.run] in H; (destruct (Response.terminal d) eqn:Et; [simplify_eq; exists []; split; [done|]; cbn; by rewrite Et|]).
  - simplify_eq. exists []. split; [done|]. cbn. by rewrite Et.
  - destruct (Response.take_byte c d) as [d1 q|d1] eqn:Eb.
    + destruct (Response.run input d1) as [[d2 p2] r2] eqn:E. simplify_eq. destruct (IH d1 p2 E He) as (taken & -> & Hr). exists (c :: taken). split; [done|].
      cbn [Response.run]. by rewrite Et, Eb, Hr.
    + simplify_eq. destruct He. unfold Response.take_byte in Eb. destruct (Response.line_byte_ok c d) as [[d0 t] El]. rewrite El in Eb. destruct (Response.state_ d); repeat case_if; by simplify_eq.
Qed.

(** [cur] are the bytes that arrived for the current message, [given] the payload that was handed on: the decoder and the window are where a run
    from the fresh decoder [f] is. *)
Record tracks (f : Response.response_decoder) (cur given : list byte) (r : response_reader) : Prop := {
  tr_wf : Response.wf (decoder r);
  tr_run : Response.run cur f = let '(d, p, rest) := Response.run (window r) (decoder r) in (d, given ++ p, rest);
  tr_origin : Response.origin (Response.reset f, Response.request_method_ f) (decoder r);
  tr_bytes : 0 <= message_bytes r <= SIZE_MAX /\ message_bytes r <= zlen cur - zlen (window r);
}.

Lemma tracks_with_eof f cur given r : tracks f cur given r -> tracks f cur given (with_eof r).
Proof. by intros []. Qed.

Lemma tracks_with_flags f cur given r h c : tracks f cur given r -> tracks f cur given (with_flags h c r).
Proof. by intros []. Qed.

Lemma tracks_arrive f cur given r b : tracks f cur given r -> window r = [] -> tracks f (cur ++ b) given (with_window b r).
Proof.
  intros [Hw Hr Ho Hb] He. rewrite He in *. constructor; [done| |done|].
  - rewrite Response.run_split, Hr. cbn [window with_window decoder]. cbn [Response.run]. destruct (Response.terminal (decoder r)); rewrite app_nil_r; cbn [app];
      destruct (Response.run b (decoder r)) as [[d p] rest]; done.
  - cbn [message_bytes with_window window]. rewrite zlen_app. change (zlen (@nil byte)) with 0 in Hb. lia.
Qed.

(** One call of the decoder. *)
Lemma tracks_decode f cur given r : tracks f cur given r -> exists res d n, Response.decode (window r) (decoder r) = Ok (res, d) /\ Response.decoded (window r) (decoder r) n res d /\
  Response.consumed res = Z.of_nat n /\ window (advance (Response.consumed res) d r) = drop n (window r) /\ tracks f cur (given ++ Response.payload res) (advance (Response.consumed res) d r).
Proof.
  intros [Hw Hr Ho [Hb1 Hb2]]. destruct (Response.decode_run (window r) 0 (decoder r) Hw) as (res & d & n & E & Hc & Hd). exists res, d, n. split; [done|]. split; [done|].
  assert (Z.to_nat (Response.consumed res) = n) as Hn by lia. split; [lia|]. split; [cbn; by rewrite Hn|]. pose proof (Response.dc_count _ _ _ _ _ Hd) as Hcount. constructor.
  - apply Hd.
  - rewrite Hr, (Response.dc_run _ _ _ _ _ Hd). cbn [window advance decoder]. rewrite Hn. destruct (Response.run _ d) as [[d2 p2] r2]. by rewrite app_assoc.
  - cbn. eapply Response.decode_keeps; [apply Response.origin_kept|exact Ho|exact E].
  - cbn. unfold zlen in *. rewrite length_drop. lia.
Qed.

(** The end of the stream completes a body that it delimits, and nothing else. *)
Lemma finish_eof_spec d : Response.terminal d = None -> exists res d', Response.finish_eof d = Ok (res, d') /\ Response.payload res = [] /\
  if bool_decide (Response.state_ d = Response.close_body) then
    d' = Response.with_state Response.complete d /\ Response.event res = (if Response.handoff_ d then Response.Protocol_handoff else Response.Message_complete)
  else Response.event res = Response.Error_event.
Proof.
  intros Ht. unfold Response.finish_eof, Response.terminal, Response.is_complete, Response.has_error in *. destruct (Response.state_ d) eqn:Es; try done; rewrite ?Es; eexists _, _; split; try reflexivity; done.
Qed.

(** What the channel may do: upload the pending body once, or give it up. *)
Record sends (c c' : channel) : Prop := {
  sn_body : request_body_ c' = request_body_ c;
  sn_enforced : deadline_enforced_ c' = deadline_enforced_ c;
  sn_bounded : expect_bounded_ c' = expect_bounded_ c;
  sn_written : (written c' = written c /\ (body_pending_ c' = true -> body_pending_ c = true)) \/
               (body_pending_ c = true /\ body_pending_ c' = false /\ written c' = written c ++ [request_body_ c]);
}.

#[global] Instance sends_preorder : PreOrder sends.
Proof.
  split; [intros c; split; auto|]. intros a b c [H1 H2 H3 H4] [K1 K2 K3 K4]. split; try congruence.
  destruct H4 as [[Hw Hp]|(Hp & Hp' & Hw)], K4 as [[Kw Kp]|(Kp & Kp' & Kw)]; [left; split; [congruence|auto]|right; split_and!; [auto|done|congruence]|right; split_and!; [done|by destruct (body_pending_ c); [rewrite Kp in Hp'|]|congruence]|congruence].
Qed.

Lemma sends_given_up c : sends c (with_pending false c).
Proof. constructor; cbn; try done. by left. Qed.

Lemma send_pending_body_sends o c e c' : send_pending_body o c = (e, c') -> sends c c' /\ body_pending_ c' = false /\ expect_expired_ c' = expect_expired_ c /\ fallback_error_ c' = fallback_error_ c.
Proof.
  unfold send_pending_body. destruct (body_pending_ c) eqn:Ep; cbn [negb]; [|by intros [= <- <-]]. case_if; intros [= <- <-]; (split; [constructor; cbn; try done; [by left|by right]|done]) || (split; [constructor; cbn; auto|done]).
Qed.

Lemma receive_data_spec m c x c' : receive_data m c = (x, c') ->
  sends c c' /\ (forall b, x = Bytes b -> reads m = Bytes b) /\ (expect_expired_ c' && body_pending_ c' = true -> x = expired).
Proof.
  unfold receive_data. set (c0 := with_expired false c). assert (sends c c0) as Hs by (constructor; cbn; auto). assert (expect_expired_ c0 = false) as He by done. clearbody c0.
  assert (expect_expired_ c0 && body_pending_ c0 = true -> x = expired) as Hq by (rewrite He; done).
  destruct (_ && response_over m); [by intros [= <- <-]|]. destruct (_ && expect_over m); [intros [= <- <-]; split_and!; [etransitivity; [exact Hs|constructor; cbn; auto]|done|done]|].
  destruct (negb _ && negb _); [intros [= <- <-]; auto|]. set (first := _ && (_ || _)).
  assert (forall v o c1, response_watchdog_task v first c0 = (o, c1) -> sends c c1 /\ expect_expired_ c1 = false) as Hw.
  { intros v o c1. unfold response_watchdog_task. destruct v as [|o' rf later|]; [by intros [= _ <-]| |by intros [= _ <-]].
    destruct first; cbn [negb]; [|by intros [= _ <-]]. destruct (send_pending_body o' c0) as [e c2] eqn:E. apply send_pending_body_sends in E as (Hs2 & _ & He2 & _). rewrite He in He2.
    assert (sends c c2) as Hs3 by (by etransitivity). destruct e as [[e|]|]; intros [= _ <-]; [|done|done]. case_if; [|done]. split; [etransitivity; [exact Hs3|constructor; cbn; auto]|done]. }
  destruct (response_watchdog_task _ _ _) as [o c1] eqn:Eo. destruct (Hw _ _ _ Eo) as [Hs1 He1]. destruct o as [[]|]; intros [= <- <-]; (split; [exact Hs1|]); rewrite He1; (split; [|done]); [by destruct (reads m)|done|done].
Qed.

(** The message has been read to its end: by its framing, or by the end of the stream. *)
Definition finished (f : Response.response_decoder) (cur given : list byte) (r : response_reader) : Prop :=
  (Response.run cur f = (decoder r, given, window r) /\ Response.terminal (decoder r) = Some Response.Message_complete /\ handoff r = false) \/
  (window r = [] /\ reached_eof r = true /\ exists d, Response.run cur f = (d, given, []) /\ Response.state_ d = Response.close_body /\ decoder r = Response.with_state Response.complete d).

(** An event of the reader. *)
Definition delivers (f : Response.response_decoder) (cur given : list byte) (part : response_read_result) (r : response_reader) : Prop :=
  match event part with
  | Response.Headers_complete => tracks f cur given r /\ Response.headed (decoder r)
  | Response.Body => tracks f cur (given ++ fragment part) r /\ fragment part <> []
  | Response.Message_complete => finished f cur given r /\ completed r = true
  | Response.Protocol_handoff => Response.handoff_ (decoder r) = true
  | _ => False
  end.

(** How a read moves the decoder: before the end of the header section the only event is that end, after it the head stays. *)
Definition moves (r : response_reader) (e : option Response.response_event) (r' : response_reader) : Prop :=
  (Response.before_body (decoder r) = true -> match e with Some Response.Headers_complete => True | None => Response.before_body (decoder r') = true | _ => False end) /\
  (forall h, Response.settled h (decoder r) -> Response.settled h (decoder r') /\ e <> Some Response.Headers_complete).

Lemma moves_trans r r1 e r' : moves r None r1 -> moves r1 e r' -> moves r e r'.
Proof. intros [H1 H2] [K1 K2]. split; [intros Hb; by apply K1, H1|]. intros h Hs. by apply K2, H2. Qed.

Lemma moves_same r r' : decoder r' = decoder r -> moves r None r'.
Proof. intros E. split; [by rewrite E|]. intros h Hs. by rewrite E. Qed.

Lemma decode_moves r res d h c : Response.decode (window r) (decoder r) = Ok (res, d) -> Response.event res <> Response.Error_event ->
  moves r (match Response.event res with Response.Need_more => None | e => Some e end) (with_flags h c (advance (Response.consumed res) d r)).
Proof.
  intros E He. split.
  - intros Hb. pose proof (Response.decode_heads _ _ _ _ _ Hb E) as H. cbn. by destruct (Response.event res).
  - intros hd Hs. split; [cbn; eapply Response.decode_keeps; [apply Response.settled_kept|exact Hs|exact E]|].
    pose proof (Response.decode_past_head hd _ _ _ _ _ Hs E) as Hp. by destruct (Response.event res).
Qed.

(** A call of [decode] that gives an event. *)
Lemma decode_delivers f cur given r res d n : tracks f cur given r -> Response.decode (window r) (decoder r) = Ok (res, d) -> Response.decoded (window r) (decoder r) n res d ->
  tracks f cur (given ++ Response.payload res) (advance (Response.consumed res) d r) -> Response.event res <> Response.Need_more -> Response.event res <> Response.Error_event ->
  let e := Response.event res in
  delivers f cur given (Read e (Response.payload res) 0) (with_flags (is_event e Response.Protocol_handoff) (is_event e Response.Message_complete) (advance (Response.consumed res) d r)).
Proof.
  intros Ht E Hd Ht' Hn He e. unfold delivers. cbn [event fragment]. pose proof (Response.dc_event _ _ _ _ _ Hd) as Hev. pose proof (Response.dc_payload _ _ _ _ _ Hd) as Hp. fold e in Hev, Hp.
  destruct e eqn:Ee; try done.
  - split; [rewrite Hp, app_nil_r in Ht' by done; by apply tracks_with_flags|]. cbn. destruct (Response.before_body (decoder r)) eqn:Eb.
    + pose proof (Response.decode_heads _ _ _ _ _ Eb E) as H. fold e in H. by rewrite Ee in H.
    + destruct (Response.decode_past_head (Response.head_of (decoder r)) _ _ _ _ _ (conj Eb eq_refl) E). done.
  - split; [by apply tracks_with_flags|apply Hev].
  - split; [|done]. left. cbn. rewrite Hp, app_nil_r in Ht' by done. destruct Ht' as [_ Hr _ _]. cbn in Hr. rewrite (Response.run_terminal _ d _ Hev), app_nil_r in Hr. done.
  - cbn. unfold Response.terminal in Hev. destruct (Response.state_ d); try done. by destruct (Response.handoff_ d).
Qed.

(** ** Reads *)

(** The wait for an interim response has just expired. *)
Definition expecting (c : channel) : bool := expect_expired_ c && body_pending_ c.

(** What [read_with] has done when it returns; [more] arrived meanwhile. *)
Definition read_done (f : Response.response_decoder) (cur given : list byte) (r : response_reader) (res : result unit response_read_result) (r' : response_reader) (c' : channel) : Prop :=
  match res with
  | Throw _ => True
  | Ok part =>
      if read_error part =? 0 then expecting c' = false /\ delivers f cur given part r' /\ moves r (Some (event part)) r'
      else expecting c' = true -> tracks f cur given r' /\ moves r None r'
  end.

Lemma decode_error_positive d : (decode_error d =? 0) = false.
Proof. unfold decode_error. by case_if. Qed.

Lemma read_done_trans f cur given r r1 res r' c' : moves r None r1 -> read_done f cur given r1 res r' c' -> read_done f cur given r res r' c'.
Proof.
  intros Hm. unfold read_done. destruct res as [part|]; [|done]. case_if; [intros (? & ? & ?); split_and!; try done; by eapply moves_trans|].
  intros Hr He. destruct (Hr He). split; [done|]. by eapply moves_trans.
Qed.

(** The end of the stream, when the decoder needs more. *)
Lemma read_done_eof f cur given r c res d : tracks f cur given r -> window r = [] -> Response.terminal (decoder r) = None -> reached_eof r = true -> expecting c = false -> 
  Response.finish_eof (decoder r) = Ok (res, d) ->
  read_done f cur given r (Ok (event_result (Response.event res) (Response.payload res) d))
    (with_flags (handoff r) (is_event (Response.event res) Response.Message_complete) (on_decoder (fun _ => d) r)) c.
Proof.
  intros Ht Hw Hn He Hq E. destruct (finish_eof_spec (decoder r) Hn) as (res' & d' & E' & _ & H). rewrite E in E'. injection E' as <- <-.
  unfold read_done, event_result. cbn [read_error event]. destruct (bool_decide _) eqn:Es; [|rewrite H; cbn [is_event]; rewrite decode_error_positive; by rewrite Hq].
  apply bool_decide_eq_true in Es. destruct H as [-> Hev].
  replace (is_event (Response.event res) Response.Error_event) with false by (rewrite Hev; by destruct (Response.handoff_ _)). cbn [Z.eqb]. split; [done|]. split.
  - unfold delivers. cbn [event]. rewrite Hev. destruct (Response.handoff_ (decoder r)) eqn:Eh; [exact Eh|]. split; [|done]. right. cbn. split_and!; try done. exists (decoder r). split; [|done].
    destruct Ht as [_ Hr _ _]. rewrite Hw in Hr. cbn [Response.run] in Hr. by rewrite Hn, app_nil_r in Hr.
  - split; [unfold Response.before_body; by rewrite Es|]. intros h [_ Hh]. split; [by split|]. rewrite Hev. by destruct (Response.handoff_ _).
Qed.

Lemma read_with_spec f given l : forall w c r cur res r' c' w', tracks f cur given r -> expecting c = false -> read_with receive_data l w c r = Some (res, r', c', w') ->
  sends c c' /\ exists more, arrived w' = arrived w ++ more /\ read_done f (cur ++ more) given r res r' c'.
Proof.
  induction l as [|m l IH]; intros w c r cur res r' c' w' Ht Hq H.
  all: destruct (tracks_decode f cur given r Ht) as (res0 & d & n & E & Hd & Hc & Hwin & Ht1); cbn [read_with] in H; rewrite E in H.
  all: set (r1 := advance (Response.consumed res0) d r) in *; pose proof (Response.dc_event _ _ _ _ _ Hd) as Hev; pose proof (Response.dc_payload _ _ _ _ _ Hd) as Hp.
  all: assert (Response.event res0 <> Response.Need_more -> Response.event res0 <> Response.Error_event ->
    read_done f (cur ++ []) given r (Ok (Read (Response.event res0) (Response.payload res0) 0))
      (with_flags (is_event (Response.event res0) Response.Protocol_handoff) (is_event (Response.event res0) Response.Message_complete) r1) c) as Hdone.
  1,3: intros Hn He; rewrite app_nil_r; unfold read_done; cbn [read_error event Z.eqb]; split; [done|]; split; [by eapply decode_delivers|];
    pose proof (decode_moves r res0 d (is_event (Response.event res0) Response.Protocol_handoff) (is_event (Response.event res0) Response.Message_complete) E He) as Hm; by destruct (Response.event res0).
  all: destruct (Response.event res0) eqn:Ee; try (simplify_eq; split; [done|]; exists []; cbn [arrived]; rewrite ?app_nil_r; split; [done|]; cbn [is_event event_result] in *; (rewrite ?app_nil_r in Hdone; by apply Hdone) || (unfold read_done; cbn [read_error event_result is_event]; rewrite decode_error_positive; by rewrite Hq)).
  all: clear Hdone; destruct Hev as [Hend Hterm]; rewrite Hend in Hwin; rewrite Hp, app_nil_r in Ht1 by done.
  all: assert (moves r None r1) as Hm by (pose proof (decode_moves r res0 d (handoff r) (completed r) E) as Hm; rewrite Ee in Hm; by apply Hm).
  all: assert (forall w0 : world moment, arrived (poll w0).2 = arrived w0) as Hpoll by (intros w0; unfold poll; by destruct (polls w0)).
  all: specialize (Hpoll w); destruct (poll w) as [cancelled w1]; cbn [snd] in Hpoll.
  all: destruct cancelled; [simplify_eq; split; [done|]; exists []; cbn [arrived]; rewrite app_nil_r; split; [done|]; unfold read_done; cbn; by rewrite Hq|].
  all: destruct (reached_eof r1) eqn:Eeof; [destruct (Response.finish_eof (decoder r1)) as [[res1 d1]|] eqn:Ef; simplify_eq; (split; [done|]); exists []; cbn [arrived]; rewrite app_nil_r; (split; [done|]);
    [eapply read_done_trans; [exact Hm|]; rewrite app_nil_r; by apply read_done_eof|done]|].
  - done.
  - destruct (receive_data m c) as [x c1] eqn:Er. destruct (receive_data_spec m c x c1 Er) as (Hs & _ & Hx). assert (moves r None (with_window [] r1)) as Hm' by done.
    assert (tracks f cur given (with_window [] r1)) as Ht2 by (pose proof (tracks_arrive f cur given r1 [] Ht1 Hwin) as H2; by rewrite app_nil_r in H2).
    assert (expecting c1 = true -> x = expired) as Hx' by done. destruct x as [b|e|].
    + assert (expecting c1 = false) as Hq1 by (destruct (expecting c1); [by specialize (Hx' eq_refl)|done]). destruct b as [|b0 b].
      * apply (IH _ _ _ cur) in H as (Hs' & more & Ha & Hr); [|by apply tracks_with_eof|done]. split; [by etransitivity|]. exists more. rewrite Ha, Hpoll. split; [done|]. by eapply read_done_trans.
      * apply (IH _ _ _ (cur ++ b0 :: b)) in H as (Hs' & more & Ha & Hr); [|by apply (tracks_arrive f cur given (with_window [] r1))|done]. split; [by etransitivity|].
        exists ((b0 :: b) ++ more). cbn [arrived] in Ha. rewrite Ha, Hpoll. split; [by rewrite <-app_assoc|]. rewrite app_assoc. by eapply read_done_trans.
    + destruct (Z.eqb_spec (Zpos e) Writer.EINTR) as [He|He].
      * assert (expecting c1 = false) as Hq1 by (destruct (expecting c1); [specialize (Hx' eq_refl); injection Hx' as ->; done|done]).
        apply (IH _ _ _ cur) in H as (Hs' & more & Ha & Hr); [|done|done]. split; [by etransitivity|]. exists more. rewrite Ha, Hpoll. split; [done|]. by eapply read_done_trans.
      * simplify_eq. split; [done|]. exists []. cbn [arrived]. rewrite !app_nil_r. split; [done|]. unfold read_done. cbn. done.
    + simplify_eq. split; [done|]. exists []. cbn [arrived]. by rewrite app_nil_r.
Qed.

(** The bytes in the window and to come, which a read only takes from; the end of a header section and a fragment of the body take at least one. *)
Definition taken_by (e : Response.response_event) : nat := match e with Response.Headers_complete | Response.Body => 1 | _ => 0 end.

Lemma read_with_takes f given l : forall w c r cur part r' c' w', tracks f cur given r -> read_with receive_data l w c r = Some (Ok part, r', c', w') ->
  (length (window r') + to_come w' + taken_by (event part) <= length (window r) + arriving l)%nat.
Proof.
  induction l as [|m l IH]; intros w c r cur part r' c' w' Ht H.
  all: destruct (tracks_decode f cur given r Ht) as (res0 & d & n & E & Hd & Hc & Hwin & Ht1); cbn [read_with] in H; rewrite E in H.
  all: set (r1 := advance (Response.consumed res0) d r) in *; pose proof (Response.dc_event _ _ _ _ _ Hd) as Hev; pose proof (Response.dc_payload _ _ _ _ _ Hd) as Hp; pose proof (Response.dc_count _ _ _ _ _ Hd) as Hn.
  all: assert (length (window r1) = (length (window r) - n)%nat) as Hl by (by rewrite Hwin, length_drop).
  all: destruct (Response.event res0) eqn:Ee; try (simplify_eq; unfold to_come; cbn; cbn in Hl; lia).
  all: destruct Hev as [Hend Hterm]; rewrite Hp, app_nil_r in Ht1 by done; destruct (poll w) as [[] w1]; [simplify_eq; unfold to_come; cbn; cbn in Hl; lia|].
  all: destruct (reached_eof r1); [destruct (finish_eof_spec (decoder r1) Hterm) as (res1 & d1 & Ef & _ & Hf); rewrite Ef in H;
    assert (taken_by (Response.event res1) = 0%nat) as H0 by (destruct (bool_decide _); [destruct Hf as [_ ->]; by destruct (Response.handoff_ _)|by rewrite Hf]);
    simplify_eq; cbn [event event_result]; rewrite H0; unfold to_come; cbn; cbn in Hl; lia|].
  1: done.
  assert (tracks f cur given (with_window [] r1)) as Ht2 by (rewrite Hend in Hwin; pose proof (tracks_arrive f cur given r1 [] Ht1 Hwin) as H2; by rewrite app_nil_r in H2).
  destruct (receive_data m c) as [x c1] eqn:Er. destruct (receive_data_spec m c x c1 Er) as (_ & Hx & _). unfold arriving in *. cbn [map list_sum fold_right] in *.
  destruct x as [[|b0 b]|e|].
  - apply (IH _ _ _ cur) in H; [|by apply tracks_with_eof]. cbn in H. unfold list_sum in *. lia.
  - rewrite (Hx _ eq_refl). apply (IH _ _ _ (cur ++ b0 :: b)) in H; [|by apply (tracks_arrive f cur given (with_window [] r1))]. cbn in *. unfold list_sum in *. lia.
  - destruct (Zpos e =? Writer.EINTR); [apply (IH _ _ _ cur) in H; [|done]; cbn in H; unfold list_sum in *; lia|]. simplify_eq. unfold to_come, arriving, list_sum. cbn. lia.
  - done.
Qed.

(** A decoder at the end of its message gives that event without reading. *)
Lemma read_with_terminal {A C} (receive : A -> C -> received * C) l w c r e : Response.terminal (decoder r) = Some e ->
  read_with receive l w c r = Some (Ok (event_result e [] (decoder r)), with_flags (is_event e Response.Protocol_handoff) (is_event e Response.Message_complete) (advance 0 (decoder r) r), c,
    World (arrived w) l (polls w) (uploads w)).
Proof.
  intros Ht. assert (Response.decode (window r) (decoder r) = Ok (Response.DecodeResult e 0 [], decoder r)) as E.
  { unfold Response.decode. destruct (window r); cbn [Response.decode_from]; by rewrite Ht. }
  assert (e <> Response.Need_more) as He by (intros ->; unfold Response.terminal in Ht; by destruct (Response.state_ (decoder r)), (Response.handoff_ (decoder r))).
  destruct l; cbn [read_with]; rewrite E; cbn [Response.consumed Response.event Response.payload]; by destruct e.
Qed.

(** ** Exchanges *)

(** A complete interim response. *)
Definition interim (f : Response.response_decoder) (message : list byte) : Prop :=
  exists d, Response.run message f = (d, [], []) /\ Response.terminal d = Some Response.Message_complete /\ is_informational_status (Response.status_ d) = true.

(** The bytes that arrived are interim responses and the first bytes of the message that is being read. *)
Record engaged (f : Response.response_decoder) (arr given : list byte) (x : exchange) : Prop := {
  en_split : exists ms cur, arr = concat ms ++ cur /\ Forall (interim f) ms /\ tracks f cur given (reader x) /\ skipped_informational_bytes x <= zlen (concat ms);
  en_skipped : 0 <= skipped_informational_bytes x <= informational_limit x /\ informational_limit x <= SIZE_MAX;
  en_quiet : expecting (channel_ x) = false;
  en_fresh : f = Response.set_request_method (request_method x) (Response.reset f);
}.

(** Before the header section of the final response has ended. *)
Definition opening (x : exchange) : Prop :=
  let d := decoder (reader x) in
  Response.before_body d = true \/ (is_informational_status (Response.status_ d) = true /\ Response.terminal d = Some Response.Message_complete).

(** After it: the head of the response is [h]. *)
Definition in_body h (x : exchange) : Prop := Response.settled h (decoder (reader x)) /\ is_informational_status (Response.status_ (decoder (reader x))) = false.

Lemma arrived_poll (w : world moment) b w' : poll w = (b, w') -> arrived w' = arrived w /\ arrivals w' = arrivals w.
Proof. unfold poll. by destruct (polls w); intros [= <- <-]. Qed.

(** [uploading] ends with an error, waits, or goes on with nothing pending. *)
Lemma uploading_cases {T} w x stop continue (wait : T) : uploading w x stop continue wait = wait \/
  exists c w', sends (channel_ x) c /\ body_pending_ c = false /\ fallback_error_ c = fallback_error_ (channel_ x) /\ arrived w' = arrived w /\ arrivals w' = arrivals w /\
    (uploading w x stop continue wait = continue (with_channel c x) w' \/
     exists a, (a = Thrown \/ exists e, a = Failure e) /\ uploading w x stop continue wait = stop a (with_channel c x) w').
Proof.
  unfold uploading. destruct (body_pending_ (channel_ x)) eqn:Ep; cbn [negb].
  - unfold upload. destruct (uploads w) as [|o us]; [by left|]. right. destruct (send_pending_body o (channel_ x)) as [e c] eqn:E. apply send_pending_body_sends in E as (Hs & Hp & _ & Hf).
    exists c, (World (arrived w) (arrivals w) (polls w) us). split_and!; try done. destruct e as [[e|]|]; [right|right|left; reflexivity]; eexists; eauto.
  - right. exists (channel_ x), w. split_and!; try done. left. by destruct x.
Qed.

(** The state of an exchange after a read that the expiry of the wait ended, or after the upload. *)
Lemma engaged_read f ms cur given x r c : Forall (interim f) ms -> tracks f cur given r -> skipped_informational_bytes x <= zlen (concat ms) ->
  0 <= skipped_informational_bytes x <= informational_limit x /\ informational_limit x <= SIZE_MAX -> f = Response.set_request_method (request_method x) (Response.reset f) ->
  expecting c = false -> engaged f (concat ms ++ cur) given (with_reader r (with_channel c x)).
Proof. intros Hms Ht Hsk Hlim Hf Hq. constructor; try done. by exists ms, cur. Qed.

Lemma expecting_sent c : body_pending_ c = false -> expecting c = false.
Proof. unfold expecting. intros ->. by rewrite andb_false_r. Qed.

(** The bytes in the window and to come, and the rounds that they allow. *)
Definition held (w : world moment) (x : exchange) : nat := length (window (reader x)) + to_come w.
Definition credit (w : world moment) (x : exchange) : nat :=
  2 * held w x + (if Response.before_body (decoder (reader x)) then 0 else 1) + (if body_pending_ (channel_ x) then 1 else 0).

Lemma held_poll (w : world moment) b w' x : poll w = (b, w') -> held w' x = held w x.
Proof. intros [_ E]%arrived_poll. unfold held, to_come. by rewrite E. Qed.

(** One round of [next]: it ends with a failure, or the wait has expired and it goes on, or it looks at an event. *)
Lemma next_round f given fuel w x o : engaged f (arrived w) given x -> next_loop (S fuel) w x = o ->
  o = Waiting \/ (exists a x' w', o = Done (a, x', w') /\ match a with Part _ => False | _ => True end) \/
  (exists x1 w1, o = next_loop fuel w1 x1 /\ engaged f (arrived w1) given x1 /\ moves (reader x) None (reader x1) /\ Response.terminal (decoder (reader x)) = None /\
     (held w1 x1 <= held w x)%nat /\ body_pending_ (channel_ x) = true /\ body_pending_ (channel_ x1) = false) \/
  exists part r c w1 ms cur, o = on_event part w1 (with_reader r (with_channel c x)) (fun a x w => Done (a, x, w)) (fun x w => next_loop fuel w x) Waiting /\
    arrived w1 = concat ms ++ cur /\ Forall (interim f) ms /\ skipped_informational_bytes x <= zlen (concat ms) /\ expecting c = false /\
    delivers f cur given part r /\ moves (reader x) (Some (event part)) r /\ (length (window r) + to_come w1 + taken_by (event part) <= held w x)%nat /\ sends (channel_ x) c.
Proof.
  intros [(ms & cur & Ha & Hms & Ht & Hsk) Hlim Hq Hf] <-. cbn [next_loop]. destruct (poll w) as [cancelled w0] eqn:Ep. apply arrived_poll in Ep as [Ep Epa].
  destruct cancelled; [right; left; by eexists _, _, _|]. destruct (read_with receive_data (arrivals w0) w0 (channel_ x) (reader x)) as [[[[res r] c] w1]|] eqn:Er; [|by left].
  assert (forall part, res = Ok part -> (length (window r) + to_come w1 + taken_by (event part) <= held w x)%nat) as Htake.
  { intros part ->. apply (read_with_takes f given _ _ _ _ cur) in Er; [|done]. unfold held, to_come. by rewrite Epa in Er. }
  assert (expecting c = true -> Response.terminal (decoder (reader x)) = None) as Hopen.
  { destruct (Response.terminal (decoder (reader x))) as [e|] eqn:Et; [|done]. rewrite (read_with_terminal _ _ _ _ _ _ Et) in Er. simplify_eq. by rewrite Hq. }
  apply (read_with_spec f given _ _ _ _ cur) in Er as (Hs & more & Ha1 & Hd); [|done..]. rewrite Ep, Ha, <-app_assoc in Ha1. destruct res as [part|]; [|right; left; by eexists _, _, _].
  destruct (fallback_error_ c) as [e|] eqn:Efb; [right; left; by eexists _, _, _|]. unfold read_done in Hd. destruct (read_error part =? 0); cbn [negb].
  { destruct Hd as (Hq1 & Hd & Hm). right. right. right. exists part, r, c, w1, ms, (cur ++ more). split_and!; try done. by apply Htake. }
  destruct (expect_expired_ c && body_pending_ c) eqn:Ee; [|right; left; by eexists _, _, _]. destruct (Hd Ee) as [Ht1 Hm]. destruct (poll w1) as [cancelled w2] eqn:Ep2. apply arrived_poll in Ep2 as [Ep2 Epa2].
  destruct cancelled; cbn [negb]; [right; left; by eexists _, _, _|].
  destruct (uploading_cases w2 (with_reader r (with_channel c x)) (fun a x w => Done (a, x, w)) (fun x w => next_loop fuel w x) Waiting) as [->|(c2 & w3 & Hs2 & Hp2 & _ & Ha3 & Hv3 & [->|(a & Ha' & ->)])];
    [by left| |right; left; exists a, (with_channel c2 (with_reader r (with_channel c x))), w3; split; [done|]; by destruct Ha' as [->|[e ->]]].
  right. right. left. eexists _, w3. split; [reflexivity|]. split; [|split; [done|split; [by apply Hopen|]]].
  2: { split; [specialize (Htake _ eq_refl); unfold held, to_come in *; cbn; rewrite Hv3, Epa2; lia|]. split; [|done]. apply andb_true_iff in Ee as [_ Ee].
    destruct (sn_written _ _ Hs) as [[_ Hpen]|(Hpen & _)]; auto. } rewrite Ha3, Ep2, Ha1. apply (engaged_read f ms (cur ++ more) given x r c2); try done. by apply expecting_sent.
Qed.

(** The exchange after an interim response has been skipped. *)
Definition skipped_exchange (x : exchange) : exchange :=
  let r := reader x in
  let fresh := Reader (Response.reset (decoder r)) (capacity r) (drop 0 (window r)) 0 (reached_eof r) false false in
  with_reader (set_request_method (request_method x) fresh) (with_skipped (u64 (skipped_informational_bytes x + message_bytes r)) x).

Lemma skip_engaged f arr x : engaged f arr [] x -> is_informational_status (Response.status_ (decoder (reader x))) = true -> Response.terminal (decoder (reader x)) = Some Response.Message_complete ->
  message_bytes (reader x) <= informational_limit x - skipped_informational_bytes x -> engaged f arr [] (skipped_exchange x).
Proof.
  intros [(ms & cur & -> & Hms & [Hw Hr Ho Hb] & Hsk) Hlim Hq Hf] Hi Ht El. rewrite (Response.run_terminal _ _ _ Ht), app_nil_r in Hr.
  apply run_taken in Hr as (message & -> & Hrun); [|intros E; unfold Response.terminal in Ht; by rewrite E in Ht]. rewrite zlen_app in Hb. unfold SIZE_MAX in Hlim, Hb.
  unfold skipped_exchange. rewrite u64_small by lia. constructor; [|cbn; unfold SIZE_MAX; lia|done|done].
  exists (ms ++ [message]), (window (reader x)). rewrite concat_app. cbn [concat]. rewrite app_nil_r, <-app_assoc. split; [done|].
  split; [apply Forall_app; split; [done|]; constructor; [|done]; by exists (decoder (reader x))|]. split; [|cbn; rewrite zlen_app; lia].
  assert (Response.reset (decoder (reader x)) = Response.reset f) as Ho1 by exact (f_equal fst Ho).
  assert (Response.set_request_method (request_method x) (Response.reset (decoder (reader x))) = f) as Efresh by (by rewrite Ho1, <-Hf).
  constructor; cbn [decoder window message_bytes reader with_reader set_request_method on_decoder request_method with_skipped]; rewrite ?Efresh, ?drop_0.
  - rewrite Hf. by intros [?|?].
  - by destruct (Response.run (window (reader x)) f) as [[d p] rest].
  - done.
  - unfold SIZE_MAX. lia.
Qed.

Lemma next_skip_round fuel w w0 x : poll w = (false, w0) -> fallback_error_ (channel_ x) = None -> is_informational_status (Response.status_ (decoder (reader x))) = true ->
  Response.terminal (decoder (reader x)) = Some Response.Message_complete -> 0 <= message_bytes (reader x) <= SIZE_MAX -> 0 <= skipped_informational_bytes x <= informational_limit x -> informational_limit x <= SIZE_MAX ->
  next_loop (S fuel) w x = if informational_limit x - skipped_informational_bytes x <? message_bytes (reader x) then
      Done (Failure (make_client_error EMSGSIZE at_framing), with_reader (with_flags false true (advance 0 (decoder (reader x)) (reader x))) x, World (arrived w0) (arrivals w0) (polls w0) (uploads w0))
    else next_loop fuel (World (arrived w0) (arrivals w0) (polls w0) (uploads w0)) (skipped_exchange x).
Proof.
  intros Ep Hfb Hi Ht Hm Hsk Hlim. cbn [next_loop]. rewrite Ep, (read_with_terminal _ _ _ _ _ _ Ht), Hfb.
  cbn [event_result is_event read_error Z.eqb negb]. unfold on_event. cbn [event reader with_reader decoder with_flags advance informational_limit skipped_informational_bytes with_channel message_bytes]. rewrite Hi. cbn [negb].
  rewrite (u64_small (_ - _)) by (unfold SIZE_MAX in *; lia). replace (message_bytes (reader x) + Z.min 0 (SIZE_MAX - message_bytes (reader x))) with (message_bytes (reader x)) by lia.
  assert (Response.has_error (decoder (reader x)) = false) as He by (unfold Response.terminal in Ht; unfold Response.has_error; by destruct (Response.state_ (decoder (reader x)))).
  unfold next_response. cbn [completed handoff decoder with_flags advance]. rewrite He. cbn [negb orb]. destruct x as [r c m lim sk le]. done.
Qed.

(** An interim response that has been read is skipped. *)
Lemma next_skips f fuel w x : engaged f (arrived w) [] x -> is_informational_status (Response.status_ (decoder (reader x))) = true -> Response.terminal (decoder (reader x)) = Some Response.Message_complete ->
  (exists e x' w', next_loop (S fuel) w x = Done (Failure e, x', w')) \/
  exists x1 w1, next_loop (S fuel) w x = next_loop fuel w1 x1 /\ engaged f (arrived w1) [] x1 /\ Response.before_body (decoder (reader x1)) = true /\
    held w1 x1 = held w x /\ channel_ x1 = channel_ x.
Proof.
  intros He Hi Ht. destruct (poll w) as [cancelled w0] eqn:Ep. pose proof (arrived_poll _ _ _ Ep) as [Ea Ev].
  destruct cancelled; [left; cbn [next_loop]; rewrite Ep; by eexists _, _, _|].
  destruct (fallback_error_ (channel_ x)) as [e|] eqn:Efb; [left; cbn [next_loop]; rewrite Ep, (read_with_terminal _ _ _ _ _ _ Ht), Efb; by eexists _, _, _|].
  pose proof He as [(ms & cur & _ & _ & [_ _ _ [Hb _]] & _) [Hsk Hlim] _ _]. rewrite (next_skip_round fuel w w0 x) by done. destruct (_ <? _) eqn:El; [left; by eexists _, _, _|right].
  eexists _, _. split; [reflexivity|]. split; [|split; [done|split; [unfold held, to_come; cbn; by rewrite Ev, drop_0|done]]]. cbn [arrived]. rewrite Ea. apply skip_engaged; try done. lia.
Qed.

(** The first part of an exchange ends with the head of the final response. *)
Lemma next_opening f fuel : forall w x p x' w', engaged f (arrived w) [] x -> opening x -> next_loop fuel w x = Done (Part p, x', w') ->
  event p = Response.Headers_complete /\ engaged f (arrived w') [] x' /\ in_body (Response.head_of (decoder (reader x'))) x' /\ Response.headed (decoder (reader x')).
Proof.
  induction fuel as [|fuel IH]; intros w x p x' w' He Hop H; [done|]. destruct Hop as [Hb|[Hi Ht]].
  2: { destruct (next_skips f fuel w x He Hi Ht) as [(e & y & v & E)|(x1 & w1 & E & He1 & Hb & _)]; rewrite E in H; [done|]. eapply IH; [exact He1|by left|exact H]. }
  pose proof He as [_ Hlim _ Hf]. destruct (next_round f [] fuel w x _ He H) as [E|[(a & y & v & E & Ha)|[(x1 & w1 & E & He1 & Hm & _)|(part & r & c & w1 & ms & cur & E & Ha & Hms & Hsk & Hq & Hd & Hm & _)]]].
  - done.
  - by simplify_eq.
  - symmetry in E. eapply IH; [exact He1|left; by apply Hm|exact E].
  - pose proof (proj1 Hm Hb) as Hev. unfold delivers in Hd. unfold on_event in E. destruct (event part) eqn:Eev; try done. destruct Hd as [Ht Hh]. symmetry in E.
    cbn [reader with_reader] in E. destruct (_ || _) eqn:E101 in E; [done|]. assert (engaged f (arrived w1) [] (with_reader r (with_channel c x))) as He1 by (rewrite Ha; by apply engaged_read).
    destruct (is_informational_status (Response.status_ (decoder r))) eqn:Ei; cbn [negb] in E.
    + assert (opening (with_reader r (with_channel c x))) as Hop.
      { right. split; [done|]. cbn. unfold is_informational_status in Ei. unfold Response.terminal. rewrite (Response.hd_interim _ Hh) by lia. rewrite (Response.hd_handoff _ Hh).
        apply orb_false_iff in E101 as [-> _]. replace (_ && _) with false; [done|]. destruct (Response.is_method CONNECT (decoder r)); lia. }
      destruct (Response.status_ (decoder r) =? 100); [|eapply IH; [exact He1|exact Hop|exact E]].
      destruct (uploading_cases w1 (with_reader r (with_channel c x)) (fun a x w => Done (a, x, w)) (fun x w => next_loop fuel w x) Waiting) as [E2|(c2 & w2 & _ & Hp2 & _ & Ha2 & _ & [E2|(a2 & Ha' & E2)])];
        rewrite E2 in E; try done; [|by destruct Ha' as [->|[e ->]]]. eapply IH; [|exact (Hop : opening (with_channel c2 (with_reader r (with_channel c x))))|exact E]. rewrite Ha2, Ha. apply (engaged_read f ms cur [] x r c2); try done. by apply expecting_sent.
    + simplify_eq. split; [done|]. split; [rewrite Ha; by apply (engaged_read f ms cur [] x r (with_pending false c)), expecting_sent|]. split; [|done].
      split; [|done]. split; [apply Hh|done].
Qed.

(** Every later part is a fragment of the body, or the end of the message. *)
Lemma next_body f h given fuel : forall w x p x' w', engaged f (arrived w) given x -> in_body h x -> next_loop fuel w x = Done (Part p, x', w') ->
  in_body h x' /\ ((event p = Response.Body /\ fragment p <> [] /\ engaged f (arrived w') (given ++ fragment p) x') \/
  (event p = Response.Message_complete /\ exists ms cur, arrived w' = concat ms ++ cur /\ Forall (interim f) ms /\ finished f cur given (reader x'))).
Proof.
  induction fuel as [|fuel IH]; intros w x p x' w' He Hin H; [done|]. pose proof Hin as [Hs Hi].
  assert (forall x1, Response.settled h (decoder (reader x1)) -> in_body h x1) as Hstay.
  { intros x1 H1. split; [done|]. destruct H1 as [_ H1], Hs as [_ Hs]. rewrite <-Hs in H1. unfold Response.head_of in H1. assert (Response.status_ (decoder (reader x1)) = Response.status_ (decoder (reader x))) as -> by congruence. done. }
  pose proof He as [_ Hlim _ Hf]. destruct (next_round f given fuel w x _ He H) as [E|[(a & y & v & E & Ha)|[(x1 & w1 & E & He1 & Hm & _)|(part & r & c & w1 & ms & cur & E & Ha & Hms & Hsk & Hq & Hd & Hm & _)]]].
  - done.
  - by simplify_eq.
  - symmetry in E. eapply IH; [exact He1|by apply Hstay, Hm|exact E].
  - destruct (proj2 Hm h Hs) as [Hs1 Hne]. pose proof (Hstay (with_reader r (with_channel c x)) Hs1) as Hin1. unfold delivers in Hd. unfold on_event in E. symmetry in E.
    destruct (event part) eqn:Eev; try done; cbn [reader with_reader] in E.
    + destruct Hd as [Ht Hfr]. simplify_eq. split; [done|]. left. split; [done|]. split; [done|]. rewrite Ha. by apply engaged_read.
    + destruct Hd as [Hd _]. destruct Hin1 as [_ Hi1]. cbn in Hi1. rewrite Hi1 in E. cbn [negb] in E. simplify_eq. split; [by apply Hstay|]. right. split; [done|]. by exists ms, cur.
Qed.

(** Whatever the outcome, bytes only arrive, and the pending body is handed over at most once. *)
Definition grows (w w' : world moment) : Prop := exists more, arrived w' = arrived w ++ more.

#[global] Instance grows_preorder : PreOrder grows.
Proof. split; [by exists []; rewrite app_nil_r|]. intros a b c [m1 H1] [m2 H2]. exists (m1 ++ m2). by rewrite H2, H1, app_assoc. Qed.

Lemma poll_grows w b w' : poll w = (b, w') -> grows w w'.
Proof. intros [E _]%arrived_poll. exists []. by rewrite E, app_nil_r. Qed.

Lemma read_with_grows l : forall w c r res r' c' w', read_with receive_data l w c r = Some (res, r', c', w') -> grows w w' /\ sends c c'.
Proof.
  induction l as [|m l IH]; intros w c r res r' c' w' H; cbn [read_with] in H.
  all: assert (forall l0, grows w (World (arrived w) l0 (polls w) (uploads w))) as Hw by (intros l0; exists []; by rewrite app_nil_r).
  all: destruct (Response.decode (window r) (decoder r)) as [[res0 d]|]; [|simplify_eq; done].
  all: destruct (Response.event res0); try (simplify_eq; split; [apply Hw|done]).
  all: pose proof (poll_grows w) as Hp; destruct (poll w) as [cancelled w1]; specialize (Hp _ _ eq_refl).
  all: assert (forall l0, grows w (World (arrived w1) l0 (polls w1) (uploads w1))) as Hw1 by (intros l0; etransitivity; [exact Hp|]; exists []; by rewrite app_nil_r).
  all: destruct cancelled; [simplify_eq; split; [apply Hw1|done]|]; destruct (reached_eof _); [destruct (Response.finish_eof _) as [[res1 d1]|]; simplify_eq; (split; [apply Hw1|done])|]; try done.
  destruct (receive_data m c) as [x c1] eqn:Er. destruct (receive_data_spec m c x c1 Er) as (Hs & _). destruct x as [[|b0 b]|e|].
  - apply IH in H as [Hg Hs']. split; by etransitivity.
  - apply IH in H as [Hg Hs']. split; [|by etransitivity]. etransitivity; [exact Hp|]. etransitivity; [|exact Hg]. by exists (b0 :: b).
  - destruct (_ =? _); [apply IH in H as [Hg Hs']; split; by etransitivity|]. simplify_eq. done.
  - by simplify_eq.
Qed.

Lemma next_grows fuel : forall w x a x' w', next_loop fuel w x = Done (a, x', w') -> grows w w' /\ sends (channel_ x) (channel_ x') /\ lease_ x' = lease_ x.
Proof.
  induction fuel as [|fuel IH]; intros w x a x' w' H; [done|]. cbn [next_loop] in H. pose proof (poll_grows w) as Hp. destruct (poll w) as [cancelled w0]. specialize (Hp _ _ eq_refl).
  destruct cancelled; [by simplify_eq|]. destruct (read_with receive_data (arrivals w0) w0 (channel_ x) (reader x)) as [[[[res r] c] w1]|] eqn:Er; [|done].
  apply read_with_grows in Er as [Hg Hs]. assert (grows w w1) as Hw1 by (by etransitivity). destruct res as [part|]; [|by simplify_eq]. destruct (fallback_error_ c); [by simplify_eq|].
  set (x1 := with_reader r (with_channel c x)) in *. assert (forall x2 w2, grows w w2 -> sends c (channel_ x2) -> lease_ x2 = lease_ x -> next_loop fuel w2 x2 = Done (a, x', w') -> grows w w' /\ sends (channel_ x) (channel_ x') /\ lease_ x' = lease_ x) as Hgo.
  { intros x2 w2 H1 H2 HL E. apply IH in E as (H3 & H4 & H5). split; [by etransitivity|]. split; [|congruence]. etransitivity; [exact Hs|]. by etransitivity. }
  assert (forall w2, grows w w2 -> uploading w2 x1 (fun a x w => Done (a, x, w)) (fun x w => next_loop fuel w x) Waiting = Done (a, x', w') -> grows w w' /\ sends (channel_ x) (channel_ x') /\ lease_ x' = lease_ x) as Hup.
  { intros w2 H1 E. destruct (uploading_cases w2 x1 (fun a x w => Done (a, x, w)) (fun x w => next_loop fuel w x) Waiting) as [E2|(c2 & w3 & Hs2 & _ & _ & Ha2 & _ & [E2|(a2 & Ha' & E2)])]; rewrite E2 in E; [done|..].
    - apply (Hgo (with_channel c2 x1) w3); [|exact Hs2|done|exact E]. etransitivity; [exact H1|]. exists []. by rewrite Ha2, app_nil_r.
    - injection E as _ <- <-. split; [|split; [by etransitivity|done]]. etransitivity; [exact H1|]. exists []. by rewrite Ha2, app_nil_r. }
  destruct (negb (read_error part =? 0)).
  - destruct (expect_expired_ c && body_pending_ c); [|by injection H as _ <- <-]. pose proof (poll_grows w1) as Hp1. destruct (poll w1) as [[] w2]; specialize (Hp1 _ _ eq_refl); assert (grows w w2) by (by etransitivity); [by injection H as _ <- <-|by apply Hup in H].
  - unfold on_event in H. destruct (event part); try (by injection H as _ <- <-); try (by apply (Hgo x1 w1) in H).
    + destruct (_ || _); [by injection H as _ <- <-|]. destruct (is_informational_status _); cbn [negb] in H.
      * destruct (_ =? 100); [by apply Hup in H|by apply (Hgo x1 w1) in H].
      * injection H as _ <- <-. split; [done|]. split; [|done]. etransitivity; [exact Hs|apply sends_given_up].
    + destruct (is_informational_status _); cbn [negb] in H; [|by injection H as _ <- <-]. destruct (_ <? _); [by injection H as _ <- <-|]. destruct (next_response (reader x1)) as [ok r2]. destruct ok; cbn [negb] in H; [|by injection H as _ <- <-].
      eapply Hgo; [exact Hw1| | |exact H]; done.
Qed.

(** [next] ends, or waits for the environment, and has taken at least a byte when it reports a header section or a fragment. *)
Definition ends (w : world moment) (x : exchange) (o : outcome (answer * exchange * world moment)) : Prop :=
  match o with
  | Spent => False
  | Done (Part p, x', w') => (held w' x' + taken_by (event p) <= held w x)%nat
  | _ => True
  end.

Lemma ends_less w x w1 x1 o : (held w1 x1 <= held w x)%nat -> ends w1 x1 o -> ends w x o.
Proof. intros Hl. destruct o as [[[[p|e|] x'] w']| |]; cbn; lia || done. Qed.

Lemma next_body_ends f h given fuel : forall w x, engaged f (arrived w) given x -> in_body h x -> (credit w x < fuel)%nat -> ends w x (next_loop fuel w x).
Proof.
  induction fuel as [|fuel IH]; intros w x He Hin Hfuel; [lia|]. pose proof Hin as [Hs Hi].
  destruct (next_round f given fuel w x _ He eq_refl) as [->|[(a & y & v & -> & Ha)|[(x1 & w1 & -> & He1 & Hm & _ & Hh & Hp & Hp1)|(part & r & c & w1 & ms & cur & -> & Ha & Hms & Hsk & Hq & Hd & Hm & Hh & _)]]].
  - done.
  - by destruct a.
  - destruct (proj2 Hm h Hs) as [Hs1 _]. apply (ends_less w x w1 x1); [done|]. apply IH; [done| |].
    + split; [done|]. destruct Hs as [_ Hs], Hs1 as [_ Hs1]. rewrite <-Hs in Hs1. unfold Response.head_of in Hs1. by replace (Response.status_ (decoder (reader x1))) with (Response.status_ (decoder (reader x))) by congruence.
    + revert Hfuel. unfold credit. rewrite Hp, Hp1, (proj1 Hs), (proj1 Hs1). lia.
  - destruct (proj2 Hm h Hs) as [Hs1 Hne]. assert (is_informational_status (Response.status_ (decoder r)) = false) as Hi1.
    { destruct Hs as [_ Hs], Hs1 as [_ Hs1]. rewrite <-Hs in Hs1. unfold Response.head_of in Hs1. by replace (Response.status_ (decoder r)) with (Response.status_ (decoder (reader x))) by congruence. }
    unfold delivers in Hd. unfold on_event. cbn [reader with_reader]. destruct (event part) eqn:Eev; try done; rewrite ?Hi1; cbn [negb ends]; unfold held in *; cbn; rewrite Eev; lia.
Qed.

Lemma next_opening_ends f fuel : forall w x, engaged f (arrived w) [] x -> opening x -> (credit w x < fuel)%nat -> ends w x (next_loop fuel w x).
Proof.
  induction fuel as [|fuel IH]; intros w x He Hop Hfuel; [lia|]. destruct Hop as [Hb|[Hi Ht]].
  2: { destruct (next_skips f fuel w x He Hi Ht) as [(e & y & v & ->)|(x1 & w1 & -> & He1 & Hb & Hh & Hc)]; [done|]. apply (ends_less w x w1 x1); [lia|]. apply IH; [done|by left|].
    revert Hfuel. unfold credit. rewrite Hb, Hc, Hh. unfold Response.before_body. unfold Response.terminal in Ht. destruct (Response.state_ (decoder (reader x))); try done. lia. }
  pose proof He as [_ Hlim _ Hf]. destruct (next_round f [] fuel w x _ He eq_refl) as [->|[(a & y & v & -> & Ha)|[(x1 & w1 & -> & He1 & Hm & _ & Hh & Hp & Hp1)|(part & r & c & w1 & ms & cur & -> & Ha & Hms & Hsk & Hq & Hd & Hm & Hh & Hs)]]].
  - done.
  - by destruct a.
  - apply (ends_less w x w1 x1); [done|]. apply IH; [done|left; by apply Hm|]. revert Hfuel. unfold credit. rewrite Hp, Hp1, Hb, (proj1 Hm Hb). lia.
  - pose proof (proj1 Hm Hb) as Hev. unfold delivers in Hd. unfold on_event. destruct (event part) eqn:Eev; try done. destruct Hd as [Ht Hhd]. cbn [reader with_reader taken_by] in *.
    destruct (_ || _) eqn:E101; [done|]. destruct (is_informational_status (Response.status_ (decoder r))) eqn:Ei; cbn [negb]; [|cbn; unfold held in *; cbn; rewrite Eev; cbn; lia].
    assert (forall c2, opening (with_reader r (with_channel c2 x))) as Hop.
    { right. split; [done|]. cbn. unfold is_informational_status in Ei. unfold Response.terminal. rewrite (Response.hd_interim _ Hhd) by lia. rewrite (Response.hd_handoff _ Hhd).
      apply orb_false_iff in E101 as [-> _]. replace (_ && _) with false; [done|]. destruct (Response.is_method CONNECT (decoder r)); lia. }
    assert (forall c2 w2, sends c c2 -> expecting c2 = false -> arrived w2 = arrived w1 -> arrivals w2 = arrivals w1 -> ends w x (next_loop fuel w2 (with_reader r (with_channel c2 x)))) as Hgo.
    { intros c2 w2 Hs2 Hq2 Ha2 Hv2. assert (held w2 (with_reader r (with_channel c2 x)) + 1 <= held w x)%nat as Hh2 by (unfold held, to_come in *; cbn; rewrite Hv2; lia).
      eapply ends_less; [|apply IH; [rewrite Ha2, Ha; by apply engaged_read|apply Hop|]]; [lia|]. revert Hfuel. unfold credit. rewrite Hb. cbn [decoder reader with_reader channel_ with_channel]. rewrite (Response.hd_past _ Hhd).
      assert (body_pending_ c2 = true -> body_pending_ (channel_ x) = true) as Hpen by (assert (sends (channel_ x) c2) as [_ _ _ [[_ K]|(K & _)]] by (by etransitivity); auto).
      cbn [channel_ with_reader with_channel]. destruct (body_pending_ c2); [rewrite Hpen by done|destruct (body_pending_ (channel_ x))]; lia. }
    destruct (Response.status_ (decoder r) =? 100); [|by apply (Hgo c w1)].
    destruct (uploading_cases w1 (with_reader r (with_channel c x)) (fun a x w => Done (a, x, w)) (fun x w => next_loop fuel w x) Waiting) as [->|(c2 & w2 & Hs2 & Hp2 & _ & Ha2 & Hv2 & [->|(a & Ha' & ->)])]; [done| |by destruct Ha' as [->|[e ->]]].
    apply (Hgo c2 w2); try done. by apply expecting_sent.
Qed.

Lemma credit_budget w x : (credit w x < budget w x)%nat.
Proof. unfold credit, budget, held. destruct (Response.before_body _), (body_pending_ _); lia. Qed.

(** ** Reading the body *)

(** The bytes handed over so far are the first bytes of the payload of what arrived. *)
Definition honest (f : Response.response_decoder) (arr served : list byte) : Prop :=
  exists ms cur d p rest, arr = concat ms ++ cur /\ Forall (interim f) ms /\ Response.run cur f = (d, served ++ p, rest).

Lemma honest_more f arr served more : honest f arr served -> honest f (arr ++ more) served.
Proof.
  intros (ms & cur & d & p & rest & -> & Hms & Hr). destruct (Response.run (rest ++ more) d) as [[d2 p2] r2] eqn:E.
  exists ms, (cur ++ more), d2, (p ++ p2), r2. split; [by rewrite app_assoc|]. split; [done|]. rewrite Response.run_split, Hr, E. by rewrite app_assoc.
Qed.

Lemma engaged_honest f arr served pending x : engaged f arr (served ++ pending) x -> honest f arr served.
Proof.
  intros [(ms & cur & -> & Hms & [_ Hr _ _] & _) _ _ _]. destruct (Response.run (window (reader x)) (decoder (reader x))) as [[d p] rest].
  exists ms, cur, d, (pending ++ p), rest. by rewrite app_assoc.
Qed.

(** The whole payload was handed over. *)
Definition served_all (f : Response.response_decoder) (arr served : list byte) (x : exchange) : Prop :=
  exists ms cur, arr = concat ms ++ cur /\ Forall (interim f) ms /\ finished f cur served (reader x).

Lemma served_all_honest f arr served x : served_all f arr served x -> honest f arr served.
Proof.
  intros (ms & cur & Ha & Hms & [(Hr & _)|(_ & _ & d & Hr & _)]); eexists ms, cur, _, [], _; rewrite app_nil_r; done.
Qed.

(** The reader of the body after [served] was handed over. *)
Record receiving (f : Response.response_decoder) h (arr served : list byte) (x : exchange) (b : response_body_reader) : Prop := {
  rv_idle : reading_ b = false;
  rv_whole : complete_ b = true -> error_ b = None;
  rv_limit : 0 <= body_bytes_ b <= body_limit_ b /\ body_limit_ b <= SIZE_MAX;
  rv_state : match error_ b with
             | Some _ => honest f arr served
             | None =>
                 in_body h x /\
                 if complete_ b then served_all f arr served x
                 else engaged f arr (served ++ pending_ b) x /\ body_bytes_ b = zlen (served ++ pending_ b)
             end;
}.

(** How a read ends: with a fragment, or otherwise as its answer says. *)
Definition awaited (f : Response.response_decoder) h (served : list byte) (o : option read_answer) (b : response_body_reader) (x : exchange) (w : world moment) : Prop :=
  receiving f h (arrived w) served x b /\
  match o with
  | None => pending_ b <> [] /\ error_ b = None /\ complete_ b = false
  | Some (Progress t c) => t = [] /\ c = true /\ complete_ b = true /\ error_ b = None
  | Some _ => is_Some (error_ b)
  end.

Lemma await_fragment_spec f h served fuel : forall w x b o b' x' w', receiving f h (arrived w) served x b -> error_ b = None -> complete_ b = false ->
  await_fragment fuel w x b = Done (o, b', x', w') -> awaited f h served o b' x' w' /\ grows w w' /\ lease_ x' = lease_ x.
Proof.
  induction fuel as [|fuel IH]; intros w x b o b' x' w' Hb He Hc H; cbn [await_fragment] in H; destruct (pending_ b) as [|p0 p] eqn:Ep; try (simplify_eq; (split; [|done]); (split; [done|]); by rewrite Ep); try done.
  destruct Hb as [Hidle _ Hlim Hst]. rewrite He, Hc, Ep, app_nil_r in Hst. destruct Hst as (Hin & Heng & Hbytes). destruct (next w x) as [[[a x1] w1]| |] eqn:En; try done.
  pose proof (next_grows _ _ _ _ _ _ En) as (Hg & _ & Hlease). assert (honest f (arrived w1) served) as Hh.
  { destruct Hg as [more ->]. apply honest_more. eapply (engaged_honest f _ served []). by rewrite app_nil_r. }
  assert (forall e, receiving f h (arrived w1) served x1 (with_error e b)) as Herr by (intros e; split; [done|cbn; by rewrite Hc|done|done]).
  destruct a as [part|e|]; [|simplify_eq; (split; [|done]); (split; [apply Herr|by eexists])..].
  apply (next_body f h served) in En as (Hin1 & [(Hev & Hfr & He1)|(Hev & Hall)]); [| |done|done]; rewrite Hev in H.
  - destruct (u64 _ <? _) eqn:El; [simplify_eq; (split; [|done]); (split; [apply Herr|by eexists])|]. unfold SIZE_MAX in Hlim. rewrite u64_small in El by lia. apply Z.ltb_ge in El.
    rewrite u64_small in H by (unfold zlen in *; lia). apply IH in H as (Ha & Hg' & Hl'); [split; [done|split; [by etransitivity|congruence]]| |done|done].
    split; [done|done|cbn; unfold SIZE_MAX, zlen in *; lia|]. cbn. rewrite He, Hc. split; [done|]. split; [done|]. rewrite zlen_app. lia.
  - simplify_eq. split; [|done]. split; [|done]. split; [done|done|done|]. cbn. by rewrite He.
Qed.

(** One read: what it copies are the next bytes of the payload, and the end it reports is the end of the message. *)
Lemma read_into_spec f h served cap w x b a b' x' w' : receiving f h (arrived w) served x b -> read_into cap w x b = Done (a, b', x', w') ->
  grows w w' /\ lease_ x' = lease_ x /\ match a with
  | Progress t c => receiving f h (arrived w') (served ++ t) x' b' /\ error_ b' = None /\ complete_ b' = c
  | _ => receiving f h (arrived w') served x' b' /\ is_Some (error_ b')
  end.
Proof.
  intros Hb H. unfold read_into in H. rewrite (rv_idle _ _ _ _ _ _ Hb) in H. destruct (error_ b) as [e|] eqn:Ee; [simplify_eq; split; [done|]; split; [done|]; rewrite Ee; split; [done|by eexists]|].
  destruct (complete_ b) eqn:Ec; [simplify_eq; split; [done|]; split; [done|]; by rewrite app_nil_r|]. pose proof (poll_grows w) as Hp. destruct (poll w) as [cancelled w0] eqn:Epoll. specialize (Hp _ _ eq_refl).
  apply arrived_poll in Epoll as [Ea _]. rewrite <-Ea in Hb.
  destruct cancelled.
  { simplify_eq. split; [done|]. split; [done|]. split; [|by eexists]. destruct Hb as [? ? ? Hst]. split; [done|cbn; by rewrite Ec|done|]. cbn. rewrite Ee, Ec in Hst. destruct Hst as (_ & Heng & _). by eapply engaged_honest. }
  destruct (cap =? 0); [simplify_eq; split; [done|]; split; [done|]; by rewrite app_nil_r|].
  destruct (await_fragment _ _ _ _) as [[[[o b1] x1] w1]| |] eqn:Ew; try done. apply (await_fragment_spec f h served) in Ew as ([Hr Ho] & Hg & Hls); [|done..]. assert (grows w w1) as Hg' by (by etransitivity).
  destruct o as [[t c|e|]|]; simplify_eq; (split; [done|]); (split; [done|]); [by destruct Ho as (-> & -> & ? & ?); rewrite app_nil_r|done..|].
  destruct Ho as (_ & He1 & Hc1). destruct Hr as [Hi1 Hw1 Hl1 Hs1]. rewrite He1, Hc1 in Hs1. set (n := Z.to_nat _). split; [|done]. split; [done|done|done|]. cbn. rewrite He1, Hc1.
  rewrite <-app_assoc, take_drop. done.
Qed.

(** ** The stream of a server *)

(** A final response and what follows it on the connection. *)
Record final (f : Response.response_decoder) (message body rest : list byte) (d : Response.response_decoder) : Prop := {
  fn_run : Response.run message f = (d, body, []);
  fn_status : is_informational_status (Response.status_ d) = false;
  fn_end : Response.terminal d = Some Response.Message_complete \/ (Response.state_ d = Response.close_body /\ rest = []);
}.

(** Two parts of one stream: one of them starts with the other. *)
Lemma prefix_comparable (a b c d : list byte) : a ++ b = c ++ d -> (exists z, c = a ++ z /\ b = z ++ d) \/ (exists z, a = c ++ z /\ d = z ++ b).
Proof. intros [(z & -> & ->)|(z & -> & ->)]%app_eq_inv; eauto. Qed.

Lemma run_nil d : Response.run [] d = (d, [], []).
Proof. cbn. by destruct (Response.terminal d). Qed.

(** A complete message is not the beginning of another. *)
Lemma run_past a z f d p e : Response.run a f = (d, p, []) -> Response.terminal d = Some e -> Response.run (a ++ z) f = (d, p, z).
Proof. intros Hr Ht. rewrite Response.run_split, Hr. cbn [app]. by rewrite (Response.run_terminal z d e Ht), app_nil_r. Qed.

(** The interim responses that were skipped are the first of those that the server sent. *)
Lemma stream_split f ms r0 message body rest d ints : final f message body rest d -> Forall (interim f) ms -> Forall (interim f) ints -> concat ms ++ r0 = concat ints ++ message ++ rest ->
  exists ints', Forall (interim f) ints' /\ concat ints = concat ms ++ concat ints' /\ r0 = concat ints' ++ message ++ rest.
Proof.
  intros [Hrun Hst Hend] Hms His. revert ints His. induction Hms as [|m1 ms (d1 & Hr1 & Ht1 & Hi1) Hms IH]; intros ints His Hall; cbn [concat app] in Hall; [by exists ints|].
  destruct His as [|i ints (di & Hri & Hti & Hii) His]; cbn [concat app] in Hall; rewrite <-!app_assoc in Hall.
  - exfalso. destruct (prefix_comparable _ _ _ _ Hall) as [(z & E & Ez)|(z & E & Ez)].
    + subst message. rewrite (run_past _ z _ _ _ _ Hr1 Ht1) in Hrun. simplify_eq. by rewrite Hst in Hi1.
    + destruct Hend as [Ht|[Hs ->]]; [|symmetry in Ez; apply app_eq_nil in Ez as [-> _]; rewrite app_nil_r in E; subst m1; rewrite Hrun in Hr1; simplify_eq; by rewrite Hst in Hi1].
      subst m1. rewrite (run_past _ z _ _ _ _ Hrun Ht) in Hr1. simplify_eq. by rewrite Hst in Hi1.
  - assert (m1 = i) as ->.
    { destruct (prefix_comparable _ _ _ _ Hall) as [(z & E & _)|(z & E & _)].
      - subst i. rewrite (run_past _ z _ _ _ _ Hr1 Ht1) in Hri. simplify_eq. by rewrite app_nil_r.
      - subst m1. rewrite (run_past _ z _ _ _ _ Hri Hti) in Hr1. simplify_eq. by rewrite app_nil_r. }
    apply app_inv_head in Hall. destruct (IH ints His Hall) as (ints' & Hi' & E & Hr0). exists ints'. cbn [concat]. rewrite E, app_assoc. done.
Qed.

(** What is being read lies in the final response or in the next interim one. *)
Lemma stream_position f ms cur message body rest d ints : final f message body rest d -> Forall (interim f) ms -> Forall (interim f) ints -> 
  (concat ms ++ cur) `prefix_of` (concat ints ++ message ++ rest) ->
  (concat ms = concat ints /\ cur `prefix_of` (message ++ rest)) \/ exists i z, interim f i /\ (i = cur ++ z \/ cur = i ++ z).
Proof.
  intros Hfin Hms His [more Hpre]. rewrite <-app_assoc in Hpre. destruct (stream_split f ms (cur ++ more) message body rest d ints Hfin Hms His (eq_sym Hpre)) as (ints' & Hi' & E & Hr0).
  destruct Hi' as [|i ints' Hi Hi']; [left; cbn in E, Hr0; rewrite app_nil_r in E; split; [done|by exists more]|]. right. exists i. cbn [concat] in Hr0. rewrite <-app_assoc in Hr0.
  destruct (prefix_comparable _ _ _ _ Hr0) as [(z & -> & _)|(z & -> & _)]; exists z; auto.
Qed.

(** What is handed over comes from the final response. *)
Lemma stream_honest f arr served message body rest d ints : final f message body rest d -> Forall (interim f) ints -> honest f arr served ->
  arr `prefix_of` (concat ints ++ message ++ rest) -> served `prefix_of` body.
Proof.
  intros Hfin His (ms & cur & d' & p & rest' & -> & Hms & Hr) Hpre. destruct (stream_position f ms cur message body rest d ints Hfin Hms His Hpre) as [[_ [more E]]|(i & z & (di & Hri & Hti & _) & E)].
  - assert (exists x y, Response.run (message ++ rest) f = (x, body, y)) as (x & y & Hall).
    { destruct Hfin as [Hrun _ [Ht|[_ ->]]]; [eexists _, _; by apply (run_past _ _ _ _ _ _ Hrun Ht)|]. rewrite app_nil_r. eauto. }
    rewrite E, Response.run_split, Hr in Hall. destruct (Response.run (rest' ++ more) d') as [[d2 p2] r2]. simplify_eq. rewrite <-app_assoc. by apply prefix_app_r.
  - assert (served = []) as ->; [|apply prefix_nil]. destruct E as [->| ->].
    + rewrite Response.run_split, Hr in Hri. destruct (Response.run (rest' ++ z) d') as [[d2 p2] r2]. simplify_eq. by destruct served.
    + rewrite (run_past _ z _ _ _ _ Hri Hti) in Hr. simplify_eq. by destruct served.
Qed.

Lemma settled_status h d d' : Response.settled h d -> Response.settled h d' -> Response.status_ d' = Response.status_ d.
Proof. intros [_ H] [_ H']. rewrite <-H in H'. unfold Response.head_of in H'. congruence. Qed.

(** Once the head of a final response has been read, it is that of the server, and so is what follows. *)
Lemma stream_settled f ms cur message body rest d ints h dd p r : final f message body rest d -> Forall (interim f) ms -> Forall (interim f) ints ->
  (concat ms ++ cur) `prefix_of` (concat ints ++ message ++ rest) -> Response.run cur f = (dd, p, r) -> Response.settled h dd -> is_informational_status (Response.status_ dd) = false ->
  exists more, concat ms = concat ints /\ message ++ rest = cur ++ more /\ Response.head_of d = h /\
    Response.run (r ++ more) dd = (d, drop (length p) body, rest) /\ body = p ++ drop (length p) body.
Proof.
  intros Hfin Hms Hints Hpre Hr Hs Hi. destruct (stream_position f ms cur message body rest d ints Hfin Hms Hints Hpre) as [[Hsame [more E]]|(i & z & (di & Hri & Hti & Hii) & E)].
  - exists more. split; [done|]. split; [done|]. assert (Response.run (message ++ rest) f = (d, body, rest)) as Hall.
    { destruct Hfin as [Hrun _ [Ht|[_ ->]]]; [by apply (run_past _ _ _ _ _ _ Hrun Ht)|]. by rewrite app_nil_r. }
    rewrite E, Response.run_split, Hr in Hall. destruct (Response.run (r ++ more) dd) as [[d2 p2] r2] eqn:E2. simplify_eq.
    split; [by destruct (Response.run_keeps _ _ _ _ _ _ (Response.settled_kept h) Hs E2)|]. rewrite drop_app_length. done.
  - exfalso. destruct E as [->| ->].
    + rewrite Response.run_split, Hr in Hri. destruct (Response.run (r ++ z) dd) as [[d2 p2] r2] eqn:E2. simplify_eq.
      pose proof (Response.run_keeps _ _ _ _ _ _ (Response.settled_kept h) Hs E2) as Hs2. rewrite (settled_status h dd di Hs Hs2) in Hii. congruence.
    + rewrite (run_past _ z _ _ _ _ Hri Hti) in Hr. simplify_eq. congruence.
Qed.

Lemma stream_head f arr given message body rest d ints h x : final f message body rest d -> Forall (interim f) ints -> arr `prefix_of` (concat ints ++ message ++ rest) ->
  engaged f arr given x -> in_body h x -> Response.head_of d = h.
Proof.
  intros Hfin Hints Hpre [(ms & cur & -> & Hms & [_ Hr _ _] & _) _ _ _] [Hs Hi]. destruct (Response.run (window (reader x)) (decoder (reader x))) as [[dd p] r] eqn:E.
  pose proof (Response.run_keeps _ _ _ _ _ _ (Response.settled_kept h) Hs E) as Hs2. rewrite <-(settled_status h _ _ Hs Hs2) in Hi.
  by destruct (stream_settled _ _ _ _ _ _ _ _ h _ _ _ Hfin Hms Hints Hpre Hr Hs2 Hi) as (_ & _ & _ & Hh & _).
Qed.

(** The end of the body that is reported is the end of the response; a body that the end of the stream delimits may have been cut. *)
Lemma stream_complete f arr served message body rest d ints h x : final f message body rest d -> Forall (interim f) ints ->
  arr `prefix_of` (concat ints ++ message ++ rest) -> served_all f arr served x -> in_body h x ->
  Response.head_of d = h /\
  if bool_decide (Response.state_ d = Response.close_body) then reached_eof (reader x) = true /\ (arr = concat ints ++ message -> served = body)
  else served = body /\ arr = concat ints ++ message ++ window (reader x) /\ window (reader x) `prefix_of` rest.
Proof.
  intros Hfin Hints Hpre (ms & cur & -> & Hms & Hfd) [Hs Hi]. destruct Hfd as [(Hr & Ht & _)|(Hw & Heof & d0 & Hr & Hst & Hd0)].
  - destruct (stream_settled _ _ _ _ _ _ _ _ h _ _ _ Hfin Hms Hints Hpre Hr Hs Hi) as (more & Hsame & Hmore & Hh & Hend & Hbody). split; [done|].
    rewrite (Response.run_terminal _ _ _ Ht) in Hend. injection Hend as Hd Hdrop Hrest. rewrite <-Hd, <-Hdrop, app_nil_r in *. rewrite bool_decide_false by (intros E; unfold Response.terminal in Ht; by rewrite E in Ht).
    split; [done|]. rewrite <-Hrest, app_assoc in Hmore. apply app_inv_tail in Hmore as <-. rewrite Hsame. split; [done|]. by exists more.
  - assert (Response.settled h d0) as Hs0 by (rewrite Hd0 in Hs; destruct Hs as [_ Hs]; split; [unfold Response.before_body; by rewrite Hst|done]). rewrite Hd0 in Hi.
    destruct (stream_settled _ _ _ _ _ _ _ _ h _ _ _ Hfin Hms Hints Hpre Hr Hs0 Hi) as (more & Hsame & Hmore & Hh & Hend & Hbody). split; [done|].
    cbn [app] in Hend. rewrite Response.run_close in Hend by done. injection Hend as Hd Hdrop <-. rewrite <-Hd, bool_decide_true by done. split; [done|]. intros E. rewrite Hsame in E. apply app_inv_head in E as ->.
    rewrite app_nil_r in Hmore. assert (more = []) as -> by (destruct more; [done|]; apply (f_equal length) in Hmore; rewrite length_app in Hmore; cbn in Hmore; lia). by rewrite Hbody, <-Hdrop, app_nil_r.
Qed.

(** ** The two ends *)

Lemma handle_spec f h p : forall served w x b taken raised taken' b' x' w', receiving f h (arrived w) (served ++ taken) x b ->
  handle p w x b taken = Done (raised, taken', b', x', w') -> receiving f h (arrived w') (served ++ taken') x' b' /\ grows w w' /\ lease_ x' = lease_ x.
Proof.
  induction p as [| |cap k IH]; intros served w x b taken raised taken' b' x' w' Hb H; cbn [handle] in H; [by simplify_eq..|].
  destruct (read_into cap w x b) as [[[[a b1] x1] w1]| |] eqn:Er; try done. apply (read_into_spec f h (served ++ taken)) in Er as (Hg & Hl & Ha); [|done].
  apply (IH _ served) in H as (Hr & Hg' & Hl'); [split; [done|split; [by etransitivity|congruence]]|]. 
  destruct a as [t c|e|]; destruct Ha as [Ha _]; [by rewrite app_assoc|by rewrite app_nil_r..].
Qed.

(** A new exchange has read nothing. *)
Lemma new_exchange_engaged (buffer max_headers max_header_size : Z) m body defer limit enforced bounded : 0 <= limit <= SIZE_MAX ->
  let f := Response.set_request_method m (Response.set_max_header_size max_header_size (Response.set_max_headers max_headers Response.new_decoder)) in
  let x := new_exchange buffer max_headers max_header_size m body defer limit enforced bounded in engaged f [] [] x /\ opening x.
Proof.
  intros Hl f x. split; [|by left]. constructor; [|cbn; lia|done|done]. exists [], []. split; [done|]. split; [done|]. split; [|done]. constructor; [by intros [?|?]|by cbn|done|cbn; unfold SIZE_MAX; lia].
Qed.

Lemma send_initial_engaged f data o later x e x' arr : engaged f arr [] x -> opening x -> expect_expired_ (channel_ x) = false -> send_initial data o later x = (e, x') ->
  engaged f arr [] x' /\ opening x' /\ lease_ x' = lease_ x.
Proof.
  intros [Hsplit Hsk Hq Hf] Hop He H. unfold send_initial in H.
  assert (forall c, expect_expired_ c = false -> engaged f arr [] (with_channel c x) /\ opening (with_channel c x) /\ lease_ (with_channel c x) = lease_ x) as Hany.
  { intros c Hc. split; [|done]. constructor; try done. unfold expecting. cbn. by rewrite Hc. }
  destruct (write_request_data _ o); [simplify_eq; by apply Hany|]. destruct (_ && _); [|simplify_eq; by apply Hany].
  destruct (send_pending_body later _) as [e1 c1] eqn:E. apply send_pending_body_sends in E as (_ & _ & Ee & _). simplify_eq. apply Hany. by rewrite Ee.
Qed.

Lemma await_head_spec f fuel w x x' w' : engaged f (arrived w) [] x -> opening x -> await_head fuel w x = Done (None, x', w') ->
  engaged f (arrived w') [] x' /\ in_body (Response.head_of (decoder (reader x'))) x' /\ Response.headed (decoder (reader x')) /\ grows w w' /\ lease_ x' = lease_ x.
Proof.
  intros He Hop H. destruct fuel as [|fuel]; [done|]. cbn [await_head] in H. destruct (next w x) as [[[a x1] w1]| |] eqn:En; try done. destruct a as [part|e|]; try done.
  pose proof (next_grows _ _ _ _ _ _ En) as (Hg & _ & Hlease). apply (next_opening f) in En as (Hev & He1 & Hin & Hh); [|done..]. rewrite Hev in H. cbn [is_event] in H. by simplify_eq.
Qed.

(** The body of the exchange: what the handler was given, and the state of the reader at its end. *)
Lemma serve_spec f h p limit w x res taken complete x' w' : engaged f (arrived w) [] x -> in_body h x -> 0 <= limit <= SIZE_MAX -> lease_ x = Held -> serve p limit w x = Done (res, taken, complete, x', w') ->
  grows w w' /\ honest f (arrived w') taken /\ (complete = true -> served_all f (arrived w') taken x' /\ in_body h x') /\ (lease_ x' = Returned -> complete = true /\ reusable x' = true).
Proof.
  intros He Hin Hlim Hl H. unfold serve in H. destruct (handle p w x (new_body_reader limit) []) as [[[[[raised t] b] x1] w1]| |] eqn:Eh; try done.
  apply (handle_spec f h p []) in Eh as ([_ Hw _ Hst] & Hg & Hl1); [|split; [done|done|cbn; lia|by split]]. cbn [app] in Hst. rewrite Hl in Hl1.
  assert (honest f (arrived w1) t) as Hh.
  { destruct (error_ b); [done|]. destruct Hst as [_ Hst]. destruct (complete_ b); [by eapply served_all_honest|]. destruct Hst as [Hst _]. by eapply engaged_honest. }
  assert (complete_ b = true -> served_all f (arrived w1) t x1 /\ in_body h x1) as Hall by (intros Hc; rewrite (Hw Hc), Hc in Hst; by destruct Hst).
  assert (abort x1 = with_lease Retired x1) as Hab by (unfold abort, settle_lease; by rewrite Hl1). rewrite Hab in H.
  destruct raised; [simplify_eq; split_and!; done|]. destruct (error_ b); [simplify_eq; split_and!; done|].
  pose proof (poll_grows w1) as Hp. destruct (poll w1) as [[] w2] eqn:Ep; specialize (Hp _ _ eq_refl); apply arrived_poll in Ep as [Ep _]; rewrite <-Ep in Hh, Hall; assert (grows w w2) by (by etransitivity);
    [simplify_eq; split_and!; done|].
  destruct (complete_ b) eqn:Ec; [|simplify_eq; split_and!; done]. unfold finish in H. pose proof (poll_grows w2) as Hp2. destruct (poll w2) as [c2 w3] eqn:Ep3. specialize (Hp2 _ _ eq_refl). apply arrived_poll in Ep3 as [Ep3 _].
  rewrite <-Ep3 in Hh, Hall. unfold settle_lease in H. rewrite Hl1 in H. simplify_eq. split; [by etransitivity|]. split; [done|]. split; [done|]. cbn.
  destruct c2; cbn [negb andb]; [done|]. change (reusable (with_lease _ x1)) with (reusable x1). by destruct (reusable x1).
Qed.

(** The loops around [next] do not run out of rounds. *)
Lemma await_head_ends f fuel w x : engaged f (arrived w) [] x -> opening x -> await_head (S fuel) w x <> Spent.
Proof.
  intros He Hop. cbn [await_head]. pose proof (next_opening_ends f _ w x He Hop (credit_budget w x)) as Hn. fold (next w x) in Hn. destruct (next w x) as [[[[p|e|] x1] w1]| |] eqn:En; try done.
  apply (next_opening f) in En as (-> & _); done.
Qed.

Lemma read_into_ends f h served cap w x b : receiving f h (arrived w) served x b -> read_into cap w x b <> Spent.
Proof.
  intros [Hidle _ _ Hst]. unfold read_into. rewrite Hidle. destruct (error_ b); [done|]. destruct (complete_ b); [done|]. destruct Hst as (Hin & Heng & _). destruct (poll w) as [[] w0] eqn:Ep; [done|].
  apply arrived_poll in Ep as [Ea _]. rewrite <-Ea in Heng. destruct (cap =? 0); [done|]. unfold budget. replace (_ + 4)%nat with (S (2 * (length (window (reader x)) + to_come w0) + 3)) by lia. cbn [await_fragment].
  destruct (pending_ b) as [|p0 p] eqn:Eb; [|done]. rewrite app_nil_r in Heng. pose proof (next_body_ends f h served _ w0 x Heng Hin (credit_budget w0 x)) as Hn. fold (next w0 x) in Hn.
  destruct (next w0 x) as [[[[part|e|] x1] w1]| |] eqn:En; try done. apply (next_body f h served) in En as (_ & [(-> & Hfr & _)|(-> & _)]); [|done..]. destruct (_ <? _); [done|].
  destruct (2 * _ + 3)%nat; cbn [await_fragment pending_ with_pending_body]; by destruct (fragment part).
Qed.

Lemma handle_ends f h p : forall w x b taken, receiving f h (arrived w) taken x b -> handle p w x b taken <> Spent.
Proof.
  induction p as [| |cap k IH]; intros w x b taken Hb; cbn [handle]; [done..|]. pose proof (read_into_ends f h taken cap w x b Hb) as Hr. destruct (read_into cap w x b) as [[[[a b1] x1] w1]| |] eqn:Er; try done.
  apply (read_into_spec f h taken) in Er as (_ & _ & Ha); [|done]. apply IH. destruct a as [t c|e|]; destruct Ha as [Ha _]; by rewrite ?app_nil_r.
Qed.

Lemma serve_ends f h p limit w x : engaged f (arrived w) [] x -> in_body h x -> 0 <= limit <= SIZE_MAX -> serve p limit w x <> Spent.
Proof.
  intros He Hin Hlim. unfold serve. assert (receiving f h (arrived w) [] x (new_body_reader limit)) as Hb by (split; [done|done|cbn; lia|by split]).
  pose proof (handle_ends f h p w x _ [] Hb) as Hh. destruct (handle _ _ _ _ _) as [[[[[raised t] b] x1] w1]| |]; try done. destruct raised; [done|]. destruct (error_ b); [done|]. destruct (poll w1) as [[] w2]; [done|].
  destruct (complete_ b); [|done]. by destruct (finish w2 x1).
Qed.

(** A response that was sent is a final response for its client. *)
Lemma sent_final order selected m reqv reuse wire head c pieces rest : (forall h, order h ≡ₚ Headers.headers_ h) -> Writer.sent_as order selected m reqv reuse wire head c pieces ->
  (Plan.out_framing c = Plan.close_delimited -> rest = []) ->
  exists d, final (Plan.client m) wire (concat pieces) rest d /\ Plan.received (Plan.status_ head) (Plan.out_version c) (Plan.out_headers c) d /\
    (Response.state_ d = Response.close_body <-> Plan.out_framing c = Plan.close_delimited).
Proof.
  intros Ho [(body & wl & _ & _ & Hd) Hh Hlim Hag Hps ->] Hrest. pose proof (Plan.dc_status _ _ _ _ _ Hd) as Hst.
  destruct (Plan.run_response order head body m c wl pieces [] Ho Hh Hd Hlim Hag ltac:(done)) as (d & Hrun & Hs & Hrec & _). rewrite app_nil_r in Hrun. exists d.
  assert ((if bool_decide (Plan.out_framing c = Plan.none) then [] else concat pieces) = concat pieces) as Eb by (rewrite Hps; by destruct (bool_decide _)). rewrite Eb in Hrun.
  split; [|split; [done|]]; [split; [done| |]|].
  - rewrite (Plan.rc_status _ _ _ _ Hrec). unfold is_informational_status. lia.
  - destruct (bool_decide (Plan.out_framing c = Plan.close_delimited)) eqn:Hcd; [right; apply bool_decide_eq_true in Hcd; auto|left].
    unfold Response.terminal. by rewrite Hs, (Plan.rc_handoff _ _ _ _ Hrec).
  - rewrite Hs. destruct (decide (Plan.out_framing c = Plan.close_delimited)) as [Hcd|Hcd]; [by rewrite bool_decide_true|by rewrite bool_decide_false].
Qed.

(** The heads that two decoders have read are the same. *)
Lemma received_head code version h d d' : Response.head_of d' = Response.head_of d -> Plan.received code version h d -> Plan.received code version h d'.
Proof. unfold Response.head_of. intros E [H1 H2 H3 H4]. split; [congruence..|]. intros name. by replace (Response.headers_ d') with (Response.headers_ d) by congruence. Qed.

(** [C27] The body that an application reads is the body that the server produced.  A server sends a reply, over a transport and with a producer as in [response_delivered], and reports
    success; what the client, whose limits on the header are the default ones (100 lines of 8192 bytes) that the reply respects, receives is the beginning of the interim responses [ints], that reply and whatever follows, in any pieces, with
    any cancellation, timeout, transport error, interrupted read, expiry of the wait for an interim response and concurrent upload of the
    request body.  If the client gets as far as the head of the response, it is the head of the reply, and the bytes that the handler is
    given, by reads into buffers of any sizes, are the first bytes of the body.  If the end of the body is reported, they are the whole body, unless the end of the
    connection is what delimits it and the connection was cut.  The connection is given back for reuse only when nothing but the
    response has been received on it. *)
Theorem body_received order selected m reqv reuse no_memory w res selected' w' wire ints rest buffer body defer limit enforced bounded data o later x1 fuel v0 x2 v1 p max answered taken complete x3 v2 :
  (forall h, order h ≡ₚ Headers.headers_ h) -> Writer.sendable order selected m reqv reuse ->
  Writer.send_response order selected m reqv reuse no_memory w = Some (res, selected', w') -> Writer.success (Writer.sent_result res) = true -> Writer.sent w' = Writer.sent w ++ wire ->
  0 <= limit <= SIZE_MAX -> 0 <= max <= SIZE_MAX ->
  send_initial data o later (new_exchange buffer 100 8192 m body defer limit enforced bounded) = (None, x1) -> arrived v0 = [] ->
  await_head fuel v0 x1 = Done (None, x2, v1) -> serve p max v1 x2 = Done (answered, taken, complete, x3, v2) ->
  Forall (interim (Plan.client m)) ints -> arrived v2 `prefix_of` (concat ints ++ wire ++ rest) ->
  exists head description c, Writer.reply_head selected = Some (head, description) /\ Plan.decide_response head description m reqv reuse = Some c /\
    ((Plan.out_framing c = Plan.close_delimited -> rest = []) ->
     let whole := if bool_decide (Plan.out_framing c = Plan.none) then [] else Writer.reply_body selected in
     Plan.received (Plan.status_ head) (Plan.out_version c) (Plan.out_headers c) (decoder (reader x2)) /\ taken `prefix_of` whole /\
     (complete = true -> Plan.out_framing c <> Plan.close_delimited \/ arrived v2 = concat ints ++ wire -> taken = whole) /\
     (lease_ x3 = Returned -> complete = true /\ arrived v2 = concat ints ++ wire)).
Proof.
  intros Ho Hsend Hres Hok Hwire Hlim Hmax Hinit Hv0 Hawait Hserve Hints Hpre. apply bool_decide_eq_true in Hok.
  destruct (Writer.send_response_sent _ _ _ _ _ _ _ _ _ _ Hsend Hres Hok) as (wire' & head & c & pieces & Hw' & Hsa & _). rewrite Hwire in Hw'. apply app_inv_head in Hw' as <-.
  pose proof (Writer.sa_body _ _ _ _ _ _ _ _ _ Hsa) as (description & _ & Hhead & Hc & _). exists head, description, c. split; [done|]. split; [done|]. intros Hrest whole.
  destruct (sent_final order selected m reqv reuse wire head c pieces rest Ho Hsa Hrest) as (d & Hfin & Hrec & Hclose). pose proof (Writer.sa_pieces _ _ _ _ _ _ _ _ _ Hsa) as Hps. fold whole in Hps. rewrite Hps in Hfin.
  destruct (new_exchange_engaged buffer 100 8192 m body defer limit enforced bounded Hlim) as [He0 Hop0]. change (Response.set_request_method m _) with (Plan.client m) in He0.
  apply (send_initial_engaged (Plan.client m) _ _ _ _ _ _ []) in Hinit as (He1 & Hop1 & Hl1); [|done..].
  apply (await_head_spec (Plan.client m)) in Hawait as (He2 & Hin2 & _ & _ & Hl2); [|by rewrite Hv0|done].
  apply (serve_spec (Plan.client m) (Response.head_of (decoder (reader x2)))) in Hserve as ([more Hg] & Hh & Hall & Hlease); [|done..|by rewrite Hl2, Hl1].
  assert (arrived v1 `prefix_of` (concat ints ++ wire ++ rest)) as Hpre1 by (etransitivity; [|exact Hpre]; rewrite Hg; by apply prefix_app_r).
  pose proof (stream_head _ _ _ _ _ _ _ _ _ _ Hfin Hints Hpre1 He2 Hin2) as Hhd.
  split; [by eapply received_head|]. split; [by eapply stream_honest|]. split.
  - intros Hcomp Hcut. destruct (Hall Hcomp) as [Hserved Hin3]. destruct (stream_complete _ _ _ _ _ _ _ _ _ _ Hfin Hints Hpre Hserved Hin3) as [_ Hend].
    case_bool_decide as Hcd; [|by destruct Hend]. destruct Hend as [_ Hend]. apply Hend. destruct Hcut as [Hne|Harr]; [by destruct Hne; apply Hclose|done].
  - intros Hret. destruct (Hlease Hret) as [Hcomp Hreuse]. split; [done|]. destruct (Hall Hcomp) as [Hserved Hin3]. destruct (stream_complete _ _ _ _ _ _ _ _ _ _ Hfin Hints Hpre Hserved Hin3) as [_ Hend].
    unfold reusable, bytes_remaining in Hreuse. repeat (apply andb_true_iff in Hreuse as [Hreuse ?]). case_bool_decide; [destruct Hend as [Heof _]; by rewrite Heof in *|].
    destruct Hend as (_ & -> & _). assert (window (reader x3) = []) as -> by (apply length_zero_iff_nil; unfold zlen in *; lia). by rewrite app_nil_r.
Qed.

(** ** Progress *)

(** Nothing expires and the watchdog stays quiet. *)
Definition calm (m : moment) : Prop := response_over m = false /\ watchdog m = Quiet.

(** The moments bring [bytes], and then the end of the stream if [eof]; reads may be interrupted, and the wait for an interim response may expire instead of a read. *)
Inductive flow : list moment -> list byte -> bool -> Prop :=
| flow_nil : flow [] [] false
| flow_eof m l : calm m -> expect_over m = false -> reads m = Bytes [] -> flow (m :: l) [] true
| flow_read m l b bytes eof : calm m -> expect_over m = false -> reads m = Bytes b -> b <> [] -> flow l bytes eof -> flow (m :: l) (b ++ bytes) eof
| flow_again m l bytes eof : calm m -> reads m = Failed 4 -> flow l bytes eof -> flow (m :: l) bytes eof.

(** What is still to come for a reader that may have seen the end already. *)
Definition ahead (l : list moment) (bytes : list byte) (eof : bool) (r : response_reader) : Prop :=
  if reached_eof r then bytes = [] /\ eof = true else flow l bytes eof.

(** The bytes hold a whole message. *)
Definition promising (f : Response.response_decoder) (bytes : list byte) (eof : bool) : Prop :=
  let d := (Response.run bytes f).1.1 in
  Response.terminal d = Some Response.Message_complete \/ (eof = true /\ Response.state_ d = Response.close_body /\ Response.handoff_ d = false).

Lemma receive_data_calm m c : calm m -> receive_data m c =
  if body_pending_ c && expect_bounded_ c && expect_over m then (expired, with_expired true (with_expired false c)) else (reads m, with_expired false c).
Proof.
  intros [Ho Hq]. unfold receive_data. rewrite Ho, Hq, andb_false_r. cbn [body_pending_ expect_bounded_ with_expired]. destruct (body_pending_ c && expect_bounded_ c && expect_over m); [done|]. by destruct (negb _ && negb _).
Qed.

(** A decoder that has failed never promises anything. *)
Lemma promising_open f cur given r bytes eof : tracks f cur given r -> promising f (cur ++ bytes) eof -> Response.terminal (decoder r) <> Some Response.Error_event.
Proof.
  intros [_ Hr _ _] Hp He. rewrite (Response.run_terminal _ _ _ He) in Hr. unfold promising in Hp. rewrite Response.run_split, Hr in Hp. rewrite (Response.run_terminal _ _ _ He) in Hp. cbn in Hp.
  destruct Hp as [Hp|(_ & Hp & _)]; [congruence|]. unfold Response.terminal in He. by rewrite Hp in He.
Qed.

(** When all has been read and the decoder needs more, the end of the stream is what completes the message. *)
Lemma promising_end f cur given r eof : tracks f cur given r -> window r = [] -> Response.terminal (decoder r) = None -> promising f cur eof ->
  eof = true /\ Response.state_ (decoder r) = Response.close_body /\ Response.handoff_ (decoder r) = false.
Proof.
  intros [_ Hr _ _] Hw Ht Hp. rewrite Hw, run_nil in Hr. unfold promising in Hp. rewrite Hr in Hp. cbn in Hp. destruct Hp as [Hp|Hp]; [congruence|done].
Qed.

(** What a read leaves: the same bytes arrived or to come, and the environment as calm as before. *)
Record left_calm (eof : bool) (l : list moment) (w : world moment) (c : channel) (r : response_reader) (bytes : list byte) (part : response_read_result) (r' : response_reader) (c' : channel) (w' : world moment) (bytes' : list byte) : Prop := {
  lc_part : read_error part = 0 \/ expecting c' = true;
  lc_bytes : arrived w' ++ bytes' = arrived w ++ bytes;
  lc_ahead : ahead (arrivals w') bytes' eof r';
  lc_polls : Forall (eq false) (polls w');
  lc_uploads : uploads w' = uploads w;
  lc_fallback : fallback_error_ c' = fallback_error_ c;
  lc_pending : body_pending_ c' = body_pending_ c;
  lc_measure : (length (window r') + length bytes' + (match event part with Response.Headers_complete | Response.Body => 1 | _ => 0 end) <= length (window r) + length bytes)%nat;
}.

Lemma left_calm_event eof l w c r bytes e b r' n : ahead l bytes eof r -> Forall (eq false) (polls w) -> e <> Response.Error_event -> reached_eof r' = reached_eof r -> window r' = drop n (window r) ->
  (n <= length (window r))%nat -> (match e with Response.Headers_complete | Response.Body => (0 < n)%nat | _ => True end) ->
  left_calm eof l w c r bytes (Read e b 0) r' c (World (arrived w) l (polls w) (uploads w)) bytes.
Proof.
  intros Hah Hp He Heof Hw Hn Hpos. constructor; cbn; try done; [by left|unfold ahead in *; by rewrite Heof|]. rewrite Hw, length_drop. destruct e; lia.
Qed.

Lemma poll_calm (w : world moment) : Forall (eq false) (polls w) -> exists w', poll w = (false, w') /\ arrived w' = arrived w /\ arrivals w' = arrivals w /\ uploads w' = uploads w /\ Forall (eq false) (polls w').
Proof. intros H. unfold poll. destruct (polls w) as [|b l] eqn:E; [exists w; by rewrite E|]. apply Forall_cons in H as [<- H]. by eexists. Qed.

(** The state after a read that brought [new] of the bytes to come, and what the reads after it leave. *)
Lemma left_calm_trans eof l l1 w w1 c c1 r r1 bytes bytes1 part r' c' w' bytes' : left_calm eof l1 w1 c1 r1 bytes1 part r' c' w' bytes' -> arrived w1 ++ bytes1 = arrived w ++ bytes -> uploads w1 = uploads w ->
  fallback_error_ c1 = fallback_error_ c -> body_pending_ c1 = body_pending_ c -> (length (window r1) + length bytes1 <= length (window r) + length bytes)%nat -> left_calm eof l w c r bytes part r' c' w' bytes'.
Proof. intros [] Hb Hu Hf Hpe Hm. constructor; try done; [congruence..|lia]. Qed.

(** A reader for which a whole message is ahead gets an event, unless the wait for an interim response expires first. *)
Lemma read_with_calm f given eof l : forall w c r cur bytes, tracks f cur given r -> expecting c = false -> ahead l bytes eof r -> Forall (eq false) (polls w) -> promising f (cur ++ bytes) eof ->
  exists part r' c' w' bytes', read_with receive_data l w c r = Some (Ok part, r', c', w') /\ left_calm eof l w c r bytes part r' c' w' bytes'.
Proof.
  induction l as [|m l IH]; intros w c r cur bytes Ht Hq Hah Hp Hpr.
  all: destruct (tracks_decode f cur given r Ht) as (res0 & d & n & E & Hd & Hc & Hwin & Ht1); cbn [read_with]; rewrite E.
  all: set (r1 := advance (Response.consumed res0) d r) in *; pose proof (Response.dc_event _ _ _ _ _ Hd) as Hev; pose proof (Response.dc_payload _ _ _ _ _ Hd) as Hpay; pose proof (Response.dc_count _ _ _ _ _ Hd) as Hn.
  all: pose proof (promising_open _ _ _ _ _ _ Ht1 Hpr) as Hopen.
  all: destruct (Response.event res0) eqn:Ee; try done; try (eexists _, _, _, _, _; split; [reflexivity|]; eapply left_calm_event; [exact Hah|exact Hp|done|done|exact Hwin|exact Hn|first [exact I|exact Hev|apply Hev]]).
  all: clear Hopen; destruct Hev as [Hend Hterm]; rewrite Hend in Hwin; rewrite Hpay, app_nil_r in Ht1 by done.
  all: destruct (poll_calm w Hp) as (w0 & -> & Ha0 & _ & Hu0 & Hp0); change (reached_eof r1) with (reached_eof r); unfold ahead in Hah; destruct (reached_eof r) eqn:Eeof.
  1,3: destruct Hah as [-> ->]; rewrite app_nil_r in Hpr; destruct (promising_end _ _ _ _ _ Ht1 Hwin Hterm Hpr) as (_ & Hcb & Hho);
    destruct (finish_eof_spec (decoder r1) Hterm) as (res1 & d1 & -> & _ & Hf); rewrite bool_decide_true in Hf by done; destruct Hf as [-> Hev1]; rewrite Hho in Hev1; rewrite Hev1;
    eexists _, _, _, _, []; (split; [reflexivity|]); constructor; cbn; try done; [by left|by rewrite Ha0|by unfold ahead; cbn; rewrite Eeof|rewrite length_drop; lia].
  - inversion Hah; subst. rewrite app_nil_r in Hpr. by destruct (promising_end _ _ _ _ _ Ht1 Hwin Hterm Hpr).
  - assert (tracks f cur given (with_window [] r1)) as Ht2 by (pose proof (tracks_arrive f cur given r1 [] Ht1 Hwin) as H2; by rewrite app_nil_r in H2).
    assert (forall b, expecting (with_expired b c) = b && body_pending_ c) as Hexp by done.
    inversion Hah as [|m' l' Hm Ho Hr|m' l' b bs e' Hm Ho Hr Hne Hfl|m' l' bs e' Hm Hr Hfl]; subst; rewrite (receive_data_calm m c Hm).
    + rewrite Ho, andb_false_r, Hr. destruct (IH w0 (with_expired false c) (with_eof (with_window [] r1)) cur []) as (part & r' & c' & w' & bytes' & -> & Hl); [by apply tracks_with_eof|done|done|done|done|].
      exists part, r', c', w', bytes'. split; [done|]. eapply left_calm_trans; [exact Hl|..]; try done; [by rewrite Ha0|cbn; lia].
    + rewrite Ho, andb_false_r, Hr. destruct b as [|b0 b]; [done|].
      destruct (IH (World (arrived w0 ++ b0 :: b) l (polls w0) (uploads w0)) (with_expired false c) (with_window (b0 :: b) (with_window [] r1)) (cur ++ b0 :: b) bs) as (part & r' & c' & w' & bytes' & -> & Hl);
        [by apply (tracks_arrive f cur given (with_window [] r1))|done|by unfold ahead; cbn; rewrite Eeof|done|by rewrite <-app_assoc|].
      exists part, r', c', w', bytes'. split; [done|]. eapply left_calm_trans; [exact Hl|..]; try done; [cbn; by rewrite Ha0, <-app_assoc|cbn; rewrite ?length_app; cbn; lia].
    + rewrite Hr. destruct (body_pending_ c && expect_bounded_ c && expect_over m) eqn:Ew.
      * cbn [Z.eqb expired]. apply andb_true_iff in Ew as [[Hpen _]%andb_true_iff _]. eexists _, _, _, _, bytes. split; [reflexivity|].
        constructor; cbn; try done; [right; unfold expecting; cbn; by rewrite Hpen|by rewrite Ha0|unfold ahead; cbn; by rewrite Eeof|lia].
      * cbn [Z.eqb]. destruct (IH w0 (with_expired false c) (with_window [] r1) cur bytes) as (part & r' & c' & w' & bytes' & -> & Hl); [done|done|by unfold ahead; cbn; rewrite Eeof|done|done|].
        exists part, r', c', w', bytes'. split; [done|]. eapply left_calm_trans; [exact Hl|..]; try done; [by rewrite Ha0|cbn; lia].
Qed.

(** A write of the pending body that succeeds. *)
Definition good (o : write_outcome) : Prop := late o = false /\ throws o = false /\ timed_out o = false /\ 0 < io_result o.

(** Nothing is cancelled or fails from here on. *)
Record serene (eof : bool) (w : world moment) (x : exchange) (bytes : list byte) : Prop := {
  se_ahead : ahead (arrivals w) bytes eof (reader x);
  se_polls : Forall (eq false) (polls w);
  se_fallback : fallback_error_ (channel_ x) = None;
  se_uploads : Forall good (uploads w) /\ (body_pending_ (channel_ x) = true -> uploads w <> []);
}.

Lemma uploading_serene {T} eof w x bytes stop continue (wait : T) : serene eof w x bytes -> exists c w', uploading w x stop continue wait = continue (with_channel c x) w' /\
  body_pending_ c = false /\ arrived w' = arrived w /\ serene eof w' (with_channel c x) bytes.
Proof.
  intros [Ha Hp Hf [Hg Hne]]. unfold uploading. destruct (body_pending_ (channel_ x)) eqn:Ep; cbn [negb].
  - unfold upload. destruct (uploads w) as [|o us]; [by destruct (Hne eq_refl)|]. apply Forall_cons in Hg as [(Hl & Hr & Ht & Hi) Hg]. unfold send_pending_body. rewrite Ep. cbn [negb]. rewrite Hl, andb_false_r.
    unfold write_request_data. rewrite Hr, Ht, andb_false_r, (proj2 (Z.leb_gt _ _)) by done. eexists _, _. split; [reflexivity|]. split; [done|]. split; [done|]. by constructor.
  - exists (channel_ x), w. split; [by destruct x|]. split; [done|]. split; [done|]. constructor; cbn; try done. by rewrite Ep.
Qed.

(** The rounds that are left, for the bytes in the window and to come. *)
Definition rounds (x : exchange) (bytes : list byte) : nat :=
  2 * (length (window (reader x)) + length bytes) + (if Response.before_body (decoder (reader x)) then 0 else 1) + (if body_pending_ (channel_ x) then 1 else 0).

(** One round when nothing fails: the wait expires and the body is uploaded, or there is an event. *)
Lemma next_round_serene f given fuel w x bytes eof ms cur : engaged f (arrived w) given x -> serene eof w x bytes -> arrived w = concat ms ++ cur -> Forall (interim f) ms -> tracks f cur given (reader x) ->
  skipped_informational_bytes x <= zlen (concat ms) -> promising f (cur ++ bytes) eof -> Response.terminal (decoder (reader x)) = None ->
  exists r c w1 bytes1 cur1, arrived w1 ++ bytes1 = arrived w ++ bytes /\ arrived w1 = concat ms ++ cur1 /\
  let x1 := with_reader r (with_channel c x) in
  serene eof w1 x1 bytes1 /\ (length (window r) + length bytes1 <= length (window (reader x)) + length bytes)%nat /\ (body_pending_ c = true -> body_pending_ (channel_ x) = true) /\
  ((body_pending_ (channel_ x) = true /\ body_pending_ c = false /\ next_loop (S fuel) w x = next_loop fuel w1 x1 /\ engaged f (arrived w1) given x1 /\ moves (reader x) None r) \/
   (exists part, next_loop (S fuel) w x = on_event part w1 x1 (fun a x w => Done (a, x, w)) (fun x w => next_loop fuel w x) Waiting /\
      expecting c = false /\ delivers f cur1 given part r /\ moves (reader x) (Some (event part)) r /\ promising f (cur1 ++ bytes1) eof /\
      (length (window r) + length bytes1 + (match event part with Response.Headers_complete | Response.Body => 1 | _ => 0 end) <= length (window (reader x)) + length bytes)%nat)).
Proof.
  intros He [Hah Hp Hfb [Hg Hne]] Ha Hms Ht Hsk Hpr Hopen. pose proof He as [_ Hlim Hq Hf].
  destruct (poll_calm w Hp) as (w0 & Ep & Ea0 & Earr & Eu & Hp0). rewrite <-Earr in Hah.
  destruct (read_with_calm f given eof (arrivals w0) w0 (channel_ x) (reader x) cur bytes Ht Hq Hah Hp0 Hpr) as (part & r & c & w1 & bytes1 & Er & [Hpart Hb Hah1 Hp1 Hu1 Hfb1 Hpen1 Hmeas]).
  pose proof (read_with_spec f given _ _ _ _ cur _ _ _ _ Ht Hq Er) as (Hs & more & Ha1 & Hd). rewrite Ea0, Ha, <-app_assoc in Ha1.
  assert (serene eof w1 (with_reader r (with_channel c x)) bytes1) as Hser by (constructor; cbn; [done|done|congruence|rewrite Hu1, Eu, Hpen1; done]).
  cbn [next_loop]. rewrite Ep, Er, Hfb1, Hfb. destruct (Z.eqb_spec (read_error part) 0) as [E0|E0]; cbn [negb].
  - unfold read_done in Hd. rewrite (proj2 (Z.eqb_eq _ _) E0) in Hd. destruct Hd as (Hq1 & Hdel & Hm). exists r, c, w1, bytes1, (cur ++ more). split; [by rewrite Hb, Ea0|]. split; [done|]. cbn zeta.
    split; [done|]. split; [lia|]. split; [by rewrite Hpen1|]. right. exists part. split_and!; try done. replace ((cur ++ more) ++ bytes1) with (cur ++ bytes); [done|].
    rewrite Ha1, Ea0, Ha in Hb. rewrite <-!app_assoc in *. by apply app_inv_head in Hb.
  - destruct Hpart as [Hpart|Hexp]; [done|]. unfold read_done in Hd. rewrite (proj2 (Z.eqb_neq _ _) E0) in Hd. destruct (Hd Hexp) as [Ht1 Hm]. unfold expecting in Hexp. rewrite Hexp.
    destruct (poll_calm w1 Hp1) as (w2 & -> & Ea2 & Earr2 & Eu2 & Hp2). cbn [negb].
    assert (serene eof w2 (with_reader r (with_channel c x)) bytes1) as Hser2 by (destruct Hser as [K1 K2 K3 K4]; constructor; [by rewrite Earr2|done|done|by rewrite Eu2]).
    destruct (uploading_serene eof w2 (with_reader r (with_channel c x)) bytes1 (fun a x w => Done (a, x, w)) (fun x w => next_loop fuel w x) Waiting Hser2) as (c3 & w3 & -> & Hp3 & Ea3 & Hser3).
    apply andb_true_iff in Hexp as [_ Hpend]. exists r, c3, w3, bytes1, (cur ++ more). rewrite Ea3, Ea2. split; [by rewrite Hb, Ea0|]. split; [done|]. cbn zeta. split; [done|]. split; [lia|]. split; [by rewrite Hp3|]. left.
    split; [by rewrite <-Hpen1|]. split; [done|]. split; [done|]. split; [|done]. rewrite Ha1. apply (engaged_read f ms (cur ++ more) given x r c3); try done. by apply expecting_sent.
Qed.

(** A stream that holds interim responses and a final response to its end. *)
Record course (f : Response.response_decoder) (message body rest : list byte) (d : Response.response_decoder) (ints : list (list byte)) (eof : bool) : Prop := {
  co_final : final f message body rest d;
  co_interims : Forall (interim f) ints;
  co_eof : Response.state_ d = Response.close_body -> eof = true /\ Response.handoff_ d = false;
}.

Section Course.
Context (f : Response.response_decoder) (message body rest : list byte) (d : Response.response_decoder) (ints : list (list byte)) (eof : bool).

Lemma course_promising ms r0 : course f message body rest d ints eof -> Forall (interim f) ms -> concat ms ++ r0 = concat ints ++ message ++ rest -> promising f r0 eof.
Proof.
  intros [Hfin Hints Heof] Hms Hall. destruct (stream_split f ms r0 message body rest d ints Hfin Hms Hints Hall) as (ints' & Hi' & _ & ->). unfold promising. destruct Hi' as [|i ints' (di & Hri & Hti & _) Hi'].
  - cbn [concat app]. destruct Hfin as [Hrun _ [Ht|[Hs ->]]]; [rewrite (run_past _ _ _ _ _ _ Hrun Ht); by left|]. rewrite app_nil_r, Hrun. right. cbn. by destruct (Heof Hs).
  - cbn [concat]. rewrite <-app_assoc, (run_past _ _ _ _ _ _ Hri Hti). by left.
Qed.

Lemma promising_handoff cur given r bytes : tracks f cur given r -> Response.before_body (decoder r) = false -> promising f (cur ++ bytes) eof -> Response.handoff_ (decoder r) = false.
Proof.
  intros [_ Hr _ _] Hb Hp. unfold promising in Hp. rewrite Response.run_split, Hr in Hp. destruct (Response.run (window r) (decoder r)) as [[d1 p1] r1] eqn:E1.
  destruct (Response.run (r1 ++ bytes) d1) as [[d2 p2] r2] eqn:E2. cbn in Hp. pose proof (conj Hb eq_refl : Response.settled (Response.head_of (decoder r)) (decoder r)) as Hs.
  apply (Response.run_keeps _ _ _ _ _ _ (Response.settled_kept _) Hs) in E1. apply (Response.run_keeps _ _ _ _ _ _ (Response.settled_kept _) E1) in E2 as [_ Hh].
  unfold Response.head_of in Hh. assert (Response.handoff_ d2 = Response.handoff_ (decoder r)) as <- by congruence. destruct Hp as [Hp|(_ & _ & Hp)]; [|done].
  unfold Response.terminal in Hp. destruct (Response.state_ d2); try done. by destruct (Response.handoff_ d2).
Qed.

(** The interim response that has been read is one of those that the limit admits. *)
Lemma interim_within (w : world moment) x bytes ms cur : course f message body rest d ints eof -> arrived w = concat ms ++ cur -> Forall (interim f) ms -> tracks f cur [] (reader x) ->
  skipped_informational_bytes x <= zlen (concat ms) -> Response.terminal (decoder (reader x)) = Some Response.Message_complete -> is_informational_status (Response.status_ (decoder (reader x))) = true ->
  arrived w ++ bytes = concat ints ++ message ++ rest -> zlen (concat ints) <= informational_limit x -> message_bytes (reader x) <= informational_limit x - skipped_informational_bytes x.
Proof.
  intros [Hfin Hints _] Ha Hms [_ Hr _ [_ Hmb]] Hsk Hterm Hi Hall Hlim. rewrite (Response.run_terminal _ _ _ Hterm), app_nil_r in Hr.
  apply run_taken in Hr as (msg & -> & Hrun); [|intros E; unfold Response.terminal in Hterm; by rewrite E in Hterm].
  assert (Forall (interim f) (ms ++ [msg])) as Hms2 by (apply Forall_app; split; [done|]; constructor; [by exists (decoder (reader x))|done]).
  destruct (stream_split f (ms ++ [msg]) (window (reader x) ++ bytes) message body rest d ints Hfin Hms2 Hints) as (ints' & _ & Hci & _).
  { rewrite concat_app. cbn [concat]. rewrite app_nil_r, <-Hall, Ha, <-!app_assoc. done. }
  rewrite Hci, concat_app in Hlim. cbn [concat] in Hlim. rewrite app_nil_r, !zlen_app in Hlim. rewrite zlen_app in Hmb. unfold zlen in *. lia.
Qed.

(** The head of a final response is reached. *)
Lemma next_opening_serene fuel : forall w x bytes, course f message body rest d ints eof -> engaged f (arrived w) [] x -> opening x -> serene eof w x bytes -> arrived w ++ bytes = concat ints ++ message ++ rest ->
  zlen (concat ints) <= informational_limit x -> (rounds x bytes < fuel)%nat ->
  exists p x' w' bytes', next_loop fuel w x = Done (Part p, x', w') /\ serene eof w' x' bytes' /\ arrived w' ++ bytes' = concat ints ++ message ++ rest.
Proof.
  induction fuel as [|fuel IH]; intros w x bytes Hco He Hop Hse Hall Hlim Hfuel; [lia|]. pose proof He as [(ms & cur & Ha & Hms & Ht & Hsk) Hl Hq Hf].
  assert (promising f (cur ++ bytes) eof) as Hpr by (apply (course_promising ms); [done|done|by rewrite app_assoc, <-Ha]). destruct Hop as [Hb|[Hi Hterm]].
  2: { destruct (poll_calm w (se_polls _ _ _ _ Hse)) as (w0 & Ep & Ea0 & Earr & Eu & Hp0). pose proof (tr_bytes _ _ _ _ Ht) as [Hmb Hmb2].
    rewrite (next_skip_round fuel w w0 x Ep (se_fallback _ _ _ _ Hse) Hi Hterm Hmb (proj1 Hl) (proj2 Hl)).
    pose proof (interim_within w x bytes ms cur Hco Ha Hms Ht Hsk Hterm Hi Hall Hlim) as Hmsg.
    rewrite (proj2 (Z.ltb_ge _ _)) by done. apply (IH _ _ bytes); try done.
    - cbn [arrived]. rewrite Ea0. by apply skip_engaged.
    - by left.
    - destruct Hse as [K1 K2 K3 K4]. constructor; cbn; [unfold ahead in *; cbn; by rewrite Earr|done|done|by rewrite Eu].
    - cbn [arrived]. by rewrite Ea0.
    - revert Hfuel. unfold rounds. cbn. unfold Response.before_body at 1. unfold Response.terminal in Hterm. destruct (Response.state_ (decoder (reader x))); try done. rewrite drop_0. destruct (body_pending_ (channel_ x)); lia. }
  assert (Response.terminal (decoder (reader x)) = None) as Hopen by (unfold Response.before_body in Hb; unfold Response.terminal; by destruct (Response.state_ (decoder (reader x)))).
  destruct (next_round_serene f [] fuel w x bytes eof ms cur He Hse Ha Hms Ht Hsk Hpr Hopen) as (r & c & w1 & bytes1 & cur1 & Hb1 & Ha1 & Hser & Hmeas & Hpend & [(Hp1 & Hp2 & -> & He1 & Hm)|(part & -> & Hq1 & Hd & Hm & Hpr1 & Hm1)]).
  { apply (IH w1 _ bytes1); [exact Hco|exact He1|left; by apply Hm|exact Hser|by rewrite Hb1|exact Hlim|]. revert Hfuel. unfold rounds. cbn. rewrite Hp1, Hp2, Hb, (proj1 Hm Hb). lia. }
  pose proof (proj1 Hm Hb) as Hev. unfold delivers in Hd. unfold on_event. destruct (event part) eqn:Eev; try done. destruct Hd as [Ht1 Hh]. cbn [reader with_reader].
  pose proof (promising_handoff cur1 [] r bytes1 Ht1 (Response.hd_past _ Hh) Hpr1) as Hho. rewrite (Response.hd_handoff _ Hh) in Hho. apply orb_false_iff in Hho as [H101 Hconn].
  assert (bool_decide (request_method x = CONNECT) = Response.is_method CONNECT (decoder r)) as Emeth.
  { unfold Response.is_method. pose proof (f_equal snd (tr_origin _ _ _ _ Ht1)) as Hom. cbn in Hom. rewrite Hom, Hf. cbn. by apply bool_decide_ext; split; [intros ->|intros [=]]. }
  change (request_method (with_reader r (with_channel c x))) with (request_method x). rewrite Emeth, H101, Hconn. cbn [orb].
  assert (engaged f (arrived w1) [] (with_reader r (with_channel c x))) as He1 by (rewrite Ha1; by apply engaged_read).
  destruct (is_informational_status (Response.status_ (decoder r))) eqn:Ei; cbn [negb].
  2: { eexists _, _, _, bytes1. split; [reflexivity|]. split; [|by rewrite Hb1]. destruct Hser as [K1 K2 K3 [K4 K5]]. by constructor. }
  assert (forall c2, opening (with_reader r (with_channel c2 x))) as Hop1.
  { right. split; [done|]. cbn. unfold Response.terminal, is_informational_status in *. rewrite (Response.hd_interim _ Hh) by lia. rewrite (Response.hd_handoff _ Hh). by rewrite H101, Hconn. }
  assert (forall c2, (body_pending_ c2 = true -> body_pending_ (channel_ x) = true) -> (rounds (with_reader r (with_channel c2 x)) bytes1 < fuel)%nat) as Hr2.
  { intros c2 Hc2. clear -Hfuel Hm1 Hb Hh Hc2. revert Hfuel. unfold rounds. cbn. rewrite Hb, (Response.hd_past _ Hh). destruct (body_pending_ c2); [rewrite Hc2 by done|destruct (body_pending_ (channel_ x))]; lia. }
  destruct (Response.status_ (decoder r) =? 100); [|apply (IH w1 _ bytes1); [exact Hco|exact He1|exact (Hop1 c)|exact Hser|by rewrite Hb1|exact Hlim|by apply Hr2]].
  destruct (uploading_serene eof w1 (with_reader r (with_channel c x)) bytes1 (fun a x w => Done (a, x, w)) (fun x w => next_loop fuel w x) Waiting Hser) as (c3 & w3 & -> & Hp3 & Ea3 & Hser3).
  apply (IH w3 _ bytes1); [exact Hco| |exact (Hop1 c3)|exact Hser3|by rewrite Ea3, Hb1|exact Hlim|apply (Hr2 c3); by rewrite Hp3].
  rewrite Ea3, Ha1. apply (engaged_read f ms cur1 [] x r c3); try done. by apply expecting_sent.
Qed.

Lemma in_body_stays h x r : in_body h x -> Response.settled h (decoder r) -> forall c, in_body h (with_reader r (with_channel c x)).
Proof. intros [Hs Hi] Hr c. split; [done|]. cbn. by rewrite (settled_status h _ _ Hs Hr). Qed.

(** The next part of the body, or its end, is reached. *)
Lemma next_body_serene h given fuel : forall w x bytes, course f message body rest d ints eof -> engaged f (arrived w) given x -> in_body h x -> serene eof w x bytes ->
  arrived w ++ bytes = concat ints ++ message ++ rest -> (rounds x bytes < fuel)%nat ->
  exists p x' w' bytes', next_loop fuel w x = Done (Part p, x', w') /\ serene eof w' x' bytes' /\ arrived w' ++ bytes' = concat ints ++ message ++ rest.
Proof.
  induction fuel as [|fuel IH]; intros w x bytes Hco He Hin Hse Hall Hfuel; [lia|]. pose proof He as [(ms & cur & Ha & Hms & Ht & Hsk) Hl Hq Hf]. pose proof Hin as [Hs Hi].
  assert (promising f (cur ++ bytes) eof) as Hpr by (apply (course_promising ms); [done|done|by rewrite app_assoc, <-Ha]).
  destruct (Response.terminal (decoder (reader x))) as [e|] eqn:Hterm.
  { assert (e = Response.Message_complete) as ->.
    { pose proof (promising_open _ _ _ _ _ _ Ht Hpr) as Hne. pose proof (promising_handoff cur given (reader x) bytes Ht (proj1 Hs) Hpr) as Hho. unfold Response.terminal in *. rewrite Hho in *.
      destruct (Response.state_ (decoder (reader x))); congruence. }
    destruct (poll_calm w (se_polls _ _ _ _ Hse)) as (w0 & Ep & Ea0 & Earr & Eu & Hp0). destruct Hse as [K1 K2 K3 K4].
    cbn [next_loop]. rewrite Ep, (read_with_terminal _ _ _ _ _ _ Hterm), K3. cbn [event_result is_event read_error Z.eqb negb]. unfold on_event. cbn [event reader with_reader decoder with_flags advance]. rewrite Hi. cbn [negb].
    eexists _, _, _, bytes. split; [reflexivity|]. cbn [arrived]. rewrite Ea0. split; [|done]. constructor; cbn; [unfold ahead in *; cbn; by rewrite Earr|done|done|by rewrite Eu]. }
  destruct (next_round_serene f given fuel w x bytes eof ms cur He Hse Ha Hms Ht Hsk Hpr Hterm) as (r & c & w1 & bytes1 & cur1 & Hb1 & Ha1 & Hser & Hmeas & Hpend & [(Hp1 & Hp2 & -> & He1 & Hm)|(part & -> & Hq1 & Hd & Hm & Hpr1 & Hm1)]).
  { destruct (proj2 Hm h Hs) as [Hs1 _]. apply (IH w1 _ bytes1); [exact Hco|exact He1|by apply in_body_stays|exact Hser|by rewrite Hb1|].
    revert Hfuel. unfold rounds. cbn. rewrite Hp1, Hp2, (proj1 Hs), (proj1 Hs1). lia. }
  destruct (proj2 Hm h Hs) as [Hs1 Hne]. destruct (in_body_stays h x r Hin Hs1 c) as [_ Hi1]. unfold delivers in Hd. unfold on_event. cbn [reader with_reader] in *.
  destruct (event part) eqn:Eev; try done.
  - eexists _, _, _, bytes1. split; [reflexivity|]. split; [done|by rewrite Hb1].
  - rewrite Hi1. cbn [negb]. eexists _, _, _, bytes1. split; [reflexivity|]. split; [done|by rewrite Hb1].
  - exfalso. pose proof (promising_handoff cur given (reader x) bytes Ht (proj1 Hs) Hpr) as Hho. destruct Hs as [_ Hh0], Hs1 as [_ Hh1]. rewrite <-Hh0 in Hh1. unfold Response.head_of in Hh1. congruence.
Qed.

Lemma flow_length l bytes e : flow l bytes e -> (length bytes <= list_sum (map (fun m => match reads m with Bytes b => length b | _ => 0%nat end) l))%nat.
Proof.
  induction 1 as [|m l _ _ Hr|m l b bytes e' _ _ Hr _ _ IH|m l bytes e' _ Hr _ IH]; unfold list_sum in *; cbn [map fold_right]; rewrite ?Hr, ?length_app; cbn [length]; lia.
Qed.

Lemma rounds_budget w x bytes : serene eof w x bytes -> (rounds x bytes < budget w x)%nat.
Proof.
  intros [Hah _ _ _]. unfold rounds, budget, to_come, arriving. assert (length bytes <= list_sum (map (fun m => match reads m with Bytes b => length b | _ => 0%nat end) (arrivals w)))%nat.
  { unfold ahead in Hah. destruct (reached_eof (reader x)); [destruct Hah as [-> _]; cbn; lia|by eapply flow_length]. }
  destruct (Response.before_body _), (body_pending_ _); lia.
Qed.

Lemma serene_polled w w' x bytes : serene eof w x bytes -> arrivals w' = arrivals w -> uploads w' = uploads w -> Forall (eq false) (polls w') -> serene eof w' x bytes.
Proof. intros [K1 K2 K3 K4] Ha Hu Hp. constructor; [by rewrite Ha|done|done|by rewrite Hu]. Qed.

(** A read into a buffer gives bytes, or the end of the body. *)
Lemma read_into_serene h served cap w x b bytes : course f message body rest d ints eof -> receiving f h (arrived w) served x b -> error_ b = None -> complete_ b = false -> serene eof w x bytes ->
  arrived w ++ bytes = concat ints ++ message ++ rest -> 0 < cap -> zlen body <= body_limit_ b ->
  exists t c b' x' w' bytes', read_into cap w x b = Done (Progress t c, b', x', w') /\ serene eof w' x' bytes' /\ arrived w' ++ bytes' = concat ints ++ message ++ rest /\
    (c = false -> t <> []) /\ body_limit_ b' = body_limit_ b.
Proof.
  intros Hco Hrv He Hc Hse Hall Hcap Hlim. destruct (poll_calm w (se_polls _ _ _ _ Hse)) as (w0 & Ep & Ea0 & Earr & Eu & Hp0). pose proof (serene_polled w w0 x bytes Hse Earr Eu Hp0) as Hse0.
  rewrite <-Ea0 in Hrv, Hall. destruct Hrv as [Hidle _ Hl Hst]. rewrite He, Hc in Hst. destruct Hst as (Hin & Heng & Hbytes). unfold read_into. rewrite Hidle, He, Hc, Ep, (proj2 (Z.eqb_neq cap 0)) by lia.
  assert (forall b1 x1 w1 bytes1, pending_ b1 <> [] -> serene eof w1 x1 bytes1 -> arrived w1 ++ bytes1 = concat ints ++ message ++ rest -> body_limit_ b1 = body_limit_ b -> exists t c b' x' w' bytes',
    (let count := Z.to_nat (Z.min cap (zlen (pending_ b1))) in
     Done (Progress (take count (pending_ b1)) false, with_pending_body (body_bytes_ b1) (drop count (pending_ b1)) b1, x1, w1)) = Done (Progress t c, b', x', w') /\
    serene eof w' x' bytes' /\ arrived w' ++ bytes' = concat ints ++ message ++ rest /\ (c = false -> t <> []) /\ body_limit_ b' = body_limit_ b) as Hcopy.
  { intros b1 x1 w1 bytes1 Hne H1 H2 H3. eexists _, _, _, _, _, bytes1. split; [reflexivity|]. split_and!; try done. intros _. destruct (pending_ b1) as [|p0 p]; [done|].
    assert (Z.to_nat (Z.min cap (zlen (p0 :: p))) = S (pred (Z.to_nat (Z.min cap (zlen (p0 :: p)))))) as -> by (unfold zlen; cbn [length]; lia). done. }
  pose proof (rounds_budget w0 x bytes Hse0) as Hbud. destruct (budget w0 x) as [|fuel] eqn:Eb; [lia|]. cbn [await_fragment]. destruct (pending_ b) as [|p0 p] eqn:Epend; [|by apply (Hcopy b x w0 bytes); [rewrite Epend|..]].
  rewrite app_nil_r in *. destruct (next_body_serene h served (budget w0 x) w0 x bytes Hco Heng Hin Hse0 Hall) as (part & x1 & w1 & bytes1 & En & Hse1 & Hall1); [by rewrite Eb|].
  unfold next. rewrite En. apply (next_body f h served) in En as (Hin1 & [(Hev & Hfr & Heng1)|(Hev & _)]); [| |done|done]; rewrite Hev.
  - assert ((served ++ fragment part) `prefix_of` body) as Hpre.
    { destruct Hco as [Hfin Hints _]. eapply stream_honest; [exact Hfin|exact Hints| |by exists bytes1]. eapply (engaged_honest f _ _ []). by rewrite app_nil_r. }
    apply prefix_length in Hpre. rewrite length_app in Hpre. unfold SIZE_MAX in Hl. unfold zlen in *. rewrite u64_small by lia. rewrite (proj2 (Z.ltb_ge _ _)) by lia.
    set (b1 := with_pending_body _ (fragment part) b). assert (pending_ b1 <> []) as Hne by done.
    destruct (fragment part) as [|q0 q] eqn:Ef; [done|]. destruct fuel; cbn [await_fragment pending_ b1 with_pending_body]; apply (Hcopy b1 x1 w1 bytes1 Hne Hse1 Hall1 eq_refl).
  - eexists _, _, _, _, _, bytes1. split; [reflexivity|]. split_and!; done.
Qed.

(** A handler that reads until the end of the body, into buffers of the given sizes. *)
Fixpoint reading (capacities : list Z) : handler :=
  match capacities with
  | [] => Return
  | capacity :: capacities => Ask capacity (fun a => match a with Progress _ false => reading capacities | _ => Return end)
  end.

(** It gets the whole body when it has a buffer more than the body has bytes. *)
Lemma handle_serene h capacities : forall w x b taken bytes, course f message body rest d ints eof -> receiving f h (arrived w) taken x b -> error_ b = None -> complete_ b = false -> serene eof w x bytes ->
  arrived w ++ bytes = concat ints ++ message ++ rest -> Forall (fun c => 0 < c) capacities -> zlen body <= body_limit_ b -> (length body - length taken < length capacities)%nat ->
  exists b' x' w' bytes', handle (reading capacities) w x b taken = Done (false, body, b', x', w') /\ complete_ b' = true /\ error_ b' = None /\ serene eof w' x' bytes'.
Proof.
  induction capacities as [|cap caps IH]; intros w x b taken bytes Hco Hrv He Hc Hse Hall Hcaps Hlim Hlen; [cbn in Hlen; lia|]. apply Forall_cons in Hcaps as [Hcap Hcaps].
  destruct (read_into_serene h taken cap w x b bytes Hco Hrv He Hc Hse Hall Hcap Hlim) as (t & c & b1 & x1 & w1 & bytes1 & Er & Hse1 & Hall1 & Ht & Hl1). cbn [reading handle]. rewrite Er.
  apply (read_into_spec f h taken) in Er as (_ & _ & Hrv1 & He1 & Hc1); [|done]. pose proof Hco as [Hfin Hints Heof].
  assert (arrived w1 `prefix_of` (concat ints ++ message ++ rest)) as Hpre by (by exists bytes1). destruct c.
  - eexists b1, x1, w1, bytes1. split; [|done]. cbn [handle]. assert (taken ++ t = body) as ->; [|done].
    destruct Hrv1 as [_ _ _ Hst]. rewrite He1, Hc1 in Hst. destruct Hst as [Hin1 Hserved]. destruct (stream_complete _ _ _ _ _ _ _ _ _ _ Hfin Hints Hpre Hserved Hin1) as [_ Hend].
    case_bool_decide as Hcb; [|apply Hend]. destruct Hend as [Hreof Hend]. apply Hend. destruct Hse1 as [Hah _ _ _]. unfold ahead in Hah. rewrite Hreof in Hah. destruct Hah as [-> _].
    rewrite app_nil_r in Hall1. rewrite Hall1. destruct Hfin as [_ _ [Ht0|[_ ->]]]; [unfold Response.terminal in Ht0; by rewrite Hcb in Ht0|by rewrite app_nil_r].
  - apply (IH w1 x1 b1 (taken ++ t) bytes1); try done; [by rewrite Hl1|]. rewrite length_app. destruct t as [|t0 t]; [by destruct (Ht eq_refl)|]. cbn [length] in *.
    assert ((taken ++ t0 :: t) `prefix_of` body) as Hp.
    { eapply stream_honest; [exact Hfin|exact Hints| |exact Hpre]. destruct Hrv1 as [_ _ _ Hst]. rewrite He1, Hc1 in Hst. destruct Hst as (_ & Heng & _). by eapply engaged_honest. }
    apply prefix_length in Hp. rewrite length_app in Hp. cbn [length] in Hp. lia.
Qed.

End Course.

(** A body that is sent arrives.  When the whole of a reply that was reported as sent reaches the client, after any interim responses, in any pieces and with any interrupted reads, when the wait for an interim response may
    expire, and nothing is cancelled or fails, the client gets the head of the response, and a handler that reads into one buffer more than the body has bytes,
    of any positive sizes, ends with the complete body. *)
Theorem body_completed order selected m reqv reuse no_memory w res selected' w' head description c wire ints rest buffer body defer limit enforced bounded data o later fuel v0 max capacities eof :
  (forall h, order h ≡ₚ Headers.headers_ h) -> Writer.sendable order selected m reqv reuse ->
  Writer.send_response order selected m reqv reuse no_memory w = Some (res, selected', w') -> Writer.success (Writer.sent_result res) = true -> Writer.sent w' = Writer.sent w ++ wire ->
  Writer.reply_head selected = Some (head, description) -> Plan.decide_response head description m reqv reuse = Some c ->
  zlen (concat ints) <= limit <= SIZE_MAX -> zlen (Writer.reply_body selected) <= max <= SIZE_MAX ->
  Forall (interim (Plan.client m)) ints -> arrived v0 = [] -> flow (arrivals v0) (concat ints ++ wire ++ rest) eof -> (Plan.out_framing c = Plan.close_delimited -> eof = true /\ rest = []) ->
  Forall (eq false) (polls v0) -> good o -> good later -> Forall good (uploads v0) -> uploads v0 <> [] ->
  Forall (fun capacity => 0 < capacity) capacities -> (length (Writer.reply_body selected) < length capacities)%nat ->
  exists x1 x2 v1 x3 v2, send_initial data o later (new_exchange buffer 100 8192 m body defer limit enforced bounded) = (None, x1) /\ await_head (S fuel) v0 x1 = Done (None, x2, v1) /\
    serve (reading capacities) max v1 x2 = Done (Completed, if bool_decide (Plan.out_framing c = Plan.none) then [] else Writer.reply_body selected, true, x3, v2).
Proof.
  intros Ho Hsend Hres Hok Hwire Hhead Hc Hlim Hmax Hints Hv0 Hflow Hcd Hpolls Hgo Hgl Hgu Hun Hcaps Hlen. apply bool_decide_eq_true in Hok.
  destruct (Writer.send_response_sent _ _ _ _ _ _ _ _ _ _ Hsend Hres Hok) as (wire' & head' & c' & pieces & Hw' & Hsa & _). rewrite Hwire in Hw'. apply app_inv_head in Hw' as <-.
  pose proof (Writer.sa_body _ _ _ _ _ _ _ _ _ Hsa) as (description' & _ & Hhead' & Hc' & _). rewrite Hhead in Hhead'. injection Hhead' as <- <-. rewrite Hc in Hc'. injection Hc' as <-.
  destruct (sent_final order selected m reqv reuse wire head c pieces rest Ho Hsa) as (d & Hfin & Hrec & Hclose); [intros Hf; by destruct (Hcd Hf)|].
  pose proof (Writer.sa_pieces _ _ _ _ _ _ _ _ _ Hsa) as Hps. set (whole := if bool_decide (Plan.out_framing c = Plan.none) then [] else Writer.reply_body selected) in *. rewrite Hps in Hfin.
  assert (length whole <= length (Writer.reply_body selected))%nat as Hwl by (unfold whole; destruct (bool_decide _); cbn; lia).
  assert (course (Plan.client m) wire whole rest d ints eof) as Hco by (split; [done|done|]; intros Hs; split; [by apply Hcd, Hclose|apply Hrec]).
  assert (0 <= limit <= SIZE_MAX) as Hlim' by (unfold zlen in *; lia).
  destruct (new_exchange_engaged buffer 100 8192 m body defer limit enforced bounded Hlim') as [He0 Hop0]. change (Response.set_request_method m _) with (Plan.client m) in He0.
  destruct (send_initial data o later (new_exchange buffer 100 8192 m body defer limit enforced bounded)) as [e x1] eqn:Ei.
  assert (e = None /\ reader x1 = reader (new_exchange buffer 100 8192 m body defer limit enforced bounded) /\ informational_limit x1 = limit /\ fallback_error_ (channel_ x1) = None) as (-> & Hr1 & Hl1 & Hf1).
  { revert Ei. unfold send_initial, write_request_data. destruct Hgo as (_ & Hr & Ht & Hi), Hgl as (Hll & Hlr & Hlt & Hli). rewrite Hr, Ht, andb_false_r, (proj2 (Z.leb_gt _ _)) by done. destruct (_ && _); [|intros [= <- <-]; done].
    unfold send_pending_body. rewrite Hll, andb_false_r. unfold write_request_data. rewrite Hlr, Hlt, andb_false_r, (proj2 (Z.leb_gt _ _)) by done. destruct (negb _); intros [= <- <-]; done. }
  apply (send_initial_engaged (Plan.client m) _ _ _ _ _ _ []) in Ei as HX; [|done..]. destruct HX as (He1 & Hop1 & Hle1).
  assert (serene eof v0 x1 (concat ints ++ wire ++ rest)) as Hse by (constructor; [unfold ahead; by rewrite Hr1|done|done|done]).
  destruct (next_opening_serene _ _ _ _ _ _ _ (budget v0 x1) v0 x1 (concat ints ++ wire ++ rest) Hco) as (p & x2 & v1 & bytes1 & En & Hse1 & Hall1); [by rewrite Hv0|done|exact Hse|by rewrite Hv0|rewrite Hl1; lia|by eapply rounds_budget|].
  exists x1, x2, v1. pose proof (next_grows _ _ _ _ _ _ En) as (_ & _ & Hle2).
  assert (await_head (S fuel) v0 x1 = Done (None, x2, v1) /\ engaged (Plan.client m) (arrived v1) [] x2 /\ in_body (Response.head_of (decoder (reader x2))) x2) as (-> & He2 & Hin2).
  { cbn [await_head]. unfold next. rewrite En. apply (next_opening (Plan.client m)) in En as (Hev & He2 & Hin2 & _); [|by rewrite Hv0|done]. by rewrite Hev. }
  destruct (handle_serene _ _ _ _ _ _ _ (Response.head_of (decoder (reader x2))) capacities v1 x2 (new_body_reader max) [] bytes1 Hco) as (b & x3 & v2 & bytes2 & Eh & Hcomp & Herr & Hse2); try done.
  { split; [done|done|cbn; unfold zlen in *; lia|by split]. }
  { cbn. unfold zlen in *. lia. }
  { cbn [length]. lia. }
  unfold serve. rewrite Eh, Herr. destruct (poll_calm v2 (se_polls _ _ _ _ Hse2)) as (v3 & -> & _ & _ & _ & _). rewrite Hcomp. destruct (finish v3 x3) as [x4 v4]. by exists x4, v4.
Qed.

(** ** An exchange *)

Definition piece (b : list byte) : moment := Moment false false false Quiet (Bytes b).

Lemma flow_pieces pieces : Forall (fun b => b <> []) pieces -> flow (map piece pieces) (concat pieces) false.
Proof. induction 1 as [|b pieces Hb _ IH]; [apply flow_nil|]. by apply (flow_read (piece b)). Qed.

(** The reply of [HttpWriter], behind an interim response, read five bytes at a time; the request has a body that waits for that interim response. *)
Definition hello_end : Writer.world := Eval vm_compute in
  match Writer.send_response Headers.headers_ Writer.hello_reply GET (str "HTTP/1.1") true false Writer.seven_world with Some (_, _, w) => w | None => Writer.seven_world end.
Definition hello_wire : list byte := Eval vm_compute in Writer.sent hello_end.
Definition go_ahead : list byte := str "HTTP/1.1 100 Continue" ++ crlf ++ crlf.
Definition hello_pieces : list (list byte) := Eval vm_compute in reshape (replicate (length (go_ahead ++ hello_wire) / 5) 5%nat ++ [5%nat]) (go_ahead ++ hello_wire).
Definition sent_well : write_outcome := Outcome false false false 1 false.
Definition hello_arrivals : world moment := World [] (map piece hello_pieces) [] [sent_well].
Definition hello_exchange : exchange := new_exchange 8192 100 8192 GET (str "body") true 1000 true true.

Lemma go_ahead_interim : interim (Plan.client GET) go_ahead.
Proof. eexists. vm_compute. done. Qed.

Lemma body_received_witness : exists x1 x2 v1 answered taken x3 v2, send_initial (str "GET") sent_well sent_well hello_exchange = (None, x1) /\ await_head 1 hello_arrivals x1 = Done (None, x2, v1) /\
  serve (reading [4; 4; 4; 4; 4; 4]) 100 v1 x2 = Done (answered, taken, true, x3, v2) /\ lease_ x3 = Returned /\ taken = str "hello world".
Proof.
  destruct (Writer.send_response Headers.headers_ Writer.hello_reply GET (str "HTTP/1.1") true false Writer.seven_world) as [[[res selected'] w']|] eqn:E; [|vm_compute in E; discriminate E].
  assert (Writer.success (Writer.sent_result res) = true /\ Writer.sent w' = hello_wire) as [Hok Hw] by (vm_compute in E; injection E as <- _ <-; split; reflexivity).
  destruct (send_initial (str "GET") sent_well sent_well hello_exchange) as [e x1] eqn:Ei. assert (e = None) as -> by (vm_compute in Ei; injection Ei as <- _; reflexivity). exists x1.
  destruct (await_head 1 hello_arrivals x1) as [[[r x2] v1]| |] eqn:Ea; [|vm_compute in Ei; injection Ei as <-; vm_compute in Ea; discriminate Ea..].
  assert (r = None) as -> by (vm_compute in Ei; injection Ei as <-; vm_compute in Ea; injection Ea as <- _ _; reflexivity). exists x2, v1.
  assert (exists answered taken x3 v2, serve (reading [4; 4; 4; 4; 4; 4]) 100 v1 x2 = Done (answered, taken, true, x3, v2) /\ lease_ x3 = Returned /\ arrived v2 = go_ahead ++ hello_wire) as (answered & taken & x3 & v2 & Es & Hl & Hv).
  { vm_compute in Ei. injection Ei as <-. vm_compute in Ea. injection Ea as <- <-. eexists _, _, _, _. split; [vm_compute; reflexivity|]. split; vm_compute; reflexivity. }
  exists answered, taken, x3, v2. split; [reflexivity|]. split; [reflexivity|]. split; [exact Es|]. split; [exact Hl|].
  destruct (body_received Headers.headers_ Writer.hello_reply GET (str "HTTP/1.1") true false Writer.seven_world res selected' w' hello_wire [go_ahead] [] 8192 (str "body") true 1000 true true (str "GET")
    sent_well sent_well x1 1 hello_arrivals x2 v1 (reading [4; 4; 4; 4; 4; 4]) 100 answered taken true x3 v2) as (head & description & c & Hh & Hc & Hall).
  - reflexivity.
  - exact Writer.hello_sendable.
  - exact E.
  - exact Hok.
  - exact Hw.
  - split; vm_compute; discriminate.
  - split; vm_compute; discriminate.
  - exact Ei.
  - reflexivity.
  - exact Ea.
  - exact Es.
  - constructor; [exact go_ahead_interim|constructor].
  - rewrite Hv. cbn [concat]. rewrite !app_nil_r. reflexivity.
  - cbn [Writer.reply_head Writer.hello_reply Writer.streaming_head Writer.body_length Writer.streaming_transfer] in Hh. injection Hh as <- <-.
    change (Plan.decide_response _ _ _ _ _) with (Some Plan.page_decision) in Hc. injection Hc as <-. destruct Hall as (_ & _ & Hall & _); [discriminate|]. apply Hall; [reflexivity|left; discriminate].
Defined.

Lemma body_completed_witness : exists x1 x2 v1 x3 v2, send_initial (str "GET") sent_well sent_well hello_exchange = (None, x1) /\ await_head 1 hello_arrivals x1 = Done (None, x2, v1) /\
  serve (reading (repeat 3 12)) 100 v1 x2 = Done (Completed, str "hello world", true, x3, v2).
Proof.
  destruct (Writer.send_response Headers.headers_ Writer.hello_reply GET (str "HTTP/1.1") true false Writer.seven_world) as [[[res selected'] w']|] eqn:E; [|vm_compute in E; discriminate E].
  assert (Writer.success (Writer.sent_result res) = true /\ Writer.sent w' = hello_wire) as [Hok Hw] by (vm_compute in E; injection E as <- _ <-; split; reflexivity).
  apply (body_completed Headers.headers_ Writer.hello_reply GET (str "HTTP/1.1") true false Writer.seven_world res selected' w' Plan.page (Plan.BodyDescription Plan.streaming None Plan.automatic) Plan.page_decision
    hello_wire [go_ahead] [] 8192 (str "body") true 1000 true true (str "GET") sent_well sent_well 0 hello_arrivals 100 (repeat 3 12) false).
  - reflexivity.
  - exact Writer.hello_sendable.
  - exact E.
  - exact Hok.
  - exact Hw.
  - reflexivity.
  - reflexivity.
  - split; vm_compute; discriminate.
  - split; vm_compute; discriminate.
  - constructor; [exact go_ahead_interim|constructor].
  - reflexivity.
  - replace (concat [go_ahead] ++ hello_wire ++ []) with (concat hello_pieces) by (vm_compute; reflexivity). apply flow_pieces. repeat constructor; discriminate.
  - discriminate.
  - constructor.
  - split; [reflexivity|split; [reflexivity|split; reflexivity]].
  - split; [reflexivity|split; [reflexivity|split; reflexivity]].
  - constructor; [split; [reflexivity|split; [reflexivity|split; reflexivity]]|constructor].
  - discriminate.
  - repeat constructor.
  - vm_compute. repeat constructor.
Defined.

End Reader.
