(* ===== verification/HttpRoute.v ===== *)
(** * Routes, proxies and the request on the wire

    Models [proxy_profile.hpp], [route_plan.hpp] and [request_wire.hpp] of [src/include/elio/http/detail/]: the identity of a
    connection in the pool, the policy for the hosts that are sent to a proxy, the frozen profile of a proxy, and the request line and header fields
    that are written for each kind of route.  [inet_pton], [inet_ntop] and [EVP_EncodeBlock] are library functions, and parameters.

    The credentials of a proxy go to that proxy only, and a caller cannot supply others ([credentials_confined]); a host name that is decoded for name resolution
    or for the verification of a certificate holds no delimiter and no second encoding ([decoded_host_plain]). *)

From Stdlib Require Import Strings.Byte Strings.String ZifyBool.
From S2P Require Import Prelude Str HttpCommon HttpHeaders HttpRequest HttpUrl HttpMessage.

Module Route.
Import Http.

#[local] Arguments str : simpl never.

Inductive route_error :=
| Domain_exhausted | No_snapshot
| Encoded_hostname | Unsupported_octet | Origin_tls_name
| Credentials_bound | Invalid_credentials | Encoding_failed
| Endpoint_uri | Endpoint_authority | Proxy_tls_name
| Target_authority | Caller_connect | Forward_route | Origin_form
| Bad_message (e : Message.message_error).

(** ** Identities *)

(** [next] is the shared counter; the loop of [compare_exchange_weak] takes one value of it. *)
Definition new_route_domain (next : Z) : result route_error (Z * Z) :=
  if next =? SIZE_MAX then Throw Domain_exhausted else Ok (next, next + 1).

Record route_endpoint := Endpoint { host : list byte; port : Z }.

Definition authority (e : route_endpoint) : list byte :=
  (match find ":" (host e) with None => host e | Some _ => str "[" ++ host e ++ str "]" end) ++ str ":" ++ to_string (port e).

Inductive route_mode := direct | forward_proxy | connect_tunnel.
Inductive route_dns_mode := local | proxy_dns.
Inductive route_protocol := http1 | http2.

#[global] Instance route_endpoint_eq_dec : EqDecision route_endpoint.
Proof. solve_decision. Defined.
#[global] Instance route_mode_eq_dec : EqDecision route_mode.
Proof. solve_decision. Defined.
#[global] Instance route_dns_mode_eq_dec : EqDecision route_dns_mode.
Proof. solve_decision. Defined.
#[global] Instance route_protocol_eq_dec : EqDecision route_protocol.
Proof. solve_decision. Defined.

Record route_hop_identity := HopIdentity {
  hop_endpoint : route_endpoint;
  tls_domain : Z;
  hop_auth_domain : Z;
  hop_protocol : route_protocol;
  dns : route_dns_mode
}.
#[global] Instance route_hop_identity_eq_dec : EqDecision route_hop_identity.
Proof. solve_decision. Defined.

Record connection_key := ConnectionKey {
  mode : route_mode;
  target : route_endpoint;
  target_secure : bool;
  hops : list route_hop_identity;
  connector_domain : Z;
  resolution_domain : Z;
  origin_tls_domain : Z;
  protocol : route_protocol;
  target_dns : route_dns_mode
}.
#[global] Instance connection_key_eq_dec : EqDecision connection_key.
Proof. solve_decision. Defined.

Record proxy_connect_limits := ConnectLimits {
  max_headers : Z;
  max_header_size : Z;
  max_response_bytes : Z;
  max_informational_responses : Z;
  max_read_ahead : Z
}.

Record proxy_basic_credentials := Credentials { username : list byte; password : list byte }.

Record http_proxy_config := ProxyConfig {
  endpoint_uri : list byte;
  basic_auth : option proxy_basic_credentials;
  connect_limits : proxy_connect_limits
}.

Record proxy_profile := ProxyProfile {
  endpoint : route_endpoint;
  secure : bool;
  auth_domain : Z;
  authorization : list byte;
  limits : proxy_connect_limits
}.

(** The part of a snapshot that decides on the route. *)
Record route_snapshot := Snapshot {
  snapshot_mode : route_mode;
  snapshot_hops : list route_hop_identity;
  snapshot_connector_domain : Z;
  snapshot_resolution_domain : Z;
  snapshot_origin_tls_domain : Z;
  snapshot_protocol : route_protocol;
  snapshot_target_dns : route_dns_mode;
  proxy : option proxy_profile
}.

Record route_plan := Plan { snapshot : route_snapshot; key : connection_key; wire_target : route_endpoint }.

Section Addresses.
Context (pton6 pton4 ntop6 ntop4 : list byte -> option (list byte)).

(** ** Hosts *)

Definition normalize_route_host (h : list byte) : list byte :=
  let zone := find "%" h in
  let address := match zone with Some i => take i h | None => h end in
  match pton6 (c_string address) ≫= ntop6 with
  | Some buffer => buffer ++ match zone with Some i => drop i h | None => [] end
  | None => match pton4 (c_string h) ≫= ntop4 with Some buffer => buffer | None => lowercase h end
  end.

Definition endpoint_from (h : list byte) (p : Z) : route_endpoint := Endpoint (normalize_route_host h) p.

Definition valid_proxy_host (h : list byte) : bool :=
  if negb (is_valid_url_input h) then false
  else
    match find ":" h with
    | Some _ => if (INET6_ADDRSTRLEN <=? length h)%nat then false else bool_decide (is_Some (pton6 (c_string h)))
    | None => valid_reg_name h
    end.

Definition valid_proxy_uri_authority (source : list byte) (parsed : Url.url) : bool :=
  if negb (valid_proxy_host (Url.host parsed)) then false
  else
    let source := match find_sub (str "://") source with
                  | Some i => drop (i + 3) source
                  | None => if starts_with (str "//") source then drop 2 source else source
                  end in
    let source := (span (fun c => negb (existsb (Byte.eqb c) (str "/?#"))) source).1 in
    let source := match find "@" source with Some i => drop (i + 1) source | None => source end in
    negb (front_is "[" source) || bool_decide (is_Some (find ":" (Url.host parsed))).

Definition proxy_unreserved_octet (hex : list byte) : option byte :=
  if negb (length hex =? 2)%nat then None
  else
    match from_chars 16 0xFFFFFFFF hex with
    | Some (octet, []) =>
        let c := z2b octet in
        if is_lower c || is_upper c || is_digit c || existsb (Byte.eqb c) (str "-._~") then Some c else None
    | _ => None
    end.

(** The loop over a reference name; [first] is [pos == 0]. *)
Fixpoint tls_reference_loop (first : bool) (h : list byte) : bool :=
  match h with
  | [] => true
  | c :: rest =>
      if negb (Byte.eqb c "%") then tls_reference_loop false rest
      else
        match rest with
        | a :: b :: rest =>
            match proxy_unreserved_octet [a; b] with
            | None => false
            | Some octet => if first && Byte.eqb octet "." then false else tls_reference_loop false rest
            end
        | _ => false
        end
  end.

Definition valid_proxy_tls_reference (h : list byte) : bool :=
  if negb (valid_proxy_host h) || streq h [] || front_is "." h then false else tls_reference_loop true h.

Fixpoint decoded_proxy_host (h : list byte) : result route_error (list byte) :=
  match h with
  | [] => Ok []
  | c :: rest =>
      if negb (Byte.eqb c "%") then let? decoded := decoded_proxy_host rest in Ok (c :: decoded)
      else
        match rest with
        | a :: b :: rest =>
            match proxy_unreserved_octet [a; b] with
            | None => Throw Unsupported_octet
            | Some octet => let? decoded := decoded_proxy_host rest in Ok (octet :: decoded)
            end
        | _ => Throw Encoded_hostname
        end
  end.

Definition proxy_origin_tls_name (h : list byte) : result route_error (list byte) :=
  if negb (valid_proxy_tls_reference h) then Throw Origin_tls_name
  else let? name := decoded_proxy_host h in Ok (normalize_route_host name).

(** ** The profile of a proxy *)

Context (EVP_EncodeBlock : list byte -> option (list byte)).

Definition has_control (value : list byte) : bool := existsb (fun c => (b2z c <? 0x20) || (b2z c =? 0x7F)) value.

Definition max_credentials_bytes : Z := 4096.

Definition proxy_basic_authorization (c : proxy_basic_credentials) : result route_error (list byte) :=
  if (max_credentials_bytes <=? zlen (username c)) || (max_credentials_bytes - zlen (username c) - 1 <? zlen (password c)) then Throw Credentials_bound
  else if bool_decide (is_Some (find ":" (username c))) || has_control (username c) || has_control (password c) then Throw Invalid_credentials
  else
    match EVP_EncodeBlock (username c ++ str ":" ++ password c) with
    | None => Throw Encoding_failed
    | Some encoded => Ok (str "Basic " ++ encoded)
    end.

(** The profile and the counter of the domains. *)
Definition freeze_proxy_profile (config : http_proxy_config) (next : Z) : result route_error (proxy_profile * Z) :=
  let uri := endpoint_uri config in
  if (8192 <? zlen uri) || bool_decide (find_sub (str "://") uri = None) || existsb (fun c => existsb (Byte.eqb c) (str "@?#")) uri then Throw Endpoint_uri
  else
    match Url.parse uri with
    | None => Throw Endpoint_authority
    | Some parsed =>
        if negb (streq (Url.scheme parsed) (str "http")) && negb (streq (Url.scheme parsed) (str "https")) || negb (streq (Url.userinfo parsed) []) ||
           negb (streq (Url.path parsed) (str "/")) || negb (streq (Url.query parsed) []) || negb (streq (Url.fragment parsed) []) ||
           negb (valid_proxy_uri_authority uri parsed) then Throw Endpoint_authority
        else if Url.is_secure parsed && negb (valid_proxy_tls_reference (Url.host parsed)) then Throw Proxy_tls_name
        else
          let? name := decoded_proxy_host (Url.host parsed) in
          let e := endpoint_from name (Url.effective_port parsed) in
          match basic_auth config with
          | None => Ok (ProxyProfile e (Url.is_secure parsed) 0 [] (connect_limits config), next)
          | Some c =>
              let? text := proxy_basic_authorization c in
              let? (domain, next) := new_route_domain next in
              Ok (ProxyProfile e (Url.is_secure parsed) domain text (connect_limits config), next)
          end
    end.

(** ** Plans *)

Definition normalize_hop (i : route_hop_identity) : route_hop_identity :=
  HopIdentity (Endpoint (normalize_route_host (host (hop_endpoint i))) (port (hop_endpoint i))) (tls_domain i) (hop_auth_domain i) (hop_protocol i) (dns i).

Definition plan_mode (u : Url.url) (s : route_snapshot) : route_mode :=
  match proxy s with
  | Some _ => if Url.is_secure u then connect_tunnel else forward_proxy
  | None => snapshot_mode s
  end.

Definition make_plan (u : Url.url) (s : option route_snapshot) : result route_error route_plan :=
  match s with
  | None => Throw No_snapshot
  | Some s =>
      Ok (Plan s
        (ConnectionKey (plan_mode u s) (endpoint_from (Url.host u) (Url.effective_port u)) (Url.is_secure u) (map normalize_hop (snapshot_hops s))
          (snapshot_connector_domain s) (snapshot_resolution_domain s) (if Url.is_secure u then snapshot_origin_tls_domain s else 0)
          (snapshot_protocol s) (snapshot_target_dns s))
        (Endpoint (Url.host u) (Url.effective_port u)))
  end.

(** ** The request on the wire *)

Context (order : Headers.headers -> list (list byte * list byte)).

Definition valid_authority (u : Url.url) : bool :=
  valid_proxy_host (Url.host u) && (negb (Url.is_secure u) || valid_proxy_tls_reference (Url.host u)).

Definition set_field (name value : list byte) (fields : Headers.headers) : result route_error Headers.headers :=
  match Headers.set name value fields with Ok fields => Ok fields | Throw e => Throw (Bad_message (Message.Header e)) end.

Definition server_options (r : Message.request) : bool :=
  streq (Message.path_ r) (str "*") && bool_decide (Message.method_ r = OPTIONS) && streq (Message.query_ r) [].

(** The target and the fields of a request that is forwarded. *)
Definition forward_request (r : Message.request) (u : Url.url) (profile : option proxy_profile) (fields : Headers.headers) (wire_target : list byte) : result route_error (list byte * Headers.headers) :=
  match profile with
  | None => Throw Forward_route
  | Some profile =>
      if negb (streq (Url.scheme u) (str "http")) then Throw Forward_route
      else
        let hash (s : list byte) := bool_decide (is_Some (find "#" s)) in
        if negb (server_options r) && (negb (streq (Message.path_ r) []) && negb (front_is "/" (Message.path_ r)) || hash (Message.path_ r) || hash (Message.query_ r)) then Throw Origin_form
        else
          let wire_target := if server_options r then wire_target else str "http://" ++ Url.host_authority u ++ wire_target in
          let? fields := set_field (str "Host") (Url.host_authority u) fields in
          let? fields := if streq (authorization profile) [] then Ok fields else set_field (str "Proxy-Authorization") (authorization profile) fields in
          Ok (wire_target, fields)
  end.

Definition serialize (r : Message.request) (u : Url.url) (m : route_mode) (profile : option proxy_profile) : result route_error (list byte) :=
  if negb (bool_decide (m = direct)) && negb (valid_authority u) then Throw Target_authority
  else if negb (bool_decide (m = direct)) && bool_decide (Message.method_ r = CONNECT) then Throw Caller_connect
  else
    let fields := Headers.remove (str "Proxy-Authorization") (Message.headers_ r) in
    let wire_target := Message.path_with_query r in
    let? (wire_target, fields) := if bool_decide (m = forward_proxy) then forward_request r u profile fields wire_target else Ok (wire_target, fields) in
    match Message.serialize_headers_for order wire_target fields r with Ok text => Ok text | Throw e => Throw (Bad_message e) end.

End Addresses.

(** ** The fields on the wire *)

(** The values of the lines that are written for a field. *)
Definition written_field (order : Headers.headers -> list (list byte * list byte)) (h : Headers.headers) (name : list byte) : list (list byte) :=
  Headers.fields_of (Headers.lines (order h) h) (lowercase name).

(** A collection that was filled with its own operations. *)
Definition orderly (h : Headers.headers) : Prop := Headers.headers_ok h /\ exists f, Headers.represents h f.

Lemma orderly_built r : Message.built r -> orderly (Message.headers_ r).
Proof. intros [_ _ _ Hh Hf]%Message.built_ok. by split. Qed.

Section Fields.
Context (order : Headers.headers -> list (list byte * list byte)) (order_enumerates : forall h, order h ≡ₚ Headers.headers_ h).

Lemma written_set name value h h' n : orderly h -> Headers.set name value h = Ok h' ->
  orderly h' /\ written_field order h' n = if ascii_iequals n name then [value] else written_field order h n.
Proof.
  intros [Hok [f Hf]] Hs. pose proof (Headers.set_ok _ _ _ _ Hok Hs) as Hok'. pose proof (Headers.represents_set _ _ _ _ _ Hf Hs) as Hf'. split; [by split; [|eexists]|].
  unfold written_field. rewrite (Headers.fields_of_lines _ h' _ n Hok' Hf' (order_enumerates _)), (Headers.fields_of_lines _ h f n Hok Hf (order_enumerates _)).
  destruct (ascii_iequals n name) eqn:E.
  - apply Headers.iequals_true in E. rewrite Headers.update_field_eq, Headers.combined_single by done. by destruct (ascii_iequals n _).
  - by rewrite Headers.update_field_ne, Headers.combined_ne.
Qed.

Lemma written_remove name h n : orderly h ->
  orderly (Headers.remove name h) /\ written_field order (Headers.remove name h) n = if ascii_iequals n name then [] else written_field order h n.
Proof.
  intros [Hok [f Hf]]. pose proof (Headers.remove_ok name _ Hok) as Hok'. destruct (Headers.header_exec_refines (Headers.Remove name) h f Hf) as (f' & Ef & Hf'). cbn [Headers.spec_exec] in Ef. simplify_eq. cbn [Headers.exec] in Hf'. split; [by split; [|eexists]|].
  unfold written_field. rewrite (Headers.fields_of_lines _ _ _ n Hok' Hf' (order_enumerates _)), (Headers.fields_of_lines _ h f n Hok Hf (order_enumerates _)).
  destruct (ascii_iequals n name) eqn:E.
  - apply Headers.iequals_true in E. by rewrite Headers.update_field_eq.
  - by rewrite Headers.update_field_ne, Headers.combined_ne.
Qed.

(** What a head that was serialized looks like. *)
Lemma serialized_head target fields r text : Message.serialize_headers_for order target fields r = Ok text ->
  is_valid_request_target target = true /\
  let sent := if Message.expect_continue_ r && streq (Message.body_ r) [] then Headers.remove (str "Expect") fields else fields in
  text = method_to_string (Message.method_ r) ++ str " " ++ target ++ str " " ++ Message.sent_version r ++ crlf ++ Headers.write_lines (Headers.lines (order sent) sent) ++ crlf.
Proof.
  unfold Message.serialize_headers_for. destruct (is_valid_request_target target); [|done]. cbn [negb]. case_if; [done|]. intros [= <-]. split; [done|]. by rewrite Headers.serialize_lines.
Qed.

End Fields.

(** The fields that a request gets on its route. *)
Definition routed (m : route_mode) (profile : option proxy_profile) (u : Url.url) (name : list byte) (own : list (list byte)) : list (list byte) :=
  let credentials := match profile with Some p => authorization p | None => [] end in
  if ascii_iequals name (str "Proxy-Authorization") then
    if bool_decide (m = forward_proxy) && negb (streq credentials []) then [credentials] else []
  else if ascii_iequals name (str "Host") && bool_decide (m = forward_proxy) then [Url.host_authority u]
  else own.

Section Wire.
Context (order : Headers.headers -> list (list byte * list byte)) (order_enumerates : forall h, order h ≡ₚ Headers.headers_ h).

Lemma set_field_set name value h h' : set_field name value h = Ok h' -> Headers.set name value h = Ok h'.
Proof. unfold set_field. destruct (Headers.set name value h); by intros [=->]. Qed.

Lemma other_name a b n : ascii_iequals n a = true -> ascii_iequals a b = false -> ascii_iequals n b = false.
Proof. intros E%Headers.iequals_true. by rewrite (Headers.iequals_ext n a). Qed.

Lemma forward_fields r u profile fields t t' fields' n : orderly fields -> written_field order fields (str "Proxy-Authorization") = [] ->
  forward_request r u profile fields t = Ok (t', fields') ->
  t' = (if server_options r then t else str "http://" ++ Url.host_authority u ++ t) /\
  orderly fields' /\ written_field order fields' n = routed forward_proxy profile u n (written_field order fields n).
Proof.
  intros Hf Hno H. unfold forward_request in H. destruct profile as [p|]; [|done]. destruct (negb (streq (Url.scheme u) _)); [done|]. destruct (negb (server_options r) && _); [done|].
  destruct (set_field (str "Host") _ fields) as [f1|] eqn:E1; [|done]. cbn [rbind] in H. apply set_field_set in E1. destruct (written_set order order_enumerates _ _ _ _ n Hf E1) as [Hf1 Hw1].
  assert (ascii_iequals n (str "Proxy-Authorization") = true -> ascii_iequals n (str "Host") = false) as Hnames by (intros E; by apply (other_name _ _ _ E)).
  assert (ascii_iequals n (str "Proxy-Authorization") = true -> written_field order fields n = []) as Hnone by (intros E%Headers.iequals_true; unfold written_field in *; by rewrite E).
  unfold routed. cbn [authorization]. rewrite bool_decide_true, andb_true_r by done. cbn [andb]. destruct (streq (authorization p) []) eqn:Ea; cbn [rbind negb] in *.
  - simplify_eq. split; [done|]. split; [done|]. rewrite Hw1. destruct (ascii_iequals n (str "Proxy-Authorization")); [|done]. rewrite Hnames by done. by apply Hnone.
  - destruct (set_field _ _ f1) as [f2|] eqn:E2; [|done]. cbn [rbind] in H. simplify_eq. apply set_field_set in E2. destruct (written_set order order_enumerates _ _ _ _ n Hf1 E2) as [Hf2 Hw2].
    split; [done|]. split; [done|]. by rewrite Hw2, Hw1.
Qed.

End Wire.

(** What is written for a route. *)
Lemma serialize_routed pton6 order r u m profile text :
  (forall h, order h ≡ₚ Headers.headers_ h) -> Message.built r -> serialize pton6 order r u m profile = Ok text ->
  exists target lines,
    text = method_to_string (Message.method_ r) ++ str " " ++ target ++ str " " ++ Message.sent_version r ++ crlf ++ Headers.write_lines lines ++ crlf /\
    is_valid_request_target target = true /\
    target = (if bool_decide (m = forward_proxy) && negb (server_options r) then str "http://" ++ Url.host_authority u ++ Message.path_with_query r else Message.path_with_query r) /\
    forall name, Headers.fields_of lines (lowercase name) = routed m profile u name (written_field order (Message.sent_headers r) name).
Proof.
  intros Ho Hb H. pose proof (orderly_built r Hb) as Hh. unfold serialize in H. destruct (negb _ && negb (valid_authority _ _)); [done|]. destruct (negb _ && bool_decide (Message.method_ r = CONNECT)); [done|].
  set (fields := Headers.remove _ _) in *. pose proof (fun n => written_remove order Ho (str "Proxy-Authorization") _ n Hh) as Hr. fold fields in Hr. destruct (Hr []) as [Hf _].
  assert (exists target f, Message.serialize_headers_for order target f r = Ok text /\ orderly f /\
    target = (if bool_decide (m = forward_proxy) && negb (server_options r) then str "http://" ++ Url.host_authority u ++ Message.path_with_query r else Message.path_with_query r) /\
    forall n, written_field order f n = routed m profile u n (written_field order (Message.headers_ r) n)) as (target & f & Hs & Hfo & Ht & Hw).
  { destruct (bool_decide (m = forward_proxy)) eqn:Em.
    - apply bool_decide_eq_true in Em as ->. destruct (forward_request _ _ _ _ _) as [[t f]|] eqn:E; [|done]. cbn [rbind] in H. exists t, f.
      pose proof (fun n => forward_fields order Ho r u profile fields _ t f n Hf ltac:(by destruct (Hr (str "Proxy-Authorization")) as [_ ->]) E) as Hfw.
      split; [by destruct (Message.serialize_headers_for order t f r); simplify_eq|]. destruct (Hfw []) as (-> & Hfo & _). split; [done|]. split; [by destruct (server_options r)|].
      intros n. destruct (Hfw n) as (_ & _ & ->). unfold routed. destruct (Hr n) as [_ ->]. by destruct (ascii_iequals n (str "Proxy-Authorization")).
    - cbn [rbind andb] in *. exists (Message.path_with_query r), fields. split; [by destruct (Message.serialize_headers_for order (Message.path_with_query r) fields r); simplify_eq|].
      split; [done|]. split; [done|]. intros n. destruct (Hr n) as [_ ->]. unfold routed. rewrite Em, andb_false_r. by cbn [andb]. }
  apply serialized_head in Hs as [Hv ->]. eexists target, _. split; [reflexivity|]. split; [done|]. split; [done|]. intros n. unfold written_field in *.
  pose proof (written_remove order Ho (str "Expect") f n Hfo) as [_ He1]. pose proof (written_remove order Ho (str "Expect") _ n Hh) as [_ He2]. unfold Message.sent_headers, written_field in *.
  destruct (Message.expect_continue_ r && _); [|by rewrite Hw]. rewrite He1, He2, Hw. destruct (ascii_iequals n (str "Expect")) eqn:E; [|done]. unfold routed.
  rewrite (other_name _ (str "Proxy-Authorization") _ E eq_refl), (other_name _ (str "Host") _ E eq_refl). done.
Qed.

(** [C32] The credentials of a proxy are confined to the hop to that proxy.  Whatever fields a caller put into a request, what is written for a route is a request line and field lines, where the only
    [Proxy-Authorization] is the configured one, and only when a proxy forwards the request; a direct connection and the request inside a tunnel carry none.  A forwarded request has the
    absolute URI of its target (unless it asks about the server itself, with OPTIONS) and the authority of that target as its [Host].  All the other fields, and the method, are those of the request (without the Expect field
    of a request that has no body). *)
Theorem credentials_confined pton6 order r u m profile text :
  (forall h, order h ≡ₚ Headers.headers_ h) -> Message.built r -> serialize pton6 order r u m profile = Ok text ->
  exists target lines,
    text = method_to_string (Message.method_ r) ++ str " " ++ target ++ str " " ++ Message.sent_version r ++ crlf ++ Headers.write_lines lines ++ crlf /\
    is_valid_request_target target = true /\
    target = (if bool_decide (m = forward_proxy) && negb (server_options r) then str "http://" ++ Url.host_authority u ++ Message.path_with_query r else Message.path_with_query r) /\
    forall name, Headers.fields_of lines (lowercase name) = routed m profile u name (written_field order (Message.sent_headers r) name).
Proof. apply serialize_routed. Qed.

(** A request with credentials of its own, through a proxy that has others. *)
Definition caller : Message.request := Eval vm_compute in
  match Message.set_header (str "Proxy-Authorization") (str "Basic eDp5") Message.new_request with Ok r => r | Throw _ => Message.new_request end.
Definition site : Url.url := Url.Url (str "http") (str "a.example") 0 (str "/") [] [] [].
Definition gateway : proxy_profile := ProxyProfile (Endpoint (str "proxy") 3128) false 1 (str "Basic dTpw") (ConnectLimits 100 8192 65536 8 8192).
Definition caller_text : list byte := Eval vm_compute in
  match serialize (fun _ => None) Headers.headers_ caller site forward_proxy (Some gateway) with Ok t => t | Throw _ => [] end.

Lemma credentials_confined_witness : Message.built caller /\ serialize (fun _ => None) Headers.headers_ caller site forward_proxy (Some gateway) = Ok caller_text /\
  exists target lines,
    caller_text = method_to_string (Message.method_ caller) ++ str " " ++ target ++ str " " ++ Message.sent_version caller ++ crlf ++ Headers.write_lines lines ++ crlf /\
    is_valid_request_target target = true /\
    target = (if bool_decide (forward_proxy = forward_proxy) && negb (server_options caller) then str "http://" ++ Url.host_authority site ++ Message.path_with_query caller else Message.path_with_query caller) /\
    forall name, Headers.fields_of lines (lowercase name) = routed forward_proxy (Some gateway) site name (written_field Headers.headers_ (Message.sent_headers caller) name).
Proof.
  assert (Message.built caller) as Hb by (apply (Message.built_headers (Headers.Set_ (str "Proxy-Authorization") (str "Basic eDp5")) Message.new_request); [apply Message.built_new|by vm_compute]).
  assert (serialize (fun _ => None) Headers.headers_ caller site forward_proxy (Some gateway) = Ok caller_text) as Hs by (by vm_compute).
  split; [exact Hb|]. split; [exact Hs|]. exact (credentials_confined (fun _ => None) Headers.headers_ caller site forward_proxy (Some gateway) caller_text (fun h => Permutation_refl _) Hb Hs).
Defined.

(** ** Decoded host names *)

Lemma unreserved_host_char hex c : proxy_unreserved_octet hex = Some c -> connect_host_char c = true /\ c <> "%"%byte.
Proof.
  unfold proxy_unreserved_octet. destruct (negb _); [done|]. destruct (from_chars 16 _ hex) as [[o [|? ?]]|]; try done. destruct (_ || _) eqn:E; [|done]. intros [= <-]. revert E. generalize (z2b o). clear. intros c Hc.
  split; [|by intros ->]. unfold connect_host_char. rewrite !orb_true_iff in *. destruct Hc as [[[->| ->]| ->]|Hc]; auto. right. apply existsb_exists in Hc as (x & Hx & ->%byte_eqb_true). apply existsb_exists. exists x. split; [|apply byte_eqb_refl].
  cbv in Hx. repeat destruct Hx as [<-|Hx]; try done; cbv; tauto.
Qed.

Lemma host_char_plain c : connect_host_char c = true -> c <> "%"%byte.
Proof. by intros H ->. Qed.

(** The scan that checks a reference name accepts what the decoding accepts, but for a dot in front. *)
Lemma reference_decodes n first h : (length h <= n)%nat -> tls_reference_loop first h = true ->
  exists name, decoded_proxy_host h = Ok name /\ (valid_reg_name h = true -> Forall (fun c => connect_host_char c = true) name) /\ (h <> [] -> name <> []) /\
    (first = true -> front_is "." h = false -> front_is "." name = false).
Proof.
  revert first h. induction n as [|n IH]; intros first [|c h] Hn H; cbn [length] in Hn; [by eexists|lia|by eexists|]. cbn [tls_reference_loop decoded_proxy_host valid_reg_name] in *. destruct (Byte.eqb c "%") eqn:Ec; cbn [negb] in *.
  - destruct h as [|a [|b h]]; try done. destruct (proxy_unreserved_octet [a; b]) as [o|] eqn:Eo; [|done]. destruct (first && _) eqn:Ed; [done|]. cbn [length] in Hn.
    destruct (IH false h ltac:(lia) H) as (name & -> & Hall & _). cbn [rbind]. eexists. split; [done|]. apply unreserved_host_char in Eo as [Eo _]. split; [|split; [done|]].
    + rewrite !andb_true_iff. intros [_ Hv]. constructor; auto.
    + intros -> _. exact Ed.
  - destruct (IH false h ltac:(lia) H) as (name & -> & Hall & _). cbn [rbind]. eexists. split; [done|]. split; [|done]. rewrite andb_true_iff. intros [? ?]. constructor; auto.
Qed.

Lemma decoded_plain name : Forall (fun c => connect_host_char c = true) name -> decoded_proxy_host name = Ok name.
Proof.
  induction 1 as [|c name Hc _ IH]; [done|]. cbn [decoded_proxy_host]. by rewrite (proj2 (byte_eqb_false _ _) (host_char_plain c Hc)), IH.
Qed.

(** A host name that passes the checks for a proxy is decoded to a plain name.  The decoding succeeds, and the name it gives has no delimiter of a URI and no percent sign, so that decoding it
    again changes nothing; it is not empty and has no dot in front, which the verification of a certificate would take for any subdomain. *)
Theorem decoded_host_plain pton6 h : valid_proxy_tls_reference pton6 h = true ->
  exists name, decoded_proxy_host h = Ok name /\ name <> [] /\ front_is "." name = false /\
    (find ":" h = None -> Forall (fun c => connect_host_char c = true) name /\ decoded_proxy_host name = Ok name).
Proof.
  unfold valid_proxy_tls_reference. destruct (negb _ || _ || _) eqn:E; [done|]. rewrite !orb_false_iff, negb_false_iff in E. destruct E as [[Hv Hne%streq_false] Hdot]. intros H.
  destruct (reference_decodes (length h) true h ltac:(done) H) as (name & Hd & Hall & Hn & Hf). exists name. split; [done|]. split; [auto|]. split; [auto|]. intros Hcolon.
  unfold valid_proxy_host in Hv. rewrite Hcolon in Hv. destruct (negb _); [done|]. split; [auto|]. apply decoded_plain. auto.
Qed.

Lemma decoded_host_plain_witness : valid_proxy_tls_reference (fun _ => None) (str "ex%61mple%2ecom") = true /\
  exists name, decoded_proxy_host (str "ex%61mple%2ecom") = Ok name /\ name <> [] /\ front_is "." name = false /\
    (find ":" (str "ex%61mple%2ecom") = None -> Forall (fun c => connect_host_char c = true) name /\ decoded_proxy_host name = Ok name).
Proof. split; [vm_compute; reflexivity|]. apply (decoded_host_plain (fun _ => None)). vm_compute. reflexivity. Defined.

End Route.
