(* ===== verification/HttpClient.v ===== *)
(** * The client

    Models [src/include/elio/http/http_client.hpp]: [client::prepare_exchange], [make_redirect], [send_request], [with_response_impl] and the entry points that
    lead to them, over the exchanges of [HttpReader] and the routes of [HttpRoute].  The transport is the environment: for every hop, how the acquisition of a connection ends, how
    the request is written, and what arrives.  What was sent where is recorded in a list of visits.

    Redirections never carry the cookies or credentials of a caller to another target, never leave HTTPS for HTTP, and are bounded in number ([redirects_confined]);
    a response that is returned is the one that the server of the last visit sent ([response_returned]); when nothing fails it is returned ([response_obtained]); and a request never
    loops without waiting for its environment ([requests_terminate]). *)

From Stdlib Require Import Strings.Byte Strings.String ZifyBool.
From S2P Require Import Prelude Str HttpCommon HttpHeaders HttpChunk HttpRequest HttpUrl HttpMessage HttpDecoder HttpPlan HttpWriter HttpReader HttpRoute.

Module Client.
Import Http Reader.

#[local] Arguments str : simpl never.

Definition EINVAL : Z := 22.
Definition ENOTSUP : Z := 95.

(** The settings that the requests of a client depend on. *)
Record client_config := ClientConfig {
  read_timeout : Z;
  read_buffer_size : Z;
  user_agent : list byte;
  max_headers : Z;
  max_header_size : Z;
  max_redirects : Z;
  follow_redirects : bool;
  max_response_size : Z;
  expect_continue_timeout : Z
}.

Record streaming_response_options := Options { max_body_size : Z; max_informational_bytes : Z }.

(** How [acquire_leased_result] ends. *)
Inductive acquisition := Leased | Refused (e : client_error) | Raised.

(** A connection: its acquisition, the writes of the request and of its body, and the world behind it. *)
Record hop := Hop { acquired : acquisition; first_write : write_outcome; body_write : write_outcome; connection : world moment }.

(** A request that was made: to which target, the exchange it led to, and all that was received on the connection when that has ended. *)
Record visit := Visit { visited_request : Message.request; visited_target : Url.url; visited_exchange : option exchange; visited_received : option (list byte) }.

Inductive client_result := Value (r : Plan.response) | Error (e : client_error) | Exception.

Definition is_auto_follow_redirect (s : Z) : bool := (s =? 301) || (s =? 302) || (s =? 303) || (s =? 307) || (s =? 308).

Section Client.
Context (pton6 : list byte -> option (list byte)) (order : Headers.headers -> list (list byte * list byte)).
Context (config : client_config) (snapshot : Route.route_snapshot) (scheduled : bool).

Definition proxied : bool := bool_decide (is_Some (Route.proxy snapshot)).

(** ** One exchange *)

Inductive prepared := Ready (x : exchange) | Unprepared (e : client_error) (x : option exchange) | Prepare_throws (x : option exchange).

(** The fields that are added to the request of the caller. *)
Definition complete_request (r : Message.request) (u : Url.url) : result Message.message_error Message.request :=
  let? r := if streq (Headers.get (str "Host") (Message.headers_ r)) [] then Message.set_host (Url.host_authority u) r else Ok r in
  if Headers.contains (str "Connection") (Message.headers_ r) then Ok r else Message.set_header (str "Connection") (str "keep-alive") r.

Definition defer_body (r : Message.request) : bool := Message.expect_continue_ r && negb (streq (Message.body_ r) []).

Definition prepare_exchange (r : Message.request) (u : Url.url) (informational_limit : Z) (h : hop) : prepared * Message.request * world moment :=
  let (cancelled, w) := poll (connection h) in
  if cancelled then (Unprepared (make_client_error Writer.ECANCELED at_acquire) None, r, w)
  else if negb (is_valid_url_input (Url.host_authority u)) || (proxied && negb (Route.valid_authority pton6 u)) || negb (is_valid_request_target (Message.path_with_query r)) then
    (Unprepared (make_client_error EINVAL at_target) None, r, w)
  else if proxied && bool_decide (Message.method_ r = CONNECT) then (Unprepared (make_client_error ENOTSUP at_request) None, r, w)
  else
    match acquired h with
    | Refused e => (Unprepared e None, r, w)
    | Raised => (Prepare_throws None, r, w)
    | Leased =>
        match complete_request r u with
        | Throw _ => (Prepare_throws None, r, w)
        | Ok r =>
            match Route.serialize pton6 order r u (Route.plan_mode u snapshot) (Route.proxy snapshot) with
            | Throw _ => (Unprepared (make_client_error EINVAL at_request) None, r, w)
            | Ok request_data =>
                let request_data := if defer_body r then request_data else request_data ++ Message.body_ r in
                let (cancelled, w) := poll w in
                if cancelled then (Unprepared (make_client_error Writer.ECANCELED at_request) None, r, w)
                else
                  let x := new_exchange (read_buffer_size config) (max_headers config) (max_header_size config) (Message.method_ r) (Message.body_ r) (defer_body r) informational_limit
                             (scheduled && (0 <? read_timeout config)) (scheduled && (0 <? expect_continue_timeout config)) in
                  match send_initial request_data (first_write h) (body_write h) x with
                  | (Some (Write_error e), x) => (Unprepared e (Some (abort x)), r, w)
                  | (Some Write_throws, x) => (Prepare_throws (Some (abort x)), r, w)
                  | (None, x) => (Ready x, r, w)
                  end
            end
        end
    end.

(** ** Redirections *)

(** What of the request is repeated when the method is kept. *)
Definition repeat_content (r redirect : Message.request) : result Message.message_error Message.request :=
  let? redirect :=
    if negb (streq (Message.body_ r) []) then Message.set_body (Message.body_ r) redirect
    else if bool_decide (Headers.content_length (Message.headers_ r) = Some 0) then Message.set_header (str "Content-Length") (Headers.get (str "Content-Length") (Message.headers_ r)) redirect
    else Ok redirect in
  let? redirect := if streq (Headers.content_type (Message.headers_ r)) [] then Ok redirect else Message.set_content_type (Headers.content_type (Message.headers_ r)) redirect in
  if negb (streq (Message.body_ r) []) && Message.expect_continue_ r then Message.set_expect_continue true redirect else Ok redirect.

Definition redirect_method (m : method) (status : Z) : method :=
  if (status =? 303) && negb (bool_decide (m = HEAD)) || (((status =? 301) || (status =? 302)) && bool_decide (m = POST)) then GET else m.

(** Where a redirection leads, if it is followed. *)
Definition redirect_target (u : Url.url) (status : Z) (location : list byte) (redirect_count : Z) : option Url.url :=
  if negb (follow_redirects config) || negb (is_auto_follow_redirect status) || (max_redirects config <=? redirect_count) then None
  else if streq location [] then None
  else if negb (is_valid_url_input location) then None
  else
    match Url.resolve_reference u location with
    | None => None
    | Some target =>
        if proxied && ((has_uri_scheme location || starts_with (str "//") location) && negb (Route.valid_proxy_uri_authority pton6 location target)) then None
        else if negb (is_supported_http_url_scheme (Url.scheme target)) then None
        else if Url.is_secure u && negb (Url.is_secure target) then None
        else Some target
    end.

Definition make_redirect (r : Message.request) (u : Url.url) (resp : Plan.response) (redirect_count : Z) : result Message.message_error (option (Message.request * Url.url)) :=
  let status := Plan.status_ (Plan.head_ resp) in
  match redirect_target u status (Headers.get (str "Location") (Plan.headers_ (Plan.head_ resp))) redirect_count with
  | None => Ok None
  | Some target =>
      let m := redirect_method (Message.method_ r) status in
      let? redirect := Message.make_request m (Url.path_with_query target) in
      let? redirect := Message.set_host (Url.host_authority target) redirect in
      let? redirect := if streq (user_agent config) [] then Ok redirect else Message.set_header (str "User-Agent") (user_agent config) redirect in
      let method_preserved := bool_decide (m = Message.method_ r) && negb (status =? 303) in
      let? redirect := if (status =? 307) || (status =? 308) || method_preserved then repeat_content r redirect else Ok redirect in
      Ok (Some (redirect, target))
  end.

(** ** Buffered responses *)

Inductive collected := Collected (body : list byte) | Uncollected (e : client_error) | Collect_throws.

Fixpoint collect (fuel : nat) (w : world moment) (x : exchange) (response_body : list byte) : outcome (collected * exchange * world moment) :=
  match fuel with
  | O => Spent
  | S fuel =>
      match next w x with
      | Waiting => Waiting
      | Spent => Spent
      | Done (Failure e, x, w) => Done (Uncollected e, x, w)
      | Done (Thrown, x, w) => Done (Collect_throws, x, w)
      | Done (Part part, x, w) =>
          match event part with
          | Response.Body =>
              if max_response_size config - Z.min (zlen response_body) (max_response_size config) <? zlen (fragment part) then Done (Uncollected (make_client_error EMSGSIZE at_body), x, w)
              else collect fuel w x (response_body ++ fragment part)
          | Response.Message_complete => Done (Collected response_body, x, w)
          | _ => collect fuel w x response_body
          end
      end
  end.

(** The recursion follows the hops that the environment answers; the lease of an exchange that ends early is retired by its destructor. *)
Fixpoint send_request (hops : list hop) (r : Message.request) (u : Url.url) (redirect_count : Z) : list visit * outcome client_result :=
  match hops with
  | [] => ([], Waiting)
  | h :: hops =>
      match prepare_exchange r u (max_response_size config) h with
      | (Unprepared e x, r, _) => ([Visit r u x None], Done (Error e))
      | (Prepare_throws x, r, _) => ([Visit r u x None], Done Exception)
      | (Ready x, r, w) =>
          match collect (budget w x) w x [] with
          | Waiting => ([Visit r u (Some x) None], Waiting)
          | Spent => ([Visit r u (Some x) None], Spent)
          | Done (Uncollected e, x, w) => ([Visit r u (Some (abort x)) (Some (arrived w))], Done (Error e))
          | Done (Collect_throws, x, w) => ([Visit r u (Some (abort x)) (Some (arrived w))], Done Exception)
          | Done (Collected body, x, w) =>
              match Plan.from_decoder (decoder (reader x)) body with
              | Throw _ => ([Visit r u (Some (abort x)) (Some (arrived w))], Done Exception)
              | Ok resp =>
                  let (x, w) := finish w x in
                  match make_redirect r u resp redirect_count with
                  | Throw _ => ([Visit r u (Some x) (Some (arrived w))], Done Exception)
                  | Ok None => ([Visit r u (Some x) (Some (arrived w))], Done (Value resp))
                  | Ok (Some (r', u')) => let (visits, o) := send_request hops r' u' (redirect_count + 1) in (Visit r u (Some x) (Some (arrived w)) :: visits, o)
                  end
              end
          end
      end
  end.

(** ** Streamed responses *)

(** The result, the bytes that the handler was given and whether they are the whole body; the handler sees the head first. *)
Fixpoint with_response_loop (hops : list hop) (handler : Plan.response -> Reader.handler) (options : streaming_response_options) (r : Message.request) (u : Url.url) (redirects : Z) : list visit * outcome (scope_result * list byte * bool) :=
  match hops with
  | [] => ([], Waiting)
  | h :: hops =>
      match prepare_exchange r u (max_informational_bytes options) h with
      | (Unprepared e x, r, _) => ([Visit r u x None], Done (Stopped e, [], false))
      | (Prepare_throws x, r, _) => ([Visit r u x None], Done (Rethrown, [], false))
      | (Ready x, r, w) =>
          match await_head (budget w x) w x with
          | Waiting => ([Visit r u (Some x) None], Waiting)
          | Spent => ([Visit r u (Some x) None], Spent)
          | Done (Some result, x, w) => ([Visit r u (Some x) (Some (arrived w))], Done (result, [], false))
          | Done (None, x, w) =>
              match Plan.from_decoder (decoder (reader x)) [] with
              | Throw _ => ([Visit r u (Some (abort x)) (Some (arrived w))], Done (Rethrown, [], false))
              | Ok head =>
                  match make_redirect r u head redirects with
                  | Throw _ => ([Visit r u (Some (abort x)) (Some (arrived w))], Done (Rethrown, [], false))
                  | Ok (Some (r', u')) => let (visits, o) := with_response_loop hops handler options r' u' (redirects + 1) in (Visit r u (Some (abort x)) (Some (arrived w)) :: visits, o)
                  | Ok None =>
                      match serve (handler head) (max_body_size options) w x with
                      | Waiting => ([Visit r u (Some x) None], Waiting)
                      | Spent => ([Visit r u (Some x) None], Spent)
                      | Done (result, taken, complete, x, w) => ([Visit r u (Some x) (Some (arrived w))], Done (result, taken, complete))
                      end
                  end
              end
          end
      end
  end.

Definition with_response (hops : list hop) handler options r u : list visit * outcome (scope_result * list byte * bool) :=
  if negb (is_supported_http_url_scheme (Url.scheme u)) then ([], Done (Stopped (make_client_error EINVAL at_target), [], false)) else with_response_loop hops handler options r u 0.

(** ** Entry points *)

Definition send_result (hops : list hop) r u : list visit * outcome client_result :=
  if negb (is_supported_http_url_scheme (Url.scheme u)) then ([], Done (Error (make_client_error EINVAL at_target))) else send_request hops r u 0.

(** The request for a URL. *)
Definition url_request (m : method) (parsed : Url.url) (body content_type : list byte) (honor_empty_representation : bool) : result Message.message_error Message.request :=
  let? r := Message.make_request m (Url.path_with_query parsed) in
  let? r := Message.set_host (Url.host_authority parsed) r in
  let? r :=
    if negb (streq body []) || (honor_empty_representation && negb (streq content_type [])) then
      let? r := Message.set_body body r in
      if streq content_type [] then Ok r else Message.set_content_type content_type r
    else Ok r in
  if streq (user_agent config) [] then Ok r else Message.set_header (str "User-Agent") (user_agent config) r.

Definition request_url_result (hops : list hop) (cancelled : bool) (m : method) (url_str body content_type : list byte) (honor_empty_representation : bool) : list visit * outcome client_result :=
  let refuse e := ([], Done (Error e)) in
  if cancelled then refuse (make_client_error Writer.ECANCELED at_target)
  else
    match Url.parse url_str with
    | None => refuse (make_client_error EINVAL at_target)
    | Some parsed =>
        if proxied && negb (Route.valid_proxy_uri_authority pton6 url_str parsed) then refuse (make_client_error EINVAL at_target)
        else if negb (is_supported_http_url_scheme (Url.scheme parsed)) then refuse (make_client_error EINVAL at_target)
        else if negb (streq (user_agent config) []) && negb (is_valid_header_value (user_agent config)) then refuse (make_client_error EINVAL at_request)
        else if negb (streq content_type []) && negb (is_valid_header_value content_type) then refuse (make_client_error EINVAL at_request)
        else
          match url_request m parsed body content_type honor_empty_representation with
          | Throw _ => ([], Done Exception)
          | Ok r => send_request hops r parsed 0
          end
    end.

Definition request_result hops cancelled m url_str body content_type := request_url_result hops cancelled m url_str body content_type true.
Definition get_result hops cancelled url_str := request_result hops cancelled GET url_str [] [].

(** A response, or no response and [errno]. *)
Definition optional_response (r : client_result) : result unit (option Plan.response * option Z) :=
  match r with
  | Value resp => Ok (Some resp, None)
  | Error e => Ok (None, Some (code e))
  | Exception => Throw tt
  end.

Definition request_url hops cancelled m url_str body content_type : outcome (result unit (option Plan.response * option Z)) :=
  match (request_url_result hops cancelled m url_str body content_type false).2 with
  | Done r => Done (optional_response r)
  | Waiting => Waiting
  | Spent => Spent
  end.

Definition send hops r u : outcome (result unit (option Plan.response * option Z)) :=
  match (send_result hops r u).2 with Done r => Done (optional_response r) | Waiting => Waiting | Spent => Spent end.

Definition get hops cancelled url_str := request_url hops cancelled GET url_str [] [].
Definition post hops cancelled url_str body content_type := request_url hops cancelled POST url_str body content_type.
Definition put hops cancelled url_str body content_type := request_url hops cancelled PUT url_str body content_type.
Definition del hops cancelled url_str := request_url hops cancelled DELETE_ url_str [] [].
Definition patch hops cancelled url_str body content_type := request_url hops cancelled PATCH url_str body content_type.
Definition head hops cancelled url_str := request_url hops cancelled HEAD url_str [] [].

End Client.

(** ** What is sent where *)

(** The fields of a request that follows a redirection. *)
Definition redirect_fields : list (list byte) := [str "Host"; str "Connection"; str "User-Agent"; str "Content-Length"; str "Content-Type"; str "Expect"].

(** Membership in a list that is written out. *)
Ltac one_of := unfold redirect_fields; repeat first [apply list_elem_of_here | apply list_elem_of_further].

Section Trails.
Context (pton6 : list byte -> option (list byte)) (order : Headers.headers -> list (list byte * list byte)) (order_enumerates : forall h, order h ≡ₚ Headers.headers_ h).
Context (config : client_config) (snapshot : Route.route_snapshot) (scheduled : bool).

(** All the fields of a collection have one of these names. *)
Definition within (allowed : list (list byte)) (h : Headers.headers) : Prop :=
  Route.orderly h /\ forall name, Route.written_field order h name <> [] -> exists a, a ∈ allowed /\ ascii_iequals name a = true.

Lemma within_set allowed name value h h' : within allowed h -> name ∈ allowed -> Headers.set name value h = Ok h' -> within allowed h'.
Proof.
  intros [Ho Hall] Hin Hs. pose proof (fun n => Route.written_set order order_enumerates _ _ _ _ n Ho Hs) as Hw. split; [apply (Hw [])|]. intros n. destruct (Hw n) as [_ ->].
  destruct (ascii_iequals n name) eqn:E; [|apply Hall]. intros _. by exists name.
Qed.

(** A request that is built from a fresh one, with the fields of a redirection. *)
Record fresh (authority : list byte) (r : Message.request) : Prop := {
  fr_built : Message.built r;
  fr_within : within redirect_fields (Message.headers_ r);
  fr_host : Route.written_field order (Message.headers_ r) (str "Host") = [authority];
}.

Lemma fresh_set a name value r r' : fresh a r -> name ∈ redirect_fields -> ascii_iequals (str "Host") name = false -> Message.set_header name value r = Ok r' ->
  fresh a r' /\ Message.method_ r' = Message.method_ r /\ Message.body_ r' = Message.body_ r.
Proof.
  intros [Hb Hw Hh] Hin Hne H. pose proof (Message.built_headers (Headers.Set_ name value) r r' Hb H) as Hb'. unfold Message.set_header, Message.on_headers in H.
  destruct (Headers.set name value (Message.headers_ r)) as [h|] eqn:E; [|done]. injection H as <-. split; [|done]. split; [done|by eapply within_set|]. cbn.
  destruct (Route.written_set order order_enumerates _ _ _ _ (str "Host") (proj1 Hw) E) as [_ ->]. by rewrite Hne.
Qed.

Lemma fresh_set_body a b r r' : fresh a r -> Message.set_body b r = Ok r' -> fresh a r' /\ Message.method_ r' = Message.method_ r /\ Message.body_ r' = b.
Proof.
  intros [Hb Hw Hh] H. pose proof (Message.built_body b r r' Hb H) as Hb'. unfold Message.set_body, Message.on_headers in H. cbn [Message.headers_] in H.
  destruct (Headers.set_content_length (zlen b) (Message.headers_ r)) as [h|] eqn:E; [|done]. injection H as <-. split; [|done]. split; [done|eapply within_set; [exact Hw| |exact E]; one_of|]. cbn.
  destruct (Route.written_set order order_enumerates _ _ _ _ (str "Host") (proj1 Hw) E) as [_ ->]. done.
Qed.

Lemma fresh_set_expect a r r' : fresh a r -> Message.set_expect_continue true r = Ok r' -> fresh a r' /\ Message.method_ r' = Message.method_ r /\ Message.body_ r' = Message.body_ r.
Proof.
  intros [Hb Hw Hh] H. pose proof (Message.built_expect true r r' Hb H) as Hb'. unfold Message.set_expect_continue, Message.on_headers in H. cbn [Message.headers_] in H.
  destruct (Headers.set (str "Expect") _ (Message.headers_ r)) as [h|] eqn:E; [|done]. injection H as <-. split; [|done]. split; [done|eapply within_set; [exact Hw| |exact E]; one_of|]. cbn.
  destruct (Route.written_set order order_enumerates _ _ _ _ (str "Host") (proj1 Hw) E) as [_ ->]. done.
Qed.

Lemma fresh_new m path a r r' : Message.make_request m path = Ok r -> Message.set_host a r = Ok r' -> fresh a r' /\ Message.method_ r' = m /\ Message.body_ r' = [].
Proof.
  intros Hm H. assert (Message.built r) as Hb by (eapply Message.built_path; [apply Message.built_method, Message.built_new|exact Hm]).
  unfold Message.make_request, Message.set_path in Hm. destruct (negb _); [done|]. injection Hm as <-.
  pose proof (Message.built_headers (Headers.Set_ (str "Host") a) _ r' Hb H) as Hb'. unfold Message.set_host, Message.on_headers in H. cbn [Message.headers_] in H.
  destruct (Headers.set (str "Host") a _) as [h|] eqn:E; [|done]. injection H as <-. split; [|done].
  assert (within redirect_fields Headers.no_headers) as Hw by (split; [split; [apply Headers.headers_ok_empty|by exists Headers.no_fields]|]; intros n Hn; destruct Hn; unfold Route.written_field; pose proof (order_enumerates Headers.no_headers) as Hp; apply Permutation_nil_r in Hp; by rewrite Hp).
  split; [done|eapply within_set; [exact Hw| |exact E]; one_of|]. cbn. destruct (Route.written_set order order_enumerates _ _ _ _ (str "Host") (proj1 Hw) E) as [_ ->]. done.
Qed.

(** What a redirection that is followed leads to. *)
Record redirected (r : Message.request) (u : Url.url) (r' : Message.request) (u' : Url.url) : Prop := {
  rd_fresh : fresh (Url.host_authority u') r';
  rd_scheme : is_supported_http_url_scheme (Url.scheme u') = true;
  rd_secure : Url.is_secure u = true -> Url.is_secure u' = true;
  rd_method : Message.method_ r' = Message.method_ r \/ Message.method_ r' = GET;
  rd_body : Message.body_ r' = [] \/ Message.body_ r' = Message.body_ r;
}.

Lemma redirect_target_spec u status location n u' : redirect_target pton6 config snapshot u status location n = Some u' ->
  follow_redirects config = true /\ n < max_redirects config /\ is_supported_http_url_scheme (Url.scheme u') = true /\ (Url.is_secure u = true -> Url.is_secure u' = true).
Proof.
  unfold redirect_target. destruct (negb _ || _ || _) eqn:E; [done|]. rewrite !orb_false_iff, negb_false_iff in E. destruct E as [[Hf _] Hn]. destruct (streq _ _); [done|]. destruct (negb _); [done|].
  destruct (Url.resolve_reference u location) as [t|]; [|done]. destruct (_ && _); [done|]. destruct (is_supported_http_url_scheme (Url.scheme t)) eqn:Es; [|done]. cbn [negb]. destruct (Url.is_secure u && _) eqn:Eu; [done|]. intros [= <-].
  split; [done|]. split; [lia|]. split; [done|]. intros Hu. rewrite Hu in Eu. by destruct (Url.is_secure t).
Qed.

Lemma repeat_content_spec a r d d' : fresh a d -> Message.body_ d = [] -> repeat_content r d = Ok d' ->
  fresh a d' /\ Message.method_ d' = Message.method_ d /\ (Message.body_ d' = [] \/ Message.body_ d' = Message.body_ r).
Proof.
  intros Hf Hb H. unfold repeat_content in H. set (first := if negb (streq (Message.body_ r) []) then _ else _) in H.
  assert (forall d1, first = Ok d1 -> fresh a d1 /\ Message.method_ d1 = Message.method_ d /\ (Message.body_ d1 = [] \/ Message.body_ d1 = Message.body_ r)) as H1.
  { intros d1 E. unfold first in E. destruct (negb _); [apply (fresh_set_body a) in E as (? & -> & ->); auto|]. destruct (bool_decide _).
    - apply (fresh_set a) in E as (? & -> & ->); [rewrite Hb; auto|done|one_of|done].
    - simplify_eq. auto. }
  destruct first as [d1|]; [|done]. cbn [rbind] in H. destruct (H1 d1 eq_refl) as (Hf1 & Hm1 & Hb1). clear H1.
  set (second := if streq _ [] then _ else _) in H. assert (forall d2, second = Ok d2 -> fresh a d2 /\ Message.method_ d2 = Message.method_ d /\ Message.body_ d2 = Message.body_ d1) as H2.
  { intros d2 E. unfold second in E. destruct (streq _ _); [by simplify_eq|]. apply (fresh_set a (str "Content-Type")) in E as (? & -> & ->); [auto|done|one_of|done]. }
  destruct second as [d2|]; [|done]. cbn [rbind] in H. destruct (H2 d2 eq_refl) as (Hf2 & Hm2 & Hb2). rewrite <-Hb2 in Hb1. destruct (_ && _); [|by simplify_eq].
  apply (fresh_set_expect a) in H as (? & -> & ->); auto.
Qed.

Lemma make_redirect_spec r u resp n r' u' : make_redirect pton6 config snapshot r u resp n = Ok (Some (r', u')) ->
  follow_redirects config = true /\ n < max_redirects config /\ redirected r u r' u'.
Proof.
  unfold make_redirect. destruct (redirect_target _ _ _ _ _ _ _) as [t|] eqn:Et; [|done]. apply redirect_target_spec in Et as (Hf & Hn & Hs & Hsec). set (status := Plan.status_ _). set (m := redirect_method _ _).
  destruct (Message.make_request m _) as [d0|] eqn:E0; [|done]. cbn [rbind]. destruct (Message.set_host _ d0) as [d1|] eqn:E1; [|done]. cbn [rbind]. destruct (fresh_new _ _ _ _ _ E0 E1) as (Hf1 & Hm1 & Hb1).
  set (agent := if streq _ [] then _ else _). assert (forall d2, agent = Ok d2 -> fresh (Url.host_authority t) d2 /\ Message.method_ d2 = m /\ Message.body_ d2 = []) as H2.
  { intros d2 E. unfold agent in E. destruct (streq _ _); [by simplify_eq|]. apply (fresh_set (Url.host_authority t)) in E as (? & -> & ->); [auto|done|one_of|done]. }
  destruct agent as [d2|]; [|done]. cbn [rbind]. destruct (H2 d2 eq_refl) as (Hf2 & Hm2 & Hb2).
  assert (m = Message.method_ r \/ m = GET) as Hm by (unfold m, redirect_method; case_if; auto).
  destruct (_ || _ || _).
  - destruct (repeat_content r d2) as [d3|] eqn:E3; [|done]. cbn [rbind]. apply (repeat_content_spec (Url.host_authority t)) in E3 as (Hf3 & Hm3 & Hb3); [|done..]. intros [= <- <-]. split; [done|]. split; [done|]. split; try done. by rewrite Hm3, Hm2.
  - cbn [rbind]. intros [= <- <-]. split; [done|]. split; [done|]. split; try done; [by rewrite Hm2|by left].
Qed.

Lemma set_host_header a : Message.set_host a = Message.set_header (str "Host") a.
Proof. done. Qed.

Lemma set_header_built name value r r' : Message.built r -> Message.set_header name value r = Ok r' -> Message.built r' /\ Message.method_ r' = Message.method_ r /\ Message.body_ r' = Message.body_ r /\
  Message.expect_continue_ r' = Message.expect_continue_ r.
Proof.
  intros Hb H. split; [by apply (Message.built_headers (Headers.Set_ name value) r)|]. unfold Message.set_header, Message.on_headers in H. destruct (Headers.set _ _ _); [|done]. by injection H as <-.
Qed.

Lemma complete_request_built r u r' : Message.built r -> complete_request r u = Ok r' -> Message.built r' /\ Message.method_ r' = Message.method_ r /\ Message.body_ r' = Message.body_ r /\
  Message.expect_continue_ r' = Message.expect_continue_ r.
Proof.
  intros Hb. unfold complete_request. rewrite set_host_header. set (first := if streq _ [] then _ else _).
  assert (forall r1, first = Ok r1 -> Message.built r1 /\ Message.method_ r1 = Message.method_ r /\ Message.body_ r1 = Message.body_ r /\ Message.expect_continue_ r1 = Message.expect_continue_ r) as H1 by (intros r1; unfold first; destruct (streq _ _); [by apply set_header_built|by intros [= <-]]).
  destruct first as [r1|]; [|done]. cbn [rbind]. destruct (H1 r1 eq_refl) as (Hb1 & Hm1 & Hy1 & He1). destruct (Headers.contains _ _); [by intros [= <-]|]. intros (? & -> & -> & ->)%set_header_built; done.
Qed.

Lemma complete_request_fresh r u r' : fresh (Url.host_authority u) r -> complete_request r u = Ok r' -> fresh (Url.host_authority u) r'.
Proof.
  intros Hf. unfold complete_request. set (first := if streq _ [] then _ else _). assert (forall r1, first = Ok r1 -> fresh (Url.host_authority u) r1) as H1.
  { intros r1. unfold first. destruct (streq _ _); [|by intros [= <-]]. intros H. destruct Hf as [Hb Hw Hh]. pose proof (set_header_built _ _ _ _ Hb H) as [Hb' _]. unfold Message.set_host, Message.on_headers in H.
    destruct (Headers.set (str "Host") _ _) as [h|] eqn:E; [|done]. injection H as <-. split; [done|eapply within_set; [exact Hw| |exact E]; one_of|]. cbn. by destruct (Route.written_set order order_enumerates _ _ _ _ (str "Host") (proj1 Hw) E) as [_ ->]. }
  destruct first as [r1|]; [|done]. cbn [rbind]. destruct (Headers.contains _ _); [intros [= <-]; auto|]. intros H. apply (fresh_set (Url.host_authority u)) in H as [? _]; [done|auto|one_of|done].
Qed.

(** The writes of an exchange for a request: the head, with the body unless it is deferred, and then at most the deferred body. *)
Definition sent_over (r : Message.request) (u : Url.url) (x : exchange) : Prop :=
  exists text, Route.serialize pton6 order r u (Route.plan_mode u snapshot) (Route.proxy snapshot) = Ok text /\ request_body_ (channel_ x) = Message.body_ r /\
    if defer_body r then written (channel_ x) = [text] \/ (written (channel_ x) = [text; Message.body_ r] /\ body_pending_ (channel_ x) = false)
    else written (channel_ x) = [text ++ Message.body_ r] /\ body_pending_ (channel_ x) = false.

Lemma sent_over_sends r u x x' : sent_over r u x -> sends (channel_ x) (channel_ x') -> sent_over r u x'.
Proof.
  intros (text & Ht & Hb & Hw) [Hsb _ _ Hsw]. exists text. split; [done|]. split; [congruence|]. destruct (defer_body r); destruct Hsw as [[-> Hp]|(Hp & Hp' & ->)].
  - destruct Hw as [->|[-> Hn]]; [by left|right]. split; [done|]. destruct (body_pending_ (channel_ x')); [by rewrite Hp in Hn|done].
  - destruct Hw as [->|[-> Hn]]; [right; by rewrite Hb|congruence].
  - destruct Hw as [-> Hn]. split; [done|]. destruct (body_pending_ (channel_ x')); [by rewrite Hp in Hn|done].
  - destruct Hw as [_ Hn]. congruence.
Qed.

Lemma abort_channel x : channel_ (abort x) = channel_ x.
Proof. unfold abort, settle_lease. by destruct (lease_ x). Qed.

Lemma finish_channel w x x' w' : finish w x = (x', w') -> channel_ x' = channel_ x.
Proof. unfold finish. destruct (poll w). intros [= <- _]. unfold settle_lease. by destruct (lease_ x). Qed.

Lemma next_sends w x a x' w' : next w x = Done (a, x', w') -> sends (channel_ x) (channel_ x').
Proof. unfold next. by intros (_ & H & _)%next_grows. Qed.

Lemma collect_sends fuel : forall w x body c x' w', collect config fuel w x body = Done (c, x', w') -> sends (channel_ x) (channel_ x').
Proof.
  induction fuel as [|fuel IH]; intros w x body c x' w' H; [done|]. cbn [collect] in H. destruct (next w x) as [[[a x1] w1]| |] eqn:En; try done. apply next_sends in En.
  assert (forall b, collect config fuel w1 x1 b = Done (c, x', w') -> sends (channel_ x) (channel_ x')) as Hgo by (intros b E; apply IH in E; by etransitivity).
  destruct a as [part|e|]; [|by simplify_eq..]. destruct (event part); try (by eapply Hgo); [|by simplify_eq]. destruct (_ <? _); [by simplify_eq|by eapply Hgo].
Qed.

Lemma await_head_sends fuel : forall w x o x' w', await_head fuel w x = Done (o, x', w') -> sends (channel_ x) (channel_ x').
Proof.
  induction fuel as [|fuel IH]; intros w x o x' w' H; [done|]. cbn [await_head] in H. destruct (next w x) as [[[a x1] w1]| |] eqn:En; try done. apply next_sends in En.
  destruct a as [part|e|]; [destruct (is_event _ _); [by simplify_eq|apply IH in H; by etransitivity]|injection H as _ <- _; by rewrite abort_channel..].
Qed.

Lemma await_fragment_sends fuel : forall w x b o b' x' w', await_fragment fuel w x b = Done (o, b', x', w') -> sends (channel_ x) (channel_ x').
Proof.
  induction fuel as [|fuel IH]; intros w x b o b' x' w' H; cbn [await_fragment] in H; (destruct (pending_ b); [|by simplify_eq]); [done|]. destruct (next w x) as [[[a x1] w1]| |] eqn:En; try done. apply next_sends in En.
  assert (forall b, await_fragment fuel w1 x1 b = Done (o, b', x', w') -> sends (channel_ x) (channel_ x')) as Hgo by (intros b1 E; apply IH in E; by etransitivity).
  destruct a as [part|e|]; [|by simplify_eq..]. destruct (event part); try (by eapply Hgo); [|by simplify_eq]. destruct (_ <? _); [by simplify_eq|by eapply Hgo].
Qed.

Lemma handle_sends p : forall w x b taken raised taken' b' x' w', handle p w x b taken = Done (raised, taken', b', x', w') -> sends (channel_ x) (channel_ x').
Proof.
  induction p as [| |cap k IH]; intros w x b taken raised taken' b' x' w' H; cbn [handle] in H; [by simplify_eq..|]. destruct (read_into cap w x b) as [[[[a b1] x1] w1]| |] eqn:Er; try done. apply IH in H.
  etransitivity; [|exact H]. unfold read_into in Er. destruct (reading_ b); [by simplify_eq|]. destruct (error_ b); [by simplify_eq|]. destruct (complete_ b); [by simplify_eq|]. destruct (poll w) as [[] w0]; [by simplify_eq|].
  destruct (cap =? 0); [by simplify_eq|]. destruct (await_fragment _ _ _ _) as [[[[[o|] b2] x2] w2]| |] eqn:Ea; try done; apply await_fragment_sends in Ea; by simplify_eq.
Qed.

Lemma serve_sends p limit w x res taken complete x' w' : serve p limit w x = Done (res, taken, complete, x', w') -> sends (channel_ x) (channel_ x').
Proof.
  unfold serve. destruct (handle _ _ _ _ _) as [[[[[raised t] b] x1] w1]| |] eqn:Eh; try done. apply handle_sends in Eh. intros H. etransitivity; [exact Eh|].
  assert (channel_ x' = channel_ x1) as ->; [|done]. destruct raised; [injection H as _ _ _ <- _; apply abort_channel|]. destruct (error_ b); [injection H as _ _ _ <- _; apply abort_channel|].
  destruct (poll w1) as [[] w2]; [injection H as _ _ _ <- _; apply abort_channel|]. destruct (complete_ b); [|injection H as _ _ _ <- _; apply abort_channel].
  destruct (finish w2 x1) as [x2 w3] eqn:Ef. injection H as _ _ _ <- _. by eapply finish_channel.
Qed.

(** A visit that a request led to. *)
Definition attempted (r : Message.request) (u : Url.url) (v : visit) : Prop :=
  visited_target v = u /\
  ((visited_request v = r /\ visited_exchange v = None) \/
   (complete_request r u = Ok (visited_request v) /\ forall x, visited_exchange v = Some x -> sent_over (visited_request v) u x)).

Lemma prepare_exchange_spec r u limit h p r' w : prepare_exchange pton6 order config snapshot scheduled r u limit h = (p, r', w) ->
  match p with
  | Ready x => complete_request r u = Ok r' /\ sent_over r' u x
  | Unprepared _ x => attempted r u (Visit r' u x None)
  | Prepare_throws x => attempted r u (Visit r' u x None)
  end.
Proof.
  unfold prepare_exchange. destruct (poll (connection h)) as [[] w0]; [intros [= <- <- _]; split; [done|by left]|]. destruct (_ || _ || _); [intros [= <- <- _]; split; [done|by left]|].
  destruct (_ && _); [intros [= <- <- _]; split; [done|by left]|]. destruct (acquired h); [|intros [= <- <- _]; split; [done|by left]..].
  destruct (complete_request r u) as [r1|] eqn:Er; [|intros [= <- <- _]; split; [done|by left]]. destruct (Route.serialize _ _ _ _ _ _) as [text|] eqn:Et; [|intros [= <- <- _]; split; [done|by right]].
  destruct (poll w0) as [[] w1]; [intros [= <- <- _]; split; [done|by right]|]. set (x0 := new_exchange _ _ _ _ _ _ _ _ _). set (data := if defer_body r1 then _ else _).
  assert (sent_over r1 u (with_channel (with_written data (channel_ x0)) x0)) as Hsent.
  { exists text. split; [done|]. split; [done|]. unfold data, x0. cbn. by destruct (defer_body r1); [left|]. }
  destruct (send_initial data _ _ x0) as [e x1] eqn:Es. assert (sent_over r1 u x1) as Hx1.
  { unfold send_initial in Es. destruct (write_request_data _ _); [by injection Es as _ <-|]. destruct (body_pending_ _ && _); [|by injection Es as _ <-]. destruct (send_pending_body _ _) as [e2 c2] eqn:E2. apply send_pending_body_sends in E2 as [E2 _].
    injection Es as _ <-. eapply sent_over_sends; [exact Hsent|exact E2]. }
  destruct e as [[e|]|]; intros [= <- <- _]; [..|done]; (split; [done|]; right; split; [done|]; intros x [= <-]; eapply sent_over_sends; [exact Hx1|]; by rewrite abort_channel).
Qed.

(** The visits of a client: each redirection that is followed leads to the next. *)
Inductive trail : Message.request -> Url.url -> Z -> list visit -> Prop :=
| trail_none r u n : trail r u n []
| trail_last r u n v : attempted r u v -> trail r u n [v]
| trail_step r u n v resp r' u' visits : attempted r u v -> make_redirect pton6 config snapshot (visited_request v) u resp n = Ok (Some (r', u')) -> trail r' u' (n + 1) visits -> trail r u n (v :: visits).

Lemma attempted_sent r u r' x got : complete_request r u = Ok r' -> sent_over r' u x -> attempted r u (Visit r' u (Some x) got).
Proof. intros Hc Hs. split; [done|]. right. split; [done|]. by intros y [= <-]. Qed.

Lemma attempted_abort r u r' x got : complete_request r u = Ok r' -> sent_over r' u x -> attempted r u (Visit r' u (Some (abort x)) got).
Proof. intros Hc Hs. apply attempted_sent; [done|]. eapply sent_over_sends; [exact Hs|]. by rewrite abort_channel. Qed.

Lemma send_request_trail hops : forall r u n, trail r u n (send_request pton6 order config snapshot scheduled hops r u n).1.
Proof.
  induction hops as [|h hops IH]; intros r u n; cbn [send_request]; [constructor|]. destruct (prepare_exchange _ _ _ _ _ _ _ _ _) as [[p r1] w] eqn:Ep. apply prepare_exchange_spec in Ep.
  destruct p as [x|e x|]; [|by constructor..]. destruct Ep as [Hc Hs]. destruct (collect _ _ _ _ _) as [[[c x1] w1]| |] eqn:Ec; [|by constructor; apply attempted_sent..].
  apply collect_sends in Ec. pose proof (sent_over_sends _ _ _ _ Hs Ec) as Hs1. destruct c as [body|e|]; [|by constructor; apply attempted_abort..].
  destruct (Plan.from_decoder _ _) as [resp|]; [|by constructor; apply attempted_abort]. destruct (finish w1 x1) as [x2 w2] eqn:Ef. apply finish_channel in Ef.
  assert (sent_over r1 u x2) as Hs2 by (eapply sent_over_sends; [exact Hs1|by rewrite Ef]).
  destruct (make_redirect _ _ _ _ _ _ _) as [[[r2 u2]|]|] eqn:Em; [|by constructor; apply attempted_sent..].
  specialize (IH r2 u2 (n + 1)). destruct (send_request _ _ _ _ _ hops r2 u2 (n + 1)) as [visits o]. eapply trail_step; [by apply attempted_sent|exact Em|exact IH].
Qed.

Lemma with_response_trail handler options hops : forall r u n, trail r u n (with_response_loop pton6 order config snapshot scheduled hops handler options r u n).1.
Proof.
  induction hops as [|h hops IH]; intros r u n; cbn [with_response_loop]; [constructor|]. destruct (prepare_exchange _ _ _ _ _ _ _ _ _) as [[p r1] w] eqn:Ep. apply prepare_exchange_spec in Ep.
  destruct p as [x|e x|]; [|by constructor..]. destruct Ep as [Hc Hs]. destruct (await_head _ _ _) as [[[c x1] w1]| |] eqn:Ec; [|by constructor; apply attempted_sent..].
  apply await_head_sends in Ec. pose proof (sent_over_sends _ _ _ _ Hs Ec) as Hs1. destruct c as [res|]; [by constructor; apply attempted_sent|].
  destruct (Plan.from_decoder _ _) as [resp|]; [|by constructor; apply attempted_abort].
  destruct (make_redirect _ _ _ _ _ _ _) as [[[r2 u2]|]|] eqn:Em; [| |by constructor; apply attempted_abort].
  - specialize (IH r2 u2 (n + 1)). destruct (with_response_loop _ _ _ _ _ hops handler options r2 u2 (n + 1)) as [visits o]. eapply trail_step; [by apply attempted_abort|exact Em|exact IH].
  - destruct (serve _ _ _ _) as [[[[[res t] c] x2] w2]| |] eqn:Es; [|by constructor; apply attempted_sent..]. apply serve_sends in Es. constructor. apply attempted_sent; [done|]. by eapply sent_over_sends.
Qed.

(** What goes over the exchange of a visit: a head with these lines, and the body or nothing.  The request that is not the first of its trail has the fields of a redirection. *)
Definition wire_ok (first : bool) (v : visit) : Prop :=
  forall x, visited_exchange v = Some x -> exists target lines body,
    concat (written (channel_ x)) = method_to_string (Message.method_ (visited_request v)) ++ str " " ++ target ++ str " " ++ Message.sent_version (visited_request v) ++ crlf ++ Headers.write_lines lines ++ crlf ++ body /\
    (body = [] \/ body = Message.body_ (visited_request v)) /\
    (first = false -> Headers.fields_of lines (lowercase (str "Host")) = [Url.host_authority (visited_target v)] /\
      forall name, Headers.fields_of lines (lowercase name) <> [] -> ascii_iequals name (str "Proxy-Authorization") = false -> exists a, a ∈ redirect_fields /\ ascii_iequals name a = true) /\
    (Headers.fields_of lines (lowercase (str "Proxy-Authorization")) <> [] ->
      exists p, Route.proxy snapshot = Some p /\ Url.is_secure (visited_target v) = false /\ Headers.fields_of lines (lowercase (str "Proxy-Authorization")) = [Route.authorization p]).

Lemma sent_headers_field r name : Route.orderly (Message.headers_ r) -> Route.written_field order (Message.sent_headers r) name <> [] ->
  Route.written_field order (Message.sent_headers r) name = Route.written_field order (Message.headers_ r) name.
Proof.
  intros Ho. unfold Message.sent_headers. destruct (_ && _); [|done]. destruct (Route.written_remove order order_enumerates (str "Expect") _ name Ho) as [_ ->]. by destruct (ascii_iequals name (str "Expect")).
Qed.

Lemma attempted_wire first r u v : attempted r u v -> Message.built r -> (first = false -> fresh (Url.host_authority u) r) -> wire_ok first v.
Proof.
  intros [Hu [[_ Hx]|[Hc Hx]]] Hb Hf x Ex; [congruence|]. destruct (Hx x Ex) as (text & Ht & _ & Hw). pose proof (complete_request_built _ _ _ Hb Hc) as (Hb1 & _).
  assert (exists body, concat (written (channel_ x)) = text ++ body /\ (body = [] \/ body = Message.body_ (visited_request v))) as (body & Hcat & Hbody).
  { destruct (defer_body _); [destruct Hw as [->|[-> _]]|destruct Hw as [-> _]]; cbn [concat]; rewrite ?app_nil_r; eauto. exists []. rewrite app_nil_r. auto. }
  apply (Route.serialize_routed _ _ _ _ _ _ _ order_enumerates Hb1) in Ht as (target & lines & -> & _ & _ & Hlines). exists target, lines, body. split; [rewrite Hcat, <-!app_assoc; done|]. split; [done|]. rewrite Hu. split.
  - intros E. apply (complete_request_fresh _ _ _ (Hf E)) in Hc. destruct Hc as [_ [Hord Hin] Hhost]. split.
    + rewrite Hlines. unfold Route.routed. change (ascii_iequals (str "Host") (str "Proxy-Authorization")) with false. change (ascii_iequals (str "Host") (str "Host")) with true. destruct (bool_decide _); [done|]. cbn [andb].
      assert (Route.written_field order (Message.sent_headers (visited_request v)) (str "Host") = Route.written_field order (Message.headers_ (visited_request v)) (str "Host")) as ->; [|done].
      unfold Message.sent_headers. destruct (_ && _); [|done]. by destruct (Route.written_remove order order_enumerates (str "Expect") _ (str "Host") Hord) as [_ ->].
    + intros name Hne Hpa. rewrite Hlines in Hne. unfold Route.routed in Hne. rewrite Hpa in Hne. destruct (ascii_iequals name (str "Host") && _) eqn:Eh; [apply andb_true_iff in Eh as [Eh _]; exists (str "Host"); split; [one_of|done]|].
      rewrite (sent_headers_field _ _ Hord Hne) in Hne. by apply Hin.
  - rewrite Hlines. unfold Route.routed. change (ascii_iequals (str "Proxy-Authorization") (str "Proxy-Authorization")) with true. destruct (bool_decide _ && _) eqn:Em; [|done]. intros _.
    apply andb_true_iff in Em as [Em Hc']. apply bool_decide_eq_true in Em. unfold Route.plan_mode in Em. destruct (Route.proxy snapshot) as [p|]; [|done]. exists p. by destruct (Url.is_secure u).
Qed.

(** A trail that starts with a redirected request, or with the first one. *)
Lemma trail_ok r0 u0 first r u n visits : trail r u n visits -> Message.built r -> (first = false -> fresh (Url.host_authority u) r) -> is_supported_http_url_scheme (Url.scheme u) = true ->
  (Url.is_secure u0 = true -> Url.is_secure u = true) -> (Message.body_ r = [] \/ Message.body_ r = Message.body_ r0) ->
  (length visits <= S (if follow_redirects config then Z.to_nat (max_redirects config - n) else 0))%nat /\
  forall i v, visits !! i = Some v -> is_supported_http_url_scheme (Url.scheme (visited_target v)) = true /\ (Url.is_secure u0 = true -> Url.is_secure (visited_target v) = true) /\
    (Message.body_ (visited_request v) = [] \/ Message.body_ (visited_request v) = Message.body_ r0) /\ wire_ok (first && (i =? 0)%nat) v.
Proof.
  intros Htr. revert first. induction Htr as [r u n|r u n v Ha|r u n v resp r' u' visits Ha Hm Htr IH]; intros first Hb Hf Hs Hsec Hbody; [split; [cbn; lia|done]|..].
  all: assert (is_supported_http_url_scheme (Url.scheme (visited_target v)) = true /\ (Url.is_secure u0 = true -> Url.is_secure (visited_target v) = true) /\
    (Message.body_ (visited_request v) = [] \/ Message.body_ (visited_request v) = Message.body_ r0) /\ wire_ok (first && true) v) as Hv.
  1,3: pose proof Ha as [-> Hc]; split; [done|]; split; [done|]; split; [destruct Hc as [[-> _]|[(_ & _ & -> & _)%complete_request_built _]]; done|]; eapply attempted_wire; [exact Ha|done|rewrite andb_true_r; done].
  - split; [cbn; lia|]. intros [|i] w; [intros [= <-]; exact Hv|done].
  - assert (Message.body_ (visited_request v) = [] \/ Message.body_ (visited_request v) = Message.body_ r0) as Hbv by apply Hv.
    apply make_redirect_spec in Hm as (Hfol & Hn & [Hfr Hs' Hsec' _ Hb']). destruct (IH false) as [Hlen Hall]; [apply Hfr|done|done|auto|destruct Hb' as [->| ->]; auto|].
    rewrite Hfol in *. split; [cbn [length]; clear -Hlen Hn; lia|]. intros [|i] w H; [injection H as <-; exact Hv|]. destruct (Hall i w H) as (? & ? & ? & Hw). rewrite andb_false_r. done.
Qed.

End Trails.

(** [C30] A redirection does not carry what the caller sent along, nor lead out of HTTP or from HTTPS to HTTP.  For every configuration, environment and handler, the visits of a buffered or of a streamed request are at most
    one more than the redirections allowed.  Each visit is to an HTTP or HTTPS target, and to an HTTPS target if the first target was one; its body is that of the original request or none, and what is written over its
    connection is one head and at most that body.  After the first visit the field lines are only those of a redirection: no cookie and no authorization of the caller reaches another target, and the [Host]
    is that of the target.  The credentials of a proxy are written on no visit but one that this proxy forwards. *)
Theorem redirects_confined pton6 order config snapshot scheduled hops handler options r u visits :
  (forall h, order h ≡ₚ Headers.headers_ h) -> Message.built r -> is_supported_http_url_scheme (Url.scheme u) = true ->
  visits = (send_request pton6 order config snapshot scheduled hops r u 0).1 \/ visits = (with_response_loop pton6 order config snapshot scheduled hops handler options r u 0).1 ->
  (length visits <= S (if follow_redirects config then Z.to_nat (max_redirects config) else 0))%nat /\
  forall i v, visits !! i = Some v ->
    is_supported_http_url_scheme (Url.scheme (visited_target v)) = true /\
    (Url.is_secure u = true -> Url.is_secure (visited_target v) = true) /\
    (Message.body_ (visited_request v) = [] \/ Message.body_ (visited_request v) = Message.body_ r) /\
    wire_ok snapshot (i =? 0)%nat v.
Proof.
  intros Ho Hb Hs Hv. assert (trail pton6 order config snapshot r u 0 visits) as Ht by (destruct Hv as [-> | ->]; [apply send_request_trail|apply with_response_trail]).
  destruct (trail_ok pton6 order Ho config snapshot r u true r u 0 visits Ht Hb ltac:(done) Hs ltac:(done) ltac:(by right)) as [Hl Hall]. rewrite Z.sub_0_r in Hl. split; [exact Hl|]. exact Hall.
Qed.

(** ** The response of the server *)

Section Answers.
Context (pton6 : list byte -> option (list byte)) (order : Headers.headers -> list (list byte * list byte)).
Context (config : client_config) (snapshot : Route.route_snapshot) (scheduled : bool).

Notation prepare := (prepare_exchange pton6 order config snapshot scheduled).

(** The decoder of a new exchange. *)
Definition client_decoder (m : method) : Response.response_decoder :=
  Response.set_request_method m (Response.set_max_header_size (max_header_size config) (Response.set_max_headers (max_headers config) Response.new_decoder)).

Lemma prepare_ready r u limit h x r' w : 0 <= limit <= SIZE_MAX -> prepare r u limit h = (Ready x, r', w) ->
  engaged (client_decoder (Message.method_ r')) [] [] x /\ opening x /\ lease_ x = Held /\ arrived w = arrived (connection h) /\ arrivals w = arrivals (connection h) /\ informational_limit x = limit.
Proof.
  intros Hlim. unfold prepare_exchange. destruct (poll (connection h)) as [[] w0] eqn:Ep; [done|]. destruct (_ || _ || _); [done|]. destruct (_ && _); [done|]. destruct (acquired h); [|done..].
  destruct (complete_request r u) as [r1|]; [|done]. destruct (Route.serialize _ _ _ _ _ _) as [text|]; [|done]. destruct (poll w0) as [[] w1] eqn:Ep1; [done|].
  set (x0 := new_exchange _ _ _ _ _ _ _ _ _). set (data := if defer_body r1 then _ else _). destruct (send_initial data _ _ x0) as [e x1] eqn:Es. destruct e as [[e|]|]; [done..|]. intros H.
  assert (x = x1 /\ r' = r1 /\ w = w1) as (-> & -> & ->) by (by injection H).
  destruct (new_exchange_engaged (read_buffer_size config) (max_headers config) (max_header_size config) (Message.method_ r1) (Message.body_ r1) (defer_body r1) limit
    (scheduled && (0 <? read_timeout config)) (scheduled && (0 <? expect_continue_timeout config)) Hlim) as [He Hop].
  assert (informational_limit x1 = limit) as Hil by (revert Es; unfold send_initial; destruct (write_request_data _ _); [done|]; destruct (body_pending_ _ && _); [destruct (send_pending_body _ _)|]; intros Hx%(f_equal snd); cbn [snd] in Hx; by rewrite <-Hx).
  apply (send_initial_engaged (client_decoder (Message.method_ r1)) _ _ _ _ _ _ []) in Es as (He1 & Hop1 & Hl1); [|done..]. apply arrived_poll in Ep as [Ea Ev], Ep1 as [-> ->]. by rewrite Ea, Ev.
Qed.

(** What is collected is the whole body, as the decoder gives it. *)
Lemma collect_body f h fuel : forall w x body b x' w', engaged f (arrived w) body x -> in_body h x -> zlen body <= max_response_size config -> collect config fuel w x body = Done (Collected b, x', w') ->
  grows w w' /\ served_all f (arrived w') b x' /\ in_body h x' /\ lease_ x' = lease_ x /\ zlen b <= max_response_size config.
Proof.
  induction fuel as [|fuel IH]; intros w x body b x' w' He Hin Hmax H; [done|]. cbn [collect] in H. destruct (next w x) as [[[a x1] w1]| |] eqn:En; try done. pose proof (next_grows _ _ _ _ _ _ En) as (Hg & _ & Hl).
  destruct a as [part|e|]; [|done..]. apply (next_body f h body) in En as (Hin1 & [(Hev & _ & He1)|(Hev & Hall)]); [| |done..]; rewrite Hev in H.
  - destruct (_ <? _) eqn:Ez; [done|]. apply IH in H as (Hg' & ? & ? & Hl' & ?); [|done|done|rewrite zlen_app; lia]. split; [by etransitivity|]. split_and!; try done. congruence.
  - injection H as <- <- <-. done.
Qed.

Lemma collect_opening f fuel w x b x' w' : engaged f (arrived w) [] x -> opening x -> 0 <= max_response_size config -> collect config fuel w x [] = Done (Collected b, x', w') ->
  exists h, grows w w' /\ served_all f (arrived w') b x' /\ in_body h x' /\ lease_ x' = lease_ x /\ zlen b <= max_response_size config.
Proof.
  intros He Hop Hmax H. destruct fuel as [|fuel]; [done|]. cbn [collect] in H. destruct (next w x) as [[[a x1] w1]| |] eqn:En; try done. pose proof (next_grows _ _ _ _ _ _ En) as (Hg & _ & Hl). destruct a as [part|e|]; [|done..].
  apply (next_opening f) in En as (Hev & He1 & Hin1 & _); [|done..]. rewrite Hev in H. exists (Response.head_of (decoder (reader x1))). apply (collect_body f (Response.head_of (decoder (reader x1)))) in H as (Hg' & ? & ? & Hl' & ?); [|done..]. split; [by etransitivity|]. split_and!; try done. congruence.
Qed.

(** The exchange that gave the response. *)
Lemma send_request_value hops : forall r u n visits resp, send_request pton6 order config snapshot scheduled hops r u n = (visits, Done (Value resp)) ->
  exists h r0 u0 x0 r1 w0 x1 w1 x2 w2, h ∈ hops /\ prepare r0 u0 (max_response_size config) h = (Ready x0, r1, w0) /\ collect config (budget w0 x0) w0 x0 [] = Done (Collected (Plan.body_ resp), x1, w1) /\
    Plan.from_decoder (decoder (reader x1)) (Plan.body_ resp) = Ok resp /\ finish w1 x1 = (x2, w2) /\ last visits = Some (Visit r1 u0 (Some x2) (Some (arrived w2))).
Proof.
  induction hops as [|h hops IH]; intros r u n visits resp H; cbn [send_request] in H; [done|]. destruct (prepare r u _ h) as [[p r1] w0] eqn:Ep. destruct p as [x0|e x0|]; [|done..].
  destruct (collect _ _ _ _ _) as [[[c x1] w1]| |] eqn:Ec; [|done..]. destruct c as [body|e|]; [|done..]. destruct (Plan.from_decoder _ _) as [resp1|] eqn:Ed; [|done]. destruct (finish w1 x1) as [x2 w2] eqn:Ef.
  destruct (make_redirect _ _ _ _ _ _ _) as [[[r2 u2]|]|] eqn:Em; [| |done].
  - destruct (send_request _ _ _ _ _ hops r2 u2 (n + 1)) as [vs o] eqn:Es. injection H as <- ->. destruct (IH _ _ _ _ _ Es) as (h' & r0 & u0 & y0 & r1' & v0 & y1 & v1 & y2 & v2 & Hin & Hp & Hc & Hd & Hf & Hlast).
    exists h', r0, u0, y0, r1', v0, y1, v1, y2, v2. split; [by right|]. split_and!; try done. rewrite last_cons, Hlast. done.
  - injection H as <- ->. assert (Plan.body_ resp = body) as Hb by (unfold Plan.from_decoder in Ed; destruct (Plan.set_version _ _); [|done]; by injection Ed as <-). rewrite <-Hb in *.
    exists h, r, u, x0, r1, w0, x1, w1, x2, w2. split; [left|]. done.
Qed.

Lemma from_decoder_spec d body resp : Plan.from_decoder d body = Ok resp -> Plan.body_ resp = body /\ Plan.status_ (Plan.head_ resp) = Response.status_ d /\ Plan.version_ (Plan.head_ resp) = Response.version_ d /\
  Plan.headers_ (Plan.head_ resp) = Response.headers_ d.
Proof. unfold Plan.from_decoder, Plan.set_version. destruct (negb _); [done|]. by intros [= <-]. Qed.

End Answers.

(** [C28] The response that a client returns is the one that the server sent.  Whatever redirections were followed before, whatever fails on the way and however the bytes arrive: when [send_request] returns a
    response, and on the connection of the last visit arrived the beginning of interim responses, of a reply that a server reported as sent, and of whatever follows, then the status, version and header fields are those of the reply,
    and the body is its body; only if the end of the connection delimits the body can it be cut short, with the connection.  The client has the default limits on the header (100 lines of 8192 bytes), and the reply respects them.  The body is within the configured limit, and the connection is given back for reuse only when it carried nothing else. *)
Theorem response_returned pton6 order config snapshot scheduled hops r u visits resp v got selected m reqv reuse no_memory w res selected' w' wire ints rest :
  (forall h, order h ≡ₚ Headers.headers_ h) -> max_headers config = 100 -> max_header_size config = 8192 -> 0 <= max_response_size config <= SIZE_MAX ->
  Forall (fun h => arrived (connection h) = []) hops -> send_request pton6 order config snapshot scheduled hops r u 0 = (visits, Done (Value resp)) ->
  last visits = Some v -> visited_received v = Some got -> Message.method_ (visited_request v) = m ->
  Writer.sendable order selected m reqv reuse -> Writer.send_response order selected m reqv reuse no_memory w = Some (res, selected', w') -> Writer.success (Writer.sent_result res) = true ->
  Writer.sent w' = Writer.sent w ++ wire -> Forall (interim (Plan.client m)) ints -> got `prefix_of` (concat ints ++ wire ++ rest) ->
  exists head description c, Writer.reply_head selected = Some (head, description) /\ Plan.decide_response head description m reqv reuse = Some c /\
    ((Plan.out_framing c = Plan.close_delimited -> rest = []) ->
     let whole := if bool_decide (Plan.out_framing c = Plan.none) then [] else Writer.reply_body selected in
     Plan.status_ (Plan.head_ resp) = Plan.status_ head /\ Plan.version_ (Plan.head_ resp) = Plan.out_version c /\
     (forall name, Headers.get name (Plan.headers_ (Plan.head_ resp)) = trim_ows (Headers.get name (Plan.out_headers c)) /\
        Headers.contains name (Plan.headers_ (Plan.head_ resp)) = Headers.contains name (Plan.out_headers c)) /\
     Plan.body_ resp `prefix_of` whole /\ (Plan.out_framing c <> Plan.close_delimited \/ got = concat ints ++ wire -> Plan.body_ resp = whole) /\
     zlen (Plan.body_ resp) <= max_response_size config /\
     (forall x, visited_exchange v = Some x -> lease_ x = Returned -> got = concat ints ++ wire)).
Proof.
  intros Ho Hmh Hms Hlim Hnew Hsend Hlast Hgot Hm Hsendable Hres Hok Hwire Hints Hpre. apply bool_decide_eq_true in Hok.
  destruct (Writer.send_response_sent _ _ _ _ _ _ _ _ _ _ Hsendable Hres Hok) as (wire' & head & c & pieces & Hw' & Hsa & _). rewrite Hwire in Hw'. apply app_inv_head in Hw' as <-.
  pose proof (Writer.sa_body _ _ _ _ _ _ _ _ _ Hsa) as (description & _ & Hhead & Hc & _). exists head, description, c. split; [done|]. split; [done|]. intros Hrest whole.
  destruct (sent_final order selected m reqv reuse wire head c pieces rest Ho Hsa Hrest) as (d & Hfin & Hrec & Hclose). pose proof (Writer.sa_pieces _ _ _ _ _ _ _ _ _ Hsa) as Hps. fold whole in Hps. rewrite Hps in Hfin.
  apply send_request_value in Hsend as (h & r0 & u0 & x0 & r1 & w0 & x1 & w1 & x2 & w2 & Hin & Hp & Hcol & Hd & Hf & Hl). rewrite Hlast in Hl. injection Hl as ->. cbn [visited_received visited_request visited_exchange] in *. injection Hgot as <-.
  apply prepare_ready in Hp as (He & Hop & Hheld & Ha & _); [|done]. rewrite Forall_forall in Hnew. rewrite (Hnew h Hin) in Ha. unfold client_decoder in He. rewrite Hmh, Hms, Hm in He. change (Response.set_request_method m _) with (Plan.client m) in He.
  apply (collect_opening config (Plan.client m)) in Hcol as (hd & Hg & Hall & Hbody & Hlease & Hz); [|by rewrite Ha|done|lia].
  assert (arrived w2 = arrived w1) as Ew by (unfold finish in Hf; destruct (poll w1) eqn:Ep; injection Hf as _ <-; by apply arrived_poll in Ep as [? _]). rewrite Ew in *.
  destruct (stream_complete _ _ _ _ _ _ _ _ _ _ Hfin Hints Hpre Hall Hbody) as [Hhd Hend]. destruct Hbody as [[_ Hset] _]. apply from_decoder_spec in Hd as (_ & -> & -> & ->).
  apply (received_head _ _ _ d (decoder (reader x1))) in Hrec as [H1 H2 _ H4]; [|congruence]. split; [done|]. split; [done|]. split; [done|].
  split; [eapply stream_honest; [exact Hfin|exact Hints|by eapply served_all_honest|done]|]. split; [|split; [done|]].
  - intros Hcut. case_bool_decide as Hcd; [|by destruct Hend]. destruct Hend as [_ Hend]. apply Hend. destruct Hcut as [Hne|Harr]; [by destruct Hne; apply Hclose|done].
  - intros x [= <-] Hret. assert (reusable x1 = true) as Hreuse by (unfold finish, settle_lease in Hf; rewrite Hlease, Hheld in Hf; destruct (poll w1) as [[] ?]; injection Hf as <- _; [done|]; cbn in Hret; by destruct (reusable x1)).
    unfold reusable, bytes_remaining in Hreuse. repeat (apply andb_true_iff in Hreuse as [Hreuse ?]). case_bool_decide; [destruct Hend as [Heof _]; by rewrite Heof in *|].
    destruct Hend as (_ & -> & _). assert (window (reader x1) = []) as -> by (apply length_zero_iff_nil; unfold zlen in *; lia). by rewrite app_nil_r.
Qed.

(** ** Progress *)

(** A hop on which nothing is cancelled or fails, and that brings [bytes]. *)
Record calm_hop (h : hop) (bytes : list byte) (eof : bool) : Prop := {
  ch_acquired : acquired h = Leased;
  ch_writes : good (first_write h) /\ good (body_write h);
  ch_new : arrived (connection h) = [];
  ch_flow : flow (arrivals (connection h)) bytes eof;
  ch_polls : Forall (eq false) (polls (connection h));
  ch_uploads : Forall good (uploads (connection h)) /\ uploads (connection h) <> [];
}.

(** A request that can be sent to its target. *)
Record acceptable (pton6 : list byte -> option (list byte)) (order : Headers.headers -> list (list byte * list byte)) (snapshot : Route.route_snapshot) (r : Message.request) (u : Url.url) (r1 : Message.request) : Prop := {
  ac_authority : is_valid_url_input (Url.host_authority u) = true;
  ac_target : is_valid_request_target (Message.path_with_query r) = true;
  ac_proxy : proxied snapshot = true -> Route.valid_authority pton6 u = true /\ Message.method_ r <> CONNECT;
  ac_complete : complete_request r u = Ok r1;
  ac_text : exists text, Route.serialize pton6 order r1 u (Route.plan_mode u snapshot) (Route.proxy snapshot) = Ok text;
}.

Lemma prepare_calm pton6 order config snapshot scheduled r u limit h bytes eof r1 : calm_hop h bytes eof -> acceptable pton6 order snapshot r u r1 ->
  exists x w, prepare_exchange pton6 order config snapshot scheduled r u limit h = (Ready x, r1, w) /\ serene eof w x bytes.
Proof.
  intros [Hacq [Hg1 Hg2] Hnew Hflow Hpolls [Hup Hun]] [Hau Hta Hpr Hco [text Ht]]. destruct (poll_calm _ Hpolls) as (w0 & Ep & Ea0 & Ev0 & Eu0 & Hp0). destruct (poll_calm _ Hp0) as (w1 & Ep1 & Ea1 & Ev1 & Eu1 & Hp1).
  unfold prepare_exchange. rewrite Ep, Hau, Hta. assert (proxied snapshot && negb (Route.valid_authority pton6 u) = false /\ proxied snapshot && bool_decide (Message.method_ r = CONNECT) = false) as [-> ->].
  { destruct (proxied snapshot); [|done]. destruct (Hpr eq_refl) as [-> Hm]. by rewrite bool_decide_false. }
  cbn [negb orb]. rewrite Hacq, Hco, Ht, Ep1. set (x0 := new_exchange _ _ _ _ _ _ _ _ _). set (data := if defer_body r1 then _ else _).
  destruct (send_initial data _ _ x0) as [e x1] eqn:Es. assert (e = None /\ reader x1 = reader x0 /\ fallback_error_ (channel_ x1) = None) as (-> & Hr1 & Hf1).
  { revert Es. unfold send_initial, write_request_data. destruct Hg1 as (_ & Hr & Hl & Hi), Hg2 as (Hll & Hlr & Hlt & Hli). rewrite Hr, Hl, andb_false_r, (proj2 (Z.leb_gt _ _)) by done. destruct (body_pending_ _ && _); [|intros [= <- <-]; done].
    unfold send_pending_body. rewrite Hll, andb_false_r. unfold write_request_data. rewrite Hlr, Hlt, andb_false_r, (proj2 (Z.leb_gt _ _)) by done. destruct (negb _); intros [= <- <-]; done. }
  exists x1, w1. split; [done|]. constructor; [|done|done|rewrite Eu1, Eu0; done]. unfold ahead. rewrite Hr1, Ev1, Ev0. exact Hflow.
Qed.

Section Collecting.
Context (config : client_config) (f : Response.response_decoder) (message body rest : list byte) (d : Response.response_decoder) (ints : list (list byte)) (eof : bool).

Lemma collect_serene h fuel : forall w x given bytes, course f message body rest d ints eof -> engaged f (arrived w) given x -> in_body h x -> serene eof w x bytes -> arrived w ++ bytes = concat ints ++ message ++ rest ->
  zlen body <= max_response_size config -> (length body - length given < fuel)%nat ->
  exists x' w' bytes', collect config fuel w x given = Done (Collected body, x', w') /\ serene eof w' x' bytes' /\ arrived w' ++ bytes' = concat ints ++ message ++ rest.
Proof.
  induction fuel as [|fuel IH]; intros w x given bytes Hco He Hin Hse Hall Hmax Hfuel; [lia|]. pose proof Hco as [Hfin Hints _]. cbn [collect].
  destruct (next_body_serene f message body rest d ints eof h given (budget w x) w x bytes Hco He Hin Hse Hall) as (p & x1 & w1 & bytes1 & En & Hse1 & Hall1); [by eapply rounds_budget|].
  unfold next. rewrite En. assert (arrived w1 `prefix_of` (concat ints ++ message ++ rest)) as Hpre by (by exists bytes1).
  apply (next_body f h given) in En as (Hin1 & [(Hev & Hfr & He1)|(Hev & Hserved)]); [| |done..]; rewrite Hev.
  - assert ((given ++ fragment p) `prefix_of` body) as Hp by (eapply stream_honest; [exact Hfin|exact Hints| |exact Hpre]; eapply (engaged_honest f _ _ []); by rewrite app_nil_r).
    apply prefix_length in Hp. rewrite length_app in Hp. rewrite (proj2 (Z.ltb_ge _ _)) by (unfold zlen in *; lia). destruct (fragment p) as [|b0 b]; [done|]. cbn [length] in Hp.
    eapply IH; try done. rewrite length_app. cbn [length]. lia.
  - exists x1, w1, bytes1. split; [|done]. assert (given = body) as ->; [|done]. destruct (stream_complete _ _ _ _ _ _ _ _ _ _ Hfin Hints Hpre Hserved Hin1) as [_ Hend].
    case_bool_decide as Hcb; [|apply Hend]. destruct Hend as [Hreof Hend]. apply Hend. destruct Hse1 as [Hah _ _ _]. unfold ahead in Hah. rewrite Hreof in Hah. destruct Hah as [-> _].
    rewrite app_nil_r in Hall1. rewrite Hall1. destruct Hfin as [_ _ [Ht0|[_ ->]]]; [unfold Response.terminal in Ht0; by rewrite Hcb in Ht0|by rewrite app_nil_r].
Qed.

Lemma collect_all w x bytes : course f message body rest d ints eof -> engaged f (arrived w) [] x -> opening x -> serene eof w x bytes -> arrived w = [] -> bytes = concat ints ++ message ++ rest ->
  zlen (concat ints) <= informational_limit x -> 0 <= zlen body <= max_response_size config ->
  exists x' w' bytes', collect config (budget w x) w x [] = Done (Collected body, x', w') /\ serene eof w' x' bytes' /\ arrived w' ++ bytes' = concat ints ++ message ++ rest.
Proof.
  intros Hco He Hop Hse Ha Hall Hlim Hmax. pose proof (rounds_budget eof w x bytes Hse) as Hb.
  assert (S (S (length body)) < budget w x)%nat as Hbud.
  { destruct Hco as [[Hrun _ _] _ _]. apply Response.run_payload_le in Hrun. assert (length bytes <= to_come w + length (window (reader x)))%nat as Hl.
    { destruct Hse as [Hah _ _ _]. unfold ahead in Hah. destruct (reached_eof (reader x)); [destruct Hah as [-> _]; cbn; lia|]. apply flow_length in Hah. unfold to_come, arriving. lia. }
    rewrite Hall, !length_app in Hl. unfold budget. lia. }
  destruct (budget w x) as [|fuel] eqn:Eb; [lia|]. cbn [collect].
  destruct (next_opening_serene f message body rest d ints eof (budget w x) w x bytes Hco He Hop Hse) as (p & x1 & w1 & bytes1 & En & Hse1 & Hall1); [by rewrite Ha, Hall|done|by rewrite Eb|].
  unfold next. rewrite En. apply (next_opening f) in En as (Hev & He1 & Hin1 & _); [|done..]. rewrite Hev. eapply collect_serene; try done; [lia|cbn [length]; lia].
Qed.

End Collecting.

(** [C29] A response that is sent is returned.  The client has the default limits on the header (100 lines of 8192 bytes), the reply respects them, and both its body and the interim responses together are within [max_response_size].  When the request is acceptable, a connection is obtained, the request is written, and the interim responses and the whole of a reply that was reported as sent arrive, in any pieces, with
    interrupted reads and with a wait for an interim response that may expire, then [send_request] returns a response with the status and the complete body of the reply, unless its status asks for a redirection. *)
Theorem response_obtained pton6 order config snapshot scheduled h hops r u r1 selected reqv reuse no_memory w res selected' w' head description c wire ints rest eof :
  (forall h, order h ≡ₚ Headers.headers_ h) -> max_headers config = 100 -> max_header_size config = 8192 -> zlen (concat ints) <= max_response_size config <= SIZE_MAX -> zlen (Writer.reply_body selected) <= max_response_size config ->
  acceptable pton6 order snapshot r u r1 ->
  Writer.sendable order selected (Message.method_ r1) reqv reuse -> Writer.send_response order selected (Message.method_ r1) reqv reuse no_memory w = Some (res, selected', w') -> Writer.success (Writer.sent_result res) = true ->
  Writer.sent w' = Writer.sent w ++ wire -> Writer.reply_head selected = Some (head, description) -> Plan.decide_response head description (Message.method_ r1) reqv reuse = Some c ->
  is_auto_follow_redirect (Plan.status_ head) = false -> Forall (interim (Plan.client (Message.method_ r1))) ints -> calm_hop h (concat ints ++ wire ++ rest) eof ->
  (Plan.out_framing c = Plan.close_delimited -> eof = true /\ rest = []) ->
  exists v resp, send_request pton6 order config snapshot scheduled (h :: hops) r u 0 = ([v], Done (Value resp)) /\
    Plan.status_ (Plan.head_ resp) = Plan.status_ head /\ Plan.body_ resp = if bool_decide (Plan.out_framing c = Plan.none) then [] else Writer.reply_body selected.
Proof.
  intros Ho Hmh Hms Hlim Hmax Hacc Hsendable Hres Hok Hwire Hhead Hc Hredir Hints Hcalm Hcd. apply bool_decide_eq_true in Hok. set (m := Message.method_ r1) in *.
  destruct (Writer.send_response_sent _ _ _ _ _ _ _ _ _ _ Hsendable Hres Hok) as (wire' & head' & c' & pieces & Hw' & Hsa & _). rewrite Hwire in Hw'. apply app_inv_head in Hw' as <-.
  pose proof (Writer.sa_body _ _ _ _ _ _ _ _ _ Hsa) as (description' & wl & Hhead' & Hc' & Hdec). rewrite Hhead in Hhead'. injection Hhead' as <- <-. rewrite Hc in Hc'. injection Hc' as <-.
  destruct (sent_final order selected m reqv reuse wire head c pieces rest Ho Hsa) as (d & Hfin & Hrec & Hclose); [intros Hf; by destruct (Hcd Hf)|].
  pose proof (Writer.sa_pieces _ _ _ _ _ _ _ _ _ Hsa) as Hps. set (whole := if bool_decide (Plan.out_framing c = Plan.none) then [] else Writer.reply_body selected) in *. rewrite Hps in Hfin.
  assert (0 <= zlen whole <= max_response_size config) as Hwl by (unfold whole, zlen in *; destruct (bool_decide _); cbn; lia).
  assert (course (Plan.client m) wire whole rest d ints eof) as Hco by (split; [done|done|]; intros Hs; split; [by apply Hcd, Hclose|apply Hrec]).
  destruct (prepare_calm pton6 order config snapshot scheduled r u (max_response_size config) h _ eof r1 Hcalm Hacc) as (x & v0 & Hp & Hse).
  assert (0 <= max_response_size config <= SIZE_MAX) as Hlim' by (unfold zlen in *; lia). pose proof (prepare_ready _ _ _ _ _ _ _ _ _ _ _ _ Hlim' Hp) as (He & Hop & _ & Ha & _ & Hil). rewrite (ch_new _ _ _ Hcalm) in Ha.
  unfold client_decoder in He. rewrite Hmh, Hms in He. change (Response.set_request_method _ _) with (Plan.client m) in He.
  destruct (collect_all config _ _ _ _ _ _ _ v0 x (concat ints ++ wire ++ rest) Hco) as (x1 & v1 & bytes1 & Ec & Hse1 & Hall1); [by rewrite Ha|done|exact Hse|done|done|rewrite Hil; lia|done|].
  cbn [send_request]. rewrite Hp, Ec. apply (collect_opening config (Plan.client m)) in Ec as (hd & _ & Hall & Hbody & _); [|by rewrite Ha|done|lia].
  assert (arrived v1 `prefix_of` (concat ints ++ wire ++ rest)) as Hpre by (by exists bytes1). destruct (stream_complete _ _ _ _ _ _ _ _ _ _ Hfin Hints Hpre Hall Hbody) as [Hhd _]. destruct Hbody as [[_ Hset] _].
  apply (received_head _ _ _ d (decoder (reader x1))) in Hrec as [Hst Hver _ _]; [|congruence]. unfold Plan.from_decoder, Plan.set_version. rewrite Hver, Hst.
  assert (is_valid_http_version (Plan.out_version c) = true) as -> by (destruct (Plan.dc_version _ _ _ _ _ Hdec) as [-> | ->]; reflexivity). cbn [negb]. destruct (finish v1 x1) as [x2 v2].
  unfold make_redirect, redirect_target. cbn [Plan.status_ Plan.head_ Plan.new_head]. rewrite Hredir, orb_true_r. cbn [orb]. by eexists _, _.
Qed.

(** ** Termination *)

Lemma collect_ends config f h fuel : forall w x body, engaged f (arrived w) body x -> in_body h x -> (held w x < fuel)%nat -> collect config fuel w x body <> Spent.
Proof.
  induction fuel as [|fuel IH]; intros w x body He Hin Hfuel; [lia|]. cbn [collect]. pose proof (next_body_ends f h body _ w x He Hin (credit_budget w x)) as Hn. fold (next w x) in Hn.
  destruct (next w x) as [[[[p|e|] x1] w1]| |] eqn:En; try done. apply (next_body f h body) in En as (Hin1 & [(Hev & _ & He1)|(Hev & _)]); [| |done..]; rewrite Hev; [|done].
  destruct (_ <? _); [done|]. apply IH; [done|done|]. cbn [ends] in Hn. rewrite Hev in Hn. cbn in Hn. lia.
Qed.

Lemma collect_opening_ends config f w x : engaged f (arrived w) [] x -> opening x -> collect config (budget w x) w x [] <> Spent.
Proof.
  intros He Hop. assert (budget w x = S (2 * held w x + 3)) as -> by (unfold budget, held; lia). cbn [collect]. pose proof (next_opening_ends f _ w x He Hop (credit_budget w x)) as Hn. fold (next w x) in Hn.
  destruct (next w x) as [[[[p|e|] x1] w1]| |] eqn:En; try done. apply (next_opening f) in En as (Hev & He1 & Hin1 & _); [|done..]. rewrite Hev. cbn [ends] in Hn. eapply collect_ends; [exact He1|exact Hin1|lia].
Qed.

(** [C31] A request ends whenever the environment has answered all that it waits for.  On every hop, whatever the connection, the writes, the clock and the token answer, and however many interim
    responses a server sends before the limit is reached, the loops that skip them, collect the fragments of a body or hand them to a handler come to an end: a buffered or a streamed request
    is done, or it waits for an answer of the environment. *)
Theorem requests_terminate pton6 order config snapshot scheduled hops handler options r u n :
  0 <= max_response_size config <= SIZE_MAX -> 0 <= max_informational_bytes options <= SIZE_MAX -> 0 <= max_body_size options <= SIZE_MAX -> Forall (fun h => arrived (connection h) = []) hops ->
  (send_request pton6 order config snapshot scheduled hops r u n).2 <> Spent /\ (with_response_loop pton6 order config snapshot scheduled hops handler options r u n).2 <> Spent.
Proof.
  intros Hmax Hinf Hbody Hnew. revert r u n. induction Hnew as [|h hops Hh _ IH]; intros r u n; [done|]. split; cbn [send_request with_response_loop].
  - destruct (prepare_exchange _ _ _ _ _ _ _ _ _) as [[p r1] w] eqn:Ep. destruct p as [x|e x|]; [|done..]. apply prepare_ready in Ep as (He & Hop & _ & Ha & _); [|done].
    rewrite Hh in Ha. assert (engaged (client_decoder config (Message.method_ r1)) (arrived w) [] x) as He0 by (by rewrite Ha). pose proof (collect_opening_ends config _ w x He0 Hop) as Hc. destruct (collect _ _ _ _ _) as [[[c x1] w1]| |]; [|done..]. destruct c as [body|e|]; [|done..].
    destruct (Plan.from_decoder _ _); [|done]. destruct (finish w1 x1). destruct (make_redirect _ _ _ _ _ _ _) as [[[r2 u2]|]|]; [|done..]. destruct (IH r2 u2 (n + 1)) as [K _]. by destruct (send_request _ _ _ _ _ hops r2 u2 (n + 1)).
  - destruct (prepare_exchange _ _ _ _ _ _ _ _ _) as [[p r1] w] eqn:Ep. destruct p as [x|e x|]; [|done..]. apply prepare_ready in Ep as (He & Hop & _ & Ha & _); [|done].
    rewrite Hh in Ha. assert (engaged (client_decoder config (Message.method_ r1)) (arrived w) [] x) as He0 by (by rewrite Ha). assert (budget w x = S (2 * held w x + 3)) as -> by (unfold budget, held; lia). pose proof (await_head_ends _ (2 * held w x + 3) w x He0 Hop) as Hc.
    destruct (await_head _ _ _) as [[[c x1] w1]| |] eqn:Ea; [|done..]. destruct c as [c|]; [done|]. apply (await_head_spec (client_decoder config (Message.method_ r1))) in Ea as (He1 & Hin1 & _); [|done..].
    destruct (Plan.from_decoder _ _) as [head|]; [|done]. destruct (make_redirect _ _ _ _ _ _ _) as [[[r2 u2]|]|]; [| |done].
    + destruct (IH r2 u2 (n + 1)) as [_ K]. by destruct (with_response_loop _ _ _ _ _ hops handler options r2 u2 (n + 1)).
    + pose proof (serve_ends _ _ (handler head) _ w1 x1 He1 Hin1 Hbody) as Hs. by destruct (serve _ _ w1 x1) as [[[[[res t] c] x2] w2]| |].
Qed.

(** ** A redirected request *)

Definition plain_config : client_config := ClientConfig 30 8192 (str "elio-http/1.0") 100 8192 5 true 16777216 1000.
Definition plain_snapshot : Route.route_snapshot := Route.Snapshot Route.direct [] 1 2 3 Route.http1 Route.local None.
Definition page_url : Url.url := Url.Url (str "http") (str "a.example") 0 (str "/") [] [] [].
Definition cookie_request : Message.request := Eval vm_compute in
  match Message.set_header (str "Cookie") (str "id=1") Message.new_request with Ok r => r | Throw _ => Message.new_request end.
Definition moved : list byte := str "HTTP/1.1 302 Found" ++ crlf ++ str "Location: http://b.example/x" ++ crlf ++ str "Content-Length: 0" ++ crlf ++ crlf.
Definition moved_hop : hop := Hop Leased sent_well sent_well (World [] [piece moved] [] [sent_well]).
Definition hello_hop : hop := Hop Leased sent_well sent_well hello_arrivals.
Definition no_address : list byte -> option (list byte) := fun _ => None.

Lemma cookie_request_built : Message.built cookie_request.
Proof. apply (Message.built_headers (Headers.Set_ (str "Cookie") (str "id=1")) Message.new_request); [apply Message.built_new|by vm_compute]. Qed.

Definition hello_visits : list visit := (send_request no_address Headers.headers_ plain_config plain_snapshot true [moved_hop; hello_hop] cookie_request page_url 0).1.

Lemma redirects_confined_witness : length hello_visits = 2%nat /\ (length hello_visits <= 6)%nat /\
  forall i v, hello_visits !! i = Some v ->
    is_supported_http_url_scheme (Url.scheme (visited_target v)) = true /\
    (Url.is_secure page_url = true -> Url.is_secure (visited_target v) = true) /\
    (Message.body_ (visited_request v) = [] \/ Message.body_ (visited_request v) = Message.body_ cookie_request) /\
    wire_ok plain_snapshot (i =? 0)%nat v.
Proof.
  split; [vm_compute; reflexivity|].
  apply (redirects_confined no_address Headers.headers_ plain_config plain_snapshot true [moved_hop; hello_hop] (fun _ => Return) (Options 100 100) cookie_request page_url hello_visits (fun h => Permutation_refl _) cookie_request_built).
  - reflexivity.
  - left. reflexivity.
Defined.

Lemma response_returned_witness : exists visits resp, send_request no_address Headers.headers_ plain_config plain_snapshot true [moved_hop; hello_hop] cookie_request page_url 0 = (visits, Done (Value resp)) /\
  length visits = 2%nat /\ Plan.body_ resp = str "hello world".
Proof.
  destruct (Writer.send_response Headers.headers_ Writer.hello_reply GET (str "HTTP/1.1") true false Writer.seven_world) as [[[res selected'] w']|] eqn:E; [|vm_compute in E; discriminate E].
  assert (Writer.success (Writer.sent_result res) = true /\ Writer.sent w' = hello_wire) as [Hok Hw] by (vm_compute in E; injection E as <- _ <-; split; reflexivity).
  assert (exists visits resp v, send_request no_address Headers.headers_ plain_config plain_snapshot true [moved_hop; hello_hop] cookie_request page_url 0 = (visits, Done (Value resp)) /\ length visits = 2%nat /\
    last visits = Some v /\ visited_received v = Some (go_ahead ++ hello_wire) /\ Message.method_ (visited_request v) = GET) as (visits & resp & v & Hs & Hl & Hv & Hg & Hm)
    by (eexists _, _, _; split; [vm_compute; reflexivity|]; repeat split; vm_compute; reflexivity).
  exists visits, resp. split; [exact Hs|]. split; [exact Hl|].
  destruct (response_returned no_address Headers.headers_ plain_config plain_snapshot true [moved_hop; hello_hop] cookie_request page_url visits resp v (go_ahead ++ hello_wire) Writer.hello_reply GET (str "HTTP/1.1") true false
    Writer.seven_world res selected' w' hello_wire [go_ahead] []) as (head & description & c & Hh & Hc & Hall).
  - reflexivity.
  - reflexivity.
  - reflexivity.
  - split; vm_compute; discriminate.
  - repeat constructor.
  - exact Hs.
  - exact Hv.
  - exact Hg.
  - exact Hm.
  - exact Writer.hello_sendable.
  - exact E.
  - exact Hok.
  - exact Hw.
  - constructor; [exact go_ahead_interim|constructor].
  - cbn [concat]. rewrite !app_nil_r. reflexivity.
  - cbn [Writer.reply_head Writer.hello_reply Writer.streaming_head Writer.body_length Writer.streaming_transfer] in Hh. injection Hh as <- <-.
    change (Plan.decide_response _ _ _ _ _) with (Some Plan.page_decision) in Hc. injection Hc as <-. destruct Hall as (_ & _ & _ & _ & Hall & _); [discriminate|]. apply Hall. left. discriminate.
Defined.

Lemma response_obtained_witness : exists v resp, send_request no_address Headers.headers_ plain_config plain_snapshot true [hello_hop] cookie_request page_url 0 = ([v], Done (Value resp)) /\
  Plan.status_ (Plan.head_ resp) = 200 /\ Plan.body_ resp = str "hello world".
Proof.
  destruct (Writer.send_response Headers.headers_ Writer.hello_reply GET (str "HTTP/1.1") true false Writer.seven_world) as [[[res selected'] w']|] eqn:E; [|vm_compute in E; discriminate E].
  assert (Writer.success (Writer.sent_result res) = true /\ Writer.sent w' = hello_wire) as [Hok Hw] by (vm_compute in E; injection E as <- _ <-; split; reflexivity).
  assert (exists r1, complete_request cookie_request page_url = Ok r1 /\ Message.method_ r1 = GET /\ exists text, Route.serialize no_address Headers.headers_ r1 page_url Route.direct None = Ok text) as (r1 & Hr1 & Hm & Htext)
    by (eexists; split; [vm_compute; reflexivity|]; split; [vm_compute; reflexivity|]; eexists; vm_compute; reflexivity).
  apply (response_obtained no_address Headers.headers_ plain_config plain_snapshot true hello_hop [] cookie_request page_url r1 Writer.hello_reply (str "HTTP/1.1") true false Writer.seven_world res selected' w' Plan.page
    (Plan.BodyDescription Plan.streaming None Plan.automatic) Plan.page_decision hello_wire [go_ahead] [] false); rewrite ?Hm.
  - reflexivity.
  - reflexivity.
  - reflexivity.
  - split; vm_compute; discriminate.
  - vm_compute; discriminate.
  - split; [reflexivity|reflexivity|discriminate|exact Hr1|exact Htext].
  - exact Writer.hello_sendable.
  - exact E.
  - exact Hok.
  - exact Hw.
  - reflexivity.
  - reflexivity.
  - reflexivity.
  - constructor; [exact go_ahead_interim|constructor].
  - assert (good sent_well) as Hgood by (split; [reflexivity|split; [reflexivity|split; reflexivity]]).
    constructor; [reflexivity|split; exact Hgood|reflexivity| |constructor|split; [constructor; [exact Hgood|constructor]|discriminate]].
    replace (concat [go_ahead] ++ hello_wire ++ []) with (concat hello_pieces) by (vm_compute; reflexivity). apply flow_pieces. repeat constructor; discriminate.
  - discriminate.
Defined.

Lemma requests_terminate_witness :
  (send_request no_address Headers.headers_ plain_config plain_snapshot true [moved_hop; hello_hop] cookie_request page_url 0).2 <> Spent /\
  (with_response_loop no_address Headers.headers_ plain_config plain_snapshot true [moved_hop; hello_hop] (fun _ => reading [4; 4; 4; 4]) (Options 100 100) cookie_request page_url 0).2 <> Spent.
Proof.
  apply requests_terminate.
  - split; vm_compute; discriminate.
  - split; vm_compute; discriminate.
  - split; vm_compute; discriminate.
  - repeat constructor.
Defined.

End Client.
